(* ===== verification/_CoqProject ===== *)
-Q . S2P
Prelude.v
External.v
Instances.v
Wire.v
Cddl.v
WireCodec.v
WireLaws.v
WireThms.v
WireProps.v
Context.v
Channel.v
ChannelProps.v
Mailbox.v
MailboxInv.v
MailboxStep.v
MailboxSpec.v
MailboxThms.v
Limiter.v
LimiterInv.v
LimiterThms.v
Observability.v
Storage.v
StorageLaws.v
StorageProps.v
Relay.v
RelayInv.v
RelaySafe.v
RelayLoops.v
RelayMessages.v
RelayProps.v
RelayFlow.v
RelayRuns.v
RelayWire.v
CurveExternal.v
Field.v
Cpace.v
CpaceProps.v
Profile.v
ProfileThms.v
ProfileProps.v
CbclExternal.v
CbclProtocol.v
CbclThms.v
CbclMonitors.v
CbclDemo.v
CbclProps.v
InvitationRecord.v
Calm.v
Endpoint.v
EndpointInv.v
EndpointSteps.v
EndpointOps.v
EndpointProps.v
CredCore.v
CredFrame.v
CredDisplay.v
CredDisplayThms.v
CredCarrier.v
CredContext.v
CredPresence.v
CredHandoff.v
CredHandoffThms.v
CredProps.v
CredChannel.v
CredEndpoint.v
CredStory.v
CredCeremony.v
CredEndpointProps.v
CredBytes.v
CredCheckpoint.v
CredCheckpointThms.v
CredCheckpointProps.v
CredBootstrap.v
CredBootstrapThms.v
CredAllocator.v
CredClaimant.v
CredSessionThms.v
CredSessionProps.v
RelayShell.v
RelayShellProps.v
