(* ===== verification/Prelude.v ===== *)
(** * cbcl-pairing: a verification development

    The repository holds a rendezvous relay that lets two devices exchange a
    bounded number of opaque frames through a mailbox, and two end-to-end
    protocols the devices run over it: version 1, which hands over one grant,
    and credential/v2, a longer ceremony that survives crashes.  This library
    models the relay and both protocols and proves them correct.

    ** The program and its models

    - The mailbox ([src/mailbox.rs]) is a pure state machine: an allocator and
      at most one claimant, per-member contiguous frames with digests, an
      absolute expiry, terminal states.  [Mailbox.v] has the records and
      [allocate], [allocate_v2], [transition] (one definition per command),
      [snapshot] and [from_snapshot].  [MailboxInv.v] states the invariant
      [mailbox_ok], [MailboxStep.v] shows that every command keeps it and
      treats snapshots, [MailboxSpec.v] has the abstract mailbox that keeps
      whole bodies and the simulation between the two, [MailboxThms.v] the
      properties.
    - The rate limiter ([src/limiter.rs]) keeps sliding windows and cooldowns
      per operation and keyed peer, with least-recently-used eviction.
      [Limiter.v] has the address forms it reads and the operations,
      [LimiterInv.v] the invariant, [LimiterThms.v] the properties.
    - [Observability.v] models [src/observability.rs]: saturating counters,
      gauges and alerts.
    - The store ([src/storage.rs]): [Storage.v] has the store interface as the
      class [MailboxStore], the memory store, the record codec, and the file
      store over a directory whose system calls fail, tear or die by a
      schedule.  [StorageLaws.v] proves the record codec and the laws
      [StoreLaws] for both stores, [StorageProps.v] the properties.
    - The relay ([src/relay.rs]) ties these together: connections, routes, the
      nameplate, hash and expiry indexes, and the entry points [handle],
      [disconnect], [sweep], [emergency_close].  [Relay.v] has the service,
      generic in the store; [RelayInv.v] the invariant [relay_ok];
      [RelaySafe.v] and [RelayLoops.v] show that every operation keeps it, by
      weakest preconditions; [RelayMessages.v] says who is sent what;
      [RelayProps.v] and [RelayFlow.v] have the properties, [RelayRuns.v]
      concrete runs, [RelayWire.v] joins the relay to the wire.
    - The wire format ([src/wire.rs], [schemas/pairing-v1.cddl]): [Wire.v] has
      the message types, [Cddl.v] the schema, [WireCodec.v] the recognisers
      and codecs, [WireLaws.v] and [WireThms.v] the codec class [MapCodec] and
      its instances, [WireProps.v] the properties.
    - The pairing context ([src/context.rs]) and the secure channel
      ([src/channel.rs]): [Context.v] and [Channel.v] have the definitions,
      with the runs and invariants of a channel, [ChannelProps.v] the
      properties.
    - The CPace exchange ([src/cpace.rs], [src/cpace/field.rs]):
      [CurveExternal.v] has the field primitives and X25519 as classes,
      [Field.v] the field wrapper, the Elligator map and what it computes,
      [Cpace.v] the exchange, [CpaceProps.v] its properties, up to the
      confirmed channels of both sides.
    - The profiles ([src/profile.rs]): [Profile.v] has the trait as the class
      [ApplicationProfile], the three built-in profiles, their codecs and the
      two-word carrier, [ProfileThms.v] the codecs' inverses, [ProfileProps.v]
      the properties.
    - The signed controls ([src/cbcl_protocol.rs], [src/lib.rs]):
      [CbclExternal.v] has the types and classes of the CBCL core and of
      Ed25519, [CbclProtocol.v] the adapter with both monitors, [CbclThms.v]
      recognition and building, [CbclMonitors.v] runs of the monitors,
      [CbclDemo.v] a small executable engine, [CbclProps.v] the properties.
    - The invitation record and the version 1 endpoint ([src/endpoint.rs]):
      [InvitationRecord.v] treats the durable record; [Endpoint.v] has the
      reducer with all its operations, composed from the monitors, the channel
      and a profile; [Calm.v] shows that its collaborators do not panic,
      [EndpointInv.v] states the invariant [good] with the story an endpoint
      tells, [EndpointSteps.v] and [EndpointOps.v] show that every operation
      and every run keeps it, [EndpointProps.v] computes a meeting of two
      endpoints and has the properties.
    - The values of credential/v2 ([src/credential_v2]): [CredCore.v] and
      [CredFrame.v] have the recognisers, the padded objects and the frames
      ([mod.rs], [object.rs], [frame.rs]); [CredDisplay.v] and
      [CredDisplayThms.v] the offer that is shown and the grammar of
      application identifiers ([display.rs]); [CredCarrier.v] and
      [CredPresence.v] the carrier and its secrets ([carrier.rs],
      [presence.rs]); [CredContext.v] the bound start of CPace and the account
      selection ([context.rs], [account_select.rs]); [CredHandoff.v] and
      [CredHandoffThms.v] the transfer texts and words ([handoff.rs],
      [manual.rs]); [CredProps.v] their properties.
    - The channel and the endpoint of credential/v2 ([channel.rs],
      [endpoint.rs]): [CredChannel.v] has the channel and the membership at
      the relay, [CredEndpoint.v] the reducer, [CredStory.v] the transcripts
      it refines, [CredCeremony.v] two endpoints that run a ceremony together,
      [CredEndpointProps.v] the properties.
    - The checkpoints of credential/v2 ([checkpoint.rs], [bootstrap.rs]):
      [CredBytes.v] has the octet cursors with the writers they invert,
      [CredCheckpoint.v] the sealed envelope and the record of an endpoint,
      [CredCheckpointThms.v] and [CredCheckpointProps.v] what they promise;
      [CredBootstrap.v] and [CredBootstrapThms.v] treat the allocator from its
      allocation to the confirmed channel.
    - The sessions of credential/v2 ([allocator.rs], [inspection.rs],
      [claimant.rs]) drive all of this against the relay and hold effects back
      until the checkpoint that covers them is stored: [CredAllocator.v] and
      [CredClaimant.v].  [CredSessionThms.v] has the invariants of both sessions
      between calls and [CredSessionProps.v] what they promise, with a meeting of
      the two through a relay that forwards.
    - The relay's two programs ([src/bin/cbcl-pairing-relay.rs] over TCP,
      [src/bin/cbcl-pairing-relay-ws.rs] over WebSocket): [RelayShell.v] has
      the command line, the operator's key, start-up, the framing, and the
      threads, as steps that each hold one lock once; what the environment
      decides (files, the clock, randomness, what a socket yields, which thread
      goes next, where a write fails) is the event of a step.  [RelayShellProps.v] has the invariant
      of all threads and the properties.

    [Prelude.v] has the shared vocabulary: octets, machine integers, [outcome]
    (a Rust result or a panic), [stM] for methods that take [&mut self] and
    keep their mutations on an error, weakest preconditions, ordered maps and
    sets, sums and tactics.  Hashes, message authentication, CBOR, CDDL
    validation, URL parsing, key derivation and authenticated encryption are
    other crates' code: [External.v] has each as an operational class, so that
    the definitions take them as arguments, and what the crate relies on as
    classes of laws; [Instances.v] has executable instances for the concrete
    runs.

    ** What the theorems show

    - Mailbox: the invariant is inductive and no command panics; a mailbox
      answers every run as the abstract one, up to a digest collision; bodies
      are delivered unaltered and stored frames are immutable; expiry is
      absolute; a protected mailbox is claimed only with its token; snapshots
      restore exactly, and only valid ones are accepted.
    - Limiter: bounded memory, the window bound for windows up to the
      cooldown, and that every longer one is exceeded; cooldowns, eviction.
    - Store: record round trip, soundness of decoding, crash atomicity of
      replacement.
    - Relay: the invariant over every run with any store; no panic but the
      store's own; isolation of mailboxes; recovery after a restart; errors
      leave memory as it was; sweeping and the emergency close terminate with
      exactly the right state and messages; delivery, pairing, guards,
      metrics and nameplates.
    - Wire: decoders and encoders are inverse, so encodings are unique;
      encodability is exactly the schema's bounds; every reply of the relay
      can be encoded and is read back as it was.
    - Context and channel: what the context octets bind; both sides agree on
      keys and accept exactly each other's confirmation; messages arrive in
      order; over any run of calls the cipher is never given one nonce for two
      messages and no frame is accepted twice; a failure is final.
    - CPace: the field code computes the Elligator map; two sides that finish
      hold the same key and end with linked channels; [finish] answers exactly
      as specified, errors included.
    - Profiles: claims and grants have one encoding; a two-word carrier is
      uniform and recognised; a grant repeats the fields that were shown.
    - Controls: a control is recognised exactly when it is canonical and
      genuinely signed; what one endpoint builds the other recognises; a
      bootstrap role keeps one key; a session is opened by its allocator only.
    - Version 1 endpoint: along every run, whatever frames arrive, nothing
      panics and the loop over waiting controls ends; a person is shown one
      intent, decides once, and at most one grant is delivered, after an
      approval, with the fields that were shown; the end is final and erases
      everything; an invitation serves one attempt, across restarts.
    - Values of credential/v2: objects, frames, carriers, transfer texts and
      presence codes have one encoding; the recogniser of application
      identifiers accepts exactly a grammar stated without it; an offer is shown only when
      the live authority authenticates every field of it.
    - Channel and endpoint of credential/v2: the two sides agree on keys and
      counters; the objects an endpoint accepts form a legal transcript and
      every legal one is accepted; equal last objects mean equal histories;
      legal ceremonies complete; a waiting object is resent as the same frame;
      an end is final.
    - Checkpoints of credential/v2: a sealed endpoint restores, under exactly
      its bindings, to one that goes on as the crashed one would have; one case
      in which the next checkpoint is lost is proved to be so; after any run of
      operations a bootstrap is consistent, can be sealed, and restores to
      exactly itself.
    - Sessions of credential/v2: both write ahead.  What an allocator must
      remember, and what a claimant decided, leaves only behind a gate that the
      confirmation of its checkpoint opens, and that checkpoint restores to a
      session that sends the same again; nothing else passes a set gate.  What
      each of the claimant's calls may answer is stated call by call.
    - The relay's programs: the texts read as an operator's key are exactly
      those that describe its octets; from any command line and key, with the
      files of an earlier run or none, whatever peers send, whichever writes
      fail and however threads interleave, the service keeps its invariant, a
      socket that has refused nothing holds whole frames that a reader takes
      apart and the wire decoder accepts, and the service knows no connection
      that no thread serves.
    Where a statement rests on a digest, it names the two octet strings that
    would have to collide instead of assuming that none do.

    ** Bounds and fuel

    Integers are [Z] with the width's bound written at each checked or
    saturating operation.  Four loops run on fuel.  [sweep] has the number of
    expiry entries plus one, since every turn removes one of them;
    [sweep_complete] shows that it always returns.  [retry_pending] has the
    number of waiting controls plus one, since a pass that makes progress
    leaves fewer; [endpoint_total] shows that it always returns.  The LEB128
    loops have one turn for each seven bits of a machine word.  The binary
    search over the word list has the length of the list plus one, and each of
    its turns shrinks the range.  The other loops are structural, over lists of
    the source's collections; [sample_nameplate] takes the draws of the random
    source as a list.

    ** What is not modelled

    Redacting [Debug] and [Display] output and the erasing of secrets in
    memory have no functional content here; where the code replaces a secret by
    a value that later code can read, the model does so too.  Of the two
    programs, the printing of usage and errors, socket set-up, read timeouts, a
    failed accept and the poisoning of locks are left out, and TLS and the
    WebSocket protocol are another crate's: a step is given what they yield.
    The examples ([examples/web_demo.rs]), the fuzz targets and the tools are
    demonstrations, harnesses and scripts over the modelled operations: they
    have no logic of the program's own. *)

From Stdlib Require Import ZArith Lia.
From stdpp Require Export base gmap list sorting strings.
Open Scope Z_scope.

#[global] Arguments Z.of_nat : simpl never.
#[global] Arguments Z.add : simpl never.
#[global] Arguments Z.sub : simpl never.
#[global] Arguments Z.mul : simpl never.
#[global] Arguments Z.leb : simpl never.
#[global] Arguments Z.ltb : simpl never.
#[global] Arguments Z.eqb : simpl never.
#[global] Arguments Nat.leb : simpl never.
#[global] Arguments Nat.ltb : simpl never.

(** ** Byte strings *)

(** Octet strings, [Vec<u8>], [&[u8]] and [[u8; N]] alike: the elements are
    octets, the length of a fixed array is carried by a typing predicate. *)
Abbreviation bytes := (list Z).

(** The length of a byte string as the [usize]/[u64] the code computes with. *)
Definition blen (b : bytes) : Z := Z.of_nat (length b).

(** The octets of an ASCII literal, [b"..."] in the source. *)
Definition ascii_bytes (s : string) : bytes :=
  map (fun c => Z.of_N (Ascii.N_of_ascii c)) (String.list_ascii_of_string s).

(** ** Machine integers *)

Definition u8_max : Z := 255.
Definition u16_max : Z := 65535.
Definition u32_max : Z := 4294967295.
Definition u64_max : Z := 18446744073709551615.

(** [checked_add]/[checked_sub] at a given maximum: [None] on overflow. *)
Definition checked_add (max a b : Z) : option Z :=
  if a + b <=? max then Some (a + b) else None.
Definition checked_sub (a b : Z) : option Z :=
  if b <=? a then Some (a - b) else None.

(** [saturating_add]/[saturating_sub]. *)
Definition saturating_add (max a b : Z) : Z := Z.min max (a + b).
Definition saturating_sub (a b : Z) : Z := Z.max 0 (a - b).

(** [TryFrom] between unsigned widths: the value when it fits. *)
Definition try_into (max v : Z) : option Z :=
  if (0 <=? v) && (v <=? max) then Some v else None.

(** ** Results, panics and in-place mutation *)

(** The result of running Rust code: [Result] values, and the panic of a
    failed [expect], [unwrap] or index. *)
Inductive outcome (E A : Type) : Type :=
| Ok (a : A)
| Err (e : E)
| Panic.
Arguments Ok {E A} a.
Arguments Err {E A} e.
Arguments Panic {E A}.

#[export] Instance outcome_ret {E} : MRet (outcome E) := fun A a => Ok a.
#[export] Instance outcome_bind {E} : MBind (outcome E) := fun A B f m =>
  match m with Ok a => f a | Err e => Err e | Panic => Panic end.

(** [ok_or], [map_err] and [expect]. *)
Definition ok_or {E A} (o : option A) (e : E) : outcome E A :=
  match o with Some a => Ok a | None => Err e end.
Definition map_err {E F A} (f : E -> F) (m : outcome E A) : outcome F A :=
  match m with Ok a => Ok a | Err e => Err (f e) | Panic => Panic end.
Definition expect {E A} (o : option A) : outcome E A :=
  match o with Some a => Ok a | None => Panic end.

(** [iter().map(f).collect::<Result<Vec<_>, _>>()]: stops at the first error. *)
Fixpoint collect {E A B} (f : A -> outcome E B) (l : list A) : outcome E (list B) :=
  match l with
  | [] => Ok []
  | x :: l => y ← f x; ys ← collect f l; Ok (y :: ys)
  end.

(** A method taking [&mut self]: the new value of [self] is returned with
    every result, an [Err] included, since Rust keeps the mutations made
    before an early return. *)
Definition stM (S E A : Type) : Type := S -> S * outcome E A.

#[export] Instance stM_ret {S E} : MRet (stM S E) := fun A a s => (s, Ok a).
#[export] Instance stM_bind {S E} : MBind (stM S E) := fun A B f m s =>
  match m s with
  | (s', Ok a) => f a s'
  | (s', Err e) => (s', Err e)
  | (s', Panic) => (s', Panic)
  end.

Definition get {S E} : stM S E S := fun s => (s, Ok s).
Definition modify {S E} (f : S -> S) : stM S E unit := fun s => (f s, Ok tt).
Definition throw {S E A} (e : E) : stM S E A := fun s => (s, Err e).
Definition lift {S E A} (m : outcome E A) : stM S E A := fun s => (s, m).

(** Run [m] on the component [get s] of a larger state, translating errors. *)
Definition zoom {S T E F A} (sel : S -> T) (upd : T -> S -> S) (err : F -> E)
    (m : stM T F A) : stM S E A := fun s =>
  let '(t, r) := m (sel s) in (upd t s, map_err err r).

(** The weakest precondition of [m]: [Q] when it returns, [R] when it fails,
    and [D] when it panics.  With [D := False] a panic is excluded. *)
Definition wp {S E A} (D : Prop) (m : stM S E A) (Q : A -> S -> Prop) (R : E -> S -> Prop) (s : S) : Prop :=
  match m s with
  | (s', Ok a) => Q a s'
  | (s', Err e) => R e s'
  | (s', Panic) => D
  end.

(** ** Ordered collections *)

(** The order of a [BTreeMap]/[BTreeSet] key type, as a decidable relation. *)
Class Ord (A : Type) := leb : A -> A -> bool.
Class OrdLaws (A : Type) `{Ord A} : Prop := {
  leb_total : forall x y, leb x y = true \/ leb y x = true;
  leb_trans : forall x y z, leb x y = true -> leb y z = true -> leb x z = true;
  leb_antisym : forall x y, leb x y = true -> leb y x = true -> x = y
}.

Definition ord_le {A} `{Ord A} (x y : A) : Prop := leb x y = true.
#[export] Instance ord_le_dec {A} `{Ord A} (x y : A) : Decision (ord_le x y).
Proof. unfold ord_le. apply _. Defined.

#[export] Instance ord_Z : Ord Z := Z.leb.

(** Lexicographic orders of tuples and of byte strings. *)
#[export] Instance ord_prod {A B} `{Ord A, Ord B} : Ord (A * B) := fun x y =>
  leb x.1 y.1 && (negb (leb y.1 x.1) || leb x.2 y.2).

Fixpoint list_leb {A} `{Ord A} (x y : list A) : bool :=
  match x, y with
  | [], _ => true
  | _ :: _, [] => false
  | a :: x, b :: y => leb a b && (negb (leb b a) || list_leb x y)
  end.
#[export] Instance ord_list {A} `{Ord A} : Ord (list A) := list_leb.

(** The elements of a set, and the keys of a map, in iteration order. *)
Definition bset_list {K} `{Countable K, Ord K} (s : gset K) : list K :=
  merge_sort ord_le (elements s).
Definition bset_first {K} `{Countable K, Ord K} (s : gset K) : option K :=
  head (bset_list s).
Definition bmap_keys {K V} `{Countable K, Ord K} (m : gmap K V) : list K :=
  bset_list (dom m).
Definition bmap_values {K V} `{Countable K, Ord K} (m : gmap K V) : list V :=
  omap (fun k => m !! k) (bmap_keys m).

(** Sums over lists, and over the values of a map. *)
Fixpoint sum_with {A} (f : A -> Z) (l : list A) : Z :=
  match l with [] => 0 | x :: l => f x + sum_with f l end.
Definition map_sum {K V} `{Countable K} (f : V -> Z) (m : gmap K V) : Z :=
  map_fold (fun _ v acc => f v + acc) 0 m.

(** ** Automation *)

(** Split a hypothesis whose matched term is not yet known, closing the
    branches that contradict it. *)
Ltac case_hyp :=
  match goal with
  | H : context [match ?x with _ => _ end] |- _ =>
      lazymatch x with context [match _ with _ => _ end] => fail | _ => idtac end;
      destruct x eqn:?; simplify_eq/=
  end.
Ltac case_goal :=
  match goal with
  | |- context [match ?x with _ => _ end] =>
      lazymatch x with context [match _ with _ => _ end] => fail | _ => idtac end;
      destruct x eqn:?; simplify_eq/=
  end.
(** Turn the boolean tests of the code into propositions. *)
Ltac bool_to_prop :=
  repeat match goal with
  | H : _ && _ = true |- _ => apply andb_true_iff in H; destruct H
  | H : _ || _ = false |- _ => apply orb_false_iff in H; destruct H
  | H : negb _ = true |- _ => apply negb_true_iff in H
  | H : negb _ = false |- _ => apply negb_false_iff in H
  | H : (_ <=? _) = true |- _ => apply Z.leb_le in H
  | H : (_ <=? _) = false |- _ => apply Z.leb_gt in H
  | H : (_ <? _) = true |- _ => apply Z.ltb_lt in H
  | H : (_ <? _) = false |- _ => apply Z.ltb_ge in H
  | H : (_ =? _) = true |- _ => apply Z.eqb_eq in H
  | H : (_ =? _) = false |- _ => apply Z.eqb_neq in H
  | H : bool_decide _ = true |- _ => apply bool_decide_eq_true in H
  | H : bool_decide _ = false |- _ => apply bool_decide_eq_false in H
  end.

Create HintDb pairing.

(** ** Shared lemmas *)

Section Outcomes.
Context {S E A B : Type} (D : Prop).
Implicit Types (m : stM S E A) (k : A -> stM S E B).

Lemma wp_bind m k Q R s :
  wp D m (fun a s' => wp D (k a) Q R s') R s -> wp D (m ≫= k) Q R s.
Proof. unfold wp, mbind, stM_bind. by destruct (m s) as [s' [a|e|]]. Qed.

Lemma wp_mono m (P Q : A -> S -> Prop) (R R' : E -> S -> Prop) s :
  wp D m P R s -> (forall a s', P a s' -> Q a s') -> (forall e s', R e s' -> R' e s') -> wp D m Q R' s.
Proof. unfold wp. intros Hm HQ HR. destruct (m s) as [s' [a|e|]]; auto. Qed.

Lemma wp_ret (a : A) (Q : A -> S -> Prop) (R : E -> S -> Prop) s : Q a s -> wp D (mret a) Q R s.
Proof. done. Qed.

Lemma wp_run m Q R s s' r :
  wp D m Q R s -> m s = (s', r) ->
  match r with Ok a => Q a s' | Err e => R e s' | Panic => D end.
Proof. unfold wp. intros Hwp Hrun. rewrite Hrun in Hwp. by destruct r. Qed.
End Outcomes.

Section Primitives.
Context {S E : Type} (D : Prop).

Lemma wp_get (Q : S -> S -> Prop) (R : E -> S -> Prop) s : Q s s -> wp D get Q R s.
Proof. done. Qed.
Lemma wp_throw {A} (e : E) (Q : A -> S -> Prop) (R : E -> S -> Prop) s : R e s -> wp D (throw e) Q R s.
Proof. done. Qed.
Lemma wp_modify f (Q : unit -> S -> Prop) (R : E -> S -> Prop) s : Q tt (f s) -> wp D (modify f) Q R s.
Proof. done. Qed.
Lemma wp_lift {A} (o : outcome E A) (Q : A -> S -> Prop) (R : E -> S -> Prop) s :
  match o with Ok a => Q a s | Err e => R e s | Panic => D end -> wp D (lift o) Q R s.
Proof. unfold wp, lift. by destruct o. Qed.
Lemma wp_zoom {T F A} (sel : S -> T) upd (err : F -> E) (m : stM T F A) (Q : A -> S -> Prop) (R : E -> S -> Prop) s :
  wp D m (fun a t => Q a (upd t s)) (fun e t => R (err e) (upd t s)) (sel s) ->
  wp D (zoom sel upd err m) Q R s.
Proof. unfold wp, zoom. destruct (m (sel s)) as [t [a|e|]]; done. Qed.
End Primitives.

Lemma ok_bind {E A B} (a : A) (k : A -> outcome E B) : Ok a ≫= k = k a.
Proof. done. Qed.

Lemma bind_ok {E A B} (m : outcome E A) (k : A -> outcome E B) b :
  m ≫= k = Ok b <-> exists a, m = Ok a /\ k a = Ok b.
Proof. unfold mbind, outcome_bind. destruct m; naive_solver. Qed.

Lemma bind_err {E A B} (m : outcome E A) (k : A -> outcome E B) e :
  m ≫= k = Err e <-> m = Err e \/ exists a, m = Ok a /\ k a = Err e.
Proof. unfold mbind, outcome_bind. destruct m; naive_solver. Qed.

Lemma ok_or_ok {E A} (o : option A) (e : E) a : ok_or o e = Ok a <-> o = Some a.
Proof. destruct o; simpl; naive_solver. Qed.

(** Computations that never panic. *)
Definition calm {E A} (m : outcome E A) : Prop := m <> Panic.
Lemma calm_bind {E A B} (m : outcome E A) (k : A -> outcome E B) :
  calm m -> (forall a, m = Ok a -> calm (k a)) -> calm (m ≫= k).
Proof. unfold calm, mbind, outcome_bind. destruct m; naive_solver. Qed.
Lemma calm_ok_or {E A} (o : option A) (e : E) : calm (ok_or o e).
Proof. by destruct o. Qed.
Lemma calm_map_err {E F A} (f : E -> F) (m : outcome E A) : calm m -> calm (map_err f m).
Proof. by destruct m. Qed.
#[export] Hint Resolve calm_ok_or calm_map_err : pairing.
(** Go through the steps of a computation to show that none panics. *)
Ltac solve_calm :=
  repeat match goal with
  | |- calm (Ok _) => done
  | |- calm (Err _) => done
  | |- calm (_ ≫= _) => apply calm_bind; [eauto with pairing|intros ? ?]
  | |- calm (match ?x with _ => _ end) => destruct x eqn:?
  | |- _ => progress eauto with pairing
  end.

Lemma collect_ok {E A B} (f : A -> outcome E B) l ys :
  collect f l = Ok ys <-> Forall2 (fun x y => f x = Ok y) l ys.
Proof.
  revert ys. induction l as [|x l IH]; intros ys; simpl.
  - split; intros H; inv H; constructor.
  - rewrite bind_ok. setoid_rewrite bind_ok. setoid_rewrite IH. split.
    + intros (y & Hy & ys' & Hl & [= <-]). by constructor.
    + intros H. inv H. eauto 6.
Qed.

Lemma collect_roundtrip {E A B} (f : A -> outcome E B) (g : B -> A) ys :
  Forall (fun y => f (g y) = Ok y) ys -> collect f (map g ys) = Ok ys.
Proof.
  intros H. apply collect_ok. induction H; simpl; by constructor.
Qed.

Lemma checked_add_some max a b c :
  checked_add max a b = Some c <-> c = a + b /\ a + b <= max.
Proof. unfold checked_add. case_goal; bool_to_prop; naive_solver lia. Qed.

Lemma checked_sub_some a b c : checked_sub a b = Some c <-> c = a - b /\ b <= a.
Proof. unfold checked_sub. case_goal; bool_to_prop; naive_solver lia. Qed.

Lemma expect_add {E} max a b : a + b <= max -> expect (E := E) (checked_add max a b) = Ok (a + b).
Proof. intros Hle. by rewrite (proj2 (checked_add_some max a b (a + b))). Qed.

Lemma expect_sub {E} a b : b <= a -> expect (E := E) (checked_sub a b) = Ok (a - b).
Proof. intros Hle. by rewrite (proj2 (checked_sub_some a b (a - b))). Qed.

Lemma try_into_some max v w : try_into max v = Some w <-> w = v /\ 0 <= v <= max.
Proof. unfold try_into. case_goal; bool_to_prop; [naive_solver lia|].
  split; [done|]. intros (-> & ?). apply andb_false_iff in Heqb. bool_to_prop. lia.
Qed.

Lemma blen_nonneg b : 0 <= blen b.
Proof. unfold blen. lia. Qed.
#[export] Hint Resolve blen_nonneg : pairing.
Lemma blen_app a b : blen (a ++ b) = blen a + blen b.
Proof. unfold blen. rewrite length_app. lia. Qed.

Section Sums.
Context {A : Type} (f : A -> Z).

Lemma sum_with_app l k : sum_with f (l ++ k) = sum_with f l + sum_with f k.
Proof. induction l; simpl; lia. Qed.

Lemma sum_with_nonneg l : (forall x, x ∈ l -> 0 <= f x) -> 0 <= sum_with f l.
Proof. induction l; simpl; intros Hl; [lia|].
  assert (0 <= f a) by (apply Hl; set_solver).
  assert (0 <= sum_with f l) by (apply IHl; set_solver). lia.
Qed.

Lemma sum_with_elem l x : (forall y, y ∈ l -> 0 <= f y) -> x ∈ l -> f x <= sum_with f l.
Proof.
  induction l as [|y l IH]; simpl; intros Hl Hx; [set_solver|].
  assert (0 <= sum_with f l) by (apply sum_with_nonneg; set_solver).
  assert (0 <= f y) by (apply Hl; set_solver).
  apply elem_of_cons in Hx as [->|Hx]; [lia|].
  assert (f x <= sum_with f l) by (apply IH; set_solver). lia.
Qed.

Lemma sum_with_bound l m : (forall x, x ∈ l -> f x <= m) -> sum_with f l <= m * Z.of_nat (length l).
Proof.
  induction l as [|x l IH]; simpl; intros Hl; [lia|].
  assert (f x <= m) by (apply Hl; set_solver).
  assert (sum_with f l <= m * Z.of_nat (length l)) by (apply IH; set_solver). lia.
Qed.

Lemma sum_with_ext (g : A -> Z) l : (forall x, x ∈ l -> f x = g x) -> sum_with f l = sum_with g l.
Proof.
  induction l as [|x l IH]; simpl; intros H; [done|].
  rewrite (H x), IH by set_solver. done.
Qed.
End Sums.

Section MapSum.
Context {K V : Type} `{Countable K} (f : V -> Z).
Implicit Types m : gmap K V.

Lemma map_sum_empty : map_sum f (∅ : gmap K V) = 0.
Proof. unfold map_sum. by rewrite map_fold_empty. Qed.

Lemma map_sum_insert_new m k v :
  m !! k = None -> map_sum f (<[k:=v]> m) = f v + map_sum f m.
Proof.
  intros Hk. unfold map_sum. rewrite map_fold_insert_L; [done| |done].
  intros; lia.
Qed.

Lemma map_sum_delete m k v :
  m !! k = Some v -> map_sum f m = f v + map_sum f (delete k m).
Proof.
  intros Hk. rewrite <- map_sum_insert_new with (k := k) by apply lookup_delete_eq.
  by rewrite insert_delete_id.
Qed.

Lemma map_sum_insert m k v w :
  m !! k = Some v -> map_sum f (<[k:=w]> m) = map_sum f m - f v + f w.
Proof.
  intros Hk. rewrite (map_sum_delete m k v Hk).
  rewrite <- (insert_delete_eq m), map_sum_insert_new by apply lookup_delete_eq. lia.
Qed.

Lemma map_sum_nonneg m : (forall k v, m !! k = Some v -> 0 <= f v) -> 0 <= map_sum f m.
Proof.
  induction m as [|k v m Hk IH] using map_ind; intros Hm.
  - rewrite map_sum_empty. lia.
  - rewrite map_sum_insert_new by done.
    assert (0 <= f v) by (apply (Hm k), lookup_insert_eq).
    assert (0 <= map_sum f m); [|lia].
    apply IH. intros k' v' Hk'. apply (Hm k'). rewrite lookup_insert_ne; congruence.
Qed.

Lemma map_sum_lookup m k v :
  (forall k v, m !! k = Some v -> 0 <= f v) -> m !! k = Some v -> f v <= map_sum f m.
Proof.
  intros Hm Hk. rewrite (map_sum_delete m k v Hk).
  assert (0 <= map_sum f (delete k m)); [|lia].
  apply map_sum_nonneg. intros k' v' [_ Hk']%lookup_delete_Some. eauto.
Qed.
End MapSum.

(** ** Laws of the ordered collections *)

#[export] Instance ord_Z_laws : OrdLaws Z.
Proof.
  split; unfold leb, ord_Z; intros; bool_to_prop; rewrite ?Z.leb_le in *; lia.
Qed.

Lemma leb_refl {A} `{OrdLaws A} (x : A) : leb x x = true.
Proof. by destruct (leb_total x x). Qed.

Lemma leb_false {A} `{OrdLaws A} (x y : A) : leb x y = false -> leb y x = true.
Proof. destruct (leb_total x y); congruence. Qed.

(** One step of a lexicographic comparison. *)
Lemma lex_cases {A} `{OrdLaws A} (a b : A) (r : bool) :
  leb a b && (negb (leb b a) || r) = true <->
  (leb b a = false) \/ (a = b /\ r = true).
Proof.
  destruct (leb a b) eqn:Hab, (leb b a) eqn:Hba; simpl.
  - assert (a = b) by (by apply leb_antisym). naive_solver.
  - naive_solver.
  - split; [done|]. intros [?|[-> _]]; [done|]. rewrite leb_refl in Hab. done.
  - apply leb_false in Hab. congruence.
Qed.

Lemma leb_lt_trans {A} `{OrdLaws A} (a b c : A) :
  leb b a = false -> leb c b = false -> leb c a = false.
Proof.
  intros Hba Hcb. destruct (leb c a) eqn:Hca; [|done].
  rewrite <- Hba. symmetry. apply leb_trans with c; [|done]. by apply leb_false.
Qed.

Lemma leb_pair {A B} `{OrdLaws A, OrdLaws B} (x y : A * B) :
  leb x y = true <-> leb y.1 x.1 = false \/ (x.1 = y.1 /\ leb x.2 y.2 = true).
Proof. apply lex_cases. Qed.

#[export] Instance ord_prod_laws {A B} `{OrdLaws A, OrdLaws B} : OrdLaws (A * B).
Proof.
  split.
  - intros [a b] [c d]. rewrite !leb_pair. simpl.
    destruct (leb c a) eqn:Hca; [|by auto]. destruct (leb a c) eqn:Hac; [|by auto].
    assert (a = c) as -> by (by apply leb_antisym). destruct (leb_total b d); auto.
  - intros [a b] [c d] [e f]. rewrite !leb_pair. simpl.
    intros [Hca|[-> Hbd]] [Hec|[-> Hdf]]; auto.
    + left. eapply leb_lt_trans; eauto.
    + right. split; [done|]. by apply leb_trans with d.
  - intros [a b] [c d]. rewrite !leb_pair. simpl.
    intros [Hca|[-> Hbd]] [Hac|[Heq Hdb]]; subst; rewrite ?leb_refl in *; try done.
    + apply leb_false in Hca. congruence.
    + f_equal. by apply leb_antisym.
Qed.

#[export] Instance ord_list_laws {A} `{OrdLaws A} : OrdLaws (list A).
Proof.
  split; unfold leb, ord_list.
  - induction x as [|a x IH]; intros [|b y]; simpl; auto. rewrite !lex_cases.
    destruct (leb b a) eqn:Hba; [|by auto]. destruct (leb a b) eqn:Hab; [|by auto].
    assert (a = b) as -> by (by apply leb_antisym). destruct (IH y); auto.
  - induction x as [|a x IH]; intros [|b y] [|c z]; simpl; auto; try (intros; discriminate).
    rewrite !lex_cases. intros [Hca|[-> Hbd]] [Hec|[-> Hdf]]; auto.
    + left. eapply leb_lt_trans; eauto.
    + right. split; [done|]. eauto.
  - induction x as [|a x IH]; intros [|b y]; simpl; auto; try (intros; discriminate).
    rewrite !lex_cases. intros [Hca|[-> Hbd]] [Hac|[Heq Hdb]]; subst; rewrite ?leb_refl in *; try done.
    + apply leb_false in Hca. congruence.
    + f_equal. eauto.
Qed.

Section Collections.
Context {K : Type} `{Countable K, OrdLaws K}.
Implicit Types (s : gset K).

#[local] Instance ord_le_total : Total (@ord_le K _).
Proof. intros x y. apply leb_total. Qed.
#[local] Instance ord_le_trans : Transitive (@ord_le K _).
Proof. intros x y z. apply leb_trans. Qed.

Lemma elem_of_bset_list s x : x ∈ bset_list s <-> x ∈ s.
Proof. unfold bset_list. by rewrite (merge_sort_Permutation ord_le), elem_of_elements. Qed.

Lemma bset_list_nodup s : NoDup (bset_list s).
Proof. unfold bset_list. rewrite (merge_sort_Permutation ord_le). apply NoDup_elements. Qed.

Lemma bset_list_sorted s : StronglySorted ord_le (bset_list s).
Proof. apply (StronglySorted_merge_sort ord_le). Qed.

Lemma bset_first_some s x :
  bset_first s = Some x -> x ∈ s /\ forall y, y ∈ s -> ord_le x y.
Proof.
  unfold bset_first. pose proof (bset_list_sorted s) as Hs.
  destruct (bset_list s) as [|z l] eqn:Hl; [done|]. simpl. intros [= ->].
  apply StronglySorted_cons in Hs as [Hx _]. split.
  - apply elem_of_bset_list. rewrite Hl. set_solver.
  - intros y Hy%elem_of_bset_list. rewrite Hl in Hy.
    apply elem_of_cons in Hy as [->|Hy]; [apply leb_refl|].
    rewrite Forall_forall in Hx. auto.
Qed.

Lemma bset_first_none s : bset_first s = None -> s = ∅.
Proof.
  unfold bset_first. destruct (bset_list s) as [|z l] eqn:Hl; [|done].
  intros _. apply set_eq. intros x. rewrite <- elem_of_bset_list, Hl. set_solver.
Qed.
End Collections.

Lemma elem_of_bmap_keys {K V} `{Countable K, OrdLaws K} (m : gmap K V) k :
  k ∈ bmap_keys m <-> is_Some (m !! k).
Proof. unfold bmap_keys. by rewrite elem_of_bset_list, elem_of_dom. Qed.

Lemma elem_of_bmap_values {K V} `{Countable K, OrdLaws K} (m : gmap K V) v :
  v ∈ bmap_values m <-> exists k, m !! k = Some v.
Proof.
  unfold bmap_values. rewrite list_elem_of_omap. split.
  - intros (k & _ & Hk). eauto.
  - intros (k & Hk). exists k. split; [|done]. apply elem_of_bmap_keys. eauto.
Qed.
