(* ===== verification/External.v ===== *)
(** * Interfaces of the code this crate only calls

    SHA-256 (crate [sha2]), HMAC-SHA-256 ([hmac]), the CBOR reader and the
    canonical CBOR writer ([ciborium], [cbor2]) and the CDDL validator
    ([cddl_cat]) are not part of the repository.  Each is an operational type
    class, so that every definition that uses it takes it as an argument, and
    what the crate relies on is a separate class of laws.  Nothing here
    assumes an implementation; [Instances] gives concrete ones. *)

From S2P Require Import Prelude.

(** ** Hashing *)

Class Sha256 := sha256 : bytes -> bytes.
(** The digest is an array of 32 octets. *)
Class Sha256Laws `{Sha256} : Prop := {
  sha256_len : forall b, length (sha256 b) = 32%nat
}.

(** [Hmac::<Sha256>] over one concatenated message. *)
Class HmacSha256 := hmac_sha256 : bytes -> bytes -> bytes.

(** ** CBOR values *)

(** [ciborium::Value].  [VText] carries the octets of a Rust [String]. *)
Inductive Value : Type :=
| VInteger (z : Z)
| VBytes (b : bytes)
| VFloat (bits : Z)
| VText (s : string)
| VBool (b : bool)
| VNull
| VTag (tag : Z) (v : Value)
| VArray (l : list Value)
| VMap (l : list (Value * Value)).

(** [ciborium::from_reader] returns the first value of the input and leaves
    the cursor after it; [cbor2::to_canonical_vec] writes one value. *)
Class Cbor := {
  from_reader : bytes -> option (Value * Z);
  to_canonical_vec : Value -> option bytes
}.

(** [cddl_cat::cbor::validate_cbor] against a rule of the embedded schema. *)
Class Cddl := validate_cbor : string -> Value -> bool.

(** The values this crate writes: unsigned integers, octets, text, [null],
    and arrays of them. *)
Fixpoint plain (v : Value) : bool :=
  match v with
  | VInteger z => (0 <=? z) && (z <=? u64_max)
  | VBytes _ | VText _ | VNull => true
  | VArray l => forallb plain l
  | _ => false
  end.

(** Map entries with plain contents and pairwise different text keys. *)
Definition plain_entries (l : list (string * Value)) : Prop :=
  NoDup (map fst l) /\ Forall (fun kv => plain kv.2 = true) l.

(** [map(entries)] of the encoders: text keys. *)
Definition text_map (l : list (string * Value)) : Value :=
  VMap (map (fun kv => (VText kv.1, kv.2)) l).

(** The writer is total on these values and the reader accepts its output,
    consuming all of it; canonical writing orders map entries, so the octets do
    not depend on the order of the entries and a map comes back with its
    entries permuted. *)
Class CborLaws `{Cbor} : Prop := {
  plain_written v : plain v = true -> exists b, to_canonical_vec v = Some b;
  plain_read v b : plain v = true -> to_canonical_vec v = Some b ->
    from_reader b = Some (v, blen b);
  map_written l : plain_entries l -> exists b, to_canonical_vec (text_map l) = Some b;
  map_read l b : plain_entries l -> to_canonical_vec (text_map l) = Some b ->
    exists l', l' ≡ₚ l /\ from_reader b = Some (text_map l', blen b);
  map_order l l' : plain_entries l -> l' ≡ₚ l -> to_canonical_vec (text_map l') = to_canonical_vec (text_map l)
}.

(** No encoding is longer than its contents with the longest head of each item:
    an initial octet and eight octets of argument (RFC 8949, section 3); and none
    is empty. *)
Fixpoint value_size (v : Value) : Z :=
  match v with
  | VBytes b => 9 + blen b
  | VText s => 9 + blen (ascii_bytes s)
  | VTag _ v => 9 + value_size v
  | VArray l => 9 + fold_right (fun v n => value_size v + n) 0 l
  | VMap l => 9 + fold_right (fun kv n => value_size kv.1 + value_size kv.2 + n) 0 l
  | VInteger _ | VFloat _ | VBool _ | VNull => 9
  end.
Class CborSizeLaws `{Cbor} : Prop := {
  plain_size v b : plain v = true -> to_canonical_vec v = Some b -> 1 <= blen b <= value_size v;
  map_size l b : plain_entries l -> to_canonical_vec (text_map l) = Some b -> 1 <= blen b <= value_size (text_map l)
}.

(** ** URLs *)

(** What the origin checks read of a parsed [url::Url]. *)
Record Url := mkUrl {
  url_username : string;
  url_password : option string;
  url_query : option string;
  url_fragment : option string;
  url_path : string;
  url_origin : string;
  url_scheme : string;
  url_host_str : option string;
  url_port : option Z
}.
(** [Url::parse]. *)
Class UrlParser := url_parse : string -> option Url.

(** ** The channel's primitives *)

(** [Sha512::digest]. *)
Class Sha512 := sha512 : bytes -> bytes.
(** [Hkdf::<Sha512>::new(Some(&[]), ikm)] and [expand(info, okm)] into an
    output of the given length. *)
Class HkdfSha512 := hkdf_expand : bytes -> bytes -> nat -> option bytes.
(** [Hkdf::<Sha512>::new(Some(salt), ikm)] and [expand(info, okm)]. *)
Class HkdfSalted := hkdf_salted : bytes -> bytes -> bytes -> nat -> option bytes.
(** [Hmac::<Sha512>::new_from_slice(key)] over one concatenated message. *)
Class HmacSha512 := hmac_sha512 : bytes -> bytes -> option bytes.
(** [Aes256Gcm]: key, nonce, additional data, message or ciphertext with tag. *)
Class Aead := {
  aead_encrypt : bytes -> bytes -> bytes -> bytes -> option bytes;
  aead_decrypt : bytes -> bytes -> bytes -> bytes -> option bytes
}.

(** Output sizes; the schedule never fails at the sizes the crate asks for. *)
Class ScheduleLaws `{Sha512, HkdfSha512, HmacSha512} : Prop := {
  sha512_len b : length (sha512 b) = 64%nat;
  hkdf_expands ikm info n : (n <= 64)%nat -> exists okm, hkdf_expand ikm info n = Some okm /\ length okm = n;
  hmac_sha512_some key m : exists tag, hmac_sha512 key m = Some tag /\ length tag = 64%nat
}.

Class HkdfSaltedLaws `{HkdfSalted} : Prop :=
  salted_expands salt ikm info n : (n <= 64)%nat -> exists okm, hkdf_salted salt ikm info n = Some okm /\ length okm = n.

(** The sizes the cipher takes: [P_MAX] and [A_MAX] of the crate. *)
Definition aead_message_max : Z := 2 ^ 36.
Definition aead_data_max : Z := 2 ^ 36.

(** Encryption with a 32-octet key and a 12-octet nonce succeeds within these
    sizes, adds a 16-octet tag, and decryption under the same key, nonce and
    additional data returns the message. *)
Class AeadLaws `{Aead} : Prop := {
  encrypt_some key nonce aad m : length key = 32%nat -> length nonce = 12%nat ->
    blen m <= aead_message_max -> blen aad <= aead_data_max ->
    exists c, aead_encrypt key nonce aad m = Some c;
  encrypt_len key nonce aad m c : aead_encrypt key nonce aad m = Some c -> length c = (length m + 16)%nat;
  decrypt_encrypt key nonce aad m c :
    aead_encrypt key nonce aad m = Some c -> aead_decrypt key nonce aad c = Some m
}.

(** ** Libraries of the credential/v2 protocol

    What [src/credential_v2] relies on beyond [External]: maps with integer
    keys in the CBOR libraries, and unpadded URL-safe base64 into bounded
    buffers. *)

(** ** Maps with integer keys *)

Definition int_map (l : list (Z * Value)) : Value := VMap (map (fun kv => (VInteger kv.1, kv.2)) l).

(** Different unsigned keys and plain contents. *)
Definition int_entries (l : list (Z * Value)) : Prop :=
  NoDup (map fst l) /\ Forall (fun kv => plain (VInteger kv.1) = true /\ plain kv.2 = true) l.

(** A value takes at least one octet.  Such maps are written, read back with their entries permuted, and written
    the same in any order, as the maps with text keys are. *)
Class CborIntLaws `{Cbor} : Prop := {
  int_map_written l : int_entries l -> exists b, to_canonical_vec (int_map l) = Some b;
  int_map_read l b : int_entries l -> to_canonical_vec (int_map l) = Some b ->
    exists l', l' ≡ₚ l /\ from_reader b = Some (int_map l', blen b);
  int_map_order l l' : int_entries l -> l' ≡ₚ l -> to_canonical_vec (int_map l') = to_canonical_vec (int_map l);
  written_nonempty v : to_canonical_vec v <> Some []
}.

(** ** Base64 *)

(** [base64ct::Base64UrlUnpadded]: [encode(b, &mut [0; n])] and
    [decode(s, &mut [0; n])], which fail when the buffer is too small.  A text
    is the list of its octets. *)
Class Base64Url := {
  base64url_encode : bytes -> Z -> option bytes;
  base64url_decode : bytes -> Z -> option bytes
}.

(** [encoded_len] of an unpadded encoding. *)
Definition encoded_len (b : bytes) : Z := (4 * blen b + 2) / 3.

Class Base64UrlLaws `{Base64Url} : Prop := {
  base64url_fits b n : is_Some (base64url_encode b n) <-> encoded_len b <= n;
  base64url_len b n s : base64url_encode b n = Some s -> blen s = encoded_len b;
  base64url_read b n s m : base64url_encode b n = Some s -> blen b <= m -> base64url_decode s m = Some b
}.

(** A digest is made of octets. *)
Class Sha256Octets `{Sha256} : Prop := sha256_octets b : Forall (fun x => 0 <= x <= 255) (sha256 b).
