(* ===== verification/Instances.v ===== *)
(** * Concrete implementations of the external interfaces

    Small executable functions that satisfy the laws of [External].  They are
    not the real primitives; they show that the laws can hold and give the
    concrete inputs of the development something to compute with. *)

From S2P Require Import Prelude External.

(** Thirty-two octets: the input padded or cut, with its length mixed into the
    first octet. *)
Definition demo_sha256 (b : bytes) : bytes :=
  take 32 (((blen b + 7 * sum_with id b) `mod` 256) :: b ++ replicate 32 0).

#[export] Instance demo_sha : Sha256 := demo_sha256.

#[export] Instance demo_sha_laws : Sha256Laws.
Proof.
  split. intros b. unfold sha256, demo_sha, demo_sha256.
  rewrite length_take, length_cons, length_app, length_replicate. lia.
Qed.

#[export] Instance demo_hmac : HmacSha256 := fun key message => demo_sha256 (key ++ message).

(** ** A reader and writer of values

    A prefix code; its octets are numbers of any size. *)

Fixpoint value_tree (v : Value) : gen_tree (Z + (bytes + (string + bool))) :=
  match v with
  | VInteger z => GenNode 0 [GenLeaf (inl z)]
  | VBytes b => GenNode 1 [GenLeaf (inr (inl b))]
  | VFloat z => GenNode 2 [GenLeaf (inl z)]
  | VText s => GenNode 3 [GenLeaf (inr (inr (inl s)))]
  | VBool b => GenNode 4 [GenLeaf (inr (inr (inr b)))]
  | VNull => GenNode 5 []
  | VTag t v => GenNode 6 [GenLeaf (inl t); value_tree v]
  | VArray l => GenNode 7 (map value_tree l)
  | VMap l => GenNode 8 (map (fun kv => GenNode 0 [value_tree kv.1; value_tree kv.2]) l)
  end.

Fixpoint tree_value (t : gen_tree (Z + (bytes + (string + bool)))) : Value :=
  match t with
  | GenNode 0 [GenLeaf (inl z)] => VInteger z
  | GenNode 1 [GenLeaf (inr (inl b))] => VBytes b
  | GenNode 2 [GenLeaf (inl z)] => VFloat z
  | GenNode 3 [GenLeaf (inr (inr (inl s)))] => VText s
  | GenNode 4 [GenLeaf (inr (inr (inr b)))] => VBool b
  | GenNode 6 [GenLeaf (inl t); v] => VTag t (tree_value v)
  | GenNode 7 ts => VArray (map tree_value ts)
  | GenNode 8 ts =>
      VMap (map (fun t => match t with
                          | GenNode _ [k; v] => (tree_value k, tree_value v)
                          | _ => (VNull, VNull)
                          end) ts)
  | _ => VNull
  end.

Lemma tree_value_tree v : tree_value (value_tree v) = v.
Proof.
  revert v. fix IH 1. intros [z|b|z|s|b| |t v|l|l]; simpl; try done.
  - by rewrite IH.
  - f_equal. induction l as [|v l IHl]; simpl; [done|]. by rewrite IH, IHl.
  - f_equal. induction l as [|[k v] l IHl]; simpl; [done|]. by rewrite !IH, IHl.
Qed.

#[export] Instance Value_eq_dec : EqDecision Value.
Proof.
  refine (fun v w => cast_if (decide (value_tree v = value_tree w))); [|congruence].
  abstract (rewrite <- (tree_value_tree v), <- (tree_value_tree w); congruence).
Defined.
#[export] Instance Value_countable : Countable Value := inj_countable' value_tree tree_value tree_value_tree.

(** A tag, a length where there is one, and the contents. *)
Fixpoint write_value (v : Value) : bytes :=
  match v with
  | VInteger z => [0; z]
  | VBytes b => 1 :: blen b :: b
  | VFloat z => [2; z]
  | VText s => 3 :: blen (ascii_bytes s) :: ascii_bytes s
  | VBool b => [4; if b then 1 else 0]
  | VNull => [5]
  | VTag t v => 6 :: t :: write_value v
  | VArray l => 7 :: Z.of_nat (length l) :: concat (map write_value l)
  | VMap l => 8 :: Z.of_nat (length l) :: concat (map (fun kv => write_value kv.1 ++ write_value kv.2) l)
  end.

Definition text_octets (b : bytes) : string := String.string_of_list_ascii (map (fun z => Ascii.ascii_of_N (Z.to_N z)) b).
Fixpoint read_many {A} (read : bytes -> option (A * bytes)) (n : nat) (b : bytes) : option (list A * bytes) :=
  match n with
  | O => Some ([], b)
  | S n =>
      '(v, b) ← read b;
      '(l, b) ← read_many read n b;
      Some (v :: l, b)
  end.
(** Every value takes an octet, so the length is enough fuel. *)
Fixpoint read_value (fuel : nat) (b : bytes) : option (Value * bytes) :=
  match fuel with
  | O => None
  | S fuel =>
      match b with
      | 0 :: z :: b => Some (VInteger z, b)
      | 1 :: n :: b => Some (VBytes (take (Z.to_nat n) b), drop (Z.to_nat n) b)
      | 2 :: z :: b => Some (VFloat z, b)
      | 3 :: n :: b => Some (VText (text_octets (take (Z.to_nat n) b)), drop (Z.to_nat n) b)
      | 4 :: z :: b => Some (VBool (z =? 1), b)
      | 5 :: b => Some (VNull, b)
      | 6 :: t :: b => '(v, b) ← read_value fuel b; Some (VTag t v, b)
      | 7 :: n :: b => '(l, b) ← read_many (read_value fuel) (Z.to_nat n) b; Some (VArray l, b)
      | 8 :: n :: b =>
          '(l, b) ← read_many (fun b => '(k, b) ← read_value fuel b; '(v, b) ← read_value fuel b; Some ((k, v), b)) (Z.to_nat n) b;
          Some (VMap l, b)
      | _ => None
      end
  end.

Lemma text_octets_bytes s : text_octets (ascii_bytes s) = s.
Proof.
  unfold text_octets, ascii_bytes. induction s as [|c s IH]; simpl; [done|].
  by rewrite N2Z.id, Ascii.ascii_N_embedding, IH.
Qed.

Lemma read_many_written {A} (read : bytes -> option (A * bytes)) (write : A -> bytes) l rest :
  Forall (fun v => forall rest, read (write v ++ rest) = Some (v, rest)) l ->
  read_many read (length l) (concat (map write l) ++ rest) = Some (l, rest).
Proof.
  induction 1 as [|v l Hv _ IH]; simpl; [done|]. rewrite <- app_assoc, Hv. simpl. by rewrite IH.
Qed.

Lemma read_written : forall v fuel rest, (length (write_value v) <= fuel)%nat -> read_value fuel (write_value v ++ rest) = Some (v, rest).
Proof.
  fix IH 1. intros [z|b|z|s|b| |t v|l|l] [|fuel] rest Hf; cbn [write_value length] in Hf; try lia; cbn [write_value app read_value].
  - done.
  - unfold blen. rewrite Nat2Z.id, take_app_length, drop_app_length. done.
  - done.
  - unfold blen. rewrite Nat2Z.id, take_app_length, drop_app_length, text_octets_bytes. done.
  - by destruct b.
  - done.
  - rewrite IH by lia. done.
  - rewrite Nat2Z.id, (read_many_written _ write_value); [done|].
    revert Hf. induction l as [|v l IHl]; intros Hf; [constructor|].
    cbn [map concat] in Hf. rewrite length_app in Hf. cbn [length] in *.
    constructor; [intros rest'; apply IH; lia|apply IHl; lia].
  - rewrite Nat2Z.id, (read_many_written _ (fun kv => write_value kv.1 ++ write_value kv.2)); [done|].
    revert Hf. induction l as [|[k v] l IHl]; intros Hf; [constructor|].
    cbn [map concat fst snd] in Hf. rewrite !length_app in Hf. cbn [length] in *.
    constructor; [|apply IHl; lia]. intros rest'. cbn [fst snd]. rewrite <- app_assoc, IH by lia. simpl.
    by rewrite IH by lia.
Qed.

(** Entries in the order of their keys, integers before texts. *)
Definition key_octets (kv : Value * Value) : bytes :=
  match kv.1 with VInteger z => [0; z] | VText s => 1 :: ascii_bytes s | _ => [] end.
Definition key_le (a b : Value * Value) : Prop := ord_le (key_octets a) (key_octets b).
#[export] Instance key_le_dec a b : Decision (key_le a b).
Proof. unfold key_le. apply _. Defined.
Definition ordered (v : Value) : Value :=
  match v with VMap l => VMap (merge_sort key_le l) | v => v end.

#[export] Instance demo_cbor : Cbor := {|
  from_reader b := '(v, rest) ← read_value (length b) b; Some (v, blen b - blen rest);
  to_canonical_vec v := Some (write_value (ordered v))
|}.

Lemma ascii_bytes_inj s s' : ascii_bytes s = ascii_bytes s' -> s = s'.
Proof.
  revert s'. induction s as [|c s IH]; intros [|c' s']; unfold ascii_bytes; simpl; try done.
  intros [= Hc Hs]. f_equal; [|by apply IH].
  rewrite <- (Ascii.ascii_N_embedding c), <- (Ascii.ascii_N_embedding c'). by apply N2Z.inj in Hc as ->.
Qed.

#[local] Instance key_le_total : Total key_le.
Proof. intros a b. unfold key_le, ord_le. destruct (leb _ _) eqn:E; [by left|right]. by apply leb_false. Qed.
#[local] Instance key_le_trans : Transitive key_le.
Proof. intros a b c. unfold key_le, ord_le. apply leb_trans. Qed.

(** Sorting forgets the order of entries with different keys. *)
Lemma ordered_keys l l' : NoDup (map key_octets l) -> l' ≡ₚ l -> ordered (VMap l') = ordered (VMap l).
Proof.
  intros Hnd Hp. simpl. f_equal. apply (StronglySorted_unique_strong key_le).
  - intros x y Hx Hy Hxy Hyx. rewrite merge_sort_Permutation in Hx, Hy. rewrite Hp in Hx.
    assert (key_octets x = key_octets y) as Heq by (by apply leb_antisym).
    apply list_elem_of_lookup in Hx as [i Hi], Hy as [j Hj].
    assert (i = j); [|congruence].
    apply (NoDup_lookup (map key_octets l) i j (key_octets x) Hnd); rewrite list_lookup_fmap; [by rewrite Hi|].
    by rewrite Hj, Heq.
  - apply (StronglySorted_merge_sort key_le).
  - apply (StronglySorted_merge_sort key_le).
  - by rewrite !merge_sort_Permutation.
Qed.
Lemma ordered_text_map l l' :
  NoDup (map fst l) -> l' ≡ₚ l -> ordered (text_map l') = ordered (text_map l).
Proof.
  intros Hnd Hp. apply ordered_keys; [|by apply fmap_Permutation].
  assert (map key_octets (map (fun kv => (VText kv.1, kv.2)) l) = map (fun k => 1 :: ascii_bytes k) (map fst l)) as ->
    by (by rewrite !map_map). apply NoDup_fmap_2; [|done].
  intros k k' [= Hk]. by apply ascii_bytes_inj.
Qed.

Lemma ordered_plain v : plain v = true -> ordered v = v.
Proof. by destruct v. Qed.

Lemma demo_read v : from_reader (write_value v) = Some (v, blen (write_value v)).
Proof.
  simpl. pose proof (read_written v (length (write_value v)) []) as Hr. rewrite app_nil_r in Hr. rewrite Hr by lia. simpl.
  unfold blen. simpl. by rewrite Z.sub_0_r.
Qed.

#[export] Instance demo_cbor_laws : CborLaws.
Proof.
  split.
  - by eexists.
  - intros v b Hv [= <-]. rewrite ordered_plain by done. apply demo_read.
  - by eexists.
  - intros l b [Hnd _] Hb.
    assert (b = write_value (ordered (text_map l))) as -> by (by injection Hb as <-).
    assert (exists l', l' ≡ₚ l /\ text_map l' = ordered (text_map l)) as (l' & Hp & <-).
    { destruct (Permutation_map_inv (fun kv : string * Value => (VText kv.1, kv.2))
        (l1 := merge_sort key_le (map (fun kv => (VText kv.1, kv.2)) l)) l) as (l' & Hl' & Hp).
      - apply merge_sort_Permutation.
      - exists l'. split; [done|]. unfold text_map. simpl. by rewrite Hl'. }
    exists l'. split; [done|]. apply demo_read.
  - intros l l' [Hnd _] Hp. unfold to_canonical_vec, demo_cbor. by rewrite (ordered_text_map l l').
Qed.

Lemma written_bounds : forall v, 1 <= blen (write_value v) <= value_size v.
Proof.
  unfold blen. fix IH 1. intros [z|b|z|t|b| |tag v|l|l]; cbn [write_value value_size length]; unfold blen; try lia.
  - specialize (IH v). lia.
  - rewrite Nat2Z.inj_succ, Nat2Z.inj_succ. split; [lia|]. enough (Z.of_nat (length (concat (map write_value l))) <= fold_right (fun v n => value_size v + n) 0 l) by lia.
    induction l as [|v l IHl]; [done|]. cbn [map concat fold_right]. rewrite length_app. specialize (IH v). lia.
  - rewrite Nat2Z.inj_succ, Nat2Z.inj_succ. split; [lia|].
    enough (Z.of_nat (length (concat (map (fun kv => write_value kv.1 ++ write_value kv.2) l))) <=
      fold_right (fun kv n => value_size kv.1 + value_size kv.2 + n) 0 l) by lia.
    induction l as [|[k v] l IHl]; [done|]. cbn [map concat fold_right fst snd]. rewrite !length_app.
    pose proof (IH k). pose proof (IH v). lia.
Qed.
Lemma entries_size_perm (l l' : list (Value * Value)) : l ≡ₚ l' -> value_size (VMap l) = value_size (VMap l').
Proof. intros Hp. cbn [value_size]. f_equal. induction Hp; cbn [fold_right]; lia. Qed.
#[export] Instance demo_cbor_size : CborSizeLaws.
Proof.
  split.
  - intros v b Hv [= <-]. rewrite ordered_plain by done. apply written_bounds.
  - intros l b _ Hb. assert (b = write_value (ordered (text_map l))) as -> by (by injection Hb as <-).
    assert (value_size (text_map l) = value_size (ordered (text_map l))) as -> by (apply entries_size_perm; symmetry; apply merge_sort_Permutation).
    apply written_bounds.
Qed.

(** ** The channel's primitives *)

Definition demo_digest (n : nat) (b : bytes) : bytes := take n (demo_sha256 b ++ replicate n 0).
Lemma demo_digest_len n b : length (demo_digest n b) = n.
Proof. unfold demo_digest. rewrite length_take, length_app, length_replicate. lia. Qed.

#[export] Instance demo_sha512 : Sha512 := demo_digest 64.
#[export] Instance demo_hkdf : HkdfSha512 := fun ikm info n => Some (demo_digest n (info ++ ikm)).
#[export] Instance demo_hmac512 : HmacSha512 := fun key m => Some (demo_digest 64 (key ++ m)).
#[export] Instance demo_schedule_laws : ScheduleLaws.
Proof.
  split.
  - apply demo_digest_len.
  - intros ikm info n _. eexists. split; [done|apply demo_digest_len].
  - intros key m. eexists. split; [done|apply demo_digest_len].
Qed.

(** The message in clear, with a tag over everything. *)
#[export] Instance demo_aead : Aead := {|
  aead_encrypt key nonce aad m := Some (m ++ demo_digest 16 (key ++ nonce ++ aad ++ m));
  aead_decrypt key nonce aad c :=
    let m := take (length c - 16) c in
    if bool_decide (drop (length c - 16) c = demo_digest 16 (key ++ nonce ++ aad ++ m)) then Some m else None
|}.
#[export] Instance demo_aead_laws : AeadLaws.
Proof.
  split.
  - by eexists.
  - intros key nonce aad m c [= <-]. rewrite length_app, demo_digest_len. done.
  - intros key nonce aad m c [= <-]. simpl. rewrite length_app, demo_digest_len, Nat.add_sub.
    rewrite take_app_length, drop_app_length, bool_decide_eq_true_2 by done. done.
Qed.
