(* ===== verification/Wire.v ===== *)
(** * Wire vocabulary ([src/wire.rs])

    The typed protocol values: locators, invitations, the client and server
    messages of the relay, close reasons, channel frames, intents, decisions
    and payloads, and the claim commitment.  An enum variant [T::V] is the
    constructor [T_V]; [Decision] is [WireDecision], the name being taken by
    decidable propositions.  [str] values are [string]s of octets. *)

From S2P Require Import Prelude External.

Inductive CloseReason : Type :=
| CloseReason_Closed
| CloseReason_Crowded
| CloseReason_Expired
| CloseReason_Conflict.

#[export] Instance CloseReason_eq_dec : EqDecision CloseReason.
Proof. solve_decision. Defined.

Inductive Locator : Type :=
| Locator_Direct (mailbox_id : bytes)
| Locator_Nameplate (nameplate : Z).

#[export] Instance Locator_eq_dec : EqDecision Locator.
Proof. solve_decision. Defined.

Record Invitation := mkInvitation {
  iv_application : string;
  iv_relay_origin : string;
  iv_locator : Locator;
  iv_secret : bytes;
  iv_expected_allocator_key : option bytes;
  iv_expected_claimant_key : option bytes
}.

Inductive ClientMessage : Type :=
| ClientMessage_Bind
| ClientMessage_Allocate (locator_mode : Z) (ttl_seconds : option Z)
| ClientMessage_Claim (locator : Locator)
| ClientMessage_AllocateV2 (mailbox_id claim_commitment : bytes) (ttl_seconds : option Z)
| ClientMessage_ClaimV2 (mailbox_id claim_token : bytes)
| ClientMessage_Open (mailbox_id membership_token : bytes)
| ClientMessage_Put (seq : Z) (body : bytes)
| ClientMessage_Ack (peer_seq : Z)
| ClientMessage_Close
| ClientMessage_Ping.

Inductive ServerMessage : Type :=
| ServerMessage_Welcome
| ServerMessage_Allocated (mailbox_id membership_token : bytes) (nameplate : option Z) (expires_at : Z)
| ServerMessage_Claimed (mailbox_id membership_token : bytes) (expires_at : Z)
| ServerMessage_AllocatedV2 (mailbox_id membership_token : bytes) (expires_at : Z)
| ServerMessage_ClaimedV2 (mailbox_id membership_token : bytes) (expires_at : Z)
| ServerMessage_Frame (peer_seq : Z) (body : bytes)
| ServerMessage_Acknowledged (seq : Z)
| ServerMessage_Closed (reason : CloseReason)
| ServerMessage_Error (code : Z)
| ServerMessage_Pong.

#[export] Instance ServerMessage_eq_dec : EqDecision ServerMessage.
Proof. solve_decision. Defined.

Inductive Side : Type := Side_Allocator | Side_Claimant.
#[export] Instance Side_eq_dec : EqDecision Side.
Proof. solve_decision. Defined.

Inductive Direction : Type := Direction_AllocatorToClaimant | Direction_ClaimantToAllocator.
#[export] Instance Direction_eq_dec : EqDecision Direction.
Proof. solve_decision. Defined.

Record CpaceMessage := mkCpaceMessage { cm_side : Side; cm_share : bytes; cm_associated_data : bytes }.

Inductive ChannelFrame : Type :=
| ChannelFrame_Cpace (side : Side) (control message : bytes)
| ChannelFrame_Finished (side : Side) (control value : bytes)
| ChannelFrame_Sealed (direction : Direction) (counter : Z) (ciphertext : bytes).

Record SealedPlaintext := mkSealedPlaintext { sp_control : bytes; sp_body : option bytes }.

Record PairingIntent := mkPairingIntent {
  pi_application : string;
  pi_action : string;
  pi_allocator_claim : bytes;
  pi_claimant_claim : bytes;
  pi_authority_summary : string;
  pi_intent_nonce : bytes
}.

Inductive WireDecision : Type := Decision_Approve | Decision_Decline.
Record PairingDecision := mkPairingDecision { pd_intent_digest : bytes; pd_decision : WireDecision }.
Record ApplicationPayload := mkApplicationPayload {
  ap_intent_digest : bytes;
  ap_payload_type : string;
  ap_body : bytes
}.

Inductive RecognitionError : Type :=
| RecognitionError_MalformedCbor
| RecognitionError_TrailingBytes
| RecognitionError_NonDeterministic
| RecognitionError_DuplicateKey
| RecognitionError_Schema
| RecognitionError_ApplicationId
| RecognitionError_RelayOrigin
| RecognitionError_TypedValue.

Definition SUITE_ID : string := "CPACE25519-SHA512-D21".

(** The domain separator of the commitment, with its trailing NUL. *)
Definition claim_commitment_domain : bytes :=
  ascii_bytes "cbcl-pairing claim-v2 commitment" ++ [0].

Definition claim_commitment `{Sha256} (mailbox_id claim_token : bytes) : bytes :=
  sha256 (claim_commitment_domain ++ mailbox_id ++ claim_token).
