(* ===== verification/Cddl.v ===== *)
(** * The wire schema ([schemas/pairing-v1.cddl])

    The fragment of CDDL (RFC 8610) the schema uses, as a data type, with an
    executable conformance test, and the schema itself, rule by rule.  The
    validator ([cddl_cat]) stays a parameter, [Cddl]; [CddlLaws] says that it
    decides conformance to the named rule. *)

From S2P Require Import Prelude External.

Inductive CddlType : Type :=
| CUint
| CRange (lo hi : Z)
| CText (s : string)
| CTstr (lo hi : Z)
| CBstr (lo hi : Z)
| CNull
| CChoice (l : list CddlType)
| CArray (l : list CddlType)
| CMap (l : list (bool * string * CddlType)).

(** Induction that reaches the alternatives of a choice. *)
Lemma CddlType_nested_ind (P : CddlType -> Prop) :
  P CUint -> (forall lo hi, P (CRange lo hi)) -> (forall s, P (CText s)) -> (forall lo hi, P (CTstr lo hi)) ->
  (forall lo hi, P (CBstr lo hi)) -> P CNull -> (forall ts, Forall P ts -> P (CChoice ts)) ->
  (forall ts, Forall P ts -> P (CArray ts)) -> (forall ms, Forall (fun m => P m.2) ms -> P (CMap ms)) ->
  forall t, P t.
Proof.
  intros Hu Hr Ht Hts Hb Hn Hc Ha Hm. fix IH 1. intros [|lo hi|s|lo hi|lo hi| |ts|ts|ms];
    [exact Hu|apply Hr|apply Ht|apply Hts|apply Hb|exact Hn|..].
  - apply Hc. induction ts; constructor; auto.
  - apply Ha. induction ts; constructor; auto.
  - apply Hm. induction ms as [|[b t] ms]; constructor; auto.
Qed.

Definition within_size (lo hi n : Z) : bool := (lo <=? n) && (n <=? hi).

(** The value under a text key, the first if there are several. *)
Fixpoint optional_field (entries : list (Value * Value)) (name : string) : option Value :=
  match entries with
  | [] => None
  | (VText key, v) :: entries => if bool_decide (key = name) then Some v else optional_field entries name
  | _ :: entries => optional_field entries name
  end.

(** Map members are (optional, key, type); [.size] counts octets. *)
Fixpoint conforms (t : CddlType) (v : Value) {struct t} : bool :=
  match t, v with
  | CUint, VInteger z => 0 <=? z
  | CRange lo hi, VInteger z => within_size lo hi z
  | CText s, VText s' => bool_decide (s = s')
  | CTstr lo hi, VText s => within_size lo hi (blen (ascii_bytes s))
  | CBstr lo hi, VBytes b => within_size lo hi (blen b)
  | CNull, VNull => true
  | CChoice ts, v => existsb (fun t => conforms t v) ts
  | CArray ts, VArray vs =>
      (fix go ts vs := match ts, vs with
                       | [], [] => true
                       | t :: ts, v :: vs => conforms t v && go ts vs
                       | _, _ => false
                       end) ts vs
  | CMap members, VMap entries =>
      forallb (fun m => match optional_field entries m.1.2 with
                        | Some v => conforms m.2 v
                        | None => m.1.1
                        end) members &&
      forallb (fun e => match e.1 with
                        | VText key => existsb (fun m => bool_decide (key = m.1.2)) members
                        | _ => false
                        end) entries
  | _, _ => false
  end.

(** ** The rules *)

Definition req (key : string) (t : CddlType) : bool * string * CddlType := (false, key, t).
Definition opt (key : string) (t : CddlType) : bool * string * CddlType := (true, key, t).
Definition fixed_size (n : Z) : CddlType := CBstr n n.
Definition number (n : Z) : CddlType := CRange n n.

Definition application_id_rule : CddlType := CTstr 1 96.
Definition relay_origin_rule : CddlType := CTstr 1 255.
Definition mailbox_id_rule : CddlType := fixed_size 32.
Definition membership_token_rule : CddlType := fixed_size 32.
Definition locator_rule : CddlType :=
  CChoice [CArray [number 0; mailbox_id_rule]; CArray [number 1; CRange 0 999999999]].

Definition pairing_invitation_rule : CddlType :=
  CMap [req "version" (number 1); req "suite" (CText "CPACE25519-SHA512-D21");
        req "application" application_id_rule; req "relay-origin" relay_origin_rule;
        req "locator" locator_rule; req "secret" (CBstr 1 64);
        opt "expected-allocator-key" (fixed_size 32); opt "expected-claimant-key" (fixed_size 32)].

Definition client_message_rule : CddlType :=
  CChoice
    [CMap [req "type" (CText "bind"); req "version" (number 1)];
     CMap [req "type" (CText "allocate"); req "locator-mode" (CRange 0 1); opt "ttl-seconds" (CRange 60 86400)];
     CMap [req "type" (CText "claim"); req "locator" locator_rule];
     CMap [req "type" (CText "allocate-v2"); req "mailbox-id" (fixed_size 32);
           req "claim-commitment" (fixed_size 32); opt "ttl-seconds" (number 900)];
     CMap [req "type" (CText "claim-v2"); req "mailbox-id" (fixed_size 32); req "claim-token" (fixed_size 16)];
     CMap [req "type" (CText "open"); req "mailbox-id" mailbox_id_rule;
           req "membership-token" membership_token_rule];
     CMap [req "type" (CText "put"); req "seq" (CRange 0 15); req "body" (CBstr 1 69632)];
     CMap [req "type" (CText "ack"); req "peer-seq" (CRange 0 15)];
     CMap [req "type" (CText "close")];
     CMap [req "type" (CText "ping")]].

Definition server_message_rule : CddlType :=
  CChoice
    [CMap [req "type" (CText "welcome"); req "version" (number 1)];
     CMap [req "type" (CText "allocated"); req "mailbox-id" mailbox_id_rule;
           req "membership-token" membership_token_rule; opt "nameplate" (CRange 0 999999999);
           req "expires-at" CUint];
     CMap [req "type" (CText "claimed"); req "mailbox-id" mailbox_id_rule;
           req "membership-token" membership_token_rule; req "expires-at" CUint];
     CMap [req "type" (CText "allocated-v2"); req "mailbox-id" mailbox_id_rule;
           req "membership-token" membership_token_rule; req "expires-at" CUint];
     CMap [req "type" (CText "claimed-v2"); req "mailbox-id" mailbox_id_rule;
           req "membership-token" membership_token_rule; req "expires-at" CUint];
     CMap [req "type" (CText "frame"); req "peer-seq" (CRange 0 15); req "body" (CBstr 1 69632)];
     CMap [req "type" (CText "acknowledged"); req "seq" (CRange 0 15)];
     CMap [req "type" (CText "closed");
           req "reason" (CChoice [CText "closed"; CText "crowded"; CText "expired"; CText "conflict"])];
     CMap [req "type" (CText "error");
           req "code" (CChoice [number 400; number 404; number 409; number 410; number 413; number 429; number 503])];
     CMap [req "type" (CText "pong")]].

Definition cpace_channel_frame_rule : CddlType :=
  CChoice
    [CMap [req "v" (number 1); req "kind" (CText "cpace"); req "role" (CRange 0 1);
           req "control" (CBstr 1 2048); req "message" (CBstr 1 65536)];
     CMap [req "v" (number 1); req "kind" (CText "finished"); req "role" (CRange 0 1);
           req "control" (CBstr 1 2048); req "value" (fixed_size 64)];
     CMap [req "v" (number 1); req "kind" (CText "sealed"); req "direction" (CRange 0 1);
           req "counter" CUint; req "ciphertext" (CBstr 17 69572)]].

Definition cpace_message_rule : CddlType :=
  CArray [number 1; CRange 0 1; fixed_size 32; CBstr 1 128].

Definition pairing_public_context_rule : CddlType :=
  CArray [CText "cbcl-pairing-public-context/v1"; number 1; CText "CPACE25519-SHA512-D21"; application_id_rule;
          relay_origin_rule; mailbox_id_rule; CChoice [fixed_size 32; CNull]; CChoice [fixed_size 32; CNull]].

Definition sealed_plaintext_rule : CddlType :=
  CMap [req "control" (CBstr 1 2048); opt "body" (CBstr 1 65536)].

Definition pairing_intent_rule : CddlType :=
  CMap [req "type" (CText "intent"); req "application" application_id_rule; req "action" (CTstr 1 64);
        req "allocator-claim" (CBstr 1 8192); req "claimant-claim" (CBstr 1 8192);
        req "authority-summary" (CTstr 1 512); req "intent-nonce" (fixed_size 32)].

Definition pairing_decision_rule : CddlType :=
  CMap [req "type" (CText "decision"); req "intent-digest" (fixed_size 32);
        req "decision" (CChoice [CText "approve"; CText "decline"])].

Definition application_payload_rule : CddlType :=
  CMap [req "type" (CText "payload"); req "intent-digest" (fixed_size 32); req "payload-type" (CTstr 1 96);
        req "body" (CBstr 1 64512)].

Definition schema : list (string * CddlType) :=
  [("pairing-invitation", pairing_invitation_rule); ("client-message", client_message_rule);
   ("server-message", server_message_rule); ("cpace-channel-frame", cpace_channel_frame_rule);
   ("cpace-message", cpace_message_rule); ("pairing-public-context", pairing_public_context_rule);
   ("sealed-plaintext", sealed_plaintext_rule); ("pairing-intent", pairing_intent_rule);
   ("pairing-decision", pairing_decision_rule); ("application-payload", application_payload_rule)].

(** The validator decides the named rule. *)
Class CddlLaws `{Cddl} : Prop := {
  validates rule t v : (rule, t) ∈ schema -> validate_cbor rule v = conforms t v
}.

(** An executable validator. *)
Definition schema_validator : Cddl := fun rule v =>
  match find (fun r => bool_decide (r.1 = rule)) schema with Some (_, t) => conforms t v | None => false end.

Lemma schema_validator_laws : CddlLaws (H := schema_validator).
Proof.
  split. intros rule t v Hin. unfold validate_cbor, schema_validator.
  repeat (apply elem_of_cons in Hin as [[= -> ->]|Hin]; [reflexivity|]). by apply elem_of_nil in Hin.
Qed.
