(* ===== verification/WireCodec.v ===== *)
(** * Wire codecs ([src/wire.rs])

    The recognisers of the trust boundary and the deterministic encoders: a
    message is read as one complete canonical CBOR value without duplicate
    keys that conforms to its schema rule, and only then becomes a typed
    value; every encoder recognises its own output before returning it. *)

From S2P Require Import Prelude External Wire Cddl.

Abbreviation wireM := (outcome RecognitionError).

(** [deterministic_bytes(&map(..))] writes [text_map], the source's [map]. *)
Definition map_entries (value : Value) : wireM (list (Value * Value)) :=
  match value with VMap entries => Ok entries | _ => Err RecognitionError_TypedValue end.

Definition field (entries : list (Value * Value)) (name : string) : wireM Value :=
  ok_or (optional_field entries name) RecognitionError_TypedValue.

Definition text_value (value : Value) : wireM string :=
  match value with VText s => Ok s | _ => Err RecognitionError_TypedValue end.

Definition bytes_value (value : Value) : wireM bytes :=
  match value with VBytes b => Ok b | _ => Err RecognitionError_TypedValue end.

Definition uint_value (value : Value) : wireM Z :=
  match value with
  | VInteger z => ok_or (try_into u64_max z) RecognitionError_TypedValue
  | _ => Err RecognitionError_TypedValue
  end.

Definition fixed_bytes (n : nat) (value : Value) : wireM bytes :=
  b ← bytes_value value;
  if (length b =? n)%nat then Ok b else Err RecognitionError_TypedValue.

(** [uint_value(..)?.try_into()]: an integer of a narrower width. *)
Definition narrow_value (max : Z) (value : Value) : wireM Z :=
  z ← uint_value value;
  ok_or (try_into max z) RecognitionError_TypedValue.

(** [optional_field(..).map(f).transpose()?]. *)
Definition optional_value {A} (f : Value -> wireM A) (entries : list (Value * Value)) (name : string) :
    wireM (option A) :=
  match optional_field entries name with
  | Some v => a ← f v; Ok (Some a)
  | None => Ok None
  end.

Definition locator_value (value : Value) : wireM Locator :=
  match value with
  | VArray [tag; v] =>
      n ← uint_value tag;
      if n =? 0 then id ← fixed_bytes 32 v; Ok (Locator_Direct id)
      else if n =? 1 then np ← narrow_value u32_max v; Ok (Locator_Nameplate np)
      else Err RecognitionError_TypedValue
  | _ => Err RecognitionError_TypedValue
  end.

Definition encoded_locator (locator : Locator) : Value :=
  match locator with
  | Locator_Direct mailbox_id => VArray [VInteger 0; VBytes mailbox_id]
  | Locator_Nameplate nameplate => VArray [VInteger 1; VInteger nameplate]
  end.

(** ** Identifiers and origins *)

Definition ascii_alphabetic (c : Z) : bool := ((65 <=? c) && (c <=? 90)) || ((97 <=? c) && (c <=? 122)).
Definition ascii_digit (c : Z) : bool := (48 <=? c) && (c <=? 57).
Definition ascii_alphanumeric (c : Z) : bool := ascii_alphabetic c || ascii_digit c.
Definition hyphen : Z := 45.

(** [split]: the pieces between separators, at least one. *)
Fixpoint split_on (c : Z) (l : bytes) : list bytes :=
  match l with
  | [] => [[]]
  | x :: l =>
      match split_on c l with
      | piece :: pieces => if x =? c then [] :: piece :: pieces else (x :: piece) :: pieces
      | [] => [[]]
      end
  end.

Definition valid_dns_label (label : bytes) : bool :=
  match label with
  | [] => false
  | first :: rest =>
      ascii_alphabetic first &&
      match rest with
      | [] => true
      | _ => forallb (fun b => ascii_alphanumeric b || (b =? hyphen)) (removelast rest) &&
             ascii_alphanumeric (List.last rest 0)
      end
  end.

Definition valid_application_id (application : string) : bool :=
  let octets := ascii_bytes application in
  forallb (fun b => b <? 128) octets &&
  match split_on 47 octets with
  | [domain; profile; version] =>
      match split_on 46 domain with
      | first_label :: remaining_labels =>
          valid_dns_label first_label && negb (bool_decide (remaining_labels = [])) &&
          forallb valid_dns_label remaining_labels
      | [] => false
      end &&
      match profile with [] => false | first :: _ => ascii_alphabetic first end &&
      forallb (fun b => ascii_alphanumeric b || (b =? hyphen)) profile &&
      match version with
      | v :: version => (v =? 118) && (1 <=? length version)%nat && (length version <=? 2)%nat &&
                        forallb ascii_digit version
      | [] => false
      end
  | _ => false
  end.

Definition starts_with (prefix s : bytes) : bool := bool_decide (take (length prefix) s = prefix).

Definition valid_relay_origin `{UrlParser} (origin : string) : bool :=
  let octets := ascii_bytes origin in
  forallb (fun b => b <? 128) octets &&
  (starts_with (ascii_bytes "https://") octets || starts_with (ascii_bytes "wss://") octets) &&
  match url_parse origin with
  | Some parsed =>
      bool_decide (url_username parsed = EmptyString) && bool_decide (url_password parsed = None) &&
      bool_decide (url_query parsed = None) && bool_decide (url_fragment parsed = None) &&
      bool_decide (url_path parsed = "/"%string) && bool_decide (url_origin parsed = origin)
  | None => false
  end.

Definition validate_application (application : string) : wireM unit :=
  if valid_application_id application then Ok tt else Err RecognitionError_ApplicationId.
Definition validate_origin `{UrlParser} (origin : string) : wireM unit :=
  if valid_relay_origin origin then Ok tt else Err RecognitionError_RelayOrigin.

Definition wire_side (value : Value) : wireM Side :=
  n ← uint_value value;
  if n =? 0 then Ok Side_Allocator else if n =? 1 then Ok Side_Claimant else Err RecognitionError_TypedValue.
Definition wire_direction (value : Value) : wireM Direction :=
  n ← uint_value value;
  if n =? 0 then Ok Direction_AllocatorToClaimant
  else if n =? 1 then Ok Direction_ClaimantToAllocator else Err RecognitionError_TypedValue.
Definition encoded_side (s : Side) : Value :=
  VInteger (match s with Side_Allocator => 0 | Side_Claimant => 1 end).
Definition encoded_direction (d : Direction) : Value :=
  VInteger (match d with Direction_AllocatorToClaimant => 0 | Direction_ClaimantToAllocator => 1 end).

(** An optional entry of an encoder. *)
Definition optional_entry (name : string) (v : option Value) : list (string * Value) :=
  match v with Some v => [(name, v)] | None => [] end.

(** ** From entries to typed values, and back *)

Definition client_message_of (entries : list (Value * Value)) : wireM ClientMessage :=
  type ← field entries "type" ≫= text_value;
  if bool_decide (type = "bind"%string) then Ok ClientMessage_Bind
  else if bool_decide (type = "allocate"%string) then
    locator_mode ← field entries "locator-mode" ≫= narrow_value u8_max;
    ttl_seconds ← optional_value (narrow_value u32_max) entries "ttl-seconds";
    Ok (ClientMessage_Allocate locator_mode ttl_seconds)
  else if bool_decide (type = "claim"%string) then
    locator ← field entries "locator" ≫= locator_value;
    Ok (ClientMessage_Claim locator)
  else if bool_decide (type = "allocate-v2"%string) then
    mailbox_id ← field entries "mailbox-id" ≫= fixed_bytes 32;
    commitment ← field entries "claim-commitment" ≫= fixed_bytes 32;
    ttl_seconds ← optional_value (narrow_value u16_max) entries "ttl-seconds";
    Ok (ClientMessage_AllocateV2 mailbox_id commitment ttl_seconds)
  else if bool_decide (type = "claim-v2"%string) then
    mailbox_id ← field entries "mailbox-id" ≫= fixed_bytes 32;
    claim_token ← field entries "claim-token" ≫= fixed_bytes 16;
    Ok (ClientMessage_ClaimV2 mailbox_id claim_token)
  else if bool_decide (type = "open"%string) then
    mailbox_id ← field entries "mailbox-id" ≫= fixed_bytes 32;
    membership_token ← field entries "membership-token" ≫= fixed_bytes 32;
    Ok (ClientMessage_Open mailbox_id membership_token)
  else if bool_decide (type = "put"%string) then
    seq ← field entries "seq" ≫= narrow_value u8_max;
    body ← field entries "body" ≫= bytes_value;
    Ok (ClientMessage_Put seq body)
  else if bool_decide (type = "ack"%string) then
    peer_seq ← field entries "peer-seq" ≫= narrow_value u8_max;
    Ok (ClientMessage_Ack peer_seq)
  else if bool_decide (type = "close"%string) then Ok ClientMessage_Close
  else if bool_decide (type = "ping"%string) then Ok ClientMessage_Ping
  else Err RecognitionError_TypedValue.

Definition client_message_entries (m : ClientMessage) : list (string * Value) :=
  match m with
  | ClientMessage_Bind => [("type", VText "bind"); ("version", VInteger 1)]
  | ClientMessage_Allocate locator_mode ttl_seconds =>
      [("type", VText "allocate"); ("locator-mode", VInteger locator_mode)] ++
      optional_entry "ttl-seconds" (VInteger <$> ttl_seconds)
  | ClientMessage_Claim locator => [("type", VText "claim"); ("locator", encoded_locator locator)]
  | ClientMessage_AllocateV2 mailbox_id commitment ttl_seconds =>
      [("type", VText "allocate-v2"); ("mailbox-id", VBytes mailbox_id);
       ("claim-commitment", VBytes commitment)] ++
      optional_entry "ttl-seconds" (VInteger <$> ttl_seconds)
  | ClientMessage_ClaimV2 mailbox_id claim_token =>
      [("type", VText "claim-v2"); ("mailbox-id", VBytes mailbox_id); ("claim-token", VBytes claim_token)]
  | ClientMessage_Open mailbox_id membership_token =>
      [("type", VText "open"); ("mailbox-id", VBytes mailbox_id); ("membership-token", VBytes membership_token)]
  | ClientMessage_Put seq body => [("type", VText "put"); ("seq", VInteger seq); ("body", VBytes body)]
  | ClientMessage_Ack peer_seq => [("type", VText "ack"); ("peer-seq", VInteger peer_seq)]
  | ClientMessage_Close => [("type", VText "close")]
  | ClientMessage_Ping => [("type", VText "ping")]
  end.

Definition close_reason_of (reason : string) : wireM CloseReason :=
  if bool_decide (reason = "closed"%string) then Ok CloseReason_Closed
  else if bool_decide (reason = "crowded"%string) then Ok CloseReason_Crowded
  else if bool_decide (reason = "expired"%string) then Ok CloseReason_Expired
  else if bool_decide (reason = "conflict"%string) then Ok CloseReason_Conflict
  else Err RecognitionError_TypedValue.

Definition close_reason_text (reason : CloseReason) : string :=
  match reason with
  | CloseReason_Closed => "closed"
  | CloseReason_Crowded => "crowded"
  | CloseReason_Expired => "expired"
  | CloseReason_Conflict => "conflict"
  end.

(** The three fields of [claimed], [allocated-v2] and [claimed-v2]. *)
Definition grant_of (entries : list (Value * Value)) (k : bytes -> bytes -> Z -> ServerMessage) :
    wireM ServerMessage :=
  mailbox_id ← field entries "mailbox-id" ≫= fixed_bytes 32;
  membership_token ← field entries "membership-token" ≫= fixed_bytes 32;
  expires_at ← field entries "expires-at" ≫= uint_value;
  Ok (k mailbox_id membership_token expires_at).

Definition grant_entries (type : string) (mailbox_id membership_token : bytes) (expires_at : Z) :
    list (string * Value) :=
  [("type", VText type); ("mailbox-id", VBytes mailbox_id); ("membership-token", VBytes membership_token);
   ("expires-at", VInteger expires_at)].

Definition server_message_of (entries : list (Value * Value)) : wireM ServerMessage :=
  type ← field entries "type" ≫= text_value;
  if bool_decide (type = "welcome"%string) then Ok ServerMessage_Welcome
  else if bool_decide (type = "allocated"%string) then
    mailbox_id ← field entries "mailbox-id" ≫= fixed_bytes 32;
    membership_token ← field entries "membership-token" ≫= fixed_bytes 32;
    nameplate ← optional_value (narrow_value u32_max) entries "nameplate";
    expires_at ← field entries "expires-at" ≫= uint_value;
    Ok (ServerMessage_Allocated mailbox_id membership_token nameplate expires_at)
  else if bool_decide (type = "claimed"%string) then grant_of entries ServerMessage_Claimed
  else if bool_decide (type = "allocated-v2"%string) then grant_of entries ServerMessage_AllocatedV2
  else if bool_decide (type = "claimed-v2"%string) then grant_of entries ServerMessage_ClaimedV2
  else if bool_decide (type = "frame"%string) then
    peer_seq ← field entries "peer-seq" ≫= narrow_value u8_max;
    body ← field entries "body" ≫= bytes_value;
    Ok (ServerMessage_Frame peer_seq body)
  else if bool_decide (type = "acknowledged"%string) then
    seq ← field entries "seq" ≫= narrow_value u8_max;
    Ok (ServerMessage_Acknowledged seq)
  else if bool_decide (type = "closed"%string) then
    reason ← (field entries "reason" ≫= text_value) ≫= close_reason_of;
    Ok (ServerMessage_Closed reason)
  else if bool_decide (type = "error"%string) then
    code ← field entries "code" ≫= narrow_value u16_max;
    Ok (ServerMessage_Error code)
  else if bool_decide (type = "pong"%string) then Ok ServerMessage_Pong
  else Err RecognitionError_TypedValue.

Definition server_message_entries (m : ServerMessage) : list (string * Value) :=
  match m with
  | ServerMessage_Welcome => [("type", VText "welcome"); ("version", VInteger 1)]
  | ServerMessage_Allocated mailbox_id membership_token nameplate expires_at =>
      grant_entries "allocated" mailbox_id membership_token expires_at ++
      optional_entry "nameplate" (VInteger <$> nameplate)
  | ServerMessage_Claimed mailbox_id membership_token expires_at =>
      grant_entries "claimed" mailbox_id membership_token expires_at
  | ServerMessage_AllocatedV2 mailbox_id membership_token expires_at =>
      grant_entries "allocated-v2" mailbox_id membership_token expires_at
  | ServerMessage_ClaimedV2 mailbox_id membership_token expires_at =>
      grant_entries "claimed-v2" mailbox_id membership_token expires_at
  | ServerMessage_Frame peer_seq body =>
      [("type", VText "frame"); ("peer-seq", VInteger peer_seq); ("body", VBytes body)]
  | ServerMessage_Acknowledged seq => [("type", VText "acknowledged"); ("seq", VInteger seq)]
  | ServerMessage_Closed reason => [("type", VText "closed"); ("reason", VText (close_reason_text reason))]
  | ServerMessage_Error code => [("type", VText "error"); ("code", VInteger code)]
  | ServerMessage_Pong => [("type", VText "pong")]
  end.

Definition invitation_of `{UrlParser} (entries : list (Value * Value)) : wireM Invitation :=
  application ← field entries "application" ≫= text_value;
  relay_origin ← field entries "relay-origin" ≫= text_value;
  _ ← validate_application application;
  _ ← validate_origin relay_origin;
  locator ← field entries "locator" ≫= locator_value;
  secret ← field entries "secret" ≫= bytes_value;
  allocator_key ← optional_value (fixed_bytes 32) entries "expected-allocator-key";
  claimant_key ← optional_value (fixed_bytes 32) entries "expected-claimant-key";
  Ok (mkInvitation application relay_origin locator secret allocator_key claimant_key).

Definition invitation_entries (i : Invitation) : list (string * Value) :=
  [("version", VInteger 1); ("suite", VText SUITE_ID); ("application", VText (iv_application i));
   ("relay-origin", VText (iv_relay_origin i)); ("locator", encoded_locator (iv_locator i));
   ("secret", VBytes (iv_secret i))] ++
  optional_entry "expected-allocator-key" (VBytes <$> iv_expected_allocator_key i) ++
  optional_entry "expected-claimant-key" (VBytes <$> iv_expected_claimant_key i).

Definition sealed_plaintext_of (entries : list (Value * Value)) : wireM SealedPlaintext :=
  control ← field entries "control" ≫= bytes_value;
  body ← optional_value bytes_value entries "body";
  Ok (mkSealedPlaintext control body).

Definition sealed_plaintext_entries (p : SealedPlaintext) : list (string * Value) :=
  [("control", VBytes (sp_control p))] ++ optional_entry "body" (VBytes <$> sp_body p).

Definition pairing_intent_of (entries : list (Value * Value)) : wireM PairingIntent :=
  application ← field entries "application" ≫= text_value;
  _ ← validate_application application;
  action ← field entries "action" ≫= text_value;
  allocator_claim ← field entries "allocator-claim" ≫= bytes_value;
  claimant_claim ← field entries "claimant-claim" ≫= bytes_value;
  authority_summary ← field entries "authority-summary" ≫= text_value;
  intent_nonce ← field entries "intent-nonce" ≫= fixed_bytes 32;
  Ok (mkPairingIntent application action allocator_claim claimant_claim authority_summary intent_nonce).

Definition pairing_intent_entries (i : PairingIntent) : list (string * Value) :=
  [("type", VText "intent"); ("application", VText (pi_application i)); ("action", VText (pi_action i));
   ("allocator-claim", VBytes (pi_allocator_claim i)); ("claimant-claim", VBytes (pi_claimant_claim i));
   ("authority-summary", VText (pi_authority_summary i)); ("intent-nonce", VBytes (pi_intent_nonce i))].

Definition decision_of (decision : string) : wireM WireDecision :=
  if bool_decide (decision = "approve"%string) then Ok Decision_Approve
  else if bool_decide (decision = "decline"%string) then Ok Decision_Decline
  else Err RecognitionError_TypedValue.

Definition decision_text (d : WireDecision) : string :=
  match d with Decision_Approve => "approve" | Decision_Decline => "decline" end.

Definition pairing_decision_of (entries : list (Value * Value)) : wireM PairingDecision :=
  intent_digest ← field entries "intent-digest" ≫= fixed_bytes 32;
  decision ← (field entries "decision" ≫= text_value) ≫= decision_of;
  Ok (mkPairingDecision intent_digest decision).

Definition pairing_decision_entries (d : PairingDecision) : list (string * Value) :=
  [("type", VText "decision"); ("intent-digest", VBytes (pd_intent_digest d));
   ("decision", VText (decision_text (pd_decision d)))].

Definition application_payload_of (entries : list (Value * Value)) : wireM ApplicationPayload :=
  intent_digest ← field entries "intent-digest" ≫= fixed_bytes 32;
  payload_type ← field entries "payload-type" ≫= text_value;
  body ← field entries "body" ≫= bytes_value;
  Ok (mkApplicationPayload intent_digest payload_type body).

Definition application_payload_entries (p : ApplicationPayload) : list (string * Value) :=
  [("type", VText "payload"); ("intent-digest", VBytes (ap_intent_digest p));
   ("payload-type", VText (ap_payload_type p)); ("body", VBytes (ap_body p))].

(** ** Recognition *)

Section Recognition.
Context `{Cbor, Cddl}.

(** [keys.insert(canonical_key)] over the entries, depth first. *)
Fixpoint has_duplicate_key (value : Value) : wireM bool :=
  match value with
  | VArray items =>
      (fix go items := match items with
                       | [] => Ok false
                       | item :: items =>
                           duplicate ← has_duplicate_key item;
                           if (duplicate : bool) then Ok true else go items
                       end) items
  | VMap entries =>
      (fix go (keys : list bytes) entries :=
         match entries with
         | [] => Ok false
         | (key, item) :: entries =>
             canonical_key ← ok_or (to_canonical_vec key) RecognitionError_NonDeterministic;
             if bool_decide (canonical_key ∈ keys) then Ok true
             else
               in_key ← has_duplicate_key key;
               if (in_key : bool) then Ok true
               else
                 in_item ← has_duplicate_key item;
                 if (in_item : bool) then Ok true else go (canonical_key :: keys) entries
         end) [] entries
  | VTag _ item => has_duplicate_key item
  | _ => Ok false
  end.

Definition recognise_value (input : bytes) (rule : string) : wireM Value :=
  '(value, position) ← ok_or (from_reader input) RecognitionError_MalformedCbor;
  if negb (position =? blen input) then Err RecognitionError_TrailingBytes else
  _ ← match to_canonical_vec value with
      | Some canonical =>
          if bool_decide (canonical = input) then Ok tt else Err RecognitionError_NonDeterministic
      | None =>
          duplicate ← has_duplicate_key value;
          Err (if (duplicate : bool) then RecognitionError_DuplicateKey else RecognitionError_NonDeterministic)
      end;
  duplicate ← has_duplicate_key value;
  if (duplicate : bool) then Err RecognitionError_DuplicateKey
  else if validate_cbor rule value then Ok value
  else Err RecognitionError_Schema.

Definition deterministic_bytes (value : Value) : wireM bytes :=
  ok_or (to_canonical_vec value) RecognitionError_TypedValue.

(** ** The codecs *)

(** Every map codec: recognise under a rule and read the entries; write the
    entries, recognise the result, return it. *)
Definition decode_with {M} (rule : string) (of_entries : list (Value * Value) -> wireM M) (input : bytes) : wireM M :=
  value ← recognise_value input rule;
  entries ← map_entries value;
  of_entries entries.

Definition encode_with {M} (rule : string) (of_entries : list (Value * Value) -> wireM M)
    (entries : M -> list (string * Value)) (value : M) : wireM bytes :=
  encoded ← deterministic_bytes (text_map (entries value));
  _ ← decode_with rule of_entries encoded;
  Ok encoded.

Definition decode_client_message : bytes -> wireM ClientMessage := decode_with "client-message" client_message_of.
Definition encode_client_message : ClientMessage -> wireM bytes :=
  encode_with "client-message" client_message_of client_message_entries.

Definition decode_server_message : bytes -> wireM ServerMessage := decode_with "server-message" server_message_of.
Definition encode_server_message : ServerMessage -> wireM bytes :=
  encode_with "server-message" server_message_of server_message_entries.

Definition decode_invitation `{UrlParser} : bytes -> wireM Invitation := decode_with "pairing-invitation" invitation_of.
Definition encode_invitation `{UrlParser} : Invitation -> wireM bytes :=
  encode_with "pairing-invitation" invitation_of invitation_entries.

Definition decode_sealed_plaintext : bytes -> wireM SealedPlaintext :=
  decode_with "sealed-plaintext" sealed_plaintext_of.
Definition encode_sealed_plaintext : SealedPlaintext -> wireM bytes :=
  encode_with "sealed-plaintext" sealed_plaintext_of sealed_plaintext_entries.

Definition decode_pairing_intent : bytes -> wireM PairingIntent := decode_with "pairing-intent" pairing_intent_of.
Definition encode_pairing_intent : PairingIntent -> wireM bytes :=
  encode_with "pairing-intent" pairing_intent_of pairing_intent_entries.

Definition decode_pairing_decision : bytes -> wireM PairingDecision :=
  decode_with "pairing-decision" pairing_decision_of.
Definition encode_pairing_decision : PairingDecision -> wireM bytes :=
  encode_with "pairing-decision" pairing_decision_of pairing_decision_entries.

Definition decode_application_payload : bytes -> wireM ApplicationPayload :=
  decode_with "application-payload" application_payload_of.
Definition encode_application_payload : ApplicationPayload -> wireM bytes :=
  encode_with "application-payload" application_payload_of application_payload_entries.

(** The nested CPace message is an array. *)
Definition decode_cpace_message (input : bytes) : wireM CpaceMessage :=
  value ← recognise_value input "cpace-message";
  match value with
  | VArray [version; side; share; associated_data] =>
      v ← uint_value version;
      if negb (v =? 1) then Err RecognitionError_TypedValue else
      side ← wire_side side;
      share ← fixed_bytes 32 share;
      associated_data ← bytes_value associated_data;
      Ok (mkCpaceMessage side share associated_data)
  | _ => Err RecognitionError_TypedValue
  end.

Definition cpace_message_value (m : CpaceMessage) : Value :=
  VArray [VInteger 1; encoded_side (cm_side m); VBytes (cm_share m); VBytes (cm_associated_data m)].

Definition encode_cpace_message (m : CpaceMessage) : wireM bytes :=
  encoded ← deterministic_bytes (cpace_message_value m);
  _ ← decode_cpace_message encoded;
  Ok encoded.

Definition channel_frame_of (entries : list (Value * Value)) : wireM ChannelFrame :=
  kind ← field entries "kind" ≫= text_value;
  if bool_decide (kind = "cpace"%string) then
    outer_side ← field entries "role" ≫= wire_side;
    message ← field entries "message" ≫= bytes_value;
    inner ← decode_cpace_message message;
    if bool_decide (cm_side inner = outer_side) then
      control ← field entries "control" ≫= bytes_value;
      Ok (ChannelFrame_Cpace outer_side control message)
    else Err RecognitionError_TypedValue
  else if bool_decide (kind = "finished"%string) then
    side ← field entries "role" ≫= wire_side;
    control ← field entries "control" ≫= bytes_value;
    value ← field entries "value" ≫= fixed_bytes 64;
    Ok (ChannelFrame_Finished side control value)
  else if bool_decide (kind = "sealed"%string) then
    direction ← field entries "direction" ≫= wire_direction;
    counter ← field entries "counter" ≫= uint_value;
    ciphertext ← field entries "ciphertext" ≫= bytes_value;
    Ok (ChannelFrame_Sealed direction counter ciphertext)
  else Err RecognitionError_TypedValue.

Definition channel_frame_entries (f : ChannelFrame) : list (string * Value) :=
  match f with
  | ChannelFrame_Cpace side control message =>
      [("v", VInteger 1); ("kind", VText "cpace"); ("role", encoded_side side);
       ("control", VBytes control); ("message", VBytes message)]
  | ChannelFrame_Finished side control value =>
      [("v", VInteger 1); ("kind", VText "finished"); ("role", encoded_side side);
       ("control", VBytes control); ("value", VBytes value)]
  | ChannelFrame_Sealed direction counter ciphertext =>
      [("v", VInteger 1); ("kind", VText "sealed"); ("direction", encoded_direction direction);
       ("counter", VInteger counter); ("ciphertext", VBytes ciphertext)]
  end.

Definition decode_channel_frame : bytes -> wireM ChannelFrame := decode_with "cpace-channel-frame" channel_frame_of.
Definition encode_channel_frame : ChannelFrame -> wireM bytes :=
  encode_with "cpace-channel-frame" channel_frame_of channel_frame_entries.
End Recognition.
