(* ===== verification/WireLaws.v ===== *)
(** * Laws of the map codecs

    [MapCodec] is what a codec owes: its entries are plain, what it reads from
    fields that agree with a value's entries is that value, and under its
    schema rule the fields of an accepted map are exactly the entries of the
    value read.  From it follow, once for all codecs, that decoding inverts
    encoding and that encoding inverts decoding. *)

From S2P Require Import Prelude External Wire Cddl WireCodec.

Definition texts (l : list (string * Value)) : list (Value * Value) := map (fun kv => (VText kv.1, kv.2)) l.

Section Fields.
Implicit Types (l : list (string * Value)) (es : list (Value * Value)).

Lemma optional_field_elem l k v : NoDup (map fst l) -> optional_field (texts l) k = Some v <-> (k, v) ∈ l.
Proof.
  induction l as [|[k' v'] l IH]; simpl; intros Hnd; [split; [done|by intros ?%elem_of_nil]|].
  apply NoDup_cons in Hnd as [Hk Hnd]. rewrite elem_of_cons. case_bool_decide as Heq.
  - subst. split; [intros [= <-]; by left|]. intros [[= ->]|Hin]; [done|].
    destruct Hk. apply list_elem_of_fmap. by exists (k, v).
  - rewrite IH by done. split; [by right|]. intros [[= -> ->]|?]; done.
Qed.

Lemma optional_field_perm l l' k :
  NoDup (map fst l) -> l' ≡ₚ l -> optional_field (texts l') k = optional_field (texts l) k.
Proof.
  intros Hnd Hp. assert (NoDup (map fst l')) by (by rewrite Hp). apply option_eq. intros v.
  rewrite !optional_field_elem by done. by rewrite Hp.
Qed.

(** Lists with distinct keys and the same fields have the same entries. *)
Lemma same_fields_perm l l' :
  NoDup (map fst l) -> NoDup (map fst l') ->
  (forall k, optional_field (texts l) k = optional_field (texts l') k) -> l ≡ₚ l'.
Proof.
  intros Hnd Hnd' Hf. apply NoDup_Permutation; [by eapply NoDup_fmap_1|by eapply NoDup_fmap_1|].
  intros [k v]. rewrite <- !optional_field_elem by done. by rewrite Hf.
Qed.

(** Text-keyed entries. *)
Lemma texts_of es :
  forallb (fun e => match e.1 with VText _ => true | _ => false end) es = true -> exists l, es = texts l.
Proof.
  induction es as [|[k v] es IH]; simpl; [by exists []|]. destruct k; try done. intros (l & ->)%IH.
  by exists ((s, v) :: l).
Qed.
End Fields.

(** ** Conformance *)

Lemma conforms_map members es :
  conforms (CMap members) (VMap es) = true <->
  Forall (fun m => match optional_field es m.1.2 with Some v => conforms m.2 v = true | None => m.1.1 = true end) members /\
  Forall (fun e => exists key, e.1 = VText key /\ key ∈ map (fun m => m.1.2) members) es.
Proof.
  simpl. rewrite andb_true_iff, !forallb_forall, !Forall_forall. setoid_rewrite <- list_elem_of_In. split.
  - intros [Hm He]. split.
    + intros m Hin. specialize (Hm m Hin). by destruct (optional_field es m.1.2).
    + intros [k v] Hin. specialize (He _ Hin). simpl in He. destruct k; try done.
      apply existsb_exists in He as (m & Hm' & Hk). bool_to_prop. exists s. split; [done|].
      apply list_elem_of_fmap. exists m. by rewrite list_elem_of_In.
  - intros [Hm He]. split.
    + intros m Hin. specialize (Hm m Hin). by destruct (optional_field es m.1.2).
    + intros [k v] Hin. destruct (He _ Hin) as (key & Hk & Hin'). simpl in *. subst k.
      apply existsb_exists. apply list_elem_of_fmap in Hin' as (m & -> & Hm'). exists m.
      rewrite <- list_elem_of_In. split; [done|]. by apply bool_decide_eq_true_2.
Qed.

Lemma conforms_choice ts v : conforms (CChoice ts) v = true <-> exists t, t ∈ ts /\ conforms t v = true.
Proof. simpl. rewrite existsb_exists. setoid_rewrite list_elem_of_In. done. Qed.

(** Conformance looks at a map through its fields only. *)
Lemma conforms_perm t : forall l l',
  NoDup (map fst l) -> l' ≡ₚ l -> conforms t (text_map l') = true -> conforms t (text_map l) = true.
Proof.
  induction t as [| | | | | |ts IH|ts _|ms _] using CddlType_nested_ind; intros l l' Hnd Hp; try done.
  - intros (t & Hin & Hc)%conforms_choice. apply conforms_choice. exists t. split; [done|].
    rewrite Forall_forall in IH. eauto.
  - intros [Hm He]%conforms_map. apply conforms_map. split.
    + eapply Forall_impl; [exact Hm|]. intros m. simpl. fold (texts l') (texts l).
      by rewrite (optional_field_perm l l').
    + by rewrite <- Hp.
Qed.

(** ** Recognition *)

Section Recognition.
Context `{Cbor, Cddl}.

(** The loop over the entries of a map. *)
Definition duplicate_in : list bytes -> list (Value * Value) -> wireM bool :=
  fix go keys entries :=
    match entries with
    | [] => Ok false
    | (key, item) :: entries =>
        canonical_key ← ok_or (to_canonical_vec key) RecognitionError_NonDeterministic;
        if bool_decide (canonical_key ∈ keys) then Ok true
        else
          in_key ← has_duplicate_key key;
          if (in_key : bool) then Ok true
          else
            in_item ← has_duplicate_key item;
            if (in_item : bool) then Ok true else go (canonical_key :: keys) entries
    end.

Lemma has_duplicate_key_map es : has_duplicate_key (VMap es) = duplicate_in [] es.
Proof. done. Qed.

Lemma duplicate_in_cons keys key item es :
  duplicate_in keys ((key, item) :: es) = Ok false <->
  exists ck, to_canonical_vec key = Some ck /\ (ck ∉ keys) /\ has_duplicate_key key = Ok false /\
    has_duplicate_key item = Ok false /\ duplicate_in (ck :: keys) es = Ok false.
Proof.
  simpl. destruct (to_canonical_vec key) as [ck|]; simpl; [|naive_solver].
  case_bool_decide as Hin; [naive_solver|].
  destruct (has_duplicate_key key) as [[]| |]; simpl; [naive_solver| |naive_solver..].
  destruct (has_duplicate_key item) as [[]| |]; simpl; naive_solver.
Qed.

(** A map without duplicates has distinct keys. *)
Lemma no_duplicate_keys es : has_duplicate_key (VMap es) = Ok false -> NoDup (map fst es).
Proof.
  rewrite has_duplicate_key_map.
  assert (forall keys, duplicate_in keys es = Ok false ->
    NoDup (map fst es) /\ forall k ck, k ∈ map fst es -> to_canonical_vec k = Some ck -> ck ∉ keys) as Hgen.
  { induction es as [|[key item] es IH]; intros keys; [intros _; split; [constructor|by intros ? ? ?%elem_of_nil]|].
    intros (ck & Hck & Hfresh & _ & _ & Hrest)%duplicate_in_cons.
    destruct (IH _ Hrest) as [Hnd Hall]. simpl. split.
    - apply NoDup_cons. split; [|done]. intros Hin. specialize (Hall _ _ Hin Hck). set_solver.
    - intros k ck' [->|Hin]%elem_of_cons Hk; [congruence|]. specialize (Hall _ _ Hin Hk). set_solver. }
  intros Hd. by destruct (Hgen _ Hd).
Qed.

(** What recognition checks. *)
Lemma recognise_value_ok input rule v :
  recognise_value input rule = Ok v <->
  from_reader input = Some (v, blen input) /\ to_canonical_vec v = Some input /\
  has_duplicate_key v = Ok false /\ validate_cbor rule v = true.
Proof.
  unfold recognise_value. destruct (from_reader input) as [[v' n]|]; simpl; [|naive_solver].
  destruct (n =? blen input) eqn:Hn; simpl; bool_to_prop; [|naive_solver]. subst n.
  destruct (to_canonical_vec v') as [b|] eqn:Hb; simpl.
  2: { destruct (has_duplicate_key v') as [[]| |]; simpl; naive_solver. }
  case_bool_decide as Heq; simpl; [|naive_solver]. subst b.
  destruct (has_duplicate_key v') as [[]| |] eqn:Hd; simpl.
  2: destruct (validate_cbor rule v') eqn:Hv; [naive_solver|].
  all: split; [done|]; intros ([= ->] & _ & Hd' & Hv'); congruence.
Qed.

Context `{!CborLaws}.

Lemma plain_no_duplicate : forall v, plain v = true -> has_duplicate_key v = Ok false.
Proof.
  fix IH 1. intros [z|b|z|s|b| |t v|l|l]; try done. simpl. intros Hl.
  induction l as [|v l IHl]; simpl in *; [done|]. apply andb_true_iff in Hl as [Hv Hl].
  rewrite IH by done. simpl. by apply IHl.
Qed.

Lemma plain_written_inj v w b :
  plain v = true -> plain w = true -> to_canonical_vec v = Some b -> to_canonical_vec w = Some b -> v = w.
Proof.
  intros Hv Hw Hbv Hbw. pose proof (plain_read v b Hv Hbv) as Hr. rewrite (plain_read w b Hw Hbw) in Hr. congruence.
Qed.

Lemma plain_entries_no_duplicate l : plain_entries l -> has_duplicate_key (text_map l) = Ok false.
Proof.
  intros [Hnd Hpl]. unfold text_map. rewrite has_duplicate_key_map. fold (texts l).
  assert (forall keys, (forall k ck, k ∈ map fst l -> to_canonical_vec (VText k) = Some ck -> ck ∉ keys) ->
    duplicate_in keys (texts l) = Ok false) as Hgen; [|apply Hgen; intros; by apply not_elem_of_nil].
  induction l as [|[k v] l IH]; intros keys Hkeys; [done|].
  apply NoDup_cons in Hnd as [Hk Hnd]. apply Forall_cons in Hpl as [Hv Hpl]. simpl in Hv.
  apply duplicate_in_cons. destruct (plain_written (VText k) eq_refl) as [ck Hck].
  exists ck. split_and!; [done| |done|by apply plain_no_duplicate|].
  - apply (Hkeys k); [by left|done].
  - apply IH; [done..|]. intros k' ck' Hin Hck'. apply not_elem_of_cons. split.
    + intros ->. assert (VText k' = VText k) as [= ->]; [|done]. by eapply plain_written_inj.
    + apply (Hkeys k'); [by right|done].
Qed.
End Recognition.

(** ** The interface of a codec *)

Class MapCodec `{Cbor, Cddl} {M : Type} (t : CddlType) (of_entries : list (Value * Value) -> wireM M)
    (entries : M -> list (string * Value)) (typed : M -> Prop) : Prop := {
  mc_plain m : typed m -> plain_entries (entries m);
  mc_ext es es' : (forall k, optional_field es k = optional_field es' k) -> of_entries es = of_entries es';
  mc_read m m' : typed m -> of_entries (texts (entries m)) = Ok m' -> m' = m;
  mc_exact es m : conforms t (VMap es) = true -> of_entries es = Ok m ->
    typed m /\ forall k, optional_field es k = optional_field (texts (entries m)) k
}.

Section Codec.
Context `{Cbor, Cddl, !CborLaws} {M : Type} (rule : string) (t : CddlType)
  (of_entries : list (Value * Value) -> wireM M) (entries : M -> list (string * Value)) (typed : M -> Prop).
Context `{!MapCodec t of_entries entries typed}.

Lemma decode_with_ok input m :
  decode_with rule of_entries input = Ok m <->
  exists es, recognise_value input rule = Ok (VMap es) /\ of_entries es = Ok m.
Proof.
  unfold decode_with. rewrite bind_ok. split.
  - intros (v & Hv & (es & He & Hm)%bind_ok). destruct v; simplify_eq/=. eauto.
  - intros (es & Hv & Hm). exists (VMap es). split; [done|]. done.
Qed.

Lemma encode_with_ok m b :
  encode_with rule of_entries entries m = Ok b <->
  to_canonical_vec (text_map (entries m)) = Some b /\ exists m', decode_with rule of_entries b = Ok m'.
Proof.
  unfold encode_with, deterministic_bytes. rewrite bind_ok. split.
  - intros (b' & Hb%ok_or_ok & (m' & Hm' & [= <-])%bind_ok). eauto.
  - intros [Hb (m' & Hm')]. exists b. rewrite ok_or_ok, Hm'. done.
Qed.

(** What is written reads back. *)
Lemma codec_roundtrip m b :
  typed m -> encode_with rule of_entries entries m = Ok b -> decode_with rule of_entries b = Ok m.
Proof.
  intros Hty [Hb [m' Hm']]%encode_with_ok. pose proof (mc_plain m Hty) as Hpl.
  apply decode_with_ok in Hm' as Hd. destruct Hd as (es & (Hr & _)%recognise_value_ok & Hes).
  destruct (map_read _ _ Hpl Hb) as (l' & Hp & Hr'). rewrite Hr in Hr'. injection Hr' as ->.
  fold (texts l') in Hes. rewrite (mc_ext _ (texts (entries m))) in Hes.
  - by rewrite <- (mc_read m m' Hty Hes).
  - intros k. apply optional_field_perm; [apply Hpl|done].
Qed.

Context `{!CddlLaws} (rule_known : (rule, t) ∈ schema).
Context (text_keys : forall es, conforms t (VMap es) = true -> exists l, es = texts l).

(** What is read was written: accepted octets are the encoding of the value
    they are read as. *)
Lemma codec_canonical b m :
  decode_with rule of_entries b = Ok m -> typed m /\ encode_with rule of_entries entries m = Ok b.
Proof.
  intros Hd. apply decode_with_ok in Hd as Hd'. destruct Hd' as (es & (Hr & Hc & Hdup & Hv)%recognise_value_ok & Hes).
  rewrite (validates rule t) in Hv by done. destruct (mc_exact es m Hv Hes) as [Hty Hf]. split; [done|].
  apply encode_with_ok. split; [|eauto]. destruct (text_keys es Hv) as [l ->].
  pose proof (mc_plain m Hty) as Hpl. apply no_duplicate_keys in Hdup.
  assert (NoDup (map fst l)) as Hnd.
  { unfold texts in Hdup. rewrite map_map in Hdup. simpl in Hdup. rewrite <- (map_map fst VText) in Hdup.
    by apply NoDup_fmap_1 in Hdup. }
  rewrite <- (map_order (entries m) l Hpl); [done|]. apply same_fields_perm; [done|apply Hpl|done].
Qed.

(** Encoding succeeds exactly on conforming values the reader accepts. *)
Lemma codec_total m :
  typed m -> conforms t (text_map (entries m)) = true -> of_entries (texts (entries m)) = Ok m ->
  exists b, encode_with rule of_entries entries m = Ok b.
Proof.
  intros Hty Hc Hof. pose proof (mc_plain m Hty) as Hpl. destruct (map_written _ Hpl) as [b Hb]. exists b.
  apply encode_with_ok. split; [done|]. exists m. apply decode_with_ok.
  destruct (map_read _ _ Hpl Hb) as (l' & Hp & Hr). exists (texts l'). split.
  - apply recognise_value_ok. assert (plain_entries l') as Hpl' by (destruct Hpl; split; by rewrite Hp).
    split_and!; [done| |by apply plain_entries_no_duplicate|].
    + by rewrite <- Hb, (map_order (entries m) l' Hpl Hp).
    + rewrite (validates rule t) by done. eapply (conforms_perm t l' (entries m)); [apply Hpl'|by symmetry|done].
  - rewrite (mc_ext _ (texts (entries m))); [done|]. intros k. apply optional_field_perm; [apply Hpl|done].
Qed.
End Codec.
