(* ===== verification/WireThms.v ===== *)
(** * Theorems about the wire codecs

    Each codec is shown to satisfy [MapCodec]; decoding and encoding are then
    inverse to each other, for every CBOR implementation and every validator
    that satisfy their laws. *)

From S2P Require Import Prelude External Instances Wire Cddl WireCodec WireLaws.

(** Decide equalities between string literals. *)
Ltac literals :=
  repeat match goal with
  | |- context [bool_decide (@eq string ?a ?b)] =>
      let v := eval vm_compute in (bool_decide (a = b)) in
      match v with true => idtac | false => idtac end; change (bool_decide (a = b)) with v
  | H : context [bool_decide (@eq string ?a ?b)] |- _ =>
      let v := eval vm_compute in (bool_decide (a = b)) in
      match v with true => idtac | false => idtac end; change (bool_decide (a = b)) with v in H
  end.

(** ** What the Rust types say *)

Definition is_u8 (z : Z) : Prop := 0 <= z <= u8_max.
Definition is_u16 (z : Z) : Prop := 0 <= z <= u16_max.
Definition is_u32 (z : Z) : Prop := 0 <= z <= u32_max.
Definition is_u64 (z : Z) : Prop := 0 <= z <= u64_max.
Definition optionally {A} (P : A -> Prop) (o : option A) : Prop := forall a, o = Some a -> P a.

Definition locator_typed (l : Locator) : Prop :=
  match l with Locator_Direct id => length id = 32%nat | Locator_Nameplate n => is_u32 n end.

Definition client_message_typed (m : ClientMessage) : Prop :=
  match m with
  | ClientMessage_Allocate mode ttl => is_u8 mode /\ optionally is_u32 ttl
  | ClientMessage_Claim locator => locator_typed locator
  | ClientMessage_AllocateV2 id commitment ttl =>
      length id = 32%nat /\ length commitment = 32%nat /\ optionally is_u16 ttl
  | ClientMessage_ClaimV2 id token => length id = 32%nat /\ length token = 16%nat
  | ClientMessage_Open id token => length id = 32%nat /\ length token = 32%nat
  | ClientMessage_Put seq _ => is_u8 seq
  | ClientMessage_Ack peer_seq => is_u8 peer_seq
  | _ => True
  end.

Lemma optionally_some {A} (P : A -> Prop) a : P a -> optionally P (Some a).
Proof. by intros ? ? [= <-]. Qed.
Lemma optionally_none {A} (P : A -> Prop) : optionally P None.
Proof. done. Qed.

(** ** Reading plain values *)

Lemma uint_value_ok z : is_u64 z -> uint_value (VInteger z) = Ok z.
Proof. intros ?. simpl. by rewrite (proj2 (try_into_some u64_max z z)). Qed.

Lemma narrow_value_ok max z : 0 <= z <= max -> max <= u64_max -> narrow_value max (VInteger z) = Ok z.
Proof.
  intros ? ?. unfold narrow_value. rewrite uint_value_ok by (unfold is_u64; lia). rewrite ok_bind.
  by rewrite (proj2 (try_into_some max z z)).
Qed.

Lemma fixed_bytes_ok n b : length b = n -> fixed_bytes n (VBytes b) = Ok b.
Proof. intros <-. unfold fixed_bytes. simpl. by rewrite Nat.eqb_refl. Qed.

Lemma uint_value_inv v z : uint_value v = Ok z -> v = VInteger z /\ is_u64 z.
Proof. destruct v; try done. simpl. intros [-> ?]%ok_or_ok%try_into_some. done. Qed.

Lemma narrow_value_inv max v z : narrow_value max v = Ok z -> v = VInteger z /\ 0 <= z <= max.
Proof. unfold narrow_value. intros (z' & [-> _]%uint_value_inv & [-> ?]%ok_or_ok%try_into_some)%bind_ok. done. Qed.

Lemma bytes_value_inv v b : bytes_value v = Ok b -> v = VBytes b.
Proof. destruct v; try done. by intros [= <-]. Qed.

Lemma text_value_inv v s : text_value v = Ok s -> v = VText s.
Proof. destruct v; try done. by intros [= <-]. Qed.

Lemma fixed_bytes_inv n v b : fixed_bytes n v = Ok b -> v = VBytes b /\ length b = n.
Proof.
  unfold fixed_bytes. intros (b' & ->%bytes_value_inv & Hb)%bind_ok. case_match eqn:E; [|done]. injection Hb as ->.
  split; [done|]. by apply Nat.eqb_eq.
Qed.

Lemma locator_value_inv v l : locator_value v = Ok l -> v = encoded_locator l /\ locator_typed l.
Proof.
  destruct v as [| | | | | | |[|tag [|w [|]]]|]; try done. unfold locator_value.
  intros (n & [-> _]%uint_value_inv & Hl)%bind_ok. destruct (n =? 0) eqn:E0; bool_to_prop.
  - subst. apply bind_ok in Hl as (id & [-> ?]%fixed_bytes_inv & [= <-]). done.
  - destruct (n =? 1) eqn:E1; [|done]. bool_to_prop. subst.
    apply bind_ok in Hl as (np & [-> ?]%narrow_value_inv & [= <-]). done.
Qed.

Lemma locator_value_ok l : locator_typed l -> locator_value (encoded_locator l) = Ok l.
Proof.
  destruct l as [id|n]; intros Hl; simpl in Hl; unfold locator_value, encoded_locator.
  - rewrite uint_value_ok by (unfold is_u64, u64_max; lia). rewrite ok_bind. simpl. by rewrite fixed_bytes_ok.
  - rewrite uint_value_ok by (unfold is_u64, u64_max; lia). rewrite ok_bind.
    change (1 =? 0) with false. change (1 =? 1) with true. cbv iota.
    by rewrite narrow_value_ok by (done || (unfold u32_max, u64_max; lia)).
Qed.

Lemma close_reason_of_inv s r : close_reason_of s = Ok r -> s = close_reason_text r.
Proof. unfold close_reason_of. intros Hr. repeat case_bool_decide; simplify_eq; done. Qed.

Lemma decision_of_inv s d : decision_of s = Ok d -> s = decision_text d.
Proof. unfold decision_of. intros Hr. repeat case_bool_decide; simplify_eq; done. Qed.

Lemma wire_side_inv v s : wire_side v = Ok s -> v = encoded_side s.
Proof.
  unfold wire_side. intros (n & [-> _]%uint_value_inv & Hn)%bind_ok.
  destruct (n =? 0) eqn:E0; [|destruct (n =? 1) eqn:E1; [|done]]; bool_to_prop; by simplify_eq.
Qed.

Lemma wire_direction_inv v d : wire_direction v = Ok d -> v = encoded_direction d.
Proof.
  unfold wire_direction. intros (n & [-> _]%uint_value_inv & Hn)%bind_ok.
  destruct (n =? 0) eqn:E0; [|destruct (n =? 1) eqn:E1; [|done]]; bool_to_prop; by simplify_eq.
Qed.

Lemma field_inv es k v : field es k = Ok v -> optional_field es k = Some v.
Proof. apply ok_or_ok. Qed.

Lemma optional_value_inv {A} (f : Value -> wireM A) es k o :
  optional_value f es k = Ok o ->
  match o with Some a => exists v, optional_field es k = Some v /\ f v = Ok a | None => optional_field es k = None end.
Proof.
  unfold optional_value. destruct (optional_field es k) as [v|]; [|by intros [= <-]].
  intros (a & Ha & [= <-])%bind_ok. eauto.
Qed.

(** Maps with the fields of a rule and no others. *)
Lemma exact_fields members es l :
  Forall (fun e => exists key, e.1 = VText key /\ key ∈ map (fun m : bool * string * CddlType => m.1.2) members) es ->
  forallb (fun kv => existsb (fun m : bool * string * CddlType => bool_decide (kv.1 = m.1.2)) members) l = true ->
  Forall (fun m : bool * string * CddlType => optional_field es m.1.2 = optional_field (texts l) m.1.2) members ->
  forall k, optional_field es k = optional_field (texts l) k.
Proof.
  intros He Hl Hm k. destruct (decide (k ∈ map (fun m : bool * string * CddlType => m.1.2) members)) as [Hin|Hout].
  { apply list_elem_of_fmap in Hin as (m & -> & Hin). rewrite Forall_forall in Hm. by apply Hm. }
  trans (@None Value).
  - clear Hl Hm. induction es as [|[key v] es IH]; [done|]. apply Forall_cons in He as [(s & Hs & Hin) He].
    simpl in *. subst key. case_bool_decide; [by subst|]. by apply IH.
  - symmetry. clear He Hm. induction l as [|[key v] l IH]; [done|]. simpl in *. apply andb_true_iff in Hl as [Hk Hl].
    case_bool_decide; [|by apply IH]. subst. exfalso. apply existsb_exists in Hk as (m & Hm & Hk). bool_to_prop.
    apply Hout. subst. apply list_elem_of_fmap. exists m. by rewrite list_elem_of_In.
Qed.

(** Turn what a reader returned into facts about the fields it read. *)
Ltac read_back :=
  repeat match goal with
  | H : (_ ≫= _) = Ok _ |- _ => apply bind_ok in H; destruct H as (? & ? & H)
  | H : Ok _ = Ok _ |- _ => injection H as H; try subst
  | H : field _ _ = Ok _ |- _ => apply field_inv in H
  | H : text_value _ = Ok _ |- _ => apply text_value_inv in H; subst
  | H : bytes_value _ = Ok _ |- _ => apply bytes_value_inv in H; subst
  | H : uint_value _ = Ok _ |- _ => apply uint_value_inv in H; destruct H as [-> H]
  | H : narrow_value _ _ = Ok _ |- _ => apply narrow_value_inv in H; destruct H as [-> H]
  | H : fixed_bytes _ _ = Ok _ |- _ => apply fixed_bytes_inv in H; destruct H as [-> H]
  | H : locator_value _ = Ok _ |- _ => apply locator_value_inv in H; destruct H as [-> H]
  | H : close_reason_of _ = Ok _ |- _ => apply close_reason_of_inv in H; subst
  | H : decision_of _ = Ok _ |- _ => apply decision_of_inv in H; subst
  | H : wire_side _ = Ok _ |- _ => apply wire_side_inv in H; subst
  | H : wire_direction _ = Ok _ |- _ => apply wire_direction_inv in H; subst
  | H : (if bool_decide (cm_side ?a = ?b) then _ else _) = Ok _ |- _ => destruct (bool_decide (cm_side a = b)); [|done]
  | H : optional_value _ _ _ = Ok ?o |- _ => apply optional_value_inv in H; destruct o; [destruct H as (? & ? & H)|]
  end.

(** The members of a rule, one hypothesis each. *)
Ltac members :=
  match goal with
  | H : conforms (CMap _) (VMap _) = true |- _ => apply conforms_map in H; destruct H as [H ?]
  end;
  repeat match goal with H : Forall _ (_ :: _) |- _ => apply Forall_cons in H; destruct H as [? H] end;
  match goal with H : Forall _ [] |- _ => clear H end; unfold req, opt in *; cbn [fst snd] in *.

(** Use the known fields in the members. *)
Ltac known_fields :=
  repeat match goal with
  | H : optional_field ?es ?k = _, H' : context [optional_field ?es ?k] |- _ =>
      lazymatch H' with H => fail | _ => simpl in H'; rewrite H in H'; cbn [conforms] in H' end
  end.

Ltac alternatives H :=
  apply conforms_choice in H as (? & H & ?);
  repeat (apply elem_of_cons in H as [->|H]; [|]); [..|by apply elem_of_nil in H].

(** The keys of an encoder are distinct. *)
Ltac distinct_keys := apply (bool_decide_unpack (NoDup _)); vm_compute; exact I.

(** Every field of an encoder is plain. *)
Ltac plain_fields :=
  unfold locator_typed, optionally, is_u8, is_u16, is_u32, is_u64 in *; simpl in *;
  destruct_and?;
  repeat match goal with H : forall a, Some _ = Some a -> _ |- _ => specialize (H _ eq_refl) end;
  unfold u8_max, u16_max, u32_max, u64_max in *;
  repeat (apply Forall_cons_2 || apply Forall_nil_2); simpl;
  rewrite ?andb_true_iff, ?Z.leb_le; unfold u64_max; try done; repeat split; try done; lia.

Lemma number_inv n v : conforms (number n) v = true -> v = VInteger n.
Proof. destruct v; try done. simpl. unfold within_size. intros Hb. bool_to_prop. f_equal. lia. Qed.

Lemma text_literal_inv s v : conforms (CText s) v = true -> v = VText s.
Proof. destruct v; try done. simpl. intros Hb. bool_to_prop. by subst. Qed.

Lemma map_text_keys members es : conforms (CMap members) (VMap es) = true -> exists l, es = texts l.
Proof.
  intros [_ He]%conforms_map. apply texts_of. apply forallb_forall. intros e Hin%list_elem_of_In.
  rewrite Forall_forall in He. by destruct (He e Hin) as (key & -> & _).
Qed.

Lemma choice_text_keys ts es :
  Forall (fun t => match t with CMap _ => True | _ => False end) ts ->
  conforms (CChoice ts) (VMap es) = true -> exists l, es = texts l.
Proof.
  intros Hts (t & Hin & Hc)%conforms_choice. rewrite Forall_forall in Hts. specialize (Hts t Hin).
  destruct t; try done. by eapply map_text_keys.
Qed.

(** The entries of a value read back as that value. *)
Ltac read_entries :=
  repeat (read_back;
    repeat match goal with
    | H : optional_field (texts ?l) ?k = ?r |- _ =>
        let v := eval vm_compute in (optional_field (texts l) k) in change (v = r) in H
    end;
    simplify_eq; literals; cbv iota in *);
  repeat match goal with
  | l : Locator |- _ => destruct l; simplify_eq/=
  | r : CloseReason |- _ => destruct r; simplify_eq/=
  | r : WireDecision |- _ => destruct r; simplify_eq/=
  | r : Side |- _ => destruct r; simplify_eq/=
  | r : Direction |- _ => destruct r; simplify_eq/=
  end;
  try done.

(** A map that conforms to a rule and was read has exactly the entries. *)
Ltac exact_map :=
  members; known_fields; bool_to_prop; subst; literals; cbv iota in *; read_back; known_fields;
  repeat match goal with
  | H : match optional_field ?es ?k with Some _ => conforms (number _) _ = true | None => _ end |- _ =>
      destruct (optional_field es k) eqn:?; [apply number_inv in H; subst|done]
  | H : match optional_field ?es ?k with Some _ => conforms (CText _) _ = true | None => _ end |- _ =>
      destruct (optional_field es k) eqn:?; [apply text_literal_inv in H; subst|done]
  end;
  (split;
  [simpl; split_and?; auto using optionally_some, optionally_none|eapply exact_fields; [eassumption|vm_compute; reflexivity|
     repeat (apply Forall_cons_2 || apply Forall_nil_2); cbn [fst snd];
     match goal with |- ?x = optional_field (texts ?l) ?k =>
       let v := eval vm_compute in (optional_field (texts l) k) in change (x = v) end; try done]]).

(** ** The codecs *)

Section Codecs.
Context `{Cbor, Cddl}.

#[export] Instance client_message_codec :
  MapCodec client_message_rule client_message_of client_message_entries client_message_typed.
Proof.
  split.
  - intros m Hty. unfold client_message_typed in Hty. split.
    + destruct m as [|mode [t|]|[]|id cm [t|]|id tok|id tok|seq body|q| |]; distinct_keys.
    + destruct m as [|mode [t|]|[]|id cm [t|]|id tok|id tok|seq body|q| |]; plain_fields.
  - intros es es' He. unfold client_message_of, field, optional_value. by rewrite !He.
  - intros m m' _ Hof. unfold client_message_of in Hof.
    destruct m as [|mode [t|]|loc|id cm [t|]|id tok|id tok|seq body|q| |]; read_entries.
  - intros es m Hc Hof. unfold client_message_of in Hof. read_back. alternatives Hc.
    all: exact_map.
Qed.

Lemma client_text_keys es : conforms client_message_rule (VMap es) = true -> exists l, es = texts l.
Proof. apply choice_text_keys. by repeat constructor. Qed.

Definition server_message_typed (m : ServerMessage) : Prop :=
  match m with
  | ServerMessage_Allocated id token nameplate expires_at =>
      length id = 32%nat /\ length token = 32%nat /\ optionally is_u32 nameplate /\ is_u64 expires_at
  | ServerMessage_Claimed id token expires_at | ServerMessage_AllocatedV2 id token expires_at
  | ServerMessage_ClaimedV2 id token expires_at =>
      length id = 32%nat /\ length token = 32%nat /\ is_u64 expires_at
  | ServerMessage_Frame peer_seq _ => is_u8 peer_seq
  | ServerMessage_Acknowledged seq => is_u8 seq
  | ServerMessage_Error code => is_u16 code
  | _ => True
  end.

#[export] Instance server_message_codec :
  MapCodec server_message_rule server_message_of server_message_entries server_message_typed.
Proof.
  split.
  - intros m Hty. unfold server_message_typed in Hty. split.
    + destruct m as [|id tok [n|] e| | | | | |[]| |]; distinct_keys.
    + destruct m as [|id tok [n|] e| | | | | |[]| |]; plain_fields.
  - intros es es' He. unfold server_message_of, grant_of, field, optional_value. by rewrite !He.
  - intros m m' _ Hof. unfold server_message_of, grant_of in Hof.
    destruct m as [|id tok [n|] e| | | | | |[]| |]; read_entries.
  - intros es m Hc Hof. unfold server_message_of, grant_of in Hof. read_back. alternatives Hc.
    all: exact_map.
Qed.

Definition invitation_typed (i : Invitation) : Prop :=
  locator_typed (iv_locator i) /\ optionally (fun k => length k = 32%nat) (iv_expected_allocator_key i) /\
  optionally (fun k => length k = 32%nat) (iv_expected_claimant_key i).

Lemma validate_application_inv s u : validate_application s = Ok u -> valid_application_id s = true.
Proof. unfold validate_application. by case_match. Qed.
Lemma validate_origin_inv `{UrlParser} s u : validate_origin s = Ok u -> valid_relay_origin s = true.
Proof. unfold validate_origin. by case_match. Qed.

#[export] Instance invitation_codec `{UrlParser} :
  MapCodec pairing_invitation_rule invitation_of invitation_entries invitation_typed.
Proof.
  split.
  - intros m Hty. unfold invitation_typed in Hty. split.
    + destruct m as [a o [] s [|] [|]]; distinct_keys.
    + destruct m as [a o [] s [|] [|]]; plain_fields.
  - intros es es' He. unfold invitation_of, field, optional_value. by rewrite !He.
  - intros m m' _ Hof. unfold invitation_of in Hof. destruct m as [a o l s [|] [|]]; read_entries.
  - intros es m Hc Hof. unfold pairing_invitation_rule in Hc. unfold invitation_of in Hof. unfold invitation_typed. read_back; exact_map.
Qed.

#[export] Instance sealed_plaintext_codec :
  MapCodec sealed_plaintext_rule sealed_plaintext_of sealed_plaintext_entries (fun _ => True).
Proof.
  split.
  - intros m _. split; destruct m as [c [b|]]; [distinct_keys..|plain_fields|plain_fields].
  - intros es es' He. unfold sealed_plaintext_of, field, optional_value. by rewrite !He.
  - intros m m' _ Hof. unfold sealed_plaintext_of in Hof. destruct m as [c [b|]]; read_entries.
  - intros es m Hc Hof. unfold sealed_plaintext_rule in Hc. unfold sealed_plaintext_of in Hof. read_back; exact_map.
Qed.

#[export] Instance pairing_intent_codec :
  MapCodec pairing_intent_rule pairing_intent_of pairing_intent_entries
    (fun i => length (pi_intent_nonce i) = 32%nat).
Proof.
  split.
  - intros m _. split; destruct m; [distinct_keys|plain_fields].
  - intros es es' He. unfold pairing_intent_of, field, optional_value. by rewrite !He.
  - intros m m' _ Hof. unfold pairing_intent_of in Hof. destruct m; read_entries.
  - intros es m Hc Hof. unfold pairing_intent_rule in Hc. unfold pairing_intent_of in Hof. read_back; exact_map.
Qed.

#[export] Instance pairing_decision_codec :
  MapCodec pairing_decision_rule pairing_decision_of pairing_decision_entries
    (fun d => length (pd_intent_digest d) = 32%nat).
Proof.
  split.
  - intros m _. split; destruct m as [i []]; [distinct_keys..|plain_fields|plain_fields].
  - intros es es' He. unfold pairing_decision_of, field, optional_value. by rewrite !He.
  - intros m m' _ Hof. unfold pairing_decision_of in Hof. destruct m as [i []]; read_entries.
  - intros es m Hc Hof. unfold pairing_decision_rule in Hc. unfold pairing_decision_of in Hof. read_back; exact_map.
Qed.

#[export] Instance application_payload_codec :
  MapCodec application_payload_rule application_payload_of application_payload_entries
    (fun p => length (ap_intent_digest p) = 32%nat).
Proof.
  split.
  - intros m _. split; destruct m; [distinct_keys|plain_fields].
  - intros es es' He. unfold application_payload_of, field, optional_value. by rewrite !He.
  - intros m m' _ Hof. unfold application_payload_of in Hof. destruct m; read_entries.
  - intros es m Hc Hof. unfold application_payload_rule in Hc. unfold application_payload_of in Hof. read_back; exact_map.
Qed.

Definition channel_frame_typed (f : ChannelFrame) : Prop :=
  match f with
  | ChannelFrame_Cpace _ _ _ => True
  | ChannelFrame_Finished _ _ value => length value = 64%nat
  | ChannelFrame_Sealed _ counter _ => is_u64 counter
  end.

#[export] Instance channel_frame_codec :
  MapCodec cpace_channel_frame_rule channel_frame_of channel_frame_entries channel_frame_typed.
Proof.
  split.
  - intros m Hty. unfold channel_frame_typed in Hty. split.
    + destruct m as [[]|[]|[]]; distinct_keys.
    + destruct m as [[]|[]|[]]; plain_fields.
  - intros es es' He. unfold channel_frame_of, field, optional_value. by rewrite !He.
  - intros m m' _ Hof. unfold channel_frame_of in Hof. destruct m as [[]|[]|[]]; read_entries.
  - intros es m Hc Hof. unfold channel_frame_of in Hof. read_back. alternatives Hc.
    all: exact_map.
Qed.
End Codecs.
