(* ===== verification/WireProps.v ===== *)
(** * Properties of the wire codecs

    Encoders and recognisers are inverse to each other; the messages that can
    be encoded are exactly those within the bounds of the schema. *)

From S2P Require Import Prelude External Instances Wire Cddl WireCodec WireLaws WireThms.

Ltac rule_known := repeat (first [by left | right]).

Section Inverse.
Context `{Cbor, Cddl, !CborLaws, !CddlLaws}.

(** Both directions for one codec. *)
Lemma codec_inverse {M} rule t (of_entries : list (Value * Value) -> wireM M) entries typed
    `{!MapCodec t of_entries entries typed} m b :
  (rule, t) ∈ schema -> (forall es, conforms t (VMap es) = true -> exists l, es = texts l) ->
  decode_with rule of_entries b = Ok m <-> typed m /\ encode_with rule of_entries entries m = Ok b.
Proof.
  intros Hrule Hkeys. split.
  - intros Hd. by eapply codec_canonical.
  - intros [Hty Hb]. by eapply codec_roundtrip.
Qed.

(** Encodable values conform. *)
Lemma encodable_conforms {M} rule t (of_entries : list (Value * Value) -> wireM M) entries typed
    `{!MapCodec t of_entries entries typed} m b :
  (rule, t) ∈ schema -> typed m -> encode_with rule of_entries entries m = Ok b ->
  conforms t (text_map (entries m)) = true.
Proof.
  intros Hrule Hty Hb. apply encode_with_ok in Hb as [Hb [m' (es & Hr & _)%decode_with_ok]].
  apply recognise_value_ok in Hr as (Hr & _ & _ & Hv). rewrite (validates rule t) in Hv by done.
  pose proof (mc_plain m Hty) as Hpl. destruct (map_read _ _ Hpl Hb) as (l' & Hp & Hr'). rewrite Hr in Hr'.
  injection Hr' as ->. eapply (conforms_perm t _ l'); [apply Hpl|done|]. exact Hv.
Qed.
End Inverse.

(** ** Bounds of the schema *)

Definition client_message_valid (m : ClientMessage) : Prop :=
  match m with
  | ClientMessage_Allocate mode ttl => 0 <= mode <= 1 /\ optionally (fun t => 60 <= t <= 86400) ttl
  | ClientMessage_Claim (Locator_Nameplate n) => 0 <= n <= 999999999
  | ClientMessage_AllocateV2 _ _ ttl => optionally (fun t => t = 900) ttl
  | ClientMessage_Put seq body => 0 <= seq <= 15 /\ 1 <= blen body <= 69632
  | ClientMessage_Ack peer_seq => 0 <= peer_seq <= 15
  | _ => True
  end.

Definition server_message_valid (m : ServerMessage) : Prop :=
  match m with
  | ServerMessage_Allocated _ _ nameplate _ => optionally (fun n => 0 <= n <= 999999999) nameplate
  | ServerMessage_Frame peer_seq body => 0 <= peer_seq <= 15 /\ 1 <= blen body <= 69632
  | ServerMessage_Acknowledged seq => 0 <= seq <= 15
  | ServerMessage_Error code => code ∈ [400; 404; 409; 410; 413; 429; 503]
  | _ => True
  end.

Lemma within_size_spec lo hi n : within_size lo hi n = true <-> lo <= n <= hi.
Proof. unfold within_size. by rewrite andb_true_iff, !Z.leb_le. Qed.
Lemma fixed_size_spec b n : length b = n -> within_size (Z.of_nat n) (Z.of_nat n) (blen b) = true.
Proof. intros <-. apply within_size_spec. unfold blen. lia. Qed.

(** Evaluate a rule on the entries of a message, down to the size tests. *)
Ltac evaluate_rule :=
  match goal with |- context [conforms ?t (text_map ?l)] =>
    let v := eval cbv -[within_size blen andb orb Z.leb] in (conforms t (text_map l)) in
    change (conforms t (text_map l)) with v
  end.

(** Bounds are linear facts about sizes. *)
Ltac compare_bounds :=
  evaluate_rule; cbn [andb orb];
  rewrite ?andb_true_r, ?orb_false_r, ?andb_false_r;
  repeat first [rewrite andb_true_iff | rewrite orb_true_iff | rewrite within_size_spec];
  simpl in *; unfold optionally, locator_typed, is_u64 in *; simpl in *; unfold blen in *; destruct_and?;
  repeat match goal with H : forall a, Some _ = Some a -> _ |- _ => specialize (H _ eq_refl) end;
  (split; [intros; destruct_and?; repeat match goal with H : _ \/ _ |- _ => destruct H end|intros; destruct_and?];
   repeat match goal with H : forall a, Some _ = Some a -> _ |- _ => specialize (H _ eq_refl) end;
   split_and?; intros; simplify_eq; try done; try lia).

Lemma client_conforms m :
  client_message_typed m -> conforms client_message_rule (text_map (client_message_entries m)) = true <-> client_message_valid m.
Proof.
  intros Hty. destruct m as [|mode [t|]|[id|n]|id cm [t|]|id tok|id tok|seq body|q| |]; compare_bounds.
Qed.

Lemma server_conforms m :
  server_message_typed m -> conforms server_message_rule (text_map (server_message_entries m)) = true <-> server_message_valid m.
Proof.
  intros Hty. destruct m as [|id tok [n|] e|id tok e|id tok e|id tok e|q body|seq|[]|code|]; compare_bounds.
  all: rewrite ?elem_of_cons, ?elem_of_nil in *; lia.
Qed.

(** Run a reader on the entries of a typed message. *)
Ltac run_reader :=
  repeat (
    repeat match goal with |- context [optional_field (texts ?l) ?k] =>
      let v := eval vm_compute in (optional_field (texts l) k) in change (optional_field (texts l) k) with v
    end;
    cbn [ok_or text_value bytes_value]; rewrite ?ok_bind; literals; cbv iota;
    rewrite ?narrow_value_ok by (unfold u8_max, u16_max, u32_max, u64_max in *; lia);
    rewrite ?uint_value_ok by (unfold is_u64 in *; lia); rewrite ?fixed_bytes_ok by assumption; rewrite ?ok_bind);
  try done.

Lemma client_reads m : client_message_typed m -> client_message_of (texts (client_message_entries m)) = Ok m.
Proof.
  unfold client_message_typed, optionally, is_u8, is_u16, is_u32. intros Hty.
  unfold client_message_of, field, optional_value.
  destruct m as [|mode [t|]|loc|id cm [t|]|id tok|id tok|seq body|q| |]; destruct_and?;
    repeat match goal with H : forall a, Some _ = Some a -> _ |- _ => specialize (H _ eq_refl) end; run_reader.
  match goal with |- locator_value ?v ≫= _ = _ => change v with (encoded_locator loc) end. by rewrite locator_value_ok.
Qed.

Lemma server_reads m : server_message_typed m -> server_message_of (texts (server_message_entries m)) = Ok m.
Proof.
  unfold server_message_typed, optionally, is_u8, is_u16, is_u32. intros Hty.
  unfold server_message_of, grant_of, field, optional_value.
  destruct m as [|id tok [n|] e|id tok e|id tok e|id tok e|q body|seq|[]|code|]; destruct_and?;
    repeat match goal with H : forall a, Some _ = Some a -> _ |- _ => specialize (H _ eq_refl) end; run_reader.
Qed.

Lemma server_text_keys es : conforms server_message_rule (VMap es) = true -> exists l, es = texts l.
Proof. apply choice_text_keys. by repeat constructor. Qed.
Lemma channel_text_keys es : conforms cpace_channel_frame_rule (VMap es) = true -> exists l, es = texts l.
Proof. apply choice_text_keys. by repeat constructor. Qed.

(** Encodable server messages, for the relay. *)
Lemma server_encodable `{Cbor, Cddl, !CborLaws, !CddlLaws} m :
  server_message_typed m -> (exists b, encode_server_message m = Ok b) <-> server_message_valid m.
Proof.
  intros Hty. rewrite <- server_conforms by done. split.
  - intros [b Hb]. apply (encodable_conforms "server-message" _ server_message_of _ server_message_typed m b); [rule_known|exact Hty|exact Hb].
  - intros Hc. apply (codec_total "server-message" server_message_rule _ _ server_message_typed); [rule_known|exact Hty|exact Hc|by apply server_reads].
Qed.

(** ** Claims *)

(** C31. The relay protocol: a recognised octet string and the command or reply
    it is read as determine each other.  What an encoder writes is read back as
    the same message, and whatever octets a decoder accepts are exactly the
    ones the encoder writes for that message, so no message has a second
    accepted encoding; for every CBOR implementation and CDDL validator that
    satisfy their laws. *)
Theorem relay_codecs_inverse `{Cbor, Cddl, !CborLaws, !CddlLaws} b :
  (forall m, decode_client_message b = Ok m <-> client_message_typed m /\ encode_client_message m = Ok b) /\
  (forall m, decode_server_message b = Ok m <-> server_message_typed m /\ encode_server_message m = Ok b).
Proof.
  split; intros m.
  - apply (codec_inverse _ client_message_rule _ _ client_message_typed); [rule_known|apply client_text_keys].
  - apply (codec_inverse _ server_message_rule _ _ server_message_typed); [rule_known|apply server_text_keys].
Qed.

(** The peer-to-peer vocabulary: invitations, channel frames, sealed
    plaintexts, intents, decisions and payloads are each read from exactly the
    octets their encoder writes for them. *)
Theorem peer_codecs_inverse `{Cbor, Cddl, !CborLaws, !CddlLaws, UrlParser} b :
  (forall m, decode_invitation b = Ok m <-> invitation_typed m /\ encode_invitation m = Ok b) /\
  (forall m, decode_channel_frame b = Ok m <-> channel_frame_typed m /\ encode_channel_frame m = Ok b) /\
  (forall m, decode_sealed_plaintext b = Ok m <-> encode_sealed_plaintext m = Ok b) /\
  (forall m, decode_pairing_intent b = Ok m <->
     length (pi_intent_nonce m) = 32%nat /\ encode_pairing_intent m = Ok b) /\
  (forall m, decode_pairing_decision b = Ok m <->
     length (pd_intent_digest m) = 32%nat /\ encode_pairing_decision m = Ok b) /\
  (forall m, decode_application_payload b = Ok m <->
     length (ap_intent_digest m) = 32%nat /\ encode_application_payload m = Ok b).
Proof.
  split_and!; intros m.
  - apply (codec_inverse _ pairing_invitation_rule _ _ invitation_typed); [rule_known|apply map_text_keys].
  - apply (codec_inverse _ cpace_channel_frame_rule _ _ channel_frame_typed); [rule_known|apply channel_text_keys].
  - etrans; [apply (codec_inverse _ sealed_plaintext_rule _ _ (fun _ => True)); [rule_known|apply map_text_keys]|].
    split; [by intros [_ ?]|done].
  - apply (codec_inverse _ pairing_intent_rule _ _ (fun i => length (pi_intent_nonce i) = 32%nat));
      [rule_known|apply map_text_keys].
  - apply (codec_inverse _ pairing_decision_rule _ _ (fun d => length (pd_intent_digest d) = 32%nat));
      [rule_known|apply map_text_keys].
  - apply (codec_inverse _ application_payload_rule _ _ (fun p => length (ap_intent_digest p) = 32%nat));
      [rule_known|apply map_text_keys].
Qed.

(** What can be sent to a relay: a command as its Rust type allows it can
    be encoded exactly when it is within the schema's bounds, so no command
    beyond them crosses the trust boundary and none within them is refused. *)
Theorem client_encodable `{Cbor, Cddl, !CborLaws, !CddlLaws} m :
  client_message_typed m -> (exists b, encode_client_message m = Ok b) <-> client_message_valid m.
Proof.
  intros Hty. rewrite <- client_conforms by done. split.
  - intros [b Hb]. apply (encodable_conforms "client-message" _ client_message_of _ client_message_typed m b); [rule_known|exact Hty|exact Hb].
  - intros Hc. apply (codec_total "client-message" client_message_rule _ _ client_message_typed); [rule_known|exact Hty|exact Hc|by apply client_reads].
Qed.

(** ** Concrete runs *)

#[local] Existing Instance schema_validator.
#[local] Existing Instance schema_validator_laws.

Definition put_message : ClientMessage := ClientMessage_Put 3 [1; 2; 3].

Lemma relay_codecs_inverse_witness :
  (exists b, encode_client_message put_message = Ok b /\ decode_client_message b = Ok put_message) /\
  (exists b, encode_server_message (ServerMessage_Error 404) = Ok b /\
     decode_server_message b = Ok (ServerMessage_Error 404)).
Proof.
  assert (match encode_client_message put_message, encode_server_message (ServerMessage_Error 404) with
    Ok _, Ok _ => true | _, _ => false end = true) as He by (vm_compute; reflexivity).
  split.
  - destruct (encode_client_message put_message) as [b| |] eqn:Hb; [|discriminate..]. exists b. split; [reflexivity|].
    apply (relay_codecs_inverse b). split; [|exact Hb]. simpl. unfold is_u8, u8_max. lia.
  - destruct (encode_client_message put_message); [|discriminate..].
    destruct (encode_server_message (ServerMessage_Error 404)) as [b| |] eqn:Hb; [|discriminate..]. exists b.
    split; [reflexivity|]. apply (relay_codecs_inverse b). split; [|exact Hb]. simpl. unfold is_u16, u16_max. lia.
Defined.

(** An origin whose parse is itself. *)
#[local] Instance plain_origins : UrlParser := fun s => Some (mkUrl EmptyString None None None "/" s "https" None None).

Lemma peer_codecs_inverse_witness :
  exists b, encode_sealed_plaintext (mkSealedPlaintext [7] (Some [8])) = Ok b /\
    decode_sealed_plaintext b = Ok (mkSealedPlaintext [7] (Some [8])).
Proof.
  assert (match encode_sealed_plaintext (mkSealedPlaintext [7] (Some [8])) with Ok _ => true | _ => false end = true)
    as He by (vm_compute; reflexivity).
  destruct (encode_sealed_plaintext (mkSealedPlaintext [7] (Some [8]))) as [b| |] eqn:Hb; [|discriminate..].
  exists b. split; [reflexivity|]. apply (peer_codecs_inverse b). exact Hb.
Defined.

Lemma client_encodable_witness :
  (exists b, encode_client_message put_message = Ok b) /\
  ~ exists b, encode_client_message (ClientMessage_Put 16 [1]) = Ok b.
Proof.
  split.
  - apply (client_encodable put_message); simpl; unfold is_u8, u8_max, blen; simpl; lia.
  - intros Hb. apply (client_encodable (ClientMessage_Put 16 [1])) in Hb; simpl in *; unfold is_u8, u8_max in *; lia.
Defined.
