(* ===== verification/Context.v ===== *)
(** * CPace application inputs ([src/context.rs])

    The deterministic channel identifier, public context and associated data
    derived from an invitation and the resolved mailbox identifier. *)

From S2P Require Import Prelude External Wire Cddl WireCodec.

Definition CI_DOMAIN : string := "cbcl-pairing-ci/v1".
Definition AD_DOMAIN : string := "cbcl-pairing-ad/v1".
Definition CHANNEL_CONTEXT_DOMAIN : string := "cbcl-pairing-public-context/v1".

Inductive ContextError : Type :=
| ContextError_Invitation
| ContextError_MailboxMismatch
| ContextError_Encoding.

Record PairingContext := mkPairingContext {
  pc_channel_identifier : bytes;
  pc_channel_context : bytes;
  pc_session_id : bytes;
  pc_associated_data : bytes * bytes
}.

(** [map_or(Value::Null, ..)]. *)
Definition key_or_null (key : option bytes) : Value :=
  match key with Some k => VBytes k | None => VNull end.

Definition side_text (side : Side) : string :=
  match side with Side_Allocator => "allocator" | Side_Claimant => "claimant" end.

Definition associated_data_value (side : Side) (expected_key : option bytes) : Value :=
  VArray [VText AD_DOMAIN; VText (side_text side); key_or_null expected_key].

Definition channel_identifier_value (i : Invitation) (mailbox_id : bytes) : Value :=
  VArray [VText CI_DOMAIN; VInteger 1; VText SUITE_ID; VText (iv_application i); VText (iv_relay_origin i);
          VBytes mailbox_id; VArray [VText "allocator"; VText "claimant"]].

Definition channel_context_value (i : Invitation) (mailbox_id : bytes) : Value :=
  VArray [VText CHANNEL_CONTEXT_DOMAIN; VInteger 1; VText SUITE_ID; VText (iv_application i);
          VText (iv_relay_origin i); VBytes mailbox_id; key_or_null (iv_expected_allocator_key i);
          key_or_null (iv_expected_claimant_key i)].

Section Context.
Context `{Cbor, Cddl, UrlParser}.

Definition canonical (value : Value) : outcome ContextError bytes :=
  ok_or (to_canonical_vec value) ContextError_Encoding.

Definition derive (invitation : Invitation) (mailbox_id : bytes) : outcome ContextError PairingContext :=
  _ ← map_err (fun _ => ContextError_Invitation) (encode_invitation invitation);
  if match iv_locator invitation with
     | Locator_Direct expected => negb (bool_decide (expected = mailbox_id))
     | Locator_Nameplate _ => false
     end
  then Err ContextError_MailboxMismatch
  else
    channel_identifier ← canonical (channel_identifier_value invitation mailbox_id);
    allocator_data ← canonical (associated_data_value Side_Allocator (iv_expected_allocator_key invitation));
    claimant_data ← canonical (associated_data_value Side_Claimant (iv_expected_claimant_key invitation));
    channel_context ← canonical (channel_context_value invitation mailbox_id);
    Ok (mkPairingContext channel_identifier channel_context mailbox_id (allocator_data, claimant_data)).
End Context.

Definition associated_data (c : PairingContext) (side : Side) : bytes :=
  match side with Side_Allocator => (pc_associated_data c).1 | Side_Claimant => (pc_associated_data c).2 end.
