(* ===== verification/Channel.v ===== *)
(** * The secure channel ([src/channel.rs])

    The key schedule from the CPace key and the transcript, key confirmation,
    and the directional AEAD channel with exact-next counters.  [seal] and
    [open] mutate the channel: they run in [chanM], the channel with a
    [ChannelError].  Secrets are plain octets; erasing them on drop has no
    functional content.  The lemmas treat matching channels and runs of calls. *)

From S2P Require Import Prelude External Instances Wire Cddl WireCodec WireLaws Context.

Definition MAX_SEALED_PLAINTEXT : Z := 69556.

Inductive ChannelError : Type :=
| ChannelError_FinishedMismatch
| ChannelError_DirectionMismatch
| ChannelError_CounterMismatch
| ChannelError_InvalidTag
| ChannelError_MessageSize
| ChannelError_CounterExhausted
| ChannelError_Terminal
| ChannelError_UnexpectedFrame
| ChannelError_Encoding
| ChannelError_KeySchedule
| ChannelError_Encryption
| ChannelError_InvalidContext.

Record PendingSecrets := mkPendingSecrets {
  ps_key_allocator_to_claimant : bytes;
  ps_key_claimant_to_allocator : bytes;
  ps_iv_allocator_to_claimant : bytes;
  ps_iv_claimant_to_allocator : bytes;
  ps_exporter : bytes
}.

Record PendingChannel := mkPendingChannel {
  pn_local_side : Side;
  pn_transcript_hash : bytes;
  pn_local_finished : bytes;
  pn_peer_finished : bytes;
  pn_secrets : PendingSecrets
}.

Record SecureChannel := mkSecureChannel {
  ch_local_side : Side;
  ch_transcript_hash : bytes;
  ch_send_key : bytes;
  ch_receive_key : bytes;
  ch_send_iv : bytes;
  ch_receive_iv : bytes;
  ch_exporter : bytes;
  ch_next_send_counter : option Z;
  ch_next_receive_counter : option Z;
  ch_terminal : bool
}.

Abbreviation chanM := (stM SecureChannel ChannelError).

(** ** Helpers *)

Definition direction_number (d : Direction) : Z :=
  match d with Direction_AllocatorToClaimant => 0 | Direction_ClaimantToAllocator => 1 end.
Definition send_direction (side : Side) : Direction :=
  match side with Side_Allocator => Direction_AllocatorToClaimant | Side_Claimant => Direction_ClaimantToAllocator end.
Definition receive_direction (side : Side) : Direction :=
  match side with Side_Allocator => Direction_ClaimantToAllocator | Side_Claimant => Direction_AllocatorToClaimant end.

(** [to_be_bytes] of an [8n]-bit integer. *)
Fixpoint to_be_bytes (n : nat) (z : Z) : bytes :=
  match n with O => [] | S n => to_be_bytes n (z / 256) ++ [z mod 256] end.

(** The first four octets of the IV stay, the others are combined with the
    counter. *)
Definition derive_nonce (iv : bytes) (counter : Z) : bytes :=
  take 4 iv ++ zip_with Z.lxor (drop 4 iv) (to_be_bytes 8 counter).

Definition sealed_aad_entries (direction : Direction) (counter : Z) (transcript_hash : bytes) :
    list (string * Value) :=
  [("v", VInteger 1); ("direction", VInteger (direction_number direction)); ("counter", VInteger counter);
   ("th", VBytes transcript_hash)].

Section Channel.
Context `{Cbor, Sha512, HkdfSha512, HmacSha512, Aead}.

Definition sealed_aad (direction : Direction) (counter : Z) (transcript_hash : bytes) :
    outcome ChannelError bytes :=
  ok_or (to_canonical_vec (text_map (sealed_aad_entries direction counter transcript_hash))) ChannelError_Encoding.

Definition calculate_transcript_hash (public_context allocator_frame claimant_frame : bytes) :
    outcome ChannelError bytes :=
  transcript ← ok_or (to_canonical_vec (VArray [VBytes public_context; VBytes allocator_frame; VBytes claimant_frame]))
                 ChannelError_Encoding;
  Ok (sha512 transcript).

Definition expand (length : nat) (isk label transcript_hash : bytes) : outcome ChannelError bytes :=
  ok_or (hkdf_expand isk (label ++ transcript_hash) length) ChannelError_KeySchedule.

Definition finished (key label transcript_hash : bytes) : outcome ChannelError bytes :=
  ok_or (hmac_sha512 key (label ++ transcript_hash)) ChannelError_KeySchedule.

(** ** Key schedule *)

Definition PendingChannel_new (local_side : Side) (isk public_context allocator_frame claimant_frame : bytes) :
    outcome ChannelError PendingChannel :=
  th ← calculate_transcript_hash public_context allocator_frame claimant_frame;
  kc_allocator ← expand 32 isk (ascii_bytes "pairing-v1 kc A") th;
  kc_claimant ← expand 32 isk (ascii_bytes "pairing-v1 kc B") th;
  allocator_finished ← finished kc_allocator (ascii_bytes "pairing-v1 finished A") th;
  claimant_finished ← finished kc_claimant (ascii_bytes "pairing-v1 finished B") th;
  key_ab ← expand 32 isk (ascii_bytes "pairing-v1 key A-B") th;
  key_ba ← expand 32 isk (ascii_bytes "pairing-v1 key B-A") th;
  iv_ab ← expand 12 isk (ascii_bytes "pairing-v1 iv A-B") th;
  iv_ba ← expand 12 isk (ascii_bytes "pairing-v1 iv B-A") th;
  exporter ← expand 32 isk (ascii_bytes "pairing-v1 exporter") th;
  let secrets := mkPendingSecrets key_ab key_ba iv_ab iv_ba exporter in
  Ok (match local_side with
      | Side_Allocator => mkPendingChannel local_side th allocator_finished claimant_finished secrets
      | Side_Claimant => mkPendingChannel local_side th claimant_finished allocator_finished secrets
      end).

Definition new_pairing `{Cddl, UrlParser} (local_side : Side) (isk : bytes) (invitation : Invitation)
    (mailbox_id allocator_frame claimant_frame : bytes) : outcome ChannelError PendingChannel :=
  context ← map_err (fun _ => ChannelError_InvalidContext) (derive invitation mailbox_id);
  PendingChannel_new local_side isk (pc_channel_context context) allocator_frame claimant_frame.

Definition confirm (p : PendingChannel) (peer_finished : bytes) : outcome ChannelError SecureChannel :=
  if negb (length peer_finished =? 64)%nat || negb (bool_decide (pn_peer_finished p = peer_finished))
  then Err ChannelError_FinishedMismatch
  else
    let s := pn_secrets p in
    let '(send_key, receive_key, send_iv, receive_iv) :=
      match pn_local_side p with
      | Side_Allocator => (ps_key_allocator_to_claimant s, ps_key_claimant_to_allocator s,
                           ps_iv_allocator_to_claimant s, ps_iv_claimant_to_allocator s)
      | Side_Claimant => (ps_key_claimant_to_allocator s, ps_key_allocator_to_claimant s,
                          ps_iv_claimant_to_allocator s, ps_iv_allocator_to_claimant s)
      end in
    Ok (mkSecureChannel (pn_local_side p) (pn_transcript_hash p) send_key receive_key send_iv receive_iv
          (ps_exporter s) (Some 0) (Some 0) false).

(** ** Transport *)

Definition set_send_counter (n : option Z) (c : SecureChannel) : SecureChannel :=
  mkSecureChannel (ch_local_side c) (ch_transcript_hash c) (ch_send_key c) (ch_receive_key c) (ch_send_iv c)
    (ch_receive_iv c) (ch_exporter c) n (ch_next_receive_counter c) (ch_terminal c).
Definition set_receive_counter (n : option Z) (c : SecureChannel) : SecureChannel :=
  mkSecureChannel (ch_local_side c) (ch_transcript_hash c) (ch_send_key c) (ch_receive_key c) (ch_send_iv c)
    (ch_receive_iv c) (ch_exporter c) (ch_next_send_counter c) n (ch_terminal c).
Definition set_terminal (c : SecureChannel) : SecureChannel :=
  mkSecureChannel (ch_local_side c) (ch_transcript_hash c) (ch_send_key c) (ch_receive_key c) (ch_send_iv c)
    (ch_receive_iv c) (ch_exporter c) (ch_next_send_counter c) (ch_next_receive_counter c) true.

Definition fail {A} (e : ChannelError) : chanM A :=
  _ ← modify set_terminal;
  throw e.

(** [Aes256Gcm::new_from_slice]. *)
Definition cipher_key (key : bytes) : outcome ChannelError bytes :=
  if (length key =? 32)%nat then Ok key else Err ChannelError_Encryption.

Definition seal (plaintext : bytes) : chanM ChannelFrame :=
  c ← get;
  if ch_terminal c then throw ChannelError_Terminal
  else if (blen plaintext =? 0) || (MAX_SEALED_PLAINTEXT <? blen plaintext) then throw ChannelError_MessageSize
  else
    counter ← lift (ok_or (ch_next_send_counter c) ChannelError_CounterExhausted);
    let direction := send_direction (ch_local_side c) in
    aad ← lift (sealed_aad direction counter (ch_transcript_hash c));
    let nonce := derive_nonce (ch_send_iv c) counter in
    key ← lift (cipher_key (ch_send_key c));
    ciphertext ← lift (ok_or (aead_encrypt key nonce aad plaintext) ChannelError_Encryption);
    _ ← modify (set_send_counter (checked_add u64_max counter 1));
    mret (ChannelFrame_Sealed direction counter ciphertext).

Definition open (frame : ChannelFrame) : chanM bytes :=
  c ← get;
  if ch_terminal c then throw ChannelError_Terminal
  else
    match frame with
    | ChannelFrame_Sealed direction counter ciphertext =>
        if negb (bool_decide (direction = receive_direction (ch_local_side c)))
        then fail ChannelError_DirectionMismatch
        else
          match ch_next_receive_counter c with
          | None => fail ChannelError_CounterExhausted
          | Some expected_counter =>
              if negb (counter =? expected_counter) then fail ChannelError_CounterMismatch
              else if negb ((17 <=? blen ciphertext) && (blen ciphertext <=? MAX_SEALED_PLAINTEXT + 16))
              then fail ChannelError_MessageSize
              else
                aad ← lift (sealed_aad direction counter (ch_transcript_hash c));
                let nonce := derive_nonce (ch_receive_iv c) counter in
                key ← lift (cipher_key (ch_receive_key c));
                match aead_decrypt key nonce aad ciphertext with
                | Some plaintext =>
                    _ ← modify (set_receive_counter (checked_add u64_max counter 1));
                    mret plaintext
                | None => fail ChannelError_InvalidTag
                end
          end
    | _ => fail ChannelError_UnexpectedFrame
    end.
End Channel.

(** ** Properties of the pairing context and the secure channel

    What the context octets bind, that the two sides of one exchange derive
    matching channels, that matched channels deliver in order, and that no
    sequence of calls reuses a nonce, accepts a frame twice or goes on after a
    failure. *)

(** ** Octets and nonces *)

Lemma to_be_bytes_length n z : length (to_be_bytes n z) = n.
Proof. revert z. induction n as [|n IH]; intros z; simpl; [done|]. rewrite length_app, IH. simpl. lia. Qed.

Lemma to_be_bytes_inj n z w :
  0 <= z < 256 ^ Z.of_nat n -> 0 <= w < 256 ^ Z.of_nat n -> to_be_bytes n z = to_be_bytes n w -> z = w.
Proof.
  revert z w. induction n as [|n IH]; intros z w Hz Hw; [simpl in *; lia|].
  rewrite Nat2Z.inj_succ, Z.pow_succ_r in Hz, Hw by lia. simpl. intros [Hq [= Hr]]%app_inj_2; [|done].
  rewrite (Z.div_mod z 256), (Z.div_mod w 256), Hr by lia. do 2 f_equal. apply IH; [| |done].
  - split; [apply Z.div_pos; lia|apply Z.div_lt_upper_bound; lia].
  - split; [apply Z.div_pos; lia|apply Z.div_lt_upper_bound; lia].
Qed.

Lemma lxor_cancel a b c : Z.lxor a b = Z.lxor a c -> b = c.
Proof. intros H%(f_equal (Z.lxor a)). by rewrite <- !Z.lxor_assoc, Z.lxor_nilpotent, !Z.lxor_0_l in H. Qed.

Lemma zip_lxor_cancel (a b c : bytes) :
  length b = length a -> length c = length a -> zip_with Z.lxor a b = zip_with Z.lxor a c -> b = c.
Proof.
  revert b c. induction a as [|x a IH]; intros [|y b] [|z c]; simpl; try done.
  intros [= Hb] [= Hc] [= Hx Ha]. f_equal; [by apply lxor_cancel in Hx|auto].
Qed.

Lemma derive_nonce_length iv n : length iv = 12%nat -> length (derive_nonce iv n) = 12%nat.
Proof.
  intros Hiv. unfold derive_nonce. rewrite length_app, length_take, length_zip_with, to_be_bytes_length, length_drop.
  lia.
Qed.

Lemma derive_nonce_inj iv n m :
  length iv = 12%nat -> 0 <= n <= u64_max -> 0 <= m <= u64_max -> derive_nonce iv n = derive_nonce iv m -> n = m.
Proof.
  intros Hiv Hn Hm [_ Hx]%app_inj_1; [|done]. unfold u64_max in *.
  apply to_be_bytes_inj with 8%nat; [simpl; lia|simpl; lia|].
  apply zip_lxor_cancel in Hx; rewrite ?to_be_bytes_length, ?length_drop, ?Hiv; done.
Qed.

(** ** Runs of a channel *)

(** The keys and IVs have the sizes of the source's arrays, the counters are
    64-bit. *)
Definition counter_ok (n : option Z) : Prop := forall z, n = Some z -> 0 <= z <= u64_max.
Record channel_ok (c : SecureChannel) : Prop := {
  ok_send_key : length (ch_send_key c) = 32%nat;
  ok_receive_key : length (ch_receive_key c) = 32%nat;
  ok_send_iv : length (ch_send_iv c) = 12%nat;
  ok_receive_iv : length (ch_receive_iv c) = 12%nat;
  ok_send_counter : counter_ok (ch_next_send_counter c);
  ok_receive_counter : counter_ok (ch_next_receive_counter c)
}.

(** The calls an endpoint makes on its channel, and what came of them. *)
Inductive chan_op := OpSeal (plaintext : bytes) | OpOpen (frame : ChannelFrame).
Inductive chan_event :=
| Sent (plaintext : bytes) (frame : ChannelFrame)
| Received (frame : ChannelFrame) (plaintext : bytes)
| Refused (e : option ChannelError).

Definition sealed_counter (f : ChannelFrame) : option Z :=
  match f with ChannelFrame_Sealed _ n _ => Some n | _ => None end.
Definition sealed_direction (f : ChannelFrame) : option Direction :=
  match f with ChannelFrame_Sealed d _ _ => Some d | _ => None end.

(** Messages with the frames that carried them. *)
Definition sent_messages (evs : list chan_event) : list (bytes * ChannelFrame) :=
  omap (fun ev => match ev with Sent p f => Some (p, f) | _ => None end) evs.
Definition received_messages (evs : list chan_event) : list (bytes * ChannelFrame) :=
  omap (fun ev => match ev with Received f p => Some (p, f) | _ => None end) evs.
Definition sent_frames (evs : list chan_event) : list ChannelFrame := map snd (sent_messages evs).
Definition received_frames (evs : list chan_event) : list ChannelFrame := map snd (received_messages evs).

Definition refusal {A} (r : outcome ChannelError A) : chan_event :=
  Refused (match r with Err e => Some e | _ => None end).

Section Runs.
Context `{Cbor, Aead}.

Definition chan_step (op : chan_op) (c : SecureChannel) : SecureChannel * chan_event :=
  match op with
  | OpSeal p => let '(c', r) := seal p c in (c', match r with Ok f => Sent p f | _ => refusal r end)
  | OpOpen f => let '(c', r) := open f c in (c', match r with Ok p => Received f p | _ => refusal r end)
  end.

Fixpoint chan_run (ops : list chan_op) (c : SecureChannel) : SecureChannel * list chan_event :=
  match ops with
  | [] => (c, [])
  | op :: ops =>
      let '(c', ev) := chan_step op c in
      let '(c'', evs) := chan_run ops c' in
      (c'', ev :: evs)
  end.

Fixpoint seal_all (ps : list bytes) : chanM (list ChannelFrame) :=
  match ps with
  | [] => mret []
  | p :: ps => f ← seal p; fs ← seal_all ps; mret (f :: fs)
  end.
Fixpoint open_all (fs : list ChannelFrame) : chanM (list bytes) :=
  match fs with
  | [] => mret []
  | f :: fs => p ← open f; ps ← open_all fs; mret (p :: ps)
  end.
End Runs.

(** The receiver [r] of what [s] sends: same transcript, the sender's key and
    IV, opposite sides, and no frame under way. *)
Record linked (s r : SecureChannel) : Prop := {
  lk_sender : ch_terminal s = false;
  lk_receiver : ch_terminal r = false;
  lk_direction : receive_direction (ch_local_side r) = send_direction (ch_local_side s);
  lk_transcript : ch_transcript_hash r = ch_transcript_hash s;
  lk_key : ch_receive_key r = ch_send_key s;
  lk_iv : ch_receive_iv r = ch_send_iv s;
  lk_counter : ch_next_receive_counter r = ch_next_send_counter s
}.

(** ** What one call does *)

Definition legal_plaintext (p : bytes) : Prop := 0 < blen p <= MAX_SEALED_PLAINTEXT.

Section Calls.
Context `{Cbor, Aead}.

(** [f] is the encryption of [p] under counter [n] of the sending side [c]. *)
Definition seals (c : SecureChannel) (n : Z) (p : bytes) (f : ChannelFrame) : Prop :=
  exists aad ct,
    f = ChannelFrame_Sealed (send_direction (ch_local_side c)) n ct /\
    sealed_aad (send_direction (ch_local_side c)) n (ch_transcript_hash c) = Ok aad /\
    length (ch_send_key c) = 32%nat /\
    aead_encrypt (ch_send_key c) (derive_nonce (ch_send_iv c) n) aad p = Some ct.

Lemma seal_cases p c c' r : seal p c = (c', r) ->
  (exists n f, r = Ok f /\ ch_terminal c = false /\ legal_plaintext p /\ ch_next_send_counter c = Some n /\
     seals c n p f /\ c' = set_send_counter (checked_add u64_max n 1) c) \/
  (c' = c /\ exists e, r = Err e).
Proof.
  unfold seal, mbind, stM_bind, get, throw, lift, modify, mret, stM_ret, cipher_key. simpl.
  destruct (ch_terminal c) eqn:Ht; [intros [= <- <-]; eauto|].
  destruct (_ || _) eqn:Hp; [intros [= <- <-]; eauto|].
  destruct (ch_next_send_counter c) as [n|] eqn:Hn; simpl; [|intros [= <- <-]; eauto].
  destruct (sealed_aad _ _ _) as [aad|e|] eqn:Ha; [|intros [= <- <-]; eauto|].
  2:{ unfold sealed_aad in Ha. by destruct (to_canonical_vec _). }
  destruct (_ =? 32)%nat eqn:Hk; [|intros [= <- <-]; eauto].
  destruct (aead_encrypt _ _ _ _) as [ct|] eqn:He; simpl; intros [= <- <-]; [|eauto].
  apply orb_false_iff in Hp as [Hp1 Hp2]. bool_to_prop. pose proof (blen_nonneg p).
  left. exists n, (ChannelFrame_Sealed (send_direction (ch_local_side c)) n ct).
  split_and!; try done; [split; lia|].
  exists aad, ct. split_and!; try done. by apply Nat.eqb_eq.
Qed.

(** What makes an incoming frame acceptable to [c]. *)
Definition opens (c : SecureChannel) (f : ChannelFrame) (p : bytes) : Prop :=
  exists n ct aad,
    f = ChannelFrame_Sealed (receive_direction (ch_local_side c)) n ct /\
    ch_next_receive_counter c = Some n /\
    17 <= blen ct <= MAX_SEALED_PLAINTEXT + 16 /\
    sealed_aad (receive_direction (ch_local_side c)) n (ch_transcript_hash c) = Ok aad /\
    length (ch_receive_key c) = 32%nat /\
    aead_decrypt (ch_receive_key c) (derive_nonce (ch_receive_iv c) n) aad ct = Some p.

(** What the cipher was called with: the frame is the encryption of [p], or
    decrypts to it, under the channel's key and this very nonce. *)
Definition encrypted (c : SecureChannel) (nonce p : bytes) (f : ChannelFrame) : Prop := exists n aad ct,
  f = ChannelFrame_Sealed (send_direction (ch_local_side c)) n ct /\
  sealed_aad (send_direction (ch_local_side c)) n (ch_transcript_hash c) = Ok aad /\
  aead_encrypt (ch_send_key c) nonce aad p = Some ct.
Definition decrypted (c : SecureChannel) (nonce p : bytes) (f : ChannelFrame) : Prop := exists n aad ct,
  f = ChannelFrame_Sealed (receive_direction (ch_local_side c)) n ct /\
  sealed_aad (receive_direction (ch_local_side c)) n (ch_transcript_hash c) = Ok aad /\
  aead_decrypt (ch_receive_key c) nonce aad ct = Some p.
Definition messages_under (f : bytes -> bytes -> ChannelFrame -> Prop) (messages : list (bytes * ChannelFrame)) (nonces : list bytes) : Prop :=
  Forall2 (fun m nonce => f nonce m.1 m.2) messages nonces.

(** The two failures that leave the channel open. *)
Definition local_failure (c : SecureChannel) : Prop :=
  length (ch_receive_key c) <> 32%nat \/
  exists d n e, ch_next_receive_counter c = Some n /\ sealed_aad d n (ch_transcript_hash c) = Err e.

Lemma open_cases f c c' r : open f c = (c', r) ->
  (exists n p, r = Ok p /\ ch_terminal c = false /\ sealed_counter f = Some n /\ opens c f p /\
     c' = set_receive_counter (checked_add u64_max n 1) c) \/
  (ch_terminal c = true /\ c' = c /\ r = Err ChannelError_Terminal) \/
  (ch_terminal c = false /\ exists e, r = Err e /\ (c' = set_terminal c \/ c' = c /\ local_failure c)).
Proof.
  unfold open, fail, mbind, stM_bind, get, throw, lift, modify, mret, stM_ret, cipher_key. simpl.
  destruct (ch_terminal c) eqn:Ht; [intros [= <- <-]; eauto|].
  destruct f as [| |d n ct]; try (intros [= <- <-]; by eauto 8).
  destruct (negb _) eqn:Hd; [intros [= <- <-]; by eauto 8|].
  destruct (ch_next_receive_counter c) as [m|] eqn:Hn; [|intros [= <- <-]; by eauto 8].
  destruct (negb (n =? m)) eqn:Hm; [intros [= <- <-]; by eauto 8|].
  destruct (negb (_ && _)) eqn:Hl; [intros [= <- <-]; by eauto 8|].
  apply negb_false_iff in Hd, Hm, Hl. apply andb_true_iff in Hl as [Hl1 Hl2]. bool_to_prop. subst m d.
  unfold local_failure.
  destruct (sealed_aad _ _ _) as [aad|e|] eqn:Ha; [|intros [= <- <-]|].
  3:{ unfold sealed_aad in Ha. by destruct (to_canonical_vec _). }
  2:{ right. right. split; [done|]. exists e. split; [done|]. right. split; [done|]. right. eauto. }
  destruct (_ =? 32)%nat eqn:Hk; [apply Nat.eqb_eq in Hk|apply Nat.eqb_neq in Hk; intros [= <- <-]; eauto 10].
  destruct (aead_decrypt _ _ _ _) as [p|] eqn:He; intros [= <- <-]; [|by eauto 8].
  left. exists n, p. split_and!; try done. by exists n, ct, aad.
Qed.
End Calls.

Section Invariant.
Context `{Cbor, Aead, !CborLaws}.

Lemma sealed_aad_total d n th : 0 <= n <= u64_max -> exists aad, sealed_aad d n th = Ok aad.
Proof.
  intros Hn. unfold sealed_aad. destruct (map_written (sealed_aad_entries d n th)) as [b Hb]; [|rewrite Hb; by exists b].
  split; simpl; [apply (bool_decide_unpack _); by vm_compute|].
  repeat (apply Forall_cons; split); simpl; try done; [by destruct d|].
  apply andb_true_iff. rewrite !Z.leb_le. lia.
Qed.

Lemma counter_ok_next n : counter_ok (Some n) -> counter_ok (checked_add u64_max n 1).
Proof. intros Hn z [-> Hz]%checked_add_some. specialize (Hn n eq_refl). lia. Qed.

Lemma no_local_failure c : channel_ok c -> ~ local_failure c.
Proof.
  intros Hc [Hk|(d & n & e & Hn & Ha)]; [by apply Hk, Hc|].
  destruct (sealed_aad_total d n (ch_transcript_hash c)) as [aad Haad]; [|congruence].
  by apply (ok_receive_counter c Hc).
Qed.

Lemma chan_step_ok op c : channel_ok c -> channel_ok (chan_step op c).1.
Proof.
  intros Hc. unfold chan_step. destruct op as [p|f].
  - destruct (seal p c) as [c' r] eqn:Hs. destruct (seal_cases p c c' r Hs)
      as [(n & f & -> & _ & _ & Hn & _ & ->)|[-> [e ->]]]; simpl; [|done].
    destruct Hc as [? ? ? ? Hsc ?]. rewrite Hn in Hsc. split; try done. by apply counter_ok_next.
  - destruct (open f c) as [c' r] eqn:Ho. destruct (open_cases f c c' r Ho)
      as [(n & p & -> & _ & Hf & (n' & ct & aad & -> & Hn & _) & ->)|[(_ & -> & ->)|(_ & e & -> & [->|[-> _]])]]; simpl;
      try done; [|by destruct Hc].
    simpl in Hf. simplify_eq. destruct Hc as [? ? ? ? ? Hrc]. rewrite Hn in Hrc. split; try done. by apply counter_ok_next.
Qed.

(** A dead channel answers every call with [Terminal] and does not move. *)
Lemma terminal_run ops c : ch_terminal c = true ->
  chan_run ops c = (c, replicate (length ops) (Refused (Some ChannelError_Terminal))).
Proof.
  intros Hc. assert (forall op, chan_step op c = (c, Refused (Some ChannelError_Terminal))) as Hstep.
  { intros [p|f]; unfold chan_step, seal, open, mbind, stM_bind, get, throw; simpl; by rewrite Hc. }
  induction ops as [|op ops IH]; simpl; [done|]. by rewrite Hstep, IH.
Qed.

(** The counters that follow a counter state, [None] when it is used up. *)
Definition counts_from (n : option Z) (l : list Z) : Prop :=
  match n with None => l = [] | Some z => l = seqZ z (Z.of_nat (length l)) /\ z + Z.of_nat (length l) <= u64_max + 1 end.

Lemma counts_from_nil n : counter_ok n -> counts_from n [].
Proof. intros Hn. destruct n as [z|]; simpl; [|done]. specialize (Hn z eq_refl). split; [done|lia]. Qed.

Lemma counts_from_cons n l : counter_ok (Some n) ->
  counts_from (checked_add u64_max n 1) l -> counts_from (Some n) (n :: l).
Proof.
  intros Hn. specialize (Hn n eq_refl). simpl. rewrite Nat2Z.inj_succ. unfold checked_add.
  destruct (n + 1 <=? u64_max) eqn:Hle; simpl; bool_to_prop.
  - intros [Hl Hb]. rewrite seqZ_cons, Z.pred_succ by lia. replace (Z.succ n) with (n + 1) by lia.
    split; [by f_equal|lia].
  - intros ->. simpl. rewrite seqZ_cons by (simpl; lia). split; [done|simpl; lia].
Qed.

Lemma chan_run_counts ops c c' evs : channel_ok c -> chan_run ops c = (c', evs) ->
  let sent := omap sealed_counter (sent_frames evs) in
  let received := omap sealed_counter (received_frames evs) in
  counts_from (ch_next_send_counter c) sent /\ counts_from (ch_next_receive_counter c) received /\
  messages_under (encrypted c) (sent_messages evs) (map (derive_nonce (ch_send_iv c)) sent) /\
  messages_under (decrypted c) (received_messages evs) (map (derive_nonce (ch_receive_iv c)) received).
Proof.
  cbv zeta. revert c c' evs. induction ops as [|op ops IH]; intros c c' evs Hc Hrun.
  - injection Hrun as <- <-. simpl. split_and!; try done; try apply counts_from_nil; try (by destruct Hc); constructor.
  - simpl in Hrun. pose proof (chan_step_ok op c Hc) as Hc1. destruct (chan_step op c) as [c1 ev] eqn:Hstep. simpl in Hc1.
    destruct (chan_run ops c1) as [c2 evs'] eqn:Hrun'. injection Hrun as <- <-.
    destruct (IH c1 c2 evs' Hc1 Hrun') as (Hs & Hr & Hms & Hmr).
    unfold chan_step in Hstep. destruct op as [p|f].
    + destruct (seal p c) as [c0 r] eqn:Hop. destruct (seal_cases p c c0 r Hop)
        as [(n & f & -> & _ & _ & Hn & (aad & ct & -> & Haad & _ & Hct) & ->)|[-> [e ->]]]; injection Hstep as <- <-; [|done].
      simpl in *. rewrite Hn. split_and!; try done; [|by constructor; [exists n, aad, ct|]].
      apply counts_from_cons; [|done]. rewrite <- Hn. by apply Hc.
    + destruct (open f c) as [c0 r] eqn:Hop. destruct (open_cases f c c0 r Hop)
        as [(n & p & -> & _ & Hf & (n' & ct & aad & -> & Hn & _ & Haad & _ & Hp) & ->)|[(_ & -> & ->)|(_ & e & -> & [->|[-> _]])]];
        injection Hstep as <- <-; try done.
      simpl in *. simplify_eq. rewrite Hn. split_and!; try done; [|by constructor; [exists n, aad, ct|]].
      apply counts_from_cons; [|done]. rewrite <- Hn. by apply Hc.
Qed.

(** The direction of every frame is in its encryption. *)
Lemma under_direction d (f : bytes -> bytes -> ChannelFrame -> Prop) messages nonces :
  (forall nonce p frame, f nonce p frame -> sealed_direction frame = Some d) -> messages_under f messages nonces ->
  Forall (fun frame => sealed_direction frame = Some d) (map snd messages).
Proof. intros Hd. induction 1 as [|[p frame] nonce messages nonces Hm _ IH]; simpl; constructor; [by eapply Hd|done]. Qed.

Lemma counts_from_nodup n l : counts_from n l -> NoDup l.
Proof. destruct n; simpl; [intros [-> _]; apply NoDup_seqZ|by intros ->; constructor]. Qed.

Lemma counts_from_range n l z : counter_ok n -> counts_from n l -> z ∈ l -> 0 <= z <= u64_max.
Proof.
  destruct n as [m|]; simpl; [|intros _ ->; set_solver].
  intros Hm [Hl Hb]. specialize (Hm m eq_refl). rewrite Hl, elem_of_seqZ. lia.
Qed.
End Invariant.
