(* ===== verification/ChannelProps.v ===== *)
(** * The promises of the context and the channel

    The properties of [src/context.rs] and [src/channel.rs], with concrete
    runs. *)

From S2P Require Import Prelude External Instances Wire Cddl WireCodec WireLaws Context Channel.

(** ** What the context binds *)

Section Binding.
Context `{Cbor, Cddl, UrlParser, !CborLaws}.

Lemma key_or_null_inj k k' : key_or_null k = key_or_null k' -> k = k'.
Proof. destruct k, k'; simpl; congruence. Qed.

Lemma canonical_inj v w b c :
  plain v = true -> plain w = true -> canonical v = Ok b -> canonical w = Ok c -> b = c <-> v = w.
Proof.
  unfold canonical. intros Hv Hw Hb%ok_or_ok Hc%ok_or_ok. split; [|congruence].
  intros <-. by apply (plain_written_inj v w b).
Qed.

Lemma associated_plain side k : plain (associated_data_value side k) = true.
Proof. by destruct k. Qed.
Lemma identifier_plain i m : plain (channel_identifier_value i m) = true.
Proof. done. Qed.
Lemma context_plain i m : plain (channel_context_value i m) = true.
Proof. by unfold channel_context_value; simpl; destruct (iv_expected_allocator_key i), (iv_expected_claimant_key i). Qed.

Definition expected_key (i : Invitation) (side : Side) : option bytes :=
  match side with Side_Allocator => iv_expected_allocator_key i | Side_Claimant => iv_expected_claimant_key i end.

Lemma derive_ok i m c : derive i m = Ok c ->
  pc_session_id c = m /\
  match iv_locator i with Locator_Direct d => d = m | Locator_Nameplate _ => True end /\
  canonical (channel_identifier_value i m) = Ok (pc_channel_identifier c) /\
  canonical (channel_context_value i m) = Ok (pc_channel_context c) /\
  forall side, canonical (associated_data_value side (expected_key i side)) = Ok (associated_data c side).
Proof.
  unfold derive. intros (? & _ & Hd)%bind_ok. match type of Hd with (if ?b then _ else _) = _ => destruct b eqn:Hl; [done|] end.
  apply bind_ok in Hd as (ci & Hci & Hd). apply bind_ok in Hd as (a & Ha & Hd).
  apply bind_ok in Hd as (b & Hb & Hd). apply bind_ok in Hd as (cc & Hcc & [= <-]). simpl.
  split_and!; try done; [|by intros []].
  destruct (iv_locator i); [|done]. apply negb_false_iff in Hl. by bool_to_prop.
Qed.
End Binding.

(** What the derived octets bind.  Two successful derivations have the
    same channel identifier exactly when application, relay origin and mailbox
    agree, the same public context exactly when the expected keys agree as
    well, and the same associated data exactly when side and expected key
    agree; the session identifier is the mailbox, which a direct invitation
    must name. *)
Theorem context_binds `{Cbor, Cddl, UrlParser, !CborLaws} i i' m m' c c'
    (Hc : derive i m = Ok c) (Hc' : derive i' m' = Ok c') :
  (pc_channel_identifier c = pc_channel_identifier c' <->
     iv_application i = iv_application i' /\ iv_relay_origin i = iv_relay_origin i' /\ m = m') /\
  (pc_channel_context c = pc_channel_context c' <->
     iv_application i = iv_application i' /\ iv_relay_origin i = iv_relay_origin i' /\ m = m' /\
     iv_expected_allocator_key i = iv_expected_allocator_key i' /\
     iv_expected_claimant_key i = iv_expected_claimant_key i') /\
  (forall side side', associated_data c side = associated_data c' side' <->
     side = side' /\ expected_key i side = expected_key i' side') /\
  pc_session_id c = m /\ (forall d, iv_locator i = Locator_Direct d -> d = m).
Proof.
  destruct (derive_ok i m c Hc) as (Hs & Hl & Hci & Hcc & Had).
  destruct (derive_ok i' m' c' Hc') as (_ & _ & Hci' & Hcc' & Had').
  split_and!; [| | |done|intros d Hd; by rewrite Hd in Hl].
  - rewrite (canonical_inj _ _ _ _ (identifier_plain i m) (identifier_plain i' m') Hci Hci').
    unfold channel_identifier_value. split; [by intros [= -> -> ->]|by intros (-> & -> & ->)].
  - rewrite (canonical_inj _ _ _ _ (context_plain i m) (context_plain i' m') Hcc Hcc').
    unfold channel_context_value. split; [|by intros (-> & -> & -> & -> & ->)].
    intros [= -> -> -> Ha Hb]. by apply key_or_null_inj in Ha, Hb.
  - intros side side'.
    rewrite (canonical_inj _ _ _ _ (associated_plain _ _) (associated_plain _ _) (Had side) (Had' side')).
    unfold associated_data_value. split; [|by intros [-> ->]].
    intros [= Hside Hk]. apply key_or_null_inj in Hk. by destruct side, side'.
Qed.

(** ** Key agreement *)

Section Schedule.
Context `{Cbor, Sha512, HkdfSha512, HmacSha512, !CborLaws, !ScheduleLaws}.

Lemma expand_total n isk label th : (n <= 64)%nat -> exists k, expand n isk label th = Ok k /\ length k = n.
Proof.
  intros Hn. unfold expand. destruct (hkdf_expands isk (label ++ th) n Hn) as (k & -> & Hk). by exists k.
Qed.
Lemma finished_total key label th : exists t, finished key label th = Ok t /\ length t = 64%nat.
Proof. unfold finished. destruct (hmac_sha512_some key (label ++ th)) as (t & -> & Ht). by exists t. Qed.
Lemma transcript_total ctx fa fb : exists th, calculate_transcript_hash ctx fa fb = Ok th.
Proof.
  unfold calculate_transcript_hash.
  destruct (plain_written (VArray [VBytes ctx; VBytes fa; VBytes fb])) as [b Hb]; [done|].
  exists (sha512 b). by rewrite Hb.
Qed.

(** The schedule's values, which do not depend on the side. *)
Lemma schedule_total isk ctx fa fb : exists th tag_a tag_b s,
  length tag_a = 64%nat /\ length tag_b = 64%nat /\
  length (ps_key_allocator_to_claimant s) = 32%nat /\ length (ps_key_claimant_to_allocator s) = 32%nat /\
  length (ps_iv_allocator_to_claimant s) = 12%nat /\ length (ps_iv_claimant_to_allocator s) = 12%nat /\
  PendingChannel_new Side_Allocator isk ctx fa fb = Ok (mkPendingChannel Side_Allocator th tag_a tag_b s) /\
  PendingChannel_new Side_Claimant isk ctx fa fb = Ok (mkPendingChannel Side_Claimant th tag_b tag_a s).
Proof.
  unfold PendingChannel_new. destruct (transcript_total ctx fa fb) as [th ->]. rewrite !ok_bind.
  repeat match goal with
    | |- context [expand ?n isk ?l th] =>
        destruct (expand_total n isk l th) as (? & -> & ?); [lia|]; rewrite !ok_bind
    | |- context [finished ?k ?l th] => destruct (finished_total k l th) as (? & -> & ?); rewrite !ok_bind
    end.
  do 4 eexists. split_and!; [| | | | | |reflexivity|reflexivity]; done.
Qed.
End Schedule.

Lemma confirm_ok p tag c : confirm p tag = Ok c -> tag = pn_peer_finished p.
Proof.
  unfold confirm. destruct (negb _ || negb _) eqn:Hb; [done|]. intros _.
  apply orb_false_iff in Hb as [_ Hb%negb_false_iff]. by bool_to_prop.
Qed.

(** The two sides of one schedule, with everything they agree on. *)
Lemma schedule_agreement `{Cbor, Sha512, HkdfSha512, HmacSha512, !CborLaws, !ScheduleLaws} isk context fa fb :
  exists pa pb ca cb,
    PendingChannel_new Side_Allocator isk context fa fb = Ok pa /\
    PendingChannel_new Side_Claimant isk context fa fb = Ok pb /\
    confirm pa (pn_local_finished pb) = Ok ca /\ confirm pb (pn_local_finished pa) = Ok cb /\
    (forall tag c, confirm pa tag = Ok c -> tag = pn_local_finished pb) /\
    (forall tag c, confirm pb tag = Ok c -> tag = pn_local_finished pa) /\
    channel_ok ca /\ channel_ok cb /\ linked ca cb /\ linked cb ca /\
    ch_next_send_counter ca = Some 0 /\ ch_next_send_counter cb = Some 0 /\
    ch_exporter ca = ch_exporter cb.
Proof.
  destruct (schedule_total isk context fa fb) as (th & ta & tb & s & Hta & Htb & Hk & Hk' & Hi & Hi' & Ha & Hb).
  do 4 eexists. split_and!; [apply Ha|apply Hb| | | | | | | | | | | ]; simpl.
  1,2: unfold confirm; simpl; rewrite ?Hta, ?Htb, bool_decide_eq_true_2 by done; reflexivity.
  1,2: intros tag c Hc; by apply confirm_ok in Hc.
  all: try done.
  all: split; simpl; try done; intros z [= <-]; unfold u64_max; lia.
Qed.

(** Both sides of one exchange agree.  From the same session key, public
    context and CPace frames each side derives a pending channel; each accepts
    the other's Finished value and nothing else; the confirmed channels are
    well formed, live, linked in both directions with counters at zero, and
    export the same secret. *)
Theorem channel_agreement `{Cbor, Sha512, HkdfSha512, HmacSha512, !CborLaws, !ScheduleLaws} isk context fa fb :
  exists pa pb ca cb,
    PendingChannel_new Side_Allocator isk context fa fb = Ok pa /\
    PendingChannel_new Side_Claimant isk context fa fb = Ok pb /\
    confirm pa (pn_local_finished pb) = Ok ca /\ confirm pb (pn_local_finished pa) = Ok cb /\
    (forall tag c, confirm pa tag = Ok c -> tag = pn_local_finished pb) /\
    (forall tag c, confirm pb tag = Ok c -> tag = pn_local_finished pa) /\
    channel_ok ca /\ channel_ok cb /\ linked ca cb /\ linked cb ca /\
    ch_next_send_counter ca = Some 0 /\ ch_next_send_counter cb = Some 0 /\
    ch_exporter ca = ch_exporter cb.
Proof. apply schedule_agreement. Qed.

(** ** Transport *)

Section Transport.
Context `{Cbor, Aead, !CborLaws, !AeadLaws}.

(** The receiver opens exactly what the sender sealed, and they stay linked. *)
Lemma linked_step s r n p f : linked s r -> legal_plaintext p -> ch_next_send_counter s = Some n -> seals s n p f ->
  let next := checked_add u64_max n 1 in
  open f r = (set_receive_counter next r, Ok p) /\ linked (set_send_counter next s) (set_receive_counter next r).
Proof.
  intros [Hs Hr Hd Hth Hk Hiv Hc] Hp Hn (aad & ct & -> & Ha & Hlen & He). simpl.
  split; [|by split]. pose proof (encrypt_len _ _ _ _ _ He) as Hct. unfold legal_plaintext, MAX_SEALED_PLAINTEXT, blen in Hp.
  unfold open, cipher_key, mbind, stM_bind, get, lift, modify, mret, stM_ret. rewrite Hr. simpl.
  rewrite Hd, bool_decide_eq_true_2, Hc, Hn, Z.eqb_refl by done. simpl.
  unfold blen. rewrite Hct. unfold MAX_SEALED_PLAINTEXT.
  rewrite (proj2 (Z.leb_le 17 _)), (proj2 (Z.leb_le _ (69556 + 16))) by lia. simpl.
  rewrite Hth, Ha, Hk, Hlen, Hiv. simpl. by rewrite (decrypt_encrypt _ _ _ _ _ He).
Qed.

Lemma linked_delivery ps : forall s r s' fs, linked s r -> seal_all ps s = (s', Ok fs) ->
  exists r', open_all fs r = (r', Ok ps) /\ linked s' r'.
Proof.
  induction ps as [|p ps IH]; intros s r s' fs Hl; simpl.
  - intros [= <- <-]. by exists r.
  - unfold mbind, stM_bind. destruct (seal p s) as [s1 o] eqn:Hs.
    destruct (seal_cases p s s1 o Hs) as [(n & f & -> & _ & Hp & Hn & Hf & ->)|[_ [e ->]]]; [|done].
    destruct (seal_all ps _) as [s2 [fs'|e|]] eqn:Hrest; simpl; [|done..].
    intros [= <- <-]. destruct (linked_step s r n p f Hl Hp Hn Hf) as [Ho Hl'].
    destruct (IH _ _ _ _ Hl' Hrest) as (r' & Hr' & Hl''). exists r'. split; [|done].
    simpl. unfold mbind, stM_bind. by rewrite Ho, Hr'.
Qed.

Lemma seal_succeeds c p n : channel_ok c -> ch_terminal c = false -> legal_plaintext p ->
  ch_next_send_counter c = Some n ->
  (forall aad, sealed_aad (send_direction (ch_local_side c)) n (ch_transcript_hash c) = Ok aad ->
     blen aad <= aead_data_max) ->
  exists f, seal p c = (set_send_counter (checked_add u64_max n 1) c, Ok f).
Proof.
  intros Hc Ht Hp Hn Hsmall.
  destruct (sealed_aad_total (send_direction (ch_local_side c)) n (ch_transcript_hash c)) as [aad Ha].
  { by apply (ok_send_counter c Hc). }
  destruct (encrypt_some (ch_send_key c) (derive_nonce (ch_send_iv c) n) aad p) as [ct He].
  { apply Hc. } { by apply derive_nonce_length, Hc. }
  { unfold legal_plaintext, MAX_SEALED_PLAINTEXT, aead_message_max in *. lia. } { auto. }
  unfold seal, cipher_key, mbind, stM_bind, get, lift, modify, mret, stM_ret. rewrite Ht.
  unfold legal_plaintext in Hp. rewrite (proj2 (Z.eqb_neq _ _)), (proj2 (Z.ltb_ge _ _)) by lia.
  rewrite Hn. simpl. rewrite Ha, (ok_send_key c Hc). simpl. rewrite He. simpl. by eexists.
Qed.
End Transport.

(** The channel delivers.  Whatever list of messages one endpoint seals,
    the linked endpoint that opens the frames in the order they were sealed
    gets exactly that list, and the two stay linked. *)
Theorem channel_in_order `{Cbor, Aead, !CborLaws, !AeadLaws} s r s' ps fs
    (Hl : linked s r) (Hs : seal_all ps s = (s', Ok fs)) :
  exists r', open_all fs r = (r', Ok ps) /\ linked s' r'.
Proof. by apply (linked_delivery ps s r s' fs). Qed.

(** When sealing succeeds.  A well-formed channel seals a message exactly
    when it is live, the message has between one and the maximal number of
    octets and a counter is left; the counter then moves to the next one or
    is used up.  A refused message leaves the channel as it was. *)
Theorem seal_exactly `{Cbor, Aead, !CborLaws, !AeadLaws} c p
    (Hc : channel_ok c)
    (Hsmall : forall n aad, ch_next_send_counter c = Some n ->
       sealed_aad (send_direction (ch_local_side c)) n (ch_transcript_hash c) = Ok aad -> blen aad <= aead_data_max) :
  (forall n, ch_terminal c = false -> legal_plaintext p -> ch_next_send_counter c = Some n ->
     exists f, seal p c = (set_send_counter (checked_add u64_max n 1) c, Ok f)) /\
  (ch_terminal c = true -> seal p c = (c, Err ChannelError_Terminal)) /\
  (ch_terminal c = false -> ~ legal_plaintext p -> seal p c = (c, Err ChannelError_MessageSize)) /\
  (ch_terminal c = false -> legal_plaintext p -> ch_next_send_counter c = None ->
     seal p c = (c, Err ChannelError_CounterExhausted)).
Proof.
  split_and!.
  - intros n Ht Hp Hn. apply seal_succeeds; eauto.
  - intros Ht. unfold seal, mbind, stM_bind, get, throw. by rewrite Ht.
  - intros Ht Hp. unfold seal, mbind, stM_bind, get, throw. rewrite Ht.
    destruct (_ || _) eqn:Hb; [done|]. destruct Hp. apply orb_false_iff in Hb as [Hz Hm]. bool_to_prop.
    pose proof (blen_nonneg p). unfold legal_plaintext. lia.
  - intros Ht Hp Hn. unfold seal, mbind, stM_bind, get, throw, lift. rewrite Ht, Hn.
    unfold legal_plaintext in Hp. by rewrite (proj2 (Z.eqb_neq _ _)), (proj2 (Z.ltb_ge _ _)) by lia.
Qed.

(** C13. No nonce is used twice and no frame is accepted twice.  Over any
    sequence of seal and open calls, successful or not, the frames sent carry
    consecutive 64-bit counters from the channel's send counter, and the nonces
    that the cipher encrypted them with, one for each message, are pairwise
    different; the frames accepted carry consecutive counters from the receive
    counter, each decrypts to the message it delivered under the nonce of its own
    counter, and no frame is accepted twice; and each frame has the channel's own
    direction. *)
Theorem channel_counters `{Cbor, Aead, !CborLaws} ops c c' evs
    (Hc : channel_ok c) (Hrun : chan_run ops c = (c', evs)) :
  let sent := omap sealed_counter (sent_frames evs) in
  let received := omap sealed_counter (received_frames evs) in
  counts_from (ch_next_send_counter c) sent /\
  counts_from (ch_next_receive_counter c) received /\
  (exists nonces, messages_under (encrypted c) (sent_messages evs) nonces /\ NoDup nonces /\
     nonces = map (derive_nonce (ch_send_iv c)) sent) /\
  messages_under (decrypted c) (received_messages evs) (map (derive_nonce (ch_receive_iv c)) received) /\
  NoDup (received_frames evs) /\
  Forall (fun f => sealed_direction f = Some (send_direction (ch_local_side c))) (sent_frames evs) /\
  Forall (fun f => sealed_direction f = Some (receive_direction (ch_local_side c))) (received_frames evs).
Proof.
  destruct (chan_run_counts ops c c' evs Hc Hrun) as (Hs & Hr & Hms & Hmr).
  assert (Forall (fun f => sealed_direction f = Some (receive_direction (ch_local_side c))) (received_frames evs)) as Hdr.
  { eapply under_direction; [|exact Hmr]. by intros nonce p frame (n & aad & ct & -> & _). }
  split_and!; try done.
  - eexists. split_and!; [exact Hms| |done]. apply NoDup_fmap_2_strong; [|by eapply counts_from_nodup].
    intros n m Hn Hm. apply derive_nonce_inj; [apply Hc| |];
      by eapply (counts_from_range _ _ _ (ok_send_counter c Hc) Hs).
  - apply counts_from_nodup in Hr. revert Hr Hdr. clear. induction (received_frames evs) as [|f fs IH]; simpl; [constructor|].
    intros Hnd [Hf Hfs]%Forall_cons. destruct f as [| |d n ct]; simpl in *; try done.
    apply NoDup_cons in Hnd as [Hn Hnd]. constructor; [|auto].
    intros Hin. apply Hn. apply list_elem_of_omap. eauto.
  - eapply under_direction; [|exact Hms]. by intros nonce p frame (n & aad & ct & -> & _).
Qed.

(** A failure is final.  When a well-formed channel refuses an incoming
    frame, it is dead from then on: no field but the terminal flag changed,
    and every later call, seal or open, returns [Terminal] and changes
    nothing. *)
Theorem failure_is_final `{Cbor, Aead, !CborLaws} c f c' e ops
    (Hc : channel_ok c) (Hopen : open f c = (c', Err e)) :
  c' = set_terminal c /\
  chan_run ops c' = (c', replicate (length ops) (Refused (Some ChannelError_Terminal))).
Proof.
  assert (c' = set_terminal c) as ->; [|split; [done|by apply terminal_run]].
  destruct (open_cases f c c' (Err e) Hopen)
    as [(n & p & [=] & _)|[(Ht & -> & _)|(_ & e' & _ & [->|[-> Hf]])]]; [|done|].
  - destruct c. simpl in Ht. by rewrite Ht.
  - by apply no_local_failure in Hf.
Qed.

(** ** Concrete runs *)

#[local] Existing Instance schema_validator.
#[local] Instance demo_origins : UrlParser := fun s => Some (mkUrl EmptyString None None None "/" s "https" None None).

Definition demo_mailbox_id : bytes := replicate 32 5.
Definition demo_invitation (key : option bytes) : Invitation :=
  mkInvitation "example.org/chat/v1" "https://relay.example" (Locator_Direct demo_mailbox_id) (replicate 16 1) None key.
Definition demo_context (key : option bytes) : outcome ContextError PairingContext :=
  derive (demo_invitation key) demo_mailbox_id.

Lemma context_binds_witness : exists c c',
  demo_context None = Ok c /\ demo_context (Some (replicate 32 9)) = Ok c' /\
  pc_channel_identifier c = pc_channel_identifier c' /\ pc_channel_context c <> pc_channel_context c'.
Proof.
  assert (match demo_context None, demo_context (Some (replicate 32 9)) with Ok _, Ok _ => true | _, _ => false end
    = true) as He by (vm_compute; reflexivity).
  destruct (demo_context None) as [c| |] eqn:Hc; [|discriminate..].
  destruct (demo_context (Some (replicate 32 9))) as [c'| |] eqn:Hc'; [|discriminate..].
  exists c, c'. pose proof (context_binds (demo_invitation None) (demo_invitation (Some (replicate 32 9)))
    demo_mailbox_id demo_mailbox_id c c' Hc Hc') as (Hci & Hcc & _).
  split; [reflexivity|]. split; [reflexivity|]. split.
  - apply (proj2 Hci). split; [reflexivity|split; reflexivity].
  - intros Heq. apply (proj1 Hcc) in Heq as (_ & _ & _ & _ & Heq). discriminate Heq.
Defined.

Lemma channel_agreement_witness : exists pa pb ca cb,
  PendingChannel_new Side_Allocator [1] [2] [3] [4] = Ok pa /\ PendingChannel_new Side_Claimant [1] [2] [3] [4] = Ok pb /\
  confirm pa (pn_local_finished pb) = Ok ca /\ confirm pb (pn_local_finished pa) = Ok cb /\ linked ca cb.
Proof.
  destruct (channel_agreement [1] [2] [3] [4]) as (pa & pb & ca & cb & ? & ? & ? & ? & _ & _ & _ & _ & ? & _).
  exists pa, pb, ca, cb. split_and!; assumption.
Defined.

(** A live channel of each side, and one whose counters are nearly used up. *)
Definition demo_channel (side : Side) (counter : Z) : SecureChannel :=
  mkSecureChannel side (replicate 64 0) (replicate 32 7) (replicate 32 7) (replicate 12 3) (replicate 12 3)
    (replicate 32 0) (Some counter) (Some counter) false.

Lemma demo_channel_ok side counter : 0 <= counter <= u64_max -> channel_ok (demo_channel side counter).
Proof. intros Hc. split; simpl; try done; by intros z [= <-]. Qed.
Lemma demo_linked counter : linked (demo_channel Side_Allocator counter) (demo_channel Side_Claimant counter).
Proof. by split. Qed.

Lemma channel_in_order_witness : exists s' r' fs,
  seal_all [[1; 2]; [3]] (demo_channel Side_Allocator 0) = (s', Ok fs) /\
  open_all fs (demo_channel Side_Claimant 0) = (r', Ok [[1; 2]; [3]]) /\ linked s' r'.
Proof.
  assert (match (seal_all [[1; 2]; [3]] (demo_channel Side_Allocator 0)).2 with Ok _ => true | _ => false end = true)
    as He by (vm_compute; reflexivity).
  destruct (seal_all [[1; 2]; [3]] (demo_channel Side_Allocator 0)) as [s' [fs| |]] eqn:Hs; [|discriminate..].
  destruct (channel_in_order _ (demo_channel Side_Claimant 0) s' _ fs (demo_linked 0) Hs) as (r' & Hr & Hl).
  exists s', r', fs. split; [reflexivity|]. split; assumption.
Defined.

Lemma seal_exactly_witness :
  (exists f, seal [1] (demo_channel Side_Claimant u64_max) =
     (set_send_counter None (demo_channel Side_Claimant u64_max), Ok f)) /\
  seal [] (demo_channel Side_Claimant u64_max) = (demo_channel Side_Claimant u64_max, Err ChannelError_MessageSize).
Proof.
  assert (forall n aad, ch_next_send_counter (demo_channel Side_Claimant u64_max) = Some n ->
    sealed_aad (send_direction Side_Claimant) n (replicate 64 0) = Ok aad -> blen aad <= aead_data_max) as Hsmall.
  { intros n aad [= <-] Ha.
    assert (match sealed_aad (send_direction Side_Claimant) u64_max (replicate 64 0) with
      Ok b => blen b <=? aead_data_max | _ => true end = true) as Hb by (vm_compute; reflexivity).
    rewrite Ha in Hb. by apply Z.leb_le. }
  assert (channel_ok (demo_channel Side_Claimant u64_max)) as Hc by (apply demo_channel_ok; unfold u64_max; lia).
  split.
  - destruct (seal_exactly _ [1] Hc Hsmall) as (Hok & _). apply (Hok u64_max); try reflexivity.
    unfold legal_plaintext, MAX_SEALED_PLAINTEXT, blen. simpl. lia.
  - destruct (seal_exactly _ [] Hc Hsmall) as (_ & _ & Hsize & _). apply Hsize; [reflexivity|].
    unfold legal_plaintext, blen. simpl. lia.
Defined.

Lemma channel_counters_witness : exists c' evs,
  chan_run [OpSeal [1]; OpSeal []; OpSeal [2; 3]] (demo_channel Side_Allocator 4) = (c', evs) /\
  omap sealed_counter (sent_frames evs) = [4; 5] /\
  exists nonces, messages_under (encrypted (demo_channel Side_Allocator 4)) (sent_messages evs) nonces /\ NoDup nonces.
Proof.
  assert (omap sealed_counter (sent_frames
    (chan_run [OpSeal [1]; OpSeal []; OpSeal [2; 3]] (demo_channel Side_Allocator 4)).2) = [4; 5]) as Hs
    by (vm_compute; reflexivity).
  destruct (chan_run [OpSeal [1]; OpSeal []; OpSeal [2; 3]] (demo_channel Side_Allocator 4)) as [c' evs] eqn:Hrun.
  exists c', evs. split; [reflexivity|]. split; [exact Hs|].
  destruct (channel_counters [OpSeal [1]; OpSeal []; OpSeal [2; 3]] (demo_channel Side_Allocator 4) c' evs) as (_ & _ & (nonces & Hm & Hn & _) & _);
    [|exact Hrun|exists nonces; split; assumption].
  apply demo_channel_ok. unfold u64_max. lia.
Defined.

Lemma failure_is_final_witness : exists c',
  open (ChannelFrame_Sealed Direction_AllocatorToClaimant 3 [1]) (demo_channel Side_Claimant 2) =
    (c', Err ChannelError_CounterMismatch) /\
  chan_run [OpSeal [1]; OpSeal [2]] c' =
    (c', [Refused (Some ChannelError_Terminal); Refused (Some ChannelError_Terminal)]).
Proof.
  exists (set_terminal (demo_channel Side_Claimant 2)). split; [reflexivity|].
  apply (failure_is_final (demo_channel Side_Claimant 2) (ChannelFrame_Sealed Direction_AllocatorToClaimant 3 [1])
    _ ChannelError_CounterMismatch [OpSeal [1]; OpSeal [2]]); [|reflexivity]. apply demo_channel_ok. unfold u64_max. lia.
Defined.
