(* ===== verification/Mailbox.v ===== *)
(** * The pure mailbox ([src/mailbox.rs])

    Two fixed memberships, a bounded list of immutable opaque frames for each,
    an absolute expiry and a terminal state.  [transition] applies one
    recognised command; the functions [transition_*] are its branches.

    First the data and the operations, then the invariant, then the
    behaviour of each operation. *)

From S2P Require Import Prelude External Wire.

Definition DEFAULT_TTL_SECONDS : Z := 600.
Definition MIN_TTL_SECONDS : Z := 60.
Definition MAX_TTL_SECONDS : Z := 86400.
Definition V2_TTL_SECONDS : Z := 900.
Definition MAX_FRAMES_PER_MEMBERSHIP : nat := 16.
Definition MAX_FRAME_BODY_BYTES : Z := 69632.
Definition MAX_NAMEPLATE : Z := 999999999.

(** ** Data *)

Inductive Membership : Type := Membership_Allocator | Membership_Claimant.

#[export] Instance Membership_eq_dec : EqDecision Membership.
Proof. solve_decision. Defined.

Definition peer (m : Membership) : Membership :=
  match m with
  | Membership_Allocator => Membership_Claimant
  | Membership_Claimant => Membership_Allocator
  end.

Record AllocationInput := mkAllocationInput {
  ai_mailbox_id : bytes;
  ai_nameplate : option Z;
  ai_allocator_hash : bytes;
  ai_now : Z;
  ai_ttl_seconds : option Z
}.

Record V2AllocationInput := mkV2AllocationInput {
  v2_mailbox_id : bytes;
  v2_allocator_hash : bytes;
  v2_claim_commitment : bytes;
  v2_now : Z;
  v2_ttl_seconds : option Z
}.

Inductive MailboxCommand : Type :=
| MailboxCommand_Claim (claimant_hash : bytes)
| MailboxCommand_ClaimV2 (claimant_hash claim_token : bytes)
| MailboxCommand_Open (membership_hash : bytes)
| MailboxCommand_Put (sender : Membership) (seq : Z) (body : bytes)
| MailboxCommand_Ack (sender : Membership) (peer_seq : Z)
| MailboxCommand_Close (sender : Membership).

Inductive MailboxEffect : Type :=
| MailboxEffect_Claimed (membership : Membership) (expires_at : Z)
| MailboxEffect_Opened (membership : Membership) (expires_at : Z)
| MailboxEffect_Stored (sender : Membership) (seq : Z) (replay : bool)
| MailboxEffect_Deliver (recipient : Membership) (peer_seq : Z) (body : bytes)
| MailboxEffect_BodyDeleted (owner : Membership) (seq : Z)
| MailboxEffect_Terminal (reason : CloseReason).

Inductive MailboxStatus : Type :=
| MailboxStatus_Waiting
| MailboxStatus_Paired
| MailboxStatus_Terminal (reason : CloseReason).

Inductive AdmissionSnapshot : Type :=
| AdmissionSnapshot_V1
| AdmissionSnapshot_V2Pending (commitment : bytes)
| AdmissionSnapshot_V2Claimed
| AdmissionSnapshot_V2Closed.

#[export] Instance MailboxStatus_eq_dec : EqDecision MailboxStatus.
Proof. solve_decision. Defined.
#[export] Instance AdmissionSnapshot_eq_dec : EqDecision AdmissionSnapshot.
Proof. solve_decision. Defined.

Record FrameRecord := mkFrameRecord {
  fr_seq : Z;
  fr_digest : bytes;
  fr_body_len : Z;
  fr_body : option bytes
}.

Record MemberState := mkMemberState {
  ms_hash : bytes;
  ms_next_seq : Z;
  ms_frames : list FrameRecord
}.

Record Mailbox := mkMailbox {
  mb_mailbox_id : bytes;
  mb_nameplate : option Z;
  mb_expires_at : Z;
  mb_status : MailboxStatus;
  mb_admission : AdmissionSnapshot;
  mb_allocator : MemberState;
  mb_claimant : option MemberState;
  mb_queue_bytes : Z
}.

Record SequenceSnapshot := mkSequenceSnapshot {
  ss_owner : Membership;
  ss_seq : Z;
  ss_body_digest : bytes;
  ss_body_len : Z;
  ss_body : option bytes
}.

Record MailboxSnapshot := mkMailboxSnapshot {
  sn_mailbox_id : bytes;
  sn_nameplate : option Z;
  sn_expires_at : Z;
  sn_status : MailboxStatus;
  sn_admission : AdmissionSnapshot;
  sn_membership_hashes : list bytes;
  sn_sequences : list SequenceSnapshot
}.

Record MailboxTransition := mkMailboxTransition {
  mt_state : option Mailbox;
  mt_effects : list MailboxEffect
}.

Inductive MailboxError : Type :=
| MailboxError_LifetimeOutOfRange
| MailboxError_ExpiryOverflow
| MailboxError_NameplateOutOfRange
| MailboxError_NotMember
| MailboxError_Closed (reason : CloseReason)
| MailboxError_SequenceGap (expected got : Z)
| MailboxError_FrameLimit
| MailboxError_BodySize
| MailboxError_UnknownSequence
| MailboxError_MembershipCollision
| MailboxError_InvalidSnapshot.

Definition wire_code (e : MailboxError) : Z :=
  match e with
  | MailboxError_LifetimeOutOfRange | MailboxError_NameplateOutOfRange => 400
  | MailboxError_NotMember => 404
  | MailboxError_Closed _ => 410
  | MailboxError_BodySize => 413
  | MailboxError_ExpiryOverflow | MailboxError_InvalidSnapshot => 503
  | MailboxError_SequenceGap _ _ | MailboxError_FrameLimit
  | MailboxError_UnknownSequence | MailboxError_MembershipCollision => 409
  end.

(** ** Allocation *)

Definition new_member (hash : bytes) : MemberState := mkMemberState hash 0 [].

Definition allocate (input : AllocationInput) : outcome MailboxError Mailbox :=
  let ttl_seconds := default DEFAULT_TTL_SECONDS (ai_ttl_seconds input) in
  if negb ((MIN_TTL_SECONDS <=? ttl_seconds) && (ttl_seconds <=? MAX_TTL_SECONDS)) then
    Err MailboxError_LifetimeOutOfRange
  else if match ai_nameplate input with Some n => MAX_NAMEPLATE <? n | None => false end then
    Err MailboxError_NameplateOutOfRange
  else
    expires_at ← ok_or (checked_add u64_max (ai_now input) ttl_seconds) MailboxError_ExpiryOverflow;
    Ok (mkMailbox (ai_mailbox_id input) (ai_nameplate input) expires_at
          MailboxStatus_Waiting AdmissionSnapshot_V1
          (new_member (ai_allocator_hash input)) None 0).

Definition allocate_v2 (input : V2AllocationInput) : outcome MailboxError Mailbox :=
  if negb (default V2_TTL_SECONDS (v2_ttl_seconds input) =? V2_TTL_SECONDS) then
    Err MailboxError_LifetimeOutOfRange
  else
    expires_at ← ok_or (checked_add u64_max (v2_now input) V2_TTL_SECONDS) MailboxError_ExpiryOverflow;
    Ok (mkMailbox (v2_mailbox_id input) None expires_at
          MailboxStatus_Waiting (AdmissionSnapshot_V2Pending (v2_claim_commitment input))
          (new_member (v2_allocator_hash input)) None 0).

(** ** Inspection *)

Definition membership_hashes (mb : Mailbox) : list bytes :=
  ms_hash (mb_allocator mb) ::
  match mb_claimant mb with Some c => [ms_hash c] | None => [] end.

Definition sequence_snapshot (owner : Membership) (f : FrameRecord) : SequenceSnapshot :=
  mkSequenceSnapshot owner (fr_seq f) (fr_digest f) (fr_body_len f) (fr_body f).

Definition snapshot (mb : Mailbox) : MailboxSnapshot :=
  mkMailboxSnapshot (mb_mailbox_id mb) (mb_nameplate mb) (mb_expires_at mb)
    (mb_status mb) (mb_admission mb) (membership_hashes mb)
    (map (sequence_snapshot Membership_Allocator) (ms_frames (mb_allocator mb)) ++
     match mb_claimant mb with
     | Some c => map (sequence_snapshot Membership_Claimant) (ms_frames c)
     | None => []
     end).

(** ** Reconstruction from the persistence boundary *)

Definition sequence_le (a b : SequenceSnapshot) : Prop := ss_seq a <= ss_seq b.
#[export] Instance sequence_le_dec a b : Decision (sequence_le a b).
Proof. unfold sequence_le. apply _. Defined.

(** [enumerate().any(|(index, sequence)| sequence.seq != index)], negated. *)
Fixpoint contiguous_from (i : Z) (l : list SequenceSnapshot) : bool :=
  match l with
  | [] => true
  | s :: l => (ss_seq s =? i) && contiguous_from (i + 1) l
  end.

Section Restore.
Context `{Sha256}.

Definition restore_frame (s : SequenceSnapshot) : outcome MailboxError FrameRecord :=
  if (ss_body_len s =? 0) || (MAX_FRAME_BODY_BYTES <? ss_body_len s) then
    Err MailboxError_InvalidSnapshot
  else
    let frame := mkFrameRecord (ss_seq s) (ss_body_digest s) (ss_body_len s) (ss_body s) in
    match ss_body s with
    | Some body =>
        if negb (blen body =? ss_body_len s) || negb (bool_decide (sha256 body = ss_body_digest s))
        then Err MailboxError_InvalidSnapshot else Ok frame
    | None => Ok frame
    end.

Definition restore_member (sequences : list SequenceSnapshot) (owner : Membership)
    (hash : bytes) : outcome MailboxError MemberState :=
  let sequences := merge_sort sequence_le (filter (fun s => ss_owner s = owner) sequences) in
  if (MAX_FRAMES_PER_MEMBERSHIP <? length sequences)%nat || negb (contiguous_from 0 sequences) then
    Err MailboxError_InvalidSnapshot
  else
    frames ← collect restore_frame sequences;
    next_seq ← ok_or (try_into u8_max (Z.of_nat (length frames))) MailboxError_InvalidSnapshot;
    Ok (mkMemberState hash next_seq frames).

(** The status and admission checks that precede the frames. *)
Definition snapshot_shape (s : MailboxSnapshot) : bool :=
  let members := length (sn_membership_hashes s) in
  negb (match sn_nameplate s with Some v => MAX_NAMEPLATE <? v | None => false end) &&
  negb (members =? 0)%nat && (members <=? 2)%nat &&
  match sn_status s with
  | MailboxStatus_Waiting => (members =? 1)%nat
  | MailboxStatus_Paired => (members =? 2)%nat
  | MailboxStatus_Terminal _ => true
  end &&
  match sn_admission s, sn_status s with
  | AdmissionSnapshot_V1, _ => true
  | AdmissionSnapshot_V2Pending _, MailboxStatus_Waiting =>
      bool_decide (sn_nameplate s = None) && (members =? 1)%nat
  | AdmissionSnapshot_V2Claimed, MailboxStatus_Paired =>
      bool_decide (sn_nameplate s = None) && (members =? 2)%nat
  | AdmissionSnapshot_V2Closed, MailboxStatus_Terminal _ => bool_decide (sn_nameplate s = None)
  | _, _ => false
  end.

(** Octets of the bodies that are still queued. *)
Definition frame_bytes (f : FrameRecord) : Z :=
  match fr_body f with Some _ => fr_body_len f | None => 0 end.
Definition member_bytes (m : MemberState) : Z := sum_with frame_bytes (ms_frames m).
Definition live_bytes (a : MemberState) (c : option MemberState) : Z :=
  member_bytes a + match c with Some c => member_bytes c | None => 0 end.

Definition from_snapshot (s : MailboxSnapshot) : outcome MailboxError Mailbox :=
  if negb (snapshot_shape s) then Err MailboxError_InvalidSnapshot else
  hash ← expect (sn_membership_hashes s !! 0%nat);
  allocator ← restore_member (sn_sequences s) Membership_Allocator hash;
  claimant ← match sn_membership_hashes s !! 1%nat with
             | Some hash => c ← restore_member (sn_sequences s) Membership_Claimant hash; Ok (Some c)
             | None => Ok None
             end;
  if existsb (fun q => bool_decide (ss_owner q = Membership_Claimant)) (sn_sequences s) &&
     bool_decide (claimant = None (A := MemberState)) then
    Err MailboxError_InvalidSnapshot
  else
    Ok (mkMailbox (sn_mailbox_id s) (sn_nameplate s) (sn_expires_at s) (sn_status s)
          (sn_admission s) allocator claimant (live_bytes allocator claimant)).
End Restore.

(** ** Transitions *)

Definition with_members (mb : Mailbox) (a : MemberState) (c : option MemberState) (q : Z) : Mailbox :=
  mkMailbox (mb_mailbox_id mb) (mb_nameplate mb) (mb_expires_at mb) (mb_status mb)
    (mb_admission mb) a c q.

Definition with_status (mb : Mailbox) (st : MailboxStatus) (ad : AdmissionSnapshot) : Mailbox :=
  mkMailbox (mb_mailbox_id mb) (mb_nameplate mb) (mb_expires_at mb) st ad
    (mb_allocator mb) (mb_claimant mb) (mb_queue_bytes mb).

Definition member (mb : Mailbox) (m : Membership) : option MemberState :=
  match m with
  | Membership_Allocator => Some (mb_allocator mb)
  | Membership_Claimant => mb_claimant mb
  end.

(** Write through the reference returned by [member_mut]. *)
Definition set_member (mb : Mailbox) (m : Membership) (ms : MemberState) (q : Z) : Mailbox :=
  match m with
  | Membership_Allocator => with_members mb ms (mb_claimant mb) q
  | Membership_Claimant => with_members mb (mb_allocator mb) (Some ms) q
  end.

Definition membership_for_hash (mb : Mailbox) (hash : bytes) : option Membership :=
  if bool_decide (ms_hash (mb_allocator mb) = hash) then Some Membership_Allocator
  else match mb_claimant mb with
       | Some c => if bool_decide (ms_hash c = hash) then Some Membership_Claimant else None
       | None => None
       end.

(** [frame.body.take()]. *)
Definition take_body (f : FrameRecord) : FrameRecord :=
  mkFrameRecord (fr_seq f) (fr_digest f) (fr_body_len f) None.

(** One member's turn of the loop of [delete_bodies]: the frames without
    bodies, the remaining queue count and the effects pushed. *)
Fixpoint delete_frames (owner : Membership) (frames : list FrameRecord) (queue : Z) :
    outcome MailboxError (list FrameRecord * Z * list MailboxEffect) :=
  match frames with
  | [] => Ok ([], queue, [])
  | f :: frames =>
      match fr_body f with
      | Some _ =>
          queue ← expect (checked_sub queue (fr_body_len f));
          '(frames', queue', effects) ← delete_frames owner frames queue;
          Ok (take_body f :: frames', queue', MailboxEffect_BodyDeleted owner (fr_seq f) :: effects)
      | None =>
          '(frames', queue', effects) ← delete_frames owner frames queue;
          Ok (f :: frames', queue', effects)
      end
  end.

Definition with_frames (m : MemberState) (frames : list FrameRecord) : MemberState :=
  mkMemberState (ms_hash m) (ms_next_seq m) frames.

Definition delete_bodies (mb : Mailbox) : outcome MailboxError (Mailbox * list MailboxEffect) :=
  '(fa, q, ea) ← delete_frames Membership_Allocator (ms_frames (mb_allocator mb)) (mb_queue_bytes mb);
  match mb_claimant mb with
  | Some c =>
      '(fc, q, ec) ← delete_frames Membership_Claimant (ms_frames c) q;
      Ok (with_members mb (with_frames (mb_allocator mb) fa) (Some (with_frames c fc)) q, ea ++ ec)
  | None => Ok (with_members mb (with_frames (mb_allocator mb) fa) None q, ea)
  end.

Definition terminate (mb : Mailbox) (reason : CloseReason) : outcome MailboxError MailboxTransition :=
  '(mb, effects) ← delete_bodies mb;
  let admission := match mb_admission mb with
                   | AdmissionSnapshot_V1 => AdmissionSnapshot_V1
                   | _ => AdmissionSnapshot_V2Closed
                   end in
  Ok (mkMailboxTransition (Some (with_status mb (MailboxStatus_Terminal reason) admission))
        (effects ++ [MailboxEffect_Terminal reason])).

Definition is_terminal (st : MailboxStatus) : bool :=
  match st with MailboxStatus_Terminal _ => true | _ => false end.

Definition reap (mb : Mailbox) (now : Z) : outcome MailboxError MailboxTransition :=
  if now <? mb_expires_at mb then Ok (mkMailboxTransition (Some mb) [])
  else
    '(_, effects) ← delete_bodies mb;
    Ok (mkMailboxTransition None
          (effects ++ if is_terminal (mb_status mb) then []
                      else [MailboxEffect_Terminal CloseReason_Expired])).

Section Transition.
Context `{Sha256}.
Implicit Types next : Mailbox.

(** Install the claimant; the shared tail of [Claim] and [ClaimV2]. *)
Definition install_claimant next (claimant_hash : bytes) (ad : AdmissionSnapshot) : MailboxTransition :=
  mkMailboxTransition
    (Some (with_status (with_members next (mb_allocator next) (Some (new_member claimant_hash))
                          (mb_queue_bytes next)) MailboxStatus_Paired ad))
    [MailboxEffect_Claimed Membership_Claimant (mb_expires_at next)].

Definition transition_claim next (claimant_hash : bytes) : outcome MailboxError MailboxTransition :=
  match mb_admission next with
  | AdmissionSnapshot_V1 =>
      if bool_decide (claimant_hash = ms_hash (mb_allocator next)) then
        Err MailboxError_MembershipCollision
      else match mb_claimant next with
           | None => Ok (install_claimant next claimant_hash (mb_admission next))
           | Some c =>
               if bool_decide (ms_hash c = claimant_hash) then Err MailboxError_MembershipCollision
               else terminate next CloseReason_Crowded
           end
  | _ => Err MailboxError_NotMember
  end.

Definition transition_claim_v2 next (claimant_hash claim_token : bytes) :
    outcome MailboxError MailboxTransition :=
  match mb_admission next with
  | AdmissionSnapshot_V2Pending expected =>
      let presented := claim_commitment (mb_mailbox_id next) claim_token in
      if negb (bool_decide (expected = presented)) then Err MailboxError_NotMember
      else if bool_decide (claimant_hash = ms_hash (mb_allocator next)) ||
              negb (bool_decide (mb_claimant next = None)) then
        Err MailboxError_MembershipCollision
      else Ok (install_claimant next claimant_hash AdmissionSnapshot_V2Claimed)
  | _ => Err MailboxError_NotMember
  end.

(** The queued frames of [frames], offered to [recipient] in order. *)
Definition deliveries (recipient : Membership) (frames : list FrameRecord) : list MailboxEffect :=
  omap (fun f => body ← fr_body f; Some (MailboxEffect_Deliver recipient (fr_seq f) body)) frames.

Definition transition_open next (membership_hash : bytes) : outcome MailboxError MailboxTransition :=
  membership ← ok_or (membership_for_hash next membership_hash) MailboxError_NotMember;
  Ok (mkMailboxTransition (Some next)
        (MailboxEffect_Opened membership (mb_expires_at next) ::
         match member next (peer membership) with
         | Some p => deliveries membership (ms_frames p)
         | None => []
         end)).

Definition find_frame (seq : Z) (frames : list FrameRecord) : option FrameRecord :=
  find (fun f => fr_seq f =? seq) frames.

Definition transition_put next (sender : Membership) (seq : Z) (body : bytes) :
    outcome MailboxError MailboxTransition :=
  if (blen body =? 0) || (MAX_FRAME_BODY_BYTES <? blen body) then Err MailboxError_BodySize else
  let digest := sha256 body in
  m ← ok_or (member next sender) MailboxError_NotMember;
  if seq <? ms_next_seq m then
    frame ← ok_or (find_frame seq (ms_frames m)) MailboxError_UnknownSequence;
    if (fr_body_len frame =? blen body) && bool_decide (fr_digest frame = digest) then
      Ok (mkMailboxTransition (Some next) [MailboxEffect_Stored sender seq true])
    else terminate next CloseReason_Conflict
  else if ms_next_seq m <? seq then Err (MailboxError_SequenceGap (ms_next_seq m) seq)
  else if (Z.of_nat MAX_FRAMES_PER_MEMBERSHIP <=? seq) ||
          (MAX_FRAMES_PER_MEMBERSHIP <=? length (ms_frames m))%nat then
    Err MailboxError_FrameLimit
  else
    next_seq ← expect (checked_add u8_max (ms_next_seq m) 1);
    queue ← expect (checked_add u64_max (mb_queue_bytes next) (blen body));
    let m' := mkMemberState (ms_hash m) next_seq
                (ms_frames m ++ [mkFrameRecord seq digest (blen body) (Some body)]) in
    let next := set_member next sender m' queue in
    Ok (mkMailboxTransition (Some next)
          (MailboxEffect_Stored sender seq false ::
           match member next (peer sender) with
           | Some _ => [MailboxEffect_Deliver (peer sender) seq body]
           | None => []
           end)).

(** [iter_mut().find(..)] followed by [body.take()]: the frames after the
    removal and the record found. *)
Fixpoint take_frame (seq : Z) (frames : list FrameRecord) : option (list FrameRecord * FrameRecord) :=
  match frames with
  | [] => None
  | f :: frames =>
      if fr_seq f =? seq then Some (take_body f :: frames, f)
      else '(frames', found) ← take_frame seq frames; Some (f :: frames', found)
  end.

Definition transition_ack next (sender : Membership) (peer_seq : Z) :
    outcome MailboxError MailboxTransition :=
  match member next sender with
  | None => Err MailboxError_NotMember
  | Some _ =>
      let owner := peer sender in
      p ← ok_or (member next owner) MailboxError_UnknownSequence;
      '(frames, frame) ← ok_or (take_frame peer_seq (ms_frames p)) MailboxError_UnknownSequence;
      match fr_body frame with
      | Some _ =>
          queue ← expect (checked_sub (mb_queue_bytes next) (fr_body_len frame));
          Ok (mkMailboxTransition (Some (set_member next owner (with_frames p frames) queue))
                [MailboxEffect_BodyDeleted owner peer_seq])
      | None =>
          Ok (mkMailboxTransition
                (Some (set_member next owner (with_frames p frames) (mb_queue_bytes next))) [])
      end
  end.

Definition transition_close next (sender : Membership) : outcome MailboxError MailboxTransition :=
  match member next sender with
  | None => Err MailboxError_NotMember
  | Some _ => terminate next CloseReason_Closed
  end.

Definition transition (state : Mailbox) (now : Z) (command : MailboxCommand) :
    outcome MailboxError MailboxTransition :=
  if mb_expires_at state <=? now then reap state now
  else match mb_status state with
  | MailboxStatus_Terminal reason => Err (MailboxError_Closed reason)
  | _ =>
      match command with
      | MailboxCommand_Claim claimant_hash => transition_claim state claimant_hash
      | MailboxCommand_ClaimV2 claimant_hash claim_token =>
          transition_claim_v2 state claimant_hash claim_token
      | MailboxCommand_Open membership_hash => transition_open state membership_hash
      | MailboxCommand_Put sender seq body => transition_put state sender seq body
      | MailboxCommand_Ack sender peer_seq => transition_ack state sender peer_seq
      | MailboxCommand_Close sender => transition_close state sender
      end
  end.
End Transition.
