(* ===== verification/MailboxInv.v ===== *)
(** * The mailbox invariant

    [mailbox_ok] is what every reachable and every restored mailbox satisfies:
    frames numbered contiguously from zero, at most sixteen of them per
    membership, every queued body of the recorded length and digest, the
    queue counter exact, status, claimant and admission in agreement.
    [mailbox_wf] adds what only live transitions guarantee: the two
    memberships differ and a terminal mailbox holds no body.  Every operation
    preserves both, and none of the [expect] calls of the source can fail. *)

From S2P Require Import Prelude External Wire Mailbox.

Section Invariant.
Context `{Sha256}.

Record frame_ok (i : Z) (f : FrameRecord) : Prop := {
  fo_seq : fr_seq f = i;
  fo_len : 0 < fr_body_len f <= MAX_FRAME_BODY_BYTES;
  fo_body : forall b, fr_body f = Some b -> blen b = fr_body_len f /\ fr_digest f = sha256 b
}.

Fixpoint frames_ok (i : Z) (l : list FrameRecord) : Prop :=
  match l with [] => True | f :: l => frame_ok i f /\ frames_ok (i + 1) l end.

Record member_ok (m : MemberState) : Prop := {
  mo_frames : frames_ok 0 (ms_frames m);
  mo_next : ms_next_seq m = Z.of_nat (length (ms_frames m));
  mo_bound : (length (ms_frames m) <= MAX_FRAMES_PER_MEMBERSHIP)%nat
}.

Definition status_ok (mb : Mailbox) : Prop :=
  match mb_status mb with
  | MailboxStatus_Waiting => mb_claimant mb = None
  | MailboxStatus_Paired => is_Some (mb_claimant mb)
  | MailboxStatus_Terminal _ => True
  end.

Definition admission_ok (mb : Mailbox) : Prop :=
  match mb_admission mb, mb_status mb with
  | AdmissionSnapshot_V1, _ => True
  | AdmissionSnapshot_V2Pending _, MailboxStatus_Waiting
  | AdmissionSnapshot_V2Claimed, MailboxStatus_Paired
  | AdmissionSnapshot_V2Closed, MailboxStatus_Terminal _ => mb_nameplate mb = None
  | _, _ => False
  end.

Record mailbox_ok (mb : Mailbox) : Prop := {
  ok_nameplate : forall n, mb_nameplate mb = Some n -> n <= MAX_NAMEPLATE;
  ok_allocator : member_ok (mb_allocator mb);
  ok_claimant : forall c, mb_claimant mb = Some c -> member_ok c;
  ok_queue : mb_queue_bytes mb = live_bytes (mb_allocator mb) (mb_claimant mb);
  ok_status : status_ok mb;
  ok_admission : admission_ok mb
}.

Record mailbox_wf (mb : Mailbox) : Prop := {
  wf_ok : mailbox_ok mb;
  wf_distinct : forall c, mb_claimant mb = Some c -> ms_hash c <> ms_hash (mb_allocator mb);
  wf_terminal : is_terminal (mb_status mb) = true -> mb_queue_bytes mb = 0
}.

(** ** Frames *)

Lemma frames_ok_app i l k :
  frames_ok i (l ++ k) <-> frames_ok i l /\ frames_ok (i + Z.of_nat (length l)) k.
Proof.
  revert i. induction l as [|f l IH]; intros i; simpl.
  - replace (i + Z.of_nat 0) with i by lia. tauto.
  - rewrite IH. replace (i + Z.of_nat (S (length l))) with (i + 1 + Z.of_nat (length l)) by lia.
    tauto.
Qed.

Lemma frames_ok_lookup i l n f :
  frames_ok i l -> l !! n = Some f -> frame_ok (i + Z.of_nat n) f.
Proof.
  revert i n. induction l as [|g l IH]; intros i [|n]; simpl; try done.
  - intros [Hg _] [= ->]. by replace (i + Z.of_nat 0) with i by lia.
  - intros [_ Hl] Hn. replace (i + Z.of_nat (S n)) with (i + 1 + Z.of_nat n) by lia. eauto.
Qed.

Lemma frames_ok_elem i l f : frames_ok i l -> f ∈ l -> exists j, frame_ok j f.
Proof. intros Hl [n Hn]%list_elem_of_lookup. eauto using frames_ok_lookup. Qed.

Lemma frame_ok_take i f : frame_ok i f -> frame_ok i (take_body f).
Proof. intros [? ? ?]. by split. Qed.

Lemma frames_ok_take i l : frames_ok i l -> frames_ok i (map take_body l).
Proof. revert i. induction l; simpl; naive_solver eauto using frame_ok_take. Qed.

Lemma frame_bytes_bound i f : frame_ok i f -> 0 <= frame_bytes f <= MAX_FRAME_BODY_BYTES.
Proof. intros [_ ? _]. unfold frame_bytes. case_goal; lia. Qed.

Lemma member_bytes_bound m :
  member_ok m -> 0 <= member_bytes m <= MAX_FRAME_BODY_BYTES * 16.
Proof.
  intros [Hf _ Hb]. unfold member_bytes. split.
  - apply sum_with_nonneg. intros f Hin. edestruct frames_ok_elem as [j Hj]; eauto.
    pose proof (frame_bytes_bound j f Hj). lia.
  - transitivity (MAX_FRAME_BODY_BYTES * Z.of_nat (length (ms_frames m))).
    + apply sum_with_bound. intros f Hin. edestruct frames_ok_elem as [j Hj]; eauto.
      pose proof (frame_bytes_bound j f Hj). lia.
    + unfold MAX_FRAMES_PER_MEMBERSHIP, MAX_FRAME_BODY_BYTES in *. lia.
Qed.

Lemma live_bytes_bound mb :
  mailbox_ok mb -> 0 <= mb_queue_bytes mb <= MAX_FRAME_BODY_BYTES * 32.
Proof.
  intros Hok. rewrite (ok_queue _ Hok). unfold live_bytes.
  pose proof (member_bytes_bound _ (ok_allocator _ Hok)).
  destruct (mb_claimant mb) as [c|] eqn:Hc; [|unfold MAX_FRAME_BODY_BYTES in *; lia].
  pose proof (member_bytes_bound _ (ok_claimant _ Hok c Hc)). lia.
Qed.

Lemma member_ok_new h : member_ok (new_member h).
Proof. split; simpl; unfold MAX_FRAMES_PER_MEMBERSHIP; auto with lia. Qed.

Lemma member_ok_lookup mb m ms : mailbox_ok mb -> member mb m = Some ms -> member_ok ms.
Proof. intros [? ? ? ? ? ?]. destruct m; simpl; naive_solver. Qed.

Lemma find_frame_ok i l seq :
  frames_ok i l -> i <= seq < i + Z.of_nat (length l) ->
  find_frame seq l = l !! Z.to_nat (seq - i).
Proof.
  unfold find_frame. revert i. induction l as [|f l IH]; intros i; simpl; [lia|].
  intros [Hf Hl] Hr. rewrite (fo_seq _ _ Hf). destruct (i =? seq) eqn:E; bool_to_prop.
  - by replace (Z.to_nat (seq - i)) with 0%nat by lia.
  - rewrite (IH (i + 1)) by (auto; lia).
    by replace (Z.to_nat (seq - i)) with (S (Z.to_nat (seq - (i + 1)))) by lia.
Qed.

Lemma take_frame_ok i l seq :
  frames_ok i l ->
  take_frame seq l =
    f ← l !! Z.to_nat (seq - i);
    (if i <=? seq then Some (<[Z.to_nat (seq - i) := take_body f]> l, f) else None).
Proof.
  revert i. induction l as [|f l IH]; intros i; simpl; [done|].
  intros [Hf Hl]. rewrite (fo_seq _ _ Hf). destruct (i =? seq) eqn:E; bool_to_prop.
  - subst. rewrite Z.sub_diag, Z.leb_refl. done.
  - rewrite (IH (i + 1)) by done. destruct (i <=? seq) eqn:E2; bool_to_prop.
    + replace (Z.to_nat (seq - i)) with (S (Z.to_nat (seq - (i + 1)))) by lia. simpl.
      replace (i + 1 <=? seq) with true by (symmetry; apply Z.leb_le; lia).
      by destruct (l !! _).
    + replace (i + 1 <=? seq) with false by (symmetry; apply Z.leb_gt; lia).
      destruct (l !! _); simpl; by destruct ((f :: l) !! _).
Qed.

Lemma frames_ok_insert i l n f :
  frames_ok i l -> frame_ok (i + Z.of_nat n) f -> frames_ok i (<[n := f]> l).
Proof.
  revert i n. induction l as [|g l IH]; intros i [|n]; simpl; try done.
  - intros [Hg Hl]. by replace (i + Z.of_nat 0) with i by lia.
  - intros [Hg Hl] Hf. split; [done|]. apply IH; [done|].
    by replace (i + 1 + Z.of_nat n) with (i + Z.of_nat (S n)) by lia.
Qed.

Lemma sum_frame_bytes_take l n f :
  l !! n = Some f ->
  sum_with frame_bytes (<[n := take_body f]> l) = sum_with frame_bytes l - frame_bytes f.
Proof.
  revert n. induction l as [|g l IH]; intros [|n]; simpl; try done.
  - intros [= ->]. unfold frame_bytes at 1. simpl. lia.
  - intros Hn. rewrite (IH n Hn). lia.
Qed.

(** ** Body deletion, in closed form *)

Definition deleted_effects (owner : Membership) (l : list FrameRecord) : list MailboxEffect :=
  omap (fun f => _ ← fr_body f; Some (MailboxEffect_BodyDeleted owner (fr_seq f))) l.

Lemma deleted_effects_cons owner f l :
  deleted_effects owner (f :: l) =
  match fr_body f with
  | Some _ => MailboxEffect_BodyDeleted owner (fr_seq f) :: deleted_effects owner l
  | None => deleted_effects owner l
  end.
Proof. unfold deleted_effects. simpl. by destruct (fr_body f). Qed.

Lemma deliveries_cons m f l :
  deliveries m (f :: l) =
  match fr_body f with
  | Some b => MailboxEffect_Deliver m (fr_seq f) b :: deliveries m l
  | None => deliveries m l
  end.
Proof. unfold deliveries. simpl. by destruct (fr_body f). Qed.

Lemma take_body_none f : fr_body f = None -> take_body f = f.
Proof. destruct f; simpl. by intros ->. Qed.

Lemma delete_frames_eq i owner l q :
  frames_ok i l -> sum_with frame_bytes l <= q ->
  delete_frames owner l q =
    Ok (map take_body l, q - sum_with frame_bytes l, deleted_effects owner l).
Proof.
  revert i q. induction l as [|f l IH]; intros i q; simpl.
  - intros _ _. by replace (q - 0) with q by lia.
  - intros [Hf Hl] Hq. unfold frame_bytes at 1 in Hq.
    assert (0 <= sum_with frame_bytes l).
    { apply sum_with_nonneg. intros g Hg. edestruct frames_ok_elem as [j Hj]; eauto.
      pose proof (frame_bytes_bound j g Hj). lia. }
    unfold frame_bytes at 1. unfold deleted_effects. simpl.
    destruct (fr_body f) as [b|] eqn:Hb; simpl.
    + rewrite expect_sub by lia. simpl. rewrite (IH (i + 1)) by (auto; lia). simpl.
      by replace (q - fr_body_len f - sum_with frame_bytes l)
        with (q - (fr_body_len f + sum_with frame_bytes l)) by lia.
    + rewrite (IH (i + 1)) by (auto; lia). simpl. by rewrite take_body_none.
Qed.

Definition strip (m : MemberState) : MemberState := with_frames m (map take_body (ms_frames m)).

(** The mailbox without its bodies. *)
Definition emptied (mb : Mailbox) : Mailbox :=
  with_members mb (strip (mb_allocator mb)) (strip <$> mb_claimant mb) 0.

Definition all_deleted (mb : Mailbox) : list MailboxEffect :=
  deleted_effects Membership_Allocator (ms_frames (mb_allocator mb)) ++
  match mb_claimant mb with
  | Some c => deleted_effects Membership_Claimant (ms_frames c)
  | None => []
  end.

Lemma delete_bodies_eq mb :
  mailbox_ok mb -> delete_bodies mb = Ok (emptied mb, all_deleted mb).
Proof.
  intros Hok. pose proof (ok_queue _ Hok) as Hq. unfold live_bytes in Hq.
  pose proof (member_bytes_bound _ (ok_allocator _ Hok)) as Ha.
  unfold delete_bodies, emptied, all_deleted.
  destruct (mb_claimant mb) as [c|] eqn:Hc.
  - pose proof (ok_claimant _ Hok c Hc) as Hco. pose proof (member_bytes_bound _ Hco) as Hcb.
    unfold member_bytes in *.
    rewrite (delete_frames_eq 0) by (first [apply (mo_frames _ (ok_allocator _ Hok)) | lia]). simpl.
    rewrite (delete_frames_eq 0) by (first [apply (mo_frames _ Hco) | lia]). simpl.
    
    by replace (mb_queue_bytes mb - sum_with frame_bytes (ms_frames (mb_allocator mb)) -
             sum_with frame_bytes (ms_frames c)) with 0 by lia.
  - unfold member_bytes in *.
    rewrite (delete_frames_eq 0) by (first [apply (mo_frames _ (ok_allocator _ Hok)) | lia]). simpl.
    rewrite app_nil_r.
    by replace (mb_queue_bytes mb - sum_with frame_bytes (ms_frames (mb_allocator mb))) with 0 by lia.
Qed.

Lemma member_bytes_strip m : member_bytes (strip m) = 0.
Proof.
  unfold member_bytes, strip; simpl. induction (ms_frames m) as [|f l IH]; simpl; [done|].
  rewrite IH. done.
Qed.

Lemma member_ok_strip m : member_ok m -> member_ok (strip m).
Proof.
  intros [? ? ?]. split; simpl; rewrite ?length_map; auto using frames_ok_take.
Qed.

Lemma live_bytes_emptied mb : live_bytes (strip (mb_allocator mb)) (strip <$> mb_claimant mb) = 0.
Proof.
  unfold live_bytes. rewrite member_bytes_strip.
  destruct (mb_claimant mb); simpl; by rewrite ?member_bytes_strip.
Qed.

(** One queued body never exceeds the counter. *)
Lemma frame_le_queue mb m ms n f :
  mailbox_ok mb -> member mb m = Some ms -> ms_frames ms !! n = Some f ->
  frame_bytes f <= mb_queue_bytes mb.
Proof.
  intros Hok Hm Hf. rewrite (ok_queue _ Hok). unfold live_bytes.
  pose proof (member_bytes_bound _ (ok_allocator _ Hok)).
  assert (frame_bytes f <= member_bytes ms).
  { apply sum_with_elem; [|by eapply list_elem_of_lookup_2].
    pose proof (member_ok_lookup _ _ _ Hok Hm) as [Hfs _ _].
    intros g Hg. edestruct frames_ok_elem as [j Hj]; eauto.
    pose proof (frame_bytes_bound j g Hj). lia. }
  destruct m; simpl in Hm; [|rewrite Hm; lia]. simplify_eq.
  destruct (mb_claimant mb) as [c|] eqn:Hc; [|lia].
  pose proof (member_bytes_bound _ (ok_claimant _ Hok c Hc)). lia.
Qed.

(** ** Preservation *)

(** What a termination leaves behind. *)
Definition closed_mailbox (mb : Mailbox) (reason : CloseReason) : Mailbox :=
  with_status (emptied mb) (MailboxStatus_Terminal reason)
    (match mb_admission mb with AdmissionSnapshot_V1 => AdmissionSnapshot_V1
                              | _ => AdmissionSnapshot_V2Closed end).

Lemma terminate_eq mb reason :
  mailbox_ok mb ->
  terminate mb reason =
    Ok (mkMailboxTransition (Some (closed_mailbox mb reason))
          (all_deleted mb ++ [MailboxEffect_Terminal reason])).
Proof. intros Hok. unfold terminate. rewrite delete_bodies_eq by done. done. Qed.

Lemma nameplate_v2 mb :
  mailbox_ok mb -> mb_admission mb <> AdmissionSnapshot_V1 -> mb_nameplate mb = None.
Proof.
  intros Hok. pose proof (ok_admission _ Hok) as Ha. unfold admission_ok in Ha.
  destruct (mb_admission mb), (mb_status mb); naive_solver.
Qed.

Lemma closed_mailbox_ok mb reason : mailbox_ok mb -> mailbox_ok (closed_mailbox mb reason).
Proof.
  intros Hok. split; unfold status_ok, admission_ok; simpl.
  - apply (ok_nameplate _ Hok).
  - apply member_ok_strip, (ok_allocator _ Hok).
  - intros c (c' & Hc & ->)%fmap_Some. apply member_ok_strip. by apply (ok_claimant _ Hok).
  - symmetry. apply live_bytes_emptied.
  - done.
  - destruct (mb_admission mb) eqn:E; simpl; try done; apply nameplate_v2; auto; congruence.
Qed.

Lemma closed_mailbox_wf mb reason : mailbox_wf mb -> mailbox_wf (closed_mailbox mb reason).
Proof.
  intros [Hok Hd Ht]. split; simpl.
  - by apply closed_mailbox_ok.
  - intros c (c' & Hc & ->)%fmap_Some. simpl. auto.
  - done.
Qed.

Lemma install_claimant_ok mb h ad mb' :
  mailbox_ok mb -> mb_claimant mb = None ->
  (ad = AdmissionSnapshot_V1 \/ (ad = AdmissionSnapshot_V2Claimed /\ mb_nameplate mb = None)) ->
  mt_state (install_claimant mb h ad) = Some mb' -> mailbox_ok mb'.
Proof.
  intros Hok Hc Had [= <-]. split; unfold status_ok, admission_ok; simpl; eauto.
  - apply (ok_nameplate _ Hok).
  - apply (ok_allocator _ Hok).
  - intros c [= <-]. apply member_ok_new.
  - rewrite (ok_queue _ Hok). unfold live_bytes. by rewrite Hc.
  - destruct Had as [->|[-> ?]]; done.
Qed.

(** Replacing one member's frames, with the counter moved accordingly. *)
Lemma set_member_ok mb m ms ms' q :
  mailbox_ok mb -> member mb m = Some ms -> member_ok ms' ->
  q = mb_queue_bytes mb - member_bytes ms + member_bytes ms' ->
  mailbox_ok (set_member mb m ms' q).
Proof.
  intros [? Ha Hc Hq0 Hst Had] Hm Hms' Hq. unfold status_ok, admission_ok, live_bytes in *.
  destruct m; simpl in *; split; unfold status_ok, admission_ok, live_bytes; simpl; auto.
  - simplify_eq. lia.
  - naive_solver.
  - rewrite Hm in Hq0. lia.
  - destruct (mb_status mb); naive_solver.
Qed.

Lemma set_member_fields mb m ms q :
  let mb' := set_member mb m ms q in
  mb_status mb' = mb_status mb /\ mb_admission mb' = mb_admission mb /\
  mb_queue_bytes mb' = q /\ mb_mailbox_id mb' = mb_mailbox_id mb /\
  mb_nameplate mb' = mb_nameplate mb /\ mb_expires_at mb' = mb_expires_at mb.
Proof. by destruct m. Qed.
End Invariant.
