(* ===== verification/MailboxStep.v ===== *)
(** * The mailbox as a state machine, and its snapshots

    [mailbox_step] states, rule by rule, what an accepted command does;
    [transition_sound] shows that the executable [transition] takes exactly
    such steps and never panics, and the invariants of [MailboxInv] follow by
    case analysis on the rules.  [reachable] closes the rules over sequences
    of commands.  [from_snapshot] accepts exactly the snapshots of mailboxes
    that satisfy [mailbox_ok]. *)

From S2P Require Import Prelude External Wire Mailbox MailboxInv.

Section Step.
Context `{Sha256}.

Definition live (mb : Mailbox) (now : Z) : Prop :=
  now < mb_expires_at mb /\ is_terminal (mb_status mb) = false.

(** The sender's state after storing [body] at its next sequence. *)
Definition store_frame (m : MemberState) (body : bytes) : MemberState :=
  mkMemberState (ms_hash m) (ms_next_seq m + 1)
    (ms_frames m ++ [mkFrameRecord (ms_next_seq m) (sha256 body) (blen body) (Some body)]).

(** The owner's state after the peer acknowledged the frame at index [n]. *)
Definition ack_frame (m : MemberState) (n : nat) (f : FrameRecord) : MemberState :=
  with_frames m (<[n := take_body f]> (ms_frames m)).

Definition body_size_ok (body : bytes) : Prop := 0 < blen body <= MAX_FRAME_BODY_BYTES.

Inductive mailbox_step (mb : Mailbox) (now : Z) : MailboxCommand -> MailboxTransition -> Prop :=
| step_reap cmd :
    mb_expires_at mb <= now ->
    mailbox_step mb now cmd (mkMailboxTransition None
      (all_deleted mb ++ if is_terminal (mb_status mb) then []
                         else [MailboxEffect_Terminal CloseReason_Expired]))
| step_claim h :
    live mb now -> mb_admission mb = AdmissionSnapshot_V1 -> mb_claimant mb = None ->
    h <> ms_hash (mb_allocator mb) ->
    mailbox_step mb now (MailboxCommand_Claim h) (install_claimant mb h AdmissionSnapshot_V1)
| step_crowd h c :
    live mb now -> mb_admission mb = AdmissionSnapshot_V1 -> mb_claimant mb = Some c ->
    h <> ms_hash (mb_allocator mb) -> h <> ms_hash c ->
    mailbox_step mb now (MailboxCommand_Claim h)
      (mkMailboxTransition (Some (closed_mailbox mb CloseReason_Crowded))
         (all_deleted mb ++ [MailboxEffect_Terminal CloseReason_Crowded]))
| step_claim_v2 h token :
    live mb now ->
    mb_admission mb = AdmissionSnapshot_V2Pending (claim_commitment (mb_mailbox_id mb) token) ->
    mb_claimant mb = None -> h <> ms_hash (mb_allocator mb) ->
    mailbox_step mb now (MailboxCommand_ClaimV2 h token)
      (install_claimant mb h AdmissionSnapshot_V2Claimed)
| step_open h m :
    live mb now -> membership_for_hash mb h = Some m ->
    mailbox_step mb now (MailboxCommand_Open h) (mkMailboxTransition (Some mb)
      (MailboxEffect_Opened m (mb_expires_at mb) ::
       match member mb (peer m) with Some p => deliveries m (ms_frames p) | None => [] end))
| step_store sender ms body :
    live mb now -> member mb sender = Some ms -> body_size_ok body ->
    (length (ms_frames ms) < MAX_FRAMES_PER_MEMBERSHIP)%nat ->
    mailbox_step mb now (MailboxCommand_Put sender (ms_next_seq ms) body)
      (mkMailboxTransition
         (Some (set_member mb sender (store_frame ms body) (mb_queue_bytes mb + blen body)))
         (MailboxEffect_Stored sender (ms_next_seq ms) false ::
          match member mb (peer sender) with
          | Some _ => [MailboxEffect_Deliver (peer sender) (ms_next_seq ms) body]
          | None => []
          end))
| step_replay sender ms n f body :
    live mb now -> member mb sender = Some ms -> body_size_ok body ->
    ms_frames ms !! n = Some f -> fr_body_len f = blen body -> fr_digest f = sha256 body ->
    mailbox_step mb now (MailboxCommand_Put sender (Z.of_nat n) body)
      (mkMailboxTransition (Some mb) [MailboxEffect_Stored sender (Z.of_nat n) true])
| step_conflict sender ms n f body :
    live mb now -> member mb sender = Some ms -> body_size_ok body ->
    ms_frames ms !! n = Some f -> (fr_body_len f <> blen body \/ fr_digest f <> sha256 body) ->
    mailbox_step mb now (MailboxCommand_Put sender (Z.of_nat n) body)
      (mkMailboxTransition (Some (closed_mailbox mb CloseReason_Conflict))
         (all_deleted mb ++ [MailboxEffect_Terminal CloseReason_Conflict]))
| step_ack sender s p n f :
    live mb now -> member mb sender = Some s -> member mb (peer sender) = Some p ->
    ms_frames p !! n = Some f ->
    mailbox_step mb now (MailboxCommand_Ack sender (Z.of_nat n))
      (mkMailboxTransition
         (Some (set_member mb (peer sender) (ack_frame p n f) (mb_queue_bytes mb - frame_bytes f)))
         (match fr_body f with
          | Some _ => [MailboxEffect_BodyDeleted (peer sender) (Z.of_nat n)]
          | None => []
          end))
| step_close sender s :
    live mb now -> member mb sender = Some s ->
    mailbox_step mb now (MailboxCommand_Close sender)
      (mkMailboxTransition (Some (closed_mailbox mb CloseReason_Closed))
         (all_deleted mb ++ [MailboxEffect_Terminal CloseReason_Closed])).

(** ** The branches take steps *)

(** The shape every branch lemma has. *)
Definition sound (mb : Mailbox) (now : Z) (cmd : MailboxCommand)
    (r : outcome MailboxError MailboxTransition) : Prop :=
  match r with Ok t => mailbox_step mb now cmd t | Err _ => True | Panic => False end.

Lemma member_set_member mb m ms q : member (set_member mb m ms q) m = Some ms.
Proof. by destruct m. Qed.

Lemma member_set_member_ne mb m ms q : member (set_member mb m ms q) (peer m) = member mb (peer m).
Proof. by destruct m. Qed.

Lemma put_sound mb now sender seq body :
  mailbox_ok mb -> live mb now ->
  0 <= seq -> sound mb now (MailboxCommand_Put sender seq body) (transition_put mb sender seq body).
Proof.
  intros Hok Hlive Hseq. unfold transition_put.
  destruct (_ || _) eqn:Hsize; [done|]. bool_to_prop. pose proof (blen_nonneg body).
  assert (body_size_ok body) as Hbody by (unfold body_size_ok; lia).
  destruct (member mb sender) as [ms|] eqn:Hms; simpl; [|done].
  pose proof (member_ok_lookup _ _ _ Hok Hms) as [Hf Hn Hb].
  destruct (seq <? ms_next_seq ms) eqn:Hlt; bool_to_prop.
  - rewrite (find_frame_ok 0) by (auto; lia). rewrite Z.sub_0_r.
    destruct (ms_frames ms !! Z.to_nat seq) as [f|] eqn:Hfr; simpl; [|done].
    destruct (_ && _) eqn:Heq.
    + bool_to_prop. rewrite <- (Z2Nat.id seq) by lia. eapply step_replay; eauto.
    + rewrite terminate_eq by done. simpl. rewrite <- (Z2Nat.id seq) by lia.
      eapply step_conflict; eauto. apply andb_false_iff in Heq as [?|?]; bool_to_prop; auto.
  - destruct (ms_next_seq ms <? seq) eqn:Hgt; [done|]. bool_to_prop.
    assert (seq = ms_next_seq ms) as -> by lia.
    destruct (_ || _) eqn:Hlim; [done|]. apply orb_false_iff in Hlim as [_ Hlim%Nat.leb_gt].
    pose proof (live_bytes_bound _ Hok). unfold MAX_FRAMES_PER_MEMBERSHIP in *.
    rewrite (expect_add u8_max) by (unfold u8_max; lia). simpl.
    rewrite (expect_add u64_max) by (unfold u64_max, MAX_FRAME_BODY_BYTES in *; lia). simpl.
    rewrite member_set_member_ne. by apply step_store.
Qed.

Lemma ack_sound mb now sender seq :
  mailbox_ok mb -> live mb now ->
  sound mb now (MailboxCommand_Ack sender seq) (transition_ack mb sender seq).
Proof.
  intros Hok Hlive. unfold transition_ack.
  destruct (member mb sender) as [s|] eqn:Hs; simpl; [|done].
  destruct (member mb (peer sender)) as [p|] eqn:Hp; simpl; [|done].
  pose proof (member_ok_lookup _ _ _ Hok Hp) as [Hf Hn Hb].
  rewrite (take_frame_ok 0) by done. rewrite Z.sub_0_r.
  destruct (ms_frames p !! Z.to_nat seq) as [f|] eqn:Hfr; simpl; [|done].
  destruct (0 <=? seq) eqn:Hseq; simpl; [|done]. bool_to_prop.
  pose proof (step_ack mb now sender s p (Z.to_nat seq) f Hlive Hs Hp Hfr) as Hstep.
  rewrite Z2Nat.id in Hstep by done. unfold frame_bytes in Hstep.
  pose proof (frame_le_queue _ _ _ _ _ Hok Hp Hfr) as Hle.
  unfold frame_bytes in Hle. destruct (fr_body f) eqn:Hbody; simpl.
  - rewrite expect_sub by done. simpl. exact Hstep.
  - rewrite Z.sub_0_r in Hstep. exact Hstep.
Qed.

Lemma claim_sound mb now h :
  mailbox_ok mb -> live mb now ->
  sound mb now (MailboxCommand_Claim h) (transition_claim mb h).
Proof.
  intros Hok Hlive. unfold transition_claim. destruct (mb_admission mb) eqn:Had; try done.
  case_bool_decide; [done|]. destruct (mb_claimant mb) as [c|] eqn:Hc.
  - case_bool_decide; [done|]. rewrite terminate_eq by done. eapply step_crowd; eauto.
  - by apply step_claim.
Qed.

Lemma claim_v2_sound mb now h token :
  mailbox_ok mb -> live mb now ->
  sound mb now (MailboxCommand_ClaimV2 h token) (transition_claim_v2 mb h token).
Proof.
  intros Hok Hlive. unfold transition_claim_v2. destruct (mb_admission mb) eqn:Had; try done.
  case_bool_decide as Hcommit; simpl; [|done]. subst.
  case_bool_decide; simpl; [done|]. case_bool_decide; simpl; [|done]. by apply step_claim_v2.
Qed.

Lemma open_sound mb now h :
  mailbox_ok mb -> live mb now ->
  sound mb now (MailboxCommand_Open h) (transition_open mb h).
Proof.
  intros Hok Hlive. unfold transition_open.
  destruct (membership_for_hash mb h) eqn:Hm; simpl; [|done]. by apply step_open.
Qed.

Lemma close_sound mb now s :
  mailbox_ok mb -> live mb now ->
  sound mb now (MailboxCommand_Close s) (transition_close mb s).
Proof.
  intros Hok Hlive. unfold transition_close. destruct (member mb s) eqn:Hs; [|done].
  rewrite terminate_eq by done. by eapply step_close.
Qed.

Definition command_typed (cmd : MailboxCommand) : Prop :=
  match cmd with MailboxCommand_Put _ seq _ => 0 <= seq <= u8_max | _ => True end.

Lemma transition_sound mb now cmd :
  mailbox_ok mb -> command_typed cmd -> sound mb now cmd (transition mb now cmd).
Proof.
  intros Hok Hty. unfold transition.
  destruct (mb_expires_at mb <=? now) eqn:Hexp; bool_to_prop.
  { unfold reap. rewrite (proj2 (Z.ltb_ge _ _)) by lia.
    rewrite delete_bodies_eq by done. simpl. by apply step_reap. }
  assert (is_terminal (mb_status mb) = false -> live mb now) as Hlive by (by split).
  destruct (mb_status mb) as [| |r]; [| |done]; specialize (Hlive eq_refl).
  all: destruct cmd as [h|h token|h|s q b|s q|s];
    [by apply claim_sound | by apply claim_v2_sound | by apply open_sound
    | apply put_sound; simpl in *; auto; lia | by apply ack_sound | by apply close_sound].
Qed.

(** ** Steps preserve the invariants *)

Lemma frames_ok_snoc l body :
  frames_ok 0 l -> body_size_ok body ->
  frames_ok 0 (l ++ [mkFrameRecord (Z.of_nat (length l)) (sha256 body) (blen body) (Some body)]).
Proof.
  intros Hl Hb. apply frames_ok_app. split; [done|]. simpl. split; [|done].
  split; simpl; [lia|done|naive_solver].
Qed.

Lemma member_ok_store m body :
  member_ok m -> body_size_ok body -> (length (ms_frames m) < MAX_FRAMES_PER_MEMBERSHIP)%nat ->
  member_ok (store_frame m body).
Proof.
  intros [Hf Hn Hb] Hbody Hlt. split; simpl.
  - rewrite Hn. by apply frames_ok_snoc.
  - rewrite length_app. simpl. lia.
  - rewrite length_app. simpl. lia.
Qed.

Lemma member_bytes_store m body :
  member_bytes (store_frame m body) = member_bytes m + blen body.
Proof. unfold member_bytes. simpl. rewrite sum_with_app. simpl. unfold frame_bytes at 2. simpl. lia. Qed.

Lemma member_ok_ack m n f :
  member_ok m -> ms_frames m !! n = Some f -> member_ok (ack_frame m n f).
Proof.
  intros [Hf Hn Hb] Hfr. split; simpl; rewrite ?length_insert; auto.
  apply frames_ok_insert; [done|]. apply frame_ok_take. by eapply frames_ok_lookup.
Qed.

Lemma member_bytes_ack m n f :
  ms_frames m !! n = Some f -> member_bytes (ack_frame m n f) = member_bytes m - frame_bytes f.
Proof. intros Hfr. unfold member_bytes. simpl. by apply sum_frame_bytes_take. Qed.

Lemma step_ok mb now cmd t mb' :
  mailbox_ok mb -> mailbox_step mb now cmd t -> mt_state t = Some mb' -> mailbox_ok mb'.
Proof.
  intros Hok Hstep. destruct Hstep; simpl; intros Heq; simplify_eq; eauto using closed_mailbox_ok.
  - apply (install_claimant_ok mb h AdmissionSnapshot_V1); auto.
  - apply (install_claimant_ok mb h AdmissionSnapshot_V2Claimed); auto. right. split; [done|].
    apply nameplate_v2; auto; congruence.
  - eapply set_member_ok; eauto using member_ok_store, member_ok_lookup.
    rewrite member_bytes_store. lia.
  - eapply set_member_ok; eauto using member_ok_ack, member_ok_lookup.
    erewrite member_bytes_ack by done. lia.
Qed.

(** What never changes: the identity of the mailbox, the original expiry, and
    the membership hashes once installed. *)
Lemma step_identity mb now cmd t mb' :
  mailbox_step mb now cmd t -> mt_state t = Some mb' ->
  mb_mailbox_id mb' = mb_mailbox_id mb /\ mb_nameplate mb' = mb_nameplate mb /\
  mb_expires_at mb' = mb_expires_at mb /\ membership_hashes mb `prefix_of` membership_hashes mb'.
Proof.
  unfold membership_hashes.
  intros Hstep. destruct Hstep; simpl; intros Heq; simplify_eq; simpl; auto.
  all: repeat match goal with Hc : mb_claimant _ = _ |- _ => rewrite Hc end; simpl.
  all: try (split_and!; [done..|by eexists [_]]); try done.
  - destruct sender; simpl in *; simplify_eq; simpl; [done|].
    by match goal with Hc : mb_claimant _ = _ |- _ => rewrite Hc end.
  - by destruct (mb_claimant mb).
  - destruct sender; simpl in *; simplify_eq; simpl; [|done].
    by match goal with Hc : mb_claimant _ = _ |- _ => rewrite Hc end.
  - by destruct (mb_claimant mb).
Qed.

Lemma step_wf mb now cmd t mb' :
  mailbox_wf mb -> mailbox_step mb now cmd t -> mt_state t = Some mb' -> mailbox_wf mb'.
Proof.
  intros Hwf Hstep Hmb'. pose proof (step_ok _ _ _ _ _ (wf_ok _ Hwf) Hstep Hmb') as Hok'.
  destruct Hwf as [Hok Hd Ht].
  assert (live mb now -> is_terminal (mb_status mb) = true -> False) as Hlive
    by (intros [_ ?] ?; congruence).
  split; [done| |].
  - destruct Hstep; simpl in *; simplify_eq; simpl; auto.
    + intros c [= <-]. done.
    + intros c' (c0 & Hc' & ->)%fmap_Some. simpl. auto.
    + intros c [= <-]. done.
    + destruct sender; simpl in *; simplify_eq; naive_solver.
    + intros c' (c0 & Hc' & ->)%fmap_Some. simpl. auto.
    + destruct sender; simpl in *; simplify_eq; naive_solver.
    + intros c' (c0 & Hc' & ->)%fmap_Some. simpl. auto.
  - destruct Hstep; simpl in *; simplify_eq; simpl; auto; try done.
    + destruct sender; simpl; intros; exfalso; eauto.
    + destruct sender; simpl; intros; exfalso; eauto.
Qed.
End Step.

(** ** Snapshots and their reconstruction

    [from_snapshot] accepts exactly the snapshots of mailboxes that satisfy
    [mailbox_ok]: it inverts [snapshot], and whatever it accepts satisfies the
    invariant and has the given snapshot up to the order of the sequences. *)

Section Restore.
Context `{Sha256}.

#[local] Instance sequence_le_trans : Transitive sequence_le.
Proof. intros x y z. unfold sequence_le. lia. Qed.
#[local] Instance sequence_le_total : Total sequence_le.
Proof. intros x y. unfold sequence_le. lia. Qed.

(** ** Sorting *)

Lemma contiguous_lookup i l n s :
  contiguous_from i l = true -> l !! n = Some s -> ss_seq s = i + Z.of_nat n.
Proof.
  revert i n. induction l as [|q l IH]; intros i [|n]; simpl; try done.
  - intros Hl [= ->]. bool_to_prop. lia.
  - intros Hl Hn. bool_to_prop. rewrite (IH (i + 1) n) by done. lia.
Qed.

Lemma contiguous_inj l x y :
  contiguous_from 0 l = true -> x ∈ l -> y ∈ l -> ss_seq x = ss_seq y -> x = y.
Proof.
  intros Hl [n Hn]%list_elem_of_lookup [k Hk]%list_elem_of_lookup Heq.
  rewrite (contiguous_lookup 0 l n x), (contiguous_lookup 0 l k y) in Heq by done.
  assert (n = k) as -> by lia. congruence.
Qed.

Lemma contiguous_sorted i l : contiguous_from i l = true -> StronglySorted sequence_le l.
Proof.
  revert i. induction l as [|q l IH]; intros i Hl; constructor; simpl in Hl; bool_to_prop; [eauto|].
  apply Forall_forall. intros s [n Hn]%list_elem_of_lookup.
  unfold sequence_le. rewrite (contiguous_lookup (i + 1) l n s) by done. lia.
Qed.

Lemma merge_sort_contiguous l : contiguous_from 0 l = true -> merge_sort sequence_le l = l.
Proof.
  intros Hl. pose proof (merge_sort_Permutation sequence_le l) as Hp.
  apply (StronglySorted_unique_strong sequence_le).
  - intros x y Hx Hy Hxy Hyx. rewrite Hp in Hx. eapply contiguous_inj; eauto.
    unfold sequence_le in *. lia.
  - apply (StronglySorted_merge_sort sequence_le).
  - by eapply contiguous_sorted.
  - done.
Qed.

(** ** Writing then reading *)

Lemma restore_snapshot_frame i owner f :
  frame_ok i f -> restore_frame (sequence_snapshot owner f) = Ok f.
Proof.
  intros [Hs Hl Hb]. unfold restore_frame. simpl.
  rewrite (proj2 (Z.eqb_neq _ _)), (proj2 (Z.ltb_ge _ _)) by lia. simpl.
  destruct f as [seq dig len [b|]]; simpl in *; [|done].
  destruct (Hb b eq_refl) as [-> ->].
  by rewrite Z.eqb_refl, bool_decide_eq_true_2.
Qed.

Lemma restore_snapshot_frames i owner l :
  frames_ok i l -> collect restore_frame (map (sequence_snapshot owner) l) = Ok l.
Proof.
  intros Hl. apply collect_roundtrip. apply Forall_forall. intros f Hf.
  edestruct frames_ok_elem as [j Hj]; eauto using restore_snapshot_frame.
Qed.

Lemma contiguous_snapshot i owner l :
  frames_ok i l -> contiguous_from i (map (sequence_snapshot owner) l) = true.
Proof.
  revert i. induction l as [|f l IH]; intros i; simpl; [done|].
  intros [Hf Hl]. rewrite (fo_seq _ _ Hf), Z.eqb_refl. simpl. auto.
Qed.

Lemma filter_owner_same owner l :
  filter (fun s => ss_owner s = owner) (map (sequence_snapshot owner) l) = map (sequence_snapshot owner) l.
Proof. induction l as [|f l IH]; [done|]. cbn [map]. rewrite filter_cons_True by done. by f_equal. Qed.

Lemma filter_owner_other owner owner' l :
  owner' <> owner ->
  filter (fun s => ss_owner s = owner) (map (sequence_snapshot owner') l) = [].
Proof. intros Hne. induction l as [|f l IH]; [done|]. cbn [map]. by rewrite filter_cons_False. Qed.

Lemma restore_snapshot_member owner ms seqs :
  member_ok ms ->
  filter (fun s => ss_owner s = owner) seqs = map (sequence_snapshot owner) (ms_frames ms) ->
  restore_member seqs owner (ms_hash ms) = Ok ms.
Proof.
  intros [Hf Hn Hb] Hfil. unfold restore_member. rewrite Hfil.
  rewrite merge_sort_contiguous by (by apply contiguous_snapshot).
  rewrite contiguous_snapshot, length_map by done. simpl. rewrite orb_false_r.
  replace (MAX_FRAMES_PER_MEMBERSHIP <? length (ms_frames ms))%nat with false
    by (symmetry; apply Nat.ltb_ge; lia).
  rewrite (restore_snapshot_frames 0) by done. simpl.
  rewrite (proj2 (try_into_some u8_max _ (Z.of_nat (length (ms_frames ms)))))
    by (unfold u8_max, MAX_FRAMES_PER_MEMBERSHIP in *; lia).
  simpl. rewrite <- Hn. by destruct ms.
Qed.

Lemma snapshot_shape_ok mb : mailbox_ok mb -> snapshot_shape (snapshot mb) = true.
Proof.
  intros [Hnp _ _ _ Hst Had]. unfold snapshot_shape, status_ok, admission_ok in *. simpl.
  unfold membership_hashes.
  assert (match mb_nameplate mb with Some v => MAX_NAMEPLATE <? v | None => false end = false) as ->.
  { destruct (mb_nameplate mb) as [n|]; [|done]. apply Z.ltb_ge. by apply Hnp. }
  destruct (mb_status mb), (mb_admission mb), (mb_claimant mb); simpl in *;
    try done; try (by rewrite bool_decide_eq_true_2); by destruct Hst.
Qed.

Lemma from_snapshot_snapshot mb : mailbox_ok mb -> from_snapshot (snapshot mb) = Ok mb.
Proof.
  intros Hok. unfold from_snapshot. rewrite snapshot_shape_ok by done. simpl.
  set (seqs := _ ++ _).
  rewrite (restore_snapshot_member Membership_Allocator (mb_allocator mb) seqs); [|apply Hok|].
  2: { unfold seqs. rewrite filter_app, filter_owner_same. destruct (mb_claimant mb); simpl;
       by rewrite ?filter_owner_other, ?app_nil_r. }
  simpl. unfold membership_hashes, seqs. destruct (mb_claimant mb) as [c|] eqn:Hc; simpl.
  - rewrite (restore_snapshot_member Membership_Claimant c); [|by apply (ok_claimant _ Hok)|].
    2: by rewrite filter_app, filter_owner_same, filter_owner_other.
    rewrite !ok_bind, bool_decide_eq_false_2 by done. rewrite andb_false_r.
    pose proof (ok_queue _ Hok) as Hq. rewrite Hc in Hq. rewrite <- Hq, <- Hc. by destruct mb.
  - rewrite andb_true_r, app_nil_r.
    replace (existsb _ _) with false.
    2: { symmetry. induction (ms_frames (mb_allocator mb)) as [|f l IH]; simpl; done. }
    pose proof (ok_queue _ Hok) as Hq. rewrite Hc in Hq. rewrite <- Hq, <- Hc. by destruct mb.
Qed.

(** ** Reading then writing *)

(** What the type of a snapshot already says: lengths are unsigned. *)
Definition snapshot_typed (s : MailboxSnapshot) : Prop :=
  Forall (fun q => 0 <= ss_body_len q) (sn_sequences s).

Lemma restore_frame_ok s f :
  0 <= ss_body_len s -> restore_frame s = Ok f ->
  frame_ok (ss_seq s) f /\ sequence_snapshot (ss_owner s) f = s.
Proof.
  unfold restore_frame. intros Hlen Hr.
  destruct (_ || _) eqn:Hsz; [done|]. bool_to_prop.
  destruct (ss_body s) as [b|] eqn:Hb.
  - destruct (_ || _) eqn:Hd; [done|]. bool_to_prop. injection Hr as <-.
    split; [|by destruct s; simpl in *; subst]. split; simpl; [done|lia|].
    intros b' [= <-]. done.
  - injection Hr as <-. split; [|by destruct s; simpl in *; subst]. split; simpl; [done|lia|done].
Qed.

Lemma collect_restore_ok i owner l frames :
  Forall (fun q => 0 <= ss_body_len q) l -> Forall (fun s => ss_owner s = owner) l ->
  contiguous_from i l = true -> collect restore_frame l = Ok frames ->
  frames_ok i frames /\ map (sequence_snapshot owner) frames = l.
Proof.
  intros Hty How Hc Hcol%collect_ok. revert i Hc.
  induction Hcol as [|s f l frames Hf _ IH]; intros i Hc; [done|]. inv Hty. inv How.
  simpl in Hc. bool_to_prop. subst. apply restore_frame_ok in Hf as [Hok Heq]; [|done].
  destruct (IH ltac:(done) ltac:(done) (ss_seq s + 1)) as [? <-]; [done|].
  simpl. rewrite Heq. done.
Qed.

Lemma restore_member_ok seqs owner hash ms :
  Forall (fun q => 0 <= ss_body_len q) seqs -> restore_member seqs owner hash = Ok ms ->
  member_ok ms /\ ms_hash ms = hash /\
  map (sequence_snapshot owner) (ms_frames ms) ≡ₚ filter (fun s => ss_owner s = owner) seqs.
Proof.
  intros Hty Hr. unfold restore_member in Hr.
  pose proof (merge_sort_Permutation sequence_le (filter (fun s => ss_owner s = owner) seqs)) as Hp.
  set (sorted := merge_sort _ _) in *.
  destruct (_ || _) eqn:Hbad; [done|]. apply orb_false_iff in Hbad as [Hlen%Nat.ltb_ge Hcont].
  bool_to_prop. apply bind_ok in Hr as (frames & Hcol & (next & Hnext & [= <-])%bind_ok).
  apply ok_or_ok, try_into_some in Hnext as [-> _].
  assert (forall q, q ∈ sorted -> ss_owner q = owner /\ q ∈ seqs) as Hin.
  { intros q Hq. rewrite Hp in Hq. by apply list_elem_of_filter in Hq. }
  apply (collect_restore_ok 0 owner) in Hcol as [Hok Hmap]; [| |by apply Forall_forall; naive_solver|done].
  2: { rewrite Forall_forall in Hty |- *. naive_solver. }
  assert (length frames = length sorted) as Hl by (by rewrite <- Hmap, length_map).
  split_and!; simpl; [split; simpl; [done|done|lia]|done|by rewrite Hmap].
Qed.

Lemma snapshot_shape_inv s :
  snapshot_shape s = true ->
  (forall n, sn_nameplate s = Some n -> n <= MAX_NAMEPLATE) /\
  ((exists h, sn_membership_hashes s = [h]) \/ (exists h h', sn_membership_hashes s = [h; h'])).
Proof.
  unfold snapshot_shape. intros Hs. repeat (apply andb_true_iff in Hs as [Hs ?]). split.
  - intros n Hn. rewrite Hn in Hs. bool_to_prop. done.
  - destruct (sn_membership_hashes s) as [|h [|h' [|]]]; naive_solver.
Qed.

Lemma owners_split seqs :
  seqs ≡ₚ filter (fun s => ss_owner s = Membership_Allocator) seqs ++
          filter (fun s => ss_owner s = Membership_Claimant) seqs.
Proof.
  induction seqs as [|s l IH]; [done|]. destruct (ss_owner s) eqn:Ho.
  - rewrite filter_cons_True, (filter_cons_False (fun s => ss_owner s = Membership_Claimant))
      by congruence. simpl. by rewrite <- IH.
  - rewrite filter_cons_False, (filter_cons_True (fun s => ss_owner s = Membership_Claimant))
      by congruence. rewrite <- Permutation_middle. by rewrite <- IH.
Qed.

Lemma shape_status s a c q :
  snapshot_shape s = true ->
  length (sn_membership_hashes s) = match c with Some _ => 2%nat | None => 1%nat end ->
  let mb := mkMailbox (sn_mailbox_id s) (sn_nameplate s) (sn_expires_at s) (sn_status s)
              (sn_admission s) a c q in
  status_ok mb /\ admission_ok mb.
Proof.
  unfold snapshot_shape, status_ok, admission_ok. simpl. intros Hs Hl.
  rewrite Hl in Hs.
  repeat (apply andb_true_iff in Hs as [Hs ?]).
  destruct (sn_status s), (sn_admission s), c; simpl in *; bool_to_prop; split; eauto; done.
Qed.

Lemma from_snapshot_sound s mb :
  snapshot_typed s -> from_snapshot s = Ok mb ->
  mailbox_ok mb /\ exists seqs, seqs ≡ₚ sn_sequences s /\
    snapshot mb = mkMailboxSnapshot (sn_mailbox_id s) (sn_nameplate s) (sn_expires_at s)
      (sn_status s) (sn_admission s) (sn_membership_hashes s) seqs.
Proof.
  intros Hty Hfs. unfold from_snapshot in Hfs.
  destruct (snapshot_shape s) eqn:Hshape; [|done]. simpl in Hfs.
  pose proof (snapshot_shape_inv s Hshape) as [Hnp Hhashes].
  pose proof (shape_status s) as Hst.
  destruct Hhashes as [[h Hh]|(h & h' & Hh)]; rewrite Hh in *; simpl in Hfs.
  - apply bind_ok in Hfs as (a & [Ha [Hah Hap]]%restore_member_ok & Hfs); [|done].
    simpl in Hfs. rewrite andb_true_r in Hfs. destruct (existsb _ _) eqn:Hex; [done|].
    injection Hfs as <-.
    destruct (Hst a None (live_bytes a None) Hshape eq_refl) as [Hs1 Hs2].
    split; [by split|]. unfold snapshot, membership_hashes. simpl. eexists.
    rewrite Hah, app_nil_r. split; [|done]. rewrite Hap. etransitivity; [|symmetry; apply owners_split].
    assert (filter (fun s => ss_owner s = Membership_Claimant) (sn_sequences s) = []) as ->;
      [|by rewrite app_nil_r].
    apply elem_of_nil_inv. intros q [Ho Hq]%list_elem_of_filter.
    assert (existsb (fun q => bool_decide (ss_owner q = Membership_Claimant)) (sn_sequences s) = true)
      as Hc; [|congruence].
    apply existsb_exists. exists q. rewrite <- list_elem_of_In. by rewrite bool_decide_eq_true_2.
  - apply bind_ok in Hfs as (a & [Ha [Hah Hap]]%restore_member_ok & Hfs); [|done].
    apply bind_ok in Hfs as (c' & Hc' & Hfs).
    apply bind_ok in Hc' as (c & [Hc [Hch Hcp]]%restore_member_ok & [= <-]); [|done].
    rewrite bool_decide_eq_false_2, andb_false_r in Hfs by done. injection Hfs as <-.
    destruct (Hst a (Some c) (live_bytes a (Some c)) Hshape eq_refl) as [Hs1 Hs2].
    split; [split; try done; by intros ? [= <-]|]. unfold snapshot, membership_hashes. simpl.
    eexists. rewrite Hah, Hch. split; [|done]. by rewrite Hap, Hcp, <- owners_split.
Qed.
End Restore.
