(* ===== verification/MailboxSpec.v ===== *)
(** * What a mailbox promises, and that it keeps it

    The abstract mailbox remembers, for each membership, the list of bodies it
    ever stored, each with a flag that says whether it was released.  There are
    no digests, no sequence counters and no byte accounting: a retry is
    compared with the stored body itself.  [refinement] shows that
    [transition] answers every command exactly as the abstract mailbox does,
    unless two different bodies of equal length with equal SHA-256 digests
    are at hand. *)

From S2P Require Import Prelude External Wire Mailbox MailboxInv MailboxStep.

Record AMember := mkAMember { am_hash : bytes; am_log : list (bytes * bool) }.

Record AMailbox := mkAMailbox {
  a_mailbox_id : bytes;
  a_expires_at : Z;
  a_status : MailboxStatus;
  a_admission : AdmissionSnapshot;
  a_allocator : AMember;
  a_claimant : option AMember
}.

Definition a_member (a : AMailbox) (m : Membership) : option AMember :=
  match m with
  | Membership_Allocator => Some (a_allocator a)
  | Membership_Claimant => a_claimant a
  end.

Definition a_set (a : AMailbox) (m : Membership) (am : AMember) : AMailbox :=
  match m with
  | Membership_Allocator =>
      mkAMailbox (a_mailbox_id a) (a_expires_at a) (a_status a) (a_admission a) am (a_claimant a)
  | Membership_Claimant =>
      mkAMailbox (a_mailbox_id a) (a_expires_at a) (a_status a) (a_admission a) (a_allocator a) (Some am)
  end.

(** The bodies still held, with their positions. *)
Fixpoint a_pending (i : Z) (log : list (bytes * bool)) : list (Z * bytes) :=
  match log with
  | [] => []
  | (b, false) :: log => (i, b) :: a_pending (i + 1) log
  | (_, true) :: log => a_pending (i + 1) log
  end.

Definition a_release (am : AMember) : AMember :=
  mkAMember (am_hash am) (map (fun e => (e.1, true)) (am_log am)).

Definition a_deleted (m : Membership) (am : AMember) : list MailboxEffect :=
  map (fun p => MailboxEffect_BodyDeleted m p.1) (a_pending 0 (am_log am)).

Definition a_all_deleted (a : AMailbox) : list MailboxEffect :=
  a_deleted Membership_Allocator (a_allocator a) ++
  match a_claimant a with Some c => a_deleted Membership_Claimant c | None => [] end.

(** Terminal: every body released. *)
Definition a_close (a : AMailbox) (reason : CloseReason) : option AMailbox * list MailboxEffect :=
  (Some (mkAMailbox (a_mailbox_id a) (a_expires_at a) (MailboxStatus_Terminal reason)
           (match a_admission a with AdmissionSnapshot_V1 => AdmissionSnapshot_V1
                                   | _ => AdmissionSnapshot_V2Closed end)
           (a_release (a_allocator a)) (a_release <$> a_claimant a)),
   a_all_deleted a ++ [MailboxEffect_Terminal reason]).

Definition a_claim (a : AMailbox) (h : bytes) (ad : AdmissionSnapshot) :
    option AMailbox * list MailboxEffect :=
  (Some (mkAMailbox (a_mailbox_id a) (a_expires_at a) MailboxStatus_Paired ad
           (a_allocator a) (Some (mkAMember h []))),
   [MailboxEffect_Claimed Membership_Claimant (a_expires_at a)]).

Definition a_put (a : AMailbox) (sender : Membership) (seq : Z) (body : bytes) :
    outcome MailboxError (option AMailbox * list MailboxEffect) :=
  if negb (bool_decide (0 < blen body <= MAX_FRAME_BODY_BYTES)) then Err MailboxError_BodySize else
  am ← ok_or (a_member a sender) MailboxError_NotMember;
  match am_log am !! Z.to_nat seq with
  | Some (stored, _) =>
      if bool_decide (stored = body) then Ok (Some a, [MailboxEffect_Stored sender seq true])
      else Ok (a_close a CloseReason_Conflict)
  | None =>
      let len := length (am_log am) in
      if Z.of_nat len <? seq then Err (MailboxError_SequenceGap (Z.of_nat len) seq)
      else if (MAX_FRAMES_PER_MEMBERSHIP <=? len)%nat then Err MailboxError_FrameLimit
      else
        Ok (Some (a_set a sender (mkAMember (am_hash am) (am_log am ++ [(body, false)]))),
            MailboxEffect_Stored sender seq false ::
            match a_member a (peer sender) with
            | Some _ => [MailboxEffect_Deliver (peer sender) seq body]
            | None => []
            end)
  end.

Definition a_ack (a : AMailbox) (sender : Membership) (seq : Z) :
    outcome MailboxError (option AMailbox * list MailboxEffect) :=
  match a_member a sender with
  | None => Err MailboxError_NotMember
  | Some _ =>
      am ← ok_or (a_member a (peer sender)) MailboxError_UnknownSequence;
      '(body, released) ← ok_or (if 0 <=? seq then am_log am !! Z.to_nat seq else None)
                            MailboxError_UnknownSequence;
      Ok (Some (a_set a (peer sender)
                  (mkAMember (am_hash am) (<[Z.to_nat seq := (body, true)]> (am_log am)))),
          if (released : bool) then [] else [MailboxEffect_BodyDeleted (peer sender) seq])
  end.

Definition a_open (a : AMailbox) (h : bytes) :
    outcome MailboxError (option AMailbox * list MailboxEffect) :=
  let who := if bool_decide (am_hash (a_allocator a) = h) then Some Membership_Allocator
             else c ← a_claimant a;
                  (if bool_decide (am_hash c = h) then Some Membership_Claimant else None) in
  m ← ok_or who MailboxError_NotMember;
  Ok (Some a,
      MailboxEffect_Opened m (a_expires_at a) ::
      match a_member a (peer m) with
      | Some p => map (fun e => MailboxEffect_Deliver m e.1 e.2) (a_pending 0 (am_log p))
      | None => []
      end).

Section Spec.
Context `{Sha256}.

Definition spec_step (a : AMailbox) (now : Z) (cmd : MailboxCommand) :
    outcome MailboxError (option AMailbox * list MailboxEffect) :=
  if a_expires_at a <=? now then
    Ok (None, a_all_deleted a ++ if is_terminal (a_status a) then []
                                 else [MailboxEffect_Terminal CloseReason_Expired])
  else match a_status a with
  | MailboxStatus_Terminal reason => Err (MailboxError_Closed reason)
  | _ =>
      match cmd with
      | MailboxCommand_Claim h =>
          match a_admission a with
          | AdmissionSnapshot_V1 =>
              if bool_decide (h = am_hash (a_allocator a)) then Err MailboxError_MembershipCollision
              else match a_claimant a with
                   | None => Ok (a_claim a h AdmissionSnapshot_V1)
                   | Some c => if bool_decide (am_hash c = h) then Err MailboxError_MembershipCollision
                               else Ok (a_close a CloseReason_Crowded)
                   end
          | _ => Err MailboxError_NotMember
          end
      | MailboxCommand_ClaimV2 h token =>
          if bool_decide (a_admission a =
               AdmissionSnapshot_V2Pending (claim_commitment (a_mailbox_id a) token)) then
            if bool_decide (h = am_hash (a_allocator a)) then Err MailboxError_MembershipCollision
            else Ok (a_claim a h AdmissionSnapshot_V2Claimed)
          else Err MailboxError_NotMember
      | MailboxCommand_Open h => a_open a h
      | MailboxCommand_Put sender seq body => a_put a sender seq body
      | MailboxCommand_Ack sender seq => a_ack a sender seq
      | MailboxCommand_Close sender =>
          match a_member a sender with
          | None => Err MailboxError_NotMember
          | Some _ => Ok (a_close a CloseReason_Closed)
          end
      end
  end.

(** ** The abstraction relation *)

Definition abs_frame (f : FrameRecord) (e : bytes * bool) : Prop :=
  fr_body_len f = blen e.1 /\ fr_digest f = sha256 e.1 /\
  fr_body f = if e.2 then None else Some e.1.

Record abs_member (m : MemberState) (am : AMember) : Prop := {
  abs_hash : ms_hash m = am_hash am;
  abs_log : Forall2 abs_frame (ms_frames m) (am_log am)
}.

Definition abs_claimant (c : option MemberState) (ac : option AMember) : Prop :=
  option_Forall2 abs_member c ac.

Record abs (mb : Mailbox) (a : AMailbox) : Prop := {
  abs_id : mb_mailbox_id mb = a_mailbox_id a;
  abs_expires : mb_expires_at mb = a_expires_at a;
  abs_status : mb_status mb = a_status a;
  abs_admission : mb_admission mb = a_admission a;
  abs_allocator : abs_member (mb_allocator mb) (a_allocator a);
  abs_claim : abs_claimant (mb_claimant mb) (a_claimant a)
}.

(** Matching answers: the same error, or the same effects and related states. *)
Definition abs_result (r : outcome MailboxError MailboxTransition)
    (ar : outcome MailboxError (option AMailbox * list MailboxEffect)) : Prop :=
  match r, ar with
  | Ok t, Ok (a', effects) => option_Forall2 abs (mt_state t) a' /\ mt_effects t = effects
  | Err e, Err e' => e = e'
  | _, _ => False
  end.

(** Two different bodies among these that the digest and the length do not tell
    apart. *)
Definition sha256_collision (bodies : list bytes) : Prop :=
  exists b b', b ∈ bodies /\ b' ∈ bodies /\ b <> b' /\ blen b = blen b' /\ sha256 b = sha256 b'.

(** The bodies that commands put. *)
Definition put_bodies (cmds : list (Z * MailboxCommand)) : list bytes :=
  omap (fun c => match c.2 with MailboxCommand_Put _ _ body => Some body | _ => None end) cmds.

(** Only these bodies were ever stored. *)
Definition logged (bodies : list bytes) (a : AMailbox) : Prop :=
  forall m am b r, a_member a m = Some am -> (b, r) ∈ am_log am -> b ∈ bodies.

(** ** Lemmas on the relation *)

Lemma abs_member_lookup mb a m :
  abs mb a -> option_Forall2 abs_member (member mb m) (a_member a m).
Proof. intros Ha. destruct m; simpl; [constructor; apply Ha|apply Ha]. Qed.

Lemma abs_deliveries i m l log :
  frames_ok i l -> Forall2 abs_frame l log ->
  deliveries m l = map (fun e => MailboxEffect_Deliver m e.1 e.2) (a_pending i log).
Proof.
  intros Hok Hl. revert i Hok.
  induction Hl as [|f [b r] l log (_ & _ & Hb) _ IH]; intros i; [done|].
  intros [Hf Hok]. rewrite deliveries_cons, Hb, (fo_seq _ _ Hf). destruct r; simpl; by rewrite (IH _ Hok).
Qed.

Lemma abs_deleted_effects i m l log :
  frames_ok i l -> Forall2 abs_frame l log ->
  deleted_effects m l = map (fun e => MailboxEffect_BodyDeleted m e.1) (a_pending i log).
Proof.
  intros Hok Hl. revert i Hok.
  induction Hl as [|f [b r] l log (_ & _ & Hb) _ IH]; intros i; [done|].
  intros [Hf Hok]. rewrite deleted_effects_cons, Hb, (fo_seq _ _ Hf). destruct r; simpl; by rewrite (IH _ Hok).
Qed.

Lemma abs_all_deleted mb a : mailbox_ok mb -> abs mb a -> all_deleted mb = a_all_deleted a.
Proof.
  intros Hok Ha. unfold all_deleted, a_all_deleted, a_deleted.
  rewrite (abs_deleted_effects 0 _ _ (am_log (a_allocator a)));
    [|apply (mo_frames _ (ok_allocator _ Hok))|apply (abs_log _ _ (abs_allocator _ _ Ha))].
  f_equal. pose proof (abs_claim _ _ Ha) as Hc. unfold abs_claimant in Hc.
  destruct (mb_claimant mb) as [c|] eqn:Hmc; inv Hc; [|done].
  apply abs_deleted_effects; [|by destruct H2]. by apply mo_frames, (ok_claimant _ Hok).
Qed.

Lemma abs_strip m am : abs_member m am -> abs_member (strip m) (a_release am).
Proof.
  intros [Hh Hl]. split; [done|]. simpl. induction Hl as [|f e l log Hf _ IH]; simpl; constructor; auto.
  by destruct Hf as (? & ? & _).
Qed.

Lemma abs_close mb a reason :
  mailbox_ok mb -> abs mb a ->
  abs_result (terminate mb reason) (Ok (a_close a reason)).
Proof.
  intros Hok Ha. rewrite terminate_eq by done. simpl. split.
  - constructor. destruct Ha as [? ? ? Had ? Hc]. split; simpl; auto using abs_strip.
    + by rewrite Had.
    + unfold abs_claimant in *. destruct Hc; simpl; constructor. by apply abs_strip.
  - by rewrite (abs_all_deleted _ a).
Qed.

Lemma abs_set mb a m ms am q :
  abs mb a -> abs_member ms am -> abs (set_member mb m ms q) (a_set a m am).
Proof. intros [] Hm. destruct m; split; simpl; auto. by constructor. Qed.

Lemma abs_claim_result mb a h ad :
  abs mb a -> abs_result (Ok (install_claimant mb h ad)) (Ok (a_claim a h ad)).
Proof.
  intros Ha. simpl. split; [|by rewrite (abs_expires _ _ Ha)].
  constructor. destruct Ha. split; simpl; auto. repeat constructor.
Qed.

Lemma body_size_test body :
  (blen body =? 0) || (MAX_FRAME_BODY_BYTES <? blen body) =
  negb (bool_decide (0 < blen body <= MAX_FRAME_BODY_BYTES)).
Proof.
  pose proof (blen_nonneg body). case_bool_decide; simpl.
  - apply orb_false_iff. rewrite Z.eqb_neq, Z.ltb_ge. lia.
  - apply orb_true_iff. rewrite Z.eqb_eq, Z.ltb_lt. lia.
Qed.

(** ** Branches *)

Lemma put_refines bodies mb a sender seq body :
  mailbox_ok mb -> abs mb a -> 0 <= seq -> logged bodies a -> body ∈ bodies ->
  abs_result (transition_put mb sender seq body) (a_put a sender seq body) \/ sha256_collision bodies.
Proof.
  intros Hok Ha Hseq Hlog Hbody. unfold transition_put, a_put. rewrite body_size_test.
  destruct (negb _) eqn:Hsize; [by left|]. bool_to_prop.
  pose proof (abs_member_lookup _ _ sender Ha) as Hm.
  destruct (member mb sender) as [ms|] eqn:Hms; inv Hm; simpl; [|by left].
  rename y into am, H2 into Ham. pose proof (member_ok_lookup _ _ _ Hok Hms) as Hmo.
  destruct Hmo as [Hf Hn Hb]. pose proof (Forall2_length _ _ _ (abs_log _ _ Ham)) as Hlen.
  destruct (seq <? ms_next_seq ms) eqn:Hlt; bool_to_prop.
  - rewrite (find_frame_ok 0) by (auto; lia). rewrite Z.sub_0_r.
    destruct (lookup_lt_is_Some_2 (ms_frames ms) (Z.to_nat seq)) as [f Hfr]; [lia|].
    destruct (Forall2_lookup_l _ _ _ _ _ (abs_log _ _ Ham) Hfr) as ([b r] & Hb' & Hlenf & Hdig & _).
    rewrite Hfr, Hb'. simpl in *. rewrite Hlenf, Hdig.
    destruct (decide (b = body)) as [->|Hne].
    + left. rewrite Z.eqb_refl, !bool_decide_eq_true_2 by done. simpl. split; [by constructor|done].
    + destruct (_ && _) eqn:Hsame.
      * right. bool_to_prop. exists b, body. split_and!; auto. eapply Hlog; [done|]. by eapply list_elem_of_lookup_2.
      * left. rewrite bool_decide_eq_false_2 by done. by apply abs_close.
  - rewrite (proj2 (lookup_ge_None (am_log am) (Z.to_nat seq))) by lia.
    left. rewrite Hn in *. rewrite <- Hlen.
    destruct (Z.of_nat (length (ms_frames ms)) <? seq) eqn:Hgt; [done|]. bool_to_prop.
    replace (Z.of_nat MAX_FRAMES_PER_MEMBERSHIP <=? seq)
      with (MAX_FRAMES_PER_MEMBERSHIP <=? length (ms_frames ms))%nat
      by (apply eq_true_iff_eq; rewrite Nat.leb_le, Z.leb_le; lia).
    rewrite orb_diag. destruct (_ <=? _)%nat eqn:Hlim; [done|]. apply Nat.leb_gt in Hlim.
    pose proof (live_bytes_bound _ Hok). unfold MAX_FRAMES_PER_MEMBERSHIP, MAX_FRAME_BODY_BYTES in *.
    rewrite (expect_add u8_max) by (unfold u8_max; lia). simpl.
    rewrite (expect_add u64_max) by (unfold u64_max; lia). simpl.
    rewrite member_set_member_ne. split.
    + constructor. apply abs_set; [done|]. split; simpl; [apply Ham|].
      apply Forall2_app; [apply Ham|]. by repeat constructor.
    + f_equal. pose proof (abs_member_lookup _ _ (peer sender) Ha) as Hp. by inv Hp.
Qed.

Lemma ack_refines mb a sender seq :
  mailbox_ok mb -> abs mb a ->
  abs_result (transition_ack mb sender seq) (a_ack a sender seq).
Proof.
  intros Hok Ha. unfold transition_ack, a_ack.
  pose proof (abs_member_lookup _ _ sender Ha) as Hm.
  pose proof (abs_member_lookup _ _ (peer sender) Ha) as Hp.
  destruct (member mb sender) as [ms|] eqn:Hms; inv Hm; [|done].
  destruct (member mb (peer sender)) as [p|] eqn:Hpm; inv Hp; simpl; [|done].
  rename y0 into ap, H4 into Hap. pose proof (member_ok_lookup _ _ _ Hok Hpm) as [Hf Hn Hb].
  rewrite (take_frame_ok 0) by done. rewrite Z.sub_0_r.
  pose proof (abs_log _ _ Hap) as Hlog.
  destruct (ms_frames p !! Z.to_nat seq) as [f|] eqn:Hfr; simpl.
  - destruct (Forall2_lookup_l _ _ _ _ _ Hlog Hfr) as ([b r] & Hl & Hlen & Hdig & Hbody).
    destruct (0 <=? seq) eqn:Hpos; simpl; [|done]. rewrite Hl, Hbody. simpl in *.
    assert (forall q, abs (set_member mb (peer sender)
              (with_frames p (<[Z.to_nat seq := take_body f]> (ms_frames p))) q)
              (a_set a (peer sender) (mkAMember (am_hash ap) (<[Z.to_nat seq := (b, true)]> (am_log ap))))).
    { intros q. apply abs_set; [done|]. split; simpl; [apply Hap|].
      apply Forall2_insert; [done|]. by repeat split. }
    destruct r; simpl.
    + split; [by constructor|done].
    + assert (fr_body_len f <= mb_queue_bytes mb).
      { pose proof (frame_le_queue _ _ _ _ _ Hok Hpm Hfr) as Hle. unfold frame_bytes in Hle.
        by rewrite Hbody in Hle. }
      rewrite expect_sub by done. simpl. split; [by constructor|done].
  - apply Forall2_length in Hlog. apply lookup_ge_None in Hfr.
    rewrite (proj2 (lookup_ge_None (am_log ap) _)) by lia. by destruct (0 <=? seq).
Qed.

Lemma open_refines mb a h :
  mailbox_ok mb -> abs mb a -> abs_result (transition_open mb h) (a_open a h).
Proof.
  intros Hok Ha. unfold transition_open, a_open, membership_for_hash.
  rewrite (abs_hash _ _ (abs_allocator _ _ Ha)).
  assert (forall m, abs_result
    (Ok (mkMailboxTransition (Some mb) (MailboxEffect_Opened m (mb_expires_at mb) ::
           match member mb (peer m) with Some p => deliveries m (ms_frames p) | None => [] end)))
    (Ok (Some a, MailboxEffect_Opened m (a_expires_at a) ::
           match a_member a (peer m) with
           | Some p => map (fun e => MailboxEffect_Deliver m e.1 e.2) (a_pending 0 (am_log p))
           | None => [] end))) as Hres.
  { intros m. simpl. split; [by constructor|]. rewrite (abs_expires _ _ Ha). f_equal.
    pose proof (abs_member_lookup _ _ (peer m) Ha) as Hp.
    destruct (member mb (peer m)) as [p|] eqn:Hpm; inv Hp; [|done].
    apply abs_deliveries; [|by destruct H2].
    apply mo_frames. by eapply member_ok_lookup. }
  case_bool_decide; [apply Hres|].
  pose proof (abs_claim _ _ Ha) as Hc. unfold abs_claimant in Hc.
  destruct Hc as [c ac Hc|]; simpl; [|done]. rewrite (abs_hash _ _ Hc).
  case_bool_decide; [apply Hres|done].
Qed.

Lemma claim_refines mb a h :
  mailbox_ok mb -> abs mb a ->
  abs_result (transition_claim mb h)
    (match a_admission a with
     | AdmissionSnapshot_V1 =>
         if bool_decide (h = am_hash (a_allocator a)) then Err MailboxError_MembershipCollision
         else match a_claimant a with
              | None => Ok (a_claim a h AdmissionSnapshot_V1)
              | Some c => if bool_decide (am_hash c = h) then Err MailboxError_MembershipCollision
                          else Ok (a_close a CloseReason_Crowded)
              end
     | _ => Err MailboxError_NotMember
     end).
Proof.
  intros Hok Ha. unfold transition_claim. rewrite <- (abs_admission _ _ Ha).
  destruct (mb_admission mb) eqn:Had; try done.
  rewrite (abs_hash _ _ (abs_allocator _ _ Ha)). case_bool_decide; [done|].
  pose proof (abs_claim _ _ Ha) as Hc. unfold abs_claimant in Hc.
  destruct Hc as [c ac Hc|]; [|by apply abs_claim_result].
  rewrite (abs_hash _ _ Hc). case_bool_decide; [done|]. by apply abs_close.
Qed.

Lemma claim_v2_refines mb a h token :
  mailbox_ok mb -> abs mb a ->
  abs_result (transition_claim_v2 mb h token)
    (if bool_decide (a_admission a =
          AdmissionSnapshot_V2Pending (claim_commitment (a_mailbox_id a) token)) then
       if bool_decide (h = am_hash (a_allocator a)) then Err MailboxError_MembershipCollision
       else Ok (a_claim a h AdmissionSnapshot_V2Claimed)
     else Err MailboxError_NotMember).
Proof.
  intros Hok Ha. unfold transition_claim_v2. rewrite <- (abs_admission _ _ Ha), <- (abs_id _ _ Ha).
  pose proof (ok_admission _ Hok) as Hadm. unfold admission_ok in Hadm.
  pose proof (ok_status _ Hok) as Hst. unfold status_ok in Hst.
  destruct (mb_admission mb) eqn:Had; try (rewrite bool_decide_eq_false_2 by done; done).
  case_bool_decide as Hc; simpl.
  - subst. rewrite (bool_decide_eq_true_2 (_ = AdmissionSnapshot_V2Pending _)) by done.
    destruct (mb_status mb); try done. rewrite Hst.
    rewrite (bool_decide_eq_true_2 (None = None)) by done. rewrite orb_false_r.
    rewrite (abs_hash _ _ (abs_allocator _ _ Ha)).
    case_bool_decide; [done|]. by apply abs_claim_result.
  - rewrite bool_decide_eq_false_2 by congruence. done.
Qed.

Lemma transition_refines bodies mb a now cmd :
  mailbox_ok mb -> abs mb a -> command_typed cmd -> logged bodies a -> put_bodies [(now, cmd)] ⊆ bodies ->
  abs_result (transition mb now cmd) (spec_step a now cmd) \/ sha256_collision bodies.
Proof.
  intros Hok Ha Hty Hlog Hin. unfold transition, spec_step. rewrite (abs_expires _ _ Ha).
  destruct (a_expires_at a <=? now) eqn:Hexp; bool_to_prop.
  { left. unfold reap. rewrite (abs_expires _ _ Ha), (proj2 (Z.ltb_ge _ _)) by lia.
    rewrite delete_bodies_eq by done. simpl. split; [constructor|].
    by rewrite (abs_all_deleted _ a), (abs_status _ _ Ha). }
  rewrite (abs_status _ _ Ha). destruct (a_status a) as [| |r]; [| |by left].
  all: destruct cmd as [h|h token|h|s q b|s q|s];
    [ left; by apply claim_refines | left; by apply claim_v2_refines | left; by apply open_refines
    | apply put_refines; simpl in *; auto; [lia|set_solver] | left; by apply ack_refines |].
  all: left; unfold transition_close; pose proof (abs_member_lookup _ _ s Ha) as Hm;
    destruct Hm; [by apply abs_close|done].
Qed.

(** Every step keeps the log within the bodies put so far. *)
Lemma logged_close bodies a reason a' :
  logged bodies a -> (a_close a reason).1 = Some a' -> logged bodies a'.
Proof.
  intros Hl [= <-] m am b r Hm Hin.
  assert (exists am0, a_member a m = Some am0 /\ am = a_release am0) as (am0 & Hm0 & ->).
  { destruct m; simpl in *; [naive_solver|]. apply fmap_Some in Hm. naive_solver. }
  simpl in Hin. apply list_elem_of_In, in_map_iff in Hin as ([b' r'] & [= -> _] & Hin%list_elem_of_In). eauto.
Qed.

Lemma logged_set bodies a m am :
  logged bodies a -> (forall b r, (b, r) ∈ am_log am -> b ∈ bodies) -> logged bodies (a_set a m am).
Proof. intros Hl Ham m' am' b r Hm. pose proof (Hl m' am' b r). destruct m, m'; simpl in *; naive_solver. Qed.

Lemma spec_step_logged bodies a now cmd a' effects :
  logged bodies a -> put_bodies [(now, cmd)] ⊆ bodies -> spec_step a now cmd = Ok (Some a', effects) ->
  logged bodies a'.
Proof.
  intros Hl Hin. unfold spec_step. destruct (_ <=? now); [done|].
  assert (forall r, Ok (a_close a r) = @Ok MailboxError _ (Some a', effects) -> logged bodies a') as Hclose.
  { intros r [= Hc _]. apply (logged_close bodies a r); [done|]. by simpl; rewrite Hc. }
  assert (forall h ad, Ok (a_claim a h ad) = @Ok MailboxError _ (Some a', effects) -> logged bodies a') as Hclaim.
  { intros h ad [= <- _] [] am b r; simpl; [apply (Hl Membership_Allocator)|]. intros [= <-]. simpl. set_solver. }
  destruct (a_status a); [| |done];
    destruct cmd as [h|h token|h|s q b|s q|s]; repeat case_match; try done; try (by eauto);
    unfold a_open, a_put, a_ack; intros Hs; repeat (case_match || (apply bind_ok in Hs as (? & ? & Hs)));
    simplify_eq/=; eauto.
  all: repeat match goal with H : ok_or _ _ = Ok _ |- _ => apply ok_or_ok in H end.
  all: apply logged_set; [done|]; simpl; intros b' r' Hb'.
  all: try (apply elem_of_app in Hb' as [Hb'|Hb'%list_elem_of_singleton]; [by eauto|simplify_eq; set_solver]).
  all: apply list_elem_of_lookup in Hb' as [k Hk];
    apply list_lookup_insert_Some in Hk as [(<- & [= <- <-] & _)|[_ Hk]];
    (eapply Hl; [done|by eapply list_elem_of_lookup_2]).
Qed.

(** Runs: commands in order, each with its time; a refused command changes
    nothing and the run stops when the mailbox is gone. *)
Fixpoint run (mb : Mailbox) (cmds : list (Z * MailboxCommand)) :
    list (outcome MailboxError (list MailboxEffect)) :=
  match cmds with
  | [] => []
  | (now, cmd) :: cmds =>
      match transition mb now cmd with
      | Ok t => Ok (mt_effects t) :: match mt_state t with Some mb' => run mb' cmds | None => [] end
      | Err e => Err e :: run mb cmds
      | Panic => [Panic]
      end
  end.

Fixpoint spec_run (a : AMailbox) (cmds : list (Z * MailboxCommand)) :
    list (outcome MailboxError (list MailboxEffect)) :=
  match cmds with
  | [] => []
  | (now, cmd) :: cmds =>
      match spec_step a now cmd with
      | Ok (a', effects) => Ok effects :: match a' with Some a' => spec_run a' cmds | None => [] end
      | Err e => Err e :: spec_run a cmds
      | Panic => [Panic]
      end
  end.

Lemma put_bodies_cons c cmds bodies :
  put_bodies (c :: cmds) ⊆ bodies -> put_bodies [c] ⊆ bodies /\ put_bodies cmds ⊆ bodies.
Proof. destruct c as [now []]; unfold put_bodies; simpl; set_solver. Qed.

Lemma run_refines bodies cmds : forall mb a,
  mailbox_ok mb -> abs mb a -> Forall (fun c => command_typed c.2) cmds ->
  logged bodies a -> put_bodies cmds ⊆ bodies ->
  run mb cmds = spec_run a cmds \/ sha256_collision bodies.
Proof.
  induction cmds as [|[now cmd] cmds IH]; intros mb a Hok Ha Hty Hlog Hin; simpl; [by left|].
  apply put_bodies_cons in Hin as [Hhd Htl].
  inv Hty. destruct (transition_refines bodies mb a now cmd) as [Hr|]; [done..| |by right].
  pose proof (transition_sound mb now cmd Hok) as Hs. unfold sound in Hs.
  destruct (transition mb now cmd) as [t|e|]; destruct (spec_step a now cmd) as [[a' ef]|e'|] eqn:Hspec;
    simpl in Hr; try done.
  - destruct Hr as [Hst ->]. destruct (mt_state t) as [mb'|] eqn:Hmt; inv Hst; [|by left].
    destruct (IH mb' y) as [->|]; eauto using spec_step_logged. eapply step_ok; eauto.
  - subst. destruct (IH mb a) as [->|]; auto.
Qed.
End Spec.

(** ** Reading histories *)

(** The abstract mailbox of a fresh allocation. *)
Definition fresh (mb : Mailbox) : AMailbox :=
  mkAMailbox (mb_mailbox_id mb) (mb_expires_at mb) (mb_status mb) (mb_admission mb)
    (mkAMember (ms_hash (mb_allocator mb)) []) None.

(** The body newly stored by a command, and the deliveries of its effects, each
    with the membership that sent it and its sequence number. *)
Definition stored (cmd : MailboxCommand) (effects : list MailboxEffect) : list (Membership * Z * bytes) :=
  match cmd, effects with
  | MailboxCommand_Put sender seq body, MailboxEffect_Stored _ _ false :: _ => [(sender, seq, body)]
  | _, _ => []
  end.

Definition delivered (effects : list MailboxEffect) : list (Membership * Z * bytes) :=
  omap (fun e => match e with
                 | MailboxEffect_Deliver recipient seq body => Some (peer recipient, seq, body)
                 | _ => None
                 end) effects.

Fixpoint stored_run (cmds : list (Z * MailboxCommand))
    (rs : list (outcome MailboxError (list MailboxEffect))) : list (Membership * Z * bytes) :=
  match cmds, rs with
  | (_, cmd) :: cmds, Ok effects :: rs => stored cmd effects ++ stored_run cmds rs
  | _ :: cmds, _ :: rs => stored_run cmds rs
  | _, _ => []
  end.

Fixpoint delivered_run (rs : list (outcome MailboxError (list MailboxEffect))) :
    list (Membership * Z * bytes) :=
  match rs with
  | [] => []
  | Ok effects :: rs => delivered effects ++ delivered_run rs
  | _ :: rs => delivered_run rs
  end.

Section Integrity.
Context `{Sha256}.

(** What the bodies already stored, [acc], say of the state. *)
Record history (mb : Mailbox) (acc : list (Membership * Z * bytes)) : Prop := {
  hi_queued : forall m ms f b, member mb m = Some ms -> f ∈ ms_frames ms ->
    fr_body f = Some b -> (m, fr_seq f, b) ∈ acc;
  hi_used : forall m s b, (m, s, b) ∈ acc ->
    exists ms, member mb m = Some ms /\ s < ms_next_seq ms;
  hi_nodup : NoDup (map fst acc)
}.

Lemma delivered_deliveries m l e :
  e ∈ delivered (deliveries m l) ->
  exists f b, f ∈ l /\ fr_body f = Some b /\ e = (peer m, fr_seq f, b).
Proof.
  unfold delivered. rewrite list_elem_of_omap. intros (d & Hd & He).
  unfold deliveries in Hd. apply list_elem_of_omap in Hd as (f & Hf & Hd).
  destruct (fr_body f) as [b|] eqn:Hb; simplify_eq/=. eauto.
Qed.

Lemma delivered_deleted m l : delivered (deleted_effects m l) = [].
Proof.
  induction l as [|f l IH]; [done|]. rewrite deleted_effects_cons. by destruct (fr_body f).
Qed.

Lemma delivered_app l k : delivered (l ++ k) = delivered l ++ delivered k.
Proof. apply omap_app. Qed.

Lemma delivered_all_deleted mb : delivered (all_deleted mb) = [].
Proof.
  unfold all_deleted. rewrite delivered_app, delivered_deleted.
  destruct (mb_claimant mb); [apply delivered_deleted|done].
Qed.

Lemma all_deleted_complete mb m ms f :
  member mb m = Some ms -> f ∈ ms_frames ms -> is_Some (fr_body f) ->
  MailboxEffect_BodyDeleted m (fr_seq f) ∈ all_deleted mb.
Proof.
  intros Hm Hf [b Hb]. unfold all_deleted, deleted_effects. apply elem_of_app.
  destruct m; simpl in Hm; simplify_eq; [left|right; rewrite Hm];
    apply list_elem_of_omap; exists f; by rewrite Hb.
Qed.

Lemma stored_deleted cmd mb tail :
  (forall s q k, tail <> MailboxEffect_Stored s q false :: k) ->
  stored cmd (all_deleted mb ++ tail) = [].
Proof.
  intros Htail. unfold stored. destruct cmd; try done.
  destruct (all_deleted mb ++ tail) as [|[] ?] eqn:E; try done. destruct replay; try done.
  exfalso. destruct (all_deleted mb) as [|e k] eqn:Ed; simpl in E; [naive_solver|].
  assert (e ∈ all_deleted mb) as He by (rewrite Ed; set_solver). simplify_eq.
  unfold all_deleted, deleted_effects in He. apply elem_of_app in He as [He|He].
  - apply list_elem_of_omap in He as (f & _ & Hf). destruct (fr_body f); simplify_eq/=.
  - destruct (mb_claimant mb); [|set_solver].
    apply list_elem_of_omap in He as (f & _ & Hf). destruct (fr_body f); simplify_eq/=.
Qed.

(** A state whose members hold no other bodies and no fewer sequences. *)
Lemma history_weaken mb mb' acc :
  history mb acc ->
  (forall m ms' f b, member mb' m = Some ms' -> f ∈ ms_frames ms' -> fr_body f = Some b ->
     exists ms, member mb m = Some ms /\ f ∈ ms_frames ms) ->
  (forall m ms, member mb m = Some ms ->
     exists ms', member mb' m = Some ms' /\ ms_next_seq ms <= ms_next_seq ms') ->
  history mb' acc.
Proof.
  intros [Hq Hu Hn] Hsub Hgrow. split; [| |done].
  - intros m ms' f b Hm Hf Hb. destruct (Hsub m ms' f b) as (ms & ? & ?); eauto.
  - intros m s b Hin. destruct (Hu m s b Hin) as (ms & Hm & Hs).
    destruct (Hgrow m ms Hm) as (ms' & ? & ?). exists ms'. split; [done|lia].
Qed.

Lemma history_closed mb acc reason : history mb acc -> history (closed_mailbox mb reason) acc.
Proof.
  intros Hh. eapply history_weaken; [done| |].
  - intros m ms f b Hm Hf Hb. exfalso.
    assert (exists ms0, ms = strip ms0) as [ms0 ->].
    { destruct m; simpl in Hm; [naive_solver|]. apply fmap_Some in Hm. naive_solver. }
    simpl in Hf. apply list_elem_of_In, in_map_iff in Hf as (g & <- & _). done.
  - intros m ms Hm. exists (strip ms). split; [|done].
    destruct m; simpl in *; [naive_solver|]. by rewrite Hm.
Qed.

Lemma history_install mb acc h ad mb' :
  history mb acc -> mb_claimant mb = None ->
  mt_state (install_claimant mb h ad) = Some mb' -> history mb' acc.
Proof.
  intros Hh Hc [= <-]. eapply history_weaken; [done| |].
  - intros [] ms f b; simpl; [eauto|]. intros [= <-]. simpl. set_solver.
  - intros [] ms; simpl; [eauto with lia|]. congruence.
Qed.

Lemma history_ack mb acc m p n f q :
  history mb acc -> member mb m = Some p -> ms_frames p !! n = Some f ->
  history (set_member mb m (ack_frame p n f) q) acc.
Proof.
  intros Hh Hp Hf. eapply history_weaken; [done| |].
  - intros m' ms g b Hm' Hg Hb. destruct (decide (m' = m)) as [->|Hne].
    + rewrite member_set_member in Hm'. simplify_eq. exists p. split; [done|]. simpl in Hg.
      apply list_elem_of_lookup in Hg as [k Hk].
      destruct (decide (n = k)) as [->|]; [|rewrite list_lookup_insert_ne in Hk by done;
        by eapply list_elem_of_lookup_2].
      rewrite list_lookup_insert_eq in Hk by (by eapply lookup_lt_Some). by simplify_eq.
    + exists ms. split; [|done]. assert (m' = peer m) as -> by (by destruct m, m').
      by rewrite member_set_member_ne in Hm'.
  - intros m' ms Hm'. destruct (decide (m' = m)) as [->|Hne].
    + rewrite member_set_member. simplify_eq. eexists. split; [done|]. simpl. lia.
    + assert (m' = peer m) as -> by (by destruct m, m').
      rewrite member_set_member_ne. eexists. split; [done|lia].
Qed.

Lemma history_store mb acc m ms body q :
  mailbox_ok mb -> history mb acc -> member mb m = Some ms ->
  history (set_member mb m (store_frame ms body) q) (acc ++ [(m, ms_next_seq ms, body)]).
Proof.
  intros Hok [Hq Hu Hn] Hm. split.
  - intros m' ms' f b Hm' Hf Hb. destruct (decide (m' = m)) as [->|Hne].
    + rewrite member_set_member in Hm'. simplify_eq. simpl in Hf.
      apply elem_of_app in Hf as [Hf|Hf]; [apply elem_of_app; left; eauto|].
      apply list_elem_of_singleton in Hf. simplify_eq/=. set_solver.
    + assert (m' = peer m) as -> by (by destruct m, m').
      rewrite member_set_member_ne in Hm'. apply elem_of_app. left. eauto.
  - intros m' s b Hin. destruct (decide (m' = m)) as [->|Hne].
    + rewrite member_set_member. eexists. split; [done|]. simpl.
      apply elem_of_app in Hin as [Hin|Hin%list_elem_of_singleton]; [|simplify_eq; lia].
      destruct (Hu _ _ _ Hin) as (ms0 & ? & ?). simplify_eq. lia.
    + assert (m' = peer m) as -> by (by destruct m, m'). rewrite member_set_member_ne.
      apply elem_of_app in Hin as [Hin|Hin%list_elem_of_singleton]; [eauto|simplify_eq].
  - rewrite map_app. simpl. apply NoDup_app. split_and!; [done| |apply NoDup_singleton].
    intros [m' s] Hin Heq%list_elem_of_singleton. simplify_eq.
    apply list_elem_of_In, in_map_iff in Hin as ([[m' s] b] & [= -> ->] & Hin%list_elem_of_In).
    destruct (Hu _ _ _ Hin) as (ms0 & ? & ?). simplify_eq. lia.
Qed.

Lemma history_step mb acc now cmd t :
  mailbox_ok mb -> history mb acc -> mailbox_step mb now cmd t ->
  (forall e, e ∈ delivered (mt_effects t) -> e ∈ acc ++ stored cmd (mt_effects t)) /\
  (forall mb', mt_state t = Some mb' -> history mb' (acc ++ stored cmd (mt_effects t))).
Proof.
  intros Hok Hh Hstep.
  destruct Hstep; simpl mt_effects; simpl mt_state.
  all: rewrite ?delivered_app, ?delivered_all_deleted, ?stored_deleted, ?app_nil_r
      by (repeat case_match; done).
  all: try (split; [intros e He; repeat case_match; set_solver
                   |intros mb' [= <-]; by eauto using history_closed, history_install]).
  - split; [|by intros ? [= <-]].
    intros e He. simpl in He. destruct (member mb (peer m)) as [p|] eqn:Hp; [|set_solver].
    change (e ∈ delivered (deliveries m (ms_frames p))) in He.
    apply delivered_deliveries in He as (f & b & Hf & Hb & ->). by eapply hi_queued.
  - simpl stored. split; [|intros mb' [= <-]; by apply history_store].
    intros e He. destruct (member mb (peer sender)); simpl in He; [|set_solver].
    apply list_elem_of_singleton in He. destruct sender; set_solver.
  - split; [intros e He; repeat case_match; set_solver|].
    intros mb' [= <-]. by apply history_ack.
Qed.

Lemma run_history cmds : forall mb acc,
  mailbox_ok mb -> history mb acc -> Forall (fun c => command_typed c.2) cmds ->
  (forall e, e ∈ delivered_run (run mb cmds) -> e ∈ acc ++ stored_run cmds (run mb cmds)) /\
  NoDup (map fst (acc ++ stored_run cmds (run mb cmds))).
Proof.
  induction cmds as [|[now cmd] cmds IH]; intros mb acc Hok Hh Hty; simpl.
  { rewrite app_nil_r. split; [set_solver|apply Hh]. }
  inv Hty. pose proof (transition_sound mb now cmd Hok) as Hs. unfold sound in Hs.
  destruct (transition mb now cmd) as [t|e|]; simpl; [|by apply IH|by destruct Hs].
  specialize (Hs ltac:(done)). destruct (history_step mb acc now cmd t Hok Hh Hs) as [Hd Hn].
  rewrite app_assoc. destruct (mt_state t) as [mb'|] eqn:Hmt.
  - destruct (IH mb' (acc ++ stored cmd (mt_effects t))) as [IHd IHn]; eauto using step_ok.
    split; [|done]. intros e [He|He]%elem_of_app; [|by apply IHd].
    apply elem_of_app. left. by apply Hd.
  - replace (stored_run cmds []) with (@nil (Membership * Z * bytes)) by (by destruct cmds as [|[]]).
    rewrite !app_nil_r. split; [exact Hd|].
    assert (stored cmd (mt_effects t) = []) as ->; [|rewrite app_nil_r; apply Hh].
    destruct Hs; try done. apply stored_deleted. intros s q k. by case_match.
Qed.
End Integrity.
