(* ===== verification/MailboxThms.v ===== *)
(** * Theorems about the mailbox

    Executions ([exec]) and what holds along them: the invariant, the
    refinement of the abstract mailbox, integrity of delivery, immutable
    retries, the absolute expiry, the admission rule of credential/v2, and
    the snapshot round trip. *)

From S2P Require Import Prelude External Instances Wire Mailbox MailboxInv MailboxStep MailboxSpec.

Section Executions.
Context `{Sha256}.

(** A sequence of commands; a refused command leaves the mailbox unchanged. *)
Inductive exec : Mailbox -> list (Z * MailboxCommand) -> Mailbox -> Prop :=
| exec_nil mb : exec mb [] mb
| exec_refused mb now cmd e cmds mb' :
    command_typed cmd -> transition mb now cmd = Err e -> exec mb cmds mb' ->
    exec mb ((now, cmd) :: cmds) mb'
| exec_step mb now cmd t mb1 cmds mb' :
    command_typed cmd -> transition mb now cmd = Ok t -> mt_state t = Some mb1 ->
    exec mb1 cmds mb' -> exec mb ((now, cmd) :: cmds) mb'.

(** Mailboxes a relay can hold without restarting. *)
Inductive reachable : Mailbox -> Prop :=
| reach_allocate input mb cmds mb' :
    allocate input = Ok mb -> exec mb cmds mb' -> reachable mb'
| reach_allocate_v2 input mb cmds mb' :
    allocate_v2 input = Ok mb -> exec mb cmds mb' -> reachable mb'.

Lemma transition_step mb now cmd t :
  mailbox_ok mb -> command_typed cmd -> transition mb now cmd = Ok t -> mailbox_step mb now cmd t.
Proof.
  intros Hok Hty Ht. pose proof (transition_sound mb now cmd Hok Hty) as Hs.
  unfold sound in Hs. by rewrite Ht in Hs.
Qed.

(** A property of states kept by every step is kept by every execution. *)
Lemma exec_invariant (P : Mailbox -> Prop) mb cmds mb' :
  (forall mb now cmd t mb', mailbox_ok mb -> P mb -> mailbox_step mb now cmd t ->
     mt_state t = Some mb' -> P mb') ->
  mailbox_ok mb -> P mb -> exec mb cmds mb' -> mailbox_ok mb' /\ P mb'.
Proof.
  intros Hstep Hok HP Hexec. induction Hexec as [mb|mb now cmd e cmds mb' ? ? _ IH|
    mb now cmd t mb1 cmds mb' Hty Ht Hmt _ IH]; [done|by apply IH|].
  apply transition_step in Ht; [|done..]. apply IH; eauto using step_ok.
Qed.

Lemma allocate_shape input mb :
  allocate input = Ok mb ->
  mailbox_wf mb /\ mb_claimant mb = None /\ ms_frames (mb_allocator mb) = [] /\
  mb_admission mb = AdmissionSnapshot_V1 /\ mb_status mb = MailboxStatus_Waiting.
Proof.
  unfold allocate. intros Ha. repeat case_hyp; bool_to_prop.
  all: apply bind_ok in Ha as (e & He & [= <-]); split; [|done].
  all: split; [|done|done]; split; unfold status_ok, admission_ok, live_bytes; simpl; try done.
  all: try apply member_ok_new; intros n Hn; simplify_eq; lia.
Qed.

Lemma allocate_v2_shape input mb :
  allocate_v2 input = Ok mb ->
  mailbox_wf mb /\ mb_claimant mb = None /\ ms_frames (mb_allocator mb) = [] /\
  mb_admission mb = AdmissionSnapshot_V2Pending (v2_claim_commitment input) /\
  mb_mailbox_id mb = v2_mailbox_id input.
Proof.
  unfold allocate_v2. intros Ha. case_hyp.
  apply bind_ok in Ha as (e & He & [= <-]). split; [|done].
  split; [|done|done]. split; unfold status_ok, admission_ok, live_bytes; simpl; try done.
  apply member_ok_new.
Qed.

Lemma reachable_wf_lemma mb : reachable mb -> mailbox_wf mb.
Proof.
  assert (forall mb0 cmds mb', mailbox_wf mb0 -> exec mb0 cmds mb' -> mailbox_wf mb') as Hx.
  { intros mb0 cmds mb' Hwf Hexec. eapply exec_invariant; eauto using step_wf. apply Hwf. }
  intros [input mb0 cmds mb' Ha Hexec|input mb0 cmds mb' Ha Hexec].
  - apply allocate_shape in Ha as [? _]. eauto.
  - apply allocate_v2_shape in Ha as [? _]. eauto.
Qed.
End Executions.

Section Persistence.
Context `{Sha256}.

(** A stored frame keeps its sequence, length and digest; only its body may
    be released. *)
Definition recorded (mb : Mailbox) (m : Membership) (n : nat) (len : Z) (digest : bytes) : Prop :=
  exists ms f, member mb m = Some ms /\ ms_frames ms !! n = Some f /\
    fr_body_len f = len /\ fr_digest f = digest.

Lemma recorded_strip ms n f :
  ms_frames ms !! n = Some f -> ms_frames (strip ms) !! n = Some (take_body f).
Proof.
  intros Hf.
  change ((take_body <$> ms_frames ms) !! n = Some (take_body f)).
  by rewrite list_lookup_fmap, Hf.
Qed.

Lemma recorded_closed mb reason m n len digest :
  recorded mb m n len digest -> recorded (closed_mailbox mb reason) m n len digest.
Proof.
  intros (ms & f & Hm & Hf & ? & ?). exists (strip ms), (take_body f).
  split_and!; auto using recorded_strip. destruct m; simpl in *; [congruence|by rewrite Hm].
Qed.

Lemma recorded_set mb m m' ms ms' q n len digest :
  member mb m = Some ms ->
  (forall f, ms_frames ms !! n = Some f -> exists f', ms_frames ms' !! n = Some f' /\
     fr_body_len f' = fr_body_len f /\ fr_digest f' = fr_digest f) ->
  recorded mb m' n len digest -> recorded (set_member mb m ms' q) m' n len digest.
Proof.
  intros Hm Hkeep (ms0 & f & Hm' & Hf & Hlen & Hdig). destruct (decide (m' = m)) as [->|].
  - simplify_eq. destruct (Hkeep f Hf) as (f' & ? & ? & ?). exists ms', f'.
    rewrite member_set_member. split_and!; congruence.
  - exists ms0, f. assert (m' = peer m) as -> by (by destruct m, m').
    by rewrite member_set_member_ne.
Qed.

Lemma step_recorded mb now cmd t mb' m n len digest :
  recorded mb m n len digest -> mailbox_step mb now cmd t -> mt_state t = Some mb' ->
  recorded mb' m n len digest.
Proof.
  intros Hr Hstep. destruct Hstep; simpl; intros Heq; simplify_eq; eauto using recorded_closed.
  1, 2: destruct Hr as (ms & f & Hm & Hf & ?); exists ms, f; destruct m; simpl in *; naive_solver.
  - eapply recorded_set; eauto. intros f Hf. exists f. split; [|done]. simpl.
    by rewrite lookup_app_l by (by eapply lookup_lt_Some).
  - eapply recorded_set; eauto. intros g Hg. simpl.
    destruct (decide (n0 = n)) as [->|]; [|rewrite list_lookup_insert_ne by done; eauto].
    rewrite list_lookup_insert_eq by (by eapply lookup_lt_Some). simplify_eq. by eexists.
Qed.

Lemma recorded_put mb now m n len digest body :
  mailbox_ok mb -> live mb now -> recorded mb m n len digest -> body_size_ok body ->
  transition mb now (MailboxCommand_Put m (Z.of_nat n) body) =
  if (len =? blen body) && bool_decide (digest = sha256 body)
  then Ok (mkMailboxTransition (Some mb) [MailboxEffect_Stored m (Z.of_nat n) true])
  else Ok (mkMailboxTransition (Some (closed_mailbox mb CloseReason_Conflict))
             (all_deleted mb ++ [MailboxEffect_Terminal CloseReason_Conflict])).
Proof.
  intros Hok [Hexp Hst] (ms & f & Hm & Hf & Hlen & Hdig) Hb. unfold transition.
  rewrite (proj2 (Z.leb_gt _ _)) by done.
  replace (match mb_status mb with
           | MailboxStatus_Terminal reason => Err (MailboxError_Closed reason)
           | _ => transition_put mb m (Z.of_nat n) body end)
    with (transition_put mb m (Z.of_nat n) body) by (by destruct (mb_status mb)).
  unfold transition_put. rewrite body_size_test, bool_decide_eq_true_2 by done. simpl.
  rewrite Hm. simpl. pose proof (member_ok_lookup _ _ _ Hok Hm) as [Hfs Hn _].
  pose proof (lookup_lt_Some _ _ _ Hf).
  rewrite Hn, (proj2 (Z.ltb_lt _ _)) by lia.
  rewrite (find_frame_ok 0) by (auto; lia). rewrite Z.sub_0_r, Nat2Z.id, Hf. simpl.
  rewrite Hlen, Hdig. destruct (_ && _); [done|]. by apply terminate_eq.
Qed.

Lemma put_recorded mb now sender seq body t mb1 :
  mailbox_ok mb -> mailbox_step mb now (MailboxCommand_Put sender seq body) t ->
  head (mt_effects t) = Some (MailboxEffect_Stored sender seq false) -> mt_state t = Some mb1 ->
  recorded mb1 sender (Z.to_nat seq) (blen body) (sha256 body).
Proof.
  intros Hok Hstep. inversion Hstep as [ | | | | | s ms b Hlive Hm Hb Hlim | | | | ];
    simplify_eq/=; try done; intros Heff Hmb1; simplify_eq/=.
  - exists (store_frame ms body), (mkFrameRecord (ms_next_seq ms) (sha256 body) (blen body) (Some body)).
    rewrite member_set_member. split_and!; [done| |done|done].
    pose proof (member_ok_lookup _ _ _ Hok Hm) as [_ Hn _]. rewrite Hn, Nat2Z.id. simpl.
    rewrite Hn. by rewrite list_lookup_middle.
  - exfalso. pose proof (stored_deleted (MailboxCommand_Put sender (Z.of_nat n) body) mb
      [MailboxEffect_Terminal CloseReason_Conflict]) as Hs.
    unfold stored in Hs. destruct (all_deleted mb ++ _); simplify_eq/=. by specialize (Hs ltac:(done)).
Qed.

Lemma exec_recorded mb cmds mb' m n len digest :
  mailbox_ok mb -> recorded mb m n len digest -> exec mb cmds mb' ->
  mailbox_ok mb' /\ recorded mb' m n len digest.
Proof.
  intros Hok Hr Hx. apply (exec_invariant (fun mb => recorded mb m n len digest) mb cmds); auto.
  intros. by eapply step_recorded.
Qed.
End Persistence.

Section Admission.
Context `{Sha256}.

(** What a protected mailbox knows after the commands [seen]. *)
Record protected (id commitment : bytes) (seen : list (Z * MailboxCommand)) (mb : Mailbox) : Prop := {
  pr_id : mb_mailbox_id mb = id;
  pr_v2 : mb_admission mb <> AdmissionSnapshot_V1;
  pr_pending : forall cm, mb_admission mb = AdmissionSnapshot_V2Pending cm -> cm = commitment;
  pr_claimant : forall c, mb_claimant mb = Some c ->
    exists now token, (now, MailboxCommand_ClaimV2 (ms_hash c) token) ∈ seen /\
      claim_commitment id token = commitment
}.

Lemma protected_seen id cm seen seen' mb :
  seen ⊆ seen' -> protected id cm seen mb -> protected id cm seen' mb.
Proof. intros Hs [? ? ? Hc]. split; auto. intros c Hcl. destruct (Hc c Hcl) as (? & ? & ? & ?). eauto. Qed.

Lemma protected_same id cm seen mb mb' :
  protected id cm seen mb -> mb_mailbox_id mb' = mb_mailbox_id mb ->
  (mb_admission mb' = mb_admission mb \/ mb_admission mb' = AdmissionSnapshot_V2Closed) ->
  (forall c', mb_claimant mb' = Some c' -> exists c, mb_claimant mb = Some c /\ ms_hash c = ms_hash c') ->
  protected id cm seen mb'.
Proof.
  intros [? Hv Hp Hc] ? Had Hcl. split; [congruence|..].
  - destruct Had; congruence.
  - intros cm' Hcm'. apply Hp. destruct Had; congruence.
  - intros c' (c & Hc' & Heq)%Hcl. rewrite <- Heq. eauto.
Qed.

Lemma protected_closed id cm seen mb reason :
  protected id cm seen mb -> protected id cm seen (closed_mailbox mb reason).
Proof.
  intros Hp. eapply protected_same; [done|done| |]; simpl.
  - destruct (mb_admission mb); auto.
  - intros c' (c & Hc & ->)%fmap_Some. eauto.
Qed.

Lemma protected_set id cm seen mb m ms ms' q :
  protected id cm seen mb -> member mb m = Some ms -> ms_hash ms' = ms_hash ms ->
  protected id cm seen (set_member mb m ms' q).
Proof.
  intros Hp Hm Hh. destruct (set_member_fields mb m ms' q) as (? & ? & ? & ? & ? & ?).
  eapply protected_same; eauto. intros c' Hc'. destruct m; simpl in *; simplify_eq; eauto.
Qed.

Lemma step_protected id cm seen mb now cmd t mb' :
  protected id cm seen mb -> mailbox_step mb now cmd t -> mt_state t = Some mb' ->
  protected id cm ((now, cmd) :: seen) mb'.
Proof.
  intros Hp Hstep. apply (protected_seen _ _ seen ((now, cmd) :: seen)) in Hp as Hp'; [|set_solver].
  destruct Hstep; simpl; intros Heq; simplify_eq; eauto using protected_closed, protected_set.
  - by destruct (pr_v2 _ _ _ _ Hp).
  - destruct Hp as [Hid _ Hpend _]. split; simpl; try done.
    intros c [= <-]. exists now, token. split; [set_solver|]. rewrite <- Hid. by apply Hpend.
Qed.

Lemma exec_protected id cm seen mb cmds mb' :
  mailbox_ok mb -> protected id cm seen mb -> exec mb cmds mb' ->
  exists seen', seen' ⊆ seen ++ cmds /\ protected id cm seen' mb'.
Proof.
  intros Hok Hp Hexec. revert seen Hok Hp.
  induction Hexec as [mb|mb now cmd e cmds mb' ? ? _ IH|mb now cmd t mb1 cmds mb' Hty Ht Hmt _ IH];
    intros seen Hok Hp.
  - exists seen. rewrite app_nil_r. done.
  - destruct (IH seen Hok Hp) as (seen' & Hs & ?). exists seen'. split; [set_solver|done].
  - apply transition_step in Ht; [|done..].
    destruct (IH ((now, cmd) :: seen)) as (seen' & Hs & ?); eauto using step_ok, step_protected.
    exists seen'. split; [set_solver|done].
Qed.
End Admission.

(** ** Properties *)

(** A mailbox as the relay first holds it. *)
Definition allocated (mb : Mailbox) : Prop :=
  (exists input, allocate input = Ok mb) \/ (exists input, allocate_v2 input = Ok mb).

Lemma allocated_fresh `{Sha256} mb :
  allocated mb -> mailbox_wf mb /\ abs mb (fresh mb) /\ history mb [].
Proof.
  intros Ha. assert (mailbox_wf mb /\ mb_claimant mb = None /\ ms_frames (mb_allocator mb) = [])
    as (Hwf & Hc & Hf).
  { destruct Ha as [[i Hi%allocate_shape]|[i Hi%allocate_v2_shape]];
      destruct Hi as (? & ? & ? & _); done. }
  split_and!; [done| |].
  - split; simpl; try done; [split; simpl; [done|by rewrite Hf]|].
    rewrite Hc. constructor.
  - split; [|set_solver|constructor]. intros [] ms f b; simpl; intros; simplify_eq.
    rewrite Hf in *. set_solver.
Qed.

(** Every mailbox the relay can reach by any sequence of commands from an
    allocation satisfies the invariant (contiguous immutable frames within the
    limits, exact byte accounting, agreeing status and admission, different
    memberships, no body left in a terminal mailbox), and no command on it
    panics. *)
Theorem reachable_invariant `{Sha256} mb now cmd :
  reachable mb -> command_typed cmd -> mailbox_wf mb /\ transition mb now cmd <> Panic.
Proof.
  intros Hr Hty. pose proof (reachable_wf_lemma mb Hr) as Hwf. split; [done|].
  pose proof (transition_sound mb now cmd (wf_ok _ Hwf) Hty) as Hs. intros Heq.
  by rewrite Heq in Hs.
Qed.

(** C2. A freshly allocated mailbox answers every sequence of commands exactly
    as the abstract mailbox, which keeps the bodies themselves instead of
    digests, counters and byte accounts; the only way out is a SHA-256
    collision between two bodies of equal length put by these commands. *)
Theorem mailbox_refines_spec `{Sha256} mb cmds :
  allocated mb -> Forall (fun c => command_typed c.2) cmds ->
  run mb cmds = spec_run (fresh mb) cmds \/ sha256_collision (put_bodies cmds).
Proof.
  intros Ha Hty. destruct (allocated_fresh mb Ha) as (Hwf & Habs & _).
  apply run_refines; [apply Hwf|done..| |done]. intros [] am b r; simpl; [intros [= <-]; set_solver|done].
Qed.

(** C10. Along any sequence of commands, every body delivered to a member is
    byte for byte the body its peer stored at that sequence number in one of
    these commands, and a member stores at most one body per sequence
    number: the relay cannot alter, invent or substitute a frame. *)
Theorem delivery_integrity `{Sha256} mb cmds :
  allocated mb -> Forall (fun c => command_typed c.2) cmds ->
  (forall e, e ∈ delivered_run (run mb cmds) -> e ∈ stored_run cmds (run mb cmds)) /\
  NoDup (map fst (stored_run cmds (run mb cmds))).
Proof.
  intros Ha Hty. destruct (allocated_fresh mb Ha) as (Hwf & _ & Hh).
  apply (run_history cmds mb []); [apply Hwf|done..].
Qed.

(** Once a frame is stored, later submissions at its sequence number are
    decided by its recorded length and digest alone, whatever happened in
    between (acknowledgements included): the same body is acknowledged as a
    replay and changes nothing, any other body closes the mailbox with
    [Conflict] and erases every queued body. *)
Theorem stored_frame_immutable `{Sha256} mb now sender seq body t mb1 cmds mb2 now2 body2 :
  mailbox_ok mb -> 0 <= seq <= u8_max ->
  transition mb now (MailboxCommand_Put sender seq body) = Ok t ->
  head (mt_effects t) = Some (MailboxEffect_Stored sender seq false) ->
  mt_state t = Some mb1 -> exec mb1 cmds mb2 -> live mb2 now2 -> body_size_ok body2 ->
  transition mb2 now2 (MailboxCommand_Put sender seq body2) =
  if (blen body =? blen body2) && bool_decide (sha256 body = sha256 body2)
  then Ok (mkMailboxTransition (Some mb2) [MailboxEffect_Stored sender seq true])
  else Ok (mkMailboxTransition (Some (closed_mailbox mb2 CloseReason_Conflict))
             (all_deleted mb2 ++ [MailboxEffect_Terminal CloseReason_Conflict])).
Proof.
  intros Hok Hseq Ht Heff Hmb1 Hexec Hlive Hbody.
  apply transition_step in Ht; [|done|done].
  assert (mailbox_ok mb1) as Hok1 by eauto using step_ok.
  eapply put_recorded in Ht; eauto.
  destruct (exec_recorded _ _ _ _ _ _ _ Hok1 Ht Hexec) as [Hok2 Hrec].
  rewrite <- (Z2Nat.id seq) by lia. by apply recorded_put.
Qed.

(** The expiry is absolute: no sequence of commands moves it, and at or
    after it every command removes the mailbox, delivers nothing and reports
    the deletion of every body still queued. *)
Theorem expiry_absolute `{Sha256} mb cmds mb' now cmd :
  mailbox_ok mb -> exec mb cmds mb' -> mb_expires_at mb <= now ->
  mb_expires_at mb' = mb_expires_at mb /\
  exists effects, transition mb' now cmd = Ok (mkMailboxTransition None effects) /\
    delivered effects = [] /\
    forall m ms f, member mb' m = Some ms -> f ∈ ms_frames ms -> is_Some (fr_body f) ->
      MailboxEffect_BodyDeleted m (fr_seq f) ∈ effects.
Proof.
  intros Hok Hexec Hnow.
  destruct (exec_invariant (fun m => mb_expires_at m = mb_expires_at mb) mb cmds mb') as [Hok' Heq]; auto.
  { intros mb0 n c t mb1 _ <- Hs Hm. eapply step_identity in Hm as (_ & _ & ? & _); eauto. }
  split; [done|]. unfold transition. rewrite (proj2 (Z.leb_le _ _)) by lia.
  unfold reap. rewrite (proj2 (Z.ltb_ge _ _)) by lia. rewrite delete_bodies_eq by done. simpl.
  eexists. split; [done|]. split.
  - rewrite delivered_app, delivered_all_deleted. by destruct (is_terminal _).
  - intros m ms f Hm Hf Hb. apply elem_of_app. left. by eapply all_deleted_complete.
Qed.

(** In a protected (credential/v2) mailbox a claimant exists only if some
    command presented a claim token whose commitment is the one fixed at
    allocation, the claimant holds the hash of that command, and the
    commitment is no longer in the state. *)
Theorem v2_claim_requires_token `{Sha256} input mb cmds mb' c :
  allocate_v2 input = Ok mb -> exec mb cmds mb' -> mb_claimant mb' = Some c ->
  (exists now token, (now, MailboxCommand_ClaimV2 (ms_hash c) token) ∈ cmds /\
     claim_commitment (v2_mailbox_id input) token = v2_claim_commitment input) /\
  forall cm, mb_admission mb' <> AdmissionSnapshot_V2Pending cm.
Proof.
  intros Ha Hexec Hc. apply allocate_v2_shape in Ha as (Hwf & Hno & _ & Had & Hid).
  destruct (exec_protected (v2_mailbox_id input) (v2_claim_commitment input) [] mb cmds mb')
    as (seen & Hsub & Hp); [apply Hwf| |done|].
  { split; [done|congruence|by rewrite Had; intros ? [= <-]|congruence]. }
  destruct (pr_claimant _ _ _ _ Hp c Hc) as (now & token & Hin & Hcm). split.
  - exists now, token. split; [by apply Hsub|done].
  - intros cm Hcm'. assert (mailbox_ok mb') as Hok'.
    { eapply (exec_invariant (fun _ => True)); eauto. apply Hwf. }
    pose proof (ok_admission _ Hok') as Hadm. pose proof (ok_status _ Hok') as Hst.
    unfold admission_ok, status_ok in *. rewrite Hcm' in Hadm.
    destruct (mb_status mb'); congruence.
Qed.

(** Persistence loses nothing: reading back the snapshot of any mailbox
    that satisfies the invariant gives the same mailbox, counters included. *)
Theorem snapshot_roundtrip `{Sha256} mb : mailbox_ok mb -> from_snapshot (snapshot mb) = Ok mb.
Proof. apply from_snapshot_snapshot. Qed.

(** Nothing invalid is restored: a snapshot is accepted only when the
    mailbox built from it satisfies the invariant, and that mailbox has the
    given snapshot, up to the order in which the sequences were listed. *)
Theorem restore_sound `{Sha256} s mb :
  snapshot_typed s -> from_snapshot s = Ok mb ->
  mailbox_ok mb /\ exists seqs, seqs ≡ₚ sn_sequences s /\
    snapshot mb = mkMailboxSnapshot (sn_mailbox_id s) (sn_nameplate s) (sn_expires_at s)
      (sn_status s) (sn_admission s) (sn_membership_hashes s) seqs.
Proof. apply from_snapshot_sound. Qed.

(** ** Concrete runs *)

Definition demo_input : AllocationInput := mkAllocationInput [1] (Some 7) [2] 1000 None.
Definition demo_mailbox : Mailbox :=
  mkMailbox [1] (Some 7) 1600 MailboxStatus_Waiting AdmissionSnapshot_V1 (new_member [2]) None 0.
Definition demo_commands : list (Z * MailboxCommand) :=
  [(1001, MailboxCommand_Claim [3]);
   (1002, MailboxCommand_Put Membership_Allocator 0 [10; 11]);
   (1003, MailboxCommand_Open [3]);
   (1004, MailboxCommand_Put Membership_Allocator 2 [12]);
   (1005, MailboxCommand_Ack Membership_Claimant 0);
   (1006, MailboxCommand_Put Membership_Claimant 0 [13])].
(** The state after [demo_commands]. *)
Definition demo_final : Mailbox :=
  mkMailbox [1] (Some 7) 1600 MailboxStatus_Paired AdmissionSnapshot_V1
    (mkMemberState [2] 1 [mkFrameRecord 0 (sha256 [10; 11]) 2 None])
    (Some (mkMemberState [3] 1 [mkFrameRecord 0 (sha256 [13]) 1 (Some [13])])) 1.

Definition demo_token : bytes := [42].
Definition demo_v2_input : V2AllocationInput :=
  mkV2AllocationInput [1] [2] (claim_commitment [1] demo_token) 1000 None.
Definition demo_v2_mailbox : Mailbox :=
  mkMailbox [1] None 1900 MailboxStatus_Waiting
    (AdmissionSnapshot_V2Pending (claim_commitment [1] demo_token)) (new_member [2]) None 0.

(** Replays a concrete execution. *)
Ltac demo_exec :=
  repeat first
    [ apply exec_nil
    | eapply exec_step; [vm_compute; intuition discriminate | vm_compute; reflexivity | reflexivity |]
    | eapply exec_refused; [vm_compute; intuition discriminate | vm_compute; reflexivity |] ].

Lemma demo_allocated : allocated demo_mailbox.
Proof. left. by exists demo_input. Qed.
Lemma demo_ok : mailbox_ok demo_mailbox.
Proof. apply wf_ok, (allocated_fresh _ demo_allocated). Qed.
Lemma demo_typed : Forall (fun c => command_typed c.2) demo_commands.
Proof. repeat constructor; vm_compute; intuition discriminate. Qed.
Lemma demo_execution : exec demo_mailbox demo_commands demo_final.
Proof. demo_exec. Qed.
Lemma demo_final_ok : mailbox_ok demo_final.
Proof.
  apply (exec_invariant (fun _ => True) demo_mailbox demo_commands);
    eauto using demo_ok, demo_execution.
Qed.

Lemma reachable_invariant_witness :
  mailbox_wf demo_final /\
  transition demo_final 1007 (MailboxCommand_Close Membership_Claimant) <> Panic.
Proof.
  apply (reachable_invariant demo_final 1007 (MailboxCommand_Close Membership_Claimant)); [|done].
  by eapply (reach_allocate demo_input), demo_execution.
Defined.

Lemma mailbox_refines_spec_witness :
  run demo_mailbox demo_commands = spec_run (fresh demo_mailbox) demo_commands.
Proof.
  destruct (mailbox_refines_spec demo_mailbox demo_commands demo_allocated demo_typed)
    as [Heq|(b & b' & Hb & Hb' & Hne & Hlen & Hsha)]; [exact Heq|exfalso].
  unfold put_bodies in Hb, Hb'. simpl in Hb, Hb'. rewrite !elem_of_cons, elem_of_nil in Hb, Hb'.
  destruct Hb as [->|[->|[->|[]]]], Hb' as [->|[->|[->|[]]]]; first [congruence|vm_compute in Hlen; discriminate|vm_compute in Hsha; discriminate].
Defined.

Lemma delivery_integrity_witness :
  delivered_run (run demo_mailbox demo_commands) =
    [(Membership_Allocator, 0, [10; 11]); (Membership_Allocator, 0, [10; 11]);
     (Membership_Claimant, 0, [13])] /\
  forall e, e ∈ delivered_run (run demo_mailbox demo_commands) ->
    e ∈ stored_run demo_commands (run demo_mailbox demo_commands).
Proof.
  split; [vm_compute; reflexivity|].
  apply (delivery_integrity demo_mailbox demo_commands demo_allocated demo_typed).
Defined.

(** The frame stored second, retried with other octets after its release. *)
Lemma stored_frame_immutable_witness :
  transition demo_final 1010 (MailboxCommand_Put Membership_Allocator 0 [99]) =
  Ok (mkMailboxTransition (Some (closed_mailbox demo_final CloseReason_Conflict))
        (all_deleted demo_final ++ [MailboxEffect_Terminal CloseReason_Conflict])).
Proof.
  set (claimed := mkMailbox [1] (Some 7) 1600 MailboxStatus_Paired AdmissionSnapshot_V1
    (new_member [2]) (Some (new_member [3])) 0).
  eapply (stored_frame_immutable claimed 1002 Membership_Allocator 0 [10; 11] _ _
    (drop 2 demo_commands) demo_final 1010 [99]).
  - apply (exec_invariant (fun _ => True) demo_mailbox (take 1 demo_commands));
      [done|apply demo_ok|done|demo_exec].
  - by vm_compute; intuition discriminate.
  - vm_compute. reflexivity.
  - reflexivity.
  - reflexivity.
  - demo_exec.
  - by split.
  - by vm_compute; intuition discriminate.
Defined.

Lemma expiry_absolute_witness :
  mb_expires_at demo_final = mb_expires_at demo_mailbox /\
  exists effects, transition demo_final 1600 (MailboxCommand_Open [3]) = Ok (mkMailboxTransition None effects) /\
    MailboxEffect_BodyDeleted Membership_Claimant 0 ∈ effects.
Proof.
  destruct (expiry_absolute demo_mailbox demo_commands demo_final 1600 (MailboxCommand_Open [3])
    demo_ok demo_execution) as (He & effects & Ht & _ & Hdel); [done|].
  split; [done|]. exists effects. split; [done|].
  apply (Hdel Membership_Claimant (mkMemberState [3] 1 [mkFrameRecord 0 (sha256 [13]) 1 (Some [13])])
    (mkFrameRecord 0 (sha256 [13]) 1 (Some [13]))); [done|apply list_elem_of_here|by eexists].
Defined.

Lemma v2_claim_requires_token_witness :
  exists mb' c, exec demo_v2_mailbox [(1001, MailboxCommand_ClaimV2 [3] demo_token)] mb' /\
    mb_claimant mb' = Some c /\
    exists now token,
      (now, MailboxCommand_ClaimV2 (ms_hash c) token) ∈ [(1001, MailboxCommand_ClaimV2 [3] demo_token)] /\
      claim_commitment [1] token = claim_commitment [1] demo_token.
Proof.
  eexists _, _. assert (exec demo_v2_mailbox [(1001, MailboxCommand_ClaimV2 [3] demo_token)] _)
    as Hx by demo_exec.
  split; [exact Hx|]. split; [reflexivity|].
  apply (v2_claim_requires_token demo_v2_input demo_v2_mailbox _ _ _ eq_refl Hx eq_refl).
Defined.

Lemma snapshot_roundtrip_witness : from_snapshot (snapshot demo_final) = Ok demo_final.
Proof. apply (snapshot_roundtrip demo_final demo_final_ok). Defined.

(** The sequences of a stored snapshot may be listed in any order. *)
Definition demo_snapshot : MailboxSnapshot :=
  mkMailboxSnapshot [1] None 1600 MailboxStatus_Paired AdmissionSnapshot_V2Claimed [[2]; [3]]
    [mkSequenceSnapshot Membership_Claimant 0 (sha256 [13]) 1 (Some [13]);
     mkSequenceSnapshot Membership_Allocator 1 (sha256 [10]) 1 None;
     mkSequenceSnapshot Membership_Allocator 0 (sha256 [11]) 1 (Some [11])].

Lemma restore_sound_witness :
  exists mb, from_snapshot demo_snapshot = Ok mb /\ mailbox_ok mb /\
    exists seqs, seqs ≡ₚ sn_sequences demo_snapshot /\ sn_sequences (snapshot mb) = seqs.
Proof.
  assert (exists mb, from_snapshot demo_snapshot = Ok mb) as [mb Hmb]
    by (eexists; vm_compute; reflexivity).
  exists mb. destruct (restore_sound demo_snapshot mb) as [Hok (seqs & Hp & Hs)]; [|done|].
  - repeat constructor; done.
  - split_and!; [done..|]. exists seqs. by rewrite Hs.
Defined.
