(* ===== verification/Limiter.v ===== *)
(** * The operation limiter ([src/limiter.rs])

    First the part of [std::net::IpAddr] that [Limiter::peer_key] reads, then
    the limiter: a sliding window per (operation, pseudonymous peer key), a
    cooldown when the window is full, a hard cap on the number of dimensions
    with least-recently-used eviction, and periodic sweeps.  The eight-element
    policy array is a list indexed by [index]; indexing is total because
    [LimiterConfig_new] fixes its length. *)

From S2P Require Import Prelude External.

Inductive IpAddr : Type :=
| IpAddr_V4 (octets : bytes)
| IpAddr_V6 (octets : bytes).

(** [char::to_digit(radix)]. *)
Definition to_digit (radix c : Z) : option Z :=
  let d := if (48 <=? c) && (c <=? 57) then c - 48
           else if (97 <=? c) && (c <=? 102) then c - 87
           else if (65 <=? c) && (c <=? 70) then c - 55
           else 255 in
  if d <? radix then Some d else None.

(** The digits at the front of the input, at most [fuel] of them. *)
Fixpoint read_digits (radix : Z) (fuel : nat) (input : bytes) : list Z * bytes :=
  match fuel, input with
  | S fuel, c :: rest =>
      match to_digit radix c with
      | Some d => let '(ds, tail) := read_digits radix fuel rest in (d :: ds, tail)
      | None => ([], input)
      end
  | _, _ => ([], input)
  end.

(** [read_number]: at most [max_digits] digits, a bounded value, and no
    leading zero unless allowed. *)
Definition read_number (radix : Z) (max_digits : nat) (max_value : Z) (allow_zero_prefix : bool)
    (input : bytes) : option (Z * bytes) :=
  let '(ds, tail) := read_digits radix (length input) input in
  if (max_digits <? length ds)%nat || (length ds =? 0)%nat then None
  else if negb allow_zero_prefix && (1 <? length ds)%nat && bool_decide (head ds = Some 0) then None
  else let v := fold_left (fun acc d => acc * radix + d) ds 0 in
       if v <=? max_value then Some (v, tail) else None.

Definition read_given_char (c : Z) (input : bytes) : option bytes :=
  match input with
  | x :: rest => if x =? c then Some rest else None
  | [] => None
  end.

(** [read_separator]: a separator before every element but the first. *)
Definition read_separator {A} (sep : Z) (index : nat) (inner : bytes -> option (A * bytes))
    (input : bytes) : option (A * bytes) :=
  match index with
  | O => inner input
  | S _ => rest ← read_given_char sep input; inner rest
  end.

Fixpoint read_octets (index n : nat) (input : bytes) : option (bytes * bytes) :=
  match n with
  | O => Some ([], input)
  | S n =>
      '(v, rest) ← read_separator 46 index (read_number 10 3 255 false) input;
      '(vs, rest) ← read_octets (S index) n rest;
      Some (v :: vs, rest)
  end.

Definition read_ipv4_addr (input : bytes) : option (bytes * bytes) := read_octets 0 4 input.

(** [read_groups]: up to [left] sixteen-bit groups, as big-endian octet
    pairs, from position [index] on, and whether the last two came from an
    embedded IPv4 address. *)
Fixpoint read_groups (index left : nat) (input : bytes) : list bytes * bool * bytes :=
  match left with
  | O => ([], false, input)
  | S left' =>
      match (if (1 <=? left')%nat then read_separator 58 index read_ipv4_addr input else None) with
      | Some (octets, rest) => ([take 2 octets; drop 2 octets], true, rest)
      | None =>
          match read_separator 58 index (read_number 16 4 65535 true) input with
          | Some (g, rest) =>
              let '(gs, v4, rest) := read_groups (S index) left' rest in
              ([g / 256; g mod 256] :: gs, v4, rest)
          | None => ([], false, input)
          end
      end
  end.

Definition read_ipv6_addr (input : bytes) : option (bytes * bytes) :=
  let '(hd, head_ipv4, rest) := read_groups 0 8 input in
  if (length hd =? 8)%nat then Some (concat hd, rest)
  else if head_ipv4 then None
  else
    rest ← read_given_char 58 rest;
    rest ← read_given_char 58 rest;
    let '(tl, _, rest) := read_groups 0 (8 - (length hd + 1)) rest in
    Some (concat (hd ++ replicate (8 - length hd - length tl) [0; 0] ++ tl), rest).

(** [parse::<IpAddr>()]: IPv4 first, then IPv6, and the whole input read. *)
Definition parse_ip (input : bytes) : option IpAddr :=
  '(addr, rest) ←
    match read_ipv4_addr input with
    | Some (o, rest) => Some (IpAddr_V4 o, rest)
    | None => '(o, rest) ← read_ipv6_addr input; Some (IpAddr_V6 o, rest)
    end;
  match rest with [] => Some addr | _ => None end.

(** [to_ipv4_mapped]: [::ffff:a.b.c.d]. *)
Definition to_ipv4_mapped (octets : bytes) : option bytes :=
  if bool_decide (take 12 octets = replicate 10 0 ++ [255; 255]) then Some (drop 12 octets) else None.

Example parse_ip_v4 : parse_ip (ascii_bytes "192.0.2.1") = Some (IpAddr_V4 [192; 0; 2; 1]).
Proof. reflexivity. Qed.
Example parse_ip_leading_zero : parse_ip (ascii_bytes "192.0.02.1") = None.
Proof. reflexivity. Qed.
Example parse_ip_v6 :
  parse_ip (ascii_bytes "2001:db8::7") =
    Some (IpAddr_V6 [32; 1; 13; 184; 0; 0; 0; 0; 0; 0; 0; 0; 0; 0; 0; 7]).
Proof. reflexivity. Qed.
Example parse_ip_mapped :
  parse_ip (ascii_bytes "::ffff:192.0.2.1") =
    Some (IpAddr_V6 [0; 0; 0; 0; 0; 0; 0; 0; 0; 0; 255; 255; 192; 0; 2; 1]).
Proof. reflexivity. Qed.

(** ** The operation limiter ([src/limiter.rs])

    A sliding window per (operation, pseudonymous peer key), a cooldown when
    the window is full, a hard cap on the number of dimensions with
    least-recently-used eviction, and periodic sweeps.  The eight-element
    policy array is a list indexed by [index]; indexing is total because
    [LimiterConfig_new] fixes its length. *)

Definition COOLDOWN_SECONDS : Z := 300.

Inductive Operation : Type :=
| Operation_Bind | Operation_Allocate | Operation_Claim | Operation_Open
| Operation_Put | Operation_Ack | Operation_Close | Operation_Ping.

#[export] Instance Operation_eq_dec : EqDecision Operation.
Proof. solve_decision. Defined.

Definition Operation_ALL : list Operation :=
  [Operation_Bind; Operation_Allocate; Operation_Claim; Operation_Open;
   Operation_Put; Operation_Ack; Operation_Close; Operation_Ping].

Definition index (op : Operation) : nat :=
  match op with
  | Operation_Bind => 0
  | Operation_Allocate => 1
  | Operation_Claim => 2
  | Operation_Open => 3
  | Operation_Put => 4
  | Operation_Ack => 5
  | Operation_Close => 6
  | Operation_Ping => 7
  end.

Lemma index_inj op : Operation_ALL !! index op = Some op.
Proof. by destruct op. Qed.

#[export] Instance Operation_countable : Countable Operation :=
  inj_countable index (fun n => Operation_ALL !! n) index_inj.
(** The derived order follows the declaration. *)
#[export] Instance ord_Operation : Ord Operation := fun a b => (index a <=? index b)%nat.
#[export] Instance ord_Operation_laws : OrdLaws Operation.
Proof.
  split; unfold leb, ord_Operation; intros *; rewrite ?Nat.leb_le; try lia.
  intros ? ?. assert (Some x = Some y) by (rewrite <- !index_inj; f_equal; lia). congruence.
Qed.

(** [PeerKey] is a 32-octet array. *)
Abbreviation PeerKey := bytes (only parsing).
Abbreviation Dimension := (Operation * PeerKey)%type (only parsing).

Record OperationPolicy := mkOperationPolicy { limit : Z; window_seconds : Z }.

Record LimiterConfig := mkLimiterConfig {
  policies : list OperationPolicy;
  entry_cap : Z;
  sweep_interval_seconds : Z
}.

Definition LimiterConfig_new (default_policy : OperationPolicy) (cap sweep_interval : Z) : LimiterConfig :=
  mkLimiterConfig (replicate 8 default_policy) cap sweep_interval.

Definition with_policy (c : LimiterConfig) (op : Operation) (p : OperationPolicy) : LimiterConfig :=
  mkLimiterConfig (<[index op := p]> (policies c)) (entry_cap c) (sweep_interval_seconds c).

Definition policy_of (c : LimiterConfig) (op : Operation) : OperationPolicy :=
  nth (index op) (policies c) (mkOperationPolicy 0 0).

Inductive LimitDecision : Type :=
| LimitDecision_Allowed (remaining : Z)
| LimitDecision_Cooldown (retry_at : Z).

Inductive LimiterError : Type :=
| LimiterError_InvalidConfiguration
| LimiterError_TimeOverflow
| LimiterError_EmptyPeerAddress.

Record LimiterSnapshot := mkLimiterSnapshot {
  ls_entry_count : Z;
  ls_dimensions : list Dimension;
  ls_clock_reversals : Z;
  ls_capacity_evictions : Z
}.

Record Entry := mkEntry {
  attempts : list Z;
  cooldown_until : option Z;
  en_recency : Z
}.

Record Limiter := mkLimiter {
  operator_key : bytes;
  config : LimiterConfig;
  entries : gmap Dimension Entry;
  recency : gset (Z * Operation * PeerKey);
  next_recency : Z;
  last_now : option Z;
  last_sweep : option Z;
  clock_reversals : Z;
  capacity_evictions : Z
}.

Definition limM := stM Limiter LimiterError.

(** ** Field updates *)

Definition set_entries (e : gmap Dimension Entry) (r : gset (Z * Operation * PeerKey)) (l : Limiter) :=
  mkLimiter (operator_key l) (config l) e r (next_recency l) (last_now l) (last_sweep l)
    (clock_reversals l) (capacity_evictions l).
Definition set_next_recency (n : Z) (l : Limiter) :=
  mkLimiter (operator_key l) (config l) (entries l) (recency l) n (last_now l) (last_sweep l)
    (clock_reversals l) (capacity_evictions l).
Definition set_clock (now : option Z) (reversals : Z) (l : Limiter) :=
  mkLimiter (operator_key l) (config l) (entries l) (recency l) (next_recency l) now (last_sweep l)
    reversals (capacity_evictions l).
Definition set_last_sweep (s : option Z) (l : Limiter) :=
  mkLimiter (operator_key l) (config l) (entries l) (recency l) (next_recency l) (last_now l) s
    (clock_reversals l) (capacity_evictions l).
Definition set_evictions (n : Z) (l : Limiter) :=
  mkLimiter (operator_key l) (config l) (entries l) (recency l) (next_recency l) (last_now l)
    (last_sweep l) (clock_reversals l) n.

(** ** Construction and inspection *)

Definition Limiter_new (key : bytes) (c : LimiterConfig) : outcome LimiterError Limiter :=
  if (entry_cap c =? 0) || (sweep_interval_seconds c =? 0) ||
     existsb (fun p => (limit p =? 0) || (window_seconds p =? 0)) (policies c)
  then Err LimiterError_InvalidConfiguration
  else Ok (mkLimiter key c ∅ ∅ 0 None None 0 0).

Definition entry_count (l : Limiter) : Z := Z.of_nat (size (entries l)).

Definition Limiter_snapshot (l : Limiter) : LimiterSnapshot :=
  mkLimiterSnapshot (entry_count l) (bmap_keys (entries l)) (clock_reversals l) (capacity_evictions l).

(** ** Steps *)

(** The clock as the limiter sees it: never backwards. *)
Definition effective_now (l : Limiter) (now : Z) : Z :=
  match last_now l with Some last => Z.max last now | None => now end.

Definition observe_time (now : Z) : limM Z := fun l =>
  let effective := effective_now l now in
  let reversals := if negb (effective =? now) then saturating_add u64_max (clock_reversals l) 1
                   else clock_reversals l in
  (set_clock (Some effective) reversals l, Ok effective).

Definition peer_domain : bytes := ascii_bytes "cbcl-pairing-peer/v1".

(** What is hashed after the domain: a tag and the address octets; IPv6 is
    cut to its /64, and an IPv4-mapped address counts as IPv4. *)
Definition peer_suffix (canonical_peer_address : bytes) : bytes :=
  match parse_ip canonical_peer_address with
  | Some (IpAddr_V4 octets) => [4] ++ octets
  | Some (IpAddr_V6 octets) =>
      match to_ipv4_mapped octets with
      | Some v4 => [4] ++ v4
      | None => [6] ++ take 8 octets
      end
  | None => [0] ++ canonical_peer_address
  end.

(** [while front.is_some_and(expired) { pop_front }]. *)
Fixpoint prune (window now : Z) (ts : list Z) : list Z :=
  match ts with
  | t :: rest => if window <=? saturating_sub now t then prune window now rest else ts
  | [] => []
  end.

Definition prune_attempts (window now : Z) (e : Entry) : Entry :=
  mkEntry (prune window now (attempts e)) (cooldown_until e) (en_recency e).

(** One entry's turn in [sweep_inner]: kept (pruned) or removed. *)
Definition sweep_entry (c : LimiterConfig) (now : Z) (d : Dimension) (e : Entry) : option Entry :=
  match cooldown_until e with
  | Some retry_at => if retry_at <=? now then None else Some e
  | None =>
      let e := prune_attempts (window_seconds (policy_of c d.1)) now e in
      match attempts e with [] => None | _ => Some e end
  end.

(** The dimensions [sweep_inner] removes, with their recency. *)
Definition swept (c : LimiterConfig) (now : Z) (m : gmap Dimension Entry) :
    list (Z * Operation * PeerKey) :=
  omap (fun de => match sweep_entry c now de.1 de.2 with
                  | None => Some (en_recency de.2, de.1.1, de.1.2)
                  | Some _ => None
                  end) (map_to_list m).

Definition sweep_inner (now : Z) : limM Z := fun l =>
  let removed := swept (config l) now (entries l) in
  (set_entries (map_imap (sweep_entry (config l) now) (entries l))
     (recency l ∖ list_to_set removed) l,
   Ok (Z.of_nat (length removed))).

Definition take_recency : limM Z :=
  l ← get;
  next ← lift (ok_or (checked_add u64_max (next_recency l) 1) LimiterError_TimeOverflow);
  _ ← modify (set_next_recency next);
  mret (next_recency l).

Definition touch (d : Dimension) : limM unit :=
  l ← get;
  e ← lift (expect (entries l !! d));
  _ ← modify (set_entries (entries l) (recency l ∖ {[(en_recency e, d.1, d.2)]}));
  r ← take_recency;
  l ← get;
  e ← lift (expect (entries l !! d));
  modify (set_entries (<[d := mkEntry (attempts e) (cooldown_until e) r]> (entries l))
            ({[(r, d.1, d.2)]} ∪ recency l)).

Definition evict_lru : limM unit :=
  l ← get;
  match bset_first (recency l) with
  | None => mret tt
  | Some victim =>
      _ ← modify (set_entries (delete (victim.1.2, victim.2) (entries l)) (recency l ∖ {[victim]}));
      modify (fun l => set_evictions (saturating_add u64_max (capacity_evictions l) 1) l)
  end.

(** Write through [entries.get_mut(&dimension)]. *)
Definition put_entry (d : Dimension) (e : Entry) : limM unit :=
  modify (fun l => set_entries (<[d := e]> (entries l)) (recency l) l).

(** The window test on an entry that is not cooling down. *)
Definition window_entry (policy : OperationPolicy) (d : Dimension) (now : Z) (e : Entry) :
    limM LimitDecision :=
  let e := prune_attempts (window_seconds policy) now e in
  _ ← put_entry d e;
  if limit policy <=? Z.of_nat (length (attempts e)) then
    retry_at ← lift (ok_or (checked_add u64_max now COOLDOWN_SECONDS) LimiterError_TimeOverflow);
    _ ← put_entry d (mkEntry (attempts e) (Some retry_at) (en_recency e));
    mret (LimitDecision_Cooldown retry_at)
  else
    let e := mkEntry (attempts e ++ [now]) (cooldown_until e) (en_recency e) in
    _ ← put_entry d e;
    remaining ← lift (expect (checked_sub (limit policy) (Z.of_nat (length (attempts e)))));
    mret (LimitDecision_Allowed remaining).

(** The decision on a dimension that is already known. *)
Definition check_entry (policy : OperationPolicy) (d : Dimension) (now : Z) : limM LimitDecision :=
  _ ← touch d;
  l ← get;
  e ← lift (expect (entries l !! d));
  match cooldown_until e with
  | Some retry_at =>
      if now <? retry_at then mret (LimitDecision_Cooldown retry_at)
      else window_entry policy d now (mkEntry [] None (en_recency e))
  | None => window_entry policy d now e
  end.

(** The first attempt of a dimension. *)
Definition check_new (policy : OperationPolicy) (d : Dimension) (now : Z) : limM LimitDecision :=
  l ← get;
  _ ← (if entry_cap (config l) <=? entry_count l then evict_lru else mret tt);
  r ← take_recency;
  _ ← modify (fun l => set_entries (<[d := mkEntry [now] None r]> (entries l))
                         ({[(r, d.1, d.2)]} ∪ recency l) l);
  remaining ← lift (expect (checked_sub (limit policy) 1));
  mret (LimitDecision_Allowed remaining).

Definition sweep (now : Z) : limM Z :=
  now ← observe_time now;
  removed ← sweep_inner now;
  _ ← modify (set_last_sweep (Some now));
  mret removed.

(** A sweep is due when none has run or the interval has passed. *)
Definition sweep_due (l : Limiter) (now : Z) : bool :=
  match last_sweep l with
  | None => true
  | Some last => sweep_interval_seconds (config l) <=? saturating_sub now last
  end.

Definition sweep_if_due (now : Z) : limM Z :=
  now ← observe_time now;
  l ← get;
  if negb (sweep_due l now) then mret 0
  else
    removed ← sweep_inner now;
    _ ← modify (set_last_sweep (Some now));
    mret removed.

Section Check.
Context `{HmacSha256}.

Definition peer_key (l : Limiter) (canonical_peer_address : bytes) : PeerKey :=
  hmac_sha256 (operator_key l) (peer_domain ++ peer_suffix canonical_peer_address).

(** The part of [check] after the clock and the periodic sweep. *)
Definition check_dimension (op : Operation) (canonical_peer_address : bytes) (now : Z) :
    limM LimitDecision :=
  l ← get;
  let d := (op, peer_key l canonical_peer_address) in
  let policy := policy_of (config l) op in
  if bool_decide (is_Some (entries l !! d)) then check_entry policy d now
  else check_new policy d now.

Definition check (op : Operation) (canonical_peer_address : bytes) (now : Z) : limM LimitDecision :=
  if bool_decide (canonical_peer_address = []) then throw LimiterError_EmptyPeerAddress else
  now ← observe_time now;
  l ← get;
  _ ← (if sweep_due l now then
         _ ← sweep_inner now;
         modify (set_last_sweep (Some now))
       else mret tt);
  check_dimension op canonical_peer_address now.
End Check.
