(* ===== verification/LimiterInv.v ===== *)
(** * The limiter's invariant

    [limiter_ok]: the number of dimensions never exceeds the cap, the recency
    index mirrors the entries, recencies are distinct and below the next one,
    no window holds more attempts than its policy allows, and a cooldown ends
    no earlier than [COOLDOWN_SECONDS] after every attempt it punishes.
    The state-passing operations are first put in closed form. *)

From S2P Require Import Prelude External Limiter.

(** ** One entry *)

Definition window_decision (p : OperationPolicy) (now : Z) (e : Entry) :
    Entry * outcome LimiterError LimitDecision :=
  let e := prune_attempts (window_seconds p) now e in
  if limit p <=? Z.of_nat (length (attempts e)) then
    match checked_add u64_max now COOLDOWN_SECONDS with
    | Some r => (mkEntry (attempts e) (Some r) (en_recency e), Ok (LimitDecision_Cooldown r))
    | None => (e, Err LimiterError_TimeOverflow)
    end
  else (mkEntry (attempts e ++ [now]) (cooldown_until e) (en_recency e),
        Ok (LimitDecision_Allowed (limit p - Z.of_nat (length (attempts e)) - 1))).

(** The new entry and the answer, as a function of the old entry. *)
Definition decide_entry (p : OperationPolicy) (now : Z) (e : Entry) :
    Entry * outcome LimiterError LimitDecision :=
  match cooldown_until e with
  | Some r => if now <? r then (e, Ok (LimitDecision_Cooldown r))
              else window_decision p now (mkEntry [] None (en_recency e))
  | None => window_decision p now e
  end.

Record entry_ok (p : OperationPolicy) (now : Z) (e : Entry) : Prop := {
  eo_len : Z.of_nat (length (attempts e)) <= limit p;
  eo_past : Forall (fun t => t <= now) (attempts e);
  eo_cool : forall r, cooldown_until e = Some r ->
    r <= now + COOLDOWN_SECONDS /\ Forall (fun t => t + COOLDOWN_SECONDS <= r) (attempts e)
}.

Definition policy_ok (p : OperationPolicy) : Prop := 0 < limit p /\ 0 < window_seconds p.

(** The attempts an answer adds. *)
Definition accepted (now : Z) (r : outcome LimiterError LimitDecision) : list Z :=
  match r with Ok (LimitDecision_Allowed _) => [now] | _ => [] end.

(** [keep old new]: [new] is [old] without a prefix of expired attempts. *)
Definition shrinks (p : OperationPolicy) (now : Z) (old new : list Z) : Prop :=
  exists gone, old = gone ++ new /\ Forall (fun t => t + window_seconds p <= now) gone.

Lemma shrinks_refl p now l : shrinks p now l l.
Proof. by exists []. Qed.

Lemma prune_shrinks p now ts :
  0 < window_seconds p -> shrinks p now ts (prune (window_seconds p) now ts).
Proof.
  intros Hw. induction ts as [|t ts (gone & Heq & Hg)]; simpl; [apply shrinks_refl|].
  destruct (_ <=? _) eqn:Hle; [|apply shrinks_refl].
  exists (t :: gone). simpl. rewrite <- Heq. split; [done|]. constructor; [|done].
  bool_to_prop. unfold saturating_sub in Hle. lia.
Qed.

Lemma entry_ok_prune p now now' e :
  0 < window_seconds p -> entry_ok p now e -> now <= now' ->
  entry_ok p now' (prune_attempts (window_seconds p) now' e).
Proof.
  intros Hw [Hl Hp Hc] Hle. destruct (prune_shrinks p now' (attempts e) Hw) as (gone & Heq & _).
  assert (forall P : Z -> Prop, Forall P (attempts e) ->
    Forall P (prune (window_seconds p) now' (attempts e))) as Hsub.
  { intros P HP. rewrite Heq in HP. by apply Forall_app in HP as [_ ?]. }
  split; simpl.
  - apply (f_equal length) in Heq. rewrite length_app in Heq. lia.
  - apply Hsub. eapply Forall_impl; [done|]. simpl. intros; lia.
  - intros r Hr. destruct (Hc r Hr) as [? ?]. split; [lia|]. auto.
Qed.

Lemma entry_ok_later p now now' e : entry_ok p now e -> now <= now' -> entry_ok p now' e.
Proof.
  intros [Hl Hp Hc] Hle. split; [done| |].
  - eapply Forall_impl; [done|]. simpl; intros; lia.
  - intros r Hr. destruct (Hc r Hr). split; [lia|done].
Qed.

Lemma window_decision_spec p now e e' r :
  policy_ok p -> entry_ok p now e -> cooldown_until e = None -> window_decision p now e = (e', r) ->
  entry_ok p now e' /\ en_recency e' = en_recency e /\ r <> Panic /\
  shrinks p now (attempts e ++ accepted now r) (attempts e').
Proof.
  intros [Hlim Hw] Hok Hnone Hd.
  pose proof (entry_ok_prune p now now e Hw Hok ltac:(lia)) as [Hl Hp Hc]. simpl in *.
  destruct (prune_shrinks p now (attempts e) Hw) as (gone & Heq & Hgone).
  unfold window_decision in Hd. simpl in Hd. set (k := prune _ _ _) in *.
  destruct (limit p <=? _) eqn:Hfull; bool_to_prop.
  - destruct (checked_add _ _ _) as [r0|] eqn:Hadd; simplify_eq/=.
    + apply checked_add_some in Hadd as [-> _]. split_and!; try done.
      * split; simpl; [done..|]. intros r [= <-]. split; [lia|].
        eapply Forall_impl; [done|]. simpl; intros; lia.
      * exists gone. by rewrite app_nil_r.
    + split_and!; try done. exists gone. by rewrite app_nil_r.
  - simplify_eq/=. split_and!; try done.
    + split; simpl.
      * rewrite length_app. simpl. lia.
      * apply Forall_app. split; [done|]. repeat constructor. lia.
      * rewrite Hnone. done.
    + exists gone. by rewrite Heq, app_assoc.
Qed.

Lemma decide_entry_spec p now now' e e' r :
  policy_ok p -> entry_ok p now e -> now <= now' -> decide_entry p now' e = (e', r) ->
  entry_ok p now' e' /\ en_recency e' = en_recency e /\ r <> Panic /\
  (window_seconds p <= COOLDOWN_SECONDS ->
   shrinks p now' (attempts e ++ accepted now' r) (attempts e')).
Proof.
  intros Hp Hok Hle Hd. pose proof (entry_ok_later _ _ _ _ Hok Hle) as Hok'. unfold decide_entry in Hd.
  destruct (cooldown_until e) as [r0|] eqn:Hcool.
  - destruct (now' <? r0) eqn:Hlt; simplify_eq; bool_to_prop.
    { split_and!; try done. intros _. rewrite app_nil_r. apply shrinks_refl. }
    apply window_decision_spec in Hd as (? & ? & ? & (gone & Heq & Hg)); [|done| |done].
    2: { destruct Hp. split; simpl; [lia|constructor|done]. }
    split_and!; try done. intros Hwin. simpl in Heq. exists (attempts e ++ gone).
    rewrite <- app_assoc, <- Heq. split; [done|]. apply Forall_app. split; [|done].
    destruct (eo_cool _ _ _ Hok' r0 Hcool) as [_ Hall].
    eapply Forall_impl; [exact Hall|]. simpl; intros; lia.
  - eapply window_decision_spec in Hd; eauto. naive_solver.
Qed.

Lemma sweep_entry_spec c now now' d e :
  let p := policy_of c d.1 in
  policy_ok p -> entry_ok p now e -> now <= now' ->
  match sweep_entry c now' d e with
  | Some e' => entry_ok p now' e' /\ en_recency e' = en_recency e /\
               shrinks p now' (attempts e) (attempts e') /\ cooldown_until e' = cooldown_until e
  | None => window_seconds p <= COOLDOWN_SECONDS -> shrinks p now' (attempts e) []
  end.
Proof.
  intros p [Hlim Hw] Hok Hle. unfold sweep_entry.
  destruct (cooldown_until e) as [r|] eqn:Hcool.
  - destruct (r <=? now') eqn:Hr; bool_to_prop.
    + intros Hwin. exists (attempts e). rewrite app_nil_r. split; [done|].
      destruct (eo_cool _ _ _ Hok r Hcool) as [_ Hall].
      eapply Forall_impl; [exact Hall|]. simpl; intros; lia.
    + split_and!; eauto using entry_ok_later, shrinks_refl.
  - simpl. fold p. pose proof (entry_ok_prune p now now' e Hw Hok Hle) as Hok'.
    pose proof (prune_shrinks p now' (attempts e) Hw) as Hs.
    destruct (prune (window_seconds p) now' (attempts e)) eqn:Hpr.
    + done.
    + split_and!; [done|done| |done]. simpl. by rewrite Hpr.
Qed.

(** ** The operations in closed form *)

Definition untouched (d : Dimension) (e : Entry) (l : Limiter) : Limiter :=
  set_entries (entries l) (recency l ∖ {[(en_recency e, d.1, d.2)]}) l.

(** The state after [touch] and the write of [e']. *)
Definition touched (d : Dimension) (old e' : Entry) (l : Limiter) : Limiter :=
  set_next_recency (next_recency l + 1)
    (set_entries (<[d := e']> (entries l))
       ({[(next_recency l, d.1, d.2)]} ∪ recency l ∖ {[(en_recency old, d.1, d.2)]}) l).

Lemma check_entry_eq p d now l e :
  entries l !! d = Some e ->
  check_entry p d now l =
  if next_recency l + 1 <=? u64_max then
    let '(e', r) := decide_entry p now (mkEntry (attempts e) (cooldown_until e) (next_recency l)) in
    (touched d e e' l, r)
  else (untouched d e l, Err LimiterError_TimeOverflow).
Proof.
  intros He.
  unfold check_entry, touch, take_recency, window_entry, put_entry, get, modify, lift, mret, stM_ret,
    mbind, stM_bind. rewrite He. simpl. unfold checked_add at 1.
  destruct (next_recency l + 1 <=? u64_max); simpl; [|done].
  rewrite He. simpl. rewrite lookup_insert_eq. simpl. unfold decide_entry, window_decision. simpl.
  assert (forall (x y : Entry), <[d:=x]> (<[d:=y]> (entries l)) = <[d:=x]> (entries l)) as Hins
    by (intros; apply insert_insert_eq).
  assert (forall ts : list Z, (limit p <=? Z.of_nat (length ts)) = false ->
    checked_sub (limit p) (Z.of_nat (length (ts ++ [now]))) = Some (limit p - Z.of_nat (length ts) - 1))
    as Hsub.
  { intros ts ?. bool_to_prop. apply checked_sub_some. rewrite length_app. simpl. lia. }
  destruct (cooldown_until e) as [r0|] eqn:Hc; [destruct (now <? r0); [done|]|]; simpl.
  all: destruct (limit p <=? _) eqn:Hlim; simpl.
  all: try (destruct (checked_add _ _ _); simpl; unfold touched, set_entries; simpl; by rewrite !Hins).
  all: unfold touched, set_entries; simpl; rewrite !Hins.
  - pose proof (Hsub [] Hlim) as H0. simpl in H0. rewrite H0. done.
  - rewrite Hsub by done. done.
Qed.

Definition inserted (d : Dimension) (e : Entry) (l : Limiter) : Limiter :=
  set_next_recency (next_recency l + 1)
    (set_entries (<[d := e]> (entries l)) ({[(next_recency l, d.1, d.2)]} ∪ recency l) l).

Definition evicted (victim : Z * Operation * PeerKey) (l : Limiter) : Limiter :=
  set_evictions (saturating_add u64_max (capacity_evictions l) 1)
    (set_entries (delete (victim.1.2, victim.2) (entries l)) (recency l ∖ {[victim]}) l).

(** The state in which [check_new] inserts. *)
Definition make_room (l : Limiter) : Limiter :=
  if entry_cap (config l) <=? entry_count l
  then match bset_first (recency l) with Some v => evicted v l | None => l end
  else l.

Lemma check_new_eq p d now l :
  1 <= limit p ->
  check_new p d now l =
  let l := make_room l in
  if next_recency l + 1 <=? u64_max
  then (inserted d (mkEntry [now] None (next_recency l)) l, Ok (LimitDecision_Allowed (limit p - 1)))
  else (l, Err LimiterError_TimeOverflow).
Proof.
  intros Hlim. unfold check_new, evict_lru, take_recency, make_room, get, modify, lift, mret, stM_ret,
    mbind, stM_bind. simpl.
  destruct (entry_cap (config l) <=? entry_count l); [destruct (bset_first (recency l))|].
  all: unfold checked_add; simpl; case_goal; [|done]; simpl.
  all: rewrite (proj2 (checked_sub_some (limit p) 1 (limit p - 1))) by lia; done.
Qed.

(** ** The invariant *)

Record config_ok (c : LimiterConfig) : Prop := {
  co_cap : 0 < entry_cap c;
  co_policy : forall op, policy_ok (policy_of c op)
}.

Record limiter_ok (l : Limiter) : Prop := {
  lo_config : config_ok (config l);
  lo_cap : entry_count l <= entry_cap (config l);
  lo_next : 0 <= next_recency l <= u64_max;
  lo_index : forall r op k, (r, op, k) ∈ recency l ->
    exists e, entries l !! (op, k) = Some e /\ en_recency e = r;
  lo_indexed : next_recency l < u64_max -> forall op k e, entries l !! (op, k) = Some e ->
    (en_recency e, op, k) ∈ recency l;
  lo_older : forall d e, entries l !! d = Some e -> en_recency e < next_recency l;
  lo_distinct : forall d d' e e', entries l !! d = Some e -> entries l !! d' = Some e' ->
    en_recency e = en_recency e' -> d = d';
  lo_entries : forall d e, entries l !! d = Some e ->
    exists now, last_now l = Some now /\ entry_ok (policy_of (config l) d.1) now e;
  lo_evictions : 0 <= capacity_evictions l <= u64_max
}.

(** ** Preservation *)

Definition clocked (now : Z) (l : Limiter) : Limiter := (observe_time now l).1.

Lemma observe_time_eq now l : observe_time now l = (clocked now l, Ok (effective_now l now)).
Proof. done. Qed.

Lemma last_now_clocked now l : last_now (clocked now l) = Some (effective_now l now).
Proof. done. Qed.

Lemma effective_now_le l now n : last_now l = Some n -> n <= effective_now l now.
Proof. unfold effective_now. intros ->. lia. Qed.

Lemma clocked_ok now l : limiter_ok l -> limiter_ok (clocked now l).
Proof.
  intros Hl. destruct Hl as [? ? ? ? ? ? ? He ?]. split; simpl; auto.
  intros d e Hd. destruct (He d e Hd) as (n & Hn & Hok). eexists. split; [done|].
  eapply entry_ok_later; [done|]. by apply effective_now_le.
Qed.

Definition swept_state (now : Z) (l : Limiter) : Limiter := (sweep_inner now l).1.

Lemma swept_lookup now l d :
  entries (swept_state now l) !! d = entries l !! d ≫= sweep_entry (config l) now d.
Proof. simpl. apply map_lookup_imap. Qed.

Lemma sweep_entry_recency c now d e e' : sweep_entry c now d e = Some e' -> en_recency e' = en_recency e.
Proof. unfold sweep_entry. intros. repeat case_hyp; done. Qed.

(** The recency triples a sweep removes are those of the removed entries. *)
Lemma elem_of_swept c now m r op k :
  (r, op, k) ∈ swept c now m <->
  exists e, m !! (op, k) = Some e /\ en_recency e = r /\ sweep_entry c now (op, k) e = None.
Proof.
  unfold swept. rewrite list_elem_of_omap. split.
  - intros ([[op' k'] e] & Hin%elem_of_map_to_list & Heq). simpl in Heq.
    destruct (sweep_entry _ _ _ _) eqn:E; simplify_eq. eauto.
  - intros (e & He & <- & E). exists ((op, k), e). rewrite elem_of_map_to_list. simpl.
    by rewrite E.
Qed.

Lemma swept_ok now l :
  limiter_ok l -> last_now l = Some now -> limiter_ok (swept_state now l).
Proof.
  intros [? Hcap ? Hix Hixd Hold Hdis He ?] Hnow.
  assert (forall d e', entries (swept_state now l) !! d = Some e' ->
    exists e, entries l !! d = Some e /\ sweep_entry (config l) now d e = Some e' /\
      en_recency e' = en_recency e) as Hfrom.
  { intros d e'. rewrite swept_lookup. intros (e & ? & ?)%bind_Some. eauto using sweep_entry_recency. }
  split; simpl; auto.
  - etransitivity; [|exact Hcap]. unfold entry_count. simpl. apply inj_le.
    rewrite <- !size_dom. apply subseteq_size. intros d. rewrite !elem_of_dom.
    intros [e Hd]. rewrite map_lookup_imap in Hd. apply bind_Some in Hd as (? & ? & _). eauto.
  - intros r op k [Hin Hnot]%elem_of_difference. destruct (Hix r op k Hin) as (e & Hd & <-).
    rewrite elem_of_list_to_set, elem_of_swept in Hnot. rewrite map_lookup_imap, Hd. simpl.
    destruct (sweep_entry _ _ _ e) as [e'|] eqn:Hs; [|by destruct Hnot; eauto].
    exists e'. split; [done|]. by eapply sweep_entry_recency.
  - intros Hn op k e' Hd. destruct (Hfrom (op, k) e' Hd) as (e & He0 & Hs & ->).
    apply elem_of_difference. split; [eauto|]. rewrite elem_of_list_to_set, elem_of_swept.
    intros (e2 & ? & _ & ?). simplify_eq.
  - intros d e' Hd. destruct (Hfrom d e' Hd) as (e & ? & _ & ->). eauto.
  - intros d d' e1 e2 H1 H2. destruct (Hfrom d e1 H1) as (? & ? & _ & ->).
    destruct (Hfrom d' e2 H2) as (? & ? & _ & ->). eauto.
  - intros d e' Hd. destruct (Hfrom d e' Hd) as (e & Hd0 & Hs & _).
    destruct (He d e Hd0) as (n & Hn & Hok). simplify_eq. exists now. split; [done|].
    pose proof (sweep_entry_spec (config l) now now d e) as Hspec. simpl in Hspec.
    rewrite Hs in Hspec. apply Hspec; [by apply co_policy|done|lia].
Qed.

Lemma untouched_ok d e l :
  limiter_ok l -> ~ next_recency l + 1 <= u64_max -> limiter_ok (untouched d e l).
Proof.
  intros [? ? ? Hix ? ? ? ? ?] Hn. split; simpl; auto; [|lia].
  intros r op k [? _]%elem_of_difference. auto.
Qed.

Lemma touched_ok d e e' l now :
  limiter_ok l -> next_recency l + 1 <= u64_max -> last_now l = Some now ->
  entries l !! d = Some e -> en_recency e' = next_recency l ->
  entry_ok (policy_of (config l) d.1) now e' -> limiter_ok (touched d e e' l).
Proof.
  intros [? Hcap ? Hix Hixd Hold Hdis He ?] Hn Hnow Hd Hr Hok. destruct d as [op0 k0]. split; simpl; auto.
  - revert Hcap. unfold entry_count. simpl. rewrite map_size_insert_Some by eauto. done.
  - lia.
  - intros r op k [Heq%elem_of_singleton|[Hin Hnot]%elem_of_difference]%elem_of_union.
    + simplify_eq. rewrite lookup_insert_eq. eauto.
    + destruct (Hix r op k Hin) as (e2 & Hd2 & <-). destruct (decide ((op0, k0) = (op, k))) as [Heq|].
      * simplify_eq. set_solver.
      * rewrite lookup_insert_ne by done. eauto.
  - intros _ op k e2 [[Heq Heq2]|[Hne Hd2]]%lookup_insert_Some; simplify_eq.
    + rewrite Hr. set_solver.
    + apply elem_of_union. right. apply elem_of_difference. split; [apply Hixd; [lia|done]|].
      rewrite elem_of_singleton. intros [=]. naive_solver.
  - intros d2 e2 [[Heq Heq2]|[Hne Hd2]]%lookup_insert_Some; simplify_eq; [lia|].
    specialize (Hold _ _ Hd2). lia.
  - intros d1 d2 e1 e2 H1 H2 Heq.
    apply lookup_insert_Some in H1 as [[? ?]|[? H1]]; apply lookup_insert_Some in H2 as [[? ?]|[? H2]];
      simplify_eq; eauto.
    + specialize (Hold _ _ H2). lia.
    + specialize (Hold _ _ H1). lia.
  - intros d2 e2 [[Heq Heq2]|[Hne Hd2]]%lookup_insert_Some; simplify_eq; eauto.
Qed.

Lemma inserted_ok d e l now :
  limiter_ok l -> next_recency l + 1 <= u64_max -> last_now l = Some now ->
  entries l !! d = None -> entry_count l < entry_cap (config l) -> en_recency e = next_recency l ->
  entry_ok (policy_of (config l) d.1) now e -> limiter_ok (inserted d e l).
Proof.
  intros [? Hcap ? Hix Hixd Hold Hdis He ?] Hn Hnow Hd Hlt Hr Hok. destruct d as [op0 k0]. split; simpl; auto.
  - revert Hlt. unfold entry_count. simpl. rewrite map_size_insert_None by done. lia.
  - lia.
  - intros r op k [Heq%elem_of_singleton|Hin]%elem_of_union.
    + simplify_eq. rewrite lookup_insert_eq. eauto.
    + destruct (Hix r op k Hin) as (e2 & Hd2 & <-). rewrite lookup_insert_ne by congruence. eauto.
  - intros _ op k e2 [[Heq Heq2]|[Hne Hd2]]%lookup_insert_Some; simplify_eq.
    + rewrite Hr. set_solver.
    + apply elem_of_union. right. apply Hixd; [lia|done].
  - intros d2 e2 [[Heq Heq2]|[Hne Hd2]]%lookup_insert_Some; simplify_eq; [lia|].
    specialize (Hold _ _ Hd2). lia.
  - intros d1 d2 e1 e2 H1 H2 Heq.
    apply lookup_insert_Some in H1 as [[? ?]|[? H1]]; apply lookup_insert_Some in H2 as [[? ?]|[? H2]];
      simplify_eq; eauto.
    + specialize (Hold _ _ H2). lia.
    + specialize (Hold _ _ H1). lia.
  - intros d2 e2 [[Heq Heq2]|[Hne Hd2]]%lookup_insert_Some; simplify_eq; eauto.
Qed.

Lemma evicted_ok v l :
  limiter_ok l -> v ∈ recency l -> limiter_ok (evicted v l) /\ entry_count (evicted v l) < entry_count l.
Proof.
  intros [? Hcap ? Hix Hixd Hold Hdis He Hev] Hv. destruct v as [[r0 op0] k0].
  destruct (Hix r0 op0 k0 Hv) as (e0 & Hd0 & Hr0).
  assert (entry_count (evicted (r0, op0, k0) l) < entry_count l) as Hlt.
  { unfold entry_count. simpl. rewrite map_size_delete_Some by eauto.
    assert (size (entries l) <> 0%nat); [|lia]. apply map_size_ne_0_lookup. eauto. }
  split; [|done]. split; simpl; auto.
  - lia.
  - intros r op k [Hin Hnot]%elem_of_difference. destruct (Hix r op k Hin) as (e2 & Hd2 & <-).
    rewrite lookup_delete_ne; [eauto|]. intros [= <- <-]. simplify_eq. set_solver.
  - intros Hlt' op k e2 [Hne Hd2]%lookup_delete_Some. apply elem_of_difference. split; [eauto|].
    rewrite elem_of_singleton. intros [=]. congruence.
  - intros d2 e2 [Hne Hd2]%lookup_delete_Some. eauto.
  - intros d1 d2 e1 e2 [? ?]%lookup_delete_Some [? ?]%lookup_delete_Some. eauto.
  - intros d2 e2 [Hne Hd2]%lookup_delete_Some. eauto.
  - unfold saturating_add, u64_max. lia.
Qed.

(** Room is made whenever the insertion that follows succeeds. *)
Lemma make_room_ok l :
  limiter_ok l ->
  limiter_ok (make_room l) /\ next_recency (make_room l) = next_recency l /\
  (next_recency l + 1 <= u64_max -> entry_count (make_room l) < entry_cap (config l)).
Proof.
  intros Hl. unfold make_room. destruct (_ <=? _) eqn:Hfull; bool_to_prop; [|done].
  destruct (bset_first (recency l)) as [v|] eqn:Hv.
  - apply bset_first_some in Hv as [Hv _]. destruct (evicted_ok v l Hl Hv) as [Hok Hlt].
    split_and!; [done|done|]. pose proof (lo_cap _ Hl). lia.
  - apply bset_first_none in Hv. split_and!; [done|done|]. intros Hn.
    pose proof (co_cap _ (lo_config _ Hl)).
    destruct (map_eq_dec_empty (entries l)) as [Hemp|Hne].
    + unfold entry_count in *. rewrite Hemp, map_size_empty in *. lia.
    + apply map_choose in Hne as ([op k] & e & He).
      assert ((en_recency e, op, k) ∈ recency l) as Hin by (apply (lo_indexed _ Hl); [lia|done]).
      rewrite Hv in Hin. set_solver.
Qed.
