(* ===== verification/LimiterThms.v ===== *)
(** * Theorems about the limiter

    Sequences of calls from a fresh limiter: bounded memory and no panic, the
    sliding-window bound, the cooldown, and the grouping of addresses. *)

From S2P Require Import Prelude External Instances Limiter LimiterInv.

Section Calls.
Context `{HmacSha256}.

(** The state in which [check] looks the dimension up. *)
Definition prepared (now : Z) (l : Limiter) : Limiter :=
  let l1 := clocked now l in
  if sweep_due l1 (effective_now l now)
  then set_last_sweep (Some (effective_now l now)) (swept_state (effective_now l now) l1)
  else l1.

Definition check_found (op : Operation) (a : bytes) (now : Z) (l : Limiter) :
    Limiter * outcome LimiterError LimitDecision :=
  let d := (op, peer_key l a) in
  let p := policy_of (config l) op in
  match entries l !! d with Some _ => check_entry p d now l | None => check_new p d now l end.

Lemma check_dimension_eq op a now l : check_dimension op a now l = check_found op a now l.
Proof.
  unfold check_dimension, check_found, mbind, stM_bind, get.
  by destruct (entries l !! (op, peer_key l a)).
Qed.

Lemma check_eq op a now l :
  check op a now l =
  if bool_decide (a = []) then (l, Err LimiterError_EmptyPeerAddress)
  else check_found op a (effective_now l now) (prepared now l).
Proof.
  unfold check, prepared. case_bool_decide; [done|]. rewrite <- check_dimension_eq.
  unfold mbind, stM_bind. rewrite observe_time_eq. simpl.
  by destruct (sweep_due (clocked now l) (effective_now l now)).
Qed.

Lemma set_last_sweep_ok s l : limiter_ok l -> limiter_ok (set_last_sweep s l).
Proof. intros [? ? ? ? ? ? ? ? ?]. by split. Qed.

Lemma prepared_ok now l : limiter_ok l -> limiter_ok (prepared now l).
Proof.
  intros Hl. pose proof (clocked_ok now l Hl) as Hc. unfold prepared. case_goal; [|done].
  by apply set_last_sweep_ok, swept_ok.
Qed.

Lemma prepared_fields now l :
  config (prepared now l) = config l /\ last_now (prepared now l) = Some (effective_now l now) /\
  capacity_evictions (prepared now l) = capacity_evictions l /\
  operator_key (prepared now l) = operator_key l /\ next_recency (prepared now l) = next_recency l.
Proof. unfold prepared. by case_goal. Qed.

Lemma make_room_fields l :
  config (make_room l) = config l /\ last_now (make_room l) = last_now l.
Proof. unfold make_room. repeat case_goal; done. Qed.

Lemma make_room_lookup_none l d : entries l !! d = None -> entries (make_room l) !! d = None.
Proof.
  unfold make_room. intros Hd. repeat case_goal; try done.
  apply lookup_delete_None. by right.
Qed.

(** A check keeps the invariant, never panics, and fails only when a clock
    or the recency counter is at the end of its range. *)
Lemma check_found_ok op a now l l' r :
  limiter_ok l -> last_now l = Some now -> check_found op a now l = (l', r) ->
  limiter_ok l' /\ r <> Panic /\ config l' = config l /\ last_now l' = Some now /\
  operator_key l' = operator_key l /\ capacity_evictions l <= capacity_evictions l'.
Proof.
  intros Hl Hnow. pose proof (co_policy _ (lo_config _ Hl) op) as Hp.
  unfold check_found. set (d := (op, peer_key l a)). destruct (entries l !! d) as [e|] eqn:Hd.
  - rewrite (check_entry_eq _ _ _ _ e) by done. destruct (_ <=? _) eqn:Hn; bool_to_prop.
    + destruct (decide_entry _ _ _) as [e' r'] eqn:Hdec. intros [= <- <-].
      destruct (lo_entries _ Hl d e Hd) as (n & Hn' & Hok). simplify_eq.
      apply (decide_entry_spec _ now) in Hdec as (Hok' & Hr & Hpanic & _); [|done|by destruct Hok|lia].
      split_and!; try done. eapply touched_ok; eauto.
    + intros [= <- <-]. split_and!; try done. apply untouched_ok; [done|lia].
  - rewrite check_new_eq by (destruct Hp; lia). simpl.
    destruct (make_room_ok l Hl) as (Hm & Hnr & Hroom). destruct (make_room_fields l) as [Hc Hln].
    assert (capacity_evictions l <= capacity_evictions (make_room l) /\
      operator_key (make_room l) = operator_key l) as [Hev Hkey].
    { pose proof (lo_evictions _ Hl). unfold make_room.
      repeat case_goal; simpl; unfold saturating_add; split; try done; lia. }
    destruct (_ <=? _) eqn:Hn; intros [= <- <-]; bool_to_prop.
    + split_and!; simpl; try done; [|congruence]. apply (inserted_ok _ _ _ now); eauto.
      * congruence.
      * by apply make_room_lookup_none.
      * rewrite Hc. apply Hroom. lia.
      * rewrite Hc. split; simpl; [destruct Hp; lia|repeat constructor; lia|done].
    + split_and!; try done. congruence.
Qed.

Lemma check_ok op a now l l' r :
  limiter_ok l -> check op a now l = (l', r) ->
  limiter_ok l' /\ r <> Panic /\ config l' = config l /\ operator_key l' = operator_key l /\
  capacity_evictions l <= capacity_evictions l'.
Proof.
  intros Hl. rewrite check_eq. case_bool_decide; [intros [= <- <-]; by split_and!|].
  destruct (prepared_fields now l) as (Hc & Hn & He & Hk & _). intros Hf.
  apply check_found_ok in Hf; [|by apply prepared_ok|done]. naive_solver congruence.
Qed.

(** ** Sequences of calls *)

Inductive LimiterCall : Type :=
| LimiterCall_Check (op : Operation) (address : bytes) (now : Z)
| LimiterCall_Sweep (now : Z)
| LimiterCall_SweepIfDue (now : Z).

(** The state after a call, and the attempt it accepted, if any, with its
    dimension and the time the limiter gives it. *)
Definition call (c : LimiterCall) (l : Limiter) : Limiter * list (Dimension * Z) :=
  match c with
  | LimiterCall_Check op a now =>
      let '(l', r) := check op a now l in
      (l', map (pair (op, peer_key l a)) (accepted (effective_now l now) r))
  | LimiterCall_Sweep now => ((sweep now l).1, [])
  | LimiterCall_SweepIfDue now => ((sweep_if_due now l).1, [])
  end.

Fixpoint calls (cs : list LimiterCall) (l : Limiter) : Limiter * list (Dimension * Z) :=
  match cs with
  | [] => (l, [])
  | c :: cs => let '(l1, acc1) := call c l in let '(l2, acc2) := calls cs l1 in (l2, acc1 ++ acc2)
  end.

Lemma sweep_eq now l :
  (sweep now l).1 =
    set_last_sweep (Some (effective_now l now)) (swept_state (effective_now l now) (clocked now l)).
Proof. done. Qed.

Lemma sweep_if_due_eq now l : (sweep_if_due now l).1 = prepared now l.
Proof.
  unfold sweep_if_due, prepared, mbind, stM_bind. rewrite observe_time_eq. simpl.
  by destruct (sweep_due (clocked now l) (effective_now l now)).
Qed.

Lemma call_ok c l l' acc :
  limiter_ok l -> call c l = (l', acc) ->
  limiter_ok l' /\ config l' = config l /\ operator_key l' = operator_key l /\
  capacity_evictions l <= capacity_evictions l'.
Proof.
  intros Hl. destruct c as [op a now|now|now]; simpl.
  - destruct (check op a now l) as [l1 r] eqn:Hc. intros [= <- _].
    apply check_ok in Hc as (? & _ & ? & ? & ?); done.
  - intros [= <- _]. split_and!; try done.
    apply set_last_sweep_ok, (swept_ok _ (clocked now l)); [by apply clocked_ok|done].
  - intros [= <- _]. rewrite sweep_if_due_eq. destruct (prepared_fields now l) as (? & ? & ? & ? & ?).
    split_and!; [by apply prepared_ok|done|done|lia].
Qed.

Lemma calls_ok cs : forall l l' acc,
  limiter_ok l -> calls cs l = (l', acc) ->
  limiter_ok l' /\ config l' = config l /\ operator_key l' = operator_key l /\
  capacity_evictions l <= capacity_evictions l'.
Proof.
  induction cs as [|c cs IH]; intros l l' acc Hl; simpl; [by intros [= <- _]|].
  destruct (call c l) as [l1 acc1] eqn:Hc. destruct (calls cs l1) as [l2 acc2] eqn:Hcs.
  intros [= <- _]. apply call_ok in Hc as (Hl1 & ? & ? & ?); [|done].
  apply IH in Hcs as (? & ? & ? & ?); [|done]. split_and!; [done|congruence|congruence|lia].
Qed.

Lemma new_ok key c l :
  length (policies c) = 8%nat -> 0 <= entry_cap c ->
  Forall (fun p => 0 <= limit p /\ 0 <= window_seconds p) (policies c) ->
  Limiter_new key c = Ok l -> limiter_ok l /\ config l = c /\ entries l = ∅.
Proof.
  intros Hlen Hcap Hpol. unfold Limiter_new. destruct (_ || _) eqn:Hbad; [done|]. intros [= <-].
  apply orb_false_iff in Hbad as [[? _]%orb_false_iff Hex]. bool_to_prop.
  assert (Forall policy_ok (policies c)) as Hall.
  { apply Forall_forall. intros p Hp. rewrite Forall_forall in Hpol. specialize (Hpol p Hp).
    destruct ((limit p =? 0) || (window_seconds p =? 0)) eqn:Hz; [|bool_to_prop; split; lia].
    assert (existsb (fun p => (limit p =? 0) || (window_seconds p =? 0)) (policies c) = true); [|congruence].
    apply existsb_exists. exists p. by rewrite <- list_elem_of_In. }
  split; [|done]. split; simpl; try done; try lia; try set_solver.
  - split; [lia|]. intros op. unfold policy_of.
    apply (proj1 (Forall_forall policy_ok (policies c)) Hall).
    apply list_elem_of_In, nth_In. rewrite Hlen. destruct op; simpl; lia.
Qed.

(** ** Accepted attempts against the window *)

Definition att (l : Limiter) (d : Dimension) : list Z :=
  match entries l !! d with Some e => attempts e | None => [] end.

(** Dimension [d] went from [l] to [l'], accepting the attempts [acc], and what
    it forgot is older than the window. *)
Definition evolves (l l' : Limiter) (d : Dimension) (acc : list Z) : Prop :=
  exists gone, att l d ++ acc = gone ++ att l' d /\
    Forall (fun t => exists n, last_now l' = Some n /\ t + window_seconds (policy_of (config l) d.1) <= n) gone.

Definition later (l l' : Limiter) : Prop :=
  forall n, last_now l = Some n -> exists n', last_now l' = Some n' /\ n <= n'.

Lemma evolves_same l l' d : entries l' !! d = entries l !! d -> evolves l l' d [].
Proof. intros Heq. exists []. unfold att. rewrite Heq, app_nil_r. done. Qed.

Lemma evolves_trans l1 l2 l3 d acc acc' :
  evolves l1 l2 d acc -> evolves l2 l3 d acc' -> later l2 l3 -> config l2 = config l1 ->
  evolves l1 l3 d (acc ++ acc').
Proof.
  intros (g1 & H1 & F1) (g2 & H2 & F2) Hlater Hc. exists (g1 ++ g2).
  rewrite app_assoc, H1, <- app_assoc, H2, app_assoc. split; [done|].
  apply Forall_app. rewrite Hc in F2. split; [|done]. eapply Forall_impl; [done|].
  intros t (n & Hn & Hle). destruct (Hlater n Hn) as (n' & ? & ?). exists n'. split; [done|lia].
Qed.

(** A number of accepted times inside the window that ends at [T]. *)
Definition within (w T : Z) (ts : list Z) : nat :=
  length (filter (fun t => T - w < t /\ t <= T) ts).

Lemma within_app w T l k : within w T (l ++ k) = (within w T l + within w T k)%nat.
Proof. unfold within. by rewrite filter_app, length_app. Qed.

Lemma within_le w T l : (within w T l <= length l)%nat.
Proof. apply length_filter. Qed.

Lemma within_none w T l : Forall (fun t => ~ (T - w < t /\ t <= T)) l -> within w T l = 0%nat.
Proof.
  intros HF. unfold within. induction HF; [done|]. by rewrite filter_cons_False.
Qed.

(** What the trace [ts] of dimension [d] satisfies in state [l]. *)
Record traced (l : Limiter) (d : Dimension) (ts : list Z) : Prop := {
  tr_shape : exists gone, ts = gone ++ att l d /\
    Forall (fun t => exists n, last_now l = Some n /\ t + window_seconds (policy_of (config l) d.1) <= n) gone;
  tr_bound : forall T, Z.of_nat (within (window_seconds (policy_of (config l) d.1)) T ts) <=
    limit (policy_of (config l) d.1)
}.

Lemma att_bound l d : limiter_ok l -> Z.of_nat (length (att l d)) <= limit (policy_of (config l) d.1).
Proof.
  intros Hl. unfold att. destruct (entries l !! d) as [e|] eqn:Hd.
  - destruct (lo_entries _ Hl d e Hd) as (n & _ & Hok). apply (eo_len _ _ _ Hok).
  - destruct (co_policy _ (lo_config _ Hl) d.1). simpl. lia.
Qed.

Lemma traced_step l l' d ts acc :
  limiter_ok l' -> config l' = config l -> later l l' -> traced l d ts -> evolves l l' d acc ->
  (acc = [] \/ exists n, last_now l' = Some n /\ acc = [n]) -> traced l' d (ts ++ acc).
Proof.
  intros Hl' Hc Hlater [(g1 & -> & F1) Hb] (g2 & H2 & F2) Hacc.
  assert (exists gone, (g1 ++ att l d) ++ acc = gone ++ att l' d /\
    Forall (fun t => exists n, last_now l' = Some n /\
      t + window_seconds (policy_of (config l') d.1) <= n) gone) as Hshape.
  { exists (g1 ++ g2). rewrite <- !app_assoc, H2. split; [done|]. rewrite Hc. apply Forall_app.
    split; [|done]. eapply Forall_impl; [done|]. intros t (n & Hn & Hle).
    destruct (Hlater n Hn) as (n' & ? & ?). exists n'. split; [done|lia]. }
  split; [done|]. intros T. rewrite Hc in *. destruct Hacc as [->|(n & Hn & ->)].
  { rewrite app_nil_r. apply Hb. }
  destruct (Z.lt_ge_cases T n) as [Hlt|Hge].
  - rewrite within_app, (within_none _ _ [n]) by (repeat constructor; lia).
    rewrite Nat.add_0_r. apply Hb.
  - destruct Hshape as (gone & -> & Hg). rewrite within_app, (within_none _ _ gone).
    2: { eapply Forall_impl; [done|]. intros t (m & ? & ?). simplify_eq. lia. }
    pose proof (within_le (window_seconds (policy_of (config l) d.1)) T (att l' d)).
    pose proof (att_bound l' d Hl') as Ha. rewrite Hc in Ha. lia.
Qed.

Lemma later_clocked now l : later l (clocked now l).
Proof. intros n Hn. rewrite last_now_clocked. eauto using effective_now_le. Qed.

(** Policies whose window is covered by the cooldown. *)
Definition covered (l : Limiter) (d : Dimension) : Prop :=
  window_seconds (policy_of (config l) d.1) <= COOLDOWN_SECONDS.

Lemma shrinks_evolves l l' d now acc :
  last_now l' = Some now -> shrinks (policy_of (config l) d.1) now (att l d ++ acc) (att l' d) ->
  evolves l l' d acc.
Proof.
  intros Hn (gone & Heq & HF). exists gone. split; [done|]. eapply Forall_impl; [done|]. eauto.
Qed.

Lemma evolves_swept now l d :
  limiter_ok l -> last_now l = Some now -> covered l d -> evolves l (swept_state now l) d [].
Proof.
  intros Hl Hn Hcov. apply (shrinks_evolves _ _ _ now); [done|]. rewrite app_nil_r.
  unfold att. rewrite swept_lookup. destruct (entries l !! d) as [e|] eqn:Hd; simpl; [|apply shrinks_refl].
  destruct (lo_entries _ Hl d e Hd) as (n & Hn' & Hok). simplify_eq.
  pose proof (sweep_entry_spec (config l) now now d e (co_policy _ (lo_config _ Hl) d.1) Hok ltac:(lia)) as Hs.
  simpl in Hs. destruct (sweep_entry _ _ _ _); [naive_solver|by apply Hs].
Qed.

Lemma evolves_prepared now l d :
  limiter_ok l -> covered l d -> evolves l (prepared now l) d [].
Proof.
  intros Hl Hcov. assert (evolves l (clocked now l) d []) as H1 by (by apply evolves_same).
  unfold prepared. case_goal; [|done]. change (evolves l (swept_state (effective_now l now) (clocked now l)) d []).
  apply (evolves_trans _ (clocked now l) _ _ [] []); [done| | |done].
  - apply evolves_swept; [by apply clocked_ok|done|done].
  - intros n Hn. exists n. split; [done|lia].
Qed.

Lemma evolves_make_room l d :
  limiter_ok l -> capacity_evictions (make_room l) = 0 -> entries (make_room l) !! d = entries l !! d.
Proof.
  intros Hl. pose proof (lo_evictions _ Hl). unfold make_room. repeat case_goal; try done.
  unfold evicted, saturating_add, u64_max. simpl. lia.
Qed.

Lemma evolves_found op a now l l' r d :
  limiter_ok l -> last_now l = Some now -> covered l d -> check_found op a now l = (l', r) ->
  capacity_evictions l' = 0 ->
  evolves l l' d (if decide (d = (op, peer_key l a)) then accepted now r else []).
Proof.
  intros Hl Hnow Hcov. pose proof (co_policy _ (lo_config _ Hl) op) as Hp.
  unfold check_found. set (d0 := (op, peer_key l a)). destruct (entries l !! d0) as [e|] eqn:Hd.
  - rewrite (check_entry_eq _ _ _ _ e) by done. destruct (_ <=? _) eqn:Hn; bool_to_prop.
    + destruct (decide_entry _ _ _) as [e' r'] eqn:Hdec. intros [= <- <-] _.
      destruct (decide (d = d0)) as [->|Hne].
      2: { apply evolves_same. simpl. by rewrite lookup_insert_ne. }
      destruct (lo_entries _ Hl d0 e Hd) as (n & Hn' & Hok). simplify_eq.
      apply (decide_entry_spec _ now) in Hdec as (_ & _ & _ & Hs); [|done|by destruct Hok|lia].
      apply (shrinks_evolves _ _ _ now); [done|]. unfold att. simpl. rewrite Hd, lookup_insert_eq. by apply Hs.
    + intros [= <- <-] _. simpl. case_decide; by apply evolves_same.
  - rewrite check_new_eq by (destruct Hp; lia). simpl.
    destruct (_ <=? _) eqn:Hn; intros [= <- <-] Hev; simpl in Hev.
    + pose proof (evolves_make_room l d Hl Hev) as Hsame. destruct (decide (d = d0)) as [->|Hne].
      * exists []. unfold att. simpl. by rewrite Hd, lookup_insert_eq.
      * apply evolves_same. simpl. by rewrite lookup_insert_ne.
    + pose proof (evolves_make_room l d Hl Hev). simpl. case_decide; by apply evolves_same.
Qed.

Definition times (d : Dimension) (acc : list (Dimension * Z)) : list Z :=
  omap (fun p => if decide (p.1 = d) then Some p.2 else None) acc.

Lemma times_map d d0 ts : times d (map (pair d0) ts) = if decide (d = d0) then ts else [].
Proof.
  induction ts as [|t ts IH]; [by case_decide|]. cbn [map].
  change (times d ((d0, t) :: map (pair d0) ts)) with
    (match (if decide (d0 = d) then Some t else None) with
     | Some y => y :: times d (map (pair d0) ts) | None => times d (map (pair d0) ts) end).
  rewrite IH. destruct (decide (d0 = d)), (decide (d = d0)); congruence.
Qed.

Lemma accepted_cases n r : accepted n r = [] \/ accepted n r = [n].
Proof. unfold accepted. repeat case_match; auto. Qed.

(** One call, seen by one dimension. *)
Lemma call_evolves c l l' acc d :
  limiter_ok l -> covered l d -> call c l = (l', acc) -> capacity_evictions l' = 0 ->
  later l l' /\ evolves l l' d (times d acc) /\
  (times d acc = [] \/ exists n, last_now l' = Some n /\ times d acc = [n]).
Proof.
  intros Hl Hcov Hcall Hev.
  assert (forall now, later l (prepared now l)) as Hprep.
  { intros now n Hn. destruct (prepared_fields now l) as (_ & -> & _). eauto using effective_now_le. }
  destruct c as [op a now|now|now]; simpl in Hcall.
  - destruct (check op a now l) as [l1 r] eqn:Hc. injection Hcall as <- <-.
    rewrite check_eq in Hc. case_bool_decide.
    { injection Hc as <- <-. simpl. split_and!; [|by apply evolves_same|by left].
      intros n Hn. exists n. split; [done|lia]. }
    destruct (prepared_fields now l) as (Hcf & Hn & He & Hk & _).
    pose proof (prepared_ok now l Hl) as Hok.
    pose proof (check_found_ok _ _ _ _ _ _ Hok Hn Hc) as (_ & _ & _ & Hn1 & _ & _).
    assert (later l l1) as Hlater.
    { intros n Hn'. rewrite Hn1. eauto using effective_now_le. }
    rewrite times_map. split_and!; [done| |].
    + apply (evolves_found _ _ _ _ _ _ d) in Hc; [|done|done|unfold covered; by rewrite Hcf|done].
      assert (peer_key (prepared now l) a = peer_key l a) as Hpk by (unfold peer_key; by rewrite Hk).
      rewrite Hpk in Hc.
      apply (evolves_trans l (prepared now l) l1 d []); [by apply evolves_prepared|exact Hc| |done].
      intros n Hn'. rewrite Hn in Hn'. injection Hn' as <-. eexists. split; [done|lia].
    + case_decide; [|by left]. destruct (accepted_cases (effective_now l now) r) as [->| ->]; eauto.
  - injection Hcall as <- <-. split_and!; [| |by left].
    + intros n Hn. eexists. split; [done|]. by apply effective_now_le.
    + apply (evolves_trans _ (clocked now l) _ _ [] []); [by apply evolves_same| | |done].
      * apply (evolves_swept _ (clocked now l)); [by apply clocked_ok|done|done].
      * intros n Hn. exists n. split; [done|lia].
  - injection Hcall as <- <-. rewrite sweep_if_due_eq.
    split_and!; [done|by apply evolves_prepared|by left].
Qed.

Lemma calls_traced cs : forall l l' acc d ts,
  limiter_ok l -> covered l d -> calls cs l = (l', acc) -> capacity_evictions l' = 0 ->
  traced l d ts -> traced l' d (ts ++ times d acc).
Proof.
  induction cs as [|c cs IH]; intros l l' acc d ts Hl Hcov; simpl.
  { intros [= <- <-] _ Ht. by rewrite app_nil_r. }
  destruct (call c l) as [l1 acc1] eqn:Hc. destruct (calls cs l1) as [l2 acc2] eqn:Hcs.
  intros [= <- <-] Hev Ht. pose proof (call_ok _ _ _ _ Hl Hc) as (Hl1 & Hcf & _ & Hle).
  pose proof (calls_ok _ _ _ _ Hl1 Hcs) as (_ & _ & _ & Hle2).
  pose proof (lo_evictions _ Hl1).
  destruct (call_evolves _ _ _ _ d Hl Hcov Hc ltac:(lia)) as (Hlater & Hevo & Hacc).
  unfold times. rewrite omap_app, app_assoc. eapply IH; eauto.
  - unfold covered. by rewrite Hcf.
  - by apply (traced_step l).
Qed.

(** ** Cooldowns *)

Definition cooling (l : Limiter) (d : Dimension) (r : Z) : Prop :=
  exists e, entries l !! d = Some e /\ cooldown_until e = Some r.

Definition before (l : Limiter) (r : Z) : Prop := forall n, last_now l = Some n -> n < r.

Definition call_time (c : LimiterCall) : Z :=
  match c with
  | LimiterCall_Check _ _ now | LimiterCall_Sweep now | LimiterCall_SweepIfDue now => now
  end.

Lemma effective_before l now r : before l r -> now < r -> effective_now l now < r.
Proof.
  intros Hb Hr. unfold effective_now, before in *. destruct (last_now l) as [n|]; [|done].
  specialize (Hb n eq_refl). lia.
Qed.

Lemma cooling_swept now l d r : cooling l d r -> now < r -> cooling (swept_state now l) d r.
Proof.
  intros (e & He & Hc) Hr. exists e. rewrite swept_lookup, He. simpl. unfold sweep_entry. rewrite Hc.
  rewrite (proj2 (Z.leb_gt _ _)) by done. done.
Qed.

Lemma cooling_prepared now l d r :
  cooling l d r -> effective_now l now < r -> cooling (prepared now l) d r.
Proof.
  intros Hc Hr. unfold prepared. case_goal; [|done].
  apply (cooling_swept _ (clocked now l)); done.
Qed.

Lemma cooling_found op a now l l' res d r :
  limiter_ok l -> cooling l d r -> now < r -> check_found op a now l = (l', res) ->
  capacity_evictions l' = 0 -> cooling l' d r.
Proof.
  intros Hl (e & He & Hc) Hr. unfold check_found. set (d0 := (op, peer_key l a)).
  destruct (entries l !! d0) as [e0|] eqn:Hd.
  - rewrite (check_entry_eq _ _ _ _ e0) by done. destruct (_ <=? _) eqn:Hn.
    + destruct (decide_entry _ _ _) as [e' r'] eqn:Hdec. intros [= <- <-] _. unfold cooling. simpl.
      destruct (decide (d0 = d)) as [->|]; [|rewrite lookup_insert_ne by done; eauto].
      rewrite lookup_insert_eq. unfold decide_entry in Hdec. simplify_eq. simpl in Hdec. rewrite Hc in Hdec.
      rewrite (proj2 (Z.ltb_lt _ _)) in Hdec by done. simplify_eq. by eexists.
    + intros [= <- <-] _. by exists e.
  - rewrite check_new_eq by (destruct (co_policy _ (lo_config _ Hl) op); lia). simpl.
    destruct (_ <=? _) eqn:Hn; intros [= <- <-] Hev; simpl in Hev;
      pose proof (evolves_make_room l d Hl Hev) as Hsame; exists e; simpl.
    + rewrite lookup_insert_ne by congruence. by rewrite Hsame.
    + by rewrite Hsame.
Qed.

Lemma call_cooling c l l' acc d r :
  limiter_ok l -> cooling l d r -> before l r -> call_time c < r -> call c l = (l', acc) ->
  capacity_evictions l' = 0 -> cooling l' d r /\ before l' r.
Proof.
  intros Hl Hc Hb Ht Hcall Hev. pose proof (effective_before _ _ _ Hb Ht) as He.
  destruct c as [op a now|now|now]; simpl in *.
  - destruct (check op a now l) as [l1 res] eqn:Hchk. injection Hcall as <- <-.
    rewrite check_eq in Hchk. case_bool_decide; [by injection Hchk as <- _|].
    destruct (prepared_fields now l) as (_ & Hn & _).
    pose proof (check_found_ok _ _ _ _ _ _ (prepared_ok now l Hl) Hn Hchk) as (_ & _ & _ & Hn1 & _).
    split.
    + apply (cooling_found _ _ _ _ _ _ _ _ (prepared_ok now l Hl) (cooling_prepared _ _ _ _ Hc He) He Hchk Hev).
    + intros n. rewrite Hn1. by intros [= <-].
  - injection Hcall as <- <-. split.
    + by apply (cooling_swept _ (clocked now l)).
    + intros n. simpl. by intros [= <-].
  - injection Hcall as <- <-. rewrite sweep_if_due_eq. split; [by apply cooling_prepared|].
    destruct (prepared_fields now l) as (_ & Hn & _). intros n. rewrite Hn. by intros [= <-].
Qed.

Lemma calls_cooling cs : forall l l' acc d r,
  limiter_ok l -> cooling l d r -> before l r -> Forall (fun c => call_time c < r) cs ->
  calls cs l = (l', acc) -> capacity_evictions l' = 0 ->
  limiter_ok l' /\ cooling l' d r /\ before l' r.
Proof.
  induction cs as [|c cs IH]; intros l l' acc d r Hl Hc Hb Ht; simpl; [by intros [= <- _]|].
  inv Ht. destruct (call c l) as [l1 acc1] eqn:Hcall. destruct (calls cs l1) as [l2 acc2] eqn:Hcs.
  intros [= <- _] Hev. pose proof (call_ok _ _ _ _ Hl Hcall) as (Hl1 & _ & _ & Hle).
  pose proof (calls_ok _ _ _ _ Hl1 Hcs) as (_ & _ & _ & Hle2). pose proof (lo_evictions _ Hl1).
  destruct (call_cooling _ _ _ _ d r Hl Hc Hb ltac:(done) Hcall ltac:(lia)). eauto.
Qed.

(** A cooldown answer leaves the dimension cooling down. *)
Lemma check_cools op a now l l' r :
  limiter_ok l -> check op a now l = (l', Ok (LimitDecision_Cooldown r)) ->
  a <> [] /\ cooling l' (op, peer_key l a) r /\ before l' r.
Proof.
  intros Hl. rewrite check_eq. case_bool_decide as Ha; [done|]. intros Hf.
  destruct (prepared_fields now l) as (_ & Hn & _ & Hk & _).
  assert (peer_key (prepared now l) a = peer_key l a) as Hpk by (unfold peer_key; by rewrite Hk).
  pose proof (check_found_ok _ _ _ _ _ _ (prepared_ok now l Hl) Hn Hf) as (_ & _ & _ & Hn1 & _).
  assert (cooling l' (op, peer_key l a) r /\ effective_now l now < r) as [? ?].
  2: { split_and!; [done..|]. intros n. rewrite Hn1. by intros [= <-]. }
  unfold check_found in Hf. rewrite Hpk in Hf.
  destruct (entries (prepared now l) !! (op, peer_key l a)) as [e|] eqn:Hd.
  - rewrite (check_entry_eq _ _ _ _ e) in Hf by done. destruct (_ <=? _); [|done].
    destruct (decide_entry _ _ _) as [e' r'] eqn:Hdec. injection Hf as <- ->.
    unfold cooling. simpl. rewrite lookup_insert_eq.
    unfold decide_entry, window_decision in Hdec. simpl in Hdec.
    assert (forall now0 r0, checked_add u64_max now0 COOLDOWN_SECONDS = Some r0 -> now0 < r0) as Hadd.
    { intros now0 r0 [-> _]%checked_add_some. unfold COOLDOWN_SECONDS. lia. }
    repeat case_hyp; bool_to_prop; eauto.
  - rewrite check_new_eq in Hf.
    + simpl in Hf. repeat case_hyp.
    + destruct (co_policy _ (lo_config _ (prepared_ok now l Hl)) op). lia.
Qed.

(** The answer to a dimension that is cooling down until [r]. *)
Lemma check_cooling op a now l r :
  limiter_ok l -> a <> [] -> cooling l (op, peer_key l a) r -> before l r -> next_recency l < u64_max ->
  (check op a now l).2 =
  Ok (if now <? r then LimitDecision_Cooldown r
      else LimitDecision_Allowed (limit (policy_of (config l) op) - 1)).
Proof.
  intros Hl Ha Hc Hb Hnr. rewrite check_eq, bool_decide_eq_false_2 by done.
  destruct (prepared_fields now l) as (Hcf & Hn & _ & Hk & Hpn).
  assert (peer_key (prepared now l) a = peer_key l a) as Hpk by (unfold peer_key; by rewrite Hk).
  pose proof (prepared_ok now l Hl) as Hok. pose proof (co_policy _ (lo_config _ Hl) op) as [Hlim Hwin].
  unfold check_found. rewrite Hpk, Hcf. destruct (now <? r) eqn:Hlt; bool_to_prop.
  - pose proof (effective_before _ _ _ Hb Hlt) as He.
    destruct (cooling_prepared now _ _ _ Hc He) as (e & Hd & Hcool). rewrite Hd.
    rewrite (check_entry_eq _ _ _ _ e), Hpn by done. rewrite (proj2 (Z.leb_le _ _)) by lia.
    unfold decide_entry. simpl. rewrite Hcool. by rewrite (proj2 (Z.ltb_lt _ _)).
  - assert (r <= effective_now l now) as He.
    { unfold effective_now. destruct (last_now l); lia. }
    destruct (entries (prepared now l) !! _) as [e|] eqn:Hd.
    + assert (cooldown_until e = Some r) as Hcool.
      { destruct Hc as (e0 & Hd0 & Hc0). revert Hd. unfold prepared. case_goal.
        - change (entries (swept_state (effective_now l now) (clocked now l)) !! (op, peer_key l a) = Some e -> cooldown_until e = Some r).
          rewrite swept_lookup. change (entries (clocked now l)) with (entries l). rewrite Hd0. simpl.
          unfold sweep_entry. rewrite Hc0. intros. repeat case_hyp; done.
        - change (entries (clocked now l)) with (entries l). congruence. }
      rewrite (check_entry_eq _ _ _ _ e), Hpn by done. rewrite (proj2 (Z.leb_le _ _)) by lia.
      unfold decide_entry. simpl. rewrite Hcool. rewrite (proj2 (Z.ltb_ge _ _)) by done.
      unfold window_decision. simpl. rewrite (proj2 (Z.leb_gt _ _)) by lia. simpl. do 2 f_equal. lia.
    + rewrite check_new_eq by lia. simpl. destruct (make_room_ok _ Hok) as (_ & -> & _). rewrite Hpn.
      by rewrite (proj2 (Z.leb_le _ _)) by lia.
Qed.
End Calls.

(** ** Properties *)

(** A configuration as its Rust type allows it: unsigned fields, eight
    policies. *)
Definition config_typed (c : LimiterConfig) : Prop :=
  length (policies c) = 8%nat /\ 0 <= entry_cap c /\
  Forall (fun p => 0 <= limit p /\ 0 <= window_seconds p) (policies c).

(** Bounded memory and no panic: whatever sequence of checks and sweeps
    runs on a new limiter, it never holds more dimensions than the configured
    cap, its recency index never holds a dimension it does not have, and no
    check on it panics. *)
Theorem limiter_bounded `{HmacSha256} key c l0 cs l acc op address now :
  config_typed c -> Limiter_new key c = Ok l0 -> calls cs l0 = (l, acc) ->
  entry_count l <= entry_cap c /\
  (forall r o k, (r, o, k) ∈ recency l -> exists e, entries l !! (o, k) = Some e /\ en_recency e = r) /\
  (check op address now l).2 <> Panic.
Proof.
  intros (Hlen & Hcap & Hpol) Hnew Hcs. apply new_ok in Hnew as (Hl0 & <- & _); [|done..].
  apply calls_ok in Hcs as (Hl & <- & _); [|done]. split_and!; [apply (lo_cap _ Hl)|apply (lo_index _ Hl)|].
  destruct (check op address now l) as [l' r] eqn:Hc. by apply check_ok in Hc as (_ & ? & _).
Qed.

(** C35. The sliding-window guarantee: as long as no dimension had to be evicted
    for capacity, and for a policy whose window is no longer than the
    cooldown, every interval of one window's length contains at most [limit]
    accepted attempts of a peer at an operation, whatever the order of
    checks, sweeps and clock reversals. *)
Theorem sliding_window_bound `{HmacSha256} key c l0 cs l acc op k T :
  config_typed c -> Limiter_new key c = Ok l0 -> calls cs l0 = (l, acc) ->
  capacity_evictions l = 0 -> window_seconds (policy_of c op) <= COOLDOWN_SECONDS ->
  Z.of_nat (within (window_seconds (policy_of c op)) T (times (op, k) acc)) <= limit (policy_of c op).
Proof.
  intros (Hlen & Hcap & Hpol) Hnew Hcs Hev Hwin. apply new_ok in Hnew as (Hl0 & <- & He); [|done..].
  pose proof (calls_ok _ _ _ _ Hl0 Hcs) as (_ & Hcf & _).
  assert (traced l0 (op, k) []) as Ht.
  { split; [exists []; unfold att; by rewrite He|]. intros T'. simpl.
    destruct (co_policy _ (lo_config _ Hl0) op). unfold within. simpl. lia. }
  eapply calls_traced in Ht; eauto. simpl in Ht. destruct Ht as [_ Hb].
  rewrite Hcf in Hb. apply Hb.
Qed.

(** A cooldown is enforced and ends: once a check answered [Cooldown]
    until [r], after any calls made before [r] (without a capacity eviction) a
    further check of the same peer and operation is answered [Cooldown] until
    the same [r] when it is made before [r], and is allowed with a full
    window when it is made at or after [r]. *)
Theorem cooldown_enforced `{HmacSha256} l op address now l1 r cs l2 acc now' :
  limiter_ok l -> check op address now l = (l1, Ok (LimitDecision_Cooldown r)) ->
  calls cs l1 = (l2, acc) -> Forall (fun c => call_time c < r) cs ->
  capacity_evictions l2 = 0 -> next_recency l2 < u64_max ->
  (check op address now' l2).2 =
  Ok (if now' <? r then LimitDecision_Cooldown r
      else LimitDecision_Allowed (limit (policy_of (config l) op) - 1)).
Proof.
  intros Hl Hc Hcs Ht Hev Hn.
  pose proof (check_ok _ _ _ _ _ _ Hl Hc) as (Hl1 & _ & Hcf & Hk & _).
  apply check_cools in Hc as (Ha & Hcool & Hb); [|done].
  pose proof (calls_ok _ _ _ _ Hl1 Hcs) as (_ & Hcf2 & Hk2 & _).
  destruct (calls_cooling _ _ _ _ _ _ Hl1 Hcool Hb Ht Hcs Hev) as (Hl2 & Hcool2 & Hb2).
  rewrite <- Hcf, <- Hcf2. apply check_cooling; try done.
  assert (peer_key l2 address = peer_key l address) as -> by (unfold peer_key; congruence). done.
Qed.

(** At the cap a new dimension replaces exactly the least recently checked
    one: some dimension whose recency is minimal is gone, the new one is
    present, and every other dimension is as it was. *)
Theorem eviction_is_lru `{HmacSha256} l p d now :
  limiter_ok l -> 1 <= limit p -> entries l !! d = None ->
  entry_count l = entry_cap (config l) -> next_recency l < u64_max ->
  exists victim e, entries l !! victim = Some e /\
    (forall d' e', entries l !! d' = Some e' -> en_recency e <= en_recency e') /\
    entries (check_new p d now l).1 =
      <[d := mkEntry [now] None (next_recency l)]> (delete victim (entries l)).
Proof.
  intros Hl Hp Hd Hfull Hn. rewrite check_new_eq by done. simpl.
  destruct (make_room_ok l Hl) as (_ & Hnr & Hroom). rewrite Hnr, (proj2 (Z.leb_le _ _)) by lia.
  specialize (Hroom ltac:(lia)). simpl. revert Hroom. unfold make_room.
  rewrite (proj2 (Z.leb_le _ _)) by lia.
  destruct (bset_first (recency l)) as [[[r op] k]|] eqn:Hv; [|lia]. intros _.
  apply bset_first_some in Hv as [Hv Hmin]. destruct (lo_index _ Hl r op k Hv) as (e & He & Hr).
  exists (op, k), e. split_and!; [done| |done]. intros [op' k'] e' He'.
  pose proof (lo_indexed _ Hl Hn _ _ _ He') as Hin. specialize (Hmin _ Hin). unfold ord_le in Hmin.
  apply leb_pair in Hmin. simpl in Hmin.
  destruct Hmin as [Hlt|[Heq _]]; [|simplify_eq; lia].
  destruct (decide (en_recency e <= en_recency e')); [done|]. exfalso.
  unfold leb, ord_prod in Hlt. simpl in Hlt. unfold leb, ord_Z in Hlt.
  rewrite (proj2 (Z.leb_le (en_recency e') r)), (proj2 (Z.leb_gt r (en_recency e'))) in Hlt by lia. done.
Qed.

(** ** Windows longer than the cooldown *)

Section LongWindow.
Context `{HmacSha256}.

(** After [k] attempts of one peer at one operation, all accepted at [t]. *)
Record attempted (l : Limiter) (d : Dimension) (t : Z) (k : nat) : Prop := {
  at_ok : limiter_ok l;
  at_entry : exists recency, entries l = {[d := mkEntry (replicate k t) None recency]};
  at_now : last_now l = Some t;
  at_recency : next_recency l = Z.of_nat k;
  at_evictions : capacity_evictions l = 0
}.

Lemma prune_now window t k : 0 < window -> prune window t (replicate k t) = replicate k t.
Proof. intros Hw. destruct k; [done|]. simpl. unfold saturating_sub. by rewrite (proj2 (Z.leb_gt _ _)) by lia. Qed.
(** A sweep at that time keeps the entry. *)
Lemma attempted_prepared l d t k : attempted l d t (S k) -> effective_now l t = t /\ entries (prepared t l) = entries l.
Proof.
  intros [Hl [r He] Hn _ _]. assert (effective_now l t = t) as Ht by (unfold effective_now; rewrite Hn; lia). split; [done|].
  unfold prepared. rewrite Ht. case_goal; [|done].
  change (entries (swept_state t (clocked t l)) = entries l). apply map_eq. intros d'. rewrite swept_lookup.
  change (entries (clocked t l)) with (entries l). change (config (clocked t l)) with (config l). rewrite He.
  destruct (decide (d = d')) as [<-|]; [|by rewrite lookup_singleton_ne]. rewrite lookup_singleton_eq. simpl.
  destruct (co_policy _ (lo_config _ Hl) d.1) as [_ Hw]. unfold sweep_entry, prune_attempts. cbn [cooldown_until attempts en_recency].
  by rewrite (prune_now _ t (S k)) by done.
Qed.

Lemma prepared_none now l d : entries l !! d = None -> entries (prepared now l) !! d = None.
Proof.
  intros Hd. unfold prepared. case_goal; [|done]. change (entries (swept_state (effective_now l now) (clocked now l)) !! d = None).
  rewrite swept_lookup. change (entries (clocked now l)) with (entries l). by rewrite Hd.
Qed.

Lemma first_attempt key c l0 op address t : config_typed c -> Limiter_new key c = Ok l0 -> address <> [] ->
  exists l, check op address t l0 = (l, Ok (LimitDecision_Allowed (limit (policy_of c op) - 1))) /\
    attempted l (op, peer_key l0 address) t 1 /\ config l = c /\ operator_key l = operator_key l0.
Proof.
  intros (Hlen & Hcap & Hpol) Hnew Ha. pose proof (new_ok _ _ _ Hlen Hcap Hpol Hnew) as (Hl0 & Hc & He).
  assert (last_now l0 = None /\ next_recency l0 = 0 /\ capacity_evictions l0 = 0) as (Hn & Hr & Hev)
    by (unfold Limiter_new in Hnew; destruct (_ || _); [done|]; by injection Hnew as <-).
  destruct (check op address t l0) as [l r] eqn:Hck. pose proof (check_ok _ _ _ _ _ _ Hl0 Hck) as (Hl & _ & Hcf & Hk & _).
  rewrite check_eq, bool_decide_eq_false_2 in Hck by done. destruct (prepared_fields t l0) as (Pc & Pn & Pe & Pk & Pr).
  assert (effective_now l0 t = t) as Ht by (unfold effective_now; by rewrite Hn).
  assert (entries (prepared t l0) = ∅) as Hp.
  { apply map_eq. intros d. rewrite lookup_empty. apply prepared_none. by rewrite He. }
  unfold check_found in Hck. rewrite Hp, lookup_empty, Ht, Pc, Hc in Hck.
  destruct (co_policy _ (lo_config _ Hl0) op) as [Hlim _]. rewrite Hc in Hlim. rewrite check_new_eq in Hck by lia. cbv zeta in Hck.
  assert (make_room (prepared t l0) = prepared t l0) as Hroom.
  { unfold make_room, entry_count. rewrite Hp, map_size_empty, Pc. pose proof (co_cap _ (lo_config _ Hl0)).
    by rewrite (proj2 (Z.leb_gt _ _)) by lia. }
  rewrite Hroom, Pr, Hr in Hck. injection Hck as <- <-. eexists. split; [done|]. split; [|by rewrite Hcf].
  assert (peer_key (prepared t l0) address = peer_key l0 address) as Hpk by (unfold peer_key; by rewrite Pk).
  split; [done| | | |].
  - exists 0. simpl. by rewrite Hp, Hpk.
  - simpl. by rewrite Pn, Ht.
  - simpl. by rewrite Pr, Hr.
  - simpl. by rewrite Pe.
Qed.
Lemma next_attempt l op address t k : attempted l (op, peer_key l address) t (S k) -> address <> [] -> Z.of_nat (S k) < u64_max ->
  let p := policy_of (config l) op in
  exists l' r, check op address t l = (l', r) /\ limiter_ok l' /\ config l' = config l /\ operator_key l' = operator_key l /\
    next_recency l' = Z.of_nat (S (S k)) /\ capacity_evictions l' = 0 /\ (exists e, entries l' = {[(op, peer_key l address) := e]}) /\
    if Z.of_nat (S k) <? limit p then r = Ok (LimitDecision_Allowed (limit p - Z.of_nat (S (S k)))) /\ attempted l' (op, peer_key l address) t (S (S k))
    else t + COOLDOWN_SECONDS <= u64_max -> r = Ok (LimitDecision_Cooldown (t + COOLDOWN_SECONDS)).
Proof.
  intros Hat Ha Hk p. pose proof Hat as [Hl [rc He] Hn Hr Hev]. destruct (attempted_prepared _ _ _ _ Hat) as [Ht Hp].
  destruct (check op address t l) as [l' r] eqn:Hck. exists l', r. split; [done|]. pose proof (check_ok _ _ _ _ _ _ Hl Hck) as (Hl' & _ & Hcf & Hkey & _).
  rewrite check_eq, bool_decide_eq_false_2 in Hck by done. destruct (prepared_fields t l) as (Pc & Pn & Pe & Pk & Pr).
  assert (peer_key (prepared t l) address = peer_key l address) as Hpk by (unfold peer_key; by rewrite Pk).
  unfold check_found in Hck. rewrite Hpk, Hp, He, lookup_singleton_eq, Ht, Pc in Hck. fold p in Hck.
  erewrite check_entry_eq in Hck by (by rewrite Hp, He, lookup_singleton_eq).
  rewrite Pr, Hr, (proj2 (Z.leb_le _ _)) in Hck by lia. destruct (co_policy _ (lo_config _ Hl) op) as [_ Hw]. fold p in Hw.
  unfold decide_entry, window_decision, prune_attempts in Hck. cbn [cooldown_until attempts en_recency] in Hck.
  rewrite prune_now in Hck by done. cbn [attempts cooldown_until en_recency] in Hck. rewrite length_replicate in Hck.
  assert (forall e', entries (touched (op, peer_key l address) (mkEntry (replicate (S k) t) None rc) e' (prepared t l)) = {[(op, peer_key l address) := e']}) as Hent
    by (intros e'; simpl; by rewrite Hp, He, insert_singleton_eq).
  assert (exists e', l' = touched (op, peer_key l address) (mkEntry (replicate (S k) t) None rc) e' (prepared t l)) as [e' Heq].
  { destruct (limit p <=? _); [destruct (checked_add _ _ _)|]; injection Hck as <- _; eauto. }
  split_and!; [done..| | | |].
  - subst l'. simpl. rewrite Pr, Hr. lia.
  - subst l'. simpl. by rewrite Pe.
  - subst l'. rewrite Hent. by eexists.
  - destruct (Z.of_nat (S k) <? limit p) eqn:E; bool_to_prop.
    + rewrite (proj2 (Z.leb_gt _ _)) in Hck by lia. injection Hck as <- <-. split; [do 2 f_equal; lia|]. split; [done| | | |].
      * eexists. rewrite Hent, (replicate_S_end (S k)). done.
      * simpl. by rewrite Pn, Ht.
      * simpl. rewrite Pr, Hr. lia.
      * simpl. by rewrite Pe.
    + intros Hmax. rewrite (proj2 (Z.leb_le _ _)) in Hck by lia. unfold checked_add in Hck. rewrite (proj2 (Z.leb_le _ _)) in Hck by lia. by injection Hck as _ <-.
Qed.

(** A run of attempts at one moment: as many are accepted as the policy allows. *)
Lemma attempts_run op address t n : forall l k, attempted l (op, peer_key l address) t (S k) -> address <> [] ->
  Z.of_nat (S k + n) <= limit (policy_of (config l) op) -> limit (policy_of (config l) op) < u64_max ->
  exists l', calls (replicate n (LimiterCall_Check op address t)) l = (l', replicate n ((op, peer_key l address), t)) /\
    attempted l' (op, peer_key l address) t (S k + n) /\ config l' = config l /\ operator_key l' = operator_key l.
Proof.
  induction n as [|n IH]; intros l k Hat Ha Hn Hl.
  { exists l. rewrite Nat.add_0_r. by split_and!. }
  destruct (next_attempt l op address t k Hat Ha ltac:(lia)) as (l1 & r & Hck & _ & Hc & Hkey & _ & _ & _ & Hr).
  rewrite (proj2 (Z.ltb_lt _ _)) in Hr by lia. destruct Hr as [-> Hat1].
  assert (peer_key l1 address = peer_key l address) as Hpk by (unfold peer_key; by rewrite Hkey).
  destruct (IH l1 (S k)) as (l' & Hcs & Hat' & Hc' & Hkey'); [by rewrite Hpk|done|rewrite Hc; lia|by rewrite Hc|].
  destruct (attempted_prepared _ _ _ _ Hat) as [Ht _].
  exists l'. cbn [replicate calls call]. rewrite Hck, Hcs, Ht, Hpk. split_and!; [done| |congruence..].
  rewrite Hpk in Hat'. replace (S k + S n)%nat with (S (S k) + n)%nat by lia. done.
Qed.

(** At the end of a cooldown the window is forgotten, without an eviction. *)
Lemma after_cooldown l op address t : limiter_ok l -> address <> [] -> cooling l (op, peer_key l address) (t + COOLDOWN_SECONDS) ->
  before l (t + COOLDOWN_SECONDS) -> next_recency l < u64_max -> (exists e, entries l = {[(op, peer_key l address) := e]}) -> capacity_evictions l = 0 ->
  let '(l', r) := check op address (t + COOLDOWN_SECONDS) l in
  r = Ok (LimitDecision_Allowed (limit (policy_of (config l) op) - 1)) /\ capacity_evictions l' = 0 /\
  effective_now l (t + COOLDOWN_SECONDS) = t + COOLDOWN_SECONDS.
Proof.
  intros Hl Ha Hc Hb Hr [e0 He0] Hev. pose proof (check_cooling op address (t + COOLDOWN_SECONDS) l _ Hl Ha Hc Hb Hr) as Hres.
  rewrite Z.ltb_irrefl in Hres. destruct (check op address _ l) as [l' r] eqn:Hck. cbn in Hres. subst r. split; [done|].
  assert (effective_now l (t + COOLDOWN_SECONDS) = t + COOLDOWN_SECONDS) as Hn.
  { unfold effective_now, before in *. destruct (last_now l) as [n|]; [|done]. specialize (Hb n eq_refl). lia. }
  split; [|done]. rewrite check_eq, bool_decide_eq_false_2, Hn in Hck by done. destruct (prepared_fields (t + COOLDOWN_SECONDS) l) as (Pc & Pn & Pe & Pk & Pr).
  unfold check_found in Hck. destruct (entries (prepared _ l) !! _) as [e|] eqn:He.
  - rewrite (check_entry_eq _ _ _ _ e) in Hck by done. destruct (_ <=? u64_max); [|done]. destruct (decide_entry _ _ _) as [e' r']. injection Hck as <- _.
    simpl. by rewrite Pe.
  - destruct (co_policy _ (lo_config _ Hl) op) as [Hlim _]. rewrite check_new_eq in Hck by (rewrite Pc; lia). cbv zeta in Hck.
    assert (make_room (prepared (t + COOLDOWN_SECONDS) l) = prepared (t + COOLDOWN_SECONDS) l) as Hroom.
    { unfold make_room. rewrite (proj2 (Z.leb_gt _ _)); [done|]. rewrite Pc. unfold entry_count.
      assert (size (entries (prepared (t + COOLDOWN_SECONDS) l)) = 0%nat) as ->; [|apply (co_cap _ (lo_config _ Hl))].
      apply map_size_empty_iff, map_eq. intros d. rewrite lookup_empty.
      assert (peer_key (prepared (t + COOLDOWN_SECONDS) l) address = peer_key l address) as Hpk by (unfold peer_key; by rewrite Pk).
      rewrite Hpk in He. destruct (decide ((op, peer_key l address) = d)) as [<-|Hd]; [done|]. apply prepared_none. by rewrite He0, lookup_singleton_ne. }
    rewrite Hroom in Hck. destruct (_ <=? u64_max); [|done]. injection Hck as <- _. simpl. by rewrite Pe.
Qed.

Lemma calls_app cs cs' l : calls (cs ++ cs') l =
  (let '(l1, acc1) := calls cs l in let '(l2, acc2) := calls cs' l1 in (l2, acc1 ++ acc2)).
Proof.
  revert l. induction cs as [|c cs IH]; intros l; simpl; [by destruct (calls cs' l)|].
  destruct (call c l) as [l1 acc1]. rewrite IH. destruct (calls cs l1) as [l2 acc2], (calls cs' l2) as [l3 acc3]. by rewrite app_assoc.
Qed.
Lemma times_replicate n d t : times d (replicate n (d, t)) = replicate n t.
Proof. induction n as [|n IH]; [done|]. change (times d (replicate (S n) (d, t))) with (match (if decide (d = d) then Some t else None) with Some y => y :: times d (replicate n (d, t)) | None => times d (replicate n (d, t)) end). rewrite decide_True by done. by rewrite IH. Qed.
Lemma within_all w T l : Forall (fun t => T - w < t /\ t <= T) l -> within w T l = length l.
Proof. intros HF. unfold within. induction HF; [done|]. rewrite filter_cons_True by done. simpl. by f_equal. Qed.
End LongWindow.

(** A peer that makes one attempt more than the limit, and one more when its
    cooldown ends. *)
Definition overrun (op : Operation) (address : bytes) (t : Z) (limit : nat) : list LimiterCall :=
  replicate limit (LimiterCall_Check op address t) ++
  [LimiterCall_Check op address t; LimiterCall_Check op address (t + COOLDOWN_SECONDS)].

(** C40. A window longer than the cooldown is not kept.  Under every
    configuration, for every operation whose policy has a window of more than
    five minutes, every peer and every time: when the peer uses up its limit at
    once, is refused one attempt and tries again when the cooldown that this
    starts is over, it is accepted, so one window holds one attempt more than
    the limit; and no dimension was evicted. *)
Theorem long_window_exceeded `{HmacSha256} key c l0 op address t :
  let p := policy_of c op in
  let d := (op, peer_key l0 address) in
  config_typed c -> Limiter_new key c = Ok l0 -> address <> [] -> limit p <= u32_max ->
  t + COOLDOWN_SECONDS <= u64_max -> COOLDOWN_SECONDS < window_seconds p ->
  exists l acc, calls (overrun op address t (Z.to_nat (limit p))) l0 = (l, acc) /\ capacity_evictions l = 0 /\
    times d acc = replicate (Z.to_nat (limit p)) t ++ [t + COOLDOWN_SECONDS] /\
    Z.of_nat (within (window_seconds p) (t + COOLDOWN_SECONDS) (times d acc)) = limit p + 1.
Proof.
  intros p d Hty Hnew Ha Hmax Ht Hw. pose proof (first_attempt key c l0 op address t Hty Hnew Ha) as (l1 & Hck & Hat & Hc & Hk). fold p d in Hck, Hat.
  assert (1 <= limit p) as Hlim.
  { pose proof (co_policy _ (lo_config _ (at_ok _ _ _ _ Hat)) op) as [Hp _]. rewrite Hc in Hp. fold p in Hp. lia. }
  assert (forall l, operator_key l = operator_key l0 -> (op, peer_key l address) = d) as Hd by (intros l Hl; unfold d, peer_key; by rewrite Hl).
  set (n := Z.to_nat (limit p - 1)). assert (Z.to_nat (limit p) = S n) as Hn by (unfold n; lia). rewrite Hn.
  destruct (attempts_run op address t n l1 0) as (l2 & Hcs & Hat2 & Hc2 & Hk2); [by rewrite Hd|done|rewrite Hc; fold p; unfold u32_max, u64_max in *; lia..|].
  rewrite Hd in Hcs, Hat2 by done. assert (operator_key l2 = operator_key l0) as Hk2' by congruence.
  destruct (next_attempt l2 op address t n) as (l3 & r & Hck3 & Hl3 & Hc3 & Hk3 & Hr3 & Hev3 & He3 & Hr); [by rewrite Hd|done|unfold u32_max, u64_max in *; lia|].
  rewrite Hc2, Hc in Hr. fold p in Hr. rewrite (proj2 (Z.ltb_ge _ _)) in Hr by lia. specialize (Hr Ht). subst r. rewrite Hd in He3 by done.
  assert (operator_key l3 = operator_key l0) as Hk3' by congruence.
  destruct (check_cools _ _ _ _ _ _ (at_ok _ _ _ _ Hat2) Hck3) as (_ & Hcool & Hb). rewrite Hd in Hcool by done.
  pose proof (after_cooldown l3 op address t Hl3 Ha) as Hlast. rewrite Hd in Hlast by done.
  specialize (Hlast Hcool Hb ltac:(unfold u32_max, u64_max in *; lia) He3 Hev3).
  destruct (check op address (t + COOLDOWN_SECONDS) l3) as [l4 r] eqn:Hck4. destruct Hlast as (-> & Hev4 & Hn4).
  assert (calls (overrun op address t (S n)) l0 = (l4, ((d, t) :: replicate n (d, t)) ++ [(d, t + COOLDOWN_SECONDS)])) as Hrun.
  { unfold overrun. rewrite calls_app. cbn [replicate calls call]. rewrite Hck, Hcs, Hck3, Hck4, Hn4, !Hd by done.
    assert (effective_now l0 t = t) as ->; [|done]. unfold Limiter_new in Hnew. destruct (_ || _) in Hnew; [done|]. by injection Hnew as <-. }
  assert (times d (((d, t) :: replicate n (d, t)) ++ [(d, t + COOLDOWN_SECONDS)]) = replicate (S n) t ++ [t + COOLDOWN_SECONDS]) as Htimes.
  { unfold times. rewrite omap_app. change ((d, t) :: replicate n (d, t)) with (replicate (S n) (d, t)). fold (times d (replicate (S n) (d, t))).
    rewrite times_replicate. simpl. by rewrite decide_True. }
  exists l4, (((d, t) :: replicate n (d, t)) ++ [(d, t + COOLDOWN_SECONDS)]). split_and!; [done..|]. rewrite Htimes, within_all.
  - rewrite length_app, length_replicate. simpl. lia.
  - apply Forall_app. split; [|by repeat constructor; unfold COOLDOWN_SECONDS in *; lia].
    apply Forall_replicate. unfold COOLDOWN_SECONDS in *. lia.
Qed.

(** ** Concrete runs *)

Definition demo_config : LimiterConfig := LimiterConfig_new (mkOperationPolicy 2 60) 2 30.
Definition demo_limiter : Limiter := mkLimiter [7] demo_config ∅ ∅ 0 None None 0 0.
Definition demo_calls : list LimiterCall :=
  [LimiterCall_Check Operation_Claim [1] 100; LimiterCall_Check Operation_Claim [1] 90;
   LimiterCall_Sweep 101; LimiterCall_Check Operation_Open [1] 102].
Definition demo_later : Limiter := (calls demo_calls demo_limiter).1.

Lemma demo_config_typed : config_typed demo_config.
Proof. split_and!; [done|done|]. repeat constructor; simpl; lia. Qed.
Lemma demo_calls_eq : calls demo_calls demo_limiter = (demo_later, (calls demo_calls demo_limiter).2).
Proof. unfold demo_later. by destruct (calls _ _). Qed.
Lemma demo_later_ok : limiter_ok demo_later.
Proof.
  destruct demo_config_typed as (? & ? & ?).
  destruct (new_ok [7] demo_config demo_limiter) as (Hl & _ & _); [done..|].
  by destruct (calls_ok _ _ _ _ Hl demo_calls_eq) as (? & _).
Qed.

Lemma limiter_bounded_witness :
  entry_count demo_later <= 2 /\ (check Operation_Claim [1] 103 demo_later).2 <> Panic.
Proof.
  destruct (limiter_bounded [7] demo_config demo_limiter demo_calls demo_later _ Operation_Claim [1] 103
    demo_config_typed eq_refl demo_calls_eq) as (? & _ & ?).
  done.
Defined.

Lemma sliding_window_bound_witness :
  Z.of_nat (within 60 120 (times (Operation_Claim, peer_key demo_limiter [1])
    (calls demo_calls demo_limiter).2)) <= 2.
Proof.
  apply (sliding_window_bound [7] demo_config demo_limiter demo_calls demo_later _ Operation_Claim
    (peer_key demo_limiter [1]) 120 demo_config_typed eq_refl demo_calls_eq).
  - vm_compute. reflexivity.
  - by vm_compute.
Defined.

Lemma cooldown_enforced_witness :
  exists l2, (check Operation_Claim [1] 200 l2).2 = Ok (LimitDecision_Cooldown 404) /\
    (check Operation_Claim [1] 404 l2).2 = Ok (LimitDecision_Allowed 1).
Proof.
  set (l1 := (check Operation_Claim [1] 104 demo_later).1).
  assert (check Operation_Claim [1] 104 demo_later = (l1, Ok (LimitDecision_Cooldown 404))) as Hc
    by (vm_compute; reflexivity).
  set (cs := [LimiterCall_Check Operation_Claim [1] 150; LimiterCall_SweepIfDue 180]).
  exists (calls cs l1).1.
  assert (calls cs l1 = ((calls cs l1).1, (calls cs l1).2)) as Hcs by (by destruct (calls cs l1)).
  assert (Forall (fun c => call_time c < 404) cs) as Ht by (repeat constructor; done).
  assert (capacity_evictions (calls cs l1).1 = 0) as Hev by (vm_compute; reflexivity).
  assert (next_recency (calls cs l1).1 < u64_max) as Hn by (vm_compute; reflexivity).
  assert (policy_of (config demo_later) Operation_Claim = mkOperationPolicy 2 60) as Hp
    by (vm_compute; reflexivity).
  pose proof (fun now' => cooldown_enforced demo_later Operation_Claim [1] 104 l1 404 cs (calls cs l1).1 _ now'
      demo_later_ok Hc Hcs Ht Hev Hn) as Hall.
  rewrite Hp in Hall. clearbody l1. split; apply Hall.
Defined.

Lemma eviction_is_lru_witness :
  exists victim e, entries demo_later !! victim = Some e /\
    entries (check_new (mkOperationPolicy 2 60) (Operation_Put, [9]) 105 demo_later).1 =
      <[(Operation_Put, [9]) := mkEntry [105] None (next_recency demo_later)]> (delete victim (entries demo_later)).
Proof.
  destruct (eviction_is_lru demo_later (mkOperationPolicy 2 60) (Operation_Put, [9]) 105 demo_later_ok)
    as (victim & e & Hv & _ & He); [done|vm_compute; reflexivity|vm_compute; reflexivity|vm_compute; reflexivity|].
  exists victim, e. by split.
Defined.

Lemma long_window_exceeded_witness : exists l acc,
  calls (overrun Operation_Claim [1] 0 2) (mkLimiter [7] (LimiterConfig_new (mkOperationPolicy 2 3600) 10 60) ∅ ∅ 0 None None 0 0) = (l, acc) /\
  Z.of_nat (within 3600 300 (times (Operation_Claim, peer_key demo_limiter [1]) acc)) = 3.
Proof.
  assert (config_typed (LimiterConfig_new (mkOperationPolicy 2 3600) 10 60)) as Hty by (split_and!; [done|done|]; repeat constructor; simpl; lia).
  destruct (long_window_exceeded [7] (LimiterConfig_new (mkOperationPolicy 2 3600) 10 60)
    (mkLimiter [7] (LimiterConfig_new (mkOperationPolicy 2 3600) 10 60) ∅ ∅ 0 None None 0 0) Operation_Claim [1] 0 Hty eq_refl)
    as (l & acc & Hc & _ & _ & Hw); [discriminate|by vm_compute..|].
  exists l, acc. split; [exact Hc|exact Hw].
Defined.
