(* ===== verification/Observability.v ===== *)
(** * Relay metrics ([src/observability.rs])

    Eight by ten saturating counters with closed labels, gauges, and the
    80-percent capacity alerts. *)

From S2P Require Import Prelude External Limiter.

Inductive RelayOutcome : Type :=
| RelayOutcome_Success | RelayOutcome_Invalid | RelayOutcome_NotFound | RelayOutcome_Conflict
| RelayOutcome_Closed | RelayOutcome_Crowded | RelayOutcome_Expired | RelayOutcome_TooLarge
| RelayOutcome_RateLimited | RelayOutcome_Unavailable.

#[export] Instance RelayOutcome_eq_dec : EqDecision RelayOutcome.
Proof. solve_decision. Defined.

Definition RelayOutcome_ALL : list RelayOutcome :=
  [RelayOutcome_Success; RelayOutcome_Invalid; RelayOutcome_NotFound; RelayOutcome_Conflict;
   RelayOutcome_Closed; RelayOutcome_Crowded; RelayOutcome_Expired; RelayOutcome_TooLarge;
   RelayOutcome_RateLimited; RelayOutcome_Unavailable].

Definition outcome_index (o : RelayOutcome) : nat :=
  match o with
  | RelayOutcome_Success => 0
  | RelayOutcome_Invalid => 1
  | RelayOutcome_NotFound => 2
  | RelayOutcome_Conflict => 3
  | RelayOutcome_Closed => 4
  | RelayOutcome_Crowded => 5
  | RelayOutcome_Expired => 6
  | RelayOutcome_TooLarge => 7
  | RelayOutcome_RateLimited => 8
  | RelayOutcome_Unavailable => 9
  end.

Record RelayLogEvent := mkRelayLogEvent { ev_operation : Operation; ev_outcome : RelayOutcome }.

Record OperationMetric := mkOperationMetric {
  om_operation : Operation;
  om_outcome : RelayOutcome;
  om_count : Z
}.

Record CapacityCaps := mkCapacityCaps {
  cap_open_mailboxes : Z;
  cap_queue_bytes : Z;
  cap_limiter_entries : Z
}.

Record RelayGauges := mkRelayGauges {
  g_open_mailboxes : Z;
  g_queue_bytes : Z;
  g_limiter_entries : Z;
  g_limiter_clock_reversals : Z
}.

Record CapacityAlerts := mkCapacityAlerts {
  al_open_mailboxes : bool;
  al_queue_bytes : bool;
  al_limiter_entries : bool
}.

Record RelayMetrics := mkRelayMetrics {
  rm_operations : list OperationMetric;
  rm_gauges : RelayGauges;
  rm_alerts : CapacityAlerts
}.

(** [counters: [[u64; 10]; 8]], row by row. *)
Record RelayObservability := mkRelayObservability {
  ob_caps : CapacityCaps;
  counters : list (list Z);
  ob_gauges : RelayGauges
}.

Definition RelayObservability_new (caps : CapacityCaps) : RelayObservability :=
  mkRelayObservability caps (replicate 8 (replicate 10 0)) (mkRelayGauges 0 0 0 0).

(** Indexing a fixed array; the indices are in range by construction. *)
Definition counter (o : RelayObservability) (op : Operation) (out : RelayOutcome) : Z :=
  nth (outcome_index out) (nth (index op) (counters o) []) 0.

Definition record (op : Operation) (out : RelayOutcome) (o : RelayObservability) :
    RelayObservability * RelayLogEvent :=
  (mkRelayObservability (ob_caps o)
     (alter (alter (fun c => saturating_add u64_max c 1) (outcome_index out)) (index op) (counters o))
     (ob_gauges o),
   mkRelayLogEvent op out).

Definition set_gauges (g : RelayGauges) (o : RelayObservability) : RelayObservability :=
  mkRelayObservability (ob_caps o) (counters o) g.

Definition at_eighty_percent (value cap : Z) : bool :=
  negb (cap =? 0) && (cap * 4 <=? value * 5).

Definition metrics (o : RelayObservability) : RelayMetrics :=
  mkRelayMetrics
    (op ← Operation_ALL;
     out ← RelayOutcome_ALL;
     let count := counter o op out in
     if negb (count =? 0) then [mkOperationMetric op out count] else [])
    (ob_gauges o)
    (mkCapacityAlerts
       (at_eighty_percent (g_open_mailboxes (ob_gauges o)) (cap_open_mailboxes (ob_caps o)))
       (at_eighty_percent (g_queue_bytes (ob_gauges o)) (cap_queue_bytes (ob_caps o)))
       (at_eighty_percent (g_limiter_entries (ob_gauges o)) (cap_limiter_entries (ob_caps o)))).

(** ** Lemmas *)

(** The shape of the counter array. *)
Definition counters_ok (o : RelayObservability) : Prop :=
  length (counters o) = 8%nat /\ Forall (fun row => length row = 10%nat) (counters o).

Lemma counters_ok_new caps : counters_ok (RelayObservability_new caps).
Proof. split; [done|]. by repeat constructor. Qed.

Lemma counters_ok_record op out o : counters_ok o -> counters_ok (record op out o).1.
Proof.
  intros [Hlen HF]. split; simpl; [by rewrite length_alter|].
  apply Forall_alter; [done|]. intros row _ Hrow. by rewrite length_alter.
Qed.

(** Recording moves one counter, by one, and saturates. *)
Lemma counter_record op out o op' out' :
  counters_ok o ->
  counter (record op out o).1 op' out' =
  if decide ((op', out') = (op, out)) then saturating_add u64_max (counter o op out) 1
  else counter o op' out'.
Proof.
  intros [Hlen HF]. unfold counter. simpl.
  assert (exists row, counters o !! index op = Some row /\ length row = 10%nat) as (row & Hrow & Hl).
  { destruct (lookup_lt_is_Some_2 (counters o) (index op)) as [row Hrow]; [rewrite Hlen; destruct op; simpl; lia|].
    exists row. split; [done|]. by eapply Forall_lookup in HF. }
  assert (forall l n (d : list Z), nth n l d = default d (l !! n)) as Hnl
    by (intros; by rewrite nth_lookup).
  assert (forall l n (d : Z), nth n l d = default d (l !! n)) as Hn
    by (intros; by rewrite nth_lookup).
  rewrite !Hnl, !Hn. destruct (decide (op' = op)) as [->|Hop].
  - rewrite list_lookup_alter_eq, Hrow. simpl. destruct (decide (out' = out)) as [->|Hout].
    + rewrite list_lookup_alter_eq, decide_True by done.
      destruct (lookup_lt_is_Some_2 row (outcome_index out)) as [c ->]; [rewrite Hl; destruct out; simpl; lia|done].
    + rewrite decide_False by congruence. rewrite list_lookup_alter_ne; [done|].
      by destruct out, out'.
  - rewrite decide_False by congruence. rewrite list_lookup_alter_ne; [done|]. by destruct op, op'.
Qed.

Lemma elem_of_metrics o m :
  m ∈ rm_operations (metrics o) <->
  om_count m = counter o (om_operation m) (om_outcome m) /\ om_count m <> 0.
Proof.
  unfold metrics, rm_operations. rewrite list_elem_of_bind. split.
  - intros (op & Hm & _). apply list_elem_of_bind in Hm as (out & Hm & _).
    destruct (negb _) eqn:E; [|set_solver]. apply list_elem_of_singleton in Hm. subst. simpl.
    bool_to_prop. done.
  - intros [Hc Hz]. exists (om_operation m). split.
    + apply list_elem_of_bind. exists (om_outcome m). split.
      * rewrite <- Hc, (proj2 (Z.eqb_neq _ _)) by done. simpl. destruct m. simpl in *. set_solver.
      * destruct (om_outcome m); set_solver.
    + destruct (om_operation m); set_solver.
Qed.
