(* ===== verification/Storage.v ===== *)
(** * Mailbox persistence ([src/storage.rs])

    The record codec, the store interface ([MailboxStore], a type class over
    a state of the implementation's own) and its two adapters.

    The directory of [FileMailboxStore] is a map from file names to contents.
    Every system call takes the next entry of a schedule of faults, so that a
    run covers failures and the death of the process between, or in the middle
    of, any two of them; a write that does not complete leaves an arbitrary
    prefix.  Loss of data the kernel has accepted (a power failure) and file
    permissions are not modelled. *)

From S2P Require Import Prelude External Wire Mailbox.

Definition STORE_DOMAIN_V1 : string := "cbcl-pairing-mailbox-store/v1".
Definition STORE_DOMAIN_V2 : string := "cbcl-pairing-mailbox-store/v2".

Inductive StoreError : Type := StoreError_Io | StoreError_Malformed | StoreError_Conflict.

(** ** The record codec *)

Definition membership_number (m : Membership) : Z :=
  match m with Membership_Allocator => 0 | Membership_Claimant => 1 end.

Definition close_number (r : CloseReason) : Z :=
  match r with
  | CloseReason_Closed => 0
  | CloseReason_Crowded => 1
  | CloseReason_Expired => 2
  | CloseReason_Conflict => 3
  end.

Definition close_reason (v : Z) : outcome StoreError CloseReason :=
  if v =? 0 then Ok CloseReason_Closed
  else if v =? 1 then Ok CloseReason_Crowded
  else if v =? 2 then Ok CloseReason_Expired
  else if v =? 3 then Ok CloseReason_Conflict
  else Err StoreError_Malformed.

Definition encode_admission (a : AdmissionSnapshot) : Value :=
  match a with
  | AdmissionSnapshot_V1 => VArray [VInteger 0]
  | AdmissionSnapshot_V2Pending commitment => VArray [VInteger 1; VBytes commitment]
  | AdmissionSnapshot_V2Claimed => VArray [VInteger 2]
  | AdmissionSnapshot_V2Closed => VArray [VInteger 3]
  end.

Definition encode_status (st : MailboxStatus) : Value :=
  match st with
  | MailboxStatus_Waiting => VArray [VInteger 0]
  | MailboxStatus_Paired => VArray [VInteger 1]
  | MailboxStatus_Terminal reason => VArray [VInteger 2; VInteger (close_number reason)]
  end.

Definition encode_sequence (s : SequenceSnapshot) : outcome StoreError Value :=
  body_len ← ok_or (try_into u64_max (ss_body_len s)) StoreError_Malformed;
  Ok (VArray [VInteger (membership_number (ss_owner s)); VInteger (ss_seq s);
              VBytes (ss_body_digest s); VInteger body_len;
              match ss_body s with Some b => VBytes b | None => VNull end]).

(** The record as a value. *)
Definition encode_record (s : MailboxSnapshot) : outcome StoreError Value :=
  sequences ← collect encode_sequence (sn_sequences s);
  let v1 := bool_decide (sn_admission s = AdmissionSnapshot_V1) in
  Ok (VArray
    ([VText (if v1 then STORE_DOMAIN_V1 else STORE_DOMAIN_V2);
      VBytes (sn_mailbox_id s);
      match sn_nameplate s with Some v => VInteger v | None => VNull end;
      VInteger (sn_expires_at s);
      encode_status (sn_status s);
      VArray (map VBytes (sn_membership_hashes s));
      VArray sequences] ++
     if v1 then [] else [encode_admission (sn_admission s)])).

Definition integer (v : Value) : outcome StoreError Z :=
  match v with
  | VInteger z => ok_or (try_into u64_max z) StoreError_Malformed
  | _ => Err StoreError_Malformed
  end.

Definition fixed (len : nat) (v : Value) : outcome StoreError bytes :=
  match v with
  | VBytes b => if (length b =? len)%nat then Ok b else Err StoreError_Malformed
  | _ => Err StoreError_Malformed
  end.

Definition decode_admission (v : Value) : outcome StoreError AdmissionSnapshot :=
  match v with
  | VArray [kind] =>
      k ← integer kind;
      if k =? 0 then Ok AdmissionSnapshot_V1
      else if k =? 2 then Ok AdmissionSnapshot_V2Claimed
      else if k =? 3 then Ok AdmissionSnapshot_V2Closed
      else Err StoreError_Malformed
  | VArray [kind; commitment] =>
      k ← integer kind;
      if k =? 1 then c ← fixed 32 commitment; Ok (AdmissionSnapshot_V2Pending c)
      else Err StoreError_Malformed
  | _ => Err StoreError_Malformed
  end.

Definition decode_status (v : Value) : outcome StoreError MailboxStatus :=
  match v with
  | VArray [kind] =>
      k ← integer kind;
      if k =? 0 then Ok MailboxStatus_Waiting
      else if k =? 1 then Ok MailboxStatus_Paired
      else Err StoreError_Malformed
  | VArray [kind; reason] =>
      k ← integer kind;
      if k =? 2 then
        r ← integer reason;
        reason ← close_reason r;
        Ok (MailboxStatus_Terminal reason)
      else Err StoreError_Malformed
  | _ => Err StoreError_Malformed
  end.

Definition decode_sequence (v : Value) : outcome StoreError SequenceSnapshot :=
  match v with
  | VArray [owner; seq; digest; body_len; body] =>
      o ← integer owner;
      owner ← (if o =? 0 then Ok Membership_Allocator
               else if o =? 1 then Ok Membership_Claimant
               else Err StoreError_Malformed);
      s ← integer seq;
      seq ← ok_or (try_into u8_max s) StoreError_Malformed;
      digest ← fixed 32 digest;
      n ← integer body_len;
      body_len ← ok_or (try_into u64_max n) StoreError_Malformed;
      body ← match body with
             | VNull => Ok None
             | VBytes b => Ok (Some b)
             | _ => Err StoreError_Malformed
             end;
      Ok (mkSequenceSnapshot owner seq digest body_len body)
  | _ => Err StoreError_Malformed
  end.

Definition array (v : Value) : outcome StoreError (list Value) :=
  match v with VArray l => Ok l | _ => Err StoreError_Malformed end.

(** The seven positional fields and the admission of a record. *)
Definition record_parts (parts : list Value) :
    outcome StoreError (Value * Value * Value * Value * Value * Value * AdmissionSnapshot) :=
  match parts with
  | [VText domain; mailbox_id; nameplate; expires_at; status; hashes; sequences] =>
      if String.eqb domain STORE_DOMAIN_V1
      then Ok (mailbox_id, nameplate, expires_at, status, hashes, sequences, AdmissionSnapshot_V1)
      else Err StoreError_Malformed
  | [VText domain; mailbox_id; nameplate; expires_at; status; hashes; sequences; admission] =>
      if String.eqb domain STORE_DOMAIN_V2
      then a ← decode_admission admission;
           Ok (mailbox_id, nameplate, expires_at, status, hashes, sequences, a)
      else Err StoreError_Malformed
  | _ => Err StoreError_Malformed
  end.

Section Codec.
Context `{Sha256, Cbor}.

Definition encode (s : MailboxSnapshot) : outcome StoreError bytes :=
  record ← encode_record s;
  ok_or (to_canonical_vec record) StoreError_Malformed.

Definition decode_record (value : Value) : outcome StoreError Mailbox :=
  parts ← array value;
  '(mailbox_id, nameplate, expires_at, status, hashes, sequences, admission) ← record_parts parts;
  mailbox_id ← fixed 32 mailbox_id;
  nameplate ← match nameplate with
              | VNull => Ok None
              | value =>
                  v ← integer value;
                  n ← ok_or (try_into u32_max v) StoreError_Malformed;
                  Ok (Some n)
              end;
  status ← decode_status status;
  hashes ← array hashes;
  membership_hashes ← collect (fixed 32) hashes;
  sequences ← array sequences;
  sequences ← collect decode_sequence sequences;
  expires_at ← integer expires_at;
  map_err (fun _ => StoreError_Malformed)
    (from_snapshot (mkMailboxSnapshot mailbox_id nameplate expires_at status admission
                      membership_hashes sequences)).

Definition decode (input : bytes) : outcome StoreError Mailbox :=
  '(value, _) ← ok_or (from_reader input) StoreError_Malformed;
  canonical ← ok_or (to_canonical_vec value) StoreError_Malformed;
  if negb (bool_decide (canonical = input)) then Err StoreError_Malformed
  else decode_record value.
End Codec.

(** ** The store interface *)

(** [trait MailboxStore]: operations on a state [S] of the implementation. *)
Class MailboxStore (S : Type) := {
  store_load : stM S StoreError (list Mailbox);
  store_put : Mailbox -> stM S StoreError unit;
  store_remove : bytes -> stM S StoreError unit
}.

(** *** In memory *)

Record MemoryMailboxStore := mkMemoryMailboxStore { records : gmap bytes bytes }.

Section Memory.
Context `{Sha256, Cbor}.

Definition memory_load : stM MemoryMailboxStore StoreError (list Mailbox) :=
  s ← get;
  lift (collect decode (bmap_values (records s))).

Definition memory_put (mailbox : Mailbox) : stM MemoryMailboxStore StoreError unit :=
  let s := snapshot mailbox in
  record ← lift (encode s);
  modify (fun st => mkMemoryMailboxStore (<[sn_mailbox_id s := record]> (records st))).

Definition memory_remove (mailbox_id : bytes) : stM MemoryMailboxStore StoreError unit :=
  modify (fun st => mkMemoryMailboxStore (delete mailbox_id (records st))).

#[export] Instance memory_store : MailboxStore MemoryMailboxStore := {|
  store_load := memory_load;
  store_put := memory_put;
  store_remove := memory_remove
|}.
End Memory.

(** *** In a directory *)

Definition hex_digit (d : Z) : Z := if d <? 10 then 48 + d else 87 + d.

Fixpoint lower_hex (b : bytes) : bytes :=
  match b with
  | [] => []
  | x :: b => hex_digit (Z.shiftr x 4) :: hex_digit (Z.land x 15) :: lower_hex b
  end.

Definition dot : Z := 46.
Definition record_name (mailbox_id : bytes) : bytes := lower_hex mailbox_id ++ ascii_bytes ".cbor".
(** [.{id}.{pid}.tmp], with the process id in decimal. *)
Definition temporary_name (mailbox_id pid : bytes) : bytes :=
  [dot] ++ lower_hex mailbox_id ++ [dot] ++ pid ++ ascii_bytes ".tmp".

(** [Path::extension]: what follows the last dot, unless that dot starts the
    name. *)
Fixpoint last_dot (b : bytes) : option (bytes * bytes) :=
  match b with
  | [] => None
  | x :: b =>
      match last_dot b with
      | Some (stem, ext) => Some (x :: stem, ext)
      | None => if x =? dot then Some ([], b) else None
      end
  end.
Definition extension (name : bytes) : option bytes :=
  match last_dot name with
  | Some (_ :: _, ext) => Some ext
  | _ => None
  end.

Definition strip_suffix (suffix b : bytes) : option bytes :=
  let n := (length b - length suffix)%nat in
  if bool_decide (drop n b = suffix) then Some (take n b) else None.
Fixpoint split_once (sep : Z) (b : bytes) : option (bytes * bytes) :=
  match b with
  | [] => None
  | x :: b => if x =? sep then Some ([], b)
              else '(l, r) ← split_once sep b; Some (x :: l, r)
  end.

Definition is_digit (c : Z) : bool := (48 <=? c) && (c <=? 57).
Definition is_lower_hex (c : Z) : bool := is_digit c || ((97 <=? c) && (c <=? 102)).

Definition is_store_temporary (name : bytes) : bool :=
  match name with
  | c :: rest =>
      if c =? dot then
        match strip_suffix (ascii_bytes ".tmp") rest with
        | Some body =>
            match split_once dot body with
            | Some (mailbox, process) =>
                (length mailbox =? 64)%nat && forallb is_lower_hex mailbox &&
                negb (bool_decide (process = [])) && forallb is_digit process
            | None => false
            end
        | None => false
        end
      else false
  | [] => false
  end.

(** What happens to the next system call. *)
Inductive Fault : Type :=
| Fault_None
| Fault_Fails (written : nat)
| Fault_Dies (written : nat).

(** A store in a directory: the files, the decimal process id, and the faults
    to come.  The death of the process is [Panic]: nothing runs after it. *)
Record FileMailboxStore := mkFileMailboxStore {
  files : gmap bytes bytes;
  process_id : bytes;
  faults : list Fault
}.

Definition fileM := stM FileMailboxStore StoreError.

Definition set_files (f : gmap bytes bytes) (s : FileMailboxStore) : FileMailboxStore :=
  mkFileMailboxStore f (process_id s) (faults s).

(** A system call: [partial n] is its effect when it is cut short after [n]
    units of work, [full] its complete effect, [None] when it is refused. *)
Definition syscall (partial : nat -> gmap bytes bytes -> gmap bytes bytes)
    (full : gmap bytes bytes -> option (gmap bytes bytes)) : fileM unit := fun s =>
  let rest := mkFileMailboxStore (files s) (process_id s) (tail (faults s)) in
  match head (faults s) with
  | Some (Fault_Fails n) => (set_files (partial n (files s)) rest, Err StoreError_Io)
  | Some (Fault_Dies n) => (set_files (partial n (files s)) rest, Panic)
  | _ => match full (files s) with
         | Some f => (set_files f rest, Ok tt)
         | None => (rest, Err StoreError_Io)
         end
  end.

(** Calls without a visible effect on the files. *)
Definition no_effect : fileM unit := syscall (fun _ f => f) Some.
Definition sync_directory : fileM unit := no_effect.

(** [FileMailboxStore::open]: [create_dir_all], which keeps what a present
    directory holds, then the permissions of the directory. *)
Definition file_open : fileM unit :=
  _ ← no_effect;
  no_effect.

(** [OpenOptions::create_new(true).open]. *)
Definition create_new (name : bytes) : fileM unit :=
  syscall (fun _ f => f)
    (fun f => match f !! name with Some _ => None | None => Some (<[name := []]> f) end).
(** [write_all] on a fresh file. *)
Definition write_all (name data : bytes) : fileM unit :=
  syscall (fun n f => <[name := take n data]> f) (fun f => Some (<[name := data]> f)).
(** [fs::rename] replaces the target atomically. *)
Definition rename (from to : bytes) : fileM unit :=
  syscall (fun _ f => f)
    (fun f => data ← f !! from; Some (<[to := data]> (delete from f))).
Definition remove_file (name : bytes) : fileM unit :=
  syscall (fun _ f => f)
    (fun f => match f !! name with Some _ => Some (delete name f) | None => None end).

(** [fs::read]. *)
Definition read (name : bytes) : fileM bytes :=
  _ ← no_effect;
  s ← get;
  lift (ok_or (files s !! name) StoreError_Io).

(** Run [m] and, when it returns an error, run [cleanup] ignoring its result. *)
Definition on_error (m : fileM unit) (cleanup : fileM unit) : fileM unit := fun s =>
  match m s with
  | (s', Err e) => match cleanup s' with
                   | (s'', Panic) => (s'', Panic)
                   | (s'', _) => (s'', Err e)
                   end
  | r => r
  end.

Section Files.
Context `{Sha256, Cbor}.

Definition file_put (mailbox : Mailbox) : fileM unit :=
  let s := snapshot mailbox in
  st ← get;
  let target := record_name (sn_mailbox_id s) in
  let temporary := temporary_name (sn_mailbox_id s) (process_id st) in
  record ← lift (encode s);
  on_error
    (_ ← create_new temporary;
     _ ← no_effect;
     _ ← write_all temporary record;
     _ ← no_effect;
     _ ← rename temporary target;
     sync_directory)
    (remove_file temporary).

Definition file_remove (mailbox_id : bytes) : fileM unit :=
  st ← get;
  match files st !! record_name mailbox_id with
  | Some _ => _ ← remove_file (record_name mailbox_id); sync_directory
  | None => no_effect
  end.

(** One entry of [read_dir]: a temporary is removed, a file that is not a
    record is skipped, a record is decoded and must carry its own name. *)
Definition load_entry (name : bytes) : fileM (option Mailbox) :=
  if is_store_temporary name then
    _ ← remove_file name;
    _ ← sync_directory;
    mret None
  else if negb (bool_decide (extension name = Some (ascii_bytes "cbor"))) then mret None
  else
    data ← read name;
    mailbox ← lift (decode data);
    if negb (bool_decide (name = record_name (sn_mailbox_id (snapshot mailbox)))) then
      throw StoreError_Malformed
    else mret (Some mailbox).

Fixpoint load_entries (names : list bytes) : fileM (list Mailbox) :=
  match names with
  | [] => mret []
  | name :: names =>
      _ ← no_effect;
      m ← load_entry name;
      ms ← load_entries names;
      mret (match m with Some mb => mb :: ms | None => ms end)
  end.

Definition mailbox_id_le (a b : Mailbox) : Prop := ord_le (mb_mailbox_id a) (mb_mailbox_id b).
#[export] Instance mailbox_id_le_dec a b : Decision (mailbox_id_le a b).
Proof. unfold mailbox_id_le. apply _. Defined.

(** The directory is listed in no particular order; the records are sorted. *)
Definition file_load : fileM (list Mailbox) :=
  _ ← no_effect;
  st ← get;
  records ← load_entries (elements (dom (files st)));
  mret (merge_sort mailbox_id_le records).

#[export] Instance file_store : MailboxStore FileMailboxStore := {|
  store_load := file_load;
  store_put := file_put;
  store_remove := file_remove
|}.
End Files.
