(* ===== verification/StorageLaws.v ===== *)
(** * What the mailbox stores promise

    The record codec round trip; then [StoreLaws], which relates a store to the
    mailboxes it holds.  [MemoryMailboxStore] and [FileMailboxStore] satisfy it,
    the latter under every schedule of failing calls and of process deaths. *)

From S2P Require Import Prelude External Instances Wire Mailbox MailboxInv MailboxStep Storage.

(** What the Rust types say of a mailbox: array lengths and widths. *)
Record mailbox_typed (mb : Mailbox) : Prop := {
  ty_id : length (mb_mailbox_id mb) = 32%nat;
  ty_octets : Forall (fun x => 0 <= x <= u8_max) (mb_mailbox_id mb);
  ty_hashes : Forall (fun h => length h = 32%nat) (membership_hashes mb);
  ty_nameplate : forall n, mb_nameplate mb = Some n -> 0 <= n;
  ty_expires : 0 <= mb_expires_at mb <= u64_max;
  ty_commitment : forall c, mb_admission mb = AdmissionSnapshot_V2Pending c -> length c = 32%nat;
  ty_digests : forall m ms, member mb m = Some ms ->
    Forall (fun f => length (fr_digest f) = 32%nat) (ms_frames ms)
}.

Section Codec.
Context `{Sha256, Cbor}.

Definition storable (mb : Mailbox) : Prop := mailbox_ok mb /\ mailbox_typed mb.

Record sequence_typed (s : SequenceSnapshot) : Prop := {
  st_seq : 0 <= ss_seq s <= u8_max;
  st_digest : length (ss_body_digest s) = 32%nat;
  st_len : 0 <= ss_body_len s <= u64_max
}.

Definition sequence_value (s : SequenceSnapshot) : Value :=
  VArray [VInteger (membership_number (ss_owner s)); VInteger (ss_seq s);
          VBytes (ss_body_digest s); VInteger (ss_body_len s);
          match ss_body s with Some b => VBytes b | None => VNull end].

Lemma integer_ok z : 0 <= z <= u64_max -> integer (VInteger z) = Ok z.
Proof. intros. simpl. by rewrite (proj2 (try_into_some u64_max z z)). Qed.

Lemma fixed_ok n b : length b = n -> fixed n (VBytes b) = Ok b.
Proof. intros <-. simpl. by rewrite Nat.eqb_refl. Qed.

Lemma encode_sequence_eq s : sequence_typed s -> encode_sequence s = Ok (sequence_value s).
Proof.
  intros [_ _ Hl]. unfold encode_sequence.
  by rewrite (proj2 (try_into_some u64_max _ (ss_body_len s))).
Qed.

Lemma decode_sequence_value s : sequence_typed s -> decode_sequence (sequence_value s) = Ok s.
Proof.
  intros [Hs Hd Hl]. unfold decode_sequence, sequence_value.
  rewrite (integer_ok (membership_number _)) by (destruct (ss_owner s); simpl; unfold u64_max; lia). rewrite ok_bind.
  replace (if membership_number (ss_owner s) =? 0 then Ok Membership_Allocator
           else if membership_number (ss_owner s) =? 1 then Ok Membership_Claimant
           else Err StoreError_Malformed) with (@Ok StoreError _ (ss_owner s))
    by (by destruct (ss_owner s)).
  rewrite ok_bind, (integer_ok (ss_seq s)) by (unfold u8_max, u64_max in *; lia).
  rewrite ok_bind, (proj2 (try_into_some u8_max _ (ss_seq s))) by done. simpl ok_or. rewrite ok_bind.
  rewrite fixed_ok by done. rewrite ok_bind, integer_ok by done.
  rewrite ok_bind, (proj2 (try_into_some u64_max _ (ss_body_len s))) by done. simpl ok_or. rewrite ok_bind.
  destruct s as [o q d n [b|]]; done.
Qed.

Lemma decode_status_encode st : decode_status (encode_status st) = Ok st.
Proof. destruct st as [| |[]]; reflexivity. Qed.

Lemma decode_admission_encode a :
  (forall c, a = AdmissionSnapshot_V2Pending c -> length c = 32%nat) ->
  decode_admission (encode_admission a) = Ok a.
Proof.
  intros Ha. destruct a as [|c| |]; try reflexivity. unfold encode_admission, decode_admission.
  rewrite integer_ok by (unfold u64_max; lia). rewrite ok_bind. simpl Z.eqb.
  rewrite (proj2 (Z.eqb_eq 1 1)) by done. by rewrite fixed_ok by auto.
Qed.

Lemma sequences_typed mb : storable mb -> Forall sequence_typed (sn_sequences (snapshot mb)).
Proof.
  intros [Hok Hty]. apply Forall_forall. intros q Hq. simpl in Hq.
  assert (exists m ms f, member mb m = Some ms /\ f ∈ ms_frames ms /\ q = sequence_snapshot m f)
    as (m & ms & f & Hm & Hf & ->).
  { apply elem_of_app in Hq as [Hq|Hq].
    - apply list_elem_of_fmap in Hq as (f & -> & Hf). exists Membership_Allocator. eauto.
    - destruct (mb_claimant mb) as [c|] eqn:Hc; [|set_solver].
      apply list_elem_of_fmap in Hq as (f & -> & Hf). exists Membership_Claimant. simpl. eauto. }
  pose proof (member_ok_lookup _ _ _ Hok Hm) as [Hfs _ Hb].
  pose proof (ty_digests _ Hty m ms Hm) as Hd. rewrite Forall_forall in Hd.
  pose proof (Hd f Hf) as Hdf. apply list_elem_of_lookup in Hf as [i Hi].
  pose proof (lookup_lt_Some _ _ _ Hi).
  destruct (frames_ok_lookup _ _ _ _ Hfs Hi) as [Hs Hl _].
  unfold MAX_FRAMES_PER_MEMBERSHIP, MAX_FRAME_BODY_BYTES in *.
  split; simpl; unfold u8_max, u64_max; [lia|done|lia].
Qed.

(** The value written for a mailbox. *)
Definition record_value (mb : Mailbox) : Value :=
  let v1 := bool_decide (mb_admission mb = AdmissionSnapshot_V1) in
  VArray
    ([VText (if v1 then STORE_DOMAIN_V1 else STORE_DOMAIN_V2);
      VBytes (mb_mailbox_id mb);
      match mb_nameplate mb with Some v => VInteger v | None => VNull end;
      VInteger (mb_expires_at mb);
      encode_status (mb_status mb);
      VArray (map VBytes (membership_hashes mb));
      VArray (map sequence_value (sn_sequences (snapshot mb)))] ++
     if v1 then [] else [encode_admission (mb_admission mb)]).

Lemma encode_record_eq mb : storable mb -> encode_record (snapshot mb) = Ok (record_value mb).
Proof.
  intros Hst. unfold encode_record.
  assert (collect encode_sequence (sn_sequences (snapshot mb)) =
    Ok (map sequence_value (sn_sequences (snapshot mb)))) as ->; [|done].
  apply collect_ok. pose proof (sequences_typed mb Hst) as Hty.
  induction Hty; simpl; constructor; auto using encode_sequence_eq.
Qed.

Lemma nameplate_bound mb n : storable mb -> mb_nameplate mb = Some n -> 0 <= n <= u32_max.
Proof.
  intros [Hok Hty] Hn. pose proof (ok_nameplate _ Hok n Hn). pose proof (ty_nameplate _ Hty n Hn).
  unfold MAX_NAMEPLATE, u32_max in *. lia.
Qed.

Lemma record_value_plain mb : storable mb -> plain (record_value mb) = true.
Proof.
  intros Hst. pose proof (sequences_typed mb Hst) as Hseq. pose proof (ty_expires _ (proj2 Hst)) as He.
  pose proof (nameplate_bound mb) as Hn.
  unfold record_value. cbn [plain]. rewrite forallb_app. cbn [forallb plain].
  assert (forallb plain (map VBytes (membership_hashes mb)) = true) as ->.
  { apply forallb_forall. intros v (h & <- & _)%in_map_iff. done. }
  assert (forallb plain (map sequence_value (sn_sequences (snapshot mb))) = true) as ->.
  { apply forallb_forall. intros v (q & <- & Hq)%in_map_iff. rewrite Forall_forall in Hseq.
    destruct (Hseq q) as [? _ ?]; [by apply list_elem_of_In|]. unfold sequence_value. cbn [plain forallb].
    destruct (ss_owner q), (ss_body q); cbn [membership_number plain];
      by rewrite !(proj2 (Z.leb_le _ _)) by (unfold u8_max, u64_max in *; lia). }
  rewrite !(proj2 (Z.leb_le _ _)) by lia.
  assert (plain (encode_status (mb_status mb)) = true) as -> by (by destruct (mb_status mb) as [| |[]]).
  assert (plain match mb_nameplate mb with Some v => VInteger v | None => VNull end = true) as ->.
  { destruct (mb_nameplate mb) as [n|]; [|done]. specialize (Hn n Hst eq_refl). cbn [plain].
    unfold u32_max, u64_max in *. rewrite !(proj2 (Z.leb_le _ _)) by lia. done. }
  destruct (bool_decide _); [done|]. by destruct (mb_admission mb).
Qed.

Lemma decode_record_value mb : storable mb -> decode_record (record_value mb) = Ok mb.
Proof.
  intros Hst. destruct Hst as [Hok Hty]. unfold decode_record, record_value. cbn [array]. rewrite ok_bind.
  set (status := encode_status (mb_status mb)).
  set (np := match mb_nameplate mb with Some v => VInteger v | None => VNull end).
  set (hs := VArray (map VBytes (membership_hashes mb))). set (qs := VArray (map sequence_value _)).
  assert (record_parts
      ([VText (if bool_decide (mb_admission mb = AdmissionSnapshot_V1) then STORE_DOMAIN_V1 else STORE_DOMAIN_V2);
        VBytes (mb_mailbox_id mb); np; VInteger (mb_expires_at mb); status; hs; qs] ++
       (if bool_decide (mb_admission mb = AdmissionSnapshot_V1) then [] else [encode_admission (mb_admission mb)])) =
    Ok (VBytes (mb_mailbox_id mb), np, VInteger (mb_expires_at mb), status, hs, qs, mb_admission mb)) as ->.
  { case_bool_decide as Ha; simpl app; unfold record_parts.
    - by rewrite Ha.
    - rewrite decode_admission_encode by apply Hty. done. }
  rewrite ok_bind, fixed_ok by apply Hty. rewrite ok_bind.
  assert (match np with
          | VNull => Ok None
          | v => v0 ← integer v; n ← ok_or (try_into u32_max v0) StoreError_Malformed; Ok (Some n)
          end = Ok (mb_nameplate mb)) as ->.
  { unfold np. destruct (mb_nameplate mb) as [n|] eqn:Hn; [|done].
    pose proof (nameplate_bound mb n ltac:(done) Hn) as Hb.
    rewrite integer_ok by (unfold u32_max, u64_max in *; lia). rewrite ok_bind.
    by rewrite (proj2 (try_into_some u32_max n n)). }
  rewrite ok_bind. unfold status. rewrite decode_status_encode, ok_bind. unfold hs. cbn [array]. rewrite ok_bind.
  rewrite collect_roundtrip by (eapply Forall_impl; [apply Hty|]; intros; by apply fixed_ok).
  rewrite ok_bind. unfold qs. cbn [array]. rewrite ok_bind.
  rewrite collect_roundtrip.
  2: { eapply Forall_impl; [by apply sequences_typed|]. apply decode_sequence_value. }
  rewrite ok_bind, integer_ok, ok_bind by apply Hty.
  change (map_err (fun _ => StoreError_Malformed) (from_snapshot (snapshot mb)) = Ok mb).
  by rewrite from_snapshot_snapshot.
Qed.

Context `{!CborLaws}.

Lemma encode_decode mb :
  storable mb -> exists b, encode (snapshot mb) = Ok b /\ decode b = Ok mb.
Proof.
  intros Hst. pose proof (record_value_plain mb Hst) as Hp.
  destruct (plain_written _ Hp) as [b Hb]. exists b. split.
  - unfold encode. rewrite encode_record_eq by done. rewrite ok_bind. by rewrite Hb.
  - unfold decode. rewrite (plain_read _ _ Hp Hb). simpl ok_or. rewrite ok_bind.
    rewrite Hb. simpl ok_or. rewrite ok_bind, bool_decide_eq_true_2 by done. simpl.
    by apply decode_record_value.
Qed.
End Codec.

(** ** What the mailbox stores promise

    [StoreLaws] relates a store to the mailboxes it holds; [MemoryMailboxStore]
    and [FileMailboxStore] satisfy it, the latter under every schedule of
    failing calls and of process deaths. *)

(** What a mailbox identifier is. *)
Definition id_typed (id : bytes) : Prop :=
  length id = 32%nat /\ Forall (fun x => 0 <= x <= u8_max) id.

(** A store in state [s] holds exactly the mailboxes of [m]: a failed or
    interrupted update leaves either the old or the new set, and loading
    returns what is held. *)
Class StoreLaws (S : Type) `{Sha256, !MailboxStore S} := {
  holds : S -> gmap bytes Mailbox -> Prop;
  holds_put s m mb s' r : holds s m -> storable mb -> store_put mb s = (s', r) ->
    holds s' (<[mb_mailbox_id mb := mb]> m) \/ (r <> Ok tt /\ holds s' m);
  holds_remove s m id s' r : holds s m -> id_typed id -> store_remove id s = (s', r) ->
    holds s' (delete id m) \/ (r <> Ok tt /\ holds s' m);
  holds_load s m s' r : holds s m -> store_load s = (s', r) ->
    holds s' m /\ forall l, r = Ok l -> l ≡ₚ (map_to_list m).*2
}.

(** The mailboxes of [m] are storable and filed under their own identifier. *)
Definition registry `{Sha256} (m : gmap bytes Mailbox) : Prop :=
  forall id mb, m !! id = Some mb -> storable mb /\ mb_mailbox_id mb = id.

Section Registry.
Context `{Sha256}.

Lemma registry_insert m mb :
  registry m -> storable mb -> registry (<[mb_mailbox_id mb := mb]> m).
Proof. intros Hm Hst id mb' [[<- <-]|[_ ?]]%lookup_insert_Some; eauto. Qed.

Lemma registry_delete m id : registry m -> registry (delete id m).
Proof. intros Hm id' mb [_ ?]%lookup_delete_Some. eauto. Qed.

Lemma registry_id m id mb : registry m -> m !! id = Some mb -> id_typed id.
Proof. intros Hm Hid. destruct (Hm id mb Hid) as [[_ Hty] <-]. split; apply Hty. Qed.

(** A duplicate-free list with the values of [m] is a permutation of them. *)
Lemma registry_values m l :
  registry m -> NoDup l -> (forall mb, mb ∈ l <-> exists id, m !! id = Some mb) ->
  l ≡ₚ (map_to_list m).*2.
Proof.
  intros Hm Hnd Hl. apply NoDup_Permutation; [done| |].
  - apply NoDup_fmap_2_strong; [|apply NoDup_map_to_list].
    intros [id mb] [id' mb'] Hin Hin' Heq. simpl in Heq. subst mb'.
    apply elem_of_map_to_list in Hin, Hin'. destruct (Hm _ _ Hin) as [_ <-].
    by destruct (Hm _ _ Hin') as [_ <-].
  - intros mb. rewrite Hl, list_elem_of_fmap. split.
    + intros [id Hid]. exists (id, mb). by rewrite elem_of_map_to_list.
    + intros ([id mb'] & -> & Hin%elem_of_map_to_list). eauto.
Qed.
End Registry.

(** ** In memory *)

Section Memory.
Context `{Sha256, Cbor, !CborLaws}.

Record memory_holds (s : MemoryMailboxStore) (m : gmap bytes Mailbox) : Prop := {
  mh_registry : registry m;
  mh_record : forall id mb, m !! id = Some mb ->
    exists b, encode (snapshot mb) = Ok b /\ records s !! id = Some b;
  mh_only : forall id b, records s !! id = Some b -> is_Some (m !! id)
}.

Lemma collect_decode s m (l : list (bytes * bytes)) mbs :
  memory_holds s m -> (forall id b, (id, b) ∈ l -> records s !! id = Some b) -> NoDup l.*1 ->
  collect decode l.*2 = Ok mbs ->
  NoDup mbs /\ forall mb, mb ∈ mbs <-> exists id, m !! id = Some mb /\ id ∈ l.*1.
Proof.
  intros Hh. revert mbs. induction l as [|[id b] l IH]; simpl; intros mbs Hin Hnd Hc.
  - injection Hc as <-. split; [constructor|]. set_solver.
  - apply bind_ok in Hc as (mb0 & Hd & (mbs' & Hc & [= <-])%bind_ok).
    apply NoDup_cons in Hnd as [Hid Hnd].
    destruct (IH mbs') as [Hnd' Hiff]; [set_solver|done|done|].
    assert (records s !! id = Some b) as Hs by (apply Hin; set_solver).
    destruct (mh_only _ _ Hh id b Hs) as [mb Hmb]. destruct (mh_registry _ _ Hh id mb Hmb) as [Hst Hmid].
    destruct (mh_record _ _ Hh id mb Hmb) as (b' & Henc & Hs').
    destruct (encode_decode mb Hst) as (b2 & Henc2 & Hdec).
    assert (b' = b) by congruence. assert (b2 = b) by congruence. subst.
    assert (mb0 = mb) by congruence. subst. split.
    + constructor; [|done]. rewrite Hiff. intros (id' & Hid' & Hin').
      destruct (mh_registry _ _ Hh _ _ Hid') as [_ <-]. by apply Hid.
    + intros mb'. rewrite elem_of_cons, Hiff. split.
      * intros [->|(id' & ? & ?)]; [|set_solver]. exists (mb_mailbox_id mb). set_solver.
      * intros (id' & Hid' & Hin'). apply elem_of_cons in Hin' as [->|?]; [left; congruence|eauto].
Qed.

Lemma bmap_values_pairs (s : gmap bytes bytes) :
  exists l, bmap_values s = l.*2 /\ NoDup l.*1 /\
    (forall id, id ∈ l.*1 <-> is_Some (s !! id)) /\ (forall id b, (id, b) ∈ l -> s !! id = Some b).
Proof.
  set (f := fun k => b ← s !! k; Some (k, b)). exists (omap f (bmap_keys s)).
  assert (forall ks : list bytes, (forall k, k ∈ ks -> is_Some (s !! k)) ->
    omap (fun k => s !! k) ks = (omap f ks).*2 /\ (omap f ks).*1 = ks) as Hks.
  { induction ks as [|k ks IH]; [done|]. intros Hin.
    destruct (Hin k) as [b Hb]; [set_solver|].
    destruct IH as [IH1 IH2]; [set_solver|].
    change (omap (fun k => s !! k) (k :: ks)) with
      (match s !! k with Some y => y :: omap (fun k => s !! k) ks | None => omap (fun k => s !! k) ks end).
    change (omap f (k :: ks)) with (match f k with Some y => y :: omap f ks | None => omap f ks end).
    assert (f k = Some (k, b)) as -> by (unfold f; by rewrite Hb). rewrite Hb, !fmap_cons.
    by rewrite <- IH1, IH2. }
  destruct (Hks (bmap_keys s)) as [H1' H2']; [intros k; by rewrite elem_of_bmap_keys|].
  rewrite H2'. split_and!; [done|apply bset_list_nodup|intros; apply elem_of_bmap_keys|].
  intros id b (k & _ & Hk)%list_elem_of_omap. unfold f in Hk. destruct (s !! k) eqn:E; simplify_eq/=. done.
Qed.

#[export] Instance memory_store_laws : StoreLaws MemoryMailboxStore.
Proof.
  refine {| holds := memory_holds |}.
  - intros s m mb s' r Hh Hst. simpl. unfold memory_put, mbind, stM_bind, lift, modify.
    destruct (encode_decode mb Hst) as (b & Henc & _). rewrite Henc. intros [= <- <-]. left. split.
    + by apply registry_insert, Hst; apply Hh.
    + intros id mb' [[<- <-]|[Hne Hid]]%lookup_insert_Some.
      * exists b. split; [done|]. apply lookup_insert_eq.
      * destruct (mh_record _ _ Hh id mb' Hid) as (b' & ? & ?). exists b'. split; [done|].
        simpl. by rewrite lookup_insert_ne.
    + intros id b'. simpl. intros [[<- <-]|[Hne Hid]]%lookup_insert_Some.
      * rewrite lookup_insert_eq. eauto.
      * rewrite lookup_insert_ne by done. by eapply mh_only.
  - intros s m id s' r Hh _. simpl. intros [= <- <-]. left. split.
    + apply registry_delete, Hh.
    + intros id' mb [Hne Hid]%lookup_delete_Some.
      destruct (mh_record _ _ Hh id' mb Hid) as (b' & ? & ?). exists b'. split; [done|].
      simpl. by rewrite lookup_delete_ne.
    + intros id' b. simpl. intros [Hne Hid]%lookup_delete_Some. rewrite lookup_delete_ne by done. by eapply mh_only.
  - intros s m s' r Hh. simpl. unfold memory_load, mbind, stM_bind, lift, get. intros [= <- <-].
    split; [done|]. intros l Hl. destruct (bmap_values_pairs (records s)) as (kl & Hkl & Hnd & Hdom & Hin).
    rewrite Hkl in Hl. destruct (collect_decode s m kl l Hh Hin Hnd Hl) as [Hndl Hiff].
    apply registry_values; [apply Hh|done|]. intros mb. rewrite Hiff. split; [naive_solver|].
    intros [id Hid]. exists id. split; [done|]. apply Hdom.
    destruct (mh_record _ _ Hh id mb Hid) as (b & _ & ?). eauto.
Defined.
End Memory.

(** ** File names *)

Lemma hex_digit_range d : 0 <= d <= 15 -> is_lower_hex (hex_digit d) = true /\ hex_digit d <> dot.
Proof.
  intros Hd. unfold hex_digit, is_lower_hex, is_digit, dot. destruct (d <? 10) eqn:E; bool_to_prop.
  - rewrite !(proj2 (Z.leb_le _ _)) by lia. split; [done|lia].
  - rewrite (proj2 (Z.leb_le 97 _)), (proj2 (Z.leb_le _ 102)) by lia. rewrite orb_true_r. split; [done|lia].
Qed.

Lemma hex_digit_inj d e : 0 <= d <= 15 -> 0 <= e <= 15 -> hex_digit d = hex_digit e -> d = e.
Proof. intros. unfold hex_digit in *. repeat case_hyp; bool_to_prop; lia. Qed.

Lemma octet_nibbles x :
  0 <= x <= u8_max -> 0 <= Z.shiftr x 4 <= 15 /\ 0 <= Z.land x 15 <= 15 /\
    x = 16 * Z.shiftr x 4 + Z.land x 15.
Proof.
  intros Hx. unfold u8_max in Hx. rewrite Z.shiftr_div_pow2 by lia.
  change 15 with (Z.ones 4). rewrite Z.land_ones by lia. change (2 ^ 4) with 16. change (Z.ones 4) with 15.
  pose proof (Z.div_mod x 16 ltac:(lia)). pose proof (Z.mod_pos_bound x 16 ltac:(lia)). lia.
Qed.

Lemma lower_hex_inj b c :
  Forall (fun x => 0 <= x <= u8_max) b -> Forall (fun x => 0 <= x <= u8_max) c ->
  lower_hex b = lower_hex c -> b = c.
Proof.
  revert c. induction b as [|x b IH]; intros [|y c]; simpl; try done.
  intros [Hx Hb]%Forall_cons [Hy Hc]%Forall_cons [= H1 H2 H3].
  destruct (octet_nibbles x Hx) as (? & ? & ->), (octet_nibbles y Hy) as (? & ? & ->).
  apply hex_digit_inj in H1, H2; auto. f_equal; [lia|auto].
Qed.

Lemma lower_hex_chars b :
  Forall (fun x => 0 <= x <= u8_max) b ->
  Forall (fun c => is_lower_hex c = true /\ c <> dot) (lower_hex b).
Proof.
  induction 1 as [|x b Hx _ IH]; simpl; [constructor|]. destruct (octet_nibbles x Hx) as (? & ? & _).
  constructor; [by apply hex_digit_range|]. constructor; [by apply hex_digit_range|done].
Qed.

Lemma length_lower_hex b : length (lower_hex b) = (2 * length b)%nat.
Proof. induction b; simpl; lia. Qed.

Lemma last_dot_app b c stem ext :
  last_dot c = Some (stem, ext) -> last_dot (b ++ c) = Some (b ++ stem, ext).
Proof. intros Hc. induction b as [|x b IH]; simpl; [done|]. by rewrite IH. Qed.

Lemma split_once_app b c :
  Forall (fun x => x <> dot) b -> split_once dot (b ++ dot :: c) = Some (b, c).
Proof.
  induction 1 as [|x b Hx _ IH]; simpl; [done|].
  rewrite (proj2 (Z.eqb_neq _ _)) by done. by rewrite IH.
Qed.

Lemma strip_suffix_app s b : strip_suffix s (b ++ s) = Some b.
Proof.
  unfold strip_suffix. rewrite length_app.
  replace (length b + length s - length s)%nat with (length b) by lia.
  rewrite drop_app_length, take_app_length. by rewrite bool_decide_eq_true_2.
Qed.

(** A process id in decimal. *)
Definition pid_ok (pid : bytes) : Prop := pid <> [] /\ forallb is_digit pid = true.

Lemma temporary_recognised id pid :
  id_typed id -> pid_ok pid -> is_store_temporary (temporary_name id pid) = true.
Proof.
  intros [Hlen Hoct] [Hne Hdig]. unfold temporary_name. cbn [app is_store_temporary].
  rewrite Z.eqb_refl.
  replace (lower_hex id ++ dot :: pid ++ ascii_bytes ".tmp")
    with ((lower_hex id ++ dot :: pid) ++ ascii_bytes ".tmp") by (by rewrite <- app_assoc).
  rewrite strip_suffix_app.
  pose proof (lower_hex_chars id Hoct) as Hch.
  rewrite split_once_app by (eapply Forall_impl; [exact Hch|]; naive_solver).
  rewrite length_lower_hex, Hlen. simpl. rewrite bool_decide_eq_false_2 by done. rewrite Hdig.
  rewrite andb_true_r. apply andb_true_iff. split; [|done]. apply forallb_forall.
  intros c Hc%list_elem_of_In. rewrite Forall_forall in Hch. by apply Hch.
Qed.

Lemma record_not_temporary id : id_typed id -> is_store_temporary (record_name id) = false.
Proof.
  intros [Hlen Hoct]. unfold record_name. destruct id as [|x id]; [done|]. simpl.
  apply Forall_cons in Hoct as [Hx _]. destruct (octet_nibbles x Hx) as (Hn & _ & _).
  destruct (hex_digit_range _ Hn) as [_ Hd]. by rewrite (proj2 (Z.eqb_neq _ _)).
Qed.

Lemma record_extension id : id_typed id -> extension (record_name id) = Some (ascii_bytes "cbor").
Proof.
  intros [Hlen _]. unfold record_name, extension.
  rewrite (last_dot_app _ _ [] (ascii_bytes "cbor")) by reflexivity. rewrite app_nil_r.
  by destruct id.
Qed.

Lemma record_name_inj id id' : id_typed id -> id_typed id' -> record_name id = record_name id' -> id = id'.
Proof. intros [_ H1] [_ H2] Heq%app_inj_2; [|done]. apply lower_hex_inj; naive_solver. Qed.

(** ** In a directory *)

Section Files.
Context `{Sha256, Cbor, !CborLaws}.

Record file_holds (s : FileMailboxStore) (m : gmap bytes Mailbox) : Prop := {
  fh_pid : pid_ok (process_id s);
  fh_registry : registry m;
  fh_record : forall id mb, m !! id = Some mb ->
    exists b, encode (snapshot mb) = Ok b /\ files s !! record_name id = Some b;
  fh_only : forall name b, files s !! name = Some b ->
    is_store_temporary name = true \/ extension name <> Some (ascii_bytes "cbor") \/
    exists id, is_Some (m !! id) /\ name = record_name id
}.

(** From [P], [m] leads to [Q] when it returns, and to [R] when it fails or
    the process dies. *)
Definition triple {A} (P : FileMailboxStore -> Prop) (m : fileM A)
    (Q : A -> FileMailboxStore -> Prop) (R : FileMailboxStore -> Prop) : Prop :=
  forall s s' r, P s -> m s = (s', r) -> match r with Ok a => Q a s' | _ => R s' end.

Lemma triple_bind {A B} P (m : fileM A) Q (k : A -> fileM B) T R :
  triple P m Q R -> (forall a, triple (Q a) (k a) T R) -> triple P (m ≫= k) T R.
Proof.
  intros Hm Hk s s' r HP. unfold mbind, stM_bind. destruct (m s) as [s1 [a|e|]] eqn:Hms.
  - intros Hks. eapply Hk; [|done]. exact (Hm _ _ _ HP Hms).
  - intros [= <- <-]. exact (Hm _ _ _ HP Hms).
  - intros [= <- <-]. exact (Hm _ _ _ HP Hms).
Qed.

Lemma triple_conseq {A} (P P' : FileMailboxStore -> Prop) (m : fileM A)
    (Q Q' : A -> FileMailboxStore -> Prop) (R R' : FileMailboxStore -> Prop) :
  (forall s, P' s -> P s) -> (forall a s, Q a s -> Q' a s) -> (forall s, R s -> R' s) ->
  triple P m Q R -> triple P' m Q' R'.
Proof.
  intros HP HQ HR Ht s s' r HP' Hm. specialize (Ht s s' r (HP _ HP') Hm). destruct r; auto.
Qed.

(** A system call whose partial effects are harmless. *)
Lemma triple_syscall P partial full Q R :
  (forall s fs, P s -> P (mkFileMailboxStore (files s) (process_id s) fs)) ->
  (forall s n, P s -> R (set_files (partial n (files s)) s)) ->
  (forall s, P s -> R s) ->
  (forall s f, P s -> full (files s) = Some f -> Q tt (set_files f s)) ->
  triple P (syscall partial full) Q R.
Proof.
  intros Hf Hp Hr Hq s s' r HP. unfold syscall.
  pose proof (Hf s (tail (faults s)) HP) as HP'.
  set (rest := mkFileMailboxStore (files s) (process_id s) (tail (faults s))) in *.
  assert (files rest = files s) as Hfs by done. rewrite <- Hfs.
  destruct (head (faults s)) as [[|n|n]|].
  2: { intros [= <- <-]. by apply (Hp rest). }
  2: { intros [= <- <-]. by apply (Hp rest). }
  all: destruct (full (files rest)) eqn:E; intros [= <- <-]; [by apply (Hq rest)|by apply Hr].
Qed.

Lemma file_holds_faults m s fs :
  file_holds s m -> file_holds (mkFileMailboxStore (files s) (process_id s) fs) m.
Proof. intros [? ? ? ?]. by split. Qed.

(** Changes confined to a temporary file are invisible. *)
Lemma file_holds_temporary m s f name :
  file_holds s m -> is_store_temporary name = true ->
  (forall n, n <> name -> f !! n = files s !! n) -> file_holds (set_files f s) m.
Proof.
  intros [Hp Hr Hrec Hon] Htmp Hsame. split; simpl; [done|done| |].
  - intros id mb Hid. destruct (Hrec id mb Hid) as (b & ? & ?). exists b. split; [done|].
    rewrite Hsame; [done|]. intros <-.
    rewrite record_not_temporary in Htmp by eauto using registry_id. done.
  - intros n b Hn. destruct (decide (n = name)) as [->|Hne]; [by left|].
    rewrite Hsame in Hn by done. eauto.
Qed.

(** Installing a complete record under its name. *)
Lemma file_holds_install m s mb b tmp :
  file_holds s m -> storable mb -> encode (snapshot mb) = Ok b -> is_store_temporary tmp = true ->
  file_holds (set_files (<[record_name (mb_mailbox_id mb) := b]> (delete tmp (files s))) s)
    (<[mb_mailbox_id mb := mb]> m).
Proof.
  intros [Hp Hr Hrec Hon] Hst Henc Htmp.
  assert (id_typed (mb_mailbox_id mb)) as Hid by (split; apply Hst).
  split; simpl; [done|by apply registry_insert| |].
  - intros id mb' [[<- <-]|[Hne Hm]]%lookup_insert_Some.
    { exists b. by rewrite lookup_insert_eq. }
    assert (id_typed id) as Hid' by eauto using registry_id.
    destruct (Hrec id mb' Hm) as (b' & ? & ?). exists b'. split; [done|].
    rewrite lookup_insert_ne by (intros ?; by apply Hne, record_name_inj).
    rewrite lookup_delete_ne; [done|]. intros ->. by rewrite record_not_temporary in Htmp.
  - intros n b' [[<- <-]|[Hne [_ Hn]%lookup_delete_Some]]%lookup_insert_Some.
    { right. right. exists (mb_mailbox_id mb). split; [|done]. rewrite lookup_insert_eq. eauto. }
    destruct (Hon n b' Hn) as [?|[?|(id & Hid' & ->)]]; [by auto..|].
    right. right. exists id. split; [|done]. apply lookup_insert_is_Some'. by right.
Qed.

Lemma no_effect_triple m : triple (fun s => file_holds s m) no_effect (fun _ s => file_holds s m) (fun s => file_holds s m).
Proof.
  apply triple_syscall; auto using file_holds_faults.
  - intros s n Hs. by apply (file_holds_faults m s).
  - intros s f Hs [= <-]. by apply (file_holds_faults m s).
Qed.

Lemma create_triple m tmp :
  is_store_temporary tmp = true ->
  triple (fun s => file_holds s m) (create_new tmp) (fun _ s => file_holds s m) (fun s => file_holds s m).
Proof.
  intros Htmp. apply triple_syscall; auto using file_holds_faults.
  - intros s n Hs. by apply (file_holds_faults m s).
  - intros s f Hs Hf. destruct (files s !! tmp) eqn:E; simplify_eq.
    apply (file_holds_temporary m s _ tmp); [done..|]. intros n Hn. by rewrite lookup_insert_ne.
Qed.

(** [tmp] carries [data]. *)
Definition written (m : gmap bytes Mailbox) (tmp data : bytes) (s : FileMailboxStore) : Prop :=
  file_holds s m /\ files s !! tmp = Some data.

Lemma write_triple m tmp data :
  is_store_temporary tmp = true ->
  triple (fun s => file_holds s m) (write_all tmp data) (fun _ => written m tmp data) (fun s => file_holds s m).
Proof.
  intros Htmp. apply triple_syscall; auto using file_holds_faults.
  - intros s n Hs. apply (file_holds_temporary m s _ tmp); [done..|].
    intros k Hk. by rewrite lookup_insert_ne.
  - intros s f Hs [= <-]. split; [|apply lookup_insert_eq].
    apply (file_holds_temporary m s _ tmp); [done..|]. intros k Hk. by rewrite lookup_insert_ne.
Qed.

Lemma written_sync_triple m tmp data :
  triple (written m tmp data) no_effect (fun _ => written m tmp data) (fun s => file_holds s m).
Proof.
  apply triple_syscall.
  - intros s fs [? ?]. split; [by apply (file_holds_faults m s)|done].
  - intros s n [? _]. by apply (file_holds_faults m s).
  - by intros s [? _].
  - intros s f [? ?] [= <-]. split; [by apply (file_holds_faults m s)|done].
Qed.

Lemma rename_triple m mb tmp data :
  storable mb -> encode (snapshot mb) = Ok data -> is_store_temporary tmp = true ->
  triple (written m tmp data) (rename tmp (record_name (mb_mailbox_id mb)))
    (fun _ s => file_holds s (<[mb_mailbox_id mb := mb]> m)) (fun s => file_holds s m).
Proof.
  intros Hst Henc Htmp. apply triple_syscall.
  - intros s fs [? ?]. split; [by apply (file_holds_faults m s)|done].
  - intros s n [? _]. by apply (file_holds_faults m s).
  - by intros s [? _].
  - intros s f [Hh Ht] Hf. rewrite Ht in Hf. simplify_eq/=. by apply file_holds_install.
Qed.

Lemma remove_temporary_triple m tmp :
  is_store_temporary tmp = true ->
  triple (fun s => file_holds s m) (remove_file tmp) (fun _ s => file_holds s m) (fun s => file_holds s m).
Proof.
  intros Htmp. apply triple_syscall; auto using file_holds_faults.
  - intros s n Hs. by apply (file_holds_faults m s).
  - intros s f Hs Hf. destruct (files s !! tmp) eqn:E; simplify_eq.
    apply (file_holds_temporary m s _ tmp); [done..|]. intros n Hn. by rewrite lookup_delete_ne.
Qed.

Lemma on_error_triple P body cleanup Q (R : FileMailboxStore -> Prop) :
  triple P body (fun _ => Q) R -> triple R cleanup (fun _ => R) R ->
  triple P (on_error body cleanup) (fun _ => Q) R.
Proof.
  intros Hb Hc s s' r HP. unfold on_error. destruct (body s) as [s1 [a|e|]] eqn:Hbs.
  - intros [= <- <-]. exact (Hb _ _ _ HP Hbs).
  - pose proof (Hb _ _ _ HP Hbs) as HR. simpl in HR.
    destruct (cleanup s1) as [s2 [a|e'|]] eqn:Hcs; intros [= <- <-]; exact (Hc _ _ _ HR Hcs).
  - intros [= <- <-]. exact (Hb _ _ _ HP Hbs).
Qed.

Lemma file_put_triple m mb :
  storable mb ->
  triple (fun s => file_holds s m) (file_put mb)
    (fun _ s => file_holds s (<[mb_mailbox_id mb := mb]> m))
    (fun s => file_holds s m \/ file_holds s (<[mb_mailbox_id mb := mb]> m)).
Proof.
  intros Hst s s' r Hh. unfold file_put. unfold mbind at 1, stM_bind at 1, get.
  assert (id_typed (mb_mailbox_id mb)) as Hid by (split; apply Hst).
  set (tmp := temporary_name (sn_mailbox_id (snapshot mb)) (process_id s)).
  assert (is_store_temporary tmp = true) as Htmp by (apply temporary_recognised; [done|apply Hh]).
  destruct (encode_decode mb Hst) as (data & Henc & _). unfold mbind at 1, stM_bind at 1, lift.
  rewrite Henc. clearbody tmp.
  match goal with |- ?body s = _ -> _ => enough (triple (fun s => file_holds s m) body
    (fun _ s => file_holds s (<[mb_mailbox_id mb := mb]> m))
    (fun s => file_holds s m \/ file_holds s (<[mb_mailbox_id mb := mb]> m))) as Ht by exact (Ht s s' r Hh) end.
  apply on_error_triple.
  - assert (forall A P (p : fileM A) Q, triple P p Q (fun s => file_holds s m) ->
      triple P p Q (fun s => file_holds s m \/ file_holds s (<[mb_mailbox_id mb := mb]> m))) as Hw.
    { intros A P p Q. apply triple_conseq; auto. }
    eapply triple_bind; [apply Hw, create_triple, Htmp|intros ?].
    eapply triple_bind; [apply Hw, no_effect_triple|intros ?].
    eapply triple_bind; [apply Hw, (write_triple m tmp data Htmp)|intros ?].
    eapply triple_bind; [apply Hw, written_sync_triple|intros ?].
    eapply triple_bind; [apply Hw, rename_triple; done|intros ?].
    eapply triple_conseq; [..|apply (no_effect_triple (<[mb_mailbox_id mb := mb]> m))]; simpl; auto.
  - intros s1 s2 r2 [Hs1|Hs1] Hr.
    + pose proof (remove_temporary_triple _ _ Htmp _ _ _ Hs1 Hr). destruct r2; auto.
    + pose proof (remove_temporary_triple _ _ Htmp _ _ _ Hs1 Hr). destruct r2; auto.
Qed.

Lemma file_remove_triple m id :
  id_typed id ->
  triple (fun s => file_holds s m) (file_remove id) (fun _ s => file_holds s (delete id m))
    (fun s => file_holds s m \/ file_holds s (delete id m)).
Proof.
  intros Hid s s' r Hh. unfold file_remove, mbind at 1, stM_bind at 1, get.
  destruct (files s !! record_name id) as [data|] eqn:Hf.
  - match goal with |- ?body s = _ -> _ => enough (triple (fun s => file_holds s m) body
      (fun _ s => file_holds s (delete id m))
      (fun s => file_holds s m \/ file_holds s (delete id m))) as Ht by exact (Ht s s' r Hh) end.
    apply (triple_bind _ _ (fun _ s => file_holds s (delete id m))).
    2: { intros ?. eapply triple_conseq; [..|apply (no_effect_triple (delete id m))]; simpl; auto. }
    apply triple_syscall; auto using file_holds_faults.
    + intros s1 n Hs. left. by apply (file_holds_faults m s1).
    + intros s1 f [Hp Hr Hrec Hon] Hf1. destruct (files s1 !! record_name id) eqn:E; simplify_eq.
      split; simpl; [done|by apply registry_delete| |].
      * intros id' mb [Hne Hm]%lookup_delete_Some. destruct (Hrec id' mb Hm) as (b & ? & ?).
        exists b. split; [done|]. rewrite lookup_delete_ne; [done|].
        intros ?. apply Hne, record_name_inj; eauto using registry_id.
      * intros n b0 [Hne Hn]%lookup_delete_Some. destruct (Hon n b0 Hn) as [?|[?|(id' & Hm & ->)]]; [by auto..|].
        right. right. exists id'. split; [|done]. rewrite lookup_delete_ne by congruence. done.
  - intros Hr. pose proof (no_effect_triple m _ _ _ Hh Hr) as Hn.
    assert (delete id m = m) as ->; [|destruct r; auto].
    apply delete_id. destruct (m !! id) as [mb|] eqn:Hm; [|done].
    destruct (fh_record _ _ Hh id mb Hm) as (b & _ & ?). congruence.
Qed.

Lemma load_entry_triple m name :
  triple (fun s => file_holds s m) (load_entry name)
    (fun r s => file_holds s m /\
       forall mb, r = Some mb <-> exists id, m !! id = Some mb /\ name = record_name id)
    (fun s => file_holds s m).
Proof.
  intros s s' r Hh. unfold load_entry. destruct (is_store_temporary name) eqn:Htmp.
  - match goal with |- ?body s = _ -> _ => enough (triple (fun s => file_holds s m) body
      (fun r s => file_holds s m /\ r = None) (fun s => file_holds s m)) as Ht end.
    { intros Hr. specialize (Ht s s' r Hh Hr). destruct r as [a| |]; [|done..].
      destruct Ht as [? ->]. split; [done|]. intros mb. split; [done|]. intros (id & Hm & ->).
      rewrite record_not_temporary in Htmp; [done|]. eapply registry_id; [apply Hh|done]. }
    eapply triple_bind; [by apply remove_temporary_triple|intros ?].
    eapply triple_bind; [by apply no_effect_triple|intros ?].
    by intros s1 s2 r2 Hs1 [= <- <-].
  - case_bool_decide as Hext; simpl.
    2: { intros [= <- <-]. split; [done|]. intros mb. split; [done|]. intros (id & Hm & ->).
         rewrite record_extension in Hext; [done|]. eapply registry_id; [apply Hh|done]. }
    unfold read, mbind, stM_bind, get, lift, throw, mret, stM_ret.
    destruct (no_effect s) as [s1 [[]|e|]] eqn:Hn; pose proof (no_effect_triple m _ _ _ Hh Hn) as Hs1;
      simpl in Hs1; [|by intros [= <- <-]..].
    destruct (files s1 !! name) as [data|] eqn:Hd; simpl; [|by intros [= <- <-]].
    destruct (fh_only _ _ Hs1 name data Hd) as [?|[?|(id & [mb Hm] & ->)]]; [congruence|done|].
    destruct (fh_registry _ _ Hs1 id mb Hm) as [Hst Hmid].
    destruct (fh_record _ _ Hs1 id mb Hm) as (b & Henc & Hb).
    destruct (encode_decode mb Hst) as (b' & Henc' & Hdec).
    assert (data = b') as -> by congruence. rewrite Hdec. simpl. rewrite Hmid.
    rewrite bool_decide_eq_true_2 by done. simpl. intros [= <- <-]. split; [done|].
    intros mb'. split; [by intros [= <-]; eauto|]. intros (id' & Hm' & Heq).
    apply record_name_inj in Heq; [congruence|..]; eapply registry_id; eauto; apply Hs1.
Qed.

Lemma load_entries_triple m names :
  NoDup names ->
  triple (fun s => file_holds s m) (load_entries names)
    (fun l s => file_holds s m /\ NoDup l /\
       forall mb, mb ∈ l <-> exists id, m !! id = Some mb /\ record_name id ∈ names)
    (fun s => file_holds s m).
Proof.
  induction 1 as [|name names Hname _ IH]; simpl.
  { intros s s' r Hh [= <- <-]. split_and!; [done|constructor|set_solver]. }
  eapply triple_bind; [apply no_effect_triple|intros ?].
  eapply triple_bind; [apply load_entry_triple|intros o]. simpl.
  intros s s' r [Hh Ho]. unfold mbind, stM_bind, mret, stM_ret.
  destruct (load_entries names s) as [s1 [l|e|]] eqn:Hl; pose proof (IH _ _ _ Hh Hl) as Hs1;
    simpl in Hs1; [|by intros [= <- <-]..].
  destruct Hs1 as (Hs1 & Hnd & Hiff). intros [= <- <-]. split; [done|].
  destruct o as [mb|].
  - destruct (proj1 (Ho mb) eq_refl) as (id & Hm & ->). split.
    + constructor; [|done]. rewrite Hiff. intros (id' & Hm' & Hin).
      destruct (fh_registry _ _ Hh _ _ Hm) as [_ <-]. destruct (fh_registry _ _ Hh _ _ Hm') as [_ <-]. done.
    + intros mb'. rewrite elem_of_cons, Hiff. split.
      * intros [->|(id' & ? & ?)]; [|set_solver]. exists id. set_solver.
      * intros (id' & Hm' & [Heq|Hin]%elem_of_cons); [|eauto]. left.
        apply record_name_inj in Heq; [congruence|..]; eapply registry_id; eauto; apply Hh.
  - split; [done|]. intros mb'. rewrite Hiff. split; [set_solver|].
    intros (id' & Hm' & [Heq|Hin]%elem_of_cons); [|eauto].
    assert (None = Some mb') by (apply Ho; eauto). done.
Qed.

#[export] Instance file_store_laws : StoreLaws FileMailboxStore.
Proof.
  refine {| holds := file_holds |}.
  - intros s m mb s' r Hh Hst Hr. pose proof (file_put_triple m mb Hst _ _ _ Hh Hr) as Ht.
    destruct r as [[]|e|]; simpl in Ht; [by left|..]; destruct Ht; auto; right; split; done.
  - intros s m id s' r Hh Hid Hr. pose proof (file_remove_triple m id Hid _ _ _ Hh Hr) as Ht.
    destruct r as [[]|e|]; simpl in Ht; [by left|..]; destruct Ht; auto; right; split; done.
  - intros s m s' r Hh. simpl. unfold file_load, mbind, stM_bind, get, mret, stM_ret.
    destruct (no_effect s) as [s1 [[]|e|]] eqn:Hn; pose proof (no_effect_triple m _ _ _ Hh Hn) as Hs1;
      simpl in Hs1; [|by intros [= <- <-]..].
    destruct (load_entries _ s1) as [s2 [l|e|]] eqn:Hl;
      pose proof (load_entries_triple m _ (NoDup_elements _) _ _ _ Hs1 Hl) as Hs2; simpl in Hs2;
      [|by intros [= <- <-]..].
    intros [= <- <-]. destruct Hs2 as (Hs2 & Hnd & Hiff). split; [done|]. intros l' [= <-].
    rewrite (merge_sort_Permutation mailbox_id_le). apply registry_values; [apply Hs2|done|].
    intros mb. rewrite Hiff. split; [naive_solver|]. intros [id Hid]. exists id. split; [done|].
    rewrite elem_of_elements, elem_of_dom. destruct (fh_record _ _ Hs1 id mb Hid) as (b & _ & ?). eauto.
Defined.
End Files.
