(* ===== verification/StorageProps.v ===== *)
(** * Properties of persistence

    Round trip and soundness of the record codec, and crash safety of the
    directory store. *)

From S2P Require Import Prelude External Instances Wire Mailbox MailboxInv MailboxStep MailboxThms Storage StorageLaws.

Section Decode.
Context `{Sha256, Cbor}.

Lemma integer_nonneg v z : integer v = Ok z -> 0 <= z <= u64_max.
Proof. destruct v; try done. simpl. intros [-> ?]%ok_or_ok%try_into_some. done. Qed.

Lemma fixed_length n v b : fixed n v = Ok b -> length b = n.
Proof. destruct v; try done. simpl. case_match eqn:E; [|done]. intros [= <-]. by apply Nat.eqb_eq in E. Qed.

Lemma decode_sequence_typed v s : decode_sequence v = Ok s -> 0 <= ss_body_len s.
Proof.
  intros Hd. destruct v as [| | | | | | |[|o [|q [|d [|n [|b [|]]]]]]|]; try done. unfold decode_sequence in Hd.
  apply bind_ok in Hd as (? & _ & Hd). apply bind_ok in Hd as (? & _ & Hd). apply bind_ok in Hd as (? & _ & Hd).
  apply bind_ok in Hd as (? & _ & Hd). apply bind_ok in Hd as (? & _ & Hd). apply bind_ok in Hd as (? & _ & Hd).
  apply bind_ok in Hd as (len & Hlen%ok_or_ok%try_into_some & Hd). apply bind_ok in Hd as (? & _ & [= <-]).
  simpl. lia.
Qed.

Lemma decode_record_ok v mb : decode_record v = Ok mb -> mailbox_ok mb /\ length (mb_mailbox_id mb) = 32%nat.
Proof.
  unfold decode_record. intros Hd.
  apply bind_ok in Hd as (parts & _ & Hd). apply bind_ok in Hd as ([[[[[[id np] ex] st] hs] qs] ad] & _ & Hd).
  apply bind_ok in Hd as (id' & Hid%fixed_length & Hd). apply bind_ok in Hd as (np' & _ & Hd).
  apply bind_ok in Hd as (st' & _ & Hd). apply bind_ok in Hd as (hs' & _ & Hd).
  apply bind_ok in Hd as (hashes & _ & Hd). apply bind_ok in Hd as (qs' & _ & Hd).
  apply bind_ok in Hd as (seqs & Hseqs & Hd). apply bind_ok in Hd as (ex' & _ & Hd).
  destruct (from_snapshot _) as [mb'| |] eqn:Hfs; simpl in Hd; try done. injection Hd as <-.
  apply from_snapshot_sound in Hfs as [Hok (s' & _ & Hs)].
  - split; [done|]. apply (f_equal sn_mailbox_id) in Hs. simpl in Hs. by rewrite Hs.
  - unfold snapshot_typed. simpl. apply Forall_forall. intros q Hq. apply collect_ok in Hseqs.
    apply list_elem_of_lookup in Hq as [i Hi]. destruct (Forall2_lookup_r _ _ _ _ _ Hseqs Hi) as (v' & _ & Hv).
    by eapply decode_sequence_typed.
Qed.
End Decode.

Section Load.
Context `{Sha256, Cbor, !CborLaws}.

Lemma no_effect_clean s : faults s = [] -> no_effect s = (s, Ok tt).
Proof. unfold no_effect, syscall, set_files. destruct s as [f p fs]. simpl. by intros ->. Qed.

(** Without faults, an entry that is present is handled. *)
Lemma load_entry_clean m name s :
  file_holds s m -> faults s = [] -> is_Some (files s !! name) ->
  exists s' o, load_entry name s = (s', Ok o) /\ faults s' = [] /\
    forall n, n <> name -> files s' !! n = files s !! n.
Proof.
  intros Hh Hf [data Hd]. unfold load_entry. destruct (is_store_temporary name) eqn:Htmp.
  - unfold mbind, stM_bind, remove_file, syscall, sync_directory, mret, stM_ret. rewrite Hf, Hd. simpl.
    eexists _, _. split; [done|]. split; [done|].
    intros n Hn. simpl. by rewrite lookup_delete_ne.
  - case_bool_decide as Hext; simpl; [|by eauto 6].
    unfold read, mbind, stM_bind, get, lift, throw, mret, stM_ret. rewrite no_effect_clean by done.
    rewrite Hd. simpl. destruct (fh_only _ _ Hh name data Hd) as [?|[?|(id & [mb Hm] & ->)]]; [congruence|done|].
    destruct (fh_registry _ _ Hh id mb Hm) as [Hst Hmid]. destruct (fh_record _ _ Hh id mb Hm) as (b & ? & ?).
    destruct (encode_decode mb Hst) as (b' & ? & Hdec). assert (data = b') as -> by congruence.
    rewrite Hdec. simpl. rewrite Hmid, bool_decide_eq_true_2 by done. simpl. eauto 6.
Qed.

Lemma load_entries_clean m names : forall s,
  NoDup names -> file_holds s m -> faults s = [] -> (forall n, n ∈ names -> is_Some (files s !! n)) ->
  exists s' l, load_entries names s = (s', Ok l).
Proof.
  induction names as [|name names IH]; intros s Hnd Hh Hf Hin; [by eexists _, _|].
  apply NoDup_cons in Hnd as [Hname Hnd]. simpl. unfold mbind at 1, stM_bind at 1.
  rewrite no_effect_clean by done. unfold mbind at 1, stM_bind at 1.
  destruct (load_entry_clean m name s Hh Hf) as (s1 & o & He & Hf1 & Hsame); [apply Hin; set_solver|].
  rewrite He. pose proof (load_entry_triple m name _ _ _ Hh He) as [Hh1 _].
  destruct (IH s1) as (s2 & l & Hl); [done|done|done| |].
  - intros n Hn. rewrite Hsame by (by intros ->). apply Hin. set_solver.
  - unfold mbind, stM_bind. rewrite Hl. by eexists _, _.
Qed.

(** A fault-free load succeeds and returns what is held. *)
Lemma file_load_clean s m :
  file_holds s m -> faults s = [] ->
  exists s' l, file_load s = (s', Ok l) /\ l ≡ₚ (map_to_list m).*2.
Proof.
  intros Hh Hf. assert (exists s' l, file_load s = (s', Ok l)) as (s' & l & Hl).
  { unfold file_load, mbind, stM_bind, get, mret, stM_ret. rewrite no_effect_clean by done.
    destruct (load_entries_clean m (elements (dom (files s))) s) as (s2 & l & ->); eauto.
    - apply NoDup_elements.
    - intros n. by rewrite elem_of_elements, elem_of_dom. }
  exists s', l. split; [done|]. destruct (holds_load (StoreLaws := file_store_laws) s m s' (Ok l) Hh Hl) as [_ Hp]. by apply Hp.
Qed.
End Load.

(** Records survive storage: the canonical octets written for any valid
    mailbox decode to exactly that mailbox, for every canonical CBOR
    implementation that satisfies its laws. *)
Theorem record_roundtrip `{Sha256, Cbor, !CborLaws} mb :
  storable mb -> exists record, encode (snapshot mb) = Ok record /\ decode record = Ok mb.
Proof. apply encode_decode. Qed.

(** Whatever octets are found on disk, a mailbox is built from them only
    when they are the canonical encoding of a value and the mailbox satisfies
    the invariant; nothing is assumed of the CBOR implementation. *)
Theorem decode_sound `{Sha256, Cbor} record mb :
  decode record = Ok mb ->
  mailbox_ok mb /\ exists v n, from_reader record = Some (v, n) /\ to_canonical_vec v = Some record.
Proof.
  unfold decode. intros ([v n] & Hr%ok_or_ok & Hd)%bind_ok.
  apply bind_ok in Hd as (canonical & Hc%ok_or_ok & Hd). case_bool_decide; [|done]. simpl in Hd. subst.
  split; [by apply decode_record_ok in Hd as [? _]|eauto].
Qed.

(** C24. Replacing a record is atomic: under any schedule of failing system
    calls, torn writes and a process death during [put], restarting with a
    fault-free load returns either all the mailboxes held before or the same
    with the new one in place, and the new one is in place when [put]
    reported success. *)
Theorem put_crash_atomic `{Sha256, Cbor, !CborLaws} s m mb s1 r pid :
  file_holds s m -> storable mb -> file_put mb s = (s1, r) -> pid_ok pid ->
  exists m' s2 l, file_load (mkFileMailboxStore (files s1) pid []) = (s2, Ok l) /\
    l ≡ₚ (map_to_list m').*2 /\
    (m' = <[mb_mailbox_id mb := mb]> m \/ (m' = m /\ r <> Ok tt)).
Proof.
  intros Hh Hst Hput Hpid.
  assert (exists m', file_holds s1 m' /\ (m' = <[mb_mailbox_id mb := mb]> m \/ (m' = m /\ r <> Ok tt)))
    as (m' & Hh' & Hm').
  { destruct (holds_put (StoreLaws := file_store_laws) s m mb s1 r Hh Hst Hput) as [?|[? ?]]; eauto 6. }
  destruct (file_load_clean (mkFileMailboxStore (files s1) pid []) m') as (s2 & l & Hl & Hp).
  - destruct Hh'. by split.
  - done.
  - eauto 8.
Qed.

(** ** Concrete runs *)

Definition demo_id : bytes := replicate 32 17.
Definition stored_mailbox : Mailbox :=
  mkMailbox demo_id (Some 7) 1600 MailboxStatus_Waiting AdmissionSnapshot_V1
    (mkMemberState (replicate 32 1) 1 [mkFrameRecord 0 (sha256 [10]) 1 (Some [10])]) None 1.

Lemma stored_mailbox_storable : storable stored_mailbox.
Proof.
  split.
  - split; unfold status_ok, admission_ok, live_bytes; simpl; try done.
    + intros n [= <-]. unfold MAX_NAMEPLATE. lia.
    + split; simpl; [|done|unfold MAX_FRAMES_PER_MEMBERSHIP; lia]. split; [|done].
      split; simpl; [done|unfold MAX_FRAME_BODY_BYTES; lia|]. by intros b [= <-].
  - split; simpl; try done.
    + unfold demo_id. apply Forall_replicate. unfold u8_max. lia.
    + by repeat constructor.
    + intros n [= <-]. lia.
    + intros [] ms; simpl; [|done]. intros [= <-]. by repeat constructor.
Qed.

Definition demo_store (fs : list Fault) : FileMailboxStore :=
  mkFileMailboxStore ∅ [49] fs.

Lemma demo_store_holds fs : file_holds (demo_store fs) ∅.
Proof.
  split; simpl; [done|by intros id mb ?%lookup_empty_Some|set_solver|].
  intros name b Hn. by rewrite lookup_empty in Hn.
Qed.

Lemma record_roundtrip_witness :
  exists record, encode (snapshot stored_mailbox) = Ok record /\ decode record = Ok stored_mailbox.
Proof. apply (record_roundtrip stored_mailbox stored_mailbox_storable). Defined.

Lemma decode_sound_witness :
  exists record, decode record = Ok stored_mailbox /\ mailbox_ok stored_mailbox.
Proof.
  destruct (encode_decode stored_mailbox stored_mailbox_storable) as (b & _ & Hb).
  exists b. split; [done|]. apply (decode_sound b stored_mailbox Hb).
Defined.

(** The process dies while the temporary file is half written. *)
Lemma put_crash_atomic_witness :
  (file_put stored_mailbox (demo_store [Fault_None; Fault_None; Fault_Dies 3])).2 = Panic /\
  exists (m' : gmap bytes Mailbox) s2 l,
    file_load (mkFileMailboxStore
      (files (file_put stored_mailbox (demo_store [Fault_None; Fault_None; Fault_Dies 3])).1) [50] []) =
      (s2, Ok l) /\ l ≡ₚ (map_to_list m').*2.
Proof.
  split; [vm_compute; reflexivity|].
  destruct (file_put stored_mailbox (demo_store [Fault_None; Fault_None; Fault_Dies 3])) as [s1 r] eqn:Hput.
  destruct (put_crash_atomic _ ∅ stored_mailbox s1 r [50] (demo_store_holds _) stored_mailbox_storable Hput)
    as (m' & s2 & l & Hl & Hp & _); [by split|].
  exists m', s2, l. by split.
Defined.
