(* ===== verification/Relay.v ===== *)
(** * The relay service ([src/relay.rs])

    The service composes the mailbox transitions, the limiter, the metrics and
    a mailbox store, any instance of [MailboxStore].  Connection identifiers,
    addresses, time and randomness are inputs.  Operations run in [relM]: the
    state, and an error, or [Panic] for a failed [expect].  Field names carry
    the prefix [rs_], operations the prefix [relay_]. *)

From S2P Require Import Prelude External Wire Mailbox Limiter Observability Storage.

Record RelayRandomness := mkRelayRandomness {
  rr_mailbox_id : bytes;
  rr_membership_token : bytes;
  rr_nameplate : Z
}.

Record RelayConfig := mkRelayConfig {
  rc_operator_key : bytes;
  rc_limiter : LimiterConfig;
  rc_capacity : CapacityCaps;
  rc_allocation_enabled : bool
}.

(** Connection identifiers are plain numbers. *)
Record RoutedMessage := mkRoutedMessage { to_connection : Z; message : ServerMessage }.

#[export] Instance RoutedMessage_eq_dec : EqDecision RoutedMessage.
Proof. solve_decision. Defined.

Inductive RelayError : Type :=
| RelayError_InvalidConfiguration
| RelayError_Limiter
| RelayError_Storage.

Record SessionMembership := mkSessionMembership { se_mailbox_id : bytes; se_membership : Membership }.
Record ConnectionState := mkConnectionState { bound : bool; membership : option SessionMembership }.
(** [#[derive(Default)]]. *)
Definition default_connection : ConnectionState := mkConnectionState false None.

Record RelayService (S : Type) := mkRelayService {
  rs_config : RelayConfig;
  rs_limiter : Limiter;
  rs_observability : RelayObservability;
  rs_store : S;
  rs_mailboxes : gmap bytes Mailbox;
  rs_nameplates : gmap Z bytes;
  rs_membership_hashes : gset bytes;
  rs_expiries : gset (Z * bytes);
  rs_queue_bytes : Z;
  rs_connections : gmap Z ConnectionState;
  rs_routes : gmap (bytes * Z) Z;
  rs_last_log : option RelayLogEvent
}.
Arguments mkRelayService {S}.
Arguments rs_config {S}.
Arguments rs_limiter {S}.
Arguments rs_observability {S}.
Arguments rs_store {S}.
Arguments rs_mailboxes {S}.
Arguments rs_nameplates {S}.
Arguments rs_membership_hashes {S}.
Arguments rs_expiries {S}.
Arguments rs_queue_bytes {S}.
Arguments rs_connections {S}.
Arguments rs_routes {S}.
Arguments rs_last_log {S}.

(** ** Pure helpers *)

Definition route (connection : Z) (m : ServerMessage) : RoutedMessage := mkRoutedMessage connection m.

Definition operation (m : ClientMessage) : Operation :=
  match m with
  | ClientMessage_Bind => Operation_Bind
  | ClientMessage_Allocate _ _ => Operation_Allocate
  | ClientMessage_Claim _ => Operation_Claim
  | ClientMessage_AllocateV2 _ _ _ => Operation_Allocate
  | ClientMessage_ClaimV2 _ _ => Operation_Claim
  | ClientMessage_Open _ _ => Operation_Open
  | ClientMessage_Put _ _ => Operation_Put
  | ClientMessage_Ack _ => Operation_Ack
  | ClientMessage_Close => Operation_Close
  | ClientMessage_Ping => Operation_Ping
  end.

Definition membership_tag (m : Membership) : Z :=
  match m with Membership_Allocator => 0 | Membership_Claimant => 1 end.

Definition route_key (s : SessionMembership) : bytes * Z :=
  (se_mailbox_id s, membership_tag (se_membership s)).

Definition mailbox_error (e : MailboxError) : ServerMessage :=
  match e with
  | MailboxError_Closed reason => ServerMessage_Closed reason
  | _ => ServerMessage_Error (wire_code e)
  end.

(** The metric outcome, from the first message to the acting connection. *)
Definition actor_outcome (connection : Z) (messages : list RoutedMessage) : RelayOutcome :=
  match message <$> find (fun m => to_connection m =? connection) messages with
  | Some (ServerMessage_Error code) =>
      if code =? 404 then RelayOutcome_NotFound
      else if code =? 409 then RelayOutcome_Conflict
      else if code =? 413 then RelayOutcome_TooLarge
      else if code =? 429 then RelayOutcome_RateLimited
      else if code =? 503 then RelayOutcome_Unavailable
      else RelayOutcome_Invalid
  | Some (ServerMessage_Closed CloseReason_Closed) => RelayOutcome_Closed
  | Some (ServerMessage_Closed CloseReason_Crowded) => RelayOutcome_Crowded
  | Some (ServerMessage_Closed CloseReason_Expired) => RelayOutcome_Expired
  | Some (ServerMessage_Closed CloseReason_Conflict) => RelayOutcome_Conflict
  | _ => RelayOutcome_Success
  end.

Definition deduplicate_routes (messages : list RoutedMessage) : list RoutedMessage :=
  fold_left (fun result m => if bool_decide (m ∈ result) then result else result ++ [m]) messages [].

(** [find_map] over the effects of a transition. *)
Fixpoint find_map {A B} (f : A -> option B) (l : list A) : option B :=
  match l with
  | [] => None
  | x :: l => match f x with Some y => Some y | None => find_map f l end
  end.
Definition claimed_effect (e : MailboxEffect) : option Z :=
  match e with MailboxEffect_Claimed _ expires_at => Some expires_at | _ => None end.
Definition terminal_effect (e : MailboxEffect) : option CloseReason :=
  match e with MailboxEffect_Terminal reason => Some reason | _ => None end.
Definition opened_effect (e : MailboxEffect) : option Membership :=
  match e with MailboxEffect_Opened m _ => Some m | _ => None end.

(** [sample_nameplate] on the successive answers of the source; [None] while
    the source has not yet produced an accepted candidate. *)
Definition SAMPLE_RANGE : Z := 1000000000.
Definition SAMPLE_ACCEPTED : Z := u32_max - u32_max mod SAMPLE_RANGE.
Fixpoint sample_nameplate {E} (source : list (outcome E Z)) : option (outcome E Z) :=
  match source with
  | [] => None
  | Ok candidate :: source =>
      if candidate <? SAMPLE_ACCEPTED then Some (Ok (candidate mod SAMPLE_RANGE))
      else sample_nameplate source
  | r :: _ => Some r
  end.

Section Service.
Context {S : Type} `{MailboxStore S, Sha256, HmacSha256}.
Implicit Types s : RelayService S.

Definition relM := stM (RelayService S) RelayError.

(** ** Field updates *)

Definition set_config (c : RelayConfig) s : RelayService S :=
  mkRelayService c (rs_limiter s) (rs_observability s) (rs_store s) (rs_mailboxes s) (rs_nameplates s)
    (rs_membership_hashes s) (rs_expiries s) (rs_queue_bytes s) (rs_connections s) (rs_routes s) (rs_last_log s).
Definition set_limiter (l : Limiter) s : RelayService S :=
  mkRelayService (rs_config s) l (rs_observability s) (rs_store s) (rs_mailboxes s) (rs_nameplates s)
    (rs_membership_hashes s) (rs_expiries s) (rs_queue_bytes s) (rs_connections s) (rs_routes s) (rs_last_log s).
Definition set_observability (o : RelayObservability) (log : option RelayLogEvent) s : RelayService S :=
  mkRelayService (rs_config s) (rs_limiter s) o (rs_store s) (rs_mailboxes s) (rs_nameplates s)
    (rs_membership_hashes s) (rs_expiries s) (rs_queue_bytes s) (rs_connections s) (rs_routes s) log.
Definition set_store (st : S) s : RelayService S :=
  mkRelayService (rs_config s) (rs_limiter s) (rs_observability s) st (rs_mailboxes s) (rs_nameplates s)
    (rs_membership_hashes s) (rs_expiries s) (rs_queue_bytes s) (rs_connections s) (rs_routes s) (rs_last_log s).
(** The mailboxes and their four indexes. *)
Definition set_mailboxes (m : gmap bytes Mailbox) (n : gmap Z bytes) (h : gset bytes)
    (e : gset (Z * bytes)) (q : Z) s : RelayService S :=
  mkRelayService (rs_config s) (rs_limiter s) (rs_observability s) (rs_store s) m n h e q
    (rs_connections s) (rs_routes s) (rs_last_log s).
Definition set_routing (c : gmap Z ConnectionState) (r : gmap (bytes * Z) Z) s : RelayService S :=
  mkRelayService (rs_config s) (rs_limiter s) (rs_observability s) (rs_store s) (rs_mailboxes s)
    (rs_nameplates s) (rs_membership_hashes s) (rs_expiries s) (rs_queue_bytes s) c r (rs_last_log s).

(** Calls into the components; errors convert with [From]. *)
Definition in_store {A} (m : stM S StoreError A) : relM A :=
  zoom rs_store set_store (fun _ => RelayError_Storage) m.
Definition in_limiter {A} (m : limM A) : relM A :=
  zoom rs_limiter set_limiter (fun _ => RelayError_Limiter) m.

(** ** Inspection *)

Definition mailbox_count s : Z := Z.of_nat (size (rs_mailboxes s)).

Definition session (connection : Z) s : option SessionMembership :=
  st ← rs_connections s !! connection; membership st.

Definition resolve (locator : Locator) s : option bytes :=
  match locator with
  | Locator_Direct mailbox_id =>
      match rs_mailboxes s !! mailbox_id with Some _ => Some mailbox_id | None => None end
  | Locator_Nameplate nameplate => rs_nameplates s !! nameplate
  end.

Definition token_hash (token : bytes) : bytes := sha256 token.

Definition token_hash_exists (hash : bytes) s : bool := bool_decide (hash ∈ rs_membership_hashes s).

(** [Allocator] first. *)
Definition terminal_routes (mailbox_id : bytes) (reason : CloseReason) s : list RoutedMessage :=
  omap (fun m => c ← rs_routes s !! route_key (mkSessionMembership mailbox_id m);
                 Some (route c (ServerMessage_Closed reason)))
    [Membership_Allocator; Membership_Claimant].

Definition queue_bytes_at (id : bytes) s : Z :=
  match rs_mailboxes s !! id with Some mb => mb_queue_bytes mb | None => 0 end.

Definition projected_queue_bytes (replaced : bytes) (t : MailboxTransition) s : Z :=
  let replacement := match mt_state t with Some mb => mb_queue_bytes mb | None => 0 end in
  saturating_add u64_max (saturating_sub (rs_queue_bytes s) (queue_bytes_at replaced s)) replacement.

(** The loop of [first_available_nameplate]: keys in order. *)
Fixpoint skip_occupied (candidate : Z) (keys : list Z) : Z :=
  match keys with
  | [] => candidate
  | occupied :: keys =>
      if occupied <? candidate then skip_occupied candidate keys
      else if negb (occupied =? candidate) then candidate
      else skip_occupied (candidate + 1) keys
  end.
Definition first_available_nameplate s : option Z :=
  let candidate := skip_occupied 1 (bmap_keys (rs_nameplates s)) in
  if candidate <=? MAX_NAMEPLATE then Some candidate else None.

Definition relay_metrics s : RelayMetrics := metrics (rs_observability s).

(** ** Steps *)

Definition gauges s : RelayGauges :=
  mkRelayGauges (mailbox_count s) (rs_queue_bytes s) (entry_count (rs_limiter s))
    (clock_reversals (rs_limiter s)).
Definition refresh_gauges s : RelayService S :=
  set_observability (set_gauges (gauges s) (rs_observability s)) (rs_last_log s) s.

Definition finish (op : Operation) (out : RelayOutcome) (messages : list RoutedMessage) :
    relM (list RoutedMessage) := fun s =>
  let '(o, ev) := record op out (rs_observability s) in
  (refresh_gauges (set_observability o (Some ev) s), Ok messages).

(** [entry(connection).or_default()], then write. *)
Definition upsert_connection (c : Z) (f : ConnectionState -> ConnectionState)
    (m : gmap Z ConnectionState) : gmap Z ConnectionState :=
  <[c := f (default default_connection (m !! c))]> m.
Definition set_membership (sm : option SessionMembership) (st : ConnectionState) : ConnectionState :=
  mkConnectionState (bound st) sm.
Definition set_bound (st : ConnectionState) : ConnectionState := mkConnectionState true (membership st).

(** [if routes.get(key) == Some(&connection) { routes.remove(key) }]. *)
Definition drop_route (connection : Z) (sm : SessionMembership) (r : gmap (bytes * Z) Z) :
    gmap (bytes * Z) Z :=
  if bool_decide (r !! route_key sm = Some connection) then delete (route_key sm) r else r.

Definition attach (connection : Z) (sm : SessionMembership) s : RelayService S :=
  let routes := match session connection s with
                | Some previous => drop_route connection previous (rs_routes s)
                | None => rs_routes s
                end in
  let connections :=
    match routes !! route_key sm with
    | Some old => if negb (old =? connection)
                  then alter (set_membership None) old (rs_connections s)
                  else rs_connections s
    | None => rs_connections s
    end in
  set_routing (upsert_connection connection (set_membership (Some sm)) connections)
    (<[route_key sm := connection]> routes) s.

Definition disconnect (connection : Z) s : RelayService S :=
  match rs_connections s !! connection with
  | Some st =>
      set_routing (delete connection (rs_connections s))
        (match membership st with
         | Some sm => drop_route connection sm (rs_routes s)
         | None => rs_routes s
         end) s
  | None => s
  end.

(** One membership's turn in [remove_mailbox_indexes]. *)
Definition detach_route (mailbox_id : bytes) (m : Membership) s : RelayService S :=
  let key := route_key (mkSessionMembership mailbox_id m) in
  match rs_routes s !! key with
  | Some c => set_routing (alter (set_membership None) c (rs_connections s)) (delete key (rs_routes s)) s
  | None => s
  end.

Definition remove_mailbox_indexes (mailbox_id : bytes) (state : Mailbox) : relM unit :=
  s ← get;
  queue ← lift (expect (checked_sub (rs_queue_bytes s) (mb_queue_bytes state)));
  _ ← modify (set_mailboxes (rs_mailboxes s)
        (match mb_nameplate state with
         | Some n => delete n (rs_nameplates s)
         | None => rs_nameplates s
         end)
        (rs_membership_hashes s ∖ list_to_set (membership_hashes state))
        (rs_expiries s ∖ {[(mb_expires_at state, mailbox_id)]}) queue);
  _ ← modify (detach_route mailbox_id Membership_Allocator);
  modify (detach_route mailbox_id Membership_Claimant).

Definition remove_mailbox (mailbox_id : bytes) : relM unit :=
  _ ← in_store (store_remove mailbox_id);
  s ← get;
  match rs_mailboxes s !! mailbox_id with
  | Some state =>
      _ ← modify (set_mailboxes (delete mailbox_id (rs_mailboxes s)) (rs_nameplates s)
                    (rs_membership_hashes s) (rs_expiries s) (rs_queue_bytes s));
      remove_mailbox_indexes mailbox_id state
  | None => mret tt
  end.

Definition commit (mailbox_id : bytes) (t : MailboxTransition) : relM unit :=
  match mt_state t with
  | Some state =>
      _ ← in_store (store_put state);
      s ← get;
      queue ← lift (ok_or (q ← checked_sub (rs_queue_bytes s) (queue_bytes_at mailbox_id s);
                           checked_add u64_max q (mb_queue_bytes state))
                      RelayError_InvalidConfiguration);
      modify (set_mailboxes (<[mailbox_id := state]> (rs_mailboxes s)) (rs_nameplates s)
                (rs_membership_hashes s ∪ list_to_set (membership_hashes state))
                (rs_expiries s) queue)
  | None =>
      s ← get;
      match rs_mailboxes s !! mailbox_id with
      | Some _ => remove_mailbox mailbox_id
      | None => mret tt
      end
  end.

(** A single reply to the acting connection. *)
Definition reply (connection : Z) (m : ServerMessage) : relM (list RoutedMessage) :=
  mret [route connection m].

(** Install a freshly allocated mailbox; the shared tail of both allocations. *)
Definition install_mailbox (connection : Z) (mailbox : Mailbox) : relM unit :=
  let id := mb_mailbox_id mailbox in
  _ ← in_store (store_put mailbox);
  _ ← modify (fun s => set_mailboxes (<[id := mailbox]> (rs_mailboxes s))
        (match mb_nameplate mailbox with
         | Some n => <[n := id]> (rs_nameplates s)
         | None => rs_nameplates s
         end)
        (rs_membership_hashes s ∪ {[ms_hash (mb_allocator mailbox)]})
        (rs_expiries s ∪ {[(mb_expires_at mailbox, id)]}) (rs_queue_bytes s) s);
  modify (attach connection (mkSessionMembership id Membership_Allocator)).

(** The nameplate an allocation gets, or the error code. *)
Definition choose_nameplate (locator_mode nameplate : Z) s : outcome Z (option Z) :=
  if locator_mode =? 0 then Ok None
  else if locator_mode =? 1 then
    if (nameplate <=? MAX_NAMEPLATE) && bool_decide (rs_nameplates s !! nameplate = None)
    then Ok (Some nameplate) else Err 503
  else Err 400.

Definition relay_allocate (connection now : Z) (r : RelayRandomness) (locator_mode : Z)
    (ttl_seconds : option Z) : relM (list RoutedMessage) :=
  s ← get;
  if negb (rc_allocation_enabled (rs_config s)) then reply connection (ServerMessage_Error 503)
  else if bool_decide (is_Some (session connection s)) then reply connection (ServerMessage_Error 409)
  else if (cap_open_mailboxes (rc_capacity (rs_config s)) <=? mailbox_count s) ||
          bool_decide (is_Some (rs_mailboxes s !! rr_mailbox_id r)) ||
          token_hash_exists (token_hash (rr_membership_token r)) s
  then reply connection (ServerMessage_Error 503)
  else
    match choose_nameplate locator_mode (rr_nameplate r) s with
    | Ok nameplate =>
        match allocate (mkAllocationInput (rr_mailbox_id r) nameplate
                          (token_hash (rr_membership_token r)) now ttl_seconds) with
        | Ok mailbox =>
            _ ← install_mailbox connection mailbox;
            reply connection (ServerMessage_Allocated (rr_mailbox_id r) (rr_membership_token r)
                                nameplate (mb_expires_at mailbox))
        | Err e => reply connection (mailbox_error e)
        | Panic => lift Panic
        end
    | Err code => reply connection (ServerMessage_Error code)
    | Panic => lift Panic
    end.

Definition relay_allocate_v2 (connection now : Z) (membership_token mailbox_id commitment : bytes)
    (ttl_seconds : option Z) : relM (list RoutedMessage) :=
  s ← get;
  if negb (rc_allocation_enabled (rs_config s)) then reply connection (ServerMessage_Error 503)
  else if bool_decide (is_Some (session connection s)) then reply connection (ServerMessage_Error 409)
  else if (cap_open_mailboxes (rc_capacity (rs_config s)) <=? mailbox_count s) ||
          bool_decide (is_Some (rs_mailboxes s !! mailbox_id)) ||
          token_hash_exists (token_hash membership_token) s
  then reply connection (ServerMessage_Error 503)
  else
    match allocate_v2 (mkV2AllocationInput mailbox_id (token_hash membership_token) commitment now
                         ttl_seconds) with
    | Ok mailbox =>
        _ ← install_mailbox connection mailbox;
        reply connection (ServerMessage_AllocatedV2 mailbox_id membership_token (mb_expires_at mailbox))
    | Err e => reply connection (mailbox_error e)
    | Panic => lift Panic
    end.

(** Members of a terminal mailbox, then the acting connection. *)
Definition closed_messages (connection : Z) (mailbox_id : bytes) (reason : CloseReason) :
    relM (list RoutedMessage) :=
  s ← get;
  mret (deduplicate_routes (terminal_routes mailbox_id reason s ++
                            [route connection (ServerMessage_Closed reason)])).

Definition relay_claim (connection now : Z) (membership_token : bytes) (locator : Locator) :
    relM (list RoutedMessage) :=
  s ← get;
  if bool_decide (is_Some (session connection s)) then reply connection (ServerMessage_Error 409) else
  match resolve locator s with
  | None => reply connection (ServerMessage_Error 404)
  | Some mailbox_id =>
      let claimant_hash := token_hash membership_token in
      if token_hash_exists claimant_hash s then reply connection (ServerMessage_Error 409) else
      match rs_mailboxes s !! mailbox_id with
      | None => reply connection (ServerMessage_Error 404)
      | Some state =>
          match transition state now (MailboxCommand_Claim claimant_hash) with
          | Ok t =>
              _ ← commit mailbox_id t;
              match find_map claimed_effect (mt_effects t), find_map terminal_effect (mt_effects t) with
              | Some expires_at, _ =>
                  _ ← modify (attach connection (mkSessionMembership mailbox_id Membership_Claimant));
                  reply connection (ServerMessage_Claimed mailbox_id membership_token expires_at)
              | None, Some reason => closed_messages connection mailbox_id reason
              | None, None => reply connection (ServerMessage_Error 503)
              end
          | Err e => reply connection (mailbox_error e)
          | Panic => lift Panic
          end
      end
  end.

Definition relay_claim_v2 (connection now : Z) (membership_token mailbox_id claim_token : bytes) :
    relM (list RoutedMessage) :=
  s ← get;
  if bool_decide (is_Some (session connection s)) then reply connection (ServerMessage_Error 409) else
  let claimant_hash := token_hash membership_token in
  if token_hash_exists claimant_hash s then reply connection (ServerMessage_Error 409) else
  match rs_mailboxes s !! mailbox_id with
  | None => reply connection (ServerMessage_Error 404)
  | Some state =>
      match transition state now (MailboxCommand_ClaimV2 claimant_hash claim_token) with
      | Ok t =>
          _ ← commit mailbox_id t;
          match find_map claimed_effect (mt_effects t) with
          | Some expires_at =>
              _ ← modify (attach connection (mkSessionMembership mailbox_id Membership_Claimant));
              reply connection (ServerMessage_ClaimedV2 mailbox_id membership_token expires_at)
          | None => reply connection (ServerMessage_Error 503)
          end
      | Err e => reply connection (mailbox_error e)
      | Panic => lift Panic
      end
  end.

Definition open_deliveries (connection : Z) (effects : list MailboxEffect) : list RoutedMessage :=
  omap (fun e => match e with
                 | MailboxEffect_Deliver _ peer_seq body =>
                     Some (route connection (ServerMessage_Frame peer_seq body))
                 | _ => None
                 end) effects.

Definition relay_open (connection now : Z) (mailbox_id membership_token : bytes) :
    relM (list RoutedMessage) :=
  s ← get;
  match rs_mailboxes s !! mailbox_id with
  | None => reply connection (ServerMessage_Error 404)
  | Some state =>
      match transition state now (MailboxCommand_Open (token_hash membership_token)) with
      | Ok t =>
          _ ← commit mailbox_id t;
          match find_map opened_effect (mt_effects t), find_map terminal_effect (mt_effects t) with
          | Some m, _ =>
              _ ← modify (attach connection (mkSessionMembership mailbox_id m));
              mret (open_deliveries connection (mt_effects t))
          | None, Some reason => closed_messages connection mailbox_id reason
          | None, None => reply connection (ServerMessage_Error 503)
          end
      | Err e => reply connection (mailbox_error e)
      | Panic => lift Panic
      end
  end.

Inductive MailboxCommandKind : Type :=
| MailboxCommandKind_Put (seq : Z) (body : bytes)
| MailboxCommandKind_Ack (peer_seq : Z)
| MailboxCommandKind_Close.

Definition mailbox_command (m : Membership) (k : MailboxCommandKind) : MailboxCommand :=
  match k with
  | MailboxCommandKind_Put seq body => MailboxCommand_Put m seq body
  | MailboxCommandKind_Ack peer_seq => MailboxCommand_Ack m peer_seq
  | MailboxCommandKind_Close => MailboxCommand_Close m
  end.

(** The reply to a stored [Put]; an [Ack] is confirmed by silence. *)
Definition acknowledgement (connection : Z) (k : MailboxCommandKind) (effects : list MailboxEffect) :
    list RoutedMessage :=
  match k with
  | MailboxCommandKind_Put seq _ =>
      if existsb (fun e => match e with MailboxEffect_Stored _ stored _ => stored =? seq | _ => false end)
           effects
      then [route connection (ServerMessage_Acknowledged seq)] else []
  | _ => []
  end.

Definition effect_messages (mailbox_id : bytes) s (e : MailboxEffect) : list RoutedMessage :=
  match e with
  | MailboxEffect_Deliver recipient peer_seq body =>
      match rs_routes s !! route_key (mkSessionMembership mailbox_id recipient) with
      | Some c => [route c (ServerMessage_Frame peer_seq body)]
      | None => []
      end
  | MailboxEffect_Terminal reason => terminal_routes mailbox_id reason s
  | _ => []
  end.

Definition member_command (connection now : Z) (k : MailboxCommandKind) : relM (list RoutedMessage) :=
  s ← get;
  match session connection s with
  | None => reply connection (ServerMessage_Error 404)
  | Some sm =>
      match rs_mailboxes s !! se_mailbox_id sm with
      | None => reply connection (ServerMessage_Error 404)
      | Some state =>
          match transition state now (mailbox_command (se_membership sm) k) with
          | Ok t =>
              if cap_queue_bytes (rc_capacity (rs_config s)) <?
                 projected_queue_bytes (se_mailbox_id sm) t s
              then reply connection (ServerMessage_Error 503)
              else
                let messages := acknowledgement connection k (mt_effects t) ++
                  (e ← mt_effects t; effect_messages (se_mailbox_id sm) s e) in
                _ ← commit (se_mailbox_id sm) t;
                mret (deduplicate_routes messages)
          | Err e => reply connection (mailbox_error e)
          | Panic => lift Panic
          end
      end
  end.

(** ** Entry points *)

Definition dispatch (connection now : Z) (r : RelayRandomness) (m : ClientMessage) :
    relM (list RoutedMessage) :=
  s ← get;
  match m with
  | ClientMessage_Bind =>
      _ ← modify (fun s => set_routing (upsert_connection connection set_bound (rs_connections s))
                             (rs_routes s) s);
      reply connection ServerMessage_Welcome
  | _ =>
      if negb (match rs_connections s !! connection with Some st => bound st | None => false end)
      then reply connection (ServerMessage_Error 400)
      else
        match m with
        | ClientMessage_Bind => lift Panic
        | ClientMessage_Allocate mode ttl => relay_allocate connection now r mode ttl
        | ClientMessage_Claim locator => relay_claim connection now (rr_membership_token r) locator
        | ClientMessage_AllocateV2 id commitment ttl =>
            relay_allocate_v2 connection now (rr_membership_token r) id commitment ttl
        | ClientMessage_ClaimV2 id token => relay_claim_v2 connection now (rr_membership_token r) id token
        | ClientMessage_Open id token => relay_open connection now id token
        | ClientMessage_Put seq body => member_command connection now (MailboxCommandKind_Put seq body)
        | ClientMessage_Ack peer_seq => member_command connection now (MailboxCommandKind_Ack peer_seq)
        | ClientMessage_Close => member_command connection now MailboxCommandKind_Close
        | ClientMessage_Ping => reply connection ServerMessage_Pong
        end
  end.

Definition handle (connection : Z) (canonical_peer_address : bytes) (now : Z) (r : RelayRandomness)
    (m : ClientMessage) : relM (list RoutedMessage) :=
  decision ← in_limiter (check (operation m) canonical_peer_address now);
  match decision with
  | LimitDecision_Cooldown _ =>
      finish (operation m) RelayOutcome_RateLimited [route connection (ServerMessage_Error 429)]
  | LimitDecision_Allowed _ =>
      messages ← dispatch connection now r m;
      finish (operation m) (actor_outcome connection messages) messages
  end.

(** The loop of [sweep]; the fuel bounds the turns, [None] is a loop that is
    still running. *)
Fixpoint sweep_loop (fuel : nat) (now : Z) : stM (RelayService S) RelayError (option (list RoutedMessage)) :=
  match fuel with
  | O => mret None
  | Datatypes.S fuel =>
      s ← get;
      match bset_first (rs_expiries s) with
      | None => mret (Some [])
      | Some (expires_at, mailbox_id) =>
          if now <? expires_at then mret (Some [])
          else
            let messages := terminal_routes mailbox_id CloseReason_Expired s in
            _ ← remove_mailbox mailbox_id;
            rest ← sweep_loop fuel now;
            mret (app messages <$> rest)
      end
  end.

(** One turn per expiry index entry, and one to find that none is due. *)
Definition relay_sweep (now : Z) : relM (option (list RoutedMessage)) :=
  _ ← in_limiter (sweep_if_due now);
  s ← get;
  messages ← sweep_loop (Datatypes.S (size (rs_expiries s))) now;
  _ ← modify refresh_gauges;
  mret messages.

Definition disable_allocation s : RelayService S :=
  set_config (mkRelayConfig (rc_operator_key (rs_config s)) (rc_limiter (rs_config s))
                (rc_capacity (rs_config s)) false) s.

Fixpoint close_each (now : Z) (ids : list bytes) : relM (list RoutedMessage) :=
  match ids with
  | [] => mret []
  | mailbox_id :: ids =>
      s ← get;
      match rs_mailboxes s !! mailbox_id with
      | None => close_each now ids
      | Some state =>
          if is_terminal (mb_status state) then close_each now ids
          else
            t ← lift (map_err (fun _ => RelayError_InvalidConfiguration)
                        (transition state now (MailboxCommand_Close Membership_Allocator)));
            let messages := terminal_routes mailbox_id CloseReason_Closed s in
            _ ← commit mailbox_id t;
            rest ← close_each now ids;
            mret (messages ++ rest)
      end
  end.

Definition emergency_close (now : Z) : relM (list RoutedMessage) :=
  _ ← modify disable_allocation;
  s ← get;
  messages ← close_each now (bmap_keys (rs_mailboxes s));
  _ ← modify refresh_gauges;
  mret (deduplicate_routes messages).

(** ** Construction *)

(** The maps [with_store] fills while it reads the store. *)
Record Loaded := mkLoaded {
  ld_mailboxes : gmap bytes Mailbox;
  ld_nameplates : gmap Z bytes;
  ld_hashes : gset bytes;
  ld_expiries : gset (Z * bytes);
  ld_queue : Z
}.

(** [any(|hash| !membership_hashes.insert(hash))]. *)
Fixpoint insert_hashes (hashes : list bytes) (set : gset bytes) : option (gset bytes) :=
  match hashes with
  | [] => Some set
  | h :: hashes => if bool_decide (h ∈ set) then None else insert_hashes hashes ({[h]} ∪ set)
  end.

Definition load_mailbox (mb : Mailbox) (l : Loaded) : outcome RelayError Loaded :=
  let id := mb_mailbox_id mb in
  nameplates ← match mb_nameplate mb with
               | Some n => if bool_decide (is_Some (ld_nameplates l !! n)) then Err RelayError_Storage
                           else Ok (<[n := id]> (ld_nameplates l))
               | None => Ok (ld_nameplates l)
               end;
  hashes ← ok_or (insert_hashes (membership_hashes mb) (ld_hashes l)) RelayError_Storage;
  queue ← ok_or (checked_add u64_max (ld_queue l) (mb_queue_bytes mb)) RelayError_InvalidConfiguration;
  if bool_decide (is_Some (ld_mailboxes l !! id)) then Err RelayError_Storage
  else Ok (mkLoaded (<[id := mb]> (ld_mailboxes l)) nameplates hashes
             ({[(mb_expires_at mb, id)]} ∪ ld_expiries l) queue).

Fixpoint load_mailboxes (mbs : list Mailbox) (l : Loaded) : outcome RelayError Loaded :=
  match mbs with
  | [] => Ok l
  | mb :: mbs => l ← load_mailbox mb l; load_mailboxes mbs l
  end.

Definition with_store (c : RelayConfig) (store : S) : outcome RelayError (RelayService S) :=
  let caps := rc_capacity c in
  if (cap_open_mailboxes caps =? 0) || (cap_queue_bytes caps =? 0) || (cap_limiter_entries caps =? 0) ||
     negb (cap_limiter_entries caps =? entry_cap (rc_limiter c))
  then Err RelayError_InvalidConfiguration
  else
    limiter ← map_err (fun _ => RelayError_Limiter) (Limiter_new (rc_operator_key c) (rc_limiter c));
    let '(store, loaded) := store_load store in
    mbs ← map_err (fun _ => RelayError_Storage) loaded;
    l ← load_mailboxes mbs (mkLoaded ∅ ∅ ∅ ∅ 0);
    if (cap_open_mailboxes caps <? Z.of_nat (size (ld_mailboxes l))) || (cap_queue_bytes caps <? ld_queue l)
    then Err RelayError_InvalidConfiguration
    else Ok (refresh_gauges
               (mkRelayService c limiter (RelayObservability_new caps) store (ld_mailboxes l)
                  (ld_nameplates l) (ld_hashes l) (ld_expiries l) (ld_queue l) ∅ ∅ None)).
End Service.

(** [RelayService::new]: the in-memory store, empty. *)
Definition relay_new `{Sha256, Cbor} (c : RelayConfig) : outcome RelayError (RelayService MemoryMailboxStore) :=
  with_store c (mkMemoryMailboxStore ∅).
