(* ===== verification/RelayInv.v ===== *)
(** * The relay's invariant

    [indexed]: the nameplate, membership-hash and expiry indexes and the byte
    counter say exactly what the mailboxes say, and no membership hash is
    shared.  [routing]: connections and routes are two views of one partial
    bijection, and a route leads to an existing member.  [relay_ok] adds the
    caps and the limiter's invariant. *)

From S2P Require Import Prelude External Instances Wire Mailbox MailboxInv MailboxStep Limiter LimiterInv LimiterThms Observability Storage Relay.

Section Indexes.
Context `{Sha256}.
Implicit Types (mbs : gmap bytes Mailbox) (np : gmap Z bytes) (hs : gset bytes) (ex : gset (Z * bytes)).

Record indexed mbs np hs ex (q : Z) : Prop := {
  ix_ok : forall id mb, mbs !! id = Some mb ->
    mailbox_ok mb /\ mb_mailbox_id mb = id /\ NoDup (membership_hashes mb);
  ix_nameplates : forall n id, np !! n = Some id <->
    exists mb, mbs !! id = Some mb /\ mb_nameplate mb = Some n;
  ix_hashes : forall h, h ∈ hs <-> exists id mb, mbs !! id = Some mb /\ h ∈ membership_hashes mb;
  ix_owner : forall h id id' mb mb', mbs !! id = Some mb -> mbs !! id' = Some mb' ->
    h ∈ membership_hashes mb -> h ∈ membership_hashes mb' -> id = id';
  ix_expiries : forall t id, (t, id) ∈ ex <-> exists mb, mbs !! id = Some mb /\ mb_expires_at mb = t;
  ix_queue : q = map_sum mb_queue_bytes mbs
}.

Lemma indexed_empty : indexed ∅ ∅ ∅ ∅ 0.
Proof.
  split; try (intros; rewrite lookup_empty in *; naive_solver); try set_solver.
Qed.

Lemma queue_nonneg mbs np hs ex q id mb :
  indexed mbs np hs ex q -> mbs !! id = Some mb -> 0 <= mb_queue_bytes mb <= q.
Proof.
  intros Hi Hm. destruct (ix_ok _ _ _ _ _ Hi id mb Hm) as (Hok & _). split.
  - apply (live_bytes_bound _ Hok).
  - rewrite (ix_queue _ _ _ _ _ Hi). apply (map_sum_lookup mb_queue_bytes mbs id mb); [|done].
    intros k v Hk. destruct (ix_ok _ _ _ _ _ Hi k v Hk) as (Hv & _). apply (live_bytes_bound _ Hv).
Qed.

(** A new mailbox under a fresh identifier, with a fresh hash and nameplate. *)
Lemma indexed_insert mbs np hs ex q mb :
  let id := mb_mailbox_id mb in
  indexed mbs np hs ex q -> mailbox_ok mb -> NoDup (membership_hashes mb) ->
  mbs !! id = None -> (forall h, h ∈ membership_hashes mb -> h ∉ hs) ->
  (forall n, mb_nameplate mb = Some n -> np !! n = None) ->
  indexed (<[id := mb]> mbs)
    (match mb_nameplate mb with Some n => <[n := id]> np | None => np end)
    (list_to_set (membership_hashes mb) ∪ hs) ({[(mb_expires_at mb, id)]} ∪ ex) (q + mb_queue_bytes mb).
Proof.
  intros id [Hix Hnp Hhs Hown Hex Hq] Hok Hnd Hfresh Hh Hn. split.
  - intros id' mb' [[<- <-]|[_ ?]]%lookup_insert_Some; eauto.
  - intros n id'. destruct (mb_nameplate mb) as [n0|] eqn:Hnp0.
    + destruct (decide (n0 = n)) as [->|Hne].
      * rewrite lookup_insert_eq. split.
        -- intros [= <-]. exists mb. by rewrite lookup_insert_eq.
        -- intros (mb' & [[<- <-]|[Hne Hid]]%lookup_insert_Some & Hnm); [done|].
           assert (np !! n = Some id') by (apply Hnp; eauto). rewrite Hn in *; done.
      * rewrite lookup_insert_ne, Hnp by done. split.
        -- intros (mb' & Hm & ?). exists mb'. rewrite lookup_insert_ne; [done|congruence].
        -- intros (mb' & [[<- <-]|[? ?]]%lookup_insert_Some & ?); [congruence|eauto].
    + rewrite Hnp. split.
      * intros (mb' & Hm & ?). exists mb'. rewrite lookup_insert_ne; [done|congruence].
      * intros (mb' & [[<- <-]|[? ?]]%lookup_insert_Some & ?); [congruence|eauto].
  - intros h. rewrite elem_of_union, elem_of_list_to_set, Hhs. split.
    + intros [Hin|(id' & mb' & Hm & Hin)].
      * exists id, mb. by rewrite lookup_insert_eq.
      * exists id', mb'. rewrite lookup_insert_ne; [done|congruence].
    + intros (id' & mb' & [[<- <-]|[? ?]]%lookup_insert_Some & Hin); [by left|right; eauto].
  - intros h i1 i2 m1 m2 [[<- <-]|[? H1]]%lookup_insert_Some [[<- <-]|[? H2]]%lookup_insert_Some Hi1 Hi2; eauto.
    + exfalso. apply (Hh h Hi1). rewrite Hhs. eauto.
    + exfalso. apply (Hh h Hi2). rewrite Hhs. eauto.
  - intros t id'. rewrite elem_of_union, elem_of_singleton, Hex. split.
    + intros [[= -> ->]|(mb' & Hm & ?)].
      * exists mb. by rewrite lookup_insert_eq.
      * exists mb'. rewrite lookup_insert_ne; [done|congruence].
    + intros (mb' & [[<- <-]|[? ?]]%lookup_insert_Some & <-); [by left|right; eauto].
  - rewrite map_sum_insert_new by done. lia.
Qed.

(** A mailbox replaced by its successor, which may carry one more hash. *)
Lemma indexed_replace mbs np hs ex q id mb mb' :
  indexed mbs np hs ex q -> mbs !! id = Some mb -> mailbox_ok mb' ->
  mb_mailbox_id mb' = id -> mb_nameplate mb' = mb_nameplate mb -> mb_expires_at mb' = mb_expires_at mb ->
  (exists extra, membership_hashes mb' = membership_hashes mb ++ extra /\ NoDup extra /\
     forall h, h ∈ extra -> h ∉ hs) ->
  indexed (<[id := mb']> mbs) np (hs ∪ list_to_set (membership_hashes mb')) ex
    (q - mb_queue_bytes mb + mb_queue_bytes mb').
Proof.
  intros [Hix Hnp Hhs Hown Hex Hq] Hm Hok Hid Hnm Hexp (extra & Heq & Hnde & Hfresh).
  destruct (Hix id mb Hm) as (_ & _ & Hnd).
  assert (forall h, h ∈ membership_hashes mb -> h ∈ hs) as Hold by (intros h ?; rewrite Hhs; eauto).
  split.
  - intros id' mb'' [[<- <-]|[_ ?]]%lookup_insert_Some; [|eauto]. split_and!; [done|done|].
    rewrite Heq. apply NoDup_app. split_and!; [done| |done]. intros h ? ?. by eapply Hfresh; eauto.
  - intros n id'. rewrite Hnp. split.
    + intros (mb0 & Hm0 & Hn). destruct (decide (id = id')) as [->|].
      * exists mb'. rewrite lookup_insert_eq. split; [done|]. congruence.
      * exists mb0. by rewrite lookup_insert_ne.
    + intros (mb0 & [[<- <-]|[? ?]]%lookup_insert_Some & Hn); [|eauto]. exists mb. split; [done|congruence].
  - intros h. rewrite elem_of_union, elem_of_list_to_set. split.
    + intros [(id' & mb0 & Hm0 & Hin)%Hhs|Hin].
      * destruct (decide (id = id')) as [->|].
        -- exists id', mb'. rewrite lookup_insert_eq. simplify_eq. split; [done|].
           rewrite Heq. apply elem_of_app. by left.
        -- exists id', mb0. by rewrite lookup_insert_ne.
      * exists id, mb'. by rewrite lookup_insert_eq.
    + intros (id' & mb0 & [[<- <-]|[? ?]]%lookup_insert_Some & Hin); [by right|]. left. apply Hhs. eauto.
  - assert (forall i mb0 h, mbs !! i = Some mb0 -> h ∈ membership_hashes mb0 ->
      h ∈ membership_hashes mb' -> id = i) as Hcross.
    { intros i mb0 h Hi Hin Hin'. rewrite Heq in Hin'. apply elem_of_app in Hin' as [Hin'|Hin'].
      - eapply (Hown h id i); eauto.
      - exfalso. apply (Hfresh h Hin'). rewrite Hhs. eauto. }
    intros h i1 i2 m1 m2 [[<- <-]|[? H1]]%lookup_insert_Some [[<- <-]|[? H2]]%lookup_insert_Some Hi1 Hi2; eauto.
    symmetry. eauto.
  - intros t id'. rewrite Hex. split.
    + intros (mb0 & Hm0 & Hn). destruct (decide (id = id')) as [->|].
      * exists mb'. rewrite lookup_insert_eq. split; [done|]. congruence.
      * exists mb0. by rewrite lookup_insert_ne.
    + intros (mb0 & [[<- <-]|[? ?]]%lookup_insert_Some & Hn); [|eauto]. exists mb. split; [done|congruence].
  - rewrite (map_sum_insert _ _ _ mb) by done. lia.
Qed.

Lemma indexed_delete mbs np hs ex q id mb :
  indexed mbs np hs ex q -> mbs !! id = Some mb ->
  indexed (delete id mbs) (match mb_nameplate mb with Some n => delete n np | None => np end)
    (hs ∖ list_to_set (membership_hashes mb)) (ex ∖ {[(mb_expires_at mb, id)]}) (q - mb_queue_bytes mb).
Proof.
  intros [Hix Hnp Hhs Hown Hex Hq] Hm. split.
  - intros id' mb' [_ ?]%lookup_delete_Some. eauto.
  - intros n id'.
    assert ((exists mb', delete id mbs !! id' = Some mb' /\ mb_nameplate mb' = Some n) <->
      np !! n = Some id' /\ id <> id') as ->.
    { rewrite Hnp. setoid_rewrite lookup_delete_Some. naive_solver. }
    destruct (mb_nameplate mb) as [n0|] eqn:Hn0.
    + rewrite lookup_delete_Some. assert (np !! n0 = Some id) by (apply Hnp; eauto). split.
      * intros [Hne Hs]. split; [done|]. intros <-. apply Hne. apply Hnp in Hs as (mb' & ? & ?). congruence.
      * intros [Hs Hne]. split; [|done]. intros <-. congruence.
    + split; [|naive_solver]. intros Hs. split; [done|]. intros <-.
      apply Hnp in Hs as (mb' & ? & ?). congruence.
  - intros h. rewrite elem_of_difference, elem_of_list_to_set, Hhs.
    setoid_rewrite lookup_delete_Some. split.
    + intros [(id' & mb' & Hm' & Hin) Hnot]. exists id', mb'. split_and!; [|done..]. intros <-. congruence.
    + intros (id' & mb' & [Hne Hm'] & Hin). split; [eauto|]. intros Hin'. apply Hne. eapply (Hown h); eauto.
  - intros h i1 i2 m1 m2 [_ ?]%lookup_delete_Some [_ ?]%lookup_delete_Some. eauto.
  - intros t id'. rewrite elem_of_difference, elem_of_singleton, Hex. setoid_rewrite lookup_delete_Some. split.
    + intros [(mb' & Hm' & Ht) Hne]. exists mb'. split_and!; [|done..]. intros <-. naive_solver.
    + intros (mb' & [Hne Hm'] & Ht). split; [eauto|]. congruence.
  - rewrite Hq, (map_sum_delete mb_queue_bytes mbs id mb Hm). lia.
Qed.

(** The indexes are functions of the mailboxes. *)
Lemma indexed_unique mbs np hs ex q np' hs' ex' q' :
  indexed mbs np hs ex q -> indexed mbs np' hs' ex' q' -> np = np' /\ hs = hs' /\ ex = ex' /\ q = q'.
Proof.
  intros H1 H2. split_and!.
  - apply map_eq. intros n. apply option_eq. intros id.
    by rewrite (ix_nameplates _ _ _ _ _ H1), (ix_nameplates _ _ _ _ _ H2).
  - apply set_eq. intros h. by rewrite (ix_hashes _ _ _ _ _ H1), (ix_hashes _ _ _ _ _ H2).
  - apply set_eq. intros [t id]. by rewrite (ix_expiries _ _ _ _ _ H1), (ix_expiries _ _ _ _ _ H2).
  - by rewrite (ix_queue _ _ _ _ _ H1), (ix_queue _ _ _ _ _ H2).
Qed.
End Indexes.

(** ** Routing *)

Section Routing.
Implicit Types (conns : gmap Z ConnectionState) (routes : gmap (bytes * Z) Z) (sm : SessionMembership).

Definition member_of (c : Z) conns : option SessionMembership := st ← conns !! c; membership st.

(** One partial bijection between connections and memberships. *)
Definition bijective conns routes : Prop :=
  forall c sm, member_of c conns = Some sm <-> routes !! route_key sm = Some c.

(** Routes lead to existing members. *)
Definition reaching routes (mbs : gmap bytes Mailbox) : Prop :=
  forall c sm, routes !! route_key sm = Some c ->
    exists mb, mbs !! se_mailbox_id sm = Some mb /\ is_Some (member mb (se_membership sm)).

Lemma route_key_inj sm sm' : route_key sm = route_key sm' -> sm = sm'.
Proof. destruct sm as [id []], sm' as [id' []]; unfold route_key; simpl; congruence. Qed.

Lemma member_of_insert c c' st conns :
  member_of c (<[c' := st]> conns) = if decide (c = c') then membership st else member_of c conns.
Proof.
  unfold member_of. case_decide; subst; [by rewrite lookup_insert_eq|by rewrite lookup_insert_ne].
Qed.

Lemma member_of_upsert c c' f conns :
  member_of c (upsert_connection c' f conns) =
  if decide (c = c') then membership (f (default default_connection (conns !! c'))) else member_of c conns.
Proof. apply member_of_insert. Qed.

Lemma member_of_clear c c' conns :
  member_of c (alter (set_membership None) c' conns) = if decide (c = c') then None else member_of c conns.
Proof.
  unfold member_of. case_decide; subst.
  - rewrite lookup_alter_eq. by destruct (conns !! c').
  - by rewrite lookup_alter_ne.
Qed.

Lemma member_of_delete c c' conns :
  member_of c (delete c' conns) = if decide (c = c') then None else member_of c conns.
Proof.
  unfold member_of. case_decide; subst; [by rewrite lookup_delete_eq|by rewrite lookup_delete_ne].
Qed.

Lemma bijective_bound c conns routes :
  bijective conns routes -> bijective (upsert_connection c set_bound conns) routes.
Proof.
  intros Hb c' sm. rewrite <- (Hb c' sm), member_of_upsert. case_decide; [|done]. subst.
  unfold member_of. by destruct (conns !! c).
Qed.

(** The route of the connection's own membership, if any, is dropped. *)
Lemma drop_route_eq conns routes c sm :
  bijective conns routes -> member_of c conns = Some sm ->
  drop_route c sm routes = delete (route_key sm) routes.
Proof. intros Hb Hm. unfold drop_route. rewrite bool_decide_eq_true_2; [done|]. by apply Hb. Qed.

Lemma bijective_disconnect c conns routes :
  bijective conns routes ->
  bijective (delete c conns)
    (match member_of c conns with Some sm => drop_route c sm routes | None => routes end).
Proof.
  intros Hb c' sm. rewrite member_of_delete. destruct (member_of c conns) as [sm0|] eqn:Hc.
  - rewrite (drop_route_eq conns) by done. case_decide as Heq; subst.
    + split; [done|]. intros [Hne Hs]%lookup_delete_Some. apply Hb in Hs. congruence.
    + rewrite lookup_delete_Some, <- (Hb c' sm). split; [|naive_solver]. intros Hs. split; [|done].
      intros Hk%route_key_inj. subst. apply Hb in Hc, Hs. congruence.
  - rewrite <- (Hb c' sm). case_decide; subst; [|done]. rewrite Hc. done.
Qed.

Lemma attach_eq {S} connection sm (s : RelayService S) :
  bijective (rs_connections s) (rs_routes s) ->
  exists conns routes, attach connection sm s = set_routing conns routes s /\
    bijective conns routes /\
    (forall sm' c, routes !! route_key sm' = Some c ->
       (sm' = sm /\ c = connection) \/ rs_routes s !! route_key sm' = Some c) /\
    routes !! route_key sm = Some connection /\
    (forall c, (bound <$> rs_connections s !! c) = Some true -> (bound <$> conns !! c) = Some true).
Proof.
  intros Hb. eexists _, _. split; [reflexivity|].
  change (session connection s) with (member_of connection (rs_connections s)).
  set (routes := match member_of _ _ with Some _ => _ | None => _ end).
  (* the routes without the connection's previous one *)
  assert (forall sm' c, routes !! route_key sm' = Some c <->
    rs_routes s !! route_key sm' = Some c /\ c <> connection) as Hr.
  { intros sm' c. unfold routes. destruct (member_of connection (rs_connections s)) as [p|] eqn:Hp.
    - rewrite (drop_route_eq (rs_connections s)), lookup_delete_Some by done. split.
      + intros [Hne Hs]. split; [done|]. intros ->. apply Hb in Hs. congruence.
      + intros [Hs Hne]. split; [|done]. intros Hk%route_key_inj. subst. apply Hb in Hp. congruence.
    - split; [|naive_solver]. intros Hs. split; [done|]. intros ->. apply Hb in Hs. congruence. }
  set (conns := match routes !! route_key sm with Some _ => _ | None => _ end).
  assert (forall c, c <> connection -> forall sm', member_of c conns = Some sm' <->
    rs_routes s !! route_key sm' = Some c /\ sm' <> sm) as Hm.
  { intros c Hne sm'. unfold conns. destruct (routes !! route_key sm) as [old|] eqn:Ho.
    - apply Hr in Ho as [Ho Hneo]. rewrite (proj2 (Z.eqb_neq _ _)) by done. simpl.
      rewrite member_of_clear. case_decide; subst.
      + split; [done|]. intros [Hs Hsm]. apply Hb in Hs, Ho. congruence.
      + rewrite (Hb c sm'). split; [|naive_solver]. intros Hs. split; [done|]. intros ->. congruence.
    - rewrite (Hb c sm'). split; [|naive_solver]. intros Hs. split; [done|]. intros ->.
      assert (routes !! route_key sm = Some c) by (by apply Hr). congruence. }
  split_and!.
  - intros c sm'. rewrite member_of_upsert. case_decide as Heq; subst; simpl.
    + split.
      * intros [= <-]. apply lookup_insert_eq.
      * intros [[Hk%route_key_inj _]|[_ Hs]]%lookup_insert_Some; [by subst|]. apply Hr in Hs as [_ ?]. done.
    + rewrite Hm, lookup_insert_Some by done. split.
      * intros [Hs Hne]. right. split; [intros Hk%route_key_inj; congruence|]. by apply Hr.
      * intros [[_ ?]|[Hne Hs%Hr]]; [congruence|]. split; [naive_solver|]. by intros ->.
  - intros sm' c [[Hk%route_key_inj ->]|[_ Hs%Hr]]%lookup_insert_Some; naive_solver.
  - apply lookup_insert_eq.
  - intros c. unfold upsert_connection.
    assert (bound <$> rs_connections s !! c = bound <$> conns !! c) as ->.
    { unfold conns. repeat case_match; try done. destruct (decide (z = c)) as [->|].
      - rewrite lookup_alter_eq. by destruct (rs_connections s !! c).
      - by rewrite lookup_alter_ne. }
    destruct (decide (c = connection)) as [->|]; [|by rewrite lookup_insert_ne].
    rewrite lookup_insert_eq. by destruct (conns !! connection).
Qed.

(** Forgetting the route of one membership. *)
Lemma detach_route_eq {S} id m (s : RelayService S) :
  bijective (rs_connections s) (rs_routes s) ->
  exists conns, detach_route id m s =
    set_routing conns (delete (route_key (mkSessionMembership id m)) (rs_routes s)) s /\
    bijective conns (delete (route_key (mkSessionMembership id m)) (rs_routes s)) /\
    (forall c, bound <$> conns !! c = bound <$> rs_connections s !! c).
Proof.
  intros Hb. unfold detach_route. set (sm := mkSessionMembership id m).
  destruct (rs_routes s !! route_key sm) as [c|] eqn:Hc.
  - eexists. split; [reflexivity|]. split.
    + intros c' sm'. rewrite member_of_clear, lookup_delete_Some, <- (Hb c' sm'). case_decide; subst.
      * split; [done|]. intros [Hne Hs]. apply Hb in Hs. apply Hb in Hc. apply Hb in Hs. congruence.
      * split; [|naive_solver]. intros Hs. split; [|done]. intros Hk%route_key_inj. subst.
        apply Hb in Hs. congruence.
    + intros c'. destruct (decide (c = c')) as [->|]; [|by rewrite lookup_alter_ne].
      rewrite lookup_alter_eq. by destruct (rs_connections s !! c').
  - exists (rs_connections s). rewrite delete_id by done. split_and!; [|done..]. by destruct s.
Qed.
End Routing.
