(* ===== verification/RelaySafe.v ===== *)
(** * Every relay operation keeps the invariant

    Weakest-precondition lemmas, from the index updates up to [handle],
    [relay_sweep], [emergency_close] and [with_store].  [D] is what is known
    when the store's process dies in the middle of a call: the lemmas hold for
    every store, and with [D := False] for a store that never dies. *)

From S2P Require Import Prelude External Instances Wire Mailbox MailboxInv MailboxStep MailboxThms Limiter LimiterInv LimiterThms Observability Storage Relay RelayInv.

(** ** What a mailbox step means for the indexes *)

Section Steps.
Context `{Sha256}.

(** The hash a command may install. *)
Definition new_hash (cmd : MailboxCommand) : list bytes :=
  match cmd with
  | MailboxCommand_Claim h | MailboxCommand_ClaimV2 h _ => [h]
  | _ => []
  end.

Lemma step_hashes mb now cmd t mb' :
  mailbox_step mb now cmd t -> mt_state t = Some mb' ->
  membership_hashes mb' = membership_hashes mb \/
  membership_hashes mb' = membership_hashes mb ++ new_hash cmd.
Proof.
  unfold membership_hashes. intros Hstep. destruct Hstep; simpl; intros Heq; simplify_eq; simpl; auto.
  all: repeat match goal with Hc : mb_claimant _ = _ |- _ => rewrite Hc end; simpl; auto.
  - destruct sender; simpl in *; simplify_eq; simpl; [by left|].
    match goal with Hc : mb_claimant _ = _ |- _ => rewrite Hc end. by left.
  - left. by destruct (mb_claimant mb).
  - destruct sender; simpl in *; simplify_eq; simpl; [|by left].
    match goal with Hc : mb_claimant _ = _ |- _ => rewrite Hc end. by left.
  - left. by destruct (mb_claimant mb).
Qed.

Lemma step_members mb now cmd t mb' m :
  mailbox_step mb now cmd t -> mt_state t = Some mb' -> is_Some (member mb m) -> is_Some (member mb' m).
Proof.
  intros Hstep. destruct Hstep; simpl; intros Heq; simplify_eq; auto.
  all: destruct m; simpl; eauto; rewrite ?fmap_is_Some; auto.
  all: destruct sender; simpl; eauto.
Qed.

(** Only a stored [Put] adds bytes. *)
Lemma step_queue mb now cmd t mb' :
  mailbox_ok mb -> mailbox_step mb now cmd t -> mt_state t = Some mb' ->
  (forall sender seq body, cmd <> MailboxCommand_Put sender seq body) ->
  mb_queue_bytes mb' <= mb_queue_bytes mb.
Proof.
  intros Hok Hstep. pose proof (live_bytes_bound _ Hok). destruct Hstep; simpl; intros Heq Hput; simplify_eq; simpl; try lia.
  - by destruct (Hput sender (ms_next_seq ms) body).
  - match goal with Hp : member mb (peer sender) = Some ?p, Hf : ms_frames ?p !! _ = Some ?f |- _ =>
      pose proof (member_ok_lookup _ _ _ Hok Hp) as [Hfs _ _];
      pose proof (frame_bytes_bound _ _ (frames_ok_lookup _ _ _ _ Hfs Hf)) end.
    destruct sender; simpl; lia.
Qed.

(** Which effects a step has. *)
Lemma all_deleted_only mb e : e ∈ all_deleted mb -> exists o q, e = MailboxEffect_BodyDeleted o q.
Proof.
  unfold all_deleted, deleted_effects. intros [He|He]%elem_of_app.
  - apply list_elem_of_omap in He as (f & _ & Hf). destruct (fr_body f); simplify_eq/=. eauto.
  - destruct (mb_claimant mb); [|set_solver].
    apply list_elem_of_omap in He as (f & _ & Hf). destruct (fr_body f); simplify_eq/=. eauto.
Qed.

Lemma deliveries_only m l e : e ∈ deliveries m l ->
  exists f b, f ∈ l /\ fr_body f = Some b /\ e = MailboxEffect_Deliver m (fr_seq f) b.
Proof.
  unfold deliveries. intros (f & Hf & He)%list_elem_of_omap. destruct (fr_body f) eqn:Hb; simplify_eq/=. eauto.
Qed.

Lemma find_map_skip {A B} (f : A -> option B) l k :
  (forall x, x ∈ l -> f x = None) -> find_map f (l ++ k) = find_map f k.
Proof.
  induction l as [|x l IH]; simpl; intros Hl; [done|]. rewrite Hl by set_solver. apply IH. set_solver.
Qed.

Lemma find_map_some {A B} (f : A -> option B) l y :
  find_map f l = Some y -> exists x, x ∈ l /\ f x = Some y.
Proof.
  induction l as [|x l IH]; simpl; [done|]. destruct (f x) eqn:E.
  - intros [= <-]. exists x. set_solver.
  - intros (z & ? & ?)%IH. exists z. set_solver.
Qed.

Lemma step_claimed mb now cmd t e :
  mailbox_step mb now cmd t -> find_map claimed_effect (mt_effects t) = Some e ->
  exists mb', mt_state t = Some mb' /\ is_Some (member mb' Membership_Claimant) /\ e = mb_expires_at mb.
Proof.
  intros Hstep (x & Hx & Hc)%find_map_some. destruct x; simplify_eq/=.
  destruct Hstep; simpl in *; try (by apply elem_of_app in Hx as [(? & ? & [=])%all_deleted_only|Hx];
    repeat case_match; set_solver).
  all: try (apply list_elem_of_singleton in Hx; simplify_eq; eexists; by split_and!; [..|eauto]).
  all: repeat case_match; try set_solver.
  apply elem_of_cons in Hx as [?|(? & ? & ? & ? & ?)%deliveries_only]; congruence.
Qed.

Lemma step_opened mb now cmd t m :
  mailbox_step mb now cmd t -> find_map opened_effect (mt_effects t) = Some m ->
  exists h, cmd = MailboxCommand_Open h /\ mt_state t = Some mb /\ membership_for_hash mb h = Some m /\
    is_Some (member mb m) /\
    mt_effects t = MailboxEffect_Opened m (mb_expires_at mb) ::
      match member mb (peer m) with Some p => deliveries m (ms_frames p) | None => [] end.
Proof.
  intros Hstep (x & Hx & Hc)%find_map_some. destruct x; simplify_eq/=.
  destruct Hstep; simpl in *; try (by apply elem_of_app in Hx as [(? & ? & [=])%all_deleted_only|Hx];
    repeat case_match; set_solver).
  all: try (repeat case_match; set_solver).
  assert (m = m0) as ->.
  { apply elem_of_cons in Hx as [[= -> _]|Hx]; [done|]. case_match; [|set_solver].
    apply deliveries_only in Hx as (? & ? & ? & ? & ?). congruence. }
  exists h. split_and!; try done. unfold membership_for_hash in *. repeat case_match; simplify_eq/=; eauto.
Qed.
End Steps.

Section Safety.
Context {S : Type} `{MailboxStore S, Sha256, HmacSha256} (D : Prop).
Implicit Types s : RelayService S.
(** [Alloc] says which mailboxes an operation may allocate. *)
Context (Alloc : Mailbox -> Prop).

(** A death inside the store is the only death. *)
Hypothesis put_dies : forall mb (st : S), (store_put mb st).2 = Panic -> D.
Hypothesis remove_dies : forall id (st : S), (store_remove id st).2 = Panic -> D.

(** The queue cap must leave room below the largest [u64], where the projected
    count saturates. *)
Record caps_ok (c : RelayConfig) : Prop := {
  cp_open : 0 < cap_open_mailboxes (rc_capacity c) <= u64_max;
  cp_queue : 0 < cap_queue_bytes (rc_capacity c) < u64_max
}.

Record relay_ok s : Prop := {
  ro_caps : caps_ok (rs_config s);
  ro_limiter : limiter_ok (rs_limiter s);
  ro_indexed : indexed (rs_mailboxes s) (rs_nameplates s) (rs_membership_hashes s) (rs_expiries s)
    (rs_queue_bytes s);
  ro_open : mailbox_count s <= cap_open_mailboxes (rc_capacity (rs_config s));
  ro_queue : rs_queue_bytes s <= cap_queue_bytes (rc_capacity (rs_config s));
  ro_bijective : bijective (rs_connections s) (rs_routes s);
  ro_reaching : reaching (rs_routes s) (rs_mailboxes s)
}.

(** ** Updates outside the indexes *)

Lemma relay_ok_store st s : relay_ok s -> relay_ok (set_store st s).
Proof. intros [? ? ? ? ? ? ?]. by split. Qed.
Lemma relay_ok_observability o log s : relay_ok s -> relay_ok (set_observability o log s).
Proof. intros [? ? ? ? ? ? ?]. by split. Qed.
Lemma relay_ok_gauges s : relay_ok s -> relay_ok (refresh_gauges s).
Proof. apply relay_ok_observability. Qed.
Lemma relay_ok_limiter l s : relay_ok s -> limiter_ok l -> relay_ok (set_limiter l s).
Proof. intros [? ? ? ? ? ? ?] ?. by split. Qed.
Lemma relay_ok_disable s : relay_ok s -> relay_ok (disable_allocation s).
Proof. intros [[? ?] ? ? ? ? ? ?]. by split. Qed.
Lemma relay_ok_bound c s :
  relay_ok s -> relay_ok (set_routing (upsert_connection c set_bound (rs_connections s)) (rs_routes s) s).
Proof. intros [? ? ? ? ? ? ?]. split; simpl; auto using bijective_bound. Qed.

Lemma relay_ok_disconnect c s : relay_ok s -> relay_ok (disconnect c s).
Proof.
  intros [? ? ? ? ? Hb Hr]. unfold disconnect. destruct (rs_connections s !! c) as [st|] eqn:Hc; [|by split].
  assert (member_of c (rs_connections s) = membership st) as Hm by (unfold member_of; by rewrite Hc).
  pose proof (bijective_disconnect c _ _ Hb) as Hb'. rewrite Hm in Hb'. split; simpl; auto.
  intros c' sm Hs. apply (Hr c'). destruct (membership st) as [sm0|]; [|done].
  rewrite (drop_route_eq (rs_connections s)) in Hs by done. by apply lookup_delete_Some in Hs as [_ ?].
Qed.

Lemma relay_ok_attach c sm s mb :
  relay_ok s -> rs_mailboxes s !! se_mailbox_id sm = Some mb -> is_Some (member mb (se_membership sm)) ->
  relay_ok (attach c sm s).
Proof.
  intros [? ? ? ? ? Hb Hr] Hm Hmem. destruct (attach_eq c sm s Hb) as (conns & routes & -> & Hb' & Hsub & _).
  split; simpl; auto. intros c' sm' [[-> ->]|Hs]%Hsub; eauto.
Qed.

(** ** Index updates *)

(** What stays of the state when the data changes. *)
Record same_frame s s' : Prop := {
  sf_config : rs_config s' = rs_config s;
  sf_limiter : rs_limiter s' = rs_limiter s;
  sf_observability : rs_observability s' = rs_observability s;
  sf_log : rs_last_log s' = rs_last_log s;
  sf_bound : forall c, bound <$> rs_connections s' !! c = bound <$> rs_connections s !! c
}.

(** What [remove_mailbox] does when it succeeds. *)
Record removed (id : bytes) s s' : Prop := {
  rm_frame : same_frame s s';
  rm_expiries : forall t i, (t, i) ∈ rs_expiries s' -> (t, i) ∈ rs_expiries s /\ i <> id;
  rm_mailboxes : rs_mailboxes s' = delete id (rs_mailboxes s);
  rm_routes : forall sm, rs_routes s' !! route_key sm =
    if decide (se_mailbox_id sm = id) then None else rs_routes s !! route_key sm
}.

Lemma remove_indexes_wp id state s (Q : unit -> RelayService S -> Prop) (R : RelayError -> RelayService S -> Prop) :
  relay_ok s -> rs_mailboxes s !! id = Some state ->
  (forall s', relay_ok s' -> rs_store s' = rs_store s -> removed id s s' -> Q tt s') ->
  wp D (remove_mailbox_indexes id state) Q R
    (set_mailboxes (delete id (rs_mailboxes s)) (rs_nameplates s) (rs_membership_hashes s) (rs_expiries s)
       (rs_queue_bytes s) s).
Proof.
  intros Hok Hm HQ. destruct Hok as [Hc Hl Hi Ho Hq Hb Hr].
  destruct (queue_nonneg _ _ _ _ _ _ _ Hi Hm) as [Hq0 Hq1].
  apply wp_bind, wp_get. simpl. apply wp_bind, wp_lift. rewrite expect_sub by done.
  apply wp_bind, wp_modify. apply wp_bind, wp_modify, wp_modify. simpl.
  set (s1 := set_mailboxes _ _ _ _ _ _).
  destruct (detach_route_eq id Membership_Allocator s1 Hb) as (c1 & -> & Hb1 & Hbd1).
  set (s2 := set_routing _ _ s1).
  destruct (detach_route_eq id Membership_Claimant s2 Hb1) as (c2 & -> & Hb2 & Hbd2).
  assert (forall sm, delete (route_key (mkSessionMembership id Membership_Claimant))
      (delete (route_key (mkSessionMembership id Membership_Allocator)) (rs_routes s)) !! route_key sm =
    if decide (se_mailbox_id sm = id) then None else rs_routes s !! route_key sm) as Hroutes.
  { intros [id' m]. simpl. case_decide; subst.
    - destruct m; [rewrite lookup_delete_ne by done|]; apply lookup_delete_eq.
    - rewrite !lookup_delete_ne; [done|..]; intros [= ? ?]; congruence. }
  apply HQ; [|done|].
  - split; simpl; auto.
    + by apply indexed_delete.
    + unfold mailbox_count in *. simpl. rewrite map_size_delete_Some by eauto. lia.
    + lia.
    + intros c sm. rewrite Hroutes. case_decide; [done|]. intros Hs. destruct (Hr c sm Hs) as (mb & ? & ?).
      exists mb. by rewrite lookup_delete_ne by done.
  - split; simpl; try done.
    + split; simpl; try done. intros c. by rewrite Hbd2, Hbd1.
    + intros t i [Hin Hne]%elem_of_difference. split; [done|]. intros ->. apply Hne.
      apply (ix_expiries _ _ _ _ _ Hi) in Hin as (mb & Hmb & <-). simplify_eq. set_solver.
Qed.

Lemma store_put_wp mb s (Q : unit -> RelayService S -> Prop) (R : RelayError -> RelayService S -> Prop) :
  (forall st, store_put mb (rs_store s) = (st, Ok tt) -> Q tt (set_store st s)) ->
  (forall e st e', store_put mb (rs_store s) = (st, Err e') -> R e (set_store st s)) -> wp D (in_store (store_put mb)) Q R s.
Proof.
  intros HQ HR. apply wp_zoom. unfold wp. destruct (store_put mb (rs_store s)) as [st [[]|e|]] eqn:E; eauto.
  apply (put_dies mb (rs_store s)). by rewrite E.
Qed.

Lemma store_remove_wp id s (Q : unit -> RelayService S -> Prop) (R : RelayError -> RelayService S -> Prop) :
  (forall st, store_remove id (rs_store s) = (st, Ok tt) -> Q tt (set_store st s)) ->
  (forall e st e', store_remove id (rs_store s) = (st, Err e') -> R e (set_store st s)) -> wp D (in_store (store_remove id)) Q R s.
Proof.
  intros HQ HR. apply wp_zoom. unfold wp. destruct (store_remove id (rs_store s)) as [st [[]|e|]] eqn:E; eauto.
  apply (remove_dies id (rs_store s)). by rewrite E.
Qed.

(** The failure of a store leaves everything else as it was. *)
Definition store_failed s s' : Prop := exists st, s' = set_store st s /\
  ((exists mb e, mailbox_ok mb /\ store_put mb (rs_store s) = (st, Err e)) \/ exists id e, store_remove id (rs_store s) = (st, Err e)).

Lemma put_failed mb st e s : mailbox_ok mb -> store_put mb (rs_store s) = (st, Err e) -> store_failed s (set_store st s).
Proof. intros Hok Hp. exists st. split; [done|]. left. eauto. Qed.
Lemma remove_failed id st e s : store_remove id (rs_store s) = (st, Err e) -> store_failed s (set_store st s).
Proof. intros Hp. exists st. split; [done|]. right. eauto. Qed.

Lemma remove_mailbox_wp id s mb :
  relay_ok s -> rs_mailboxes s !! id = Some mb ->
  wp D (remove_mailbox id)
    (fun _ s' => relay_ok s' /\ removed id s s' /\ store_remove id (rs_store s) = (rs_store s', Ok tt))
    (fun _ s' => store_failed s s') s.
Proof.
  intros Hok Hm. unfold remove_mailbox. apply wp_bind, store_remove_wp; [|by eauto using remove_failed].
  intros st Hst. apply wp_bind, wp_get. simpl. rewrite Hm. apply wp_bind, wp_modify.
  apply (remove_indexes_wp id mb (set_store st s)); [by apply relay_ok_store|done|].
  intros s' Hok' Hst' [[? ? ? ? ?] ? ? ?]. split_and!; [done|by split; [split|..]|by rewrite Hst'].
Qed.

(** The new mailbox of a transition on [mb] can replace it. *)
Record replaces s (mb mb' : Mailbox) : Prop := {
  rp_ok : mailbox_ok mb';
  rp_id : mb_mailbox_id mb' = mb_mailbox_id mb;
  rp_nameplate : mb_nameplate mb' = mb_nameplate mb;
  rp_expires : mb_expires_at mb' = mb_expires_at mb;
  rp_hashes : exists extra, membership_hashes mb' = membership_hashes mb ++ extra /\ NoDup extra /\
    forall h, h ∈ extra -> h ∉ rs_membership_hashes s;
  rp_members : forall m, is_Some (member mb m) -> is_Some (member mb' m);
  rp_queue : rs_queue_bytes s - mb_queue_bytes mb + mb_queue_bytes mb' <=
    cap_queue_bytes (rc_capacity (rs_config s))
}.

(** What [commit] does when it succeeds. *)
Definition committed (id : bytes) (t : MailboxTransition) s s' : Prop :=
  match mt_state t with
  | Some mb' => same_frame s s' /\ rs_mailboxes s' = <[id := mb']> (rs_mailboxes s) /\
      rs_routes s' = rs_routes s /\ rs_connections s' = rs_connections s /\
      store_put mb' (rs_store s) = (rs_store s', Ok tt)
  | None => removed id s s' /\ store_remove id (rs_store s) = (rs_store s', Ok tt)
  end.

Lemma commit_wp id t s mb :
  relay_ok s -> rs_mailboxes s !! id = Some mb ->
  (forall mb', mt_state t = Some mb' -> replaces s mb mb') ->
  wp D (commit id t) (fun _ s' => relay_ok s' /\ committed id t s s') (fun _ s' => store_failed s s') s.
Proof.
  intros Hok Hm Hrep. unfold commit, committed. destruct (mt_state t) as [mb'|].
  2: { apply wp_bind, wp_get. rewrite Hm. by eapply remove_mailbox_wp. }
  destruct (Hrep mb' eq_refl) as [Hmok Hid Hnp Hex Hhs Hmem Hqc]. apply wp_bind, store_put_wp; [|by eauto using put_failed].
  intros st Hst. apply wp_bind, wp_get. apply wp_bind, wp_lift.
  pose proof (ro_indexed _ Hok) as Hi. destruct (queue_nonneg _ _ _ _ _ _ _ Hi Hm) as [Hq0 Hq1].
  destruct (ix_ok _ _ _ _ _ Hi id mb Hm) as (_ & Hmid & _).
  pose proof (live_bytes_bound _ Hmok). pose proof (cp_queue _ (ro_caps _ Hok)).
  unfold queue_bytes_at. simpl. rewrite Hm.
  rewrite (proj2 (checked_sub_some _ _ (rs_queue_bytes s - mb_queue_bytes mb))) by lia. simpl.
  rewrite (proj2 (checked_add_some u64_max _ _ (rs_queue_bytes s - mb_queue_bytes mb + mb_queue_bytes mb')))
    by lia. simpl.
  apply wp_modify. split; [|split_and!; simpl; try done; by split].
  destruct Hok as [Hc Hl _ Ho Hq Hb Hr]. split; simpl; auto.
  - eapply indexed_replace; eauto. congruence.
  - unfold mailbox_count in *. simpl. rewrite map_size_insert_Some by eauto. done.
  - intros c sm Hs. destruct (Hr c sm Hs) as (mb0 & Hm0 & Hmem0).
    destruct (decide (se_mailbox_id sm = id)) as [<-|]; [|by rewrite lookup_insert_ne by done; eauto].
    exists mb'. rewrite lookup_insert_eq. simplify_eq. auto.
Qed.

(** A transition of a mailbox of the relay. *)
Lemma step_replaces s id mb now cmd t mb' :
  relay_ok s -> rs_mailboxes s !! id = Some mb -> mailbox_step mb now cmd t -> mt_state t = Some mb' ->
  (forall h, h ∈ new_hash cmd -> h ∉ rs_membership_hashes s) ->
  rs_queue_bytes s - mb_queue_bytes mb + mb_queue_bytes mb' <= cap_queue_bytes (rc_capacity (rs_config s)) ->
  replaces s mb mb'.
Proof.
  intros Hok Hm Hstep Hst Hnew Hq. destruct (ix_ok _ _ _ _ _ (ro_indexed _ Hok) id mb Hm) as (Hmok & _ & _).
  destruct (step_identity _ _ _ _ _ Hstep Hst) as (? & ? & ? & _).
  split; eauto using step_ok, step_members.
  destruct (step_hashes _ _ _ _ _ Hstep Hst) as [->| ->].
  - exists []. rewrite app_nil_r. split_and!; [done|constructor|set_solver].
  - exists (new_hash cmd). split_and!; [done| |done]. destruct cmd; simpl; auto using NoDup_singleton, NoDup_nil_2.
Qed.

(** ** How the stored data evolves *)

(** One change of the store and the mailboxes: a fresh allocation, one
    transition of a mailbox, or the removal of an expired one; the store is
    written before the memory. *)
Inductive data_step (now : Z) : S * gmap bytes Mailbox -> S * gmap bytes Mailbox -> Prop :=
| ds_allocate st st' mbs mb :
    Alloc mb -> mbs !! mb_mailbox_id mb = None -> store_put mb st = (st', Ok tt) ->
    data_step now (st, mbs) (st', <[mb_mailbox_id mb := mb]> mbs)
| ds_transition st st' mbs id mb cmd t mb' :
    mbs !! id = Some mb -> command_typed cmd -> (forall h, h ∈ new_hash cmd -> exists token, h = sha256 token) ->
    transition mb now cmd = Ok t -> mt_state t = Some mb' -> store_put mb' st = (st', Ok tt) -> data_step now (st, mbs) (st', <[id := mb']> mbs)
| ds_expire st st' mbs id mb :
    mbs !! id = Some mb -> mb_expires_at mb <= now -> store_remove id st = (st', Ok tt) ->
    data_step now (st, mbs) (st', delete id mbs).

Definition data s : S * gmap bytes Mailbox := (rs_store s, rs_mailboxes s).

(** What every operation guarantees: when it returns, the invariant, the
    evolution of the data and the fixed parts of the state; when it fails,
    the invariant and unchanged mailboxes. *)
Record fixed_parts s s' : Prop := {
  fp_config : rs_config s' = rs_config s;
  fp_bound : forall c, bound <$> rs_connections s !! c = Some true -> bound <$> rs_connections s' !! c = Some true
}.
Definition safe (now : Z) s s' : Prop :=
  relay_ok s' /\ rtc (data_step now) (data s) (data s') /\ fixed_parts s s'.
Definition safe_failure s s' : Prop :=
  relay_ok s' /\ rs_mailboxes s' = rs_mailboxes s /\ fixed_parts s s'.

Lemma fixed_refl s : fixed_parts s s.
Proof. by split. Qed.
Lemma fixed_trans s1 s2 s3 : fixed_parts s1 s2 -> fixed_parts s2 s3 -> fixed_parts s1 s3.
Proof. intros [Ha Hb] [Hc Hd]. split; [congruence|auto]. Qed.
Lemma fixed_frame s s' : same_frame s s' -> fixed_parts s s'.
Proof. intros [? _ _ _ Hb]. split; [done|]. intros c. by rewrite Hb. Qed.

Lemma safe_refl now s : relay_ok s -> safe now s s.
Proof. intros ?. split_and!; [done|done|apply fixed_refl]. Qed.
Lemma safe_trans now s1 s2 s3 : safe now s1 s2 -> safe now s2 s3 -> safe now s1 s3.
Proof. intros (_ & ? & ?) (? & ? & ?). split_and!; [done|by etransitivity|by eapply fixed_trans]. Qed.

Lemma failed_safe s s' : relay_ok s -> store_failed s s' -> safe_failure s s'.
Proof. intros Hok (st & -> & _). split_and!; [by apply relay_ok_store|done|by split]. Qed.

(** Nothing of the data changed. *)
Lemma safe_same now s s' :
  relay_ok s' -> data s' = data s -> fixed_parts s s' -> safe now s s'.
Proof. intros ? Hd ?. split_and!; [done|by rewrite Hd|done]. Qed.

Lemma safe_attach now c sm s mb :
  relay_ok s -> rs_mailboxes s !! se_mailbox_id sm = Some mb -> is_Some (member mb (se_membership sm)) ->
  safe now s (attach c sm s).
Proof.
  intros Hok Hm Hmem. pose proof (relay_ok_attach c sm s mb Hok Hm Hmem) as Hok'.
  destruct (attach_eq c sm s (ro_bijective _ Hok)) as (conns & routes & Heq & _ & _ & _ & Hbd).
  rewrite Heq in *. apply safe_same; [done|done|]. by split.
Qed.

(** ** Transitions through the relay *)

(** Committing the result of a transition. *)
Lemma transition_commit_wp id mb now cmd t s :
  relay_ok s -> rs_mailboxes s !! id = Some mb -> command_typed cmd -> transition mb now cmd = Ok t ->
  (forall h, h ∈ new_hash cmd -> (h ∉ rs_membership_hashes s) /\ exists token, h = sha256 token) ->
  (forall mb', mt_state t = Some mb' -> rs_queue_bytes s - mb_queue_bytes mb + mb_queue_bytes mb' <=
    cap_queue_bytes (rc_capacity (rs_config s))) ->
  wp D (commit id t) (fun _ s' => safe now s s' /\ committed id t s s') (fun _ s' => store_failed s s') s.
Proof.
  intros Hok Hm Hty Ht Hnew Hq.
  destruct (ix_ok _ _ _ _ _ (ro_indexed _ Hok) id mb Hm) as (Hmok & _ & _).
  pose proof (transition_step mb now cmd t Hmok Hty Ht) as Hstep.
  eapply wp_mono; [apply (commit_wp id t s mb); try done; intros; eapply step_replaces; eauto; naive_solver| |done].
  - intros _ s' [Hok' Hc]. split; [|done]. unfold committed in Hc. unfold safe, data.
    destruct (mt_state t) as [mb'|] eqn:Hst.
    + destruct Hc as (Hf & Hmbs & _ & _ & Hput). split_and!; [done| |by apply fixed_frame].
      apply rtc_once. rewrite Hmbs. eapply ds_transition; eauto. naive_solver.
    + destruct Hc as ([Hf _ Hmbs _] & Hrem). split_and!; [done| |by apply fixed_frame].
      apply rtc_once. rewrite Hmbs. eapply ds_expire; eauto.
      destruct Hstep; try done.
Qed.

(** The same for commands that add no bytes. *)
Lemma quiet_commit_wp id mb now cmd t s :
  relay_ok s -> rs_mailboxes s !! id = Some mb -> command_typed cmd -> transition mb now cmd = Ok t ->
  (forall h, h ∈ new_hash cmd -> (h ∉ rs_membership_hashes s) /\ exists token, h = sha256 token) ->
  (forall sender seq body, cmd <> MailboxCommand_Put sender seq body) ->
  wp D (commit id t) (fun _ s' => safe now s s' /\ committed id t s s') (fun _ s' => store_failed s s') s.
Proof.
  intros Hok Hm Hty Ht Hnew Hput. eapply transition_commit_wp; eauto. intros mb' Hst.
  destruct (ix_ok _ _ _ _ _ (ro_indexed _ Hok) id mb Hm) as (Hmok & _ & _).
  pose proof (transition_step mb now cmd t Hmok Hty Ht) as Hstep.
  pose proof (step_queue _ _ _ _ _ Hmok Hstep Hst Hput). pose proof (ro_queue _ Hok). lia.
Qed.

(** ** The operations *)

Definition op_safe {A} (now : Z) (m : stM (RelayService S) RelayError A) s : Prop :=
  wp D m (fun _ s' => safe now s s') (fun _ s' => safe_failure s s') s.

Lemma reply_safe now c m s : relay_ok s -> op_safe now (reply c m) s.
Proof. intros Hok. by apply wp_ret, safe_refl. Qed.

(** After the commit only the routing changes, and nothing fails. *)
Definition settles {A} (now : Z) (m : stM (RelayService S) RelayError A) s : Prop :=
  wp D m (fun _ s' => safe now s s') (fun _ _ => False) s.

Lemma commit_then {A} now id t (k : unit -> stM (RelayService S) RelayError A) s :
  relay_ok s -> wp D (commit id t) (fun _ s' => safe now s s' /\ committed id t s s') (fun _ s' => store_failed s s') s ->
  (forall s1, safe now s s1 -> committed id t s s1 -> settles now (k tt) s1) ->
  op_safe now (commit id t ≫= k) s.
Proof.
  intros Hok Hc Hk. apply wp_bind. eapply wp_mono; [exact Hc| |by intros e s'; apply failed_safe].
  intros [] s1 [Hs Hcom]. eapply wp_mono; [by apply Hk| |done].
  intros a s'. by apply safe_trans.
Qed.

Lemma reply_settles now c m s : relay_ok s -> settles now (reply c m) s.
Proof. intros Hok. by apply wp_ret, safe_refl. Qed.

Lemma attach_settles {A} now c sm mb (k : unit -> stM (RelayService S) RelayError A) s :
  relay_ok s -> rs_mailboxes s !! se_mailbox_id sm = Some mb -> is_Some (member mb (se_membership sm)) ->
  (forall s1, relay_ok s1 -> settles now (k tt) s1) -> settles now (modify (attach c sm) ≫= k) s.
Proof.
  intros Hok Hm Hmem Hk. apply wp_bind, wp_modify.
  pose proof (safe_attach now c sm s mb Hok Hm Hmem) as Ha.
  eapply wp_mono; [apply Hk, Ha| |done]. intros a s'. by apply safe_trans.
Qed.

Lemma closed_settles now c id reason s : relay_ok s -> settles now (closed_messages c id reason) s.
Proof. intros Hok. apply wp_bind, wp_get. by apply wp_ret, safe_refl. Qed.

Lemma token_fresh token s :
  token_hash_exists (token_hash token) s = false ->
  forall h, h ∈ [token_hash token] -> (h ∉ rs_membership_hashes s) /\ exists token, h = sha256 token.
Proof. unfold token_hash_exists. intros Hf h ->%list_elem_of_singleton. bool_to_prop. split; [done|]. by exists token. Qed.

Lemma relay_claim_safe c now token locator s : relay_ok s -> op_safe now (relay_claim c now token locator) s.
Proof.
  intros Hok. apply wp_bind, wp_get. case_bool_decide; [by apply reply_safe|].
  destruct (resolve locator s) as [id|]; [|by apply reply_safe].
  cbv zeta. destruct (token_hash_exists _ s) eqn:Hfresh; [by apply reply_safe|].
  destruct (rs_mailboxes s !! id) as [mb|] eqn:Hm; [|by apply reply_safe].
  destruct (transition mb now _) as [t|e|] eqn:Ht; [|by apply reply_safe|].
  2: { exfalso. destruct (ix_ok _ _ _ _ _ (ro_indexed _ Hok) id mb Hm) as (Hmok & _ & _).
       pose proof (transition_sound mb now (MailboxCommand_Claim (token_hash token)) Hmok I) as Hs.
       by rewrite Ht in Hs. }
  destruct (ix_ok _ _ _ _ _ (ro_indexed _ Hok) id mb Hm) as (Hmok & _ & _).
  apply commit_then; [done|eapply quiet_commit_wp; eauto; [done|by apply token_fresh]|].
  intros s1 Hs1 Hcom. pose proof (proj1 Hs1) as Hok1.
  apply transition_step in Ht as Hstep; [|done..].
  destruct (find_map claimed_effect _) as [e|] eqn:Hcl.
  - destruct (step_claimed _ _ _ _ _ Hstep Hcl) as (mb' & Hst & Hmem & _).
    unfold committed in Hcom. rewrite Hst in Hcom. destruct Hcom as (_ & Hmbs & _).
    eapply (attach_settles _ _ _ mb'); [done|simpl; by rewrite Hmbs, lookup_insert_eq|done|].
    intros s2 ?. by apply reply_settles.
  - destruct (find_map terminal_effect _); [by apply closed_settles|by apply reply_settles].
Qed.

Lemma relay_claim_v2_safe c now token id claim_token s :
  relay_ok s -> op_safe now (relay_claim_v2 c now token id claim_token) s.
Proof.
  intros Hok. apply wp_bind, wp_get. case_bool_decide; [by apply reply_safe|].
  cbv zeta. destruct (token_hash_exists _ s) eqn:Hfresh; [by apply reply_safe|].
  destruct (rs_mailboxes s !! id) as [mb|] eqn:Hm; [|by apply reply_safe].
  destruct (ix_ok _ _ _ _ _ (ro_indexed _ Hok) id mb Hm) as (Hmok & _ & _).
  destruct (transition mb now _) as [t|e|] eqn:Ht; [|by apply reply_safe|].
  2: { exfalso. pose proof (transition_sound mb now (MailboxCommand_ClaimV2 (token_hash token) claim_token) Hmok I) as Hs.
       by rewrite Ht in Hs. }
  apply commit_then; [done|eapply quiet_commit_wp; eauto; [done|by apply token_fresh]|].
  intros s1 Hs1 Hcom. pose proof (proj1 Hs1) as Hok1. apply transition_step in Ht as Hstep; [|done..].
  destruct (find_map claimed_effect _) as [e|] eqn:Hcl; [|by apply reply_settles].
  destruct (step_claimed _ _ _ _ _ Hstep Hcl) as (mb' & Hst & Hmem & _).
  unfold committed in Hcom. rewrite Hst in Hcom. destruct Hcom as (_ & Hmbs & _).
  eapply (attach_settles _ _ _ mb'); [done|simpl; by rewrite Hmbs, lookup_insert_eq|done|].
  intros s2 ?. by apply reply_settles.
Qed.

Lemma relay_open_safe c now id token s : relay_ok s -> op_safe now (relay_open c now id token) s.
Proof.
  intros Hok. apply wp_bind, wp_get.
  destruct (rs_mailboxes s !! id) as [mb|] eqn:Hm; [|by apply reply_safe].
  destruct (ix_ok _ _ _ _ _ (ro_indexed _ Hok) id mb Hm) as (Hmok & _ & _).
  destruct (transition mb now _) as [t|e|] eqn:Ht; [|by apply reply_safe|].
  2: { exfalso. pose proof (transition_sound mb now (MailboxCommand_Open (token_hash token)) Hmok I) as Hs.
       by rewrite Ht in Hs. }
  apply commit_then; [done|eapply quiet_commit_wp; eauto; [done|by intros h ?%elem_of_nil]|].
  intros s1 Hs1 Hcom. pose proof (proj1 Hs1) as Hok1. apply transition_step in Ht as Hstep; [|done..].
  destruct (find_map opened_effect _) as [m|] eqn:Hcl.
  - destruct (step_opened _ _ _ _ _ Hstep Hcl) as (h & _ & Hst & _ & Hmem & _).
    unfold committed in Hcom. rewrite Hst in Hcom. destruct Hcom as (_ & Hmbs & _).
    eapply (attach_settles _ _ _ mb); [done|simpl; by rewrite Hmbs, lookup_insert_eq|done|].
    intros s2 ?. by apply wp_ret, safe_refl.
  - destruct (find_map terminal_effect _); [by apply closed_settles|by apply reply_settles].
Qed.

Definition kind_typed (k : MailboxCommandKind) : Prop :=
  match k with MailboxCommandKind_Put seq _ => 0 <= seq <= u8_max | _ => True end.

Lemma projected_bound s id mb t mb' :
  relay_ok s -> rs_mailboxes s !! id = Some mb -> mt_state t = Some mb' -> 0 <= mb_queue_bytes mb' ->
  projected_queue_bytes id t s <= cap_queue_bytes (rc_capacity (rs_config s)) ->
  rs_queue_bytes s - mb_queue_bytes mb + mb_queue_bytes mb' <= cap_queue_bytes (rc_capacity (rs_config s)).
Proof.
  intros Hok Hm Hst Hnn. destruct (queue_nonneg _ _ _ _ _ _ _ (ro_indexed _ Hok) Hm) as [? ?].
  pose proof (cp_queue _ (ro_caps _ Hok)).
  unfold projected_queue_bytes, queue_bytes_at, saturating_add, saturating_sub. rewrite Hm, Hst. lia.
Qed.

Lemma kind_command_typed m k : kind_typed k -> command_typed (mailbox_command m k).
Proof. by destruct k. Qed.

Lemma member_command_safe c now k s : relay_ok s -> kind_typed k -> op_safe now (member_command c now k) s.
Proof.
  intros Hok Hk. apply wp_bind, wp_get.
  destruct (session c s) as [sm|]; [|by apply reply_safe].
  destruct (rs_mailboxes s !! se_mailbox_id sm) as [mb|] eqn:Hm; [|by apply reply_safe].
  destruct (ix_ok _ _ _ _ _ (ro_indexed _ Hok) _ mb Hm) as (Hmok & _ & _).
  pose proof (kind_command_typed (se_membership sm) k Hk) as Hty.
  destruct (transition mb now _) as [t|e|] eqn:Ht; [|by apply reply_safe|].
  2: { exfalso. pose proof (transition_sound mb now _ Hmok Hty) as Hs. by rewrite Ht in Hs. }
  destruct (_ <? _) eqn:Hcap; [by apply reply_safe|]. bool_to_prop. cbv zeta.
  apply transition_step in Ht as Hstep; [|done..].
  apply commit_then; [done| |intros s1 Hs1 _; apply wp_ret, safe_refl, Hs1].
  eapply transition_commit_wp; eauto.
  - destruct k; by intros h ?%elem_of_nil.
  - intros mb' Hst. eapply projected_bound; eauto. apply live_bytes_bound. by eapply step_ok.
Qed.

(** ** Allocation *)

Lemma install_mailbox_safe c mb now s :
  relay_ok s -> allocated mb -> Alloc mb -> rs_mailboxes s !! mb_mailbox_id mb = None ->
  ms_hash (mb_allocator mb) ∉ rs_membership_hashes s ->
  (forall n, mb_nameplate mb = Some n -> rs_nameplates s !! n = None) ->
  mailbox_count s < cap_open_mailboxes (rc_capacity (rs_config s)) ->
  op_safe now (install_mailbox c mb) s.
Proof.
  intros Hok Ha HA Hnone Hhash Hnp Hcount. unfold install_mailbox. cbv zeta.
  destruct (allocated_fresh mb Ha) as (Hwf & _ & _).
  apply wp_bind, store_put_wp; [|intros; apply failed_safe; [done|eapply put_failed; [by apply wf_ok|done]]].
  intros st Hput. apply wp_bind, wp_modify, wp_modify.
  set (s1 := set_mailboxes _ _ _ _ _ _).
  assert (mb_claimant mb = None /\ mb_queue_bytes mb = 0) as [Hcl Hq0].
  { destruct Ha as [[i Hi]|[i Hi]].
    - unfold allocate in Hi. repeat case_hyp; apply bind_ok in Hi as (? & _ & [= <-]); done.
    - unfold allocate_v2 in Hi. repeat case_hyp; apply bind_ok in Hi as (? & _ & [= <-]); done. }
  assert (relay_ok s1) as Hok1.
  { destruct Hok as [Hc Hl Hi Ho Hq Hb Hr]. unfold s1. split; simpl; auto.
    - assert (membership_hashes mb = [ms_hash (mb_allocator mb)]) as Hhs
        by (unfold membership_hashes; by rewrite Hcl).
      pose proof (indexed_insert _ _ _ _ _ mb Hi (wf_ok _ Hwf)) as Hins.
      rewrite Hhs in Hins. simpl in Hins. rewrite Hq0, Z.add_0_r in Hins.
      replace (rs_membership_hashes s ∪ {[ms_hash (mb_allocator mb)]})
        with ({[ms_hash (mb_allocator mb)]} ∪ ∅ ∪ rs_membership_hashes s) by set_solver.
      replace (rs_expiries s ∪ {[(mb_expires_at mb, mb_mailbox_id mb)]})
        with ({[(mb_expires_at mb, mb_mailbox_id mb)]} ∪ rs_expiries s) by set_solver.
      apply Hins; auto using NoDup_singleton. by intros h ->%list_elem_of_singleton.
    - unfold mailbox_count in *. simpl. rewrite map_size_insert_None by done. lia.
    - intros c' sm Hs. destruct (Hr c' sm Hs) as (mb0 & ? & ?). exists mb0.
      rewrite lookup_insert_ne by congruence. done. }
  eapply safe_trans; [|eapply (safe_attach _ _ _ s1 mb); [done|apply lookup_insert_eq|by eexists]].
  split_and!; [done| |by split]. apply rtc_once. by apply ds_allocate.
Qed.

Lemma choose_nameplate_fresh mode n np s :
  choose_nameplate mode n s = Ok np -> forall n', np = Some n' -> rs_nameplates s !! n' = None.
Proof.
  unfold choose_nameplate. intros Hc n' ->. repeat case_hyp; bool_to_prop; simplify_eq; done.
Qed.

(** The allocation of [mb] by a client message. *)
Definition allocated_by (now : Z) (r : RelayRandomness) (m : ClientMessage) (mb : Mailbox) : Prop :=
  match m with
  | ClientMessage_Allocate mode ttl =>
      exists np, (np = None \/ np = Some (rr_nameplate r)) /\
        allocate (mkAllocationInput (rr_mailbox_id r) np (token_hash (rr_membership_token r)) now ttl) = Ok mb
  | ClientMessage_AllocateV2 id commitment ttl =>
      allocate_v2 (mkV2AllocationInput id (token_hash (rr_membership_token r)) commitment now ttl) = Ok mb
  | _ => False
  end.

(** An allocation, while allocation is enabled. *)
Definition may_allocate (now : Z) (r : RelayRandomness) (m : ClientMessage) s (mb : Mailbox) : Prop :=
  rc_allocation_enabled (rs_config s) = true /\ allocated_by now r m mb.

Lemma relay_allocate_safe c now r mode ttl s :
  relay_ok s -> (forall mb, may_allocate now r (ClientMessage_Allocate mode ttl) s mb -> Alloc mb) ->
  op_safe now (relay_allocate c now r mode ttl) s.
Proof.
  intros Hok HA. apply wp_bind, wp_get. destruct (rc_allocation_enabled _) eqn:Hen; simpl; [|by apply reply_safe].
  case_bool_decide; [by apply reply_safe|]. destruct (_ || _) eqn:Hbad; [by apply reply_safe|].
  apply orb_false_iff in Hbad as [[Hfull Hid]%orb_false_iff Htok]. bool_to_prop.
  destruct (choose_nameplate mode _ s) as [np|code|] eqn:Hnp; [|by apply reply_safe|].
  2: { unfold choose_nameplate in Hnp. repeat case_hyp. }
  destruct (allocate _) as [mb|e|] eqn:Hal; [|by apply reply_safe|].
  2: { unfold allocate in Hal. repeat case_hyp; destruct (checked_add _ _ _); done. }
  assert (mb_mailbox_id mb = rr_mailbox_id r /\ mb_nameplate mb = np /\
    ms_hash (mb_allocator mb) = token_hash (rr_membership_token r)) as (Hmid & Hmnp & Hmh).
  { unfold allocate in Hal. repeat case_hyp; apply bind_ok in Hal as (? & _ & [= <-]); done. }
  apply wp_bind. eapply wp_mono; [apply (install_mailbox_safe c mb now s Hok)| |done].
  - left. eauto.
  - apply HA. split; [done|]. exists np. split; [|done]. unfold choose_nameplate in Hnp.
    repeat case_hyp; simplify_eq; auto.
  - rewrite Hmid. by apply eq_None_not_Some.
  - rewrite Hmh. apply (token_fresh _ s Htok). set_solver.
  - rewrite Hmnp. by eapply choose_nameplate_fresh.
  - done.
  - intros ? s1 Hs1. by apply wp_ret.
Qed.

Lemma relay_allocate_v2_safe c now r id commitment ttl s :
  relay_ok s -> (forall mb, may_allocate now r (ClientMessage_AllocateV2 id commitment ttl) s mb -> Alloc mb) ->
  op_safe now (relay_allocate_v2 c now (rr_membership_token r) id commitment ttl) s.
Proof.
  intros Hok HA. apply wp_bind, wp_get. destruct (rc_allocation_enabled _) eqn:Hen; simpl; [|by apply reply_safe].
  case_bool_decide; [by apply reply_safe|]. destruct (_ || _) eqn:Hbad; [by apply reply_safe|].
  apply orb_false_iff in Hbad as [[Hfull Hid]%orb_false_iff Htok]. bool_to_prop.
  destruct (allocate_v2 _) as [mb|e|] eqn:Hal; [|by apply reply_safe|].
  2: { unfold allocate_v2 in Hal. repeat case_hyp; destruct (checked_add _ _ _); done. }
  assert (mb_mailbox_id mb = id /\ mb_nameplate mb = None /\
    ms_hash (mb_allocator mb) = token_hash (rr_membership_token r)) as (Hmid & Hmnp & Hmh).
  { unfold allocate_v2 in Hal. repeat case_hyp; apply bind_ok in Hal as (? & _ & [= <-]); done. }
  apply wp_bind. eapply wp_mono; [apply (install_mailbox_safe c mb now s Hok)| |done].
  - right. eauto.
  - by apply HA.
  - rewrite Hmid. by apply eq_None_not_Some.
  - rewrite Hmh. apply (token_fresh _ s Htok). set_solver.
  - by rewrite Hmnp.
  - done.
  - intros ? s1 Hs1. by apply wp_ret.
Qed.

(** ** Entry points *)

(** A message as its Rust type allows it. *)
Definition message_typed (m : ClientMessage) : Prop :=
  match m with ClientMessage_Put seq _ => 0 <= seq <= u8_max | _ => True end.

Lemma bind_safe now c s :
  relay_ok s -> safe now s (set_routing (upsert_connection c set_bound (rs_connections s)) (rs_routes s) s).
Proof.
  intros Hok. apply safe_same; [by apply relay_ok_bound|done|]. split; [done|].
  intros c'. simpl. unfold upsert_connection. destruct (decide (c = c')) as [->|].
  - by rewrite lookup_insert_eq.
  - by rewrite lookup_insert_ne.
Qed.

Lemma dispatch_safe c now r m s :
  relay_ok s -> message_typed m -> (forall mb, may_allocate now r m s mb -> Alloc mb) ->
  op_safe now (dispatch c now r m) s.
Proof.
  intros Hok Hty HA. apply wp_bind, wp_get. destruct m.
  1: { apply wp_bind, wp_modify. by apply wp_ret, bind_safe. }
  all: destruct (negb _); [by apply reply_safe|].
  - by apply relay_allocate_safe.
  - by apply relay_claim_safe.
  - by apply relay_allocate_v2_safe.
  - by apply relay_claim_v2_safe.
  - by apply relay_open_safe.
  - by apply member_command_safe.
  - by apply member_command_safe.
  - by apply member_command_safe.
  - by apply reply_safe.
Qed.

Lemma finish_safe now op out msgs s0 s : safe now s0 s -> wp D (finish op out msgs) (fun _ s' => safe now s0 s')
    (fun _ s' => safe_failure s0 s') s.
Proof.
  intros (Hok & Hd & Hf). unfold finish, wp. simpl.
  split_and!; [by apply relay_ok_gauges, relay_ok_observability|done|]. by destruct Hf.
Qed.

Lemma in_limiter_wp {A} (m : limM A) s (Q : A -> RelayService S -> Prop) (R : RelayError -> RelayService S -> Prop) :
  (forall l a, m (rs_limiter s) = (l, Ok a) -> Q a (set_limiter l s)) ->
  (forall l e, m (rs_limiter s) = (l, Err e) -> R RelayError_Limiter (set_limiter l s)) ->
  (m (rs_limiter s)).2 <> Panic -> wp D (in_limiter m) Q R s.
Proof.
  intros HQ HR HP. apply wp_zoom. unfold wp. destruct (m (rs_limiter s)) as [l [a|e|]]; simpl in *; eauto; done.
Qed.

Lemma safe_limiter now l s : relay_ok s -> limiter_ok l -> safe now s (set_limiter l s).
Proof. intros. apply safe_same; [by apply relay_ok_limiter|done|by split]. Qed.

Lemma handle_safe c a now r m s :
  relay_ok s -> message_typed m -> (forall mb, may_allocate now r m s mb -> Alloc mb) ->
  op_safe now (handle c a now r m) s.
Proof.
  intros Hok Hty HA. pose proof (ro_limiter _ Hok) as Hl. apply wp_bind, in_limiter_wp.
  - intros l d Hd. apply check_ok in Hd as (Hl' & _); [|done].
    pose proof (safe_limiter now l s Hok Hl') as Hs. destruct d; [|by apply finish_safe].
    apply wp_bind. eapply wp_mono; [apply dispatch_safe; [apply Hs|done|done]| |].
    + intros msgs s1 Hs1. apply finish_safe. by eapply safe_trans.
    + intros e s1 (? & Hm & Hf). split_and!; [done|done|]. eapply fixed_trans; [apply Hs|done].
  - intros l e Hd. apply check_ok in Hd as (Hl' & _); [|done].
    split_and!; [by apply relay_ok_limiter|done|by split].
  - destruct (check _ _ _ _) as [l res] eqn:Hd. by apply check_ok in Hd as (_ & ? & _).
Qed.
End Safety.
