(* ===== verification/RelayLoops.v ===== *)
(** * Sweeping, emergency closing and restarting the relay

    The loops of [sweep] and [emergency_close] and the construction from a
    store, with the same guarantees as [RelaySafe] gives for the commands. *)

From S2P Require Import Prelude External Instances Wire Mailbox MailboxInv MailboxStep MailboxThms Limiter LimiterInv LimiterThms Observability Storage StorageLaws Relay RelayInv RelaySafe.

Lemma elem_of_terminal_routes {S} id reason (s : RelayService S) m :
  m ∈ terminal_routes id reason s <->
  exists mem c, rs_routes s !! route_key (mkSessionMembership id mem) = Some c /\
    m = route c (ServerMessage_Closed reason).
Proof.
  unfold terminal_routes. rewrite list_elem_of_omap. split.
  - intros (mem & _ & Hm). exists mem. destruct (rs_routes s !! _) as [c|]; simplify_eq/=. eauto.
  - intros (mem & c & Hc & ->). exists mem. rewrite Hc. split; [destruct mem; set_solver|done].
Qed.

Section Loops.
Context {S : Type} `{MailboxStore S, Sha256, HmacSha256} (D : Prop).
Implicit Types s : RelayService S.
Hypothesis put_dies : forall mb (st : S), (store_put mb st).2 = Panic -> D.
Hypothesis remove_dies : forall id (st : S), (store_remove id st).2 = Panic -> D.

(** Nothing is allocated here. *)
Definition no_allocation (mb : Mailbox) : Prop := False.

(** A loop that fails has completed some turns. *)
Definition loop_failure (now : Z) s s' : Prop := exists s1, safe no_allocation now s s1 /\ store_failed s1 s'.

Lemma loop_failure_later now s s1 s' : safe no_allocation now s s1 -> loop_failure now s1 s' -> loop_failure now s s'.
Proof. intros Hs (s2 & Hs2 & Hf). exists s2. split; [by eapply safe_trans|done]. Qed.

Lemma loop_failure_ok now s s' : loop_failure now s s' -> relay_ok s'.
Proof. intros (s1 & (Hok & _) & Hf). apply failed_safe in Hf; [apply Hf|done]. Qed.

(** ** Sweep *)

(** The members that must hear of an expiry. *)
Definition told_expired (now : Z) s (m : RoutedMessage) : Prop :=
  exists sm mb c, rs_routes s !! route_key sm = Some c /\ rs_mailboxes s !! se_mailbox_id sm = Some mb /\
    mb_expires_at mb <= now /\ m = route c (ServerMessage_Closed CloseReason_Expired).

Record swept_to (now : Z) s s' (msgs : list RoutedMessage) : Prop := {
  sw_mailboxes : forall id, rs_mailboxes s' !! id =
    mb ← rs_mailboxes s !! id; if now <? mb_expires_at mb then Some mb else None;
  sw_messages : forall m, m ∈ msgs <-> told_expired now s m;
  sw_routes : forall sm, rs_routes s' !! route_key sm =
    match rs_mailboxes s' !! se_mailbox_id sm with Some _ => rs_routes s !! route_key sm | None => None end;
  sw_limiter : rs_limiter s' = rs_limiter s
}.

Lemma swept_to_done now s :
  relay_ok s -> (forall t id, (t, id) ∈ rs_expiries s -> now < t) -> swept_to now s s [].
Proof.
  intros Hok Hnone.
  assert (forall id mb, rs_mailboxes s !! id = Some mb -> now < mb_expires_at mb) as Hlive.
  { intros id mb Hm. apply (Hnone _ id). apply (ix_expiries _ _ _ _ _ (ro_indexed _ Hok)). eauto. }
  split; [| | |done].
  - intros id. destruct (rs_mailboxes s !! id) as [mb|] eqn:Hm; [|done]. simpl.
    by rewrite (proj2 (Z.ltb_lt _ _)) by eauto.
  - intros m. split; [set_solver|]. intros (sm & mb & c & _ & Hm & Hle & _).
    specialize (Hlive _ _ Hm). lia.
  - intros sm. destruct (rs_mailboxes s !! se_mailbox_id sm) eqn:Hm; [done|].
    destruct (rs_routes s !! route_key sm) as [c|] eqn:Hr; [|done].
    destruct (ro_reaching _ Hok c sm Hr) as (mb & ? & _). congruence.
Qed.

Lemma swept_to_step now s id mb s1 s2 msgs :
  rs_mailboxes s !! id = Some mb -> mb_expires_at mb <= now -> removed id s s1 ->
  swept_to now s1 s2 msgs -> swept_to now s s2 (terminal_routes id CloseReason_Expired s ++ msgs).
Proof.
  intros Hm Hexp [Hf _ Hmbs Hr] [Sm Smsg Sr Sl]. split.
  - intros id'. rewrite Sm, Hmbs. destruct (decide (id = id')) as [->|Hne].
    + rewrite lookup_delete_eq, Hm. simpl. by rewrite (proj2 (Z.ltb_ge _ _)) by done.
    + by rewrite lookup_delete_ne by done.
  - intros m. rewrite elem_of_app, Smsg, elem_of_terminal_routes. split.
    + intros [(mem & c & Hc & ->)|(sm & mb' & c & Hc & Hm' & Hle & ->)].
      * by exists (mkSessionMembership id mem), mb, c.
      * rewrite Hr in Hc. rewrite Hmbs in Hm'. apply lookup_delete_Some in Hm' as [? Hm'].
        case_decide; [done|]. by exists sm, mb', c.
    + intros (sm & mb' & c & Hc & Hm' & Hle & ->). destruct (decide (se_mailbox_id sm = id)) as [<-|Hne].
      * left. exists (se_membership sm), c. by destruct sm.
      * right. exists sm, mb', c. rewrite Hr, decide_False by done. rewrite Hmbs, lookup_delete_ne by done. done.
  - intros sm. rewrite Sr, Hr. case_decide as Heq; [|done].
    rewrite Sm, Hmbs, Heq, lookup_delete_eq. done.
  - rewrite Sl. apply Hf.
Qed.

Lemma sweep_loop_wp now fuel : forall s,
  relay_ok s -> (size (rs_expiries s) < fuel)%nat ->
  wp D (sweep_loop fuel now)
    (fun r s' => safe no_allocation now s s' /\ exists msgs, r = Some msgs /\ swept_to now s s' msgs)
    (fun _ s' => loop_failure now s s') s.
Proof.
  induction fuel as [|fuel IH]; intros s Hok Hfuel; [lia|]. simpl. apply wp_bind, wp_get.
  destruct (bset_first (rs_expiries s)) as [[t id]|] eqn:Hfirst.
  2: { apply bset_first_none in Hfirst. apply wp_ret. split; [by apply safe_refl|]. exists []. split; [done|].
       apply swept_to_done; [done|]. rewrite Hfirst. set_solver. }
  apply bset_first_some in Hfirst as [Hin Hmin].
  destruct (now <? t) eqn:Hlt; bool_to_prop.
  { apply wp_ret. split; [by apply safe_refl|]. exists []. split; [done|]. apply swept_to_done; [done|].
    intros t' id' Hin'. specialize (Hmin _ Hin'). apply leb_pair in Hmin. simpl in Hmin.
    destruct Hmin as [Hge|[-> _]]; [|lia]. unfold leb, ord_Z in Hge. bool_to_prop. lia. }
  apply (ix_expiries _ _ _ _ _ (ro_indexed _ Hok)) in Hin as Hin'. destruct Hin' as (mb & Hm & Ht).
  apply wp_bind. eapply wp_mono; [eapply (remove_mailbox_wp D put_dies remove_dies id s mb); eauto| |].
  - intros _ s1 (Hok1 & Hrem & Hst).
    assert (safe no_allocation now s s1) as Hs1.
    { split_and!; [done| |by apply fixed_frame, Hrem]. unfold data. rewrite (rm_mailboxes _ _ _ Hrem).
      apply rtc_once. eapply ds_expire; eauto. lia. }
    apply wp_bind. eapply wp_mono; [apply IH; [done|]| |].
    + assert (rs_expiries s1 ⊂ rs_expiries s) as Hsub%subset_size; [|lia].
      split; [intros [t' id'] Hx; by apply (rm_expiries _ _ _ Hrem) in Hx as [? _]|].
      intros Hsup. specialize (Hsup _ Hin). by apply (rm_expiries _ _ _ Hrem) in Hsup as [_ ?].
    + intros r s2 (Hs2 & msgs & -> & Hsw). apply wp_ret. split; [by eapply safe_trans|].
      eexists. split; [done|]. eapply swept_to_step; eauto. lia.
    + intros e s2. by apply loop_failure_later.
  - intros e s1 Hf. exists s. split; [by apply safe_refl|done].
Qed.

Lemma relay_sweep_wp now s :
  relay_ok s ->
  wp D (relay_sweep now)
    (fun r s' => safe no_allocation now s s' /\ exists msgs, r = Some msgs /\
       (forall id, rs_mailboxes s' !! id =
          mb ← rs_mailboxes s !! id; if now <? mb_expires_at mb then Some mb else None) /\
       (forall m, m ∈ msgs <-> told_expired now s m))
    (fun _ s' => loop_failure now s s') s.
Proof.
  intros Hok. pose proof (ro_limiter _ Hok) as Hl. unfold relay_sweep. apply wp_bind, in_limiter_wp.
  - intros l n Hd. assert (limiter_ok l) as Hl'.
    { pose proof (sweep_if_due_eq now (rs_limiter s)) as Heq. rewrite Hd in Heq. simpl in Heq. subst.
      by apply prepared_ok. }
    pose proof (safe_limiter no_allocation now l s Hok Hl') as Hs0.
    apply wp_bind, wp_get. apply wp_bind.
    eapply wp_mono; [apply (sweep_loop_wp now _ (set_limiter l s)); [apply Hs0|simpl; lia]| |].
    + intros r s1 (Hs1 & msgs & -> & [Hm Hmsg _ _]). apply wp_bind, wp_modify, wp_ret.
      split; [|by exists msgs]. eapply safe_trans; [exact Hs0|]. destruct Hs1 as (Hok1 & Hd1 & [? ?]).
      split_and!; [by apply relay_ok_gauges|done|by split].
    + intros e s1. by apply loop_failure_later.
  - intros l e Hd. exfalso. revert Hd. unfold sweep_if_due, mbind, stM_bind. rewrite observe_time_eq. simpl.
    by destruct (sweep_due _ _).
  - unfold sweep_if_due, mbind, stM_bind. rewrite observe_time_eq. simpl. by destruct (sweep_due _ _).
Qed.

(** ** Emergency close *)

Definition closed_down s s' (ids : list bytes) : Prop :=
  forall id mb', rs_mailboxes s' !! id = Some mb' ->
    exists mb, rs_mailboxes s !! id = Some mb /\
      (id ∈ ids \/ is_terminal (mb_status mb) = true -> is_terminal (mb_status mb') = true).

(** The members that must hear of the closing of the mailboxes [ids]. *)
Definition told_closed (ids : list bytes) s (m : RoutedMessage) : Prop :=
  exists sm mb c, se_mailbox_id sm ∈ ids /\ rs_routes s !! route_key sm = Some c /\
    rs_mailboxes s !! se_mailbox_id sm = Some mb /\ is_terminal (mb_status mb) = false /\
    m = route c (ServerMessage_Closed CloseReason_Closed).

Definition closes (ids : list bytes) s s' (msgs : list RoutedMessage) : Prop :=
  closed_down s s' ids /\ forall m, m ∈ msgs <-> told_closed ids s m.

Lemma close_transition mb now t mb' :
  mailbox_ok mb -> transition mb now (MailboxCommand_Close Membership_Allocator) = Ok t ->
  mt_state t = Some mb' -> is_terminal (mb_status mb') = true.
Proof.
  intros Hok Ht Hst. apply transition_step in Ht; [|done..]. by inversion Ht; simplify_eq/=.
Qed.

(** A live mailbox can always be closed. *)
Lemma close_accepted mb now e :
  mailbox_ok mb -> is_terminal (mb_status mb) = false ->
  transition mb now (MailboxCommand_Close Membership_Allocator) <> Err e.
Proof.
  intros Hok Hterm. unfold transition. destruct (_ <=? now).
  - unfold reap. destruct (_ <? _); [done|]. by rewrite delete_bodies_eq.
  - destruct (mb_status mb); [| |done]; unfold transition_close; simpl; unfold terminate; by rewrite delete_bodies_eq.
Qed.

Lemma closes_nil s : closes [] s s [].
Proof.
  split.
  - intros id mb Hm. exists mb. split; [done|]. intros [?%elem_of_nil|?]; done.
  - intros m. split; [by intros ?%elem_of_nil|]. by intros (? & ? & ? & ?%elem_of_nil & _).
Qed.

(** An absent or terminal mailbox is skipped. *)
Lemma closes_skip ids id s s' msgs :
  closes ids s s' msgs -> (forall mb, rs_mailboxes s !! id = Some mb -> is_terminal (mb_status mb) = true) ->
  closes (id :: ids) s s' msgs.
Proof.
  intros [Hc Hmsg] Hid. split.
  - intros id' mb' Hm'. destruct (Hc id' mb' Hm') as (mb & Hm & Hterm). exists mb.
    split; [done|]. intros [[->|Hin]%elem_of_cons|Ht]; eauto.
  - intros m. rewrite Hmsg. split.
    + intros (sm & mb & c & Hin & ?). exists sm, mb, c. split; [by right|done].
    + intros (sm & mb & c & [->|Hin]%elem_of_cons & Hr & Hm & Ht & ?); [|by exists sm, mb, c].
      rewrite (Hid mb) in Ht; done.
Qed.

(** What committing the closing of one mailbox does to the maps. *)
Definition closed_one id s s1 : Prop :=
  (forall id', id' <> id -> rs_mailboxes s1 !! id' = rs_mailboxes s !! id') /\
  (forall mb, rs_mailboxes s1 !! id = Some mb -> is_terminal (mb_status mb) = true) /\
  (forall sm, se_mailbox_id sm <> id -> rs_routes s1 !! route_key sm = rs_routes s !! route_key sm).

Lemma committed_closed_one id mb now t s s1 :
  mailbox_ok mb -> transition mb now (MailboxCommand_Close Membership_Allocator) = Ok t ->
  committed id t s s1 -> closed_one id s s1.
Proof.
  intros Hok Ht Hcom. unfold committed in Hcom. destruct (mt_state t) as [mbt|] eqn:Hst.
  - destruct Hcom as (_ & Hmbs & Hr & _). unfold closed_one. rewrite Hmbs, Hr. split_and!; [|  |done].
    + intros id' Hne. by rewrite lookup_insert_ne.
    + intros mb'. rewrite lookup_insert_eq. intros [= <-]. by eapply close_transition.
  - destruct Hcom as [[_ _ Hmbs Hr] _]. unfold closed_one. rewrite Hmbs. split_and!.
    + intros id' Hne. by rewrite lookup_delete_ne.
    + intros mb'. by rewrite lookup_delete_eq.
    + intros sm Hne. by rewrite Hr, decide_False.
Qed.

Lemma closes_step ids id mb s s1 s2 msgs :
  rs_mailboxes s !! id = Some mb -> is_terminal (mb_status mb) = false -> closed_one id s s1 ->
  closes ids s1 s2 msgs ->
  closes (id :: ids) s s2 (terminal_routes id CloseReason_Closed s ++ msgs).
Proof.
  intros Hm Hterm (Hother & Hid & Hr) [Hcl Hmsg]. split.
  - intros id' mb' Hm'. destruct (Hcl id' mb' Hm') as (mb1 & Hm1 & Ht1). destruct (decide (id' = id)) as [->|Hne].
    + exists mb. split; [done|]. intros _. eauto.
    + rewrite Hother in Hm1 by done. exists mb1. split; [done|]. intros [[?|?]%elem_of_cons|?]; [done|by auto..].
  - intros m. rewrite elem_of_app, Hmsg, elem_of_terminal_routes. split.
    + intros [(mem & c & Hc & ->)|(sm & mb1 & c & Hin & Hc & Hm1 & Ht & ->)].
      * exists (mkSessionMembership id mem), mb, c. split_and!; [by left|done..].
      * destruct (decide (se_mailbox_id sm = id)) as [Heq|Hne].
        -- rewrite Heq in Hm1. by rewrite (Hid _ Hm1) in Ht.
        -- rewrite Hr in Hc by done. rewrite Hother in Hm1 by done. exists sm, mb1, c. split_and!; [by right|done..].
    + intros (sm & mb1 & c & Hin & Hc & Hm1 & Ht & ->). destruct (decide (se_mailbox_id sm = id)) as [<-|Hne].
      * left. exists (se_membership sm), c. by destruct sm.
      * right. exists sm, mb1, c. rewrite Hr, Hother by done. apply elem_of_cons in Hin as [?|?]; done.
Qed.

Lemma close_each_wp now ids : forall s,
  relay_ok s ->
  wp D (close_each now ids) (fun msgs s' => safe no_allocation now s s' /\ closes ids s s' msgs)
    (fun _ s' => loop_failure now s s') s.
Proof.
  induction ids as [|id ids IH]; intros s Hok; simpl.
  { apply wp_ret. split; [by apply safe_refl|apply closes_nil]. }
  apply wp_bind, wp_get. destruct (rs_mailboxes s !! id) as [mb|] eqn:Hm.
  2: { eapply wp_mono; [by apply IH| |done]. intros ? s1 [? ?]. split; [done|]. apply closes_skip; [done|].
       intros; congruence. }
  destruct (is_terminal (mb_status mb)) eqn:Hterm.
  { eapply wp_mono; [by apply IH| |done]. intros ? s1 [? ?]. split; [done|]. apply closes_skip; [done|].
    intros; congruence. }
  destruct (ix_ok _ _ _ _ _ (ro_indexed _ Hok) id mb Hm) as (Hmok & _ & _).
  apply wp_bind, wp_lift. destruct (transition mb now _) as [t|e|] eqn:Ht; simpl.
  - apply wp_bind. eapply wp_mono;
      [eapply (quiet_commit_wp D no_allocation put_dies remove_dies id mb now (MailboxCommand_Close Membership_Allocator) t s Hok Hm I Ht); [by intros h ?%elem_of_nil|done]| |].
    + intros _ s1 [Hs1 Hcom]. apply wp_bind. eapply wp_mono; [apply IH, Hs1| |].
      * intros msgs s2 [Hs2 Hcl]. apply wp_ret. split; [by eapply safe_trans|].
        eapply closes_step; eauto using committed_closed_one.
      * intros e s2. by apply loop_failure_later.
    + intros e s1 Hf. exists s. split; [by apply safe_refl|done].
  - exfalso. by destruct (close_accepted mb now e Hmok Hterm).
  - exfalso. pose proof (transition_sound mb now (MailboxCommand_Close Membership_Allocator) Hmok I) as Hs.
    by rewrite Ht in Hs.
Qed.

Lemma emergency_close_wp now s :
  relay_ok s ->
  wp D (emergency_close now)
    (fun msgs s' => safe no_allocation now (disable_allocation s) s' /\
       (forall id mb, rs_mailboxes s' !! id = Some mb -> is_terminal (mb_status mb) = true) /\
       exists all, msgs = deduplicate_routes all /\
         forall m, m ∈ all <-> told_closed (bmap_keys (rs_mailboxes s)) s m)
    (fun _ s' => loop_failure now (disable_allocation s) s') s.
Proof.
  intros Hok. apply wp_bind, wp_modify. pose proof (relay_ok_disable s Hok) as Hok0.
  apply wp_bind, wp_get. apply wp_bind.
  eapply wp_mono; [apply (close_each_wp now _ (disable_allocation s) Hok0)| |done].
  intros msgs s1 [(Hok1 & Hd & [Hcf Hb]) [Hcl Hmsg]]. apply wp_bind, wp_modify, wp_ret. split_and!.
  - split_and!; [by apply relay_ok_gauges|done|by split].
  - intros id mb Hm. destruct (Hcl id mb Hm) as (mb0 & Hm0 & Ht). apply Ht. left.
    apply elem_of_bmap_keys. simpl. eauto.
  - exists msgs. split; [done|]. intros m. by rewrite Hmsg.
Qed.
End Loops.

(** ** Construction from a store *)

Section Restart.
Context `{Sha256}.

Definition loaded_ok (l : Loaded) : Prop :=
  indexed (ld_mailboxes l) (ld_nameplates l) (ld_hashes l) (ld_expiries l) (ld_queue l).

Lemma insert_hashes_some hs set set' :
  insert_hashes hs set = Some set' <->
  NoDup hs /\ (forall h, h ∈ hs -> h ∉ set) /\ set' = list_to_set hs ∪ set.
Proof.
  revert set. induction hs as [|h hs IH]; intros set; simpl.
  - split; [intros [= <-]|intros (_ & _ & ->)]; [|f_equal; set_solver].
    split_and!; [constructor|set_solver|set_solver].
  - case_bool_decide as Hin.
    + split; [done|]. intros (_ & Hfr & _). exfalso. apply (Hfr h); set_solver.
    + rewrite IH, NoDup_cons. split.
      * intros (Hnd & Hfr & ->). split_and!; [|done| |set_solver].
        -- intros Hh. apply (Hfr h Hh). set_solver.
        -- intros h' [->|Hh']%elem_of_cons; [done|]. specialize (Hfr h' Hh'). set_solver.
      * intros ([Hh Hnd] & Hfr & ->). split_and!; [done| |set_solver].
        intros h' Hh' [->%elem_of_singleton|?]%elem_of_union; [done|]. apply (Hfr h'); set_solver.
Qed.

Lemma load_mailbox_ok mb l l' :
  loaded_ok l -> mailbox_ok mb -> load_mailbox mb l = Ok l' ->
  loaded_ok l' /\ ld_mailboxes l' = <[mb_mailbox_id mb := mb]> (ld_mailboxes l).
Proof.
  intros Hl Hok. unfold load_mailbox. intros (np & Hnp & Hd)%bind_ok.
  apply bind_ok in Hd as (hs & (Hnd & Hfr & ->)%ok_or_ok%insert_hashes_some & Hd).
  apply bind_ok in Hd as (q & [-> _]%ok_or_ok%checked_add_some & Hd).
  case_bool_decide as Hdup; [done|]. injection Hd as <-. simpl. split; [|done].
  apply eq_None_not_Some in Hdup. unfold loaded_ok. simpl.
  assert (np = match mb_nameplate mb with Some n => <[n := mb_mailbox_id mb]> (ld_nameplates l)
                                        | None => ld_nameplates l end /\
    forall n, mb_nameplate mb = Some n -> ld_nameplates l !! n = None) as [-> Hn].
  { destruct (mb_nameplate mb) as [n|]; [|by injection Hnp as <-]. case_bool_decide as Hs; [done|].
    injection Hnp as <-. split; [done|]. intros n' [= <-]. by apply eq_None_not_Some. }
  by apply indexed_insert.
Qed.

Lemma load_mailboxes_ok mbs : forall l l',
  loaded_ok l -> Forall mailbox_ok mbs -> load_mailboxes mbs l = Ok l' -> loaded_ok l'.
Proof.
  induction mbs as [|mb mbs IH]; intros l l' Hl Hmbs; simpl; [by intros [= <-]|].
  inv Hmbs. intros (l1 & Hl1 & Hrest)%bind_ok. apply load_mailbox_ok in Hl1 as [? _]; eauto.
Qed.

Lemma map_sum_subseteq {K V} `{Countable K} (f : V -> Z) (m m' : gmap K V) :
  m ⊆ m' -> (forall k v, m' !! k = Some v -> 0 <= f v) -> map_sum f m <= map_sum f m'.
Proof.
  revert m'. induction m as [|k v m Hk IH] using map_ind; intros m' Hsub Hnn.
  - rewrite map_sum_empty. by apply map_sum_nonneg.
  - assert (m' !! k = Some v) as Hm' by (eapply lookup_weaken; [apply lookup_insert_eq|done]).
    rewrite map_sum_insert_new, (map_sum_delete f m' k v Hm') by done.
    assert (map_sum f m <= map_sum f (delete k m')); [|lia]. apply IH.
    + apply map_subseteq_spec. intros k' v' Hk'. rewrite lookup_delete_ne by congruence.
      eapply lookup_weaken; [|done]. rewrite lookup_insert_ne by congruence. done.
    + intros k' v' [_ ?]%lookup_delete_Some. eauto.
Qed.

(** Loading parts of a consistent set of mailboxes never fails. *)
Lemma load_mailboxes_complete m np hs ex q mbs : forall l,
  indexed m np hs ex q -> q <= u64_max -> loaded_ok l -> ld_mailboxes l ⊆ m ->
  NoDup mbs -> (forall mb, mb ∈ mbs -> m !! mb_mailbox_id mb = Some mb /\ ld_mailboxes l !! mb_mailbox_id mb = None) ->
  exists l', load_mailboxes mbs l = Ok l' /\ loaded_ok l' /\ ld_mailboxes l' ⊆ m /\ ld_mailboxes l ⊆ ld_mailboxes l' /\
    forall mb, mb ∈ mbs -> ld_mailboxes l' !! mb_mailbox_id mb = Some mb.
Proof.
  induction mbs as [|mb mbs IH]; intros l Hm Hq Hl Hsub Hnd Hmbs; simpl.
  { exists l. split_and!; [done..|set_solver]. }
  apply NoDup_cons in Hnd as [Hnot Hnd]. destruct (Hmbs mb) as [Hmb Hnone]; [set_solver|].
  destruct (ix_ok _ _ _ _ _ Hm _ mb Hmb) as (Hok & _ & Hndh).
  assert (forall id mb', ld_mailboxes l !! id = Some mb' -> m !! id = Some mb' /\ id <> mb_mailbox_id mb) as Hin.
  { intros id mb' Hid. split; [by eapply lookup_weaken|congruence]. }
  set (l1 := mkLoaded (<[mb_mailbox_id mb := mb]> (ld_mailboxes l))
    (match mb_nameplate mb with Some n => <[n := mb_mailbox_id mb]> (ld_nameplates l) | None => ld_nameplates l end)
    (list_to_set (membership_hashes mb) ∪ ld_hashes l)
    ({[(mb_expires_at mb, mb_mailbox_id mb)]} ∪ ld_expiries l) (ld_queue l + mb_queue_bytes mb)).
  assert (ld_mailboxes l1 ⊆ m) as Hsub1 by (by apply insert_subseteq_l).
  assert (load_mailbox mb l = Ok l1) as Hload.
  { unfold load_mailbox.
    assert (forall n, mb_nameplate mb = Some n -> ld_nameplates l !! n = None) as Hn.
    { intros n Hn. destruct (ld_nameplates l !! n) as [id|] eqn:E; [|done].
      apply (ix_nameplates _ _ _ _ _ Hl) in E as (mb' & Hmb' & Hn'). apply Hin in Hmb' as [Hmb' Hne].
      assert (np !! n = Some id) as E1 by (apply (ix_nameplates _ _ _ _ _ Hm); eauto).
      assert (np !! n = Some (mb_mailbox_id mb)) as E2 by (apply (ix_nameplates _ _ _ _ _ Hm); eauto).
      congruence. }
    assert (insert_hashes (membership_hashes mb) (ld_hashes l) =
      Some (list_to_set (membership_hashes mb) ∪ ld_hashes l)) as ->.
    { apply insert_hashes_some. split_and!; [done| |done]. intros h Hh (id & mb' & Hmb' & Hh')%(ix_hashes _ _ _ _ _ Hl).
      apply Hin in Hmb' as [Hmb' Hne]. apply Hne. eapply (ix_owner _ _ _ _ _ Hm h); eauto. }
    assert (ld_queue l + mb_queue_bytes mb <= u64_max) as Hqb.
    { assert (map_sum mb_queue_bytes (ld_mailboxes l1) <= map_sum mb_queue_bytes m) as Hle.
      { apply map_sum_subseteq; [done|]. intros k v Hk. destruct (ix_ok _ _ _ _ _ Hm k v Hk) as (Hv & _).
        apply (live_bytes_bound _ Hv). }
      simpl in Hle. rewrite map_sum_insert_new in Hle by done.
      rewrite (ix_queue _ _ _ _ _ Hl). rewrite (ix_queue _ _ _ _ _ Hm) in Hq. lia. }
    rewrite (proj2 (checked_add_some u64_max _ _ (ld_queue l + mb_queue_bytes mb))) by done.
    rewrite (bool_decide_eq_false_2 (is_Some (ld_mailboxes l !! _))) by (rewrite Hnone; by intros []).
    destruct (mb_nameplate mb) as [n|] eqn:Hnp; simpl; unfold l1; rewrite ?Hnp; [|done].
    rewrite bool_decide_eq_false_2; [done|]. rewrite Hn by done. by intros []. }
  rewrite Hload. simpl. destruct (load_mailbox_ok mb l l1 Hl Hok Hload) as [Hl1 _].
  destruct (IH l1 Hm Hq Hl1 Hsub1 Hnd) as (l' & Hl' & Hok' & Hsub' & Hsub2 & Hall).
  { intros mb' Hmb'. destruct (Hmbs mb') as [Hm' Hn']; [set_solver|]. split; [done|]. simpl.
    rewrite lookup_insert_ne; [done|]. intros Heq. rewrite <- Heq in Hm'. simplify_eq. by destruct Hnot. }
  exists l'. split_and!; [done..| |].
  - etransitivity; [|done]. by apply insert_subseteq.
  - intros mb' [->|?]%elem_of_cons; [|by auto]. eapply lookup_weaken; [|done]. apply lookup_insert_eq.
Qed.
End Restart.

Section Construction.
Context {S : Type} `{MailboxStore S, Sha256, HmacSha256}.

Lemma with_store_ok c store st mbs (s : RelayService S) :
  store_load store = (st, Ok mbs) -> Forall mailbox_ok mbs -> config_typed (rc_limiter c) ->
  cap_open_mailboxes (rc_capacity c) <= u64_max -> cap_queue_bytes (rc_capacity c) < u64_max ->
  0 <= cap_open_mailboxes (rc_capacity c) -> 0 <= cap_queue_bytes (rc_capacity c) ->
  with_store c store = Ok s -> relay_ok s.
Proof.
  intros Hload Hmbs (Hl1 & Hl2 & Hl3) Ho Hq Ho0 Hq0. unfold with_store. destruct (_ || _) eqn:Hbad; [done|].
  bool_to_prop. intros (lim & Hlim & Hd)%bind_ok. rewrite Hload in Hd. simpl in Hd.
  apply bind_ok in Hd as (l & Hl & Hd). destruct (_ || _) eqn:Hcap; [done|]. bool_to_prop.
  injection Hd as <-. destruct (Limiter_new _ _) as [lim'| |] eqn:Hnew; simplify_eq/=.
  destruct (new_ok _ _ _ Hl1 Hl2 Hl3 Hnew) as (Hlok & _ & _).
  apply load_mailboxes_ok in Hl; [|apply indexed_empty|done].
  split; simpl; try done.
  all: try lia; try (split; lia).
Qed.

(** A relay that holds what the store holds comes back as it was. *)
Lemma with_store_restores c (s : RelayService S) store st mbs :
  relay_ok s -> store_load store = (st, Ok mbs) -> mbs ≡ₚ (map_to_list (rs_mailboxes s)).*2 ->
  config_typed (rc_limiter c) -> rc_capacity c = rc_capacity (rs_config s) ->
  cap_limiter_entries (rc_capacity c) = entry_cap (rc_limiter c) ->
  (exists lim, Limiter_new (rc_operator_key c) (rc_limiter c) = Ok lim) -> 0 < entry_cap (rc_limiter c) ->
  exists s' : RelayService S, with_store c store = Ok s' /\ rs_mailboxes s' = rs_mailboxes s /\
    rs_nameplates s' = rs_nameplates s /\ rs_membership_hashes s' = rs_membership_hashes s /\
    rs_expiries s' = rs_expiries s /\ rs_queue_bytes s' = rs_queue_bytes s.
Proof.
  intros Hok Hload Hperm Hty Hcap Hle [lim Hlim] Hent. unfold with_store.
  pose proof (ro_indexed _ Hok) as Hi. pose proof (cp_open _ (ro_caps _ Hok)). pose proof (cp_queue _ (ro_caps _ Hok)).
  rewrite Hcap in *. rewrite (proj2 (Z.eqb_neq _ 0)), (proj2 (Z.eqb_neq _ 0)), (proj2 (Z.eqb_neq _ 0)) by lia.
  rewrite Hle, Z.eqb_refl. simpl. rewrite Hlim. simpl. rewrite Hload. simpl.
  assert (NoDup mbs) as Hnd.
  { rewrite Hperm. apply NoDup_fmap_2_strong; [|apply NoDup_map_to_list].
    intros [i1 m1] [i2 m2] Hin1 Hin2 Heq. simpl in Heq. subst m2. apply elem_of_map_to_list in Hin1, Hin2.
    destruct (ix_ok _ _ _ _ _ Hi _ _ Hin1) as (_ & <- & _). by destruct (ix_ok _ _ _ _ _ Hi _ _ Hin2) as (_ & <- & _). }
  assert (forall mb, mb ∈ mbs <-> rs_mailboxes s !! mb_mailbox_id mb = Some mb) as Hin.
  { intros mb. rewrite Hperm, list_elem_of_fmap. split.
    - intros ([id mb'] & -> & Hin%elem_of_map_to_list). simpl. by destruct (ix_ok _ _ _ _ _ Hi _ _ Hin) as (_ & -> & _).
    - intros Hm. exists (mb_mailbox_id mb, mb). by rewrite elem_of_map_to_list. }
  destruct (load_mailboxes_complete _ _ _ _ _ mbs (mkLoaded ∅ ∅ ∅ ∅ 0) Hi) as (l & Hl & Hlok & Hsub & _ & Hall).
  - pose proof (ro_queue _ Hok). lia.
  - apply indexed_empty.
  - apply map_empty_subseteq.
  - done.
  - intros mb Hmb. split; [by apply Hin|]. apply lookup_empty.
  - rewrite Hl. simpl. assert (ld_mailboxes l = rs_mailboxes s) as Hmbs.
    { apply (anti_symm (⊆)); [done|]. apply map_subseteq_spec. intros id mb Hm.
      destruct (ix_ok _ _ _ _ _ Hi _ _ Hm) as (_ & <- & _). apply Hall, Hin. done. }
    unfold loaded_ok in Hlok. rewrite Hmbs in *.
    destruct (indexed_unique _ _ _ _ _ _ _ _ _ Hlok Hi) as (-> & -> & -> & ->).
    pose proof (ro_open _ Hok). pose proof (ro_queue _ Hok).
    rewrite (proj2 (Z.ltb_ge _ _)), (proj2 (Z.ltb_ge _ _)) by (unfold mailbox_count in *; lia). simpl.
    eexists. split; [done|]. simpl. done.
Qed.
End Construction.
