(* ===== verification/RelayMessages.v ===== *)
(** * Who hears what

    The messages a command produces: their recipients, the frames among them,
    and the guards that precede every effect. *)

From S2P Require Import Prelude External Instances Wire Mailbox MailboxInv MailboxStep MailboxThms Limiter LimiterInv LimiterThms Observability Storage Relay RelayInv RelaySafe RelayLoops.

Section Messages.
Context {S : Type} `{MailboxStore S, Sha256, HmacSha256}.
Implicit Types s : RelayService S.

(** The mailbox a message of connection [c] addresses. *)
Definition addressed (c : Z) (m : ClientMessage) s : option bytes :=
  match m with
  | ClientMessage_Claim locator => resolve locator s
  | ClientMessage_ClaimV2 id _ | ClientMessage_Open id _ => Some id
  | ClientMessage_Put _ _ | ClientMessage_Ack _ | ClientMessage_Close => se_mailbox_id <$> session c s
  | _ => None
  end.

(** The frames a message may put on the wire: on [Open], to the opener, the
    bodies its peer has queued; on [Put], to the connection of the peer, the
    body just submitted. *)
Definition frame_justified (c : Z) (m : ClientMessage) s (c' q : Z) (body : bytes) : Prop :=
  match m with
  | ClientMessage_Open id token =>
      c' = c /\ exists mb mem p f, rs_mailboxes s !! id = Some mb /\
        membership_for_hash mb (token_hash token) = Some mem /\ member mb (peer mem) = Some p /\
        f ∈ ms_frames p /\ fr_seq f = q /\ fr_body f = Some body
  | ClientMessage_Put seq b =>
      q = seq /\ body = b /\ exists sm, session c s = Some sm /\
        session c' s = Some (mkSessionMembership (se_mailbox_id sm) (peer (se_membership sm)))
  | _ => False
  end.

(** Every message goes to the acting connection or to a member of the
    addressed mailbox, and every frame is justified. *)
Definition justified (c : Z) (m : ClientMessage) s (rm : RoutedMessage) : Prop :=
  (to_connection rm = c \/ exists sm, session (to_connection rm) s = Some sm /\
     addressed c m s = Some (se_mailbox_id sm)) /\
  forall q body, message rm = ServerMessage_Frame q body ->
    frame_justified c m s (to_connection rm) q body.

Definition all_justified (c : Z) (m : ClientMessage) s (msgs : list RoutedMessage) : Prop :=
  forall rm, rm ∈ msgs -> justified c m s rm.

(** Messages do not depend on what the store answers. *)
Definition says {A} (m : stM (RelayService S) RelayError A) (Q : A -> RelayService S -> Prop) s : Prop :=
  wp True m Q (fun _ _ => True) s.

Lemma says_true {A} (m : stM (RelayService S) RelayError A) s : says m (fun _ _ => True) s.
Proof. unfold says, wp. by destruct (m s) as [s' [| |]]. Qed.

Lemma says_bind {A B} (m : stM (RelayService S) RelayError A) (k : A -> stM (RelayService S) RelayError B) Q s :
  says m (fun a s' => says (k a) Q s') s -> says (m ≫= k) Q s.
Proof. apply wp_bind. Qed.

(** Routes only disappear when a mailbox is committed. *)
Definition fewer_routes s s' : Prop := forall k c, rs_routes s' !! k = Some c -> rs_routes s !! k = Some c.

Lemma detach_fewer id m s : fewer_routes s (detach_route id m s).
Proof.
  intros k c. unfold detach_route. case_match; [|done]. simpl. by intros [_ ?]%lookup_delete_Some.
Qed.

Lemma in_store_routes {A} (m : stM S StoreError A) s : says (in_store m) (fun _ s' => rs_routes s' = rs_routes s /\ rs_mailboxes s' = rs_mailboxes s) s.
Proof. apply wp_zoom. unfold wp. by destruct (m (rs_store s)) as [st [| |]]. Qed.

Lemma remove_mailbox_fewer id s : says (remove_mailbox id) (fun _ s' => fewer_routes s s') s.
Proof.
  apply says_bind. eapply wp_mono; [apply in_store_routes| |done]. intros ? s1 [Hr1 _].
  apply wp_bind, wp_get. destruct (rs_mailboxes s1 !! id) as [mb|].
  2: { apply wp_ret. intros k c. by rewrite Hr1. }
  apply wp_bind, wp_modify. apply wp_bind, wp_get. apply wp_bind, wp_lift.
  destruct (expect _); [|done..]. apply wp_bind, wp_modify. apply wp_bind, wp_modify, wp_modify.
  intros k c Hk%detach_fewer%detach_fewer. simpl in Hk. by rewrite <- Hr1.
Qed.

Lemma commit_fewer id t s : says (commit id t) (fun _ s' => fewer_routes s s') s.
Proof.
  unfold commit. destruct (mt_state t) as [mb|].
  - apply says_bind. eapply wp_mono; [apply in_store_routes| |done]. intros ? s1 [Hr1 _].
    apply wp_bind, wp_get. apply wp_bind, wp_lift. destruct (ok_or _ _); [|done..].
    apply wp_modify. intros k c. simpl. by rewrite Hr1.
  - apply wp_bind, wp_get. destruct (rs_mailboxes s !! id); [apply remove_mailbox_fewer|].
    apply wp_ret. by intros k c.
Qed.

Lemma reply_says c m s x s0 :
  (forall q b, x <> ServerMessage_Frame q b) -> says (reply c x) (fun msgs _ => all_justified c m s0 msgs) s.
Proof.
  intros Hx. apply wp_ret. intros rm ->%list_elem_of_singleton. split; [by left|].
  intros q b Hf. by destruct (Hx q b).
Qed.

Lemma mailbox_error_frame e q b : mailbox_error e <> ServerMessage_Frame q b.
Proof. by destruct e. Qed.

Lemma elem_of_deduplicate msgs m : m ∈ deduplicate_routes msgs <-> m ∈ msgs.
Proof.
  unfold deduplicate_routes.
  assert (forall acc, m ∈ fold_left (fun result m => if bool_decide (m ∈ result) then result else result ++ [m]) msgs acc
    <-> m ∈ acc \/ m ∈ msgs) as Hgen; [|rewrite Hgen; set_solver].
  induction msgs as [|x msgs IH]; intros acc; simpl; [set_solver|]. rewrite IH. case_bool_decide; set_solver.
Qed.

Lemma deduplicate_nodup msgs : NoDup (deduplicate_routes msgs).
Proof.
  unfold deduplicate_routes.
  assert (forall acc, NoDup acc -> NoDup (fold_left (fun result m => if bool_decide (m ∈ result) then result
    else result ++ [m]) msgs acc)) as Hgen; [|apply Hgen; constructor].
  induction msgs as [|x msgs IH]; intros acc Hacc; simpl; [done|]. apply IH. case_bool_decide as Hx; [done|].
  apply NoDup_app. split_and!; [done|set_solver|apply NoDup_singleton].
Qed.

(** Sessions and routes agree. *)
Lemma route_session s sm c : relay_ok s -> rs_routes s !! route_key sm = Some c -> session c s = Some sm.
Proof. intros Hok Hr. by apply (ro_bijective _ Hok). Qed.

Lemma terminal_justified c m s s1 id reason :
  relay_ok s -> fewer_routes s s1 -> addressed c m s = Some id ->
  all_justified c m s (terminal_routes id reason s1).
Proof.
  intros Hok Hf Ha rm (mem & c' & Hc & ->)%elem_of_terminal_routes. apply Hf, route_session in Hc; [|done].
  split; [|done]. right. eexists. split; [exact Hc|]. done.
Qed.

Lemma closed_says c m id reason s s1 :
  relay_ok s -> fewer_routes s s1 -> addressed c m s = Some id ->
  says (closed_messages c id reason) (fun msgs _ => all_justified c m s msgs) s1.
Proof.
  intros Hok Hf Ha. apply wp_bind, wp_get, wp_ret. intros rm [Hin| ->%list_elem_of_singleton]%elem_of_deduplicate%elem_of_app.
  - by eapply terminal_justified.
  - split; [by left|done].
Qed.

Lemma relay_claim_says c now token locator s :
  relay_ok s ->
  says (relay_claim c now token locator) (fun msgs _ => all_justified c (ClientMessage_Claim locator) s msgs) s.
Proof.
  intros Hok. apply wp_bind, wp_get. case_bool_decide; [by apply reply_says|].
  destruct (resolve locator s) as [id|] eqn:Hres; [|by apply reply_says]. cbv zeta.
  destruct (token_hash_exists _ s); [by apply reply_says|].
  destruct (rs_mailboxes s !! id) as [mb|]; [|by apply reply_says].
  destruct (transition mb now _) as [t|e|]; [|by apply reply_says, mailbox_error_frame|done].
  apply says_bind. eapply wp_mono; [apply commit_fewer| |done]. intros ? s1 Hf.
  destruct (find_map claimed_effect _).
  - apply says_bind, wp_modify. by apply reply_says.
  - destruct (find_map terminal_effect _); [by eapply closed_says|by apply reply_says].
Qed.

Lemma relay_claim_v2_says c now token id ct s :
  says (relay_claim_v2 c now token id ct) (fun msgs _ => all_justified c (ClientMessage_ClaimV2 id ct) s msgs) s.
Proof.
  apply wp_bind, wp_get. case_bool_decide; [by apply reply_says|]. cbv zeta.
  destruct (token_hash_exists _ s); [by apply reply_says|].
  destruct (rs_mailboxes s !! id) as [mb|]; [|by apply reply_says].
  destruct (transition mb now _) as [t|e|]; [|by apply reply_says, mailbox_error_frame|done].
  apply says_bind. eapply wp_mono; [apply commit_fewer| |done]. intros ? s1 Hf.
  destruct (find_map claimed_effect _); [|by apply reply_says].
  apply says_bind, wp_modify. by apply reply_says.
Qed.

Lemma relay_open_says c now id token s :
  relay_ok s ->
  says (relay_open c now id token) (fun msgs _ => all_justified c (ClientMessage_Open id token) s msgs) s.
Proof.
  intros Hok. apply wp_bind, wp_get.
  destruct (rs_mailboxes s !! id) as [mb|] eqn:Hm; [|by apply reply_says].
  destruct (transition mb now _) as [t|e|] eqn:Ht; [|by apply reply_says, mailbox_error_frame|done].
  destruct (ix_ok _ _ _ _ _ (ro_indexed _ Hok) id mb Hm) as (Hmok & _ & _).
  apply transition_step in Ht as Hstep; [|done..].
  apply says_bind. eapply wp_mono; [apply commit_fewer| |done]. intros ? s1 Hf.
  destruct (find_map opened_effect _) as [mem|] eqn:Hop.
  - apply says_bind, wp_modify, wp_ret.
    destruct (step_opened _ _ _ _ _ Hstep Hop) as (h & [= <-] & _ & Hmem & _ & ->).
    intros rm (e & He & Hrm)%list_elem_of_omap. destruct e; simplify_eq. split; [by left|].
    intros q b [= <- <-]. split; [done|].
    apply elem_of_cons in He as [?|He]; [done|]. destruct (member mb (peer mem)) as [p|] eqn:Hp; [|set_solver].
    apply deliveries_only in He as (f & b & Hfin & Hb & [= -> -> ->]). eauto 10.
  - destruct (find_map terminal_effect _); [by eapply closed_says|by apply reply_says].
Qed.

Definition kind_message (k : MailboxCommandKind) : ClientMessage :=
  match k with
  | MailboxCommandKind_Put seq body => ClientMessage_Put seq body
  | MailboxCommandKind_Ack q => ClientMessage_Ack q
  | MailboxCommandKind_Close => ClientMessage_Close
  end.

(** The deliveries of a member command: only its own body, to the peer. *)
Lemma step_deliver mb now mem k t recipient q b :
  mailbox_step mb now (mailbox_command mem k) t -> MailboxEffect_Deliver recipient q b ∈ mt_effects t ->
  recipient = peer mem /\ k = MailboxCommandKind_Put q b.
Proof.
  intros Hstep Hin. destruct k; simpl in Hstep; inversion Hstep; simplify_eq/=;
    try (apply elem_of_app in Hin as [(? & ? & [=])%all_deleted_only|Hin]; repeat case_match; set_solver);
    try (repeat case_match; set_solver).
  all: repeat case_match; try set_solver.
Qed.

Lemma member_command_says c now k s :
  relay_ok s -> kind_typed k ->
  says (member_command c now k) (fun msgs _ => all_justified c (kind_message k) s msgs) s.
Proof.
  intros Hok Hk. apply wp_bind, wp_get.
  destruct (session c s) as [sm|] eqn:Hsm; [|by apply reply_says].
  assert (addressed c (kind_message k) s = Some (se_mailbox_id sm)) as Hadd by (destruct k; simpl; by rewrite Hsm).
  destruct (rs_mailboxes s !! se_mailbox_id sm) as [mb|] eqn:Hm; [|by apply reply_says].
  destruct (ix_ok _ _ _ _ _ (ro_indexed _ Hok) _ mb Hm) as (Hmok & _ & _).
  destruct (transition mb now _) as [t|e|] eqn:Ht; [|by apply reply_says, mailbox_error_frame|done].
  apply transition_step in Ht as Hstep; [|done|by apply kind_command_typed].
  destruct (_ <? _); [by apply reply_says|]. cbv zeta.
  apply says_bind. eapply wp_mono; [apply says_true| |done]. intros ? s1 ?. apply wp_ret.
  intros rm [Hin|Hin]%elem_of_deduplicate%elem_of_app.
  { assert (exists q, rm = route c (ServerMessage_Acknowledged q)) as [q ->].
    { unfold acknowledgement in Hin. repeat case_match; set_solver. }
    split; [by left|done]. }
  apply list_elem_of_bind in Hin as (e & Hin & He). destruct e; simpl in Hin; try set_solver.
  - destruct (rs_routes s !! _) as [c'|] eqn:Hr; [|set_solver]. apply list_elem_of_singleton in Hin as ->.
    apply route_session in Hr; [|done]. destruct (step_deliver _ _ _ _ _ _ _ _ Hstep He) as [-> ->].
    split; simpl; [right; eauto|]. intros q b [= <- <-]. eauto 6.
  - eapply (terminal_justified c _ s s); eauto. by intros k' c'.
Qed.

Lemma dispatch_says c now r m s :
  relay_ok s -> message_typed m -> says (dispatch c now r m) (fun msgs _ => all_justified c m s msgs) s.
Proof.
  intros Hok Hty. apply wp_bind, wp_get. destruct m.
  1: { apply wp_bind, wp_modify. by apply reply_says. }
  all: destruct (negb _); [by apply reply_says|].
  - apply wp_bind, wp_get. repeat (case_match; [by apply reply_says|]).
    destruct (choose_nameplate _ _ _); [|by apply reply_says|done].
    destruct (allocate _); [|by apply reply_says, mailbox_error_frame|done].
    apply says_bind. eapply wp_mono; [apply says_true| |done]. intros ? s1 ?. by apply reply_says.
  - by apply relay_claim_says.
  - apply wp_bind, wp_get. repeat (case_match; [by apply reply_says|]).
    destruct (allocate_v2 _); [|by apply reply_says, mailbox_error_frame|done].
    apply says_bind. eapply wp_mono; [apply says_true| |done]. intros ? s1 ?. by apply reply_says.
  - by apply relay_claim_v2_says.
  - by apply relay_open_says.
  - by apply (member_command_says c now (MailboxCommandKind_Put seq body)).
  - by apply (member_command_says c now (MailboxCommandKind_Ack peer_seq)).
  - by apply (member_command_says c now MailboxCommandKind_Close).
  - by apply reply_says.
Qed.

Lemma handle_says c a now r m s :
  relay_ok s -> message_typed m -> says (handle c a now r m) (fun msgs _ => all_justified c m s msgs) s.
Proof.
  intros Hok Hty. apply wp_bind, wp_zoom. unfold wp.
  destruct (check _ _ _ _) as [l [d|e|]] eqn:Hd; [|done..].
  apply check_ok in Hd as (Hl & _); [|apply Hok].
  pose proof (relay_ok_limiter l s Hok Hl) as Hok1. destruct d.
  - apply wp_bind. eapply wp_mono; [apply (dispatch_says _ _ _ _ _ Hok1 Hty)| |done].
    intros msgs s1 Hj. by apply wp_ret.
  - apply wp_ret. intros rm ->%list_elem_of_singleton. split; [by left|done].
Qed.
End Messages.
