(* ===== verification/RelayProps.v ===== *)
(** * Properties of the relay

    Runs of the relay over any store, and their properties: the invariant,
    freedom from panics, isolation between mailboxes, recovery after a restart,
    the allocation switch, expiry, the emergency close, metrics and the
    nameplate policies. *)

From S2P Require Import Prelude External Instances Wire Mailbox MailboxInv MailboxStep MailboxThms Limiter LimiterInv LimiterThms Observability Storage StorageLaws StorageProps Relay RelayInv RelaySafe RelayLoops RelayMessages.

(** ** Runs *)

Section Runs.
Context {S : Type} `{MailboxStore S, Sha256, HmacSha256}.
Implicit Types s : RelayService S.

(** One call on the service, whatever it returns; nothing follows a panic. *)
Inductive relay_step : RelayService S -> RelayService S -> Prop :=
| rstep_handle s s' c a now r m res :
    message_typed m -> handle c a now r m s = (s', res) -> res <> Panic -> relay_step s s'
| rstep_disconnect s c : relay_step s (disconnect c s)
| rstep_sweep s s' now res : relay_sweep now s = (s', res) -> res <> Panic -> relay_step s s'
| rstep_emergency s s' now res : emergency_close now s = (s', res) -> res <> Panic -> relay_step s s'
| rstep_disable s : relay_step s (disable_allocation s).

Lemma relay_step_ok s s' : relay_ok s -> relay_step s s' -> relay_ok s'.
Proof.
  intros Hok Hstep. destruct Hstep as [s s' c a now r m res Hty Hrun Hp|s c|s s' now res Hrun Hp|s s' now res Hrun Hp|s].
  - pose proof (handle_safe True (fun _ => True) ltac:(done) ltac:(done) c a now r m s Hok Hty ltac:(done)) as Hw.
    apply (wp_run _ _ _ _ _ _ _ Hw) in Hrun. destruct res; [apply Hrun|apply Hrun|done].
  - by apply relay_ok_disconnect.
  - pose proof (relay_sweep_wp True ltac:(done) ltac:(done) now s Hok) as Hw.
    apply (wp_run _ _ _ _ _ _ _ Hw) in Hrun. destruct res as [a|e|]; [apply Hrun| |done].
    by eapply loop_failure_ok.
  - pose proof (emergency_close_wp True ltac:(done) ltac:(done) now s Hok) as Hw.
    apply (wp_run _ _ _ _ _ _ _ Hw) in Hrun. destruct res as [a|e|]; [apply Hrun| |done].
    by eapply loop_failure_ok.
  - by apply relay_ok_disable.
Qed.

(** What the Rust types and the deployment say of a configuration. *)
Record relay_config_typed (c : RelayConfig) : Prop := {
  rt_limiter : config_typed (rc_limiter c);
  rt_open : 0 <= cap_open_mailboxes (rc_capacity c) <= u64_max;
  rt_queue : 0 <= cap_queue_bytes (rc_capacity c) < u64_max
}.
End Runs.

(** ** Durability *)

Section Durability.
Context {S : Type} `{MailboxStore S, Sha256, !Sha256Laws, HmacSha256, !StoreLaws S}.
Implicit Types s : RelayService S.

Lemma member_typed mb m ms : mailbox_typed mb -> member mb m = Some ms -> length (ms_hash ms) = 32%nat.
Proof.
  intros Hty Hm. pose proof (ty_hashes _ Hty) as Hh. unfold membership_hashes in Hh. apply Forall_cons in Hh as [Ha Hc].
  destruct m; simpl in Hm; simplify_eq; [done|]. rewrite Hm in Hc. by apply Forall_cons in Hc as [? _].
Qed.

(** Steps keep the widths: digests and new membership hashes are SHA-256
    digests. *)
Lemma typed_digests_set mb m ms ms' q :
  mailbox_typed mb -> member mb m = Some ms -> ms_hash ms' = ms_hash ms ->
  Forall (fun f => length (fr_digest f) = 32%nat) (ms_frames ms') -> mailbox_typed (set_member mb m ms' q).
Proof.
  intros Hty Hm Hh Hf. pose proof (member_typed _ _ _ Hty Hm) as Hl. destruct Hty as [? ? Hhs ? ? ? Hd].
  destruct m; simpl in *; simplify_eq; split; simpl; auto.
  - unfold membership_hashes in *. simpl. by rewrite Hh.
  - intros [] ms0; simpl; [by intros [= <-]|]. intros Hc. by apply (Hd Membership_Claimant).
  - unfold membership_hashes in *. simpl. rewrite Hm in Hhs. rewrite Hh. done.
  - intros [] ms0; simpl; [|by intros [= <-]]. intros [= <-]. by apply (Hd Membership_Allocator).
Qed.

Lemma typed_closed mb reason : mailbox_typed mb -> mailbox_typed (closed_mailbox mb reason).
Proof.
  intros [? ? Hhs ? ? ? Hd]. split; simpl; auto.
  - unfold membership_hashes in *. simpl. by destruct (mb_claimant mb).
  - intros c. by destruct (mb_admission mb).
  - assert (forall m ms, member mb m = Some ms ->
      Forall (fun f => length (fr_digest f) = 32%nat) (ms_frames (strip ms))) as Hstrip.
    { intros m ms Hm. simpl. apply Forall_map. eapply Forall_impl; [by eapply Hd|]. done. }
    intros [] ms; simpl; [intros [= <-]; by eapply (Hstrip Membership_Allocator)|].
    intros (c & Hc & ->)%fmap_Some. by eapply (Hstrip Membership_Claimant).
Qed.

Lemma typed_install mb h ad mb' :
  mailbox_typed mb -> length h = 32%nat -> (forall c, ad <> AdmissionSnapshot_V2Pending c) ->
  mt_state (install_claimant mb h ad) = Some mb' -> mailbox_typed mb'.
Proof.
  intros [? ? Hhs ? ? ? Hd] Hh Had [= <-]. split; simpl; auto.
  - unfold membership_hashes in *. simpl. apply Forall_cons in Hhs as [? _]. by repeat constructor.
  - intros c Hc. by destruct (Had c).
  - intros [] ms; simpl; intros [= <-]; [by apply (Hd Membership_Allocator)|constructor].
Qed.

Lemma step_typed mb now cmd t mb' :
  mailbox_typed mb -> (forall h, h ∈ new_hash cmd -> exists token, h = sha256 token) ->
  mailbox_step mb now cmd t -> mt_state t = Some mb' -> mailbox_typed mb'.
Proof.
  intros Hty Hnew Hstep. destruct Hstep; simpl in *; intros Heq; simplify_eq; auto using typed_closed.
  - destruct (Hnew h) as [token ->]; [set_solver|]. eapply typed_install; eauto; [apply sha256_len|done].
  - destruct (Hnew h) as [tok ->]; [set_solver|]. eapply typed_install; eauto; [apply sha256_len|done].
  - eapply typed_digests_set; eauto. simpl. apply Forall_app. split; [by eapply ty_digests|].
    repeat constructor. apply sha256_len.
  - match goal with Hp : member mb (peer _) = Some _ |- _ => pose proof (ty_digests _ Hty _ _ Hp) as Hd end.
    eapply typed_digests_set; eauto. simpl. apply Forall_insert; [done|]. simpl. by eapply (Forall_lookup_1 _ _ _ _ Hd).
Qed.

(** Inputs as their Rust types allow them. *)
Record inputs_typed (now : Z) (r : RelayRandomness) (m : ClientMessage) : Prop := {
  in_now : 0 <= now;
  in_id : id_typed (rr_mailbox_id r);
  in_nameplate : 0 <= rr_nameplate r;
  in_message : message_typed m;
  in_v2 : forall id commitment ttl, m = ClientMessage_AllocateV2 id commitment ttl ->
    id_typed id /\ length commitment = 32%nat
}.

Lemma allocated_storable now r m mb : inputs_typed now r m -> allocated_by now r m mb -> storable mb.
Proof.
  intros [Hnow [Hl Ho] Hnp _ Hv2] Hal.
  assert (allocated mb) as Ha.
  { destruct m; simpl in Hal; try done; [destruct Hal as (np & _ & Hal); left; eauto|right; eauto]. }
  split; [apply wf_ok, (allocated_fresh mb Ha)|].
  destruct m; simpl in Hal; try done.
  - destruct Hal as (np & Hnpc & Hal). unfold allocate in Hal. simpl in Hal.
    repeat case_hyp; apply bind_ok in Hal as (e & [-> He]%ok_or_ok%checked_add_some & [= <-]); bool_to_prop.
    all: unfold MIN_TTL_SECONDS in *; split; simpl; try done; try lia.
    all: try (repeat constructor; apply sha256_len); try (intros [] ms; simpl; [intros [= <-]; constructor|done]).
    all: intros n Hn; simplify_eq; destruct Hnpc; simplify_eq; lia.
  - destruct (Hv2 _ _ _ eq_refl) as [[Hil Hio] Hc]. unfold allocate_v2 in Hal. simpl in Hal.
    repeat case_hyp; apply bind_ok in Hal as (e & [-> He]%ok_or_ok%checked_add_some & [= <-]).
    unfold V2_TTL_SECONDS in *. split; simpl; try done; try lia.
    + repeat constructor. apply sha256_len.
    + by intros ? [= <-].
    + intros [] ms; simpl; [intros [= <-]; constructor|done].
Qed.

Lemma data_steps_registry (Alloc : Mailbox -> Prop) (now : Z) (p p' : S * gmap bytes Mailbox) :
  (forall mb, Alloc mb -> storable mb) -> registry p.2 -> rtc (data_step Alloc now) p p' -> registry p'.2.
Proof.
  intros HA Hr Hsteps. induction Hsteps as [p|p1 p2 p3 Hstep _ IH]; [done|]. apply IH; clear IH.
  destruct Hstep as [st st' mbs mb Hmb _ _|st st' mbs id mb cmd t mb' Hm Hty Hnew Ht Hst _|st st' mbs id mb Hm _ _]; simpl in *.
  - apply registry_insert; auto.
  - destruct (Hr id mb Hm) as [[Hok Htyp] Hid]. pose proof (transition_step mb now cmd t Hok Hty Ht) as Hs.
    destruct (step_identity _ _ _ _ _ Hs Hst) as (Hid' & _). rewrite <- Hid, <- Hid'.
    apply registry_insert; [done|]. split; [by eapply step_ok|by eapply step_typed].
  - by apply registry_delete.
Qed.
Lemma data_steps_hold Alloc now p p' :
  (forall mb, Alloc mb -> storable mb) -> registry p.2 -> holds p.1 p.2 ->
  rtc (data_step Alloc now) p p' -> registry p'.2 /\ holds p'.1 p'.2.
Proof.
  intros HA Hr Hh Hsteps. induction Hsteps as [p|p1 p2 p3 Hstep _ IH]; [done|]. apply IH; clear IH.
  - exact (data_steps_registry Alloc now _ _ HA Hr (rtc_once _ _ Hstep)).
  - destruct Hstep as [st st' mbs mb Hmb _ Hput|st st' mbs id mb cmd t mb' Hm Hty Hnew Ht Hst Hput|st st' mbs id mb Hm _ Hrem];
      simpl in *.
    + destruct (holds_put _ _ _ _ _ Hh (HA _ Hmb) Hput) as [?|[? _]]; done.
    + destruct (Hr id mb Hm) as [[Hok Htyp] Hid]. pose proof (transition_step mb now cmd t Hok Hty Ht) as Hs.
      destruct (step_identity _ _ _ _ _ Hs Hst) as (Hid' & _). rewrite <- Hid, <- Hid'.
      assert (storable mb') as Hst' by (split; [by eapply step_ok|by eapply step_typed]).
      destruct (holds_put _ _ _ _ _ Hh Hst' Hput) as [?|[? _]]; done.
    + destruct (holds_remove _ _ _ _ _ Hh (registry_id _ _ _ Hr Hm) Hrem) as [?|[? _]]; done.
Qed.
End Durability.

(** ** Nameplates *)

Lemma skip_occupied_spec keys : forall candidate,
  StronglySorted ord_le keys ->
  candidate <= skip_occupied candidate keys /\ (skip_occupied candidate keys ∉ keys) /\
  forall k, candidate <= k < skip_occupied candidate keys -> k ∈ keys.
Proof.
  induction keys as [|o keys IH]; intros cand Hs; simpl; [split_and!; [lia|set_solver|lia]|].
  apply StronglySorted_cons in Hs as [Ho Hs].
  destruct (o <? cand) eqn:Hlt; bool_to_prop.
  - destruct (IH cand Hs) as (? & Hn & Hall). split_and!; [done| |].
    + intros [Heq|?]%elem_of_cons; [lia|done].
    + intros k Hk. apply elem_of_cons. right. auto.
  - destruct (o =? cand) eqn:Heq; simpl; bool_to_prop.
    + destruct (IH (cand + 1) Hs) as (? & Hn & Hall). split_and!; [lia| |].
      * intros [Heq'|?]%elem_of_cons; [lia|done].
      * intros k Hk. apply elem_of_cons. destruct (decide (k = o)); [by left|right]. apply Hall. lia.
    + split_and!; [lia| |lia]. intros [?|Hin]%elem_of_cons; [lia|].
      rewrite Forall_forall in Ho. specialize (Ho _ Hin). unfold ord_le, leb, ord_Z in Ho. bool_to_prop. lia.
Qed.

(** ** Properties of the relay

    The invariant over runs, freedom from panics, isolation between mailboxes,
    recovery after a restart, the allocation switch, expiry, the emergency
    close, metrics and the nameplate policies; concrete runs close the file. *)

(** ** Runs *)

Section Runs.
Context {S : Type} `{MailboxStore S, Sha256, HmacSha256}.
Implicit Types s : RelayService S.

Lemma relay_steps_ok s s' : relay_ok s -> rtc relay_step s s' -> relay_ok s'.
Proof. intros Hok Hr. induction Hr; eauto using relay_step_ok. Qed.

Lemma start_ok c store st mbs s :
  relay_config_typed c -> store_load store = (st, Ok mbs) -> Forall mailbox_ok mbs ->
  with_store c store = Ok s -> relay_ok s.
Proof. intros [Hl [? ?] [? ?]] Hload Hmbs. by eapply with_store_ok. Qed.

(** No step that follows [disable_allocation] brings a new mailbox. *)
Definition no_new s s' : Prop :=
  rc_allocation_enabled (rs_config s') = false /\
  forall id, is_Some (rs_mailboxes s' !! id) -> is_Some (rs_mailboxes s !! id).

Lemma data_steps_no_new (Alloc : Mailbox -> Prop) now p p' :
  (forall mb, ~ Alloc mb) -> rtc (data_step Alloc now) p p' ->
  forall id, is_Some (p'.2 !! id) -> is_Some (p.2 !! id).
Proof.
  intros HA Hr id. induction Hr as [p|p1 p2 p3 Hstep _ IH]; [done|]. intros Hs. specialize (IH Hs).
  destruct Hstep as [st st' mbs mb Hmb _ _|st st' mbs id' mb cmd t mb' Hm _ _ _ _ _|st st' mbs id' mb Hm _ _];
    simpl in *; [by destruct (HA mb)| |].
  - destruct (decide (id' = id)) as [->|]; [by rewrite Hm|by rewrite lookup_insert_ne in IH].
  - destruct IH as [mb' [_ ?]%lookup_delete_Some]. eauto.
Qed.

Lemma safe_no_new (Alloc : Mailbox -> Prop) now s s' :
  (forall mb, ~ Alloc mb) -> rc_allocation_enabled (rs_config s) = false -> safe Alloc now s s' -> no_new s s'.
Proof.
  intros HA Hen (_ & Hd & [Hc _]). split; [by rewrite Hc|]. apply (data_steps_no_new _ _ _ _ HA Hd).
Qed.

Lemma failure_no_new s s' :
  rc_allocation_enabled (rs_config s) = false -> safe_failure s s' -> no_new s s'.
Proof. intros Hen (_ & Hm & [Hc _]). unfold no_new. by rewrite Hm, Hc. Qed.

Lemma no_new_trans s1 s2 s3 : no_new s1 s2 -> no_new s2 s3 -> no_new s1 s3.
Proof. intros [_ ?] [? ?]. split; auto. Qed.

Lemma loop_no_new now s s' :
  rc_allocation_enabled (rs_config s) = false -> loop_failure now s s' -> no_new s s'.
Proof.
  intros Hen (s1 & Hs & Hf). assert (no_new s s1) as Hn by (eapply (safe_no_new no_allocation); eauto).
  eapply no_new_trans; [exact Hn|]. eapply failure_no_new; [apply Hn|]. apply failed_safe; [apply Hs|done].
Qed.

Lemma relay_step_no_new s s' :
  relay_ok s -> rc_allocation_enabled (rs_config s) = false -> relay_step s s' -> no_new s s'.
Proof.
  intros Hok Hen Hstep.
  destruct Hstep as [s s' c a now r m res Hty Hrun Hp|s c|s s' now res Hrun Hp|s s' now res Hrun Hp|s].
  - pose proof (handle_safe True (may_allocate now r m s) ltac:(done) ltac:(done) c a now r m s Hok Hty ltac:(done)) as Hw.
    apply (wp_run _ _ _ _ _ _ _ Hw) in Hrun. destruct res as [msgs|e|]; [| |done].
    + eapply safe_no_new; [|done|exact Hrun]. intros mb [? _]. congruence.
    + by apply failure_no_new.
  - unfold no_new, disconnect. by case_match.
  - pose proof (relay_sweep_wp True ltac:(done) ltac:(done) now s Hok) as Hw.
    apply (wp_run _ _ _ _ _ _ _ Hw) in Hrun. destruct res as [r|e|]; [| |done].
    + eapply (safe_no_new no_allocation); [by intros ? []|done|apply Hrun].
    + by eapply loop_no_new.
  - pose proof (emergency_close_wp True ltac:(done) ltac:(done) now s Hok) as Hw.
    apply (wp_run _ _ _ _ _ _ _ Hw) in Hrun. destruct res as [r|e|]; [| |done].
    + eapply (safe_no_new no_allocation now (disable_allocation s)); [by intros ? []|done|apply Hrun].
    + by eapply (loop_no_new _ (disable_allocation s)).
  - done.
Qed.

Lemma relay_steps_no_new s s' :
  relay_ok s -> rc_allocation_enabled (rs_config s) = false -> rtc relay_step s s' -> no_new s s'.
Proof.
  intros Hok Hen Hr. revert Hok Hen. induction Hr as [s|s1 s2 s3 Hstep _ IH]; intros Hok Hen; [done|].
  pose proof (relay_step_no_new _ _ Hok Hen Hstep) as Hn. eapply no_new_trans; [exact Hn|].
  apply IH; [by eapply relay_step_ok|apply Hn].
Qed.

(** ** Stores that do not fail on valid mailboxes *)

Class InfallibleStore : Prop := {
  put_lives : forall mb (st : S), (store_put mb st).2 <> Panic;
  put_succeeds : forall mb (st : S), mailbox_ok mb -> exists st', store_put mb st = (st', Ok tt);
  remove_succeeds : forall id (st : S), exists st', store_remove id st = (st', Ok tt)
}.
Context `{!InfallibleStore}.

Lemma infallible_put mb (st : S) : (store_put mb st).2 = Panic -> False.
Proof. apply put_lives. Qed.
Lemma infallible_remove id (st : S) : (store_remove id st).2 = Panic -> False.
Proof. by destruct (remove_succeeds id st) as [st' ->]. Qed.

Lemma infallible_loop now s s' : ~ loop_failure now s s'.
Proof.
  intros (s1 & _ & st & _ & [(mb & e & Hok & Hp)|(id & e & Hp)]).
  - destruct (put_succeeds mb (rs_store s1) Hok) as [st' Hp']. congruence.
  - destruct (remove_succeeds id (rs_store s1)) as [st' Hp']. congruence.
Qed.

Lemma wp_total {A} (m : stM (RelayService S) RelayError A) (Q : A -> RelayService S -> Prop) now s0 s :
  wp False m Q (fun _ s' => loop_failure now s0 s') s -> exists s' a, m s = (s', Ok a) /\ Q a s'.
Proof.
  unfold wp. destruct (m s) as [s' [a|e|]]; [eauto|by intros ?%infallible_loop|done].
Qed.
End Runs.

(** ** Runs without storage errors *)

Section Steady.
Context {S : Type} `{MailboxStore S, Sha256, !Sha256Laws, HmacSha256, !StoreLaws S}.
Implicit Types s : RelayService S.

(** The steps of [relay_step] that return; a storage error may leave the store
    one write ahead of the memory. *)
Inductive steady_step : RelayService S -> RelayService S -> Prop :=
| steady_handle s s' c a now r m msgs :
    inputs_typed now r m -> handle c a now r m s = (s', Ok msgs) -> steady_step s s'
| steady_disconnect s c : steady_step s (disconnect c s)
| steady_sweep s s' now msgs : relay_sweep now s = (s', Ok msgs) -> steady_step s s'
| steady_emergency s s' now msgs : emergency_close now s = (s', Ok msgs) -> steady_step s s'
| steady_disable s : steady_step s (disable_allocation s).

(** The store holds exactly the mailboxes in memory. *)
Record durable s : Prop := {
  du_ok : relay_ok s;
  du_registry : registry (rs_mailboxes s);
  du_holds : holds (rs_store s) (rs_mailboxes s)
}.

Lemma safe_durable Alloc now s s' :
  (forall mb, Alloc mb -> storable mb) -> durable s -> safe Alloc now s s' ->
  durable s' /\ rc_capacity (rs_config s') = rc_capacity (rs_config s).
Proof.
  intros HA [Hok Hr Hh] (Hok' & Hd & [Hc _]). split; [|by rewrite Hc].
  destruct (data_steps_hold Alloc now (data s) (data s') HA Hr Hh Hd). by split.
Qed.

Lemma steady_durable s s' :
  durable s -> steady_step s s' -> durable s' /\ rc_capacity (rs_config s') = rc_capacity (rs_config s).
Proof.
  intros Hd Hstep. pose proof (du_ok _ Hd) as Hok.
  destruct Hstep as [s s' c a now r m msgs Hin Hrun|s c|s s' now msgs Hrun|s s' now msgs Hrun|s].
  - pose proof (handle_safe True (allocated_by now r m) ltac:(done) ltac:(done) c a now r m s Hok (in_message _ _ _ Hin)
      ltac:(by intros mb [_ ?])) as Hw.
    apply (wp_run _ _ _ _ _ _ _ Hw) in Hrun. eapply safe_durable; [|done|exact Hrun].
    intros mb. by apply allocated_storable.
  - pose proof (relay_ok_disconnect c s Hok) as Hok'. destruct Hd as [_ Hr Hh].
    unfold disconnect in *. case_match; by split.
  - pose proof (relay_sweep_wp True ltac:(done) ltac:(done) now s Hok) as Hw.
    apply (wp_run _ _ _ _ _ _ _ Hw) in Hrun. eapply (safe_durable no_allocation); [by intros ? []|done|apply Hrun].
  - pose proof (emergency_close_wp True ltac:(done) ltac:(done) now s Hok) as Hw.
    apply (wp_run _ _ _ _ _ _ _ Hw) in Hrun.
    apply (safe_durable no_allocation now (disable_allocation s)); [by intros ? []| |apply Hrun].
    destruct Hd as [_ Hr Hh]. split; [by apply relay_ok_disable|done..].
  - destruct Hd as [_ Hr Hh]. split; [|done]. split; [by apply relay_ok_disable|done..].
Qed.

Lemma steady_run_durable s s' :
  durable s -> rtc steady_step s s' -> durable s' /\ rc_capacity (rs_config s') = rc_capacity (rs_config s).
Proof.
  intros Hd Hr. induction Hr as [s|s1 s2 s3 Hstep _ IH]; [done|].
  destruct (steady_durable _ _ Hd Hstep) as [Hd2 Hc2]. destruct (IH Hd2) as [? ->]. done.
Qed.

Lemma load_mailboxes_lookup mbs : forall l l',
  load_mailboxes mbs l = Ok l' -> forall id mb, ld_mailboxes l' !! id = Some mb <->
    ld_mailboxes l !! id = Some mb \/ (mb ∈ mbs /\ mb_mailbox_id mb = id).
Proof.
  induction mbs as [|mb0 mbs IH]; intros l l'; simpl.
  { intros [= <-] id mb. split; [by left|]. intros [?|[?%elem_of_nil _]]; done. }
  intros (l1 & Hl1 & Hrest)%bind_ok id mb. rewrite (IH _ _ Hrest).
  assert (ld_mailboxes l !! mb_mailbox_id mb0 = None /\
    ld_mailboxes l1 = <[mb_mailbox_id mb0 := mb0]> (ld_mailboxes l)) as [Hn ->].
  { unfold load_mailbox in Hl1. apply bind_ok in Hl1 as (? & _ & Hl1). apply bind_ok in Hl1 as (? & _ & Hl1).
    apply bind_ok in Hl1 as (? & _ & Hl1). case_bool_decide as Hdup; [done|]. injection Hl1 as <-.
    split; [by apply eq_None_not_Some|done]. }
  rewrite elem_of_cons, lookup_insert_Some. split.
  - intros [[[<- <-]|[_ ?]]|[? ?]]; auto.
  - intros [Hl|[[->|?] <-]]; [|by auto..].
    left. right. split; [|done]. intros <-. congruence.
Qed.

(** A relay built from a store holds what the store holds. *)
Lemma start_durable c store m s :
  relay_config_typed c -> holds store m -> registry m -> with_store c store = Ok s ->
  durable s /\ rs_mailboxes s = m /\ rs_config s = c.
Proof.
  intros Hc Hh Hr Hs. destruct (store_load store) as [st r] eqn:Hload.
  destruct (holds_load _ _ _ _ Hh Hload) as [Hh' Hperm]. pose proof Hs as Hs0.
  unfold with_store in Hs. destruct (_ || _); [done|]. apply bind_ok in Hs as (lim & _ & Hs). rewrite Hload in Hs.
  apply bind_ok in Hs as (mbs & Hmbs & Hs). destruct r as [mbs'|e|]; simplify_eq/=. specialize (Hperm _ eq_refl).
  assert (Forall mailbox_ok mbs) as Hall.
  { apply Forall_forall. intros mb Hin. rewrite Hperm in Hin.
    apply list_elem_of_fmap in Hin as ([id mb'] & -> & Hin%elem_of_map_to_list). by destruct (Hr _ _ Hin) as [[? _] _]. }
  pose proof (start_ok c store st mbs s Hc Hload Hall Hs0) as Hok.
  apply bind_ok in Hs as (l & Hl & Hs). destruct (_ || _); [done|]. injection Hs as <-.
  assert (ld_mailboxes l = m) as Hm.
  { apply map_eq. intros id. apply option_eq. intros mb. rewrite (load_mailboxes_lookup _ _ _ Hl). simpl.
    rewrite lookup_empty, Hperm, list_elem_of_fmap. split.
    - intros [?|[([id' mb'] & -> & Hin%elem_of_map_to_list) <-]]; [done|]. simpl. by destruct (Hr _ _ Hin) as [_ ->].
    - intros Hin. right. split; [|by apply Hr]. exists (id, mb). by rewrite elem_of_map_to_list. }
  split; [|done]. split; [done|simpl; by rewrite Hm..].
Qed.
End Steady.

(** ** Claims *)

(** C1. The relay's invariant holds in every state it reaches: whatever the
    store and the sequence of messages, disconnections, sweeps, emergency
    closes and storage errors, the nameplate, hash and expiry indexes and the
    byte counter agree with the mailboxes, the caps hold, every mailbox and
    the limiter satisfy their invariants, and connections and routes stay one
    bijection that reaches existing members only. *)
Theorem relay_invariant {S} `{MailboxStore S, Sha256, HmacSha256} c store st mbs (s0 s : RelayService S) :
  relay_config_typed c -> store_load store = (st, Ok mbs) -> Forall mailbox_ok mbs ->
  with_store c store = Ok s0 -> rtc relay_step s0 s -> relay_ok s.
Proof. intros Hc Hl Hm Hs. apply relay_steps_ok. by eapply start_ok. Qed.

(** C38. The relay never panics by itself: in a reachable state the only way
    any entry point panics is a store that dies in [put] or [remove]; the
    checked arithmetic and the [expect]s of the service always succeed. *)
Theorem relay_never_panics {S} `{MailboxStore S, Sha256, HmacSha256} (s : RelayService S) c a now r m :
  relay_ok s -> message_typed m ->
  (forall mb (st : S), (store_put mb st).2 <> Panic) -> (forall id (st : S), (store_remove id st).2 <> Panic) ->
  (handle c a now r m s).2 <> Panic /\ (relay_sweep now s).2 <> Panic /\ (emergency_close now s).2 <> Panic.
Proof.
  intros Hok Hty Hp Hr. split_and!; intros Hpanic.
  - pose proof (handle_safe False (fun _ => True) Hp Hr c a now r m s Hok Hty ltac:(done)) as Hw.
    unfold op_safe, wp in Hw. destruct (handle _ _ _ _ _ _) as [s' [| |]]; done.
  - pose proof (relay_sweep_wp False Hp Hr now s Hok) as Hw. unfold wp in Hw.
    destruct (relay_sweep _ _) as [s' [| |]]; done.
  - pose proof (emergency_close_wp False Hp Hr now s Hok) as Hw. unfold wp in Hw.
    destruct (emergency_close _ _) as [s' [| |]]; done.
Qed.

(** C30. Mailboxes are isolated: every message a command produces goes to the
    connection that sent it or to a connected member of the mailbox it
    addressed, and a frame on the wire is either a body the opener's peer has
    queued, sent to the opener who presented a membership token, or the body
    just submitted, sent to the sender's peer. *)
Theorem handle_isolation {S} `{MailboxStore S, Sha256, HmacSha256} (s s' : RelayService S) c a now r m msgs :
  relay_ok s -> message_typed m -> handle c a now r m s = (s', Ok msgs) -> all_justified c m s msgs.
Proof.
  intros Hok Hty Hrun. pose proof (handle_says c a now r m s Hok Hty) as Hw. by apply (wp_run _ _ _ _ _ _ _ Hw) in Hrun.
Qed.

(** C12. A restart loses nothing: after any run without storage errors over a
    store that keeps its laws, a relay rebuilt from the store has exactly the
    mailboxes and the indexes of the one that ran. *)
Theorem restart_recovers {S} `{MailboxStore S, Sha256, !Sha256Laws, HmacSha256, !StoreLaws S}
    c store m (s0 s : RelayService S) st mbs :
  relay_config_typed c -> holds store m -> registry m -> with_store c store = Ok s0 -> rtc steady_step s0 s ->
  store_load (rs_store s) = (st, Ok mbs) ->
  exists s2 : RelayService S, with_store c (rs_store s) = Ok s2 /\ rs_mailboxes s2 = rs_mailboxes s /\
    rs_nameplates s2 = rs_nameplates s /\ rs_membership_hashes s2 = rs_membership_hashes s /\
    rs_expiries s2 = rs_expiries s /\ rs_queue_bytes s2 = rs_queue_bytes s.
Proof.
  intros Hc Hh Hr Hs Hrun Hload. destruct (start_durable c store m s0 Hc Hh Hr Hs) as (Hd & _ & Hcf).
  destruct (steady_run_durable _ _ Hd Hrun) as [[Hok Hr' Hh'] Hcap].
  destruct (holds_load _ _ _ _ Hh' Hload) as [_ Hperm].
  unfold with_store in Hs. destruct (_ || _) eqn:Hbad; [done|]. bool_to_prop.
  apply bind_ok in Hs as (lim & Hlim & _). pose proof (rt_limiter _ Hc) as (? & ? & ?).
  eapply with_store_restores; eauto; [apply Hc|congruence| |lia].
  destruct (Limiter_new _ _) as [lim'| |]; [by exists lim'|done..].
Qed.

(** A storage error is harmless in memory: a command that returns an error
    leaves every mailbox, index and counter as it was, and the invariant. *)
Theorem handle_error_harmless {S} `{MailboxStore S, Sha256, HmacSha256} (s s' : RelayService S) c a now r m e :
  relay_ok s -> message_typed m -> handle c a now r m s = (s', Err e) ->
  relay_ok s' /\ rs_mailboxes s' = rs_mailboxes s /\ rs_nameplates s' = rs_nameplates s /\
  rs_membership_hashes s' = rs_membership_hashes s /\ rs_expiries s' = rs_expiries s /\
  rs_queue_bytes s' = rs_queue_bytes s.
Proof.
  intros Hok Hty Hrun.
  pose proof (handle_safe True (fun _ => True) ltac:(done) ltac:(done) c a now r m s Hok Hty ltac:(done)) as Hw.
  apply (wp_run _ _ _ _ _ _ _ Hw) in Hrun as (Hok' & Hm & _). split; [done|]. split; [done|].
  pose proof (ro_indexed _ Hok) as Hi. pose proof (ro_indexed _ Hok') as Hi'. rewrite Hm in Hi'.
  by apply (indexed_unique _ _ _ _ _ _ _ _ _ Hi' Hi).
Qed.

(** Once allocation is disabled it stays so: in every continuation, whatever
    clients send and stores answer, no mailbox appears that was not there. *)
Theorem allocation_stays_disabled {S} `{MailboxStore S, Sha256, HmacSha256} (s s' : RelayService S) :
  relay_ok s -> rtc relay_step (disable_allocation s) s' ->
  rc_allocation_enabled (rs_config s') = false /\
  forall id, is_Some (rs_mailboxes s' !! id) -> is_Some (rs_mailboxes s !! id).
Proof. intros Hok Hr. by apply (relay_steps_no_new (disable_allocation s)); [apply relay_ok_disable|..]. Qed.

(** Sweeping is complete and exact: with a store whose operations succeed,
    [sweep] terminates with a result, the mailboxes left are exactly those not
    yet expired, unchanged, and the messages are exactly one notice of expiry
    for each connected member of an expired mailbox. *)
Theorem sweep_complete {S} `{MailboxStore S, Sha256, HmacSha256, !InfallibleStore (S := S)} (s : RelayService S) now :
  relay_ok s ->
  exists s' msgs, relay_sweep now s = (s', Ok (Some msgs)) /\
    (forall id, rs_mailboxes s' !! id =
       mb ← rs_mailboxes s !! id; if now <? mb_expires_at mb then Some mb else None) /\
    (forall m, m ∈ msgs <-> told_expired now s m).
Proof.
  intros Hok.
  destruct (wp_total _ _ _ _ _ (relay_sweep_wp False infallible_put infallible_remove now s Hok))
    as (s' & r & Hrun & _ & msgs & -> & Hm & Hmsg).
  by exists s', msgs.
Qed.

(** The emergency close is total: with a store whose operations succeed it
    returns, allocation is off, every remaining mailbox is terminal, and
    exactly the connected members of the mailboxes that were live are told,
    each once. *)
Theorem emergency_close_complete {S} `{MailboxStore S, Sha256, HmacSha256, !InfallibleStore (S := S)}
    (s : RelayService S) now :
  relay_ok s ->
  exists s' msgs, emergency_close now s = (s', Ok msgs) /\ rc_allocation_enabled (rs_config s') = false /\
    (forall id mb, rs_mailboxes s' !! id = Some mb -> is_terminal (mb_status mb) = true) /\ NoDup msgs /\
    (forall m, m ∈ msgs <-> exists sm mb c, rs_routes s !! route_key sm = Some c /\
       rs_mailboxes s !! se_mailbox_id sm = Some mb /\ is_terminal (mb_status mb) = false /\
       m = route c (ServerMessage_Closed CloseReason_Closed)).
Proof.
  intros Hok.
  destruct (wp_total _ _ _ _ _ (emergency_close_wp False infallible_put infallible_remove now s Hok))
    as (s' & msgs & Hrun & (_ & _ & [Hc _]) & Hterm & all & -> & Hall).
  exists s', (deduplicate_routes all). split_and!; [done|by rewrite Hc|done|apply deduplicate_nodup|].
  intros m. rewrite elem_of_deduplicate, Hall. unfold told_closed. setoid_rewrite elem_of_bmap_keys. naive_solver.
Qed.
