(* ===== verification/RelayFlow.v ===== *)
(** * What a command does, end to end

    The guards in front of every command, the delivery of a submitted body,
    the metrics, and the two nameplate policies. *)

From S2P Require Import Prelude External Instances Wire Mailbox MailboxInv MailboxStep MailboxThms Limiter LimiterInv LimiterThms Observability Storage StorageLaws Relay RelayInv RelaySafe RelayLoops RelayMessages RelayProps.

(** ** Lemmas *)

(** The next body of a live member is accepted. *)
Lemma transition_store `{Sha256} mb now sender ms body :
  mailbox_ok mb -> live mb now -> member mb sender = Some ms -> body_size_ok body ->
  (length (ms_frames ms) < MAX_FRAMES_PER_MEMBERSHIP)%nat ->
  transition mb now (MailboxCommand_Put sender (ms_next_seq ms) body) =
  Ok (mkMailboxTransition
        (Some (set_member mb sender (store_frame ms body) (mb_queue_bytes mb + blen body)))
        (MailboxEffect_Stored sender (ms_next_seq ms) false ::
         match member mb (peer sender) with
         | Some _ => [MailboxEffect_Deliver (peer sender) (ms_next_seq ms) body]
         | None => []
         end)).
Proof.
  intros Hok [Hexp Hlive] Hm Hb Hlen. unfold transition. rewrite (proj2 (Z.leb_gt _ _)) by done.
  assert (transition_put mb sender (ms_next_seq ms) body = Ok (mkMailboxTransition
        (Some (set_member mb sender (store_frame ms body) (mb_queue_bytes mb + blen body)))
        (MailboxEffect_Stored sender (ms_next_seq ms) false ::
         match member mb (peer sender) with
         | Some _ => [MailboxEffect_Deliver (peer sender) (ms_next_seq ms) body]
         | None => []
         end))) as Hput; [|by destruct (mb_status mb)].
  destruct (member_ok_lookup _ _ _ Hok Hm) as [Hf Hn Hbnd]. unfold body_size_ok in Hb.
  unfold transition_put. rewrite (proj2 (Z.eqb_neq _ _)), (proj2 (Z.ltb_ge _ _)) by lia. simpl. rewrite Hm. simpl.
  rewrite Z.ltb_irrefl. unfold MAX_FRAMES_PER_MEMBERSHIP in *.
  rewrite (proj2 (Z.leb_gt _ _)), (proj2 (Nat.leb_gt _ _)) by lia. simpl.
  pose proof (live_bytes_bound _ Hok).
  rewrite (expect_add u8_max) by (unfold u8_max; lia). simpl.
  rewrite (expect_add u64_max) by (unfold u64_max, MAX_FRAME_BODY_BYTES in *; lia). simpl.
  by rewrite member_set_member_ne.
Qed.

Section Flow.
Context {S : Type} `{MailboxStore S, Sha256, HmacSha256}.
Implicit Types s : RelayService S.

Definition is_bound (c : Z) s : bool := match rs_connections s !! c with Some st => bound st | None => false end.

(** A command past both guards. *)
Lemma handle_allowed s c a now r m l k s1 msgs :
  check (operation m) a now (rs_limiter s) = (l, Ok (LimitDecision_Allowed k)) ->
  dispatch c now r m (set_limiter l s) = (s1, Ok msgs) ->
  handle c a now r m s = finish (operation m) (actor_outcome c msgs) msgs s1.
Proof.
  intros Hc Hd. unfold handle, mbind, stM_bind, in_limiter, zoom. rewrite Hc. simpl. by rewrite Hd.
Qed.

(** [finish] touches only the observability. *)
Lemma finish_eq op out msgs s :
  exists o log, finish op out msgs s = (set_observability o log s, Ok msgs).
Proof. by eexists _, _. Qed.

(** The commit of a stored body. *)
Lemma commit_put id t mb mb' st s :
  relay_ok s -> rs_mailboxes s !! id = Some mb -> mt_state t = Some mb' ->
  mb_queue_bytes mb <= mb_queue_bytes mb' -> rs_queue_bytes s - mb_queue_bytes mb + mb_queue_bytes mb' <= u64_max ->
  store_put mb' (rs_store s) = (st, Ok tt) ->
  exists hs q, commit id t s =
    (set_mailboxes (<[id := mb']> (rs_mailboxes s)) (rs_nameplates s) hs (rs_expiries s) q (set_store st s), Ok tt).
Proof.
  intros Hok Hm Ht Hle Hu Hput. destruct (queue_nonneg _ _ _ _ _ _ _ (ro_indexed _ Hok) Hm) as [Hq0 Hq1].
  unfold commit. rewrite Ht. unfold mbind, stM_bind, in_store, zoom, get, lift, modify. rewrite Hput. simpl.
  unfold queue_bytes_at. simpl. rewrite Hm.
  rewrite (proj2 (checked_sub_some _ _ (rs_queue_bytes s - mb_queue_bytes mb))) by lia. simpl.
  rewrite (proj2 (checked_add_some u64_max _ _ (rs_queue_bytes s - mb_queue_bytes mb + mb_queue_bytes mb')))
    by lia. simpl.
  by eexists _, _.
Qed.

(** The replies to a stored body: the sequence number to the sender, the body
    to the peer if it is connected. *)
Lemma store_messages c sm ms body s mb :
  relay_ok s -> session c s = Some sm -> rs_mailboxes s !! se_mailbox_id sm = Some mb ->
  let effects := MailboxEffect_Stored (se_membership sm) (ms_next_seq ms) false ::
         match member mb (peer (se_membership sm)) with
         | Some _ => [MailboxEffect_Deliver (peer (se_membership sm)) (ms_next_seq ms) body]
         | None => []
         end in
  deduplicate_routes (acknowledgement c (MailboxCommandKind_Put (ms_next_seq ms) body) effects ++
    (e ← effects; effect_messages (se_mailbox_id sm) s e)) =
  route c (ServerMessage_Acknowledged (ms_next_seq ms)) ::
  match rs_routes s !! route_key (mkSessionMembership (se_mailbox_id sm) (peer (se_membership sm))) with
  | Some c' => [route c' (ServerMessage_Frame (ms_next_seq ms) body)]
  | None => []
  end.
Proof.
  intros Hok Hs Hm effects. unfold acknowledgement, effects. simpl. rewrite Z.eqb_refl. simpl.
  destruct (rs_routes s !! _) as [c'|] eqn:Hr.
  - destruct (ro_reaching _ Hok _ _ Hr) as (mb' & Hm' & [p Hp]). simpl in *. simplify_eq. rewrite Hp. simpl.
    rewrite Hr. unfold deduplicate_routes. simpl. rewrite bool_decide_eq_false_2; [done|].
    by intros ?%list_elem_of_singleton.
  - destruct (member mb _); simpl; [by rewrite Hr|done].
Qed.

(** Operations below [finish] never touch the metrics. *)
Definition blind {A} (m : stM (RelayService S) RelayError A) : Prop :=
  forall s, rs_observability (m s).1 = rs_observability s.

Lemma blind_bind {A B} (m : stM (RelayService S) RelayError A) (k : A -> stM (RelayService S) RelayError B) :
  blind m -> (forall a, blind (k a)) -> blind (m ≫= k).
Proof.
  intros Hm Hk s. unfold mbind, stM_bind. specialize (Hm s). destruct (m s) as [s1 [a|e|]]; simpl in *; [|done..].
  by rewrite Hk.
Qed.

Lemma blind_in_store {A} (m : stM S StoreError A) : blind (in_store m).
Proof. intros s. unfold in_store, zoom. by destruct (m (rs_store s)) as [st [| |]]. Qed.
Lemma blind_in_limiter {A} (m : limM A) : blind (in_limiter m).
Proof. intros s. unfold in_limiter, zoom. by destruct (m (rs_limiter s)) as [st [| |]]. Qed.
Lemma blind_lift {A} (o : outcome RelayError A) : blind (lift o).
Proof. done. Qed.
Lemma blind_get : blind get.
Proof. done. Qed.
Lemma blind_detach id m : blind (modify (detach_route id m)).
Proof. intros s. unfold modify, detach_route. by case_match. Qed.

Ltac blind_step :=
  first
  [ done
  | apply blind_in_store
  | apply blind_detach
  | apply blind_bind; [|intros ?]
  | match goal with |- blind (match ?x with _ => _ end) => destruct x end
  | match goal with |- blind (if ?x then _ else _) => destruct x end ].

Lemma blind_remove id : blind (remove_mailbox id).
Proof. unfold remove_mailbox, remove_mailbox_indexes. repeat blind_step. Qed.

Lemma blind_commit id t : blind (commit id t).
Proof. unfold commit. destruct (mt_state t); repeat (blind_step || apply blind_remove). Qed.

Lemma blind_dispatch c now r m : blind (dispatch c now r m).
Proof.
  unfold dispatch, relay_allocate, relay_allocate_v2, relay_claim, relay_claim_v2, relay_open, member_command,
    install_mailbox, closed_messages, reply.
  apply blind_bind; [done|]. intros s. destruct m; repeat (blind_step || apply blind_commit || cbv zeta).
Qed.
End Flow.

(** ** Claims *)

(** The guards come first: a peer in cooldown is answered with 429, and a
    connection that has not bound with 400, whatever it sends; neither changes
    the mailboxes, the store, the connections or the routes. *)
Theorem handle_gate {S} `{MailboxStore S, Sha256, HmacSha256} (s : RelayService S) c a now r m l d :
  check (operation m) a now (rs_limiter s) = (l, Ok d) ->
  (exists retry, d = LimitDecision_Cooldown retry) \/ (is_bound c s = false /\ m <> ClientMessage_Bind) ->
  exists s', handle c a now r m s =
      (s', Ok [route c (ServerMessage_Error (match d with LimitDecision_Cooldown _ => 429 | _ => 400 end))]) /\
    data s' = data s /\ rs_connections s' = rs_connections s /\ rs_routes s' = rs_routes s /\ rs_limiter s' = l.
Proof.
  intros Hc Hd. destruct d as [k|retry].
  - destruct Hd as [[? [=]]|[Hb Hm]].
    rewrite (handle_allowed s c a now r m l k (set_limiter l s) [route c (ServerMessage_Error 400)] Hc).
    + by eexists.
    + unfold dispatch, mbind, stM_bind, get. unfold is_bound in Hb. simpl. rewrite Hb. by destruct m.
  - unfold handle, mbind, stM_bind, in_limiter, zoom. rewrite Hc. simpl. by eexists.
Qed.

(** A submitted body arrives: when a bound member of a live mailbox sends
    its next sequence number with a body of legal size, below the frame limit
    and within the byte cap, the limiter allows it and the store accepts the
    record, the sender is answered with that sequence number, the peer, if
    connected, receives exactly that body under it, and the mailbox keeps the
    body for a peer that is not. *)
Theorem put_delivers {S} `{MailboxStore S, Sha256, HmacSha256} (s : RelayService S) c a now r l k sm mb ms body st :
  relay_ok s -> check Operation_Put a now (rs_limiter s) = (l, Ok (LimitDecision_Allowed k)) ->
  is_bound c s = true -> session c s = Some sm -> rs_mailboxes s !! se_mailbox_id sm = Some mb ->
  live mb now -> member mb (se_membership sm) = Some ms -> body_size_ok body ->
  (length (ms_frames ms) < MAX_FRAMES_PER_MEMBERSHIP)%nat ->
  rs_queue_bytes s + blen body <= cap_queue_bytes (rc_capacity (rs_config s)) ->
  let mb' := set_member mb (se_membership sm) (store_frame ms body) (mb_queue_bytes mb + blen body) in
  store_put mb' (rs_store s) = (st, Ok tt) ->
  exists s', handle c a now r (ClientMessage_Put (ms_next_seq ms) body) s =
      (s', Ok (route c (ServerMessage_Acknowledged (ms_next_seq ms)) ::
               match rs_routes s !! route_key (mkSessionMembership (se_mailbox_id sm) (peer (se_membership sm))) with
               | Some c' => [route c' (ServerMessage_Frame (ms_next_seq ms) body)]
               | None => []
               end)) /\
    rs_store s' = st /\ rs_mailboxes s' = <[se_mailbox_id sm := mb']> (rs_mailboxes s).
Proof.
  intros Hok Hc Hb Hs Hm Hl Hms Hbody Hlen Hcap mb' Hput.
  destruct (ix_ok _ _ _ _ _ (ro_indexed _ Hok) _ _ Hm) as (Hmok & _ & _).
  destruct (queue_nonneg _ _ _ _ _ _ _ (ro_indexed _ Hok) Hm) as [Hq0 Hq1].
  pose proof (cp_queue _ (ro_caps _ Hok)). pose proof (blen_nonneg body).
  pose proof (transition_store mb now (se_membership sm) ms body Hmok Hl Hms Hbody Hlen) as Ht.
  pose proof (check_ok _ _ _ _ _ _ (ro_limiter _ Hok) Hc) as (Hlok & _).
  pose proof (relay_ok_limiter l s Hok Hlok) as Hok1.
  assert (mb_queue_bytes mb' = mb_queue_bytes mb + blen body) as Hqb by (by destruct (se_membership sm)).
  match type of Ht with _ = Ok ?t0 => set (t := t0) in Ht end.
  destruct (commit_put (se_mailbox_id sm) t mb mb' st (set_limiter l s) Hok1 Hm eq_refl) as (hs & q & Hcom);
    [lia|simpl; lia|done|].
  erewrite (handle_allowed s c a now r (ClientMessage_Put (ms_next_seq ms) body) l k
    (set_mailboxes (<[se_mailbox_id sm := mb']> (rs_mailboxes s)) (rs_nameplates s) hs (rs_expiries s) q
       (set_store st (set_limiter l s))) _ Hc); [by eexists|].
  unfold dispatch, mbind, stM_bind, get. unfold is_bound in Hb. simpl. rewrite Hb. simpl.
  unfold member_command, mbind, stM_bind, get. change (session c (set_limiter l s)) with (session c s).
  rewrite Hs. simpl. rewrite Hm. simpl in Ht. rewrite Ht.
  rewrite (proj2 (Z.ltb_ge _ _)).
  2: { unfold projected_queue_bytes, queue_bytes_at, saturating_add, saturating_sub. simpl. rewrite Hm.
       fold mb'. rewrite Hqb. lia. }
  rewrite Hcom. pose proof (store_messages c sm ms body (set_limiter l s) mb Hok1 Hs Hm) as Hmsg.
  simpl in Hmsg. simpl. unfold mret, stM_ret. rewrite Hmsg. done.
Qed.

(** A nameplate pairs two clients: when a bound connection without a
    membership claims the nameplate of a live, waiting mailbox, the limiter
    allows it, its token is new and the store accepts the record, it is
    answered with the mailbox and its token, the mailbox becomes paired with
    the hash of that token, and the connection is its claimant from then on. *)
Theorem claim_pairs {S} `{MailboxStore S, Sha256, HmacSha256} (s : RelayService S) c a now r l k n id mb st :
  let token := rr_membership_token r in
  relay_ok s -> check Operation_Claim a now (rs_limiter s) = (l, Ok (LimitDecision_Allowed k)) ->
  is_bound c s = true -> session c s = None -> rs_nameplates s !! n = Some id ->
  rs_mailboxes s !! id = Some mb -> live mb now -> mb_claimant mb = None -> mb_admission mb = AdmissionSnapshot_V1 ->
  token_hash_exists (token_hash token) s = false ->
  let mb' := with_status (with_members mb (mb_allocator mb) (Some (new_member (token_hash token)))
                            (mb_queue_bytes mb)) MailboxStatus_Paired AdmissionSnapshot_V1 in
  store_put mb' (rs_store s) = (st, Ok tt) ->
  exists s', handle c a now r (ClientMessage_Claim (Locator_Nameplate n)) s =
      (s', Ok [route c (ServerMessage_Claimed id token (mb_expires_at mb))]) /\
    rs_store s' = st /\ rs_mailboxes s' = <[id := mb']> (rs_mailboxes s) /\
    session c s' = Some (mkSessionMembership id Membership_Claimant).
Proof.
  intros token Hok Hc Hb Hs Hn Hm Hl Hcl Had Htok mb' Hput.
  destruct (queue_nonneg _ _ _ _ _ _ _ (ro_indexed _ Hok) Hm) as [Hq0 Hq1].
  pose proof (cp_queue _ (ro_caps _ Hok)). pose proof (ro_queue _ Hok).
  pose proof (check_ok _ _ _ _ _ _ (ro_limiter _ Hok) Hc) as (Hlok & _).
  pose proof (relay_ok_limiter l s Hok Hlok) as Hok1.
  assert (transition mb now (MailboxCommand_Claim (token_hash token)) =
    Ok (install_claimant mb (token_hash token) AdmissionSnapshot_V1)) as Ht.
  { destruct Hl as [Hexp Hlive]. unfold transition. rewrite (proj2 (Z.leb_gt _ _)) by done.
    unfold transition_claim. rewrite Had, Hcl, bool_decide_eq_false_2; [by destruct (mb_status mb)|].
    unfold token_hash_exists in Htok. bool_to_prop. intros Heq. apply Htok.
    apply (ix_hashes _ _ _ _ _ (ro_indexed _ Hok)). exists id, mb. split; [done|]. rewrite Heq.
    unfold membership_hashes. set_solver. }
  destruct (commit_put id (install_claimant mb (token_hash token) AdmissionSnapshot_V1) mb mb' st
    (set_limiter l s) Hok1 Hm eq_refl) as (hs & q & Hcom); [simpl; lia|simpl; lia|done|].
  match type of Hcom with _ = (?s0, _) => set (s1 := s0) in Hcom end.
  destruct (attach_eq c (mkSessionMembership id Membership_Claimant) s1) as (conns & routes & Hat & Hbij & _ & Hrt & _);
    [apply Hok|].
  erewrite (handle_allowed s c a now r (ClientMessage_Claim (Locator_Nameplate n)) l k
    (attach c (mkSessionMembership id Membership_Claimant) s1) _ Hc).
  - rewrite Hat. eexists. split_and!; [done..|]. by apply Hbij.
  - unfold dispatch, mbind, stM_bind, get. unfold is_bound in Hb. simpl. rewrite Hb. simpl.
    unfold relay_claim, mbind, stM_bind, get. change (session c (set_limiter l s)) with (session c s).
    rewrite Hs. simpl. rewrite Hn. change (token_hash_exists (token_hash (rr_membership_token r)) (set_limiter l s))
      with (token_hash_exists (token_hash token) s). rewrite Htok, Hm. fold token. rewrite Ht, Hcom. done.
Qed.

(** The metrics are true: after every answered command the counter of its
    operation and of the outcome the sender saw is one higher, saturating at
    the width of the counter, every other counter is unchanged, and the gauges
    show the state. *)
Theorem handle_counted {S} `{MailboxStore S, Sha256, HmacSha256} (s s' : RelayService S) c a now r m msgs op out :
  counters_ok (rs_observability s) -> handle c a now r m s = (s', Ok msgs) ->
  counter (rs_observability s') op out =
    (if decide ((op, out) = (operation m, actor_outcome c msgs))
     then saturating_add u64_max (counter (rs_observability s) op out) 1
     else counter (rs_observability s) op out) /\
  rm_gauges (relay_metrics s') =
    mkRelayGauges (mailbox_count s') (rs_queue_bytes s') (entry_count (rs_limiter s')) (clock_reversals (rs_limiter s')).
Proof.
  intros Hok Hrun.
  assert (exists s1, rs_observability s1 = rs_observability s /\
    finish (operation m) (actor_outcome c msgs) msgs s1 = (s', Ok msgs)) as (s1 & Hobs & Hf).
  { unfold handle in Hrun. unfold mbind, stM_bind in Hrun.
    pose proof (blind_in_limiter (check (operation m) a now) s) as Hb.
    destruct (in_limiter _ s) as [s1 [d|e|]]; [|done..]. simpl in Hb. destruct d as [k|retry].
    - pose proof (blind_dispatch c now r m s1) as Hb1. destruct (dispatch _ _ _ _ s1) as [s2 [ms|e|]]; [|done..].
      simpl in Hb1. assert (ms = msgs) as -> by (unfold finish in Hrun; simpl in Hrun; congruence).
      exists s2. split; [congruence|done].
    - assert (msgs = [route c (ServerMessage_Error 429)]) as -> by (unfold finish in Hrun; simpl in Hrun; congruence).
      exists s1. split; [done|]. rewrite <- Hrun. unfold actor_outcome. simpl. by rewrite Z.eqb_refl. }
  unfold finish in Hf. destruct (record _ _ _) as [o ev] eqn:Hrec. injection Hf as <-. simpl. split; [|done].
  pose proof (counter_record (operation m) (actor_outcome c msgs) (rs_observability s1) op out) as Hcr.
  rewrite Hrec, Hobs in Hcr. simpl in Hcr. unfold counter in *. simpl. rewrite Hcr by done.
  case_decide as Heq; [|done]. by injection Heq as -> ->.
Qed.

(** The smallest nameplate: [first_available_nameplate] answers with the
    smallest positive number no mailbox uses, and refuses only when every
    nameplate up to the maximum is in use. *)
Theorem first_available_smallest {S} (s : RelayService S) :
  match first_available_nameplate s with
  | Some n => 1 <= n <= MAX_NAMEPLATE /\ rs_nameplates s !! n = None /\
      forall k, 1 <= k < n -> is_Some (rs_nameplates s !! k)
  | None => forall k, 1 <= k <= MAX_NAMEPLATE -> is_Some (rs_nameplates s !! k)
  end.
Proof.
  unfold first_available_nameplate.
  destruct (skip_occupied_spec (bmap_keys (rs_nameplates s)) 1) as (Hle & Hnot & Hall).
  { apply bset_list_sorted. }
  setoid_rewrite elem_of_bmap_keys in Hall. rewrite elem_of_bmap_keys in Hnot.
  destruct (_ <=? _) eqn:Hmax; bool_to_prop.
  - split_and!; [lia|done|by apply eq_None_not_Some|done].
  - intros k Hk. apply Hall. lia.
Qed.

(** Random nameplates are unbiased: a nameplate is drawn exactly when the
    source, after candidates that are rejected, produces one of the four 32-bit
    words congruent to it below four thousand million, so every nameplate has
    equally many accepted words. *)
Theorem sample_unbiased (draws : list Z) n :
  Forall (fun w => 0 <= w <= u32_max) draws ->
  sample_nameplate (E := RelayError) (map Ok draws) = Some (Ok n) <->
  0 <= n < SAMPLE_RANGE /\
  exists rejected k rest, draws = rejected ++ (n + k * SAMPLE_RANGE) :: rest /\ 0 <= k < 4 /\
    Forall (fun w => SAMPLE_ACCEPTED <= w) rejected.
Proof.
  assert (SAMPLE_ACCEPTED = 4 * SAMPLE_RANGE) as Hacc by done.
  assert (0 < SAMPLE_RANGE) as Hpos by done.
  induction draws as [|w draws IH]; intros Hty; simpl.
  { split; [done|]. by intros (_ & [|] & ? & ? & [=] & _). }
  inv Hty. destruct (w <? SAMPLE_ACCEPTED) eqn:Hlt; bool_to_prop.
  - split.
    + intros [= <-]. split; [by apply Z.mod_pos_bound|]. exists [], (w / SAMPLE_RANGE), draws.
      split_and!; [|apply Z.div_pos; lia|apply Z.div_lt_upper_bound; lia|constructor].
      simpl. f_equal. rewrite (Z.div_mod w SAMPLE_RANGE) at 1 by lia. lia.
    + intros (Hn & [|w' rej] & k & rest & [= -> ->] & Hk & Hrej).
      * by rewrite Z.mod_add, Z.mod_small by lia.
      * apply Forall_cons in Hrej as [? _]. lia.
  - rewrite IH by done. split.
    + intros (Hn & rej & k & rest & -> & Hk & Hrej). split; [done|]. exists (w :: rej), k, rest.
      split_and!; [done|lia|lia|by constructor].
    + intros (Hn & [|w' rej] & k & rest & [= -> ->] & Hk & Hrej); [nia|]. apply Forall_cons in Hrej as [_ Hrej].
      split; [done|]. by exists rej, k, rest.
Qed.
