(* ===== verification/RelayRuns.v ===== *)
(** * Concrete runs of the relay

    A relay over the in-memory store: one connection allocates a mailbox with a
    nameplate, another claims it, and a body is sent.  The states of the run
    instantiate the relay's theorems. *)

From S2P Require Import Prelude External Instances Wire Mailbox MailboxInv MailboxStep MailboxThms Limiter LimiterInv LimiterThms Observability Storage StorageLaws StorageProps Relay RelayInv RelaySafe RelayLoops RelayMessages RelayProps RelayFlow.

Definition run_limits : LimiterConfig := LimiterConfig_new (mkOperationPolicy 2 60) 16 30.
Definition run_config : RelayConfig := mkRelayConfig (replicate 32 7) run_limits (mkCapacityCaps 4 1000 16) true.

Definition run_start : RelayService MemoryMailboxStore :=
  refresh_gauges (mkRelayService run_config (mkLimiter (replicate 32 7) run_limits ∅ ∅ 0 None None 0 0)
    (RelayObservability_new (rc_capacity run_config)) (mkMemoryMailboxStore ∅) ∅ ∅ ∅ ∅ 0 ∅ ∅ None).

Lemma run_started : relay_new run_config = Ok run_start.
Proof. vm_compute. reflexivity. Qed.

Lemma run_config_typed : relay_config_typed run_config.
Proof.
  split; simpl; [|unfold u64_max; lia..]. split_and!; [done|done|]. repeat constructor; simpl; lia.
Qed.

(** One command at second 1000, from the address of the connection. *)
Definition run_random (c : Z) : RelayRandomness := mkRelayRandomness (replicate 32 c) (replicate 32 (100 + c)) 7.
Definition run_do (c : Z) (m : ClientMessage) (s : RelayService MemoryMailboxStore) :=
  handle c [c] 1000 (run_random c) m s.

Definition run_steps : list (Z * ClientMessage) :=
  [(1, ClientMessage_Bind); (1, ClientMessage_Allocate 1 None); (2, ClientMessage_Bind)].
Definition run_waiting : RelayService MemoryMailboxStore :=
  fold_left (fun s cm => (run_do cm.1 cm.2 s).1) run_steps run_start.
Definition run_paired : RelayService MemoryMailboxStore :=
  (run_do 2 (ClientMessage_Claim (Locator_Nameplate 7)) run_waiting).1.
Definition run_stored : RelayService MemoryMailboxStore :=
  (run_do 1 (ClientMessage_Put 0 [42]) run_paired).1.

Lemma run_inputs c m : 0 <= c <= 100 -> message_typed m ->
  (forall id commitment ttl, m <> ClientMessage_AllocateV2 id commitment ttl) -> inputs_typed 1000 (run_random c) m.
Proof.
  intros Hc Hm Hv2. split; simpl; [lia| |lia|done|by intros id cm ttl ?; destruct (Hv2 id cm ttl)].
  split; [done|]. apply (Forall_replicate _ 32 c). unfold u8_max. lia.
Qed.

Definition answered {E A} (o : outcome E A) : bool := match o with Ok _ => true | _ => false end.

Lemma run_step c m s :
  0 <= c <= 100 -> message_typed m -> (forall id commitment ttl, m <> ClientMessage_AllocateV2 id commitment ttl) ->
  answered (run_do c m s).2 = true -> steady_step s (run_do c m s).1.
Proof.
  intros Hc Hm Hv2 Ha. destruct (run_do c m s) as [s' [msgs|e|]] eqn:Hrun; [|done..].
  eapply steady_handle; [by apply (run_inputs c m)|exact Hrun].
Qed.

Lemma run_next c m s0 s :
  0 <= c <= 100 -> message_typed m -> (forall id commitment ttl, m <> ClientMessage_AllocateV2 id commitment ttl) ->
  answered (run_do c m s).2 = true -> rtc steady_step s0 s -> rtc steady_step s0 (run_do c m s).1.
Proof. intros. eapply rtc_r; [done|]. by apply run_step. Qed.

Ltac run_next := apply run_next; [lia|simpl; unfold u8_max; lia || done|done|vm_compute; reflexivity|].

Lemma run_to_waiting : rtc steady_step run_start run_waiting.
Proof. unfold run_waiting, run_steps. simpl fold_left. do 3 run_next. apply rtc_refl. Qed.
Lemma run_to_paired : rtc steady_step run_start run_paired.
Proof. unfold run_paired. run_next. apply run_to_waiting. Qed.
Lemma run_to_stored : rtc steady_step run_start run_stored.
Proof. unfold run_stored. run_next. apply run_to_paired. Qed.

(** Steady steps are steps. *)
Lemma run_relay s : rtc steady_step run_start s -> rtc relay_step run_start s.
Proof.
  intros Hr. eapply rtc_subrel; [|exact Hr]. intros x y Hs. destruct Hs.
  - eapply rstep_handle; [by eapply in_message|done..].
  - constructor.
  - by eapply rstep_sweep.
  - by eapply rstep_emergency.
  - constructor.
Qed.

Lemma run_empty_load : store_load (mkMemoryMailboxStore ∅) = (mkMemoryMailboxStore ∅, Ok []).
Proof. vm_compute. reflexivity. Qed.

Lemma run_ok s : rtc steady_step run_start s -> relay_ok s.
Proof.
  intros Hr. eapply relay_steps_ok; [|by apply run_relay].
  eapply start_ok; [exact run_config_typed|exact run_empty_load|constructor|exact run_started].
Qed.

(** Encoding neither panics nor refuses a valid mailbox. *)
Lemma encode_never_dies s : encode s <> Panic.
Proof.
  unfold encode, encode_record. destruct (collect encode_sequence (sn_sequences s)) as [l|e|] eqn:Hc; try done.
  exfalso. revert Hc. generalize (sn_sequences s). intros qs. induction qs as [|q qs IH]; [done|]. simpl.
  assert (encode_sequence q <> Panic) as Hq by (unfold encode_sequence; by destruct (try_into _ (ss_body_len q))).
  destruct (encode_sequence q); simpl; [|done..]. by destruct (collect encode_sequence qs).
Qed.

Lemma encode_valid mb : mailbox_ok mb -> exists b, encode (snapshot mb) = Ok b.
Proof.
  intros Hok. assert (exists l, collect encode_sequence (sn_sequences (snapshot mb)) = Ok l) as [l Hl].
  2: { unfold encode, encode_record. rewrite Hl. by eexists. }
  assert (Forall (fun q => 0 <= ss_body_len q <= u64_max) (sn_sequences (snapshot mb))) as Hty.
  { assert (forall m ms, member mb m = Some ms ->
      Forall (fun q => 0 <= ss_body_len q <= u64_max) (map (sequence_snapshot m) (ms_frames ms))) as Hms.
    { intros m ms Hm. apply Forall_map, Forall_forall. intros f Hf. apply list_elem_of_lookup in Hf as [i Hi].
      destruct (frames_ok_lookup _ _ _ _ (mo_frames _ (member_ok_lookup _ _ _ Hok Hm)) Hi) as [_ Hb _]. simpl.
      unfold MAX_FRAME_BODY_BYTES, u64_max in *. lia. }
    apply Forall_app. split; [by apply (Hms Membership_Allocator)|].
    destruct (mb_claimant mb) as [c|] eqn:Hc; [by apply (Hms Membership_Claimant)|constructor]. }
  induction Hty as [|q qs Hq _ [l IH]]; [by exists []|]. simpl.
  assert (exists v, encode_sequence q = Ok v) as [v ->].
  { unfold encode_sequence. rewrite (proj2 (try_into_some u64_max (ss_body_len q) (ss_body_len q))) by done. by eexists. }
  simpl. rewrite IH. by eexists.
Qed.

(** A store in memory fails on no valid mailbox. *)
#[export] Instance run_infallible : InfallibleStore (S := MemoryMailboxStore).
Proof.
  split.
  - intros mb st. simpl. unfold memory_put, mbind, stM_bind, lift. destruct (encode _) as [b|e|] eqn:He; [done..|].
    by destruct (encode_never_dies (snapshot mb)).
  - intros mb st Hok. simpl. unfold memory_put, mbind, stM_bind, lift.
    destruct (encode_valid mb Hok) as [b ->]. by eexists.
  - intros id st. by eexists.
Qed.

Lemma run_result c m s o : (run_do c m s).2 = o -> handle c [c] 1000 (run_random c) m s = ((run_do c m s).1, o).
Proof. intros <-. unfold run_do. by destruct (handle _ _ _ _ _ _). Qed.

(** ** Witnesses *)

Lemma relay_invariant_witness : relay_ok run_stored /\ mailbox_count run_stored = 1.
Proof.
  split; [|vm_compute; reflexivity].
  apply (relay_invariant run_config (mkMemoryMailboxStore ∅) (mkMemoryMailboxStore ∅) [] run_start run_stored
    run_config_typed run_empty_load).
  - constructor.
  - exact run_started.
  - apply run_relay, run_to_stored.
Defined.

Lemma relay_never_panics_witness : (relay_sweep 5000 run_stored).2 <> Panic.
Proof.
  apply (relay_never_panics run_stored 1 [1] 5000 (run_random 1) ClientMessage_Ping (run_ok _ run_to_stored) I).
  - intros mb st. apply put_lives.
  - intros id st Hp. by apply (infallible_remove id st).
Defined.

(** The body goes to the claimant's connection, and nowhere else. *)
Lemma handle_isolation_witness :
  (run_do 1 (ClientMessage_Put 0 [42]) run_paired).2 =
    Ok [route 1 (ServerMessage_Acknowledged 0); route 2 (ServerMessage_Frame 0 [42])] /\
  all_justified 1 (ClientMessage_Put 0 [42]) run_paired
    [route 1 (ServerMessage_Acknowledged 0); route 2 (ServerMessage_Frame 0 [42])].
Proof.
  assert ((run_do 1 (ClientMessage_Put 0 [42]) run_paired).2 =
    Ok [route 1 (ServerMessage_Acknowledged 0); route 2 (ServerMessage_Frame 0 [42])]) as Hr
    by (vm_compute; reflexivity).
  split; [exact Hr|].
  apply (handle_isolation run_paired run_stored 1 [1] 1000 (run_random 1) (ClientMessage_Put 0 [42])).
  - apply (run_ok _ run_to_paired).
  - simpl. unfold u8_max. lia.
  - unfold run_stored. exact (run_result _ _ _ _ Hr).
Defined.

Lemma run_holds : holds (mkMemoryMailboxStore ∅) ∅.
Proof. split; [by intros id mb ?%lookup_empty_Some..|]. intros id b Hb. simpl in Hb. by apply lookup_empty_Some in Hb. Qed.

Lemma run_registry : registry ∅.
Proof. by intros id mb ?%lookup_empty_Some. Qed.

Lemma restart_recovers_witness :
  exists s2 : RelayService MemoryMailboxStore, with_store run_config (rs_store run_stored) = Ok s2 /\
    rs_mailboxes s2 = rs_mailboxes run_stored /\ mailbox_count s2 = 1.
Proof.
  destruct (store_load (rs_store run_stored)) as [st r] eqn:Hload.
  assert (exists mbs, r = Ok mbs) as [mbs ->].
  { destruct r as [mbs| |]; [by exists mbs|..]; exfalso;
      assert (answered (store_load (rs_store run_stored)).2 = true) as Ha by (vm_compute; reflexivity);
      rewrite Hload in Ha; done. }
  destruct (restart_recovers run_config (mkMemoryMailboxStore ∅) ∅ run_start run_stored st mbs run_config_typed
    run_holds run_registry run_started run_to_stored Hload) as (s2 & Hs2 & Hm & _).
  exists s2. split; [exact Hs2|]. split; [exact Hm|]. unfold mailbox_count. rewrite Hm. vm_compute. reflexivity.
Defined.

(** A relay on a directory whose first system call fails. *)
Definition failing_start : RelayService FileMailboxStore :=
  refresh_gauges (mkRelayService run_config (mkLimiter (replicate 32 7) run_limits ∅ ∅ 0 None None 0 0)
    (RelayObservability_new (rc_capacity run_config)) (demo_store [Fault_Fails 0]) ∅ ∅ ∅ ∅ 0
    {[1 := mkConnectionState true None]} ∅ None).

Lemma failing_start_ok : relay_ok failing_start.
Proof.
  pose proof (run_ok _ (rtc_refl _ run_start)) as [? ? ? ? ? _ _]. split; [done..| |].
  - intros c sm. unfold member_of. simpl. rewrite lookup_empty. split; [|done].
    destruct (decide (c = 1)) as [->|]; [by rewrite lookup_singleton_eq|by rewrite lookup_singleton_ne].
  - intros c sm. simpl. by rewrite lookup_empty.
Qed.

Lemma handle_error_harmless_witness :
  let m := ClientMessage_Allocate 0 None in
  (handle 1 [1] 1000 (run_random 1) m failing_start).2 = Err RelayError_Storage /\
  rs_mailboxes (handle 1 [1] 1000 (run_random 1) m failing_start).1 = ∅.
Proof.
  intros m.
  assert ((handle 1 [1] 1000 (run_random 1) m failing_start).2 = Err RelayError_Storage) as Hr
    by (vm_compute; reflexivity).
  split; [exact Hr|]. destruct (handle 1 [1] 1000 (run_random 1) m failing_start) as [s' o] eqn:Hrun. simpl in *. subst o.
  destruct (handle_error_harmless failing_start s' 1 [1] 1000 (run_random 1) m RelayError_Storage failing_start_ok I Hrun)
    as (_ & Hm & _).
  exact Hm.
Defined.

(** Connection 3 tries to allocate after the switch. *)
Definition disabled_after : RelayService MemoryMailboxStore :=
  (run_do 3 (ClientMessage_Allocate 0 None) (run_do 3 ClientMessage_Bind (disable_allocation run_stored)).1).1.

Lemma disabled_trace : rtc relay_step (disable_allocation run_stored) disabled_after.
Proof.
  assert (forall c m s0 s, message_typed m -> answered (run_do c m s).2 = true -> rtc relay_step s0 s ->
    rtc relay_step s0 (run_do c m s).1) as Hstep.
  { intros c m s0 s Hm Ha Hr. eapply rtc_r; [exact Hr|].
    eapply (rstep_handle _ _ c [c] 1000 (run_random c) m); [done|by apply run_result|].
    by destruct (run_do c m s) as [? []]. }
  unfold disabled_after. apply Hstep; [exact I|vm_compute; reflexivity|].
  apply Hstep; [exact I|vm_compute; reflexivity|]. apply rtc_refl.
Qed.

Lemma allocation_stays_disabled_witness :
  rc_allocation_enabled (rs_config disabled_after) = false /\
  forall id, is_Some (rs_mailboxes disabled_after !! id) -> is_Some (rs_mailboxes run_stored !! id).
Proof.
  apply (allocation_stays_disabled run_stored disabled_after (run_ok _ run_to_stored) disabled_trace).
Defined.

(** Both members hear of the expiry. *)
Lemma sweep_complete_witness :
  exists s' msgs, relay_sweep 5000 run_stored = (s', Ok (Some msgs)) /\
    (forall m, m ∈ msgs <-> told_expired 5000 run_stored m) /\ mailbox_count s' = 0 /\ length msgs = 2%nat.
Proof.
  destruct (sweep_complete run_stored 5000 (run_ok _ run_to_stored)) as (s' & msgs & Hrun & _ & Hmsg).
  exists s', msgs. split; [exact Hrun|]. split; [exact Hmsg|].
  assert (mailbox_count (relay_sweep 5000 run_stored).1 = 0) as Hc by (vm_compute; reflexivity).
  assert (match (relay_sweep 5000 run_stored).2 with Ok (Some l) => length l | _ => 0%nat end = 2%nat) as Hl
    by (vm_compute; reflexivity).
  rewrite Hrun in Hc, Hl. split; [exact Hc|exact Hl].
Defined.

Lemma emergency_close_complete_witness :
  exists s' msgs, emergency_close 1001 run_stored = (s', Ok msgs) /\ rc_allocation_enabled (rs_config s') = false /\
    length msgs = 2%nat.
Proof.
  destruct (emergency_close_complete run_stored 1001 (run_ok _ run_to_stored)) as (s' & msgs & Hrun & Hen & _).
  exists s', msgs. split; [exact Hrun|]. split; [exact Hen|].
  assert (match (emergency_close 1001 run_stored).2 with Ok l => length l | _ => 0%nat end = 2%nat) as Hl
    by (vm_compute; reflexivity).
  rewrite Hrun in Hl. exact Hl.
Defined.

(** An unbound connection. *)
Lemma handle_gate_witness :
  exists s', handle 9 [9] 1000 (run_random 9) ClientMessage_Ping run_stored =
    (s', Ok [route 9 (ServerMessage_Error 400)]) /\ data s' = data run_stored.
Proof.
  destruct (check Operation_Ping [9] 1000 (rs_limiter run_stored)) as [l o] eqn:Hc.
  assert ((check Operation_Ping [9] 1000 (rs_limiter run_stored)).2 = Ok (LimitDecision_Allowed 1)) as Hd
    by (vm_compute; reflexivity).
  rewrite Hc in Hd. simpl in Hd. subst o.
  destruct (handle_gate run_stored 9 [9] 1000 (run_random 9) ClientMessage_Ping l _ Hc) as (s' & Hrun & Hsame & _).
  - right. split; [vm_compute; reflexivity|discriminate].
  - exists s'. split; [exact Hrun|exact Hsame].
Defined.

Definition run_id : bytes := replicate 32 1.
Definition run_mailbox (s : RelayService MemoryMailboxStore) : Mailbox :=
  default stored_mailbox (rs_mailboxes s !! run_id).

Lemma run_mailbox_eq s : is_Some (rs_mailboxes s !! run_id) -> rs_mailboxes s !! run_id = Some (run_mailbox s).
Proof. intros [mb Hm]. unfold run_mailbox. by rewrite Hm. Qed.

(** An operation whose outcome evaluates to [o]. *)
Lemma run_outcome {T E A} (m : stM T E A) (s : T) (o : outcome E A) : (m s).2 = o -> m s = ((m s).1, o).
Proof. intros <-. by destruct (m s). Qed.

Lemma put_delivers_witness :
  exists s', handle 1 [1] 1000 (run_random 1) (ClientMessage_Put 0 [42]) run_paired =
    (s', Ok [route 1 (ServerMessage_Acknowledged 0); route 2 (ServerMessage_Frame 0 [42])]).
Proof.
  pose (sm := mkSessionMembership run_id Membership_Allocator).
  pose (mb := run_mailbox run_paired). pose (ms := mb_allocator mb).
  pose (mb' := set_member mb (se_membership sm) (store_frame ms [42]) (mb_queue_bytes mb + blen [42])).
  assert ((check Operation_Put [1] 1000 (rs_limiter run_paired)).2 = Ok (LimitDecision_Allowed 1)) as Hc%run_outcome
    by (vm_compute; reflexivity).
  assert ((store_put mb' (rs_store run_paired)).2 = Ok tt) as Hp%run_outcome by (vm_compute; reflexivity).
  destruct (put_delivers run_paired 1 [1] 1000 (run_random 1) _ 1 sm mb ms [42] (store_put mb' (rs_store run_paired)).1
    (run_ok _ run_to_paired) Hc)
    as (s' & Hrun & _).
  - vm_compute; reflexivity.
  - vm_compute; reflexivity.
  - apply run_mailbox_eq. vm_compute. eauto.
  - split; vm_compute; reflexivity.
  - reflexivity.
  - unfold body_size_ok, MAX_FRAME_BODY_BYTES, blen. simpl. lia.
  - vm_compute. lia.
  - vm_compute. discriminate.
  - exact Hp.
  - assert (ms_next_seq ms = 0) as Hseq by (vm_compute; reflexivity).
    assert (rs_routes run_paired !! route_key (mkSessionMembership (se_mailbox_id sm) (peer (se_membership sm))) = Some 2)
      as Hr by (vm_compute; reflexivity).
    rewrite Hseq, Hr in Hrun. exists s'. exact Hrun.
Defined.

Lemma claim_pairs_witness :
  exists s', handle 2 [2] 1000 (run_random 2) (ClientMessage_Claim (Locator_Nameplate 7)) run_waiting =
      (s', Ok [route 2 (ServerMessage_Claimed run_id (replicate 32 102) (mb_expires_at (run_mailbox run_waiting)))]) /\
    session 2 s' = Some (mkSessionMembership run_id Membership_Claimant).
Proof.
  pose (mb := run_mailbox run_waiting).
  pose (mb' := with_status (with_members mb (mb_allocator mb) (Some (new_member (token_hash (replicate 32 102))))
                 (mb_queue_bytes mb)) MailboxStatus_Paired AdmissionSnapshot_V1).
  assert ((check Operation_Claim [2] 1000 (rs_limiter run_waiting)).2 = Ok (LimitDecision_Allowed 1)) as Hc%run_outcome
    by (vm_compute; reflexivity).
  assert ((store_put mb' (rs_store run_waiting)).2 = Ok tt) as Hp%run_outcome by (vm_compute; reflexivity).
  destruct (claim_pairs run_waiting 2 [2] 1000 (run_random 2) _ 1 7 run_id mb (store_put mb' (rs_store run_waiting)).1
    (run_ok _ run_to_waiting) Hc)
    as (s' & Hrun & _ & _ & Hs).
  - vm_compute; reflexivity.
  - vm_compute; reflexivity.
  - vm_compute; reflexivity.
  - apply run_mailbox_eq. vm_compute. eauto.
  - split; vm_compute; reflexivity.
  - vm_compute; reflexivity.
  - vm_compute; reflexivity.
  - vm_compute; reflexivity.
  - exact Hp.
  - exists s'. split; [exact Hrun|exact Hs].
Defined.

Lemma run_counters : counters_ok (rs_observability run_paired).
Proof. split; [vm_compute; reflexivity|]. vm_compute. repeat constructor. Qed.

Lemma handle_counted_witness :
  counter (rs_observability run_stored) Operation_Put RelayOutcome_Success = 1 /\
  rm_gauges (relay_metrics run_stored) = mkRelayGauges 1 1 5 0.
Proof.
  assert ((run_do 1 (ClientMessage_Put 0 [42]) run_paired).2 =
    Ok [route 1 (ServerMessage_Acknowledged 0); route 2 (ServerMessage_Frame 0 [42])]) as Hr
    by (vm_compute; reflexivity).
  destruct (handle_counted run_paired run_stored 1 [1] 1000 (run_random 1) (ClientMessage_Put 0 [42]) _
    Operation_Put RelayOutcome_Success run_counters (run_result _ _ _ _ Hr)) as [Hcount Hgauge].
  rewrite Hcount, Hgauge. split; vm_compute; reflexivity.
Defined.

(** The first word is rejected, the second drawn. *)
Lemma sample_unbiased_witness :
  sample_nameplate (E := RelayError) (map Ok [4100000000; 1000000007]) = Some (Ok 7).
Proof.
  apply (sample_unbiased [4100000000; 1000000007] 7).
  - repeat constructor; unfold u32_max; lia.
  - split; [split; reflexivity || discriminate|]. exists [4100000000], 1, []. split; [reflexivity|].
    split; [lia|]. constructor; [discriminate|constructor].
Defined.
