(* ===== verification/RelayWire.v ===== *)
(** * The relay and the wire

    Everything the relay says can be put on the wire: its replies and notices
    are within the bounds of the schema, so encoding them never fails. *)

From S2P Require Import Prelude External Instances Wire Cddl WireCodec WireLaws WireThms WireProps Mailbox MailboxInv MailboxStep MailboxThms Limiter LimiterInv LimiterThms Observability Storage StorageLaws StorageProps Relay RelayInv RelaySafe RelayLoops RelayMessages RelayProps RelayRuns.

(** A server message that can be encoded. *)
Definition sendable (m : ServerMessage) : Prop := server_message_typed m /\ server_message_valid m.

Definition effect_sized (e : MailboxEffect) : Prop :=
  match e with
  | MailboxEffect_Deliver _ q body => sendable (ServerMessage_Frame q body)
  | MailboxEffect_Stored _ q _ => sendable (ServerMessage_Acknowledged q)
  | _ => True
  end.

Section Sizes.
Context `{Sha256}.

Lemma frame_sendable q body : 0 <= q <= 15 -> body_size_ok body -> sendable (ServerMessage_Frame q body).
Proof.
  unfold body_size_ok, MAX_FRAME_BODY_BYTES. intros. split; simpl; [unfold is_u8, u8_max; lia|lia].
Qed.
Lemma acknowledged_sendable q : 0 <= q <= 15 -> sendable (ServerMessage_Acknowledged q).
Proof. intros. split; simpl; [unfold is_u8, u8_max; lia|done]. Qed.

(** Sequence numbers are below the frame limit and bodies within their size. *)
Lemma step_sized mb now cmd t :
  mailbox_ok mb -> mailbox_step mb now cmd t -> forall e, e ∈ mt_effects t -> effect_sized e.
Proof.
  assert (forall mb, mailbox_ok mb -> forall m ms, member mb m = Some ms -> forall n f, ms_frames ms !! n = Some f ->
    0 <= Z.of_nat n <= 15) as Hseq.
  { intros mb0 Hok m ms Hm n f Hf. pose proof (member_ok_lookup _ _ _ Hok Hm) as [_ _ Hb].
    apply lookup_lt_Some in Hf. unfold MAX_FRAMES_PER_MEMBERSHIP in *. lia. }
  intros Hok Hstep e He. destruct Hstep; simpl in He.
  all: try (apply elem_of_app in He as [(? & ? & ->)%all_deleted_only|He]; [done|]).
  all: repeat case_match; try (by apply elem_of_nil in He); try (by apply list_elem_of_singleton in He as ->).
  - apply elem_of_cons in He as [->|(f & b & Hf & Hb & ->)%deliveries_only]; [done|].
    match goal with Hp : member mb (peer m) = Some ?p |- _ => rename Hp into Hmem end.
    pose proof (member_ok_lookup _ _ _ Hok Hmem) as [Hfs _ _]. apply list_elem_of_lookup in Hf as [i Hi].
    pose proof (Hseq _ Hok _ _ Hmem _ _ Hi). destruct (frames_ok_lookup _ _ _ _ Hfs Hi) as [Hs Hl Hbody].
    apply frame_sendable; [lia|]. destruct (Hbody b Hb) as [Hbl _]. unfold body_size_ok. by rewrite Hbl.
  - assert (0 <= ms_next_seq ms <= 15).
    { match goal with Hp : member mb sender = Some ms |- _ => pose proof (member_ok_lookup _ _ _ Hok Hp) as [_ Hn _] end.
      unfold MAX_FRAMES_PER_MEMBERSHIP in *. lia. }
    apply elem_of_cons in He as [->|He]; [by apply acknowledged_sendable|].
    apply list_elem_of_singleton in He as ->. by apply frame_sendable.
  - assert (0 <= ms_next_seq ms <= 15).
    { match goal with Hp : member mb sender = Some ms |- _ => pose proof (member_ok_lookup _ _ _ Hok Hp) as [_ Hn _] end.
      unfold MAX_FRAMES_PER_MEMBERSHIP in *. lia. }
    apply list_elem_of_singleton in He as ->. by apply acknowledged_sendable.
  - apply list_elem_of_singleton in He as ->. apply acknowledged_sendable. by eapply Hseq.
Qed.
End Sizes.

Section Replies.
Context {S : Type} `{MailboxStore S, Sha256, !Sha256Laws, HmacSha256}.
Implicit Types s : RelayService S.

Definition all_sendable (msgs : list RoutedMessage) : Prop := forall rm, rm ∈ msgs -> sendable (message rm).

Lemma reply_sendable c x s : sendable x -> says (reply c x) (fun msgs _ => all_sendable msgs) s.
Proof. intros Hx. apply wp_ret. by intros rm ->%list_elem_of_singleton. Qed.

Lemma error_sendable code : code ∈ [400; 404; 409; 410; 413; 429; 503] -> sendable (ServerMessage_Error code).
Proof.
  intros Hc. split; [|done]. simpl. unfold is_u16, u16_max. rewrite !elem_of_cons, elem_of_nil in Hc. lia.
Qed.
Lemma closed_sendable reason : sendable (ServerMessage_Closed reason).
Proof. done. Qed.
Lemma mailbox_error_sendable e : sendable (mailbox_error e).
Proof. destruct e; simpl; first [apply closed_sendable|apply error_sendable; set_solver]. Qed.

Ltac refuse := apply reply_sendable; first [apply mailbox_error_sendable | apply error_sendable; set_solver].

Lemma terminal_sendable id reason s : all_sendable (terminal_routes id reason s).
Proof. by intros rm (mem & c & _ & ->)%elem_of_terminal_routes. Qed.

Lemma closed_messages_sendable c id reason s :
  says (closed_messages c id reason) (fun msgs _ => all_sendable msgs) s.
Proof.
  apply wp_bind, wp_get, wp_ret. intros rm [Hin| ->%list_elem_of_singleton]%elem_of_deduplicate%elem_of_app; [|done].
  by eapply terminal_sendable.
Qed.

(** After any first step, only the continuation speaks. *)
Lemma then_sendable {A} (m : stM (RelayService S) RelayError A) (k : A -> stM (RelayService S) RelayError (list RoutedMessage)) s :
  (forall a s', says (k a) (fun msgs _ => all_sendable msgs) s') -> says (m ≫= k) (fun msgs _ => all_sendable msgs) s.
Proof. intros Hk. apply says_bind. eapply wp_mono; [apply says_true| |done]. intros a s' _. apply Hk. Qed.

Lemma claim_sendable c now token locator s :
  relay_ok s -> registry (rs_mailboxes s) -> length token = 32%nat ->
  says (relay_claim c now token locator) (fun msgs _ => all_sendable msgs) s.
Proof.
  intros Hok Hreg Htok. apply wp_bind, wp_get. case_bool_decide; [refuse|].
  destruct (resolve locator s) as [id|]; [|refuse]. cbv zeta. destruct (token_hash_exists _ s); [refuse|].
  destruct (rs_mailboxes s !! id) as [mb|] eqn:Hm; [|refuse].
  destruct (transition mb now _) as [t|e|] eqn:Ht; [|refuse|done].
  destruct (Hreg id mb Hm) as [[Hmok Hty] Hid]. apply transition_step in Ht as Hstep; [|done..].
  apply then_sendable. intros _ s1. destruct (find_map claimed_effect _) as [ex|] eqn:Hcl.
  - destruct (step_claimed _ _ _ _ _ Hstep Hcl) as (_ & _ & _ & ->). apply then_sendable. intros _ s2.
    apply reply_sendable. split; [|done]. simpl. rewrite <- Hid. split_and!; [apply Hty|done|apply Hty].
  - destruct (find_map terminal_effect _); [apply closed_messages_sendable|refuse].
Qed.

Lemma claim_v2_sendable c now token id ct s :
  relay_ok s -> registry (rs_mailboxes s) -> length token = 32%nat ->
  says (relay_claim_v2 c now token id ct) (fun msgs _ => all_sendable msgs) s.
Proof.
  intros Hok Hreg Htok. apply wp_bind, wp_get. case_bool_decide; [refuse|]. cbv zeta.
  destruct (token_hash_exists _ s); [refuse|].
  destruct (rs_mailboxes s !! id) as [mb|] eqn:Hm; [|refuse].
  destruct (transition mb now _) as [t|e|] eqn:Ht; [|refuse|done].
  destruct (Hreg id mb Hm) as [[Hmok Hty] Hid]. apply transition_step in Ht as Hstep; [|done..].
  apply then_sendable. intros _ s1. destruct (find_map claimed_effect _) as [ex|] eqn:Hcl; [|refuse].
  destruct (step_claimed _ _ _ _ _ Hstep Hcl) as (_ & _ & _ & ->). apply then_sendable. intros _ s2.
  apply reply_sendable. split; [|done]. simpl. rewrite <- Hid. split_and!; [apply Hty|done|apply Hty].
Qed.

Lemma open_sendable c now id token s :
  relay_ok s -> says (relay_open c now id token) (fun msgs _ => all_sendable msgs) s.
Proof.
  intros Hok. apply wp_bind, wp_get. destruct (rs_mailboxes s !! id) as [mb|] eqn:Hm; [|refuse].
  destruct (transition mb now _) as [t|e|] eqn:Ht; [|refuse|done].
  destruct (ix_ok _ _ _ _ _ (ro_indexed _ Hok) id mb Hm) as (Hmok & _ & _).
  apply transition_step in Ht as Hstep; [|done..]. apply then_sendable. intros _ s1.
  destruct (find_map opened_effect _).
  - apply then_sendable. intros _ s2. apply wp_ret. intros rm (e & He & Hrm)%list_elem_of_omap.
    destruct e; simplify_eq. by apply (step_sized _ _ _ _ Hmok Hstep) in He.
  - destruct (find_map terminal_effect _); [apply closed_messages_sendable|refuse].
Qed.

Lemma member_command_sendable c now k s :
  relay_ok s -> kind_typed k -> says (member_command c now k) (fun msgs _ => all_sendable msgs) s.
Proof.
  intros Hok Hk. apply wp_bind, wp_get. destruct (session c s) as [sm|]; [|refuse].
  destruct (rs_mailboxes s !! se_mailbox_id sm) as [mb|] eqn:Hm; [|refuse].
  destruct (ix_ok _ _ _ _ _ (ro_indexed _ Hok) _ mb Hm) as (Hmok & _ & _).
  destruct (transition mb now _) as [t|e|] eqn:Ht; [|refuse|done].
  apply transition_step in Ht as Hstep; [|done|by apply kind_command_typed].
  pose proof (step_sized _ _ _ _ Hmok Hstep) as Hsz. destruct (_ <? _); [refuse|]. cbv zeta.
  apply then_sendable. intros _ s1. apply wp_ret. intros rm [Hin|Hin]%elem_of_deduplicate%elem_of_app.
  - unfold acknowledgement in Hin. destruct k as [seq body| |]; [|by apply elem_of_nil in Hin..].
    destruct (existsb _ _) eqn:Hex; [|by apply elem_of_nil in Hin]. apply list_elem_of_singleton in Hin as ->.
    apply existsb_exists in Hex as (e & He%list_elem_of_In & Hq). destruct e; try done. bool_to_prop. subst.
    apply (Hsz _ He).
  - apply list_elem_of_bind in Hin as (e & Hin & He). specialize (Hsz _ He). destruct e; simpl in Hin; try (by apply elem_of_nil in Hin).
    + destruct (rs_routes s !! _); [|by apply elem_of_nil in Hin]. by apply list_elem_of_singleton in Hin as ->.
    + by eapply terminal_sendable.
Qed.

Lemma allocated_fields now r m mb : inputs_typed now r m -> allocated_by now r m mb -> is_u64 (mb_expires_at mb).
Proof. intros Hin Hal. apply (ty_expires _ (proj2 (allocated_storable _ _ _ _ Hin Hal))). Qed.

Lemma allocate_sendable c now r mode ttl s :
  inputs_typed now r (ClientMessage_Allocate mode ttl) -> length (rr_membership_token r) = 32%nat ->
  says (relay_allocate c now r mode ttl) (fun msgs _ => all_sendable msgs) s.
Proof.
  intros Hin Htok. apply wp_bind, wp_get. repeat (case_match; [refuse|]).
  destruct (choose_nameplate _ _ _) as [np|code|] eqn:Hnp; [| |done].
  - destruct (allocate _) as [mb|e|] eqn:Hal; [|refuse|done]. apply then_sendable. intros _ s1.
    apply reply_sendable. destruct (in_id _ _ _ Hin) as [Hid _].
    assert (optionally (fun n => 0 <= n <= 999999999) np) as Hn.
    { intros n ->. pose proof (in_nameplate _ _ _ Hin). unfold choose_nameplate in Hnp.
      repeat case_match; simplify_eq. bool_to_prop. unfold MAX_NAMEPLATE in *. lia. }
    assert (np = None \/ np = Some (rr_nameplate r)) as Hnpc.
    { unfold choose_nameplate in Hnp. repeat case_match; simplify_eq; auto. }
    split; simpl; [|done]. split_and!; [done|done| |].
    + intros n Hsn. destruct (Hn n Hsn). unfold is_u32, u32_max. lia.
    + eapply allocated_fields; [exact Hin|]. simpl. eauto.
  - apply reply_sendable, error_sendable. unfold choose_nameplate in Hnp. repeat case_match; simplify_eq; set_solver.
Qed.

Lemma allocate_v2_sendable c now r id cm ttl s :
  inputs_typed now r (ClientMessage_AllocateV2 id cm ttl) -> length (rr_membership_token r) = 32%nat ->
  says (relay_allocate_v2 c now (rr_membership_token r) id cm ttl) (fun msgs _ => all_sendable msgs) s.
Proof.
  intros Hin Htok. apply wp_bind, wp_get. repeat (case_match; [refuse|]).
  destruct (allocate_v2 _) as [mb|e|] eqn:Hal; [|refuse|done]. apply then_sendable. intros _ s1.
  apply reply_sendable. destruct (in_v2 _ _ _ Hin _ _ _ eq_refl) as [[Hid _] _]. split; [|done]. simpl.
  split_and!; [done|done|]. eapply allocated_fields; [exact Hin|exact Hal].
Qed.

Lemma dispatch_sendable c now r m s :
  relay_ok s -> registry (rs_mailboxes s) -> inputs_typed now r m -> length (rr_membership_token r) = 32%nat ->
  says (dispatch c now r m) (fun msgs _ => all_sendable msgs) s.
Proof.
  intros Hok Hreg Hin Htok. apply wp_bind, wp_get. pose proof (in_message _ _ _ Hin) as Hty. destruct m.
  1: { apply then_sendable. intros _ s1. by apply reply_sendable. }
  all: destruct (negb _); [refuse|].
  - by apply allocate_sendable.
  - by apply claim_sendable.
  - by apply allocate_v2_sendable.
  - by apply claim_v2_sendable.
  - by apply open_sendable.
  - by apply member_command_sendable.
  - by apply member_command_sendable.
  - by apply member_command_sendable.
  - by apply reply_sendable.
Qed.
Lemma handle_sendable s s' c a now r m msgs : relay_ok s -> registry (rs_mailboxes s) -> inputs_typed now r m ->
  length (rr_membership_token r) = 32%nat -> handle c a now r m s = (s', Ok msgs) -> all_sendable msgs.
Proof.
  intros Hok Hreg Hin Htok Hrun.
  assert (says (handle c a now r m) (fun msgs _ => all_sendable msgs) s) as Hw; [|by apply (wp_run _ _ _ _ _ _ _ Hw) in Hrun].
  apply wp_bind, wp_zoom. unfold wp. destruct (check _ _ _ _) as [l [d|e|]] eqn:Hd; [|done..].
  apply check_ok in Hd as (Hl & _); [|apply Hok]. pose proof (relay_ok_limiter l s Hok Hl) as Hok1. destruct d.
  - apply wp_bind. eapply wp_mono; [apply (dispatch_sendable _ _ _ _ _ Hok1 Hreg Hin Htok)| |done].
    intros ms s1 Hj. by apply wp_ret.
  - apply wp_ret. intros rm ->%list_elem_of_singleton. apply error_sendable. set_solver.
Qed.
End Replies.

Lemma sendable_written `{Cbor, Cddl, !CborLaws, !CddlLaws} m : sendable m ->
  exists b, encode_server_message m = Ok b /\ decode_server_message b = Ok m.
Proof.
  intros [Hty Hval]. destruct (proj2 (server_encodable m Hty) Hval) as [b Hb]. exists b. split; [done|].
  by apply (codec_roundtrip "server-message" server_message_rule _ server_message_entries server_message_typed).
Qed.

(** C39. The relay's answers fit the wire: every message a command produces, to
    the sender or to a peer, can be encoded, and what a client decodes from
    those octets is that message; for every CBOR implementation and CDDL
    validator that satisfy their laws. *)
Theorem replies_encodable {S} `{MailboxStore S, Sha256, !Sha256Laws, HmacSha256, Cbor, Cddl, !CborLaws, !CddlLaws}
    (s s' : RelayService S) c a now r m msgs rm :
  relay_ok s -> registry (rs_mailboxes s) -> inputs_typed now r m -> length (rr_membership_token r) = 32%nat ->
  handle c a now r m s = (s', Ok msgs) -> rm ∈ msgs ->
  exists b, encode_server_message (message rm) = Ok b /\ decode_server_message b = Ok (message rm).
Proof.
  intros Hok Hreg Hin Htok Hrun Hrm. by eapply sendable_written, handle_sendable.
Qed.

(** ** A concrete run *)

#[local] Existing Instance schema_validator.
#[local] Existing Instance schema_validator_laws.

Lemma run_registered : registry (rs_mailboxes run_paired).
Proof.
  destruct (start_durable run_config (mkMemoryMailboxStore ∅) ∅ run_start run_config_typed run_holds run_registry
    run_started) as (Hd & _). apply (steady_run_durable _ _ Hd run_to_paired).
Qed.

(** The body sent in the paired run. *)
Lemma replies_encodable_witness :
  exists b, encode_server_message (ServerMessage_Frame 0 [42]) = Ok b /\
    decode_server_message b = Ok (ServerMessage_Frame 0 [42]).
Proof.
  assert ((run_do 1 (ClientMessage_Put 0 [42]) run_paired).2 =
    Ok [route 1 (ServerMessage_Acknowledged 0); route 2 (ServerMessage_Frame 0 [42])]) as Hr
    by (vm_compute; reflexivity).
  apply (replies_encodable run_paired (run_do 1 (ClientMessage_Put 0 [42]) run_paired).1 1 [1] 1000 (run_random 1)
    (ClientMessage_Put 0 [42]) [route 1 (ServerMessage_Acknowledged 0); route 2 (ServerMessage_Frame 0 [42])]
    (route 2 (ServerMessage_Frame 0 [42])) (run_ok _ run_to_paired) run_registered).
  - apply run_inputs; [lia|simpl; unfold u8_max; lia|done].
  - reflexivity.
  - exact (run_result _ _ _ _ Hr).
  - right. left.
Defined.
