(* ===== verification/CurveExternal.v ===== *)
(** * Interfaces of the curve arithmetic

    The field operations of [fiat_crypto::curve25519_64] and the X25519
    function of [x25519_dalek], as operational classes with the laws their
    documentation states, and executable instances over [Z]. *)

From S2P Require Import Prelude.

(** The field's prime. *)
Definition curve_p : Z := 2 ^ 255 - 19.

Lemma curve_p_bound : 0 < curve_p < 2 ^ 255.
Proof. done. Qed.

(** Little-endian octets. *)
Fixpoint le_value (b : bytes) : Z := match b with [] => 0 | x :: b => x + 256 * le_value b end.
Fixpoint le_bytes (n : nat) (z : Z) : bytes :=
  match n with O => [] | S n => z mod 256 :: le_bytes n (z / 256) end.

Definition octets (n : nat) (b : bytes) : Prop := length b = n /\ Forall (fun x => 0 <= x < 256) b.

(** A field element in five limbs of radix [2^51]. *)
Abbreviation limbs := (list Z).
Fixpoint limb_value (l : limbs) : Z := match l with [] => 0 | x :: l => x + 2 ^ 51 * limb_value l end.
(** The bounds of the crate's tight and loose representations. *)
Definition bounded_limbs (max : Z) (l : limbs) : Prop := length l = 5%nat /\ Forall (fun x => 0 <= x <= max) l.
Definition tight : limbs -> Prop := bounded_limbs (2 ^ 51).
Definition loose : limbs -> Prop := bounded_limbs (3 * 2 ^ 51).

Class Fiat25519 := {
  fiat_from_bytes : bytes -> limbs;
  fiat_to_bytes : limbs -> bytes;
  fiat_add : limbs -> limbs -> limbs;
  fiat_sub : limbs -> limbs -> limbs;
  fiat_opp : limbs -> limbs;
  fiat_carry : limbs -> limbs;
  fiat_relax : limbs -> limbs;
  fiat_carry_mul : limbs -> limbs -> limbs;
  fiat_carry_square : limbs -> limbs
}.

(** Each operation's documented pre- and postcondition. *)
Class Fiat25519Laws `{Fiat25519} : Prop := {
  from_bytes_value b : octets 32 b -> le_value b < 2 ^ 255 ->
    tight (fiat_from_bytes b) /\ limb_value (fiat_from_bytes b) mod curve_p = le_value b mod curve_p;
  to_bytes_value x : tight x -> fiat_to_bytes x = le_bytes 32 (limb_value x mod curve_p);
  add_value x y : tight x -> tight y ->
    loose (fiat_add x y) /\ limb_value (fiat_add x y) mod curve_p = (limb_value x + limb_value y) mod curve_p;
  sub_value x y : tight x -> tight y ->
    loose (fiat_sub x y) /\ limb_value (fiat_sub x y) mod curve_p = (limb_value x - limb_value y) mod curve_p;
  opp_value x : tight x ->
    loose (fiat_opp x) /\ limb_value (fiat_opp x) mod curve_p = (- limb_value x) mod curve_p;
  carry_value x : loose x ->
    tight (fiat_carry x) /\ limb_value (fiat_carry x) mod curve_p = limb_value x mod curve_p;
  relax_value x : tight x -> loose (fiat_relax x) /\ limb_value (fiat_relax x) mod curve_p = limb_value x mod curve_p;
  mul_value x y : loose x -> loose y ->
    tight (fiat_carry_mul x y) /\
    limb_value (fiat_carry_mul x y) mod curve_p = (limb_value x * limb_value y) mod curve_p;
  square_value x : loose x ->
    tight (fiat_carry_square x) /\
    limb_value (fiat_carry_square x) mod curve_p = (limb_value x * limb_value x) mod curve_p
}.

(** [x25519(scalar, point)]: scalar multiplication on u-coordinates. *)
Class X25519 := x25519 : bytes -> bytes -> bytes.
Class X25519Laws `{X25519} : Prop := {
  x25519_octets k u : octets 32 (x25519 k u);
  x25519_comm a b u : x25519 a (x25519 b u) = x25519 b (x25519 a u)
}.

(** ** Octets *)

Lemma le_bytes_octets n z : octets n (le_bytes n z).
Proof.
  revert z. induction n as [|n IH]; intros z; simpl; [by split|].
  destruct (IH (z / 256)) as [Hl Hf]. split; simpl; [by rewrite Hl|].
  constructor; [apply Z.mod_pos_bound; lia|done].
Qed.

Lemma le_value_bytes n z : 0 <= z < 256 ^ Z.of_nat n -> le_value (le_bytes n z) = z.
Proof.
  revert z. induction n as [|n IH]; intros z Hz; [simpl in *; lia|].
  rewrite Nat2Z.inj_succ, Z.pow_succ_r in Hz by lia. simpl. rewrite IH.
  - pose proof (Z.div_mod z 256). lia.
  - split; [apply Z.div_pos; lia|apply Z.div_lt_upper_bound; lia].
Qed.

Lemma le_value_bound b : Forall (fun x => 0 <= x < 256) b -> 0 <= le_value b < 256 ^ Z.of_nat (length b).
Proof.
  induction 1 as [|x b Hx _ IH]; simpl; [lia|]. rewrite Nat2Z.inj_succ, Z.pow_succ_r by lia. lia.
Qed.

Lemma le_bytes_value b : Forall (fun x => 0 <= x < 256) b -> le_bytes (length b) (le_value b) = b.
Proof.
  induction 1 as [|x b Hx _ IH]; simpl; [done|].
  rewrite (Z.mul_comm 256), Z.mod_add, Z.mod_small, Z.div_add, Z.div_small, Z.add_0_l, IH by lia. done.
Qed.

(** ** Instances *)

Fixpoint to_limbs (n : nat) (z : Z) : limbs :=
  match n with O => [] | S n => Z.land z (Z.ones 51) :: to_limbs n (Z.shiftr z 51) end.

Lemma limb_split z : Z.land z (Z.ones 51) = z mod 2 ^ 51 /\ Z.shiftr z 51 = z / 2 ^ 51.
Proof. by rewrite Z.land_ones, Z.shiftr_div_pow2. Qed.

Lemma to_limbs_value n z : 0 <= z < 2 ^ (51 * Z.of_nat n) -> limb_value (to_limbs n z) = z.
Proof.
  revert z. induction n as [|n IH]; intros z Hz; [simpl in *; lia|].
  replace (51 * Z.of_nat (S n)) with (51 + 51 * Z.of_nat n) in Hz by lia. rewrite Z.pow_add_r in Hz by lia.
  cbn [to_limbs limb_value]. destruct (limb_split z) as [-> ->]. rewrite IH.
  - pose proof (Z.div_mod z (2 ^ 51)). lia.
  - split; [apply Z.div_pos; lia|apply Z.div_lt_upper_bound; lia].
Qed.

Lemma to_limbs_tight n z max : 2 ^ 51 <= max -> length (to_limbs n z) = n /\ Forall (fun x => 0 <= x <= max) (to_limbs n z).
Proof.
  intros Hm. revert z. induction n as [|n IH]; intros z; [by split|]. cbn [to_limbs length].
  destruct (limb_split z) as [-> ->], (IH (z / 2 ^ 51)) as [Hl Hf]. split; [by rewrite Hl|]. constructor; [|done]. pose proof (Z.mod_pos_bound z (2 ^ 51)). lia.
Qed.

(** The canonical representative of a number: [2^255] is [19]. *)
Definition fold_top (z : Z) : Z := Z.land z (Z.ones 255) + 19 * Z.shiftr z 255.
Definition reduce (z : Z) : Z :=
  let y := fold_top (fold_top z) in if (0 <=? y) && (y <? curve_p) then y else y mod curve_p.

Lemma fold_top_mod z : fold_top z mod curve_p = z mod curve_p.
Proof.
  unfold fold_top. rewrite Z.land_ones, Z.shiftr_div_pow2 by lia.
  rewrite (Z.div_mod z (2 ^ 255)) at 3 by lia.
  replace (2 ^ 255 * (z / 2 ^ 255) + z mod 2 ^ 255)
    with (z mod 2 ^ 255 + 19 * (z / 2 ^ 255) + z / 2 ^ 255 * curve_p) by (unfold curve_p; lia).
  symmetry. by apply Z.mod_add.
Qed.
Lemma reduce_mod z : reduce z = z mod curve_p.
Proof.
  unfold reduce. rewrite <- (fold_top_mod z), <- (fold_top_mod (fold_top z)).
  destruct (_ && _) eqn:Hb; [|done]. apply andb_true_iff in Hb as [H0 H1].
  apply Z.leb_le in H0. apply Z.ltb_lt in H1. by rewrite Z.mod_small.
Qed.

Definition residue (z : Z) : limbs := to_limbs 5 (reduce z).

Lemma residue_value z : limb_value (residue z) mod curve_p = z mod curve_p.
Proof.
  unfold residue. rewrite reduce_mod, to_limbs_value; [by rewrite Z.mod_mod|].
  pose proof (Z.mod_pos_bound z curve_p). pose proof curve_p_bound. simpl. lia.
Qed.
Lemma residue_bounded z max : 2 ^ 51 <= max -> bounded_limbs max (residue z).
Proof. intros Hm. by apply to_limbs_tight. Qed.

#[export] Instance residues : Fiat25519 := {|
  fiat_from_bytes b := residue (le_value b);
  fiat_to_bytes x := le_bytes 32 (limb_value x mod curve_p);
  fiat_add x y := residue (limb_value x + limb_value y);
  fiat_sub x y := residue (limb_value x - limb_value y);
  fiat_opp x := residue (- limb_value x);
  fiat_carry x := residue (limb_value x);
  fiat_relax x := residue (limb_value x);
  fiat_carry_mul x y := residue (limb_value x * limb_value y);
  fiat_carry_square x := residue (limb_value x * limb_value x)
|}.

#[export] Instance residues_laws : Fiat25519Laws.
Proof.
  split; intros; simpl; try done; (split; [apply residue_bounded; lia|apply residue_value]).
Qed.

(** Multiplication modulo the prime stands for the group operation. *)
#[export] Instance residue_x25519 : X25519 := fun k u => le_bytes 32 ((le_value k * le_value u) mod curve_p).

#[export] Instance residue_x25519_laws : X25519Laws.
Proof.
  assert (forall z, le_value (le_bytes 32 (z mod curve_p)) = z mod curve_p) as Hle.
  { intros z. apply le_value_bytes. pose proof (Z.mod_pos_bound z curve_p).
    pose proof curve_p_bound. change (256 ^ Z.of_nat 32) with (2 ^ 256). lia. }
  split; intros; unfold x25519, residue_x25519; [apply le_bytes_octets|].
  rewrite !Hle, !Z.mul_mod_idemp_r by done. do 2 f_equal. lia.
Qed.
