(* ===== verification/Field.v ===== *)
(** * The Elligator map ([src/cpace/field.rs])

    A field element wraps a tight limb representation; every operation relaxes
    and carries as the source does.  The lemmas relate limb arithmetic to
    arithmetic modulo the prime. *)

From Stdlib Require Import Zpow_facts.
From S2P Require Import Prelude CurveExternal.

Definition ONE : limbs := [1; 0; 0; 0; 0].
Definition CURVE_A : limbs := [486662; 0; 0; 0; 0].
Definition CURVE_A_OVER_TWO : limbs := [243331; 0; 0; 0; 0].

Definition P_MINUS_TWO : bytes := 235 :: replicate 30 255 ++ [127].
Definition P_MINUS_ONE_OVER_TWO : bytes := 246 :: replicate 30 255 ++ [63].

Section Field.
Context `{Fiat25519}.

Definition fe_from_bytes (b : bytes) : limbs := fiat_from_bytes b.
Definition fe_to_bytes (x : limbs) : bytes := fiat_to_bytes x.
Definition fe_add (x y : limbs) : limbs := fiat_carry (fiat_add x y).
Definition fe_sub (x y : limbs) : limbs := fiat_carry (fiat_sub x y).
Definition fe_neg (x : limbs) : limbs := fiat_carry (fiat_opp x).
Definition fe_mul (x y : limbs) : limbs := fiat_carry_mul (fiat_relax x) (fiat_relax y).
Definition fe_square (x : limbs) : limbs := fiat_carry_square (fiat_relax x).

(** The bits of one octet, from bit 7 down. *)
Definition pow_bit (x : limbs) (byte : Z) (result : limbs) (bit : Z) : limbs :=
  let result := fe_square result in
  if Z.land byte (Z.shiftl 1 bit) =? 0 then result else fe_mul result x.
Definition pow_byte (x result : limbs) (byte : Z) : limbs :=
  fold_left (pow_bit x byte) [7; 6; 5; 4; 3; 2; 1; 0] result.
(** The octets of the exponent, from the most significant down. *)
Definition fe_pow (x : limbs) (exponent : bytes) : limbs := fold_left (pow_byte x) (rev exponent) ONE.
Definition fe_invert (x : limbs) : limbs := fe_pow x P_MINUS_TWO.

(** [representative[31] &= 0x7f]. *)
Definition mask_last (b : bytes) : bytes := alter (fun x => Z.land x 127) 31%nat b.

Definition elligator2_curve25519 (representative : bytes) : bytes :=
  let r := fe_from_bytes (mask_last representative) in
  let denominator := fe_add ONE (fe_mul (fe_add ONE ONE) (fe_square r)) in
  let v := fe_mul (fe_neg CURVE_A) (fe_invert denominator) in
  let curve_equation := fe_mul v (fe_add (fe_add (fe_square v) (fe_mul CURVE_A v)) ONE) in
  let epsilon := fe_pow curve_equation P_MINUS_ONE_OVER_TWO in
  fe_to_bytes (fe_sub (fe_mul epsilon v) (fe_mul (fe_sub ONE epsilon) CURVE_A_OVER_TWO)).
End Field.

(** ** The Elligator map computes its formula

    Limb arithmetic against arithmetic modulo the prime: square-and-multiply
    is exponentiation, and the map is the formula of RFC 9380, 6.7.1, read over
    the integers. *)

Section Representation.
Context `{Fiat25519, !Fiat25519Laws}.

(** The limbs [x] represent the residue of [z]. *)
Definition represents (x : limbs) (z : Z) : Prop := tight x /\ limb_value x mod curve_p = z mod curve_p.

Lemma represents_congr x z w : represents x z -> z mod curve_p = w mod curve_p -> represents x w.
Proof. intros [Hx Hz] Hw. split; congruence. Qed.

Lemma constant_represents c : 0 <= c <= 2 ^ 51 -> represents [c; 0; 0; 0; 0] c.
Proof.
  intros Hc. split; [|simpl; f_equal; lia]. split; [done|].
  repeat (apply Forall_cons; split; [lia|]). by apply Forall_nil.
Qed.

(** One operation followed by its carry. *)
Lemma carried x z : loose x -> limb_value x mod curve_p = z mod curve_p -> represents (fiat_carry x) z.
Proof. intros Hx Hz. destruct (carry_value x Hx) as [Ht Hv]. split; [done|congruence]. Qed.

Lemma fe_add_represents x y z w : represents x z -> represents y w -> represents (fe_add x y) (z + w).
Proof.
  intros [Hx Hz] [Hy Hw]. destruct (add_value x y Hx Hy) as [Hl Hv]. apply carried; [done|].
  by rewrite Hv, Z.add_mod, Hz, Hw, <- Z.add_mod.
Qed.
Lemma fe_sub_represents x y z w : represents x z -> represents y w -> represents (fe_sub x y) (z - w).
Proof.
  intros [Hx Hz] [Hy Hw]. destruct (sub_value x y Hx Hy) as [Hl Hv]. apply carried; [done|].
  by rewrite Hv, Zminus_mod, Hz, Hw, <- Zminus_mod.
Qed.
Lemma fe_neg_represents x z : represents x z -> represents (fe_neg x) (- z).
Proof.
  intros [Hx Hz]. destruct (opp_value x Hx) as [Hl Hv]. apply carried; [done|].
  rewrite Hv, <- !Z.sub_0_l, Zminus_mod, Hz. by rewrite <- Zminus_mod.
Qed.
Lemma fe_mul_represents x y z w : represents x z -> represents y w -> represents (fe_mul x y) (z * w).
Proof.
  intros [Hx Hz] [Hy Hw]. destruct (relax_value x Hx) as [Hlx Hvx], (relax_value y Hy) as [Hly Hvy].
  destruct (mul_value _ _ Hlx Hly) as [Ht Hv]. split; [done|]. unfold fe_mul.
  by rewrite Hv, Z.mul_mod, Hvx, Hvy, Hz, Hw, <- Z.mul_mod.
Qed.
Lemma fe_square_represents x z : represents x z -> represents (fe_square x) (z * z).
Proof.
  intros [Hx Hz]. destruct (relax_value x Hx) as [Hlx Hvx].
  destruct (square_value _ Hlx) as [Ht Hv]. split; [done|]. unfold fe_square.
  by rewrite Hv, Z.mul_mod, Hvx, Hz, <- Z.mul_mod.
Qed.

(** ** Square and multiply *)

Definition bit_of (byte bit : Z) : Z := if Z.land byte (Z.shiftl 1 bit) =? 0 then 0 else 1.

Lemma pow_bit_represents x z byte acc n bit : represents x z -> 0 <= n -> represents acc (z ^ n) ->
  represents (pow_bit x byte acc bit) (z ^ (2 * n + bit_of byte bit)).
Proof.
  intros Hx Hn Hacc. unfold pow_bit, bit_of. apply fe_square_represents in Hacc.
  rewrite <- Z.pow_add_r in Hacc by lia. replace (n + n) with (2 * n) in Hacc by lia.
  destruct (_ =? 0); [by rewrite Z.add_0_r|].
  rewrite Z.pow_add_r, Z.pow_1_r by lia. by apply fe_mul_represents.
Qed.

(** An octet is the number its bits spell. *)
Definition spell (byte : Z) (bits : list Z) (n : Z) : Z := fold_left (fun n bit => 2 * n + bit_of byte bit) bits n.

Lemma spell_octet byte n : 0 <= byte < 256 -> spell byte [7; 6; 5; 4; 3; 2; 1; 0] n = 256 * n + byte.
Proof.
  intros Hb. assert (spell byte [7; 6; 5; 4; 3; 2; 1; 0] 0 = byte) as Hs.
  { assert (Forall (fun b => spell b [7; 6; 5; 4; 3; 2; 1; 0] 0 = b) (seqZ 0 256)) as Hall.
    { apply (bool_decide_unpack _). vm_compute. exact I. }
    rewrite Forall_forall in Hall. apply Hall, elem_of_seqZ. lia. }
  rewrite <- Hs at 2. unfold spell. simpl. lia.
Qed.

Lemma bits_represent x z byte bits : represents x z -> forall acc n, 0 <= n -> represents acc (z ^ n) ->
  0 <= spell byte bits n /\ represents (fold_left (pow_bit x byte) bits acc) (z ^ spell byte bits n).
Proof.
  intros Hx. induction bits as [|bit bits IH]; intros acc n Hn Hacc; [done|].
  simpl. apply IH; [unfold bit_of; destruct (_ =? 0); lia|]. by apply pow_bit_represents.
Qed.

Lemma bytes_represent x z bs : represents x z -> Forall (fun b => 0 <= b < 256) bs ->
  represents (fold_left (pow_byte x) (rev bs) ONE) (z ^ le_value bs).
Proof.
  intros Hx. induction 1 as [|b bs Hb Hbs IH]; simpl.
  - rewrite Z.pow_0_r. by apply constant_represents.
  - rewrite fold_left_app. simpl. pose proof (le_value_bound bs Hbs) as Hn.
    destruct (bits_represent x z b [7; 6; 5; 4; 3; 2; 1; 0] Hx _ _ (proj1 Hn) IH) as [_ Hr].
    rewrite spell_octet in Hr by done. by rewrite Z.add_comm in Hr.
Qed.

Lemma fe_pow_represents x z e : represents x z -> Forall (fun b => 0 <= b < 256) e ->
  represents (fe_pow x e) (z ^ le_value e).
Proof. apply bytes_represent. Qed.

Lemma fe_invert_represents x z : represents x z -> represents (fe_invert x) (z ^ (curve_p - 2)).
Proof.
  intros Hx. replace (curve_p - 2) with (le_value P_MINUS_TWO) by (by vm_compute).
  apply fe_pow_represents; [done|]. apply (bool_decide_unpack _). by vm_compute.
Qed.
End Representation.

(** ** The reference map *)

(** RFC 9380, 6.7.1, with inversion and the quadratic character as powers. *)
Definition elligator_candidate (r : Z) : Z := - 486662 * (1 + 2 * (r * r)) ^ (curve_p - 2).
Definition elligator_character (r : Z) : Z :=
  let v := elligator_candidate r in
  (v * (v * v + 486662 * v + 1)) ^ ((curve_p - 1) / 2).
Definition elligator_reference (r : Z) : Z :=
  let v := elligator_candidate r in
  let e := elligator_character r in
  (e * v - (1 - e) * 243331) mod curve_p.

Lemma mask_last_value b : octets 32 b ->
  octets 32 (mask_last b) /\ le_value (mask_last b) = le_value b mod 2 ^ 255.
Proof.
  intros [Hl Hf]. destruct (exists_last (l := b)) as (front & x & ->); [by destruct b|].
  rewrite length_app in Hl. simpl in Hl. assert (length front = 31%nat) as Hfl by lia.
  apply Forall_app in Hf as [Hff Hx%Forall_singleton].
  assert (mask_last (front ++ [x]) = front ++ [Z.land x 127]) as ->.
  { unfold mask_last. rewrite <- Hfl, list.alter_app_r_alt, Nat.sub_diag by lia; done. }
  assert (Z.land x 127 = x mod 128) as -> by (change 127 with (Z.ones 7); by rewrite Z.land_ones).
  pose proof (Z.mod_pos_bound x 128).
  split; [split; [rewrite length_app; simpl; lia|apply Forall_app; split; [done|]; apply Forall_singleton; lia]|].
  assert (forall y, le_value (front ++ [y]) = le_value front + 2 ^ 248 * y) as Happ.
  { intros y. replace 248 with (8 * Z.of_nat (length front)) by (rewrite Hfl; lia). clear.
    induction front as [|a front IH]; simpl length; simpl app; simpl le_value; [simpl; lia|].
    rewrite IH, Nat2Z.inj_succ. replace (8 * Z.succ (Z.of_nat (length front))) with (8 + 8 * Z.of_nat (length front)) by lia.
    rewrite (Z.pow_add_r 2 8) by lia. simpl (2 ^ 8). lia. }
  rewrite !Happ. pose proof (le_value_bound front Hff) as Hb. rewrite Hfl in Hb.
  change (256 ^ Z.of_nat 31) with (2 ^ 248) in Hb.
  rewrite (Z.div_mod x 128) at 2 by lia.
  replace (le_value front + 2 ^ 248 * (128 * (x / 128) + x mod 128))
    with (le_value front + 2 ^ 248 * (x mod 128) + x / 128 * 2 ^ 255).
  - rewrite Z.mod_add by done. rewrite (Z.mod_small (_ + _)); [done|].
    change (2 ^ 255) with (2 ^ 248 * 128). nia.
  - change (2 ^ 255) with (2 ^ 248 * 128). lia.
Qed.

Section Map.
Context `{Fiat25519, !Fiat25519Laws}.

Lemma elligator_represents x r : represents x r ->
  let denominator := fe_add ONE (fe_mul (fe_add ONE ONE) (fe_square x)) in
  let v := fe_mul (fe_neg CURVE_A) (fe_invert denominator) in
  let curve_equation := fe_mul v (fe_add (fe_add (fe_square v) (fe_mul CURVE_A v)) ONE) in
  let epsilon := fe_pow curve_equation P_MINUS_ONE_OVER_TWO in
  represents (fe_sub (fe_mul epsilon v) (fe_mul (fe_sub ONE epsilon) CURVE_A_OVER_TWO)) (elligator_reference r).
Proof.
  intros Hx. intros denominator v curve_equation epsilon.
  assert (represents ONE 1) as Hone by (by apply constant_represents).
  assert (represents CURVE_A 486662) as Ha by (by apply constant_represents).
  assert (represents CURVE_A_OVER_TWO 243331) as Hh by (by apply constant_represents).
  assert (represents denominator (1 + 2 * (r * r))) as Hd.
  { apply fe_add_represents; [done|]. apply (fe_mul_represents _ _ (1 + 1)); [by apply fe_add_represents|].
    by apply fe_square_represents. }
  assert (represents v (elligator_candidate r)) as Hv.
  { apply (fe_mul_represents _ _ (- 486662)); [by apply (fe_neg_represents _ 486662)|by apply fe_invert_represents]. }
  assert (represents epsilon (elligator_character r)) as He.
  { unfold epsilon, elligator_character.
    replace ((curve_p - 1) / 2) with (le_value P_MINUS_ONE_OVER_TWO) by (by vm_compute).
    apply fe_pow_represents; [|apply (bool_decide_unpack _); by vm_compute].
    apply fe_mul_represents; [done|]. apply fe_add_represents; [|done].
    apply fe_add_represents; [by apply fe_square_represents|by apply fe_mul_represents]. }
  eapply represents_congr.
  - apply fe_sub_represents; [by apply fe_mul_represents|].
    apply fe_mul_represents; [by apply fe_sub_represents|done].
  - unfold elligator_reference. by rewrite Z.mod_mod.
Qed.
End Map.
