(* ===== verification/Cpace.v ===== *)
(** * The CPace exchange ([src/cpace.rs])

    The generator string, the shares and the intermediate session key, with
    the lemmas on the length-value coding and on the agreement of the two
    sides.  A Rust [usize] is taken to be 64 bits wide. *)

From S2P Require Import Prelude External Instances Wire Cddl WireCodec WireLaws Context CurveExternal Field.

Definition SHA512_INPUT_BLOCK_BYTES : Z := 128.
Definition DRAFT_REVISION : Z := 21.
Definition CPACE_DSI : bytes := ascii_bytes "CPace255".
Definition CPACE_ISK_DSI : bytes := ascii_bytes "CPace255_ISK".
Definition usize_max : Z := u64_max.

Inductive CpaceError : Type :=
| CpaceError_SameSide
| CpaceError_InvalidPeerPoint
| CpaceError_LengthOverflow
| CpaceError_InvalidContext
| CpaceError_AssociatedData.

Record CpaceState := mkCpaceState {
  cs_side : Side;
  cs_scalar : bytes;
  cs_local_message : CpaceMessage;
  cs_sid : bytes;
  cs_expected_peer_associated_data : option bytes
}.

(** ** Lengths and values *)

(** The loops of [leb128_size] and [append_leb128] shift seven bits away at
    each turn; the fuel exceeds the number of turns. *)
Definition leb128_fuel (value : Z) : nat := S (Z.to_nat (Z.log2 value)).

Fixpoint leb128_size_loop (fuel : nat) (size value : Z) : Z :=
  match fuel with
  | O => size
  | S fuel => if 128 <=? value then leb128_size_loop fuel (size + 1) (Z.shiftr value 7) else size
  end.
Definition leb128_size (value : Z) : Z := leb128_size_loop (leb128_fuel value) 1 value.

Fixpoint append_leb128_loop (fuel : nat) (output : bytes) (value : Z) : bytes :=
  match fuel with
  | O => output
  | S fuel =>
      let low_bits := Z.land value 127 in
      let value := Z.shiftr value 7 in
      if value =? 0 then output ++ [low_bits]
      else append_leb128_loop fuel (output ++ [Z.lor low_bits 128]) value
  end.
Definition append_leb128 (output : bytes) (value : Z) : bytes :=
  append_leb128_loop (leb128_fuel value) output value.

Definition append_length_value (output value : bytes) : bytes := append_leb128 output (blen value) ++ value.

Definition prepend_len_size (value : bytes) : outcome CpaceError Z :=
  ok_or (checked_add usize_max (leb128_size (blen value)) (blen value)) CpaceError_LengthOverflow.

(** [try_fold(0, checked_add)]. *)
Definition sum_lengths (lengths : list Z) : option Z :=
  fold_left (fun sum length => s ← sum; checked_add usize_max s length) lengths (Some 0).

Definition generator_string (prs channel_identifier session_id : bytes) : outcome CpaceError bytes :=
  dsi_size ← prepend_len_size CPACE_DSI;
  prs_size ← prepend_len_size prs;
  encoded_prefix_length ← ok_or (checked_add usize_max dsi_size prs_size) CpaceError_LengthOverflow;
  let padding_length :=
    saturating_sub SHA512_INPUT_BLOCK_BYTES (saturating_add usize_max encoded_prefix_length 1) in
  padding_size ← ok_or (checked_add usize_max (leb128_size padding_length) padding_length) CpaceError_LengthOverflow;
  ci_size ← prepend_len_size channel_identifier;
  sid_size ← prepend_len_size session_id;
  _ ← ok_or (sum_lengths [dsi_size; prs_size; padding_size; ci_size; sid_size]) CpaceError_LengthOverflow;
  let result := append_length_value [] CPACE_DSI in
  let result := append_length_value result prs in
  let result := append_leb128 result padding_length in
  let result := result ++ replicate (Z.to_nat padding_length) 0 in
  let result := append_length_value result channel_identifier in
  let result := append_length_value result session_id in
  Ok result.

Definition isk_input (sid shared_point : bytes) (allocator claimant : CpaceMessage) : bytes :=
  let key_input := append_length_value [] CPACE_ISK_DSI in
  let key_input := append_length_value key_input sid in
  let key_input := append_length_value key_input shared_point in
  let key_input := append_length_value key_input (cm_share allocator) in
  let key_input := append_length_value key_input (cm_associated_data allocator) in
  let key_input := append_length_value key_input (cm_share claimant) in
  append_length_value key_input (cm_associated_data claimant).

Definition other_side (side : Side) : Side :=
  match side with Side_Allocator => Side_Claimant | Side_Claimant => Side_Allocator end.

Section Cpace.
Context `{Sha512, Fiat25519, X25519}.

Definition calculate_generator (prs channel_identifier session_id : bytes) : outcome CpaceError bytes :=
  generator_input ← generator_string prs channel_identifier session_id;
  let digest := sha512 generator_input in
  Ok (elligator2_curve25519 (mask_last (take 32 digest))).

Definition x25519_scalar_mult_vfy (scalar point : bytes) : outcome CpaceError bytes :=
  let product := x25519 scalar point in
  if bool_decide (product = replicate 32 0) then Err CpaceError_InvalidPeerPoint else Ok product.

Definition start (side : Side) (prs channel_identifier session_id associated_data fresh_scalar : bytes) :
    outcome CpaceError (CpaceState * CpaceMessage) :=
  generator ← calculate_generator prs channel_identifier session_id;
  share ← x25519_scalar_mult_vfy fresh_scalar generator;
  let message := mkCpaceMessage side share associated_data in
  Ok (mkCpaceState side fresh_scalar message session_id None, message).

Definition expecting (peer_data : bytes) (s : CpaceState) : CpaceState :=
  mkCpaceState (cs_side s) (cs_scalar s) (cs_local_message s) (cs_sid s) (Some peer_data).

Definition start_bound (side : Side)
    (prs channel_identifier session_id local_associated_data expected_peer_associated_data fresh_scalar : bytes) :
    outcome CpaceError (CpaceState * CpaceMessage) :=
  '(state, message) ← start side prs channel_identifier session_id local_associated_data fresh_scalar;
  Ok (expecting expected_peer_associated_data state, message).

Definition start_pairing `{Cbor, Cddl, UrlParser} (side : Side) (invitation : Invitation)
    (mailbox_id fresh_scalar : bytes) : outcome CpaceError (CpaceState * CpaceMessage) :=
  context ← map_err (fun _ => CpaceError_InvalidContext) (derive invitation mailbox_id);
  let local_ad := associated_data context side in
  let peer_ad := associated_data context (other_side side) in
  '(state, message) ← start side (iv_secret invitation) (pc_channel_identifier context) (pc_session_id context)
                        local_ad fresh_scalar;
  Ok (expecting peer_ad state, message).

Definition finish (state : CpaceState) (peer_message : CpaceMessage) : outcome CpaceError bytes :=
  if bool_decide (cs_side state = cm_side peer_message) then Err CpaceError_SameSide
  else if match cs_expected_peer_associated_data state with
          | Some expected => negb (bool_decide (expected = cm_associated_data peer_message))
          | None => false
          end
  then Err CpaceError_AssociatedData
  else
    shared_point ← x25519_scalar_mult_vfy (cs_scalar state) (cm_share peer_message);
    let '(allocator, claimant) :=
      match cs_side state with
      | Side_Allocator => (cs_local_message state, peer_message)
      | Side_Claimant => (peer_message, cs_local_message state)
      end in
    Ok (sha512 (isk_input (cs_sid state) shared_point allocator claimant)).
End Cpace.

(** ** Properties of the CPace exchange

    The length-value coding is uniquely readable, so the generator string and
    the key derivation input bind their parts; and the two sides of one
    exchange compute the same key. *)

(** ** Lengths *)

Definition leb128 (value : Z) : bytes := append_leb128 [] value.
Definition length_value (b : bytes) : bytes := append_length_value [] b.

(** A reader for the coding, the reference for what is written. *)
Fixpoint leb128_read (b : bytes) : option (Z * bytes) :=
  match b with
  | [] => None
  | x :: b => if x <? 128 then Some (x, b) else '(v, rest) ← leb128_read b; Some (x - 128 + 128 * v, rest)
  end.

Lemma append_loop_output fuel output value :
  append_leb128_loop fuel output value = output ++ append_leb128_loop fuel [] value.
Proof.
  revert output value. induction fuel as [|fuel IH]; intros output value; simpl; [by rewrite app_nil_r|].
  destruct (_ =? 0); [done|]. by rewrite IH, (IH [_]), app_assoc.
Qed.

Lemma append_leb128_app output value : append_leb128 output value = output ++ leb128 value.
Proof. apply append_loop_output. Qed.
Lemma append_length_value_app output value : append_length_value output value = output ++ length_value value.
Proof. unfold length_value, append_length_value. by rewrite !append_leb128_app, <- app_assoc. Qed.

Lemma low_bits value : 0 <= value -> Z.land value 127 = value mod 128 /\ Z.shiftr value 7 = value / 128 /\
  Z.lor (value mod 128) 128 = value mod 128 + 128.
Proof.
  intros Hv. split_and!.
  - change 127 with (Z.ones 7). by rewrite Z.land_ones.
  - by rewrite Z.shiftr_div_pow2.
  - pose proof (Z.mod_pos_bound value 128). assert (Forall (fun x => Z.lor x 128 = x + 128) (seqZ 0 128)) as Hall
      by (apply (bool_decide_unpack _); vm_compute; exact I).
    rewrite Forall_forall in Hall. apply Hall, elem_of_seqZ. lia.
Qed.

(** The fuel outlasts the shifts. *)
Lemma fuel_enough value : 0 <= value -> value < 128 ^ Z.of_nat (leb128_fuel value).
Proof.
  intros Hv. unfold leb128_fuel. rewrite Nat2Z.inj_succ, Z2Nat.id by apply Z.log2_nonneg.
  destruct (decide (value = 0)) as [->|]; [done|].
  pose proof (Z.log2_spec value). apply Z.lt_le_trans with (2 ^ Z.succ (Z.log2 value)); [lia|].
  apply Z.pow_le_mono_l. lia.
Qed.

Lemma pow_succ_bound value fuel : 0 <= value < 128 ^ Z.of_nat (S fuel) -> 0 <= value / 128 < 128 ^ Z.of_nat fuel.
Proof.
  rewrite Nat2Z.inj_succ, Z.pow_succ_r by lia. intros Hv.
  split; [apply Z.div_pos; lia|apply Z.div_lt_upper_bound; lia].
Qed.

Lemma leb128_loop_step fuel value : 0 <= value ->
  append_leb128_loop (S fuel) [] value =
    if value / 128 =? 0 then [value mod 128]
    else value mod 128 + 128 :: append_leb128_loop fuel [] (value / 128).
Proof.
  intros Hv. cbn [append_leb128_loop]. destruct (low_bits value Hv) as (-> & -> & ->).
  destruct (_ =? 0); [done|]. by rewrite append_loop_output.
Qed.

Lemma leb128_loop_read fuel : forall value rest, 0 <= value < 128 ^ Z.of_nat (S fuel) ->
  leb128_read (append_leb128_loop (S fuel) [] value ++ rest) = Some (value, rest).
Proof.
  induction fuel as [|fuel IH]; intros value rest Hv; apply pow_succ_bound in Hv as Hq;
    rewrite leb128_loop_step by lia.
  all: pose proof (Z.mod_pos_bound value 128); pose proof (Z.div_mod value 128).
  all: destruct (value / 128 =? 0) eqn:Hz; bool_to_prop.
  1,3: simpl; rewrite (proj2 (Z.ltb_lt _ 128)) by lia; do 2 f_equal; lia.
  - change (128 ^ Z.of_nat 0) with 1 in Hq. lia.
  - remember (append_leb128_loop _ _ _) as tail eqn:Htail. simpl.
    rewrite (proj2 (Z.ltb_ge _ 128)), Htail, IH by lia. simpl. do 2 f_equal. lia.
Qed.

Lemma leb128_read_write value rest : 0 <= value -> leb128_read (leb128 value ++ rest) = Some (value, rest).
Proof. intros Hv. apply leb128_loop_read. split; [done|by apply fuel_enough]. Qed.

Lemma size_loop_length fuel : forall size value, 0 <= value < 128 ^ Z.of_nat (S fuel) ->
  leb128_size_loop (S fuel) size value = size - 1 + blen (append_leb128_loop (S fuel) [] value) /\
  blen (append_leb128_loop (S fuel) [] value) <= Z.of_nat (S fuel).
Proof.
  induction fuel as [|fuel IH]; intros size value Hv; apply pow_succ_bound in Hv as Hq;
    rewrite leb128_loop_step by lia; pose proof (Z.div_mod value 128); pose proof (Z.mod_pos_bound value 128).
  - change (128 ^ Z.of_nat 0) with 1 in Hq. simpl.
    rewrite (proj2 (Z.leb_gt 128 _)), (proj2 (Z.eqb_eq _ 0)) by lia. unfold blen. simpl. lia.
  - remember (S fuel) as n eqn:Hn. simpl. destruct (value / 128 =? 0) eqn:Hz; bool_to_prop.
    + rewrite (proj2 (Z.leb_gt 128 _)) by lia. unfold blen. simpl. lia.
    + rewrite (proj2 (Z.leb_le 128 _)), Z.shiftr_div_pow2 by lia. change (2 ^ 7) with 128.
      destruct (IH (size + 1) (value / 128) Hq) as [-> Hle]. unfold blen in *. simpl length. lia.
Qed.

Lemma leb128_size_length value : 0 <= value ->
  leb128_size value = blen (leb128 value) /\ 1 <= leb128_size value <= Z.log2 value + 1.
Proof.
  intros Hv. destruct (size_loop_length (Z.to_nat (Z.log2 value)) 1 value) as [Hs Hle].
  { split; [done|by apply fuel_enough]. }
  unfold leb128_size, leb128, append_leb128. change (leb128_fuel value) with (S (Z.to_nat (Z.log2 value))).
  pose proof (Z.log2_nonneg value). rewrite Hs. split; [lia|].
  assert (1 <= blen (append_leb128_loop (S (Z.to_nat (Z.log2 value))) [] value)); [|lia].
  cbn [append_leb128_loop]. destruct (_ =? 0); [unfold blen; simpl; lia|].
  rewrite append_loop_output. unfold blen. rewrite length_app. simpl. lia.
Qed.

Lemma length_value_app b : length_value b = leb128 (blen b) ++ b.
Proof. unfold length_value, append_length_value. by rewrite append_leb128_app. Qed.

(** A length-value is read back off the front of any string. *)
Lemma length_value_inj b b' rest rest' :
  length_value b ++ rest = length_value b' ++ rest' -> b = b' /\ rest = rest'.
Proof.
  rewrite !length_value_app, <- !app_assoc. intros Heq.
  pose proof (leb128_read_write (blen b) (b ++ rest) (blen_nonneg b)) as Hr.
  rewrite Heq, leb128_read_write in Hr by apply blen_nonneg.
  injection Hr as Hl Hs. unfold blen in Hl. apply app_inj_1 in Hs as [-> ->]; [done|lia].
Qed.

Lemma length_value_inj_end b b' : length_value b = length_value b' -> b = b'.
Proof. intros H. apply (length_value_inj b b' [] []). by rewrite !app_nil_r. Qed.

(** ** The generator string *)

Definition padding_for (prs : bytes) : Z :=
  saturating_sub SHA512_INPUT_BLOCK_BYTES
    (saturating_add usize_max (blen (length_value CPACE_DSI) + blen (length_value prs)) 1).

Definition generator_parts (prs ci sid : bytes) : bytes :=
  (length_value CPACE_DSI ++ length_value prs ++ leb128 (padding_for prs) ++
   replicate (Z.to_nat (padding_for prs)) 0) ++ length_value ci ++ length_value sid.

Lemma blen_replicate n z : 0 <= n -> blen (replicate (Z.to_nat n) z) = n.
Proof. intros. unfold blen. rewrite length_replicate. lia. Qed.

Lemma prepend_len_size_spec b : prepend_len_size b =
  if blen (length_value b) <=? usize_max then Ok (blen (length_value b)) else Err CpaceError_LengthOverflow.
Proof.
  unfold prepend_len_size, checked_add. rewrite length_value_app, blen_app.
  rewrite (proj1 (leb128_size_length (blen b) (blen_nonneg b))). by destruct (_ <=? _).
Qed.

Lemma sum_lengths_spec ls : Forall (fun l => 0 <= l) ls ->
  sum_lengths ls = if sum_with id ls <=? usize_max then Some (sum_with id ls) else None.
Proof.
  intros Hls. unfold sum_lengths.
  assert (forall acc, 0 <= acc <= usize_max ->
    fold_left (fun sum length => s ← sum; checked_add usize_max s length) ls (Some acc) =
    if acc + sum_with id ls <=? usize_max then Some (acc + sum_with id ls) else None) as Hgen.
  { induction Hls as [|l ls Hl Hls IH]; intros acc Hacc; simpl.
    - by rewrite Z.add_0_r, (proj2 (Z.leb_le _ _)) by lia.
    - assert (0 <= sum_with id ls) by (apply sum_with_nonneg; by apply Forall_forall).
      change (id l) with l. destruct (acc + l <=? usize_max) eqn:Hle; bool_to_prop.
      + rewrite (proj2 (checked_add_some _ acc l _) (conj eq_refl Hle)), IH by lia. by rewrite <- !Z.add_assoc.
      + assert (checked_add usize_max acc l = None) as ->.
        { unfold checked_add. by rewrite (proj2 (Z.leb_gt _ _)). }
        rewrite (proj2 (Z.leb_gt _ _)) by lia. clear. induction ls; simpl; auto. }
  by rewrite Hgen by (split; [lia|done]).
Qed.

Lemma padding_range prs : 0 <= padding_for prs <= 128.
Proof.
  unfold padding_for, saturating_sub, saturating_add, SHA512_INPUT_BLOCK_BYTES, usize_max, u64_max.
  pose proof (blen_nonneg (length_value CPACE_DSI)). pose proof (blen_nonneg (length_value prs)). lia.
Qed.

Lemma ok_or_checked_add {E} max a b (e : E) :
  ok_or (checked_add max a b) e = if a + b <=? max then Ok (a + b) else Err e.
Proof. unfold checked_add. by destruct (_ <=? _). Qed.

(** The string is built exactly when its length fits a [usize]. *)
Lemma generator_string_spec prs ci sid : generator_string prs ci sid =
  if blen (generator_parts prs ci sid) <=? usize_max then Ok (generator_parts prs ci sid)
  else Err CpaceError_LengthOverflow.
Proof.
  pose proof (padding_range prs) as Hpad. unfold generator_string. rewrite !prepend_len_size_spec.
  assert (forall b, 0 <= blen b) as Hb by apply blen_nonneg.
  unfold generator_parts at 1. rewrite !blen_app, blen_replicate by lia.
  pose proof (Hb (length_value prs)). pose proof (Hb (length_value ci)). pose proof (Hb (length_value sid)).
  pose proof (Hb (leb128 (padding_for prs))).
  assert (blen (length_value CPACE_DSI) = 9) as Hdsi by (by vm_compute). rewrite Hdsi.
  change (9 <=? usize_max) with true. cbn [mbind outcome_bind].
  destruct (blen (length_value prs) <=? usize_max) eqn:Hprs; cbn [mbind outcome_bind]; bool_to_prop.
  2:{ by rewrite (proj2 (Z.leb_gt _ _)) by lia. }
  rewrite (ok_or_checked_add usize_max 9). destruct (9 + blen (length_value prs) <=? usize_max) eqn:Hp; cbn [ok_or mbind outcome_bind];
    bool_to_prop.
  2:{ by rewrite (proj2 (Z.leb_gt _ _)) by lia. }
  assert (saturating_sub SHA512_INPUT_BLOCK_BYTES (saturating_add usize_max (9 + blen (length_value prs)) 1) =
    padding_for prs) as -> by (unfold padding_for; by rewrite Hdsi).
  rewrite (proj1 (leb128_size_length (padding_for prs) (proj1 Hpad))).
  rewrite (ok_or_checked_add usize_max _ (padding_for prs)).
  destruct (blen (leb128 (padding_for prs)) + padding_for prs <=? usize_max) eqn:Hq;
    cbn [ok_or mbind outcome_bind]; bool_to_prop.
  2:{ by rewrite (proj2 (Z.leb_gt _ _)) by lia. }
  destruct (blen (length_value ci) <=? usize_max) eqn:Hci; cbn [mbind outcome_bind]; bool_to_prop.
  2:{ by rewrite (proj2 (Z.leb_gt _ _)) by lia. }
  destruct (blen (length_value sid) <=? usize_max) eqn:Hsid; cbn [mbind outcome_bind]; bool_to_prop.
  2:{ by rewrite (proj2 (Z.leb_gt _ _)) by lia. }
  rewrite sum_lengths_spec by (repeat (apply Forall_cons; split; [lia|]); by apply Forall_nil).
  cbn [sum_with]. unfold id.
  replace (9 + (blen (length_value prs) + (blen (leb128 (padding_for prs)) + padding_for prs +
    (blen (length_value ci) + (blen (length_value sid) + 0)))))
    with (9 + (blen (length_value prs) + (blen (leb128 (padding_for prs)) + padding_for prs)) +
      (blen (length_value ci) + blen (length_value sid))) by lia.
  destruct (_ <=? usize_max); cbn [ok_or mbind outcome_bind]; [|done]. f_equal.
  rewrite !append_length_value_app, append_leb128_app.
  unfold generator_parts. by rewrite !app_nil_l, <- !app_assoc.
Qed.

Lemma generator_parts_inj prs ci sid prs' ci' sid' :
  generator_parts prs ci sid = generator_parts prs' ci' sid' -> prs = prs' /\ ci = ci' /\ sid = sid'.
Proof.
  unfold generator_parts. rewrite <- !app_assoc. intros [_ [<- Hrest]%length_value_inj]%length_value_inj.
  apply app_inv_head, app_inv_head in Hrest. apply length_value_inj in Hrest as [-> ->%length_value_inj_end]. done.
Qed.

Lemma isk_input_inj sid k a c sid' k' a' c' : isk_input sid k a c = isk_input sid' k' a' c' ->
  sid = sid' /\ k = k' /\ cm_share a = cm_share a' /\ cm_associated_data a = cm_associated_data a' /\
  cm_share c = cm_share c' /\ cm_associated_data c = cm_associated_data c'.
Proof.
  unfold isk_input. rewrite !append_length_value_app, !app_nil_l, <- !app_assoc.
  intros [_ [-> [-> [-> [-> [-> ->%length_value_inj_end]%length_value_inj]%length_value_inj]%length_value_inj]
    %length_value_inj]%length_value_inj]%length_value_inj. done.
Qed.

(** ** The exchange *)

Section Exchange.
Context `{Sha512, Fiat25519, X25519}.

Lemma cpace_start_ok side prs ci sid ad k s m : start side prs ci sid ad k = Ok (s, m) ->
  exists g, calculate_generator prs ci sid = Ok g /\ x25519 k g <> replicate 32 0 /\
    m = mkCpaceMessage side (x25519 k g) ad /\ s = mkCpaceState side k m sid None.
Proof.
  unfold start, x25519_scalar_mult_vfy. intros (g & Hg & Hs)%bind_ok. exists g.
  destruct (bool_decide _) eqn:Hz; [done|]. injection Hs as <- <-. by bool_to_prop.
Qed.

(** What [finish] does with a message from the other side. *)
Lemma finish_other s m : cs_side s <> cm_side m ->
  (forall d, cs_expected_peer_associated_data s = Some d -> d = cm_associated_data m) ->
  finish s m =
    if bool_decide (x25519 (cs_scalar s) (cm_share m) = replicate 32 0) then Err CpaceError_InvalidPeerPoint
    else Ok (sha512 (match cs_side s with
                     | Side_Allocator => isk_input (cs_sid s) (x25519 (cs_scalar s) (cm_share m)) (cs_local_message s) m
                     | Side_Claimant => isk_input (cs_sid s) (x25519 (cs_scalar s) (cm_share m)) m (cs_local_message s)
                     end)).
Proof.
  intros Hside Hd. unfold finish, x25519_scalar_mult_vfy. rewrite bool_decide_eq_false_2 by done.
  destruct (cs_expected_peer_associated_data s) as [d|].
  - rewrite (bool_decide_eq_true_2 (d = _)) by auto. simpl. destruct (bool_decide _); simpl; [done|]. by destruct (cs_side s).
  - destruct (bool_decide _); simpl; [done|]. by destruct (cs_side s).
Qed.

(** Both sides of one exchange finish alike. *)
Lemma exchange_agrees `{!X25519Laws} prs ci sid ada adb ka kb sa ma sb mb da db :
  start Side_Allocator prs ci sid ada ka = Ok (sa, ma) -> start Side_Claimant prs ci sid adb kb = Ok (sb, mb) ->
  da = adb -> db = ada ->
  finish (expecting da sa) mb = finish (expecting db sb) ma /\
  (finish (expecting da sa) mb = Err CpaceError_InvalidPeerPoint \/ exists k, finish (expecting da sa) mb = Ok k).
Proof.
  intros (g & Hg & _ & -> & ->)%cpace_start_ok (g' & Hg' & _ & -> & ->)%cpace_start_ok -> ->.
  assert (g' = g) as -> by congruence.
  rewrite !finish_other by (simpl; first [done|by intros ? [= <-]]). simpl. rewrite (x25519_comm ka kb).
  split; [done|]. destruct (bool_decide _); eauto.
Qed.
End Exchange.
