(* ===== verification/CpaceProps.v ===== *)
(** * What the CPace exchange promises

    The properties of [src/cpace.rs] and [src/cpace/field.rs], the composition
    of the exchange with the channel schedule, and concrete runs. *)

From S2P Require Import Prelude External Instances Wire Cddl WireCodec WireLaws Context Channel ChannelProps CurveExternal Field Cpace.

(** C33. The map is its formula.  On 32 octets, [elligator2_curve25519] writes
    the number that the formula of RFC 9380 gives for the input's low 255
    bits, reduced modulo the prime; where the quadratic character is one this
    is the candidate [v], where it is minus one it is [-v - A].  For every
    implementation of the limb operations that satisfies their documented
    contracts. *)
Theorem elligator_exact `{Fiat25519, !Fiat25519Laws} b (Hb : octets 32 b) :
  let r := le_value b mod 2 ^ 255 in
  elligator2_curve25519 b = le_bytes 32 (elligator_reference r) /\
  (elligator_character r mod curve_p = 1 -> elligator_reference r = elligator_candidate r mod curve_p) /\
  (elligator_character r mod curve_p = curve_p - 1 ->
     elligator_reference r = (- elligator_candidate r - 486662) mod curve_p).
Proof.
  intros r. split; [|split].
  - destruct (mask_last_value b Hb) as [Ho Hv]. fold r in Hv.
    assert (represents (fe_from_bytes (mask_last b)) r) as Hr.
    { rewrite <- Hv. apply from_bytes_value; [done|]. rewrite Hv. apply Z.mod_pos_bound. done. }
    pose proof (elligator_represents _ _ Hr) as [Ht Hval]. unfold elligator2_curve25519, fe_to_bytes.
    rewrite (to_bytes_value _ Ht), Hval. unfold elligator_reference. by rewrite Z.mod_mod.
  - intros He. unfold elligator_reference. set (e := elligator_character r) in *. set (v := elligator_candidate r).
    assert (exists k, e = 1 + k * curve_p) as [k ->].
    { exists (e / curve_p). pose proof (Z.div_mod e curve_p). pose proof curve_p_bound. lia. }
    replace ((1 + k * curve_p) * v - (1 - (1 + k * curve_p)) * 243331)
      with (v + (k * v + k * 243331) * curve_p) by lia.
    by apply Z.mod_add.
  - intros He. unfold elligator_reference. set (e := elligator_character r) in *. set (v := elligator_candidate r).
    assert (exists k, e = -1 + k * curve_p) as [k ->].
    { exists (e / curve_p + 1). pose proof (Z.div_mod e curve_p). pose proof curve_p_bound. lia. }
    replace ((-1 + k * curve_p) * v - (1 - (-1 + k * curve_p)) * 243331)
      with ((- v - 486662) + (k * v + k * 243331) * curve_p) by lia.
    by apply Z.mod_add.
Qed.

(** The generator string binds its inputs.  Two generator strings are equal
    only when the password, the channel identifier and the session identifier
    are; the string exists exactly when its length fits a [usize]; and for a
    password of up to 117 octets the domain, the password and the padding fill
    the first SHA-512 block exactly. *)
Theorem generator_binds prs ci sid :
  (forall prs' ci' sid' g, generator_string prs ci sid = Ok g -> generator_string prs' ci' sid' = Ok g ->
     prs = prs' /\ ci = ci' /\ sid = sid') /\
  ((exists g, generator_string prs ci sid = Ok g) <-> blen (generator_parts prs ci sid) <= usize_max) /\
  (blen prs <= 117 -> exists block, length block = 128%nat /\
     generator_parts prs ci sid = block ++ length_value ci ++ length_value sid).
Proof.
  split_and!.
  - intros prs' ci' sid' g. rewrite !generator_string_spec.
    destruct (_ <=? _); [|done]. intros Hg. destruct (_ <=? _); [|done]. intros Hg'.
    apply generator_parts_inj. congruence.
  - rewrite generator_string_spec. destruct (_ <=? _) eqn:Hle; bool_to_prop.
    + split; [done|]. by eexists.
    + split; [by intros []|lia].
  - intros Hp. eexists. split; [|reflexivity].
    assert (blen (length_value prs) = 1 + blen prs) as Hprs.
    { rewrite length_value_app, blen_app, <- (proj1 (leb128_size_length _ (blen_nonneg prs))).
      unfold leb128_size, leb128_fuel. simpl. by rewrite (proj2 (Z.leb_gt 128 _)) by lia. }
    assert (padding_for prs = 117 - blen prs) as Hpad.
    { pose proof (blen_nonneg prs). unfold padding_for. rewrite Hprs. change (blen (length_value CPACE_DSI)) with 9.
      unfold saturating_sub, saturating_add, SHA512_INPUT_BLOCK_BYTES, usize_max, u64_max. lia. }
    apply Nat2Z.inj. change (Z.of_nat (length ?l)) with (blen l). rewrite !blen_app, blen_replicate, Hprs, Hpad.
    + rewrite <- (proj1 (leb128_size_length (117 - blen prs) ltac:(lia))).
      pose proof (blen_nonneg prs). unfold leb128_size, leb128_fuel. simpl.
      rewrite (proj2 (Z.leb_gt 128 _)) by lia. change (blen (length_value CPACE_DSI)) with 9. lia.
    + rewrite Hpad. lia.
Qed.

(** Both sides of an exchange compute the same key.  When allocator and
    claimant start with the same password, channel identifier and session,
    each expecting the other's associated data, [finish] gives both the same
    result: one key, or the refusal of a neutral point on both sides. *)
Theorem cpace_agreement `{Sha512, Fiat25519, X25519, !X25519Laws} prs ci sid ada adb ka kb sa ma sb mb
    (Ha : start_bound Side_Allocator prs ci sid ada adb ka = Ok (sa, ma))
    (Hb : start_bound Side_Claimant prs ci sid adb ada kb = Ok (sb, mb)) :
  finish sa mb = finish sb ma /\
  (finish sa mb = Err CpaceError_InvalidPeerPoint \/ exists k, finish sa mb = Ok k).
Proof.
  unfold start_bound in *. apply bind_ok in Ha as ([s m] & Ha & [= <- <-]), Hb as ([s' m'] & Hb & [= <- <-]).
  by apply (exchange_agrees prs ci sid ada adb ka kb s m s' m' adb ada).
Qed.

(** What completing an exchange demands.  [finish] gives a key exactly when
    the message is from the other side, carries the associated data that was
    expected, if any, and its share does not lead to the neutral element; the
    three refusals are reported in this order.  The octets hashed into two keys
    are equal only when session, shared point, shares and associated data of
    both sides are. *)
Theorem finish_exactly `{Sha512, Fiat25519, X25519} s m :
  (cs_side s = cm_side m -> finish s m = Err CpaceError_SameSide) /\
  (forall d, cs_side s <> cm_side m -> cs_expected_peer_associated_data s = Some d -> d <> cm_associated_data m ->
     finish s m = Err CpaceError_AssociatedData) /\
  ((exists k, finish s m = Ok k) <->
     cs_side s <> cm_side m /\ x25519 (cs_scalar s) (cm_share m) <> replicate 32 0 /\
     forall d, cs_expected_peer_associated_data s = Some d -> d = cm_associated_data m) /\
  (forall sid k a c sid' k' a' c', isk_input sid k a c = isk_input sid' k' a' c' ->
     sid = sid' /\ k = k' /\ cm_share a = cm_share a' /\ cm_associated_data a = cm_associated_data a' /\
     cm_share c = cm_share c' /\ cm_associated_data c = cm_associated_data c').
Proof.
  split_and!.
  - intros Hs. unfold finish. by rewrite bool_decide_eq_true_2.
  - intros d Hs Hd Hne. unfold finish. by rewrite bool_decide_eq_false_2, Hd, bool_decide_eq_false_2 by done.
  - split.
    + intros [k Hk]. destruct (decide (cs_side s = cm_side m)) as [He|Hs].
      { unfold finish in Hk. by rewrite bool_decide_eq_true_2 in Hk. }
      assert (forall d, cs_expected_peer_associated_data s = Some d -> d = cm_associated_data m) as Hd.
      { intros d Hd. destruct (decide (d = cm_associated_data m)) as [|Hne]; [done|]. unfold finish in Hk.
        by rewrite bool_decide_eq_false_2, Hd, bool_decide_eq_false_2 in Hk. }
      rewrite finish_other in Hk by done. case_bool_decide; [done|]. done.
    + intros (Hs & Hz & Hd). rewrite finish_other by done. rewrite bool_decide_eq_false_2 by done. by eexists.
  - intros *. apply isk_input_inj.
Qed.

(** ** From the invitation to the channel *)

Lemma start_pairing_ok `{Sha512, Fiat25519, X25519, Cbor, Cddl, UrlParser} side i mailbox k s m :
  start_pairing side i mailbox k = Ok (s, m) ->
  exists c s', derive i mailbox = Ok c /\
    start side (iv_secret i) (pc_channel_identifier c) (pc_session_id c) (associated_data c side) k = Ok (s', m) /\
    s = expecting (associated_data c (other_side side)) s'.
Proof.
  unfold start_pairing. intros (c & Hc & Hs)%bind_ok. apply bind_ok in Hs as ([s' m'] & Hs & [= <- <-]).
  exists c, s'. split; [|done]. destruct (derive i mailbox); [by injection Hc as <-|done..].
Qed.

(** C11. One invitation, one channel.  When two endpoints start from the same
    invitation and mailbox and the allocator completes the exchange with the
    claimant's message, the claimant completes it with the same key, and from
    that key and the two exchanged frames both derive channels that confirm
    each other and are linked in both directions. *)
Theorem pairing_agreement
    `{Cbor, Cddl, UrlParser, Sha512, HkdfSha512, HmacSha512, Fiat25519, X25519, !CborLaws, !ScheduleLaws, !X25519Laws}
    i mailbox ka kb sa ma sb mb key fa fb
    (Ha : start_pairing Side_Allocator i mailbox ka = Ok (sa, ma))
    (Hb : start_pairing Side_Claimant i mailbox kb = Ok (sb, mb))
    (Hk : finish sa mb = Ok key) :
  finish sb ma = Ok key /\
  exists pa pb ca cb,
    new_pairing Side_Allocator key i mailbox fa fb = Ok pa /\ new_pairing Side_Claimant key i mailbox fa fb = Ok pb /\
    confirm pa (pn_local_finished pb) = Ok ca /\ confirm pb (pn_local_finished pa) = Ok cb /\
    channel_ok ca /\ channel_ok cb /\ linked ca cb /\ linked cb ca.
Proof.
  destruct (start_pairing_ok _ _ _ _ _ _ Ha) as (c & sa' & Hc & Ha' & ->).
  destruct (start_pairing_ok _ _ _ _ _ _ Hb) as (c' & sb' & Hc' & Hb' & ->).
  assert (c' = c) as -> by congruence. cbn [other_side] in *.
  destruct (exchange_agrees _ _ _ _ _ _ _ _ _ _ _ _ _ Ha' Hb' eq_refl eq_refl) as [Heq _].
  split; [by rewrite <- Heq|]. unfold new_pairing. rewrite Hc. simpl.
  destruct (schedule_agreement key (pc_channel_context c) fa fb)
    as (pa & pb & ca & cb & ? & ? & ? & ? & _ & _ & ? & ? & ? & ? & _).
  exists pa, pb, ca, cb. done.
Qed.

(** ** Concrete runs *)

#[local] Existing Instance schema_validator.
#[local] Instance invited_origins : UrlParser := fun s => Some (mkUrl EmptyString None None None "/" s "https" None None).

(** The representative of the draft's generator test. *)
Definition draft_representative : bytes :=
  [3; 153; 128; 135; 189; 177; 162; 97; 123; 190; 37; 239; 90; 124; 24; 205;
   79; 132; 249; 2; 50; 135; 1; 121; 7; 88; 117; 94; 228; 174; 209; 83].

Lemma elligator_exact_witness :
  octets 32 draft_representative /\
  elligator2_curve25519 draft_representative =
    le_bytes 32 (elligator_reference (le_value draft_representative mod 2 ^ 255)) /\
  le_value (elligator2_curve25519 draft_representative) mod 2 ^ 16 <> 0.
Proof.
  assert (octets 32 draft_representative) as Hb by (split; [reflexivity|apply (bool_decide_unpack _); vm_compute; exact I]).
  split; [exact Hb|].
  pose proof (elligator_exact draft_representative Hb) as H. cbv zeta in H.
  split; [exact (proj1 H)|]. vm_compute. discriminate.
Defined.

Definition chosen_scalar (n : Z) : bytes := n :: replicate 31 0.

Lemma cpace_agreement_witness : exists sa ma sb mb k,
  start_bound Side_Allocator [1; 2] [3] [4] [5] [6] (chosen_scalar 7) = Ok (sa, ma) /\
  start_bound Side_Claimant [1; 2] [3] [4] [6] [5] (chosen_scalar 9) = Ok (sb, mb) /\
  finish sa mb = Ok k /\ finish sb ma = Ok k.
Proof.
  assert (match start_bound Side_Allocator [1; 2] [3] [4] [5] [6] (chosen_scalar 7),
                start_bound Side_Claimant [1; 2] [3] [4] [6] [5] (chosen_scalar 9) with
          | Ok (sa, _), Ok (_, mb) => match finish sa mb with Ok _ => true | _ => false end
          | _, _ => false end = true) as He by (vm_compute; reflexivity).
  destruct (start_bound Side_Allocator [1; 2] [3] [4] [5] [6] (chosen_scalar 7)) as [[sa ma]| |] eqn:Ha; [|discriminate..].
  destruct (start_bound Side_Claimant [1; 2] [3] [4] [6] [5] (chosen_scalar 9)) as [[sb mb]| |] eqn:Hb; [|discriminate..].
  destruct (finish sa mb) as [k| |] eqn:Hk; [|discriminate..].
  exists sa, ma, sb, mb, k. split; [reflexivity|]. split; [reflexivity|]. split; [exact Hk|].
  rewrite <- Hk. symmetry. apply (cpace_agreement _ _ _ _ _ _ _ sa ma sb mb Ha Hb).
Defined.

Definition run_invitation : Invitation :=
  mkInvitation "example.org/chat/v1" "https://relay.example" (Locator_Nameplate 7) (replicate 16 1) None None.

Lemma pairing_agreement_witness : exists sa ma sb mb key pa pb ca cb,
  start_pairing Side_Allocator run_invitation (replicate 32 5) (chosen_scalar 7) = Ok (sa, ma) /\
  start_pairing Side_Claimant run_invitation (replicate 32 5) (chosen_scalar 9) = Ok (sb, mb) /\
  finish sa mb = Ok key /\ finish sb ma = Ok key /\
  new_pairing Side_Allocator key run_invitation (replicate 32 5) [1] [2] = Ok pa /\
  new_pairing Side_Claimant key run_invitation (replicate 32 5) [1] [2] = Ok pb /\
  confirm pa (pn_local_finished pb) = Ok ca /\ confirm pb (pn_local_finished pa) = Ok cb /\ linked ca cb.
Proof.
  assert (match start_pairing Side_Allocator run_invitation (replicate 32 5) (chosen_scalar 7),
                start_pairing Side_Claimant run_invitation (replicate 32 5) (chosen_scalar 9) with
          | Ok (sa, _), Ok (_, mb) => match finish sa mb with Ok _ => true | _ => false end
          | _, _ => false end = true) as He by (vm_compute; reflexivity).
  destruct (start_pairing Side_Allocator run_invitation (replicate 32 5) (chosen_scalar 7)) as [[sa ma]| |] eqn:Ha;
    [|discriminate..].
  destruct (start_pairing Side_Claimant run_invitation (replicate 32 5) (chosen_scalar 9)) as [[sb mb]| |] eqn:Hb;
    [|discriminate..].
  destruct (finish sa mb) as [key| |] eqn:Hk; [|discriminate..].
  destruct (pairing_agreement run_invitation (replicate 32 5) _ _ sa ma sb mb key [1] [2] Ha Hb Hk)
    as (Hk' & pa & pb & ca & cb & Hpa & Hpb & Hca & Hcb & _ & _ & Hl & _).
  exists sa, ma, sb, mb, key, pa, pb, ca, cb. split; [reflexivity|]. split; [reflexivity|]. split; [exact Hk|].
  split; [exact Hk'|]. split; [exact Hpa|]. split; [exact Hpb|]. split; [exact Hca|]. split; [exact Hcb|]. exact Hl.
Defined.
