(* ===== verification/Profile.v ===== *)
(** * Application profiles ([src/profile.rs])

    The contract between the endpoint and an application: the trait
    [ApplicationProfile] is a class over the profile's own state, the three
    built-in profiles are its instances, and the application's grant verifier
    is a class of its own.  The BIP-39 word list is a parameter. *)

From stdpp Require Import pretty.
From S2P Require Import Prelude External Wire Cddl WireCodec.

Definition AGENT_APPLICATION : string := "anuna.io/agent/v1".
Definition AGENT_ACTION : string := "pair-agent".
Definition AGENT_PAYLOAD : string := "anuna.io/agent-grant/v1".
Definition CREDENTIAL_APPLICATION : string := "anuna.io/credential/v1".
Definition CREDENTIAL_ACTION : string := "transfer-credential".
Definition CREDENTIAL_PAYLOAD : string := "anuna.io/account-credential/v1".
Definition SYNTHETIC_APPLICATION : string := "example.test/synthetic/v1".
Definition SYNTHETIC_ACTION : string := "exercise-profile".
Definition SYNTHETIC_PAYLOAD : string := "example.test/synthetic-grant/v1".

Inductive LocatorKind : Type := LocatorKind_Direct | LocatorKind_Nameplate.
Definition locator_matches (kind : LocatorKind) (locator : Locator) : bool :=
  match kind, locator with
  | LocatorKind_Direct, Locator_Direct _ | LocatorKind_Nameplate, Locator_Nameplate _ => true
  | _, _ => false
  end.

Record CarrierContract := mkCarrierContract {
  cc_carrier : string;
  cc_locator : LocatorKind;
  cc_minimum_entropy_bits : Z
}.

Record ProfileDescriptor := mkProfileDescriptor {
  pd_application : string;
  pd_payload_type : string;
  pd_carrier : CarrierContract;
  pd_approval_authority : string;
  pd_grant_verifier : string
}.

Record DisplayField := mkDisplayField { df_label : string; df_value : string; df_claimed_by_secret_holder : bool }.

Record DisplayIntent := mkDisplayIntent {
  di_application : string;
  di_action : string;
  di_authority_summary : string;
  di_fields : list DisplayField
}.

(** [ProfileBinding] is its digest. *)
Record ProfileIntent := mkProfileIntent { pri_display : DisplayIntent; pri_binding : bytes }.

Record RecognisedPayload := mkRecognisedPayload { rp_application : string; rp_payload_type : string; rp_body : bytes }.
Record AuthorisedGrant := mkAuthorisedGrant { ag_application : string; ag_payload_type : string; ag_body : bytes }.
Definition payload_grant (p : RecognisedPayload) : AuthorisedGrant :=
  mkAuthorisedGrant (rp_application p) (rp_payload_type p) (rp_body p).

Inductive ProfileError : Type :=
| ProfileError_InvalidInvitation
| ProfileError_WrongApplication
| ProfileError_InvalidAction
| ProfileError_InvalidClaim
| ProfileError_InvalidPayloadType
| ProfileError_InvalidPayload
| ProfileError_Unauthorized.

Abbreviation profM := (outcome ProfileError).

(** ** The traits *)

Class GrantVerifier (V : Type) := verify : RecognisedPayload -> stM V ProfileError unit.

Class ApplicationProfile (P : Type) := {
  descriptor : P -> ProfileDescriptor;
  recognise_invitation : P -> Invitation -> profM unit;
  recognise_intent : PairingIntent -> stM P ProfileError ProfileIntent;
  recognise_payload : P -> bytes -> ApplicationPayload -> profM RecognisedPayload;
  authorize_payload : RecognisedPayload -> stM P ProfileError AuthorisedGrant
}.

(** ** Claims and grants *)

Record AgentIntentClaims := mkAgentIntentClaims {
  aic_channel : string;
  aic_claimed_principal : string;
  aic_agent_handle : string;
  aic_requested_grant : string
}.
Record AgentGrant := mkAgentGrant {
  agr_claimed_principal : string;
  agr_agent_handle : string;
  agr_requested_grant : string;
  agr_grant : bytes
}.
Record CredentialIntentClaims := mkCredentialIntentClaims {
  cic_application_id : string;
  cic_origin : string;
  cic_scope : string;
  cic_recipient : string
}.
Record CredentialGrant := mkCredentialGrant {
  cgr_application_id : string;
  cgr_origin : string;
  cgr_scope : string;
  cgr_recipient : string;
  cgr_credential : bytes
}.
Record SyntheticIntentClaims := mkSyntheticIntentClaims { sic_subject : string; sic_audience : string }.
Record SyntheticGrant := mkSyntheticGrant { sgr_subject : string; sgr_audience : string; sgr_grant : bytes }.

(** ** Bounds *)

(** [chars().any(is_control)] on the octets of a [String]: the controls are
    U+0000 to U+001F, U+007F, and U+0080 to U+009F, whose encodings are the
    octet 194 followed by their low octet. *)
Fixpoint any_control (l : bytes) : bool :=
  match l with
  | [] => false
  | x :: l =>
      (x <? 32) || (x =? 127) ||
      match l with y :: _ => (x =? 194) && (128 <=? y) && (y <=? 159) | [] => false end || any_control l
  end.

Definition bounded_text (value : string) (max : Z) : outcome unit unit :=
  let octets := ascii_bytes value in
  if (blen octets =? 0) || (max <? blen octets) || any_control octets then Err tt else Ok tt.

Definition bounded_bytes (value : bytes) (min max : Z) : outcome unit unit :=
  if (blen value <? min) || (max <? blen value) then Err tt else Ok tt.

Definition canonical_https_origin `{UrlParser} (value : string) : outcome unit unit :=
  parsed ← ok_or (url_parse value) tt;
  if negb (bool_decide (url_scheme parsed = "https"%string)) ||
     negb (bool_decide (url_username parsed = EmptyString)) ||
     bool_decide (is_Some (url_password parsed)) || bool_decide (is_Some (url_query parsed)) ||
     bool_decide (is_Some (url_fragment parsed)) || negb (bool_decide (url_path parsed = "/"%string))
  then Err tt
  else
    host ← ok_or (url_host_str parsed) tt;
    let canonical := match url_port parsed with
                     | Some port => ("https://" +:+ host +:+ ":" +:+ pretty port)%string
                     | None => ("https://" +:+ host)%string
                     end in
    if negb (bool_decide (value = canonical)) then Err tt else Ok tt.

Definition claim_error : unit -> ProfileError := fun _ => ProfileError_InvalidClaim.
Definition payload_error {E} : E -> ProfileError := fun _ => ProfileError_InvalidPayload.

Definition validate_agent_texts (principal handle requested_grant : string) : profM unit :=
  _ ← map_err claim_error (bounded_text principal 255);
  _ ← map_err claim_error (bounded_text handle 128);
  map_err claim_error (bounded_text requested_grant 128).
Definition validate_agent_claims (c : AgentIntentClaims) : profM unit :=
  _ ← map_err claim_error (bounded_text (aic_channel c) 64);
  validate_agent_texts (aic_claimed_principal c) (aic_agent_handle c) (aic_requested_grant c).

Definition validate_credential_claims `{UrlParser} (c : CredentialIntentClaims) : profM unit :=
  _ ← map_err claim_error (bounded_text (cic_application_id c) 255);
  _ ← map_err claim_error (canonical_https_origin (cic_origin c));
  _ ← map_err claim_error (bounded_text (cic_scope c) 255);
  map_err claim_error (bounded_text (cic_recipient c) 255).

Definition validate_synthetic_claims (c : SyntheticIntentClaims) : profM unit :=
  _ ← map_err claim_error (bounded_text (sic_subject c) 128);
  map_err claim_error (bounded_text (sic_audience c) 128).

Definition credential_claims_of (g : CredentialGrant) : CredentialIntentClaims :=
  mkCredentialIntentClaims (cgr_application_id g) (cgr_origin g) (cgr_scope g) (cgr_recipient g).
Definition synthetic_claims_of (g : SyntheticGrant) : SyntheticIntentClaims :=
  mkSyntheticIntentClaims (sgr_subject g) (sgr_audience g).

(** ** Descriptors *)

Definition agent_descriptor : ProfileDescriptor :=
  mkProfileDescriptor AGENT_APPLICATION AGENT_PAYLOAD
    (mkCarrierContract "configured relay + nameplate + two generated words" LocatorKind_Nameplate 22)
    "explicit person action" "SPEC-061 bound pairing grant".
Definition credential_descriptor : ProfileDescriptor :=
  mkProfileDescriptor CREDENTIAL_APPLICATION CREDENTIAL_PAYLOAD
    (mkCarrierContract "QR, deep link, NFC, or OS handover" LocatorKind_Direct 128)
    "explicit person action" "SPEC-004/PROTO-004 account credential".
Definition synthetic_descriptor : ProfileDescriptor :=
  mkProfileDescriptor SYNTHETIC_APPLICATION SYNTHETIC_PAYLOAD
    (mkCarrierContract "conformance octet carrier" LocatorKind_Direct 128)
    "explicit conformance decision" "synthetic fixed-decision verifier".

Definition common_invitation (d : ProfileDescriptor) (i : Invitation) : profM unit :=
  if negb (bool_decide (iv_application i = pd_application d)) then Err ProfileError_WrongApplication
  else if negb (locator_matches (cc_locator (pd_carrier d)) (iv_locator i)) then Err ProfileError_InvalidInvitation
  else Ok tt.
Definition common_intent (d : ProfileDescriptor) (action : string) (i : PairingIntent) : profM unit :=
  if negb (bool_decide (pi_application i = pd_application d)) then Err ProfileError_WrongApplication
  else if negb (bool_decide (pi_action i = action)) then Err ProfileError_InvalidAction
  else Ok tt.
Definition payload_type (d : ProfileDescriptor) (p : ApplicationPayload) : profM unit :=
  if negb (bool_decide (ap_payload_type p = pd_payload_type d)) then Err ProfileError_InvalidPayloadType else Ok tt.

Definition display_intent (i : PairingIntent) (fields : list DisplayField) : DisplayIntent :=
  mkDisplayIntent (pi_application i) (pi_action i) (pi_authority_summary i) fields.
Definition display (label value : string) : DisplayField := mkDisplayField label value true.
Definition recognised (d : ProfileDescriptor) (p : ApplicationPayload) : RecognisedPayload :=
  mkRecognisedPayload (pd_application d) (ap_payload_type p) (ap_body p).

(** ** Canonical bodies *)

Section Bodies.
Context `{Cbor, Sha256}.

Definition encode_map (fields : list (string * Value)) : profM bytes :=
  ok_or (to_canonical_vec (text_map fields)) ProfileError_InvalidClaim.

Definition canonical_map (input : bytes) (expected_fields : nat) (error : ProfileError) :
    profM (list (Value * Value)) :=
  '(value, position) ← ok_or (from_reader input) error;
  if negb (position =? blen input) then Err error
  else
    canonical ← ok_or (to_canonical_vec value) error;
    if negb (bool_decide (canonical = input)) then Err error
    else
      match value with
      | VMap fields => if negb (length fields =? expected_fields)%nat then Err error else Ok fields
      | _ => Err error
      end.

(** The values of all entries with this text key. *)
Definition matching (fields : list (Value * Value)) (name : string) : list Value :=
  omap (fun kv => match kv.1 with
                  | VText key => if bool_decide (key = name) then Some kv.2 else None
                  | _ => None
                  end) fields.

Definition sole_field (fields : list (Value * Value)) (name : string) (error : ProfileError) : profM Value :=
  match matching fields name with
  | [value] => Ok value
  | _ => Err error
  end.

Definition text_field (fields : list (Value * Value)) (name : string) (max : Z) (error : ProfileError) : profM string :=
  value ← sole_field fields name error;
  match value with
  | VText text => _ ← map_err (fun _ => error) (bounded_text text max); Ok text
  | _ => Err error
  end.

Definition bytes_field (fields : list (Value * Value)) (name : string) (max : Z) (error : ProfileError) : profM bytes :=
  value ← sole_field fields name error;
  match value with
  | VBytes b => _ ← map_err (fun _ => error) (bounded_bytes b 1 max); Ok b
  | _ => Err error
  end.

Definition binding (fields : list string) : profM bytes :=
  encoded ← ok_or (to_canonical_vec (VArray (map VText fields))) ProfileError_InvalidClaim;
  Ok (sha256 encoded).

(** Agent. *)

Definition agent_allocator_entries (c : AgentIntentClaims) : list (string * Value) :=
  [("principal", VText (aic_claimed_principal c)); ("agent-handle", VText (aic_agent_handle c));
   ("requested-grant", VText (aic_requested_grant c))].
Definition agent_claimant_entries (c : AgentIntentClaims) : list (string * Value) :=
  [("channel", VText (aic_channel c))].
Definition encode_agent_claims (c : AgentIntentClaims) : profM (bytes * bytes) :=
  _ ← validate_agent_claims c;
  allocator ← encode_map (agent_allocator_entries c);
  claimant ← encode_map (agent_claimant_entries c);
  Ok (allocator, claimant).
Definition agent_grant_entries (g : AgentGrant) : list (string * Value) :=
  [("principal", VText (agr_claimed_principal g)); ("agent-handle", VText (agr_agent_handle g));
   ("requested-grant", VText (agr_requested_grant g)); ("grant", VBytes (agr_grant g))].
Definition encode_agent_grant (g : AgentGrant) : profM bytes :=
  _ ← validate_agent_texts (agr_claimed_principal g) (agr_agent_handle g) (agr_requested_grant g);
  _ ← map_err payload_error (bounded_bytes (agr_grant g) 1 63000);
  map_err payload_error (encode_map (agent_grant_entries g)).

Definition decode_agent_claims (allocator claimant : bytes) : profM AgentIntentClaims :=
  allocator ← canonical_map allocator 3 ProfileError_InvalidClaim;
  claimant ← canonical_map claimant 1 ProfileError_InvalidClaim;
  channel ← text_field claimant "channel" 64 ProfileError_InvalidClaim;
  claimed_principal ← text_field allocator "principal" 255 ProfileError_InvalidClaim;
  agent_handle ← text_field allocator "agent-handle" 128 ProfileError_InvalidClaim;
  requested_grant ← text_field allocator "requested-grant" 128 ProfileError_InvalidClaim;
  let result := mkAgentIntentClaims channel claimed_principal agent_handle requested_grant in
  _ ← validate_agent_claims result;
  Ok result.
Definition decode_agent_grant (input : bytes) : profM AgentGrant :=
  fields ← canonical_map input 4 ProfileError_InvalidPayload;
  claimed_principal ← text_field fields "principal" 255 ProfileError_InvalidPayload;
  agent_handle ← text_field fields "agent-handle" 128 ProfileError_InvalidPayload;
  requested_grant ← text_field fields "requested-grant" 128 ProfileError_InvalidPayload;
  grant ← bytes_field fields "grant" 63000 ProfileError_InvalidPayload;
  _ ← validate_agent_texts claimed_principal agent_handle requested_grant;
  Ok (mkAgentGrant claimed_principal agent_handle requested_grant grant).

Definition agent_binding (c : AgentIntentClaims) : profM bytes :=
  binding [AGENT_APPLICATION; AGENT_ACTION; aic_claimed_principal c; aic_agent_handle c; aic_requested_grant c].
Definition agent_payload_binding (c : AgentIntentClaims) : profM bytes :=
  binding [AGENT_APPLICATION; AGENT_ACTION; aic_claimed_principal c; aic_agent_handle c; aic_requested_grant c].

(** Credential. *)

Definition credential_allocator_entries (c : CredentialIntentClaims) : list (string * Value) :=
  [("application-id", VText (cic_application_id c)); ("origin", VText (cic_origin c)); ("scope", VText (cic_scope c))].
Definition credential_claimant_entries (c : CredentialIntentClaims) : list (string * Value) :=
  [("recipient", VText (cic_recipient c))].
Definition encode_credential_claims `{UrlParser} (c : CredentialIntentClaims) : profM (bytes * bytes) :=
  _ ← validate_credential_claims c;
  allocator ← encode_map (credential_allocator_entries c);
  claimant ← encode_map (credential_claimant_entries c);
  Ok (allocator, claimant).
Definition credential_grant_entries (g : CredentialGrant) : list (string * Value) :=
  [("application-id", VText (cgr_application_id g)); ("origin", VText (cgr_origin g)); ("scope", VText (cgr_scope g));
   ("recipient", VText (cgr_recipient g)); ("credential", VBytes (cgr_credential g))].
Definition encode_credential_grant `{UrlParser} (g : CredentialGrant) : profM bytes :=
  _ ← validate_credential_claims (credential_claims_of g);
  _ ← map_err payload_error (bounded_bytes (cgr_credential g) 1 62000);
  map_err payload_error (encode_map (credential_grant_entries g)).

Definition decode_credential_claims `{UrlParser} (allocator claimant : bytes) : profM CredentialIntentClaims :=
  allocator ← canonical_map allocator 3 ProfileError_InvalidClaim;
  claimant ← canonical_map claimant 1 ProfileError_InvalidClaim;
  application_id ← text_field allocator "application-id" 255 ProfileError_InvalidClaim;
  origin ← text_field allocator "origin" 255 ProfileError_InvalidClaim;
  scope ← text_field allocator "scope" 255 ProfileError_InvalidClaim;
  recipient ← text_field claimant "recipient" 255 ProfileError_InvalidClaim;
  let result := mkCredentialIntentClaims application_id origin scope recipient in
  _ ← validate_credential_claims result;
  Ok result.
Definition decode_credential_grant `{UrlParser} (input : bytes) : profM CredentialGrant :=
  fields ← canonical_map input 5 ProfileError_InvalidPayload;
  application_id ← text_field fields "application-id" 255 ProfileError_InvalidPayload;
  origin ← text_field fields "origin" 255 ProfileError_InvalidPayload;
  scope ← text_field fields "scope" 255 ProfileError_InvalidPayload;
  recipient ← text_field fields "recipient" 255 ProfileError_InvalidPayload;
  credential ← bytes_field fields "credential" 62000 ProfileError_InvalidPayload;
  let result := mkCredentialGrant application_id origin scope recipient credential in
  _ ← map_err payload_error (validate_credential_claims (credential_claims_of result));
  Ok result.

Definition credential_binding (c : CredentialIntentClaims) : profM bytes :=
  binding [CREDENTIAL_APPLICATION; CREDENTIAL_ACTION; cic_application_id c; cic_origin c; cic_scope c; cic_recipient c].

(** Synthetic. *)

Definition encode_synthetic_claims (c : SyntheticIntentClaims) : profM (bytes * bytes) :=
  _ ← validate_synthetic_claims c;
  allocator ← encode_map [("subject"%string, VText (sic_subject c))];
  claimant ← encode_map [("audience"%string, VText (sic_audience c))];
  Ok (allocator, claimant).
Definition synthetic_grant_entries (g : SyntheticGrant) : list (string * Value) :=
  [("subject", VText (sgr_subject g)); ("audience", VText (sgr_audience g)); ("grant", VBytes (sgr_grant g))].
Definition encode_synthetic_grant (g : SyntheticGrant) : profM bytes :=
  _ ← validate_synthetic_claims (synthetic_claims_of g);
  _ ← map_err payload_error (bounded_bytes (sgr_grant g) 1 63000);
  map_err payload_error (encode_map (synthetic_grant_entries g)).

Definition decode_synthetic_claims (allocator claimant : bytes) : profM SyntheticIntentClaims :=
  allocator ← canonical_map allocator 1 ProfileError_InvalidClaim;
  claimant ← canonical_map claimant 1 ProfileError_InvalidClaim;
  subject ← text_field allocator "subject" 128 ProfileError_InvalidClaim;
  audience ← text_field claimant "audience" 128 ProfileError_InvalidClaim;
  let result := mkSyntheticIntentClaims subject audience in
  _ ← validate_synthetic_claims result;
  Ok result.
Definition decode_synthetic_grant (input : bytes) : profM SyntheticGrant :=
  fields ← canonical_map input 3 ProfileError_InvalidPayload;
  subject ← text_field fields "subject" 128 ProfileError_InvalidPayload;
  audience ← text_field fields "audience" 128 ProfileError_InvalidPayload;
  grant ← bytes_field fields "grant" 63000 ProfileError_InvalidPayload;
  let result := mkSyntheticGrant subject audience grant in
  _ ← map_err payload_error (validate_synthetic_claims (synthetic_claims_of result));
  Ok result.

Definition synthetic_binding (c : SyntheticIntentClaims) : profM bytes :=
  binding [SYNTHETIC_APPLICATION; SYNTHETIC_ACTION; sic_subject c; sic_audience c].
End Bodies.

(** ** Two-word carriers *)

(** [bip39::Language::English]. *)
Class Bip39 := { find_word : string -> option Z; word_list : list string }.
Class Bip39Laws `{Bip39} : Prop := {
  word_count : length word_list = 2048%nat;
  find_word_spec w i : find_word w = Some i <-> 0 <= i /\ word_list !! Z.to_nat i = Some w
}.

(** [u16::to_be_bytes] and [from_be_bytes]. *)
Definition be16 (z : Z) : bytes := [z / 256; z mod 256].
Definition from_be16 (high low : Z) : Z := 256 * high + low.

Definition encode_agent_word_indices (first second : Z) : profM bytes :=
  if (2047 <? first) || (2047 <? second) then Err ProfileError_InvalidInvitation
  else Ok (be16 first ++ be16 second).

Record AgentWordPair := mkAgentWordPair { awp_indices : Z * Z; awp_secret : bytes }.

Definition from_csprng_octets (o0 o1 o2 : Z) : profM AgentWordPair :=
  let value := Z.shiftr (65536 * o0 + 256 * o1 + o2) 2 in
  let first := Z.land (Z.shiftr value 11) 2047 in
  let second := Z.land value 2047 in
  secret ← match encode_agent_word_indices first second with Ok s => Ok s | _ => Panic end;
  Ok (mkAgentWordPair (first, second) secret).

Definition recognise_words `{Bip39} (first second : string) : profM AgentWordPair :=
  first ← ok_or (find_word first) ProfileError_InvalidInvitation;
  second ← ok_or (find_word second) ProfileError_InvalidInvitation;
  secret ← encode_agent_word_indices first second;
  Ok (mkAgentWordPair (first, second) secret).

Definition word_at `{Bip39} (i : Z) : profM string := expect (word_list !! Z.to_nat i).
Definition words `{Bip39} (p : AgentWordPair) : profM (string * string) :=
  first ← word_at (awp_indices p).1;
  second ← word_at (awp_indices p).2;
  Ok (first, second).

(** ** The built-in profiles *)

Record AgentProfile (V : Type) := mkAgentProfile { ap_descriptor : ProfileDescriptor; ap_verifier : V }.
Record CredentialProfile (V : Type) := mkCredentialProfile { cp_descriptor : ProfileDescriptor; cp_verifier : V }.
Record SyntheticProfile := mkSyntheticProfile { sp_descriptor : ProfileDescriptor; sp_authorize : bool }.
Arguments mkAgentProfile {V}. Arguments ap_descriptor {V}. Arguments ap_verifier {V}.
Arguments mkCredentialProfile {V}. Arguments cp_descriptor {V}. Arguments cp_verifier {V}.

Definition AgentProfile_new {V} (verifier : V) : AgentProfile V := mkAgentProfile agent_descriptor verifier.
Definition CredentialProfile_new {V} (verifier : V) : CredentialProfile V :=
  mkCredentialProfile credential_descriptor verifier.
Definition SyntheticProfile_new (authorize : bool) : SyntheticProfile := mkSyntheticProfile synthetic_descriptor authorize.

Section Profiles.
Context `{Cbor, Sha256, UrlParser} {V : Type} `{GrantVerifier V}.

Definition agent_invitation (p : AgentProfile V) (i : Invitation) : profM unit :=
  _ ← common_invitation (ap_descriptor p) i;
  match iv_secret i with
  | [a; b; c; d] => _ ← encode_agent_word_indices (from_be16 a b) (from_be16 c d); Ok tt
  | _ => Err ProfileError_InvalidInvitation
  end.
Definition agent_intent (p : AgentProfile V) (i : PairingIntent) : profM ProfileIntent :=
  _ ← common_intent (ap_descriptor p) AGENT_ACTION i;
  claims ← decode_agent_claims (pi_allocator_claim i) (pi_claimant_claim i);
  b ← agent_binding claims;
  Ok (mkProfileIntent
        (display_intent i
           [display "channel" (aic_channel claims); display "claimed principal" (aic_claimed_principal claims);
            display "agent handle" (aic_agent_handle claims); display "requested grant" (aic_requested_grant claims)]) b).
Definition agent_payload (p : AgentProfile V) (b : bytes) (payload : ApplicationPayload) : profM RecognisedPayload :=
  _ ← payload_type (ap_descriptor p) payload;
  grant ← decode_agent_grant (ap_body payload);
  let claims := mkAgentIntentClaims EmptyString (agr_claimed_principal grant) (agr_agent_handle grant)
                  (agr_requested_grant grant) in
  expected ← agent_payload_binding claims;
  if negb (bool_decide (expected = b)) then Err ProfileError_InvalidPayload
  else Ok (recognised (ap_descriptor p) payload).
Definition agent_authorize (payload : RecognisedPayload) : stM (AgentProfile V) ProfileError AuthorisedGrant :=
  _ ← zoom ap_verifier (fun v p => mkAgentProfile (ap_descriptor p) v) id (verify payload);
  mret (payload_grant payload).

Definition credential_invitation (p : CredentialProfile V) (i : Invitation) : profM unit :=
  _ ← common_invitation (cp_descriptor p) i;
  if negb (length (iv_secret i) =? 16)%nat then Err ProfileError_InvalidInvitation else Ok tt.
Definition credential_intent (p : CredentialProfile V) (i : PairingIntent) : profM ProfileIntent :=
  _ ← common_intent (cp_descriptor p) CREDENTIAL_ACTION i;
  claims ← decode_credential_claims (pi_allocator_claim i) (pi_claimant_claim i);
  b ← credential_binding claims;
  Ok (mkProfileIntent
        (display_intent i
           [display "applicationId" (cic_application_id claims); display "HTTPS origin" (cic_origin claims);
            display "requested scope" (cic_scope claims); display "recipient" (cic_recipient claims)]) b).
Definition credential_payload (p : CredentialProfile V) (b : bytes) (payload : ApplicationPayload) :
    profM RecognisedPayload :=
  _ ← payload_type (cp_descriptor p) payload;
  grant ← decode_credential_grant (ap_body payload);
  expected ← credential_binding (credential_claims_of grant);
  if negb (bool_decide (expected = b)) then Err ProfileError_InvalidPayload
  else Ok (recognised (cp_descriptor p) payload).
Definition credential_authorize (payload : RecognisedPayload) : stM (CredentialProfile V) ProfileError AuthorisedGrant :=
  _ ← zoom cp_verifier (fun v p => mkCredentialProfile (cp_descriptor p) v) id (verify payload);
  mret (payload_grant payload).

Definition synthetic_invitation (p : SyntheticProfile) (i : Invitation) : profM unit :=
  _ ← common_invitation (sp_descriptor p) i;
  if negb (length (iv_secret i) =? 16)%nat then Err ProfileError_InvalidInvitation else Ok tt.
Definition synthetic_intent (p : SyntheticProfile) (i : PairingIntent) : profM ProfileIntent :=
  _ ← common_intent (sp_descriptor p) SYNTHETIC_ACTION i;
  claims ← decode_synthetic_claims (pi_allocator_claim i) (pi_claimant_claim i);
  b ← synthetic_binding claims;
  Ok (mkProfileIntent
        (display_intent i
           [display "synthetic subject" (sic_subject claims); display "synthetic audience" (sic_audience claims)]) b).
Definition synthetic_payload (p : SyntheticProfile) (b : bytes) (payload : ApplicationPayload) :
    profM RecognisedPayload :=
  _ ← payload_type (sp_descriptor p) payload;
  grant ← decode_synthetic_grant (ap_body payload);
  expected ← synthetic_binding (synthetic_claims_of grant);
  if negb (bool_decide (expected = b)) then Err ProfileError_InvalidPayload
  else Ok (recognised (sp_descriptor p) payload).
Definition synthetic_authorize (payload : RecognisedPayload) : stM SyntheticProfile ProfileError AuthorisedGrant :=
  p ← get;
  if negb (sp_authorize p) then throw ProfileError_Unauthorized else mret (payload_grant payload).

(** [recognise_intent] takes [&mut self] and leaves it as it is. *)
Definition reading {P A} (f : P -> profM A) : stM P ProfileError A := p ← get; lift (f p).

#[export] Instance agent_profile : ApplicationProfile (AgentProfile V) := {|
  descriptor := ap_descriptor;
  recognise_invitation := agent_invitation;
  recognise_intent i := reading (fun p => agent_intent p i);
  recognise_payload := agent_payload;
  authorize_payload := agent_authorize
|}.
#[export] Instance credential_profile : ApplicationProfile (CredentialProfile V) := {|
  descriptor := cp_descriptor;
  recognise_invitation := credential_invitation;
  recognise_intent i := reading (fun p => credential_intent p i);
  recognise_payload := credential_payload;
  authorize_payload := credential_authorize
|}.
#[export] Instance synthetic_profile : ApplicationProfile SyntheticProfile := {|
  descriptor := sp_descriptor;
  recognise_invitation := synthetic_invitation;
  recognise_intent i := reading (fun p => synthetic_intent p i);
  recognise_payload := synthetic_payload;
  authorize_payload := synthetic_authorize
|}.
End Profiles.
