(* ===== verification/ProfileThms.v ===== *)
(** * Properties of the application profiles

    Claim and grant bodies have one encoding each, grants are tied to the
    displayed intent by its digest, everything displayed is bounded and free of
    control characters, and two-word carriers are uniform. *)

From S2P Require Import Prelude External Instances Wire Cddl WireCodec WireLaws Profile.

(** ** Bodies and entries *)

Lemma matching_app f1 f2 k : matching (f1 ++ f2) k = matching f1 k ++ matching f2 k.
Proof. unfold matching. apply omap_app. Qed.

Lemma matching_perm fs fs' k : fs' ≡ₚ fs -> matching fs' k ≡ₚ matching fs k.
Proof. intros Hp. unfold matching. by rewrite Hp. Qed.

Lemma matching_texts_none l k : k ∉ map fst l -> matching (texts l) k = [].
Proof.
  induction l as [|[k' v'] l IH]; simpl; [done|]. intros Hk. apply not_elem_of_cons in Hk as [Hne Hk].
  rewrite bool_decide_eq_false_2 by congruence. by apply IH.
Qed.

Lemma matching_texts l k v : NoDup (map fst l) -> (k, v) ∈ l -> matching (texts l) k = [v].
Proof.
  induction l as [|[k' v'] l IH]; simpl; intros Hnd Hin; [set_solver|].
  apply NoDup_cons in Hnd as [Hk' Hnd]. apply elem_of_cons in Hin as [[= <- <-]|Hin].
  - rewrite bool_decide_eq_true_2 by done. f_equal. by apply matching_texts_none.
  - rewrite bool_decide_eq_false_2; [by apply IH|]. intros ->. apply Hk'. by apply (list_elem_of_fmap_2 fst _ (k, v)).
Qed.

Lemma sole_field_ok fs k e v : sole_field fs k e = Ok v <-> matching fs k = [v].
Proof. unfold sole_field. destruct (matching fs k) as [|? [|]]; split; congruence. Qed.

(** An entry with this key can be taken out of the list. *)
Lemma matching_take fs k v : v ∈ matching fs k -> exists rest, fs ≡ₚ (VText k, v) :: rest.
Proof.
  intros ([key w] & Hin & Hm)%list_elem_of_omap. destruct key as [| | |s| | | | |]; try done. simpl in Hm.
  case_bool_decide; simplify_eq. apply list_elem_of_split in Hin as (f1 & f2 & ->).
  exists (f1 ++ f2). by rewrite <- Permutation_middle.
Qed.

Lemma sole_fields_perm l : forall fs, NoDup (map fst l) -> length fs = length l ->
  (forall k v, (k, v) ∈ l -> matching fs k = [v]) -> fs ≡ₚ texts l.
Proof.
  induction l as [|[k v] l IH]; intros fs Hnd Hlen Hm; [by destruct fs|].
  apply NoDup_cons in Hnd as [Hk Hnd].
  destruct (matching_take fs k v) as [rest Hp]; [rewrite (Hm k v); set_solver|].
  simpl. rewrite Hp. apply perm_skip, IH; [done| |].
  - rewrite Hp in Hlen. simpl in Hlen. lia.
  - intros k' v' Hin. pose proof (Hm k' v' ltac:(set_solver)) as Hm'.
    apply (matching_perm _ _ k') in Hp. rewrite Hm' in Hp. simpl in Hp.
    rewrite bool_decide_eq_false_2 in Hp; [by apply Permutation_singleton_l in Hp|].
    intros <-. apply Hk. by apply (list_elem_of_fmap_2 fst _ (k, v')).
Qed.

Section Bodies.
Context `{Cbor, !CborLaws}.

Lemma canonical_map_ok input n e fs : canonical_map input n e = Ok fs <->
  from_reader input = Some (VMap fs, blen input) /\ to_canonical_vec (VMap fs) = Some input /\ length fs = n.
Proof.
  unfold canonical_map. rewrite bind_ok. split.
  - intros ([v pos] & Hr%ok_or_ok & Hb). destruct (_ =? _) eqn:Hpos; [|done]. simpl in Hb. bool_to_prop. subst pos.
    apply bind_ok in Hb as (c & Hc%ok_or_ok & Hb). destruct (bool_decide _) eqn:Heq; [|done]. simpl in Hb.
    bool_to_prop. subst c. destruct v; try done. destruct (_ =? _)%nat eqn:Hn; [|done]. injection Hb as ->.
    by apply Nat.eqb_eq in Hn.
  - intros (Hr & Hc & Hn). exists (VMap fs, blen input). split; [by apply ok_or_ok|].
    rewrite Z.eqb_refl. simpl. rewrite Hc. simpl. by rewrite bool_decide_eq_true_2, (proj2 (Nat.eqb_eq _ _)).
Qed.

(** A body is read from the octets that are written for its entries. *)
Lemma body_read l input e : plain_entries l -> to_canonical_vec (text_map l) = Some input ->
  exists fs, canonical_map input (length l) e = Ok fs /\ Forall (fun kv => matching fs kv.1 = [kv.2]) l.
Proof.
  intros Hl Hw. destruct (map_read l input Hl Hw) as (l' & Hp & Hr). exists (texts l'). split.
  - apply canonical_map_ok. split; [done|]. split.
    + rewrite <- Hw. symmetry. symmetry in Hp. apply (map_order l' l); [|done].
      destruct Hl as [Hnd Hpl]. split; [by rewrite <- Hp|by rewrite <- Hp].
    + unfold texts. by rewrite length_map, Hp.
  - apply Forall_forall. intros [k v] Hin. apply matching_texts; [rewrite Hp; apply Hl|by rewrite Hp].
Qed.

Lemma body_written l input fs e : plain_entries l -> canonical_map input (length l) e = Ok fs ->
  (forall k v, (k, v) ∈ l -> matching fs k = [v]) -> to_canonical_vec (text_map l) = Some input.
Proof.
  intros Hl (Hr & Hc & Hn)%canonical_map_ok Hm. pose proof (sole_fields_perm l fs (proj1 Hl) Hn Hm) as Hp.
  assert (exists l', fs = texts l' /\ l' ≡ₚ l) as (l' & -> & Hp').
  { apply Permutation_map_inv in Hp as (l' & -> & Hp). by exists l'. }
  rewrite <- Hc. symmetry. by apply (map_order l l').
Qed.

(** ** Fields *)

Lemma bounded_text_ok s max u : bounded_text s max = Ok u <->
  0 < blen (ascii_bytes s) <= max /\ any_control (ascii_bytes s) = false.
Proof.
  unfold bounded_text. pose proof (blen_nonneg (ascii_bytes s)). destruct u.
  destruct (_ || _) eqn:Hb.
  - apply orb_true_iff in Hb as [Hb|Hb]; [apply orb_true_iff in Hb as [Hb|Hb]; bool_to_prop|]; (split; [done|]).
    all: intros [? ?]; first [lia|congruence].
  - apply orb_false_iff in Hb as [[Hz Hm]%orb_false_iff Hc]. bool_to_prop. split; [intros _; split; [lia|done]|done].
Qed.

Lemma bounded_bytes_ok b lo hi u : bounded_bytes b lo hi = Ok u <-> lo <= blen b <= hi.
Proof.
  unfold bounded_bytes. destruct u. destruct (_ || _) eqn:Hb.
  - apply orb_true_iff in Hb as [Hb|Hb]; bool_to_prop; split; try done; lia.
  - apply orb_false_iff in Hb as [Hlo Hhi]. bool_to_prop. split; [lia|done].
Qed.

Lemma map_err_ok {E F A} (f : E -> F) (m : outcome E A) a : map_err f m = Ok a <-> m = Ok a.
Proof. destruct m; simpl; split; congruence. Qed.

Lemma text_field_ok fs k max e s : text_field fs k max e = Ok s <->
  matching fs k = [VText s] /\ bounded_text s max = Ok tt.
Proof.
  unfold text_field. rewrite bind_ok. setoid_rewrite sole_field_ok. split.
  - intros (v & Hm & Hs). destruct v as [| | |t| | | | |]; try done.
    apply bind_ok in Hs as ([] & Hb%map_err_ok & [= <-]). done.
  - intros [Hm Hb]. exists (VText s). split; [done|]. by rewrite Hb.
Qed.

Lemma bytes_field_ok fs k max e b : bytes_field fs k max e = Ok b <->
  matching fs k = [VBytes b] /\ 1 <= blen b <= max.
Proof.
  unfold bytes_field. rewrite bind_ok. setoid_rewrite sole_field_ok. split.
  - intros (v & Hm & Hs). destruct v as [|t| | | | | | |]; try done.
    apply bind_ok in Hs as ([] & Hb%map_err_ok%bounded_bytes_ok & [= <-]). done.
  - intros [Hm Hb]. exists (VBytes b). split; [done|]. by rewrite (proj2 (bounded_bytes_ok b 1 max tt) Hb).
Qed.

Lemma encode_map_ok l b : encode_map l = Ok b <-> to_canonical_vec (text_map l) = Some b.
Proof. apply ok_or_ok. Qed.
End Bodies.

(** Unfold the steps of a successful computation. *)
Ltac ok_steps :=
  repeat match goal with
  | H : mbind _ _ = Ok _ |- _ => apply bind_ok in H as (? & ? & ?)
  | H : map_err _ _ = Ok _ |- _ => apply map_err_ok in H
  | H : text_field _ _ _ _ = Ok _ |- _ => apply text_field_ok in H as [? ?]
  | H : bytes_field _ _ _ _ = Ok _ |- _ => apply bytes_field_ok in H as [? ?]
  | H : encode_map _ = Ok _ |- _ => apply encode_map_ok in H
  | H : Ok _ = Ok _ |- _ => injection H; clear H; intros; subst
  | H : bounded_text _ _ = Ok ?u |- _ => is_var u; destruct u
  | H : bounded_bytes _ _ _ = Ok _ |- _ => apply bounded_bytes_ok in H
  | u : unit |- _ => destruct u
  end.

(** Close [plain_entries] of literal entries. *)
Ltac plain_literal :=
  split; [apply (bool_decide_unpack _); by vm_compute|repeat (apply Forall_cons; split; [done|]); by apply Forall_nil].

(** Match every entry of a literal list. *)
Ltac entry_cases :=
  intros ? ? Hin; repeat (apply elem_of_cons in Hin as [Hin|Hin]; [injection Hin as -> ->; assumption|]);
  by apply elem_of_nil in Hin.

(** ** One encoding per claim and per grant *)

Lemma plain_agent_allocator c : plain_entries (agent_allocator_entries c).
Proof. plain_literal. Qed.
Lemma plain_agent_claimant c : plain_entries (agent_claimant_entries c).
Proof. plain_literal. Qed.
Lemma plain_agent_grant g : plain_entries (agent_grant_entries g).
Proof. plain_literal. Qed.
Lemma plain_credential_allocator c : plain_entries (credential_allocator_entries c).
Proof. plain_literal. Qed.
Lemma plain_credential_claimant c : plain_entries (credential_claimant_entries c).
Proof. plain_literal. Qed.
Lemma plain_credential_grant g : plain_entries (credential_grant_entries g).
Proof. plain_literal. Qed.
Lemma plain_text k s : plain_entries [(k, VText s)].
Proof. split; [apply NoDup_singleton|by apply Forall_singleton]. Qed.
Lemma plain_synthetic_grant g : plain_entries (synthetic_grant_entries g).
Proof. plain_literal. Qed.
#[export] Hint Resolve plain_agent_allocator plain_agent_claimant plain_agent_grant plain_credential_allocator
  plain_credential_claimant plain_credential_grant plain_text plain_synthetic_grant : pairing.

Section Inverses.
Context `{Cbor, !CborLaws, Sha256, UrlParser}.

Ltac step_bodies :=
  progress cbn [mbind outcome_bind map_err fst snd aic_channel aic_claimed_principal aic_agent_handle aic_requested_grant agr_claimed_principal
    agr_agent_handle agr_requested_grant agr_grant cic_application_id cic_origin cic_scope cic_recipient
    cgr_application_id cgr_origin cgr_scope cgr_recipient cgr_credential sic_subject sic_audience sgr_subject
    sgr_audience sgr_grant] in *.

(** Write the body whose entries were all found, and read back a body that was
    written. *)
Ltac write_bodies :=
  repeat match goal with
  | Hc : canonical_map ?b _ ?e = Ok ?fs |- context [encode_map ?l] =>
      rewrite (proj2 (encode_map_ok l b)) by (apply (body_written l b fs e); [auto with pairing|exact Hc|entry_cases])
  | H : ?m = Ok tt |- context [?m] => rewrite H
  | |- context [bounded_bytes ?b ?lo ?hi] => rewrite (proj2 (bounded_bytes_ok b lo hi tt)) by assumption
  | _ => step_bodies
  end.
Ltac read_bodies :=
  repeat match goal with
  | H : to_canonical_vec (text_map ?l) = Some ?b |- context [canonical_map ?b _ ?e] =>
      let fs := fresh "fs" in let Hf := fresh "Hf" in let Hm := fresh "Hm" in
      destruct (body_read l b e ltac:(auto with pairing) H) as (fs & Hf & Hm); clear H;
      let n := eval cbv in (length l) in change (length l) with n in Hf; rewrite Hf;
      cbv delta [agent_allocator_entries agent_claimant_entries agent_grant_entries credential_allocator_entries
        credential_claimant_entries credential_grant_entries synthetic_grant_entries] beta in Hm;
      rewrite ?Forall_cons in Hm; cbn in Hm; destruct_and? Hm
  | Hm : matching ?fs ?k = [VText ?s] |- context [text_field ?fs ?k ?max ?e] =>
      rewrite (proj2 (text_field_ok fs k max e s)) by (split; assumption)
  | Hm : matching ?fs ?k = [VBytes ?s] |- context [bytes_field ?fs ?k ?max ?e] =>
      rewrite (proj2 (bytes_field_ok fs k max e s)) by (split; assumption)
  | H : ?m = Ok tt |- context [?m] => rewrite H
  | _ => step_bodies
  end.

Lemma agent_claims_inverse a c claims :
  decode_agent_claims a c = Ok claims <-> encode_agent_claims claims = Ok (a, c).
Proof.
  unfold decode_agent_claims, encode_agent_claims. split; intros H'.
  - ok_steps. by write_bodies.
  - destruct claims. ok_steps. match goal with H : validate_agent_claims _ = _ |- _ => pose proof H as Hv end.
    unfold validate_agent_claims, validate_agent_texts in Hv. step_bodies. ok_steps. by read_bodies.
Qed.

Lemma agent_grant_inverse b g : decode_agent_grant b = Ok g <-> encode_agent_grant g = Ok b.
Proof.
  unfold decode_agent_grant, encode_agent_grant. split; intros H'.
  - ok_steps. by write_bodies.
  - destruct g. ok_steps. step_bodies. match goal with H : validate_agent_texts _ _ _ = _ |- _ => pose proof H as Hv end.
    unfold validate_agent_texts in Hv. ok_steps. by read_bodies.
Qed.

(** The credential origin is bounded by its field alone. *)
Lemma credential_claims_inverse a c claims :
  decode_credential_claims a c = Ok claims <->
  blen (ascii_bytes (cic_origin claims)) <= 255 /\ any_control (ascii_bytes (cic_origin claims)) = false /\
  cic_origin claims <> EmptyString /\ encode_credential_claims claims = Ok (a, c).
Proof.
  unfold decode_credential_claims, encode_credential_claims. split.
  - intros H'. ok_steps. step_bodies.
    match goal with H : bounded_text ?o 255 = _ |- context [blen (ascii_bytes ?o)] =>
      pose proof (proj1 (bounded_text_ok o 255 tt) H) as [Ho Hc] end.
    split_and!; [lia|done| |by write_bodies]. intros ->. by vm_compute in Ho.
  - intros (Ho & Hc & He & H'). destruct claims as [application_id o scope recipient]. ok_steps. step_bodies.
    match goal with H : validate_credential_claims _ = _ |- _ => pose proof H as Hv end.
    unfold validate_credential_claims in Hv. step_bodies. ok_steps.
    assert (bounded_text o 255 = Ok tt).
    { apply bounded_text_ok. split; [|done]. destruct o; [done|]. unfold blen, ascii_bytes in *. simpl in *. lia. }
    by read_bodies.
Qed.

Lemma credential_grant_inverse b g :
  decode_credential_grant b = Ok g <->
  blen (ascii_bytes (cgr_origin g)) <= 255 /\ any_control (ascii_bytes (cgr_origin g)) = false /\
  cgr_origin g <> EmptyString /\ encode_credential_grant g = Ok b.
Proof.
  unfold decode_credential_grant, encode_credential_grant, credential_claims_of. split.
  - intros H'. ok_steps. step_bodies.
    match goal with H : bounded_text ?o 255 = _ |- context [blen (ascii_bytes ?o)] =>
      pose proof (proj1 (bounded_text_ok o 255 tt) H) as [Ho Hc] end.
    split_and!; [lia|done| |by write_bodies]. intros ->. by vm_compute in Ho.
  - intros (Ho & Hc & He & H'). destruct g as [application_id o scope recipient credential]. ok_steps. step_bodies.
    match goal with H : validate_credential_claims _ = _ |- _ => pose proof H as Hv end.
    unfold validate_credential_claims in Hv. step_bodies. ok_steps.
    assert (bounded_text o 255 = Ok tt).
    { apply bounded_text_ok. split; [|done]. destruct o; [done|]. unfold blen, ascii_bytes in *. simpl in *. lia. }
    by read_bodies.
Qed.

Lemma synthetic_claims_inverse a c claims :
  decode_synthetic_claims a c = Ok claims <-> encode_synthetic_claims claims = Ok (a, c).
Proof.
  unfold decode_synthetic_claims, encode_synthetic_claims. split; intros H'.
  - ok_steps.  by write_bodies.
  - destruct claims. ok_steps. match goal with H : validate_synthetic_claims _ = _ |- _ => pose proof H as Hv end.
    unfold validate_synthetic_claims in Hv. step_bodies. ok_steps. by read_bodies.
Qed.

Lemma synthetic_grant_inverse b g : decode_synthetic_grant b = Ok g <-> encode_synthetic_grant g = Ok b.
Proof.
  unfold decode_synthetic_grant, encode_synthetic_grant, synthetic_claims_of. split; intros H'.
  - ok_steps. by write_bodies.
  - destruct g. ok_steps. step_bodies.
    match goal with H : validate_synthetic_claims _ = _ |- _ => pose proof H as Hv end.
    unfold validate_synthetic_claims in Hv. step_bodies. ok_steps. by read_bodies.
Qed.

(** ** Digests of bound fields *)

(** Two lists of bound fields whose different encodings have one digest. *)
Definition binding_collision (fs fs' : list string) : Prop :=
  exists e e', to_canonical_vec (VArray (map VText fs)) = Some e /\
    to_canonical_vec (VArray (map VText fs')) = Some e' /\ e <> e' /\ sha256 e = sha256 e'.

Lemma binding_inj fs fs' h : binding fs = Ok h -> binding fs' = Ok h -> fs = fs' \/ binding_collision fs fs'.
Proof.
  unfold binding. intros (e & He%ok_or_ok & [= <-])%bind_ok (e' & He'%ok_or_ok & [= Hh])%bind_ok.
  assert (forall l, plain (VArray (map VText l)) = true) as Hpl.
  { intros l. induction l; [done|]. simpl in *. done. }
  destruct (decide (e = e')) as [<-|Hne]; [left|right; by exists e, e'].
  pose proof (plain_written_inj _ _ e (Hpl fs) (Hpl fs') He He') as [= Heq].
  clear -Heq. revert fs' Heq. induction fs as [|f fs IH]; intros [|f' fs'] Heq; try done.
  injection Heq as -> Heq. f_equal. by apply IH.
Qed.
End Inverses.
