(* ===== verification/ProfileProps.v ===== *)
(** * What the profiles promise

    The properties of [src/profile.rs], with concrete runs. *)

From stdpp Require Import pretty.
From S2P Require Import Prelude External Instances Wire Cddl WireCodec WireLaws Profile ProfileThms.

(** C37. One encoding per claim and per grant.  For each built-in profile the
    claim bodies and the grant body are read from exactly the octets that are
    written for them; a credential is read only with an origin of at most 255
    octets, which its encoder does not check. *)
Theorem profile_bodies_inverse `{Cbor, !CborLaws, UrlParser} :
  (forall a c claims, decode_agent_claims a c = Ok claims <-> encode_agent_claims claims = Ok (a, c)) /\
  (forall b g, decode_agent_grant b = Ok g <-> encode_agent_grant g = Ok b) /\
  (forall a c claims, decode_credential_claims a c = Ok claims <->
     blen (ascii_bytes (cic_origin claims)) <= 255 /\ any_control (ascii_bytes (cic_origin claims)) = false /\
     cic_origin claims <> EmptyString /\ encode_credential_claims claims = Ok (a, c)) /\
  (forall b g, decode_credential_grant b = Ok g <->
     blen (ascii_bytes (cgr_origin g)) <= 255 /\ any_control (ascii_bytes (cgr_origin g)) = false /\
     cgr_origin g <> EmptyString /\ encode_credential_grant g = Ok b) /\
  (forall a c claims, decode_synthetic_claims a c = Ok claims <-> encode_synthetic_claims claims = Ok (a, c)) /\
  (forall b g, decode_synthetic_grant b = Ok g <-> encode_synthetic_grant g = Ok b).
Proof.
  split_and!; intros *.
  - apply agent_claims_inverse.
  - apply agent_grant_inverse.
  - apply credential_claims_inverse.
  - apply credential_grant_inverse.
  - apply synthetic_claims_inverse.
  - apply synthetic_grant_inverse.
Qed.

(** The labels and values a person is shown. *)
Definition shown (pi : ProfileIntent) : list (string * string) :=
  map (fun f => (df_label f, df_value f)) (di_fields (pri_display pi)).

(** Either the fields of the grant are the ones shown, or these two lists of
    bound fields collide. *)
Definition agent_shown `{Cbor, Sha256} (pi : ProfileIntent) (g : AgentGrant) : Prop :=
  exists channel principal handle requested,
    shown pi = [("channel", channel); ("claimed principal", principal);
                ("agent handle", handle); ("requested grant", requested)] /\
    ([principal; handle; requested] = [agr_claimed_principal g; agr_agent_handle g; agr_requested_grant g] \/
     binding_collision [AGENT_APPLICATION; AGENT_ACTION; principal; handle; requested]
       [AGENT_APPLICATION; AGENT_ACTION; agr_claimed_principal g; agr_agent_handle g; agr_requested_grant g]).
Definition credential_shown `{Cbor, Sha256} (pi : ProfileIntent) (g : CredentialGrant) : Prop :=
  exists application origin scope recipient,
    shown pi = [("applicationId", application); ("HTTPS origin", origin);
                ("requested scope", scope); ("recipient", recipient)] /\
    ([application; origin; scope; recipient] =
       [cgr_application_id g; cgr_origin g; cgr_scope g; cgr_recipient g] \/
     binding_collision [CREDENTIAL_APPLICATION; CREDENTIAL_ACTION; application; origin; scope; recipient]
       [CREDENTIAL_APPLICATION; CREDENTIAL_ACTION; cgr_application_id g; cgr_origin g; cgr_scope g; cgr_recipient g]).
Definition synthetic_shown `{Cbor, Sha256} (pi : ProfileIntent) (g : SyntheticGrant) : Prop :=
  exists subject audience,
    shown pi = [("synthetic subject", subject); ("synthetic audience", audience)] /\
    ([subject; audience] = [sgr_subject g; sgr_audience g] \/
     binding_collision [SYNTHETIC_APPLICATION; SYNTHETIC_ACTION; subject; audience]
       [SYNTHETIC_APPLICATION; SYNTHETIC_ACTION; sgr_subject g; sgr_audience g]).

Section Grants.
Context `{Cbor, !CborLaws, Sha256, UrlParser} {V : Type} `{GrantVerifier V}.

Lemma check_equal (a b : bytes) {A} (e : ProfileError) (k r : A) :
  (if negb (bool_decide (a = b)) then Err e else Ok k) = Ok r -> a = b /\ r = k.
Proof. destruct (bool_decide _) eqn:Hb; [|done]. intros [= <-]. by bool_to_prop. Qed.

(** The digests that were compared are those of the shown and of the granted
    fields. *)
Ltac bound_fields :=
  match goal with H : (if negb (bool_decide _) then _ else _) = Ok _ |- _ => apply check_equal in H as [-> ->] end;
  cbn [pri_binding] in *;
  match goal with H : binding _ = Ok ?h, H' : binding _ = Ok ?h |- _ =>
    destruct (binding_inj _ _ _ H H') as [Heq|Hc] end.

Lemma agent_grant_matches (p p' : AgentProfile V) i pi payload r :
  agent_intent p i = Ok pi -> agent_payload p' (pri_binding pi) payload = Ok r ->
  exists g, decode_agent_grant (ap_body payload) = Ok g /\ rp_body r = ap_body payload /\ agent_shown pi g.
Proof.
  unfold agent_intent, agent_payload, agent_binding, agent_payload_binding.
  intros Hi Hp. ok_steps. bound_fields; (eexists; split; [eassumption|split; [done|]]); do 4 eexists;
    (split; [done|]); [left|by right]. simpl in *. congruence.
Qed.

Lemma credential_grant_matches (p p' : CredentialProfile V) i pi payload r :
  credential_intent p i = Ok pi -> credential_payload p' (pri_binding pi) payload = Ok r ->
  exists g, decode_credential_grant (ap_body payload) = Ok g /\ rp_body r = ap_body payload /\ credential_shown pi g.
Proof.
  unfold credential_intent, credential_payload, credential_binding, credential_claims_of.
  intros Hi Hp. ok_steps. bound_fields; (eexists; split; [eassumption|split; [done|]]); do 4 eexists;
    (split; [done|]); [left|by right]. simpl in *. congruence.
Qed.

Lemma synthetic_grant_matches p p' i pi payload r :
  synthetic_intent p i = Ok pi -> synthetic_payload p' (pri_binding pi) payload = Ok r ->
  exists g, decode_synthetic_grant (ap_body payload) = Ok g /\ rp_body r = ap_body payload /\ synthetic_shown pi g.
Proof.
  unfold synthetic_intent, synthetic_payload, synthetic_binding, synthetic_claims_of.
  intros Hi Hp. ok_steps. bound_fields; (eexists; split; [eassumption|split; [done|]]); do 2 eexists;
    (split; [done|]); [left|by right]. simpl in *. congruence.
Qed.
End Grants.

(** The grant is the one that was shown.  When a payload is recognised
    against the binding of a recognised intent, the fields it repeats are
    exactly the ones the person was shown with that intent, for each built-in
    profile, unless the encodings of those two lists of fields are a SHA-256
    collision. *)
Theorem grant_matches_intent `{Cbor, !CborLaws, Sha256, UrlParser} {V} `{GrantVerifier V}
    (a : AgentProfile V) (c : CredentialProfile V) (s : SyntheticProfile) i pi payload r :
  (agent_intent a i = Ok pi -> agent_payload a (pri_binding pi) payload = Ok r ->
     exists g, decode_agent_grant (ap_body payload) = Ok g /\ rp_body r = ap_body payload /\ agent_shown pi g) /\
  (credential_intent c i = Ok pi -> credential_payload c (pri_binding pi) payload = Ok r ->
     exists g, decode_credential_grant (ap_body payload) = Ok g /\ rp_body r = ap_body payload /\
       credential_shown pi g) /\
  (synthetic_intent s i = Ok pi -> synthetic_payload s (pri_binding pi) payload = Ok r ->
     exists g, decode_synthetic_grant (ap_body payload) = Ok g /\ rp_body r = ap_body payload /\
       synthetic_shown pi g).
Proof.
  split_and!; intros Hi Hp.
  - by apply (agent_grant_matches a a i).
  - by apply (credential_grant_matches c c i).
  - by apply (synthetic_grant_matches s s i).
Qed.

(** ** Two-word carriers *)

Lemma word_index v : Z.land v 2047 = v `mod` 2048.
Proof. change 2047 with (Z.ones 11). by rewrite Z.land_ones. Qed.

Lemma csprng_indices o0 o1 o2 :
  0 <= o0 <= 255 -> 0 <= o1 <= 255 -> 0 <= o2 <= 255 ->
  let v := (65536 * o0 + 256 * o1 + o2) / 4 in
  from_csprng_octets o0 o1 o2 =
    Ok (mkAgentWordPair (v / 2048, v `mod` 2048) (be16 (v / 2048) ++ be16 (v `mod` 2048))) /\
  0 <= v / 2048 < 2048 /\ 0 <= v `mod` 2048 < 2048.
Proof.
  intros H0 H1 H2 v. set (f := v / 2048). set (s := v `mod` 2048).
  assert (0 <= v < 2048 * 2048) as Hv by (unfold v; Z.div_mod_to_equations; lia).
  assert (0 <= f < 2048) as Hf by (unfold f; Z.div_mod_to_equations; lia).
  assert (0 <= s < 2048) as Hs by (unfold s; Z.div_mod_to_equations; lia).
  split; [|done]. unfold from_csprng_octets. rewrite !word_index, !Z.shiftr_div_pow2 by lia.
  change (2 ^ 2) with 4. change (2 ^ 11) with 2048. fold v. fold f. fold s. rewrite (Z.mod_small f) by done.
  unfold encode_agent_word_indices. by rewrite !(proj2 (Z.ltb_ge _ _)) by lia.
Qed.

Lemma words_recognised `{Bip39, !Bip39Laws} f s :
  0 <= f < 2048 -> 0 <= s < 2048 ->
  exists w w', words (mkAgentWordPair (f, s) (be16 f ++ be16 s)) = Ok (w, w') /\
    recognise_words w w' = Ok (mkAgentWordPair (f, s) (be16 f ++ be16 s)).
Proof.
  intros Hf Hs. pose proof word_count as Hn.
  destruct (lookup_lt_is_Some_2 word_list (Z.to_nat f)) as [w Hw]; [lia|].
  destruct (lookup_lt_is_Some_2 word_list (Z.to_nat s)) as [w' Hw']; [lia|].
  exists w, w'. unfold words, word_at, recognise_words. simpl. rewrite Hw, Hw'.
  rewrite (proj2 (find_word_spec w f)), (proj2 (find_word_spec w' s)) by (split; [lia|done]).
  unfold encode_agent_word_indices. simpl. by rewrite !(proj2 (Z.ltb_ge _ _)) by lia.
Qed.

Lemma from_be16_be16 z : 0 <= z -> from_be16 (z / 256) (z mod 256) = z.
Proof. intros Hz. unfold from_be16. pose proof (Z.div_mod z 256). lia. Qed.

(** A two-word carrier is uniform and complete.  Three random octets never
    panic; they choose the words [f] and [s] exactly when they are one of the
    four values above [4 * (2048 * f + s)], so every pair is as likely as every
    other; the words spell out the carrier and are recognised as the same one;
    and the agent profile accepts its secret wherever it accepts the
    invitation's application and locator. *)
Theorem word_carrier `{Bip39, !Bip39Laws} {V} (profile : AgentProfile V) i o0 o1 o2 :
  0 <= o0 <= 255 -> 0 <= o1 <= 255 -> 0 <= o2 <= 255 ->
  exists p, from_csprng_octets o0 o1 o2 = Ok p /\
    (forall f s, 0 <= f < 2048 -> 0 <= s < 2048 ->
       (awp_indices p = (f, s) <->
        4 * (2048 * f + s) <= 65536 * o0 + 256 * o1 + o2 < 4 * (2048 * f + s) + 4)) /\
    (exists w w', words p = Ok (w, w') /\ recognise_words w w' = Ok p) /\
    (iv_secret i = awp_secret p -> agent_invitation profile i = common_invitation (ap_descriptor profile) i).
Proof.
  intros Ho0 Ho1 Ho2. destruct (csprng_indices o0 o1 o2 Ho0 Ho1 Ho2) as (Hp & Hf & Hs).
  set (v := (65536 * o0 + 256 * o1 + o2) / 4) in *. eexists. split; [exact Hp|]. split_and!.
  - intros f s Hf' Hs'. simpl. assert (awp_iff : v = 2048 * f + s <-> (v / 2048, v `mod` 2048) = (f, s)).
    { split; [intros Hv; f_equal|intros [= <- <-]]; Z.div_mod_to_equations; lia. }
    rewrite <- awp_iff. unfold v. Z.div_mod_to_equations; lia.
  - by apply words_recognised.
  - intros Hi. unfold agent_invitation. rewrite Hi. simpl. destruct (common_invitation _ _) as [[]| |]; [|done..].
    simpl. rewrite !from_be16_be16 by lia. unfold encode_agent_word_indices.
    by rewrite !(proj2 (Z.ltb_ge _ _)) by lia.
Qed.

(** ** Concrete runs *)

(** Words that spell their own index. *)
Definition numerals : list string := map pretty (seqZ 0 2048).
Lemma numerals_nodup : NoDup numerals.
Proof. apply (NoDup_fmap_2 pretty), NoDup_seqZ. Qed.
#[local] Instance numbered_words : Bip39 := {|
  find_word w := Z.of_nat ∘ fst <$> list_find (eq w) numerals;
  word_list := numerals
|}.
#[local] Instance numbered_laws : Bip39Laws.
Proof.
  split; [by vm_compute|]. unfold find_word, word_list, numbered_words.
  intros w i. rewrite fmap_Some. split.
  - intros ([k y] & (Hk & <- & _)%list_find_Some & ->). cbn. rewrite Nat2Z.id. split; [lia|done].
  - intros [Hi Hl]. exists (Z.to_nat i, w). split; [|cbn; lia]. apply list_find_Some. split_and!; [done..|].
    intros j y Hj Hlt ->. apply (NoDup_lookup _ _ _ _ numerals_nodup Hj) in Hl. lia.
Qed.

Lemma word_carrier_witness :
  exists p, from_csprng_octets 255 1 2 = Ok p /\ words p = Ok ("2040", "64")%string /\
    awp_secret p = [7; 248; 0; 64] /\ recognise_words "2040" "64" = Ok p.
Proof.
  destruct (word_carrier (mkAgentProfile agent_descriptor tt)
    (mkInvitation EmptyString EmptyString (Locator_Nameplate 7) [7; 248; 0; 64] None None) 255 1 2)
    as (p & Hp & _ & (w & w' & Hw & Hr) & _); [lia..|].
  assert (p = mkAgentWordPair (2040, 64) [7; 248; 0; 64]) as ->
    by (vm_compute in Hp; by injection Hp as <-).
  eexists. split; [done|]. vm_compute in Hw. injection Hw as <- <-. split; [by vm_compute|]. split; [done|exact Hr].
Defined.

(** Every URL is its own origin, over https and with the rest as host. *)
#[local] Instance own_origins : UrlParser := fun s =>
  Some (mkUrl EmptyString None None None "/" s "https" (Some (String.substring 8 (String.length s - 8) s)) None).
#[local] Instance demo_verifier : GrantVerifier unit := fun _ => mret tt.

Definition demo_grant : CredentialGrant :=
  mkCredentialGrant "app" "https://example.test" "read" "phone" [1; 2; 3].

Lemma profile_bodies_inverse_witness :
  exists b, encode_credential_grant demo_grant = Ok b /\ decode_credential_grant b = Ok demo_grant.
Proof.
  assert (exists b, encode_credential_grant demo_grant = Ok b) as [b Hb] by (eexists; by vm_compute).
  exists b. split; [exact Hb|]. apply profile_bodies_inverse. by split_and!; vm_compute.
Defined.

(** A synthetic intent and the payload for it. *)
Definition demo_subject : SyntheticGrant := mkSyntheticGrant "subject" "audience" [9].
Definition demo_intent : option PairingIntent :=
  match encode_synthetic_claims (synthetic_claims_of demo_subject) with
  | Ok (a, c) => Some (mkPairingIntent SYNTHETIC_APPLICATION SYNTHETIC_ACTION a c EmptyString [])
  | _ => None
  end.
Definition demo_payload : option ApplicationPayload :=
  match encode_synthetic_grant demo_subject with
  | Ok b => Some (mkApplicationPayload [] SYNTHETIC_PAYLOAD b)
  | _ => None
  end.

Lemma grant_matches_intent_witness :
  exists i payload pi r, demo_intent = Some i /\ demo_payload = Some payload /\
    synthetic_intent (SyntheticProfile_new true) i = Ok pi /\
    synthetic_payload (SyntheticProfile_new true) (pri_binding pi) payload = Ok r /\
    exists g, decode_synthetic_grant (ap_body payload) = Ok g /\ rp_body r = ap_body payload /\ synthetic_shown pi g.
Proof.
  destruct demo_intent as [i|] eqn:Hi; [|by vm_compute in Hi].
  destruct demo_payload as [p|] eqn:Hp; [|by vm_compute in Hp].
  exists i, p.
  assert (exists pi r, synthetic_intent (SyntheticProfile_new true) i = Ok pi /\
    synthetic_payload (SyntheticProfile_new true) (pri_binding pi) p = Ok r) as (pi & r & Hpi & Hr).
  { vm_compute in Hi, Hp. injection Hi as <-. injection Hp as <-. eexists _, _. split; by vm_compute. }
  exists pi, r. split; [done|]. split; [done|]. split; [exact Hpi|]. split; [exact Hr|].
  by apply (grant_matches_intent (V := unit) (AgentProfile_new tt) (CredentialProfile_new tt) (SyntheticProfile_new true) i pi p r).
Defined.
