(* ===== verification/CbclExternal.v ===== *)
(** * The CBCL engine and the signatures, as [src/cbcl_protocol.rs] sees them

    [cbcl_core], [cbcl_parser] and [ed25519_dalek] are not part of this
    repository.  Their data types have the variants that the adapter builds or
    matches, and one opaque variant for the others; their functions are the
    fields of two classes; the laws are what their documentation says of
    them. *)

From S2P Require Import Prelude External.

(** ** Data *)

(** [cbcl_core::sexpr]. *)
Inductive Atom : Type :=
| Atom_Symbol (s : string)
| Atom_Str (s : string)
| Atom_Num (n : Z)
| Atom_Keyword (s : string)
| Atom_Other (opaque : string).
Inductive SExpr : Type :=
| SExpr_Atom (a : Atom)
| SExpr_List (l : list SExpr).

(** [cbcl_core::message]. *)
Inductive CorePerformative : Type := CorePerformative_Hello | CorePerformative_Other (opaque : string).
Inductive Performative : Type := Performative_Core (p : CorePerformative) | Performative_Custom (name : string).
Inductive Recipients : Type := Recipients_One (key : string) | Recipients_Other (opaque : string).
Inductive CausedBy : Type :=
| CausedBy_Begin
| CausedBy_Single (hash : string)
| CausedBy_Multiple (hashes : list string)
| CausedBy_Other (opaque : string).
Inductive WrapperType : Type := WrapperType_Signed | WrapperType_WithRoles | WrapperType_Other (opaque : string).
Inductive Message : Type :=
| Message_Simple (performative : Performative) (recipient : option Recipients) (content : SExpr)
    (params : list SExpr) (thread sender : option string) (caused_by : option CausedBy)
| Message_Wrapped (wrapper : WrapperType) (params : list SExpr) (content : Message)
| Message_Other (opaque : string).

#[export] Instance Atom_eq_dec : EqDecision Atom.
Proof. solve_decision. Defined.
#[export] Instance SExpr_eq_dec : EqDecision SExpr.
Proof.
  refine (fix go x y := let _ : EqDecision SExpr := @go in
    match x, y with
    | SExpr_Atom a, SExpr_Atom b => cast_if (decide (a = b))
    | SExpr_List l, SExpr_List k => cast_if (decide (l = k))
    | _, _ => right _
    end); abstract congruence.
Defined.
#[export] Instance CorePerformative_eq_dec : EqDecision CorePerformative.
Proof. solve_decision. Defined.
#[export] Instance Performative_eq_dec : EqDecision Performative.
Proof. solve_decision. Defined.
#[export] Instance Recipients_eq_dec : EqDecision Recipients.
Proof. solve_decision. Defined.
#[export] Instance CausedBy_eq_dec : EqDecision CausedBy.
Proof. solve_decision. Defined.
#[export] Instance WrapperType_eq_dec : EqDecision WrapperType.
Proof. solve_decision. Defined.
#[export] Instance Message_eq_dec : EqDecision Message.
Proof. solve_decision. Defined.

(** [cbcl_core::role::Endpoint] and [cbcl_core::protocol::VerificationResult]. *)
Record Endpoint := mkEndpoint { en_role : string; en_occupant : option string }.
Inductive VerificationResult : Type :=
| VerificationResult_Valid
| VerificationResult_Unknown
| VerificationResult_Violation (opaque : string).

(** ** Functions *)

Class Cbcl := {
  (** Printing and reading: [SExpr::to_string], [str::parse::<SExpr>],
      [SExpr::from(&Message)], [Message::try_from(&SExpr)] and the canonical
      octets. *)
  sexpr_to_string : SExpr -> string;
  sexpr_parse : string -> option SExpr;
  message_to_sexpr : Message -> SExpr;
  message_from_sexpr : SExpr -> option Message;
  canonical_encode : SExpr -> bytes;
  (** Methods of messages. *)
  innermost_simple : Message -> option Message;
  recipient_set : Message -> gset string;
  message_caused_by : Message -> option CausedBy;
  performative_name : Performative -> string;
  (** Dialects. *)
  Dialect : Type;
  DialectRegistry : Type;
  CausalProtocol : Type;
  Roles : Type;
  parser_parse : string -> option SExpr;
  parse_dialect : SExpr -> option Dialect;
  registry_new : DialectRegistry;
  registry_install : DialectRegistry -> Dialect -> option DialectRegistry;
  find_by_name : DialectRegistry -> string -> option Dialect;
  dialect_stored_hash : Dialect -> option string;
  dialect_hash : Dialect -> string;
  dialect_causal_protocol : Dialect -> option CausalProtocol;
  dialect_roles : Dialect -> Roles;
  evaluate : Message -> DialectRegistry -> bool;
  (** Causal histories; [append] says whether the message was new. *)
  ThreadedMessageStore : Type;
  store_new : ThreadedMessageStore;
  store_append : string -> string -> Message -> ThreadedMessageStore -> ThreadedMessageStore * bool;
  verify_causal : string -> option CausedBy -> ThreadedMessageStore -> CausalProtocol -> string -> VerificationResult;
  (** Roles, casts and projections. *)
  Cast : Type;
  cast_singleton : Cast -> gmap string string;
  cast_indexed_is_empty : Cast -> bool;
  cast_dialect_pin : Cast -> option string;
  parse_wrapper_cast : list SExpr -> Roles -> option Cast;
  r6_instantiated_violations : Dialect -> Cast -> list string;
  LocalProtocol : Type;
  project : Dialect -> Endpoint -> option Cast -> LocalProtocol;
  projection_has_step : LocalProtocol -> string -> bool;
  verify_causal_for_role :
    Message -> Endpoint -> Dialect -> Cast -> ThreadedMessageStore -> string -> string -> VerificationResult;
  (** [verify_with_discipline] under [SignatureDiscipline::V1Full]: a verifier,
      the preimage and the signature. *)
  verify_with_discipline : (bytes -> bytes -> bool) -> bytes -> bytes -> bool
}.

(** [ed25519_dalek]: whether octets are a public key, the public key of a
    secret, signing with a secret, and strict verification. *)
Class Ed25519 := {
  verifying_key_valid : bytes -> bool;
  verifying_key : bytes -> bytes;
  ed25519_sign : bytes -> bytes -> bytes;
  verify_strict : bytes -> bytes -> bytes -> bool
}.

(** ** Laws *)

(** Octets are between 0 and 255. *)
Definition octet_list (b : bytes) : Prop := Forall (fun x => 0 <= x <= 255) b.

(** The innermost simple message of a simple message is that message, and of a
    wrapped one that of its content; a custom performative has its name,
    and the core hello is called hello; the v1/full discipline asks the verifier about the preimage. *)
Class CbclLaws `{Cbcl} : Prop := {
  innermost_of_simple p r c ps t s cb :
    innermost_simple (Message_Simple p r c ps t s cb) = Some (Message_Simple p r c ps t s cb);
  innermost_of_wrapped w ps m : innermost_simple (Message_Wrapped w ps m) = innermost_simple m;
  custom_name n : performative_name (Performative_Custom n) = n;
  hello_name : performative_name (Performative_Core CorePerformative_Hello) = "hello"%string;
  discipline_full v preimage sig : verify_with_discipline v preimage sig = v preimage sig
}.

(** Keys and signatures are arrays of octets; the public key of a secret is a
    public key, and a signature verifies under it. *)
Class Ed25519Laws `{Ed25519} : Prop := {
  verifying_key_octets secret : octet_list (verifying_key secret);
  verifying_key_length secret : length (verifying_key secret) = 32%nat;
  verifying_key_is_valid secret : verifying_key_valid (verifying_key secret) = true;
  signature_octets secret m : octet_list (ed25519_sign secret m);
  signature_length secret m : length (ed25519_sign secret m) = 64%nat;
  signature_verifies secret m : verify_strict (verifying_key secret) m (ed25519_sign secret m) = true
}.
