(* ===== verification/CbclProtocol.v ===== *)
(** * The CBCL protocol adapter ([src/cbcl_protocol.rs])

    Signed controls are recognised, authenticated, bound to their adjacent body
    and given to the CBCL engine; two monitors keep the causal history of the
    bootstrap and of the projected session.  The engine itself is external.
    The monitors' methods run in [bootM] and [sessM], the monitor with a
    [ProtocolError]. *)

From S2P Require Import Prelude External CbclExternal.

Definition BOOTSTRAP_DIALECT_SOURCE : string := "(define blind-pairing-bootstrap/v1 (cbcl) @anuna-research
  (:resource-requirements
    ((max-depth 8) (max-expansion-size 2048) (verification-time 20)))

  (extend cpace-a (ceremony body-digest body-length)
    (tell @peer :ceremony ceremony :role allocator
      :body-digest body-digest :body-length body-length
      :domain blind-pairing-bootstrap/v1))
  (extend cpace-b (ceremony body-digest body-length)
    (tell @peer :ceremony ceremony :role claimant
      :body-digest body-digest :body-length body-length
      :domain blind-pairing-bootstrap/v1))
  (extend finished-a (ceremony body-digest body-length)
    (tell @peer :ceremony ceremony :role allocator
      :body-digest body-digest :body-length body-length
      :domain blind-pairing-bootstrap/v1))
  (extend finished-b (ceremony body-digest body-length)
    (tell @peer :ceremony ceremony :role claimant
      :body-digest body-digest :body-length body-length
      :domain blind-pairing-bootstrap/v1))

  (protocol
    (then begin (all cpace-a cpace-b))
    (then (all cpace-a cpace-b) (all finished-a finished-b)))

  (shape cpace-a
    (require :ceremony string)
    (require :role symbol)
    (require :body-digest string)
    (require :body-length number))
  (shape cpace-b
    (require :ceremony string)
    (require :role symbol)
    (require :body-digest string)
    (require :body-length number))
  (shape finished-a
    (require :ceremony string)
    (require :role symbol)
    (require :body-digest string)
    (require :body-length number))
  (shape finished-b
    (require :ceremony string)
    (require :role symbol)
    (require :body-digest string)
    (require :body-length number)))
".
Definition SESSION_DIALECT_SOURCE : string := "(define blind-pairing-session/v1 (cbcl) @anuna-research
  (:roles (allocator claimant))
  (:resource-requirements
    ((max-depth 8) (max-expansion-size 2048) (verification-time 20)))

  (extend pairing-intent (ceremony body-digest body-length)
    :from allocator :to claimant
    (tell @claimant :ceremony ceremony
      :body-digest body-digest :body-length body-length
      :domain blind-pairing-session/v1))
  (extend pairing-approve (ceremony body-digest body-length)
    :from claimant :to allocator
    (tell @allocator :ceremony ceremony
      :body-digest body-digest :body-length body-length
      :domain blind-pairing-session/v1))
  (extend pairing-decline (ceremony body-digest body-length)
    :from claimant :to allocator
    (tell @allocator :ceremony ceremony
      :body-digest body-digest :body-length body-length
      :domain blind-pairing-session/v1))
  (extend pairing-payload (ceremony body-digest body-length)
    :from allocator :to claimant
    (tell @claimant :ceremony ceremony
      :body-digest body-digest :body-length body-length
      :domain blind-pairing-session/v1))

  (protocol
    (then begin pairing-intent)
    (then pairing-intent (any pairing-approve pairing-decline))
    (then pairing-approve pairing-payload))

  (shape pairing-intent
    (require :ceremony string)
    (require :body-digest string)
    (require :body-length number))
  (shape pairing-approve
    (require :ceremony string)
    (require :body-digest string)
    (require :body-length number))
  (shape pairing-decline
    (require :ceremony string)
    (require :body-digest string)
    (require :body-length number))
  (shape pairing-payload
    (require :ceremony string)
    (require :body-digest string)
    (require :body-length number)))
".

Definition BOOTSTRAP_SOURCE_SHA256 : string := "5607ca9c015767c433040e58e261828e6c29d427ec66ce1b76e2294cfecfa8c3".
Definition SESSION_SOURCE_SHA256 : string := "f7908e42da5fe1a63e546f4d5e7619bb20f78d06c43273f8a839e82c459c9805".
Definition BOOTSTRAP_DIALECT_HASH : string :=
  "sha256:534b42e5f15369a9329bcd655027e535277646f3680aa7beb14cc935723e1465".
Definition SESSION_DIALECT_HASH : string :=
  "sha256:465e218843248ed867dfa385e498169607daf49c031fca7173891578e60fab3c".

Definition MAX_CONTROL_OCTETS : Z := 2048.
Definition MAX_CONTROL_DEPTH : Z := 8.
Definition MAX_ADJACENT_BODY_OCTETS : Z := 65536.
Definition KEY_PREFIX : string := "@ed25519:".
Definition SHA256_PREFIX : string := "sha256:".
Definition i64_max : Z := 9223372036854775807.

(** ** Roles, performatives and verdicts *)

Inductive PairingRole : Type := PairingRole_Allocator | PairingRole_Claimant.
#[export] Instance PairingRole_eq_dec : EqDecision PairingRole.
Proof. solve_decision. Defined.
Definition role_endpoint (r : PairingRole) : Endpoint :=
  mkEndpoint (match r with PairingRole_Allocator => "allocator" | PairingRole_Claimant => "claimant" end) None.

Inductive BootstrapPerformative : Type := CpaceA | CpaceB | FinishedA | FinishedB.
Definition bootstrap_name (p : BootstrapPerformative) : string :=
  match p with
  | CpaceA => "cpace-a"
  | CpaceB => "cpace-b"
  | FinishedA => "finished-a"
  | FinishedB => "finished-b"
  end.
Definition role_index (p : BootstrapPerformative) : nat :=
  match p with CpaceA | FinishedA => 0 | CpaceB | FinishedB => 1 end.
Definition is_cpace (p : BootstrapPerformative) : bool := match p with CpaceA | CpaceB => true | _ => false end.

Inductive SessionPerformative : Type :=
| SessionPerformative_Intent
| SessionPerformative_Approve
| SessionPerformative_Decline
| SessionPerformative_Payload.
#[export] Instance SessionPerformative_eq_dec : EqDecision SessionPerformative.
Proof. solve_decision. Defined.
Definition session_name (p : SessionPerformative) : string :=
  match p with
  | SessionPerformative_Intent => "pairing-intent"
  | SessionPerformative_Approve => "pairing-approve"
  | SessionPerformative_Decline => "pairing-decline"
  | SessionPerformative_Payload => "pairing-payload"
  end.

Inductive ProtocolVerdict : Type := Verdict_Valid | Verdict_Unknown | Verdict_Violation.
#[export] Instance ProtocolVerdict_eq_dec : EqDecision ProtocolVerdict.
Proof. solve_decision. Defined.
Definition protocol_verdict (r : VerificationResult) : ProtocolVerdict :=
  match r with
  | VerificationResult_Valid => Verdict_Valid
  | VerificationResult_Unknown => Verdict_Unknown
  | VerificationResult_Violation _ => Verdict_Violation
  end.

Inductive ProtocolError : Type :=
| ProtocolError_Dialect
| ProtocolError_MalformedControl
| ProtocolError_Signature
| ProtocolError_Thread
| ProtocolError_Performative
| ProtocolError_BodyBinding
| ProtocolError_KeyBinding
| ProtocolError_RoleOpener.
Abbreviation protoM := (outcome ProtocolError).

(** ** Hexadecimal *)

(** A string of these octets, and the octets of [&str::as_bytes]. *)
Definition octets_text (b : bytes) : string :=
  String.string_of_list_ascii (map (fun x => Ascii.ascii_of_N (Z.to_N x)) b).

Definition HEX : bytes := ascii_bytes "0123456789abcdef".
Definition hex_at (i : Z) : Z := nth (Z.to_nat i) HEX 0.
Definition hex_octets (b : bytes) : bytes :=
  flat_map (fun byte => [hex_at (Z.shiftr byte 4); hex_at (Z.land byte 15)]) b.
Definition lower_hex (b : bytes) : string := octets_text (hex_octets b).

Definition lower_hex_nibble (byte : Z) : option Z :=
  if (48 <=? byte) && (byte <=? 57) then Some (byte - 48)
  else if (97 <=? byte) && (byte <=? 102) then Some (byte - 97 + 10)
  else None.

(** [chunks_exact(2)]. *)
Fixpoint decode_pairs (b : bytes) : option bytes :=
  match b with
  | x :: y :: b =>
      high ← lower_hex_nibble x;
      low ← lower_hex_nibble y;
      rest ← decode_pairs b;
      Some (Z.lor (Z.shiftl high 4) low :: rest)
  | _ => Some []
  end.
Definition decode_lower_hex (n : nat) (value : string) : option bytes :=
  if negb (length (ascii_bytes value) =? n * 2)%nat then None else decode_pairs (ascii_bytes value).

Definition sha256_hex `{Sha256} (b : bytes) : string := lower_hex (sha256 b).

Definition validate_ceremony (value : string) : protoM unit :=
  let b := ascii_bytes value in
  if (length b =? 64)%nat &&
     forallb (fun b => ((48 <=? b) && (b <=? 57)) || ((97 <=? b) && (b <=? 102))) b
  then Ok tt else Err ProtocolError_Thread.

(** [str::strip_prefix]. *)
Fixpoint strip_prefix (p s : string) : option string :=
  match p, s with
  | EmptyString, _ => Some s
  | String a p, String b s => if bool_decide (a = b) then strip_prefix p s else None
  | String _ _, EmptyString => None
  end.

(** ** Controls as text *)

(** The loop of [bounded_ascii_sexpr]: the remaining octets, the depth, and
    whether a string and an escape in it are open. *)
Fixpoint sexpr_scan (max_depth : Z) (input : bytes) (depth : Z) (in_string escaped : bool) : bool :=
  match input with
  | [] => (depth =? 0) && negb in_string && negb escaped
  | byte :: input =>
      if in_string then
        if escaped then sexpr_scan max_depth input depth true false
        else if byte =? 92 then sexpr_scan max_depth input depth true true
        else if byte =? 34 then sexpr_scan max_depth input depth false escaped
        else sexpr_scan max_depth input depth true escaped
      else if byte =? 34 then sexpr_scan max_depth input depth true escaped
      else if byte =? 40 then
        if max_depth <? depth + 1 then false else sexpr_scan max_depth input (depth + 1) in_string escaped
      else if byte =? 41 then
        match checked_sub depth 1 with
        | None => false
        | Some next => sexpr_scan max_depth input next in_string escaped
        end
      else if (32 <=? byte) && (byte <=? 126) then sexpr_scan max_depth input depth in_string escaped
      else false
  end.
Definition is_ascii (input : bytes) : bool := forallb (fun b => b <=? 127) input.
Definition bounded_ascii_sexpr (input : bytes) (max_depth : Z) : bool :=
  is_ascii input && sexpr_scan max_depth input 0 false false.

(** ** Ceremony keys *)

(** [CeremonyKeyId(String)]. *)
Abbreviation CeremonyKeyId := string (only parsing).

Section Keys.
Context `{Ed25519}.

Definition CeremonyKeyId_parse (value : string) : protoM CeremonyKeyId :=
  hex ← ok_or (strip_prefix KEY_PREFIX value) ProtocolError_Signature;
  octets ← ok_or (decode_lower_hex 32 hex) ProtocolError_Signature;
  if negb (verifying_key_valid octets) then Err ProtocolError_Signature else Ok value.

Definition from_public_key (public_key : bytes) : protoM CeremonyKeyId :=
  if negb (verifying_key_valid public_key) then Err ProtocolError_Signature
  else Ok (KEY_PREFIX +:+ lower_hex public_key)%string.

Definition public_key_bytes (id : CeremonyKeyId) : protoM bytes :=
  hex ← ok_or (strip_prefix KEY_PREFIX id) ProtocolError_Signature;
  ok_or (decode_lower_hex 32 hex) ProtocolError_Signature.

(** [CeremonySigningKey(SigningKey)]: the 32 secret octets. *)
Record CeremonySigningKey := mkCeremonySigningKey { csk_secret : bytes }.
Definition from_secret (secret : bytes) : protoM CeremonySigningKey := Ok (mkCeremonySigningKey secret).
Definition key_id (k : CeremonySigningKey) : protoM CeremonyKeyId :=
  match from_public_key (verifying_key (csk_secret k)) with Ok id => Ok id | _ => Panic end.
End Keys.

(** ** Building controls *)

Definition exact_opener_params (allocator claimant : CeremonyKeyId) : list SExpr :=
  [SExpr_List
     [SExpr_List [SExpr_Atom (Atom_Symbol "allocator"); SExpr_Atom (Atom_Symbol allocator)];
      SExpr_List [SExpr_Atom (Atom_Symbol "claimant"); SExpr_Atom (Atom_Symbol claimant)]];
   SExpr_Atom (Atom_Keyword "dialect");
   SExpr_Atom (Atom_Symbol SESSION_DIALECT_HASH)].

(** [Vec<String>::sort]. *)
Definition text_le (a b : string) : Prop := ord_le (ascii_bytes a) (ascii_bytes b).
#[export] Instance text_le_dec a b : Decision (text_le a b).
Proof. unfold text_le. apply _. Defined.
Definition canonical_caused_by (c : CausedBy) : CausedBy :=
  match c with
  | CausedBy_Multiple hashes => CausedBy_Multiple (merge_sort text_le hashes)
  | other => other
  end.

Section Controls.
Context `{Cbcl, Ed25519, Sha256}.

Definition sign_message (k : CeremonySigningKey) (inner : Message) : protoM Message :=
  let preimage := canonical_encode (message_to_sexpr inner) in
  let signature := ed25519_sign (csk_secret k) preimage in
  id ← key_id k;
  Ok (Message_Wrapped WrapperType_Signed
        [SExpr_Atom (Atom_Symbol id); SExpr_Atom (Atom_Str (lower_hex signature))] inner).

Definition encode_control (message : Message) : protoM bytes :=
  let text := sexpr_to_string (message_to_sexpr message) in
  if (blen (ascii_bytes text) =? 0) || (MAX_CONTROL_OCTETS <? blen (ascii_bytes text)) ||
     negb (bounded_ascii_sexpr (ascii_bytes text) MAX_CONTROL_DEPTH)
  then Err ProtocolError_MalformedControl
  else
    parsed ← ok_or (sexpr_parse text) ProtocolError_MalformedControl;
    roundtrip ← ok_or (message_from_sexpr parsed) ProtocolError_MalformedControl;
    if negb (bool_decide (roundtrip = message)) then Err ProtocolError_MalformedControl
    else Ok (ascii_bytes text).

Definition body_digest (body : bytes) : string := (SHA256_PREFIX +:+ sha256_hex body)%string.

Definition bound_message (performative_name : string) (recipient : option CeremonyKeyId) (ceremony : string)
    (body : bytes) (body_len : Z) (caused_by : CausedBy) : Message :=
  Message_Simple (Performative_Custom performative_name) (Recipients_One <$> recipient)
    (SExpr_Atom (Atom_Str ceremony))
    [SExpr_Atom (Atom_Str (body_digest body)); SExpr_Atom (Atom_Num body_len)]
    (Some ceremony) None (Some (canonical_caused_by caused_by)).

Definition build_bound_control (k : CeremonySigningKey) (performative_name : string)
    (recipient : option CeremonyKeyId) (ceremony : string) (body : bytes) (caused_by : CausedBy) : protoM bytes :=
  _ ← validate_ceremony ceremony;
  if MAX_ADJACENT_BODY_OCTETS <? blen body then Err ProtocolError_BodyBinding
  else
    body_len ← ok_or (try_into i64_max (blen body)) ProtocolError_BodyBinding;
    signed ← sign_message k (bound_message performative_name recipient ceremony body body_len caused_by);
    encode_control signed.

Definition build_bootstrap_control (k : CeremonySigningKey) (p : BootstrapPerformative) (ceremony : string)
    (body : bytes) (caused_by : CausedBy) : protoM bytes :=
  build_bound_control k (bootstrap_name p) None ceremony body caused_by.

Definition build_session_control (k : CeremonySigningKey) (p : SessionPerformative) (ceremony : string)
    (recipient : CeremonyKeyId) (body : bytes) (caused_by : CausedBy) : protoM bytes :=
  build_bound_control k (session_name p) (Some recipient) ceremony body caused_by.

Definition hello_message (ceremony : string) : Message :=
  Message_Simple (Performative_Core CorePerformative_Hello) None (SExpr_List []) [] (Some ceremony) None
    (Some CausedBy_Begin).
Definition build_session_opener (allocator_key : CeremonySigningKey) (claimant : CeremonyKeyId)
    (ceremony : string) : protoM bytes :=
  _ ← validate_ceremony ceremony;
  allocator ← key_id allocator_key;
  signed ← sign_message allocator_key (hello_message ceremony);
  encode_control (Message_Wrapped WrapperType_WithRoles (exact_opener_params allocator claimant) signed).

Definition ceremony_id (invitation : bytes) : string := sha256_hex invitation.

(** ** Recognising controls *)

Record VerifiedControl := mkVerifiedControl { vc_message : Message; vc_signer : CeremonyKeyId; vc_content_hash : string }.

(** [PublicVerifier::verify]: a signature has 64 octets. *)
Definition public_verify (key data sig : bytes) : bool :=
  (length sig =? 64)%nat && verify_strict key data sig.

(** The signed message itself, or the one inside the role wrapper. *)
Definition signed_part (message : Message) (require_role_wrapper : bool) : protoM Message :=
  if require_role_wrapper then
    match message with
    | Message_Wrapped WrapperType_WithRoles _ content => Ok content
    | _ => Err ProtocolError_RoleOpener
    end
  else Ok message.

(** The key, the signature and the inner message of a signed wrapper. *)
Definition signature_part (signed : Message) : protoM (string * string * Message) :=
  match signed with
  | Message_Wrapped WrapperType_Signed [SExpr_Atom (Atom_Symbol key); SExpr_Atom (Atom_Str signature_hex)] inner =>
      Ok (key, signature_hex, inner)
  | _ => Err ProtocolError_Signature
  end.

(** Octets that are not UTF-8 are not ASCII either: [from_utf8] and the ASCII
    test fail with the same error. *)
Definition recognise_signed_control (control : bytes) (require_role_wrapper : bool) : protoM VerifiedControl :=
  if (blen control =? 0) || (MAX_CONTROL_OCTETS <? blen control) then Err ProtocolError_MalformedControl
  else if negb (bounded_ascii_sexpr control MAX_CONTROL_DEPTH) then Err ProtocolError_MalformedControl
  else
    sexpr ← ok_or (sexpr_parse (octets_text control)) ProtocolError_MalformedControl;
    message ← ok_or (message_from_sexpr sexpr) ProtocolError_MalformedControl;
    if negb (bool_decide (ascii_bytes (sexpr_to_string (message_to_sexpr message)) = control))
    then Err ProtocolError_MalformedControl
    else
      signed ← signed_part message require_role_wrapper;
      '(key, signature_hex, inner) ← signature_part signed;
      signer ← CeremonyKeyId_parse key;
      signature ← ok_or (decode_lower_hex 64 signature_hex) ProtocolError_Signature;
      key_octets ← public_key_bytes signer;
      if negb (verifying_key_valid key_octets) then Err ProtocolError_Signature
      else
        let preimage := canonical_encode (message_to_sexpr inner) in
        if negb (verify_with_discipline (public_verify key_octets) preimage signature)
        then Err ProtocolError_Signature
        else
          Ok (mkVerifiedControl message signer
                (SHA256_PREFIX +:+ sha256_hex (canonical_encode (message_to_sexpr message)))%string).

Definition validate_bound_control (message : Message) (expected_performative ceremony : string) (body : bytes) :
    protoM unit :=
  if MAX_ADJACENT_BODY_OCTETS <? blen body then Err ProtocolError_BodyBinding
  else
    simple ← ok_or (innermost_simple message) ProtocolError_MalformedControl;
    match simple with
    | Message_Simple performative _ content params thread sender caused_by =>
        if negb (bool_decide (performative_name performative = expected_performative))
        then Err ProtocolError_Performative
        else
          _ ← validate_ceremony ceremony;
          if negb (bool_decide (thread = Some ceremony)) then Err ProtocolError_Thread
          else if bool_decide (is_Some sender) || bool_decide (caused_by = None)
          then Err ProtocolError_MalformedControl
          else
            match params with
            | [SExpr_Atom (Atom_Str digest); SExpr_Atom (Atom_Num body_len)] =>
                if negb (bool_decide (content = SExpr_Atom (Atom_Str ceremony))) then Err ProtocolError_Thread
                else
                  expected_len ← ok_or (try_into i64_max (blen body)) ProtocolError_BodyBinding;
                  if negb (bool_decide (digest = body_digest body)) || negb (body_len =? expected_len)
                  then Err ProtocolError_BodyBinding
                  else Ok tt
            | _ => Err ProtocolError_MalformedControl
            end
    | _ => Err ProtocolError_MalformedControl
    end.

Definition validate_opener_simple (message : Message) (ceremony : string) : protoM unit :=
  match message with
  | Message_Wrapped WrapperType_WithRoles _
      (Message_Wrapped WrapperType_Signed _
        (Message_Simple performative recipient content params thread sender caused_by)) =>
      if negb (bool_decide (performative_name performative = "hello"%string)) || bool_decide (is_Some recipient) ||
         negb (bool_decide (content = SExpr_List [])) || negb (bool_decide (params = [])) ||
         negb (bool_decide (thread = Some ceremony)) || bool_decide (is_Some sender) ||
         negb (bool_decide (caused_by = Some CausedBy_Begin))
      then Err ProtocolError_RoleOpener else Ok tt
  | _ => Err ProtocolError_RoleOpener
  end.

Definition validate_exact_cast (cast : Cast) (allocator claimant : CeremonyKeyId) : protoM unit :=
  let expected : gmap string string := <["claimant"%string := claimant]> {["allocator"%string := allocator]} in
  if negb (bool_decide (cast_singleton cast = expected)) || negb (cast_indexed_is_empty cast) ||
     negb (bool_decide (cast_dialect_pin cast = Some SESSION_DIALECT_HASH))
  then Err ProtocolError_RoleOpener else Ok tt.

Definition session_reference_is_anchored (p : SessionPerformative) (caused_by : option CausedBy) (root : string) : bool :=
  match p, caused_by with
  | SessionPerformative_Intent, Some (CausedBy_Single hash) => bool_decide (hash = root)
  | (SessionPerformative_Approve | SessionPerformative_Decline | SessionPerformative_Payload),
      Some (CausedBy_Single _) => true
  | _, _ => false
  end.
End Controls.

(** ** Installed dialects *)

Section Dialects.
Context `{Cbcl, Sha256}.

(** [PairingDialects { registry }]. *)
Record PairingDialects := mkPairingDialects { pd_registry : DialectRegistry }.

Definition install_source (registry : DialectRegistry) (source : string) : protoM DialectRegistry :=
  sexpr ← ok_or (parser_parse source) ProtocolError_Dialect;
  dialect ← ok_or (parse_dialect sexpr) ProtocolError_Dialect;
  ok_or (registry_install registry dialect) ProtocolError_Dialect.

Definition install_sources (bootstrap_source session_source : string) : protoM PairingDialects :=
  if negb (bool_decide (sha256_hex (ascii_bytes bootstrap_source) = BOOTSTRAP_SOURCE_SHA256)) ||
     negb (bool_decide (sha256_hex (ascii_bytes session_source) = SESSION_SOURCE_SHA256))
  then Err ProtocolError_Dialect
  else
    registry ← install_source registry_new bootstrap_source;
    registry ← install_source registry session_source;
    bootstrap ← ok_or (find_by_name registry "blind-pairing-bootstrap/v1") ProtocolError_Dialect;
    session ← ok_or (find_by_name registry "blind-pairing-session/v1") ProtocolError_Dialect;
    if negb (bool_decide (dialect_stored_hash bootstrap = Some BOOTSTRAP_DIALECT_HASH)) ||
       negb (bool_decide (dialect_stored_hash session = Some SESSION_DIALECT_HASH)) ||
       negb (bool_decide (dialect_hash bootstrap = BOOTSTRAP_DIALECT_HASH)) ||
       negb (bool_decide (dialect_hash session = SESSION_DIALECT_HASH))
    then Err ProtocolError_Dialect
    else Ok (mkPairingDialects registry).

Definition install : protoM PairingDialects := install_sources BOOTSTRAP_DIALECT_SOURCE SESSION_DIALECT_SOURCE.

Definition bootstrap_dialect (d : PairingDialects) : protoM Dialect :=
  expect (find_by_name (pd_registry d) "blind-pairing-bootstrap/v1").
Definition session_dialect (d : PairingDialects) : protoM Dialect :=
  expect (find_by_name (pd_registry d) "blind-pairing-session/v1").

Definition session_projection (d : PairingDialects) (role : PairingRole) : protoM LocalProtocol :=
  session ← session_dialect d;
  Ok (project session (role_endpoint role) None).
End Dialects.

Record Admission := mkAdmission { ad_verdict : ProtocolVerdict; ad_content_hash : string; ad_signer : CeremonyKeyId }.

(** ** The bootstrap monitor *)

Section Bootstrap.
Context `{Cbcl, Ed25519, Sha256}.

Record BootstrapMonitor := mkBootstrapMonitor {
  bm_dialects : PairingDialects;
  bm_store : ThreadedMessageStore;
  bm_thread : string;
  bm_role_keys : list (option CeremonyKeyId);
  bm_stored : Z
}.
Abbreviation bootM := (stM BootstrapMonitor ProtocolError).

Definition BootstrapMonitor_new (invitation : bytes) : protoM BootstrapMonitor :=
  dialects ← install;
  Ok (mkBootstrapMonitor dialects store_new (ceremony_id invitation) [None; None] 0).

Definition bind_role_key (index : nat) (signer : CeremonyKeyId) (m : BootstrapMonitor) : BootstrapMonitor :=
  mkBootstrapMonitor (bm_dialects m) (bm_store m) (bm_thread m) (<[index := Some signer]> (bm_role_keys m)) (bm_stored m).

Definition bootstrap_append (hash : string) (message : Message) (m : BootstrapMonitor) : BootstrapMonitor :=
  let '(store, new) := store_append hash (bm_thread m) message (bm_store m) in
  mkBootstrapMonitor (bm_dialects m) store (bm_thread m) (bm_role_keys m)
    (if new : bool then bm_stored m + 1 else bm_stored m).

Definition bootstrap_admit (expected : BootstrapPerformative) (control adjacent_body : bytes) : bootM Admission :=
  m ← get;
  verified ← lift (recognise_signed_control control false);
  _ ← lift (validate_bound_control (vc_message verified) (bootstrap_name expected) (bm_thread m) adjacent_body);
  simple ← lift (ok_or (innermost_simple (vc_message verified)) ProtocolError_MalformedControl);
  if negb (bool_decide (recipient_set simple = ∅)) then throw ProtocolError_MalformedControl
  else if negb (evaluate (vc_message verified) (pd_registry (bm_dialects m))) then throw ProtocolError_MalformedControl
  else
    bound ← lift (expect (bm_role_keys m !! role_index expected));
    if match bound with Some b => negb (bool_decide (b = vc_signer verified)) | None => false end
    then throw ProtocolError_KeyBinding
    else
      simple ← lift (ok_or (innermost_simple (vc_message verified)) ProtocolError_MalformedControl);
      dialect ← lift (bootstrap_dialect (bm_dialects m));
      protocol ← lift (ok_or (dialect_causal_protocol dialect) ProtocolError_Dialect);
      let verdict := protocol_verdict
        (verify_causal (bootstrap_name expected) (message_caused_by simple) (bm_store m) protocol (bm_thread m)) in
      _ ← (if bool_decide (verdict = Verdict_Valid) then
             if negb (is_cpace expected) && bool_decide (bound = None) then throw ProtocolError_KeyBinding
             else
               _ ← (if is_cpace expected && bool_decide (bound = None)
                    then modify (bind_role_key (role_index expected) (vc_signer verified)) else mret tt);
               modify (bootstrap_append (vc_content_hash verified) (vc_message verified))
           else mret tt);
      mret (mkAdmission verdict (vc_content_hash verified) (vc_signer verified)).

Definition role_number (r : PairingRole) : nat :=
  match r with PairingRole_Allocator => 0 | PairingRole_Claimant => 1 end.
Definition monitor_role_key (m : BootstrapMonitor) (r : PairingRole) : option CeremonyKeyId :=
  mjoin (bm_role_keys m !! role_number r).
End Bootstrap.

(** ** The session monitor *)

Section Session.
Context `{Cbcl, Ed25519, Sha256}.

Record SessionMonitor := mkSessionMonitor {
  sm_dialects : PairingDialects;
  sm_store : ThreadedMessageStore;
  sm_thread : string;
  sm_cast : Cast;
  sm_root : string;
  sm_endpoint : Endpoint;
  sm_projection : LocalProtocol;
  sm_stored : Z
}.
Abbreviation sessM := (stM SessionMonitor ProtocolError).

Definition wrapper_params (message : Message) : protoM (list SExpr) :=
  match message with
  | Message_Wrapped WrapperType_WithRoles params _ => Ok params
  | _ => Err ProtocolError_RoleOpener
  end.

Definition open_for_ceremony (ceremony : string) (local_role : PairingRole) (allocator claimant : CeremonyKeyId)
    (control : bytes) : protoM (SessionMonitor * Admission) :=
  _ ← validate_ceremony ceremony;
  dialects ← install;
  verified ← recognise_signed_control control true;
  if negb (bool_decide (vc_signer verified = allocator)) then Err ProtocolError_RoleOpener
  else
    _ ← validate_opener_simple (vc_message verified) ceremony;
    params ← wrapper_params (vc_message verified);
    if negb (bool_decide (params = exact_opener_params allocator claimant)) then Err ProtocolError_RoleOpener
    else
      session ← session_dialect dialects;
      cast ← ok_or (parse_wrapper_cast params (dialect_roles session)) ProtocolError_RoleOpener;
      _ ← validate_exact_cast cast allocator claimant;
      if negb (bool_decide (r6_instantiated_violations session cast = [])) then Err ProtocolError_RoleOpener
      else if negb (evaluate (vc_message verified) (pd_registry dialects)) then Err ProtocolError_MalformedControl
      else
        let endpoint := role_endpoint local_role in
        let root := vc_content_hash verified in
        let verdict := protocol_verdict
          (verify_causal_for_role (vc_message verified) endpoint session cast store_new ceremony root) in
        if negb (bool_decide (verdict = Verdict_Valid)) then Err ProtocolError_RoleOpener
        else
          let projection := project session endpoint (Some cast) in
          let '(store, new) := store_append root ceremony (vc_message verified) store_new in
          Ok (mkSessionMonitor dialects store ceremony cast root endpoint projection (if new : bool then 1 else 0),
              mkAdmission verdict (vc_content_hash verified) (vc_signer verified)).

Definition open_session (invitation : bytes) (local_role : PairingRole) (allocator claimant : CeremonyKeyId)
    (control : bytes) : protoM (SessionMonitor * Admission) :=
  open_for_ceremony (ceremony_id invitation) local_role allocator claimant control.

Definition session_append (hash : string) (message : Message) (m : SessionMonitor) : SessionMonitor :=
  let '(store, new) := store_append hash (sm_thread m) message (sm_store m) in
  mkSessionMonitor (sm_dialects m) store (sm_thread m) (sm_cast m) (sm_root m) (sm_endpoint m) (sm_projection m)
    (if new : bool then sm_stored m + 1 else sm_stored m).

Definition session_admit (expected : SessionPerformative) (control adjacent_body : bytes) : sessM Admission :=
  m ← get;
  verified ← lift (recognise_signed_control control false);
  _ ← lift (validate_bound_control (vc_message verified) (session_name expected) (sm_thread m) adjacent_body);
  if negb (evaluate (vc_message verified) (pd_registry (sm_dialects m))) then throw ProtocolError_MalformedControl
  else
    simple ← lift (ok_or (innermost_simple (vc_message verified)) ProtocolError_MalformedControl);
    let violation := mkAdmission Verdict_Violation (vc_content_hash verified) (vc_signer verified) in
    if negb (session_reference_is_anchored expected (message_caused_by simple) (sm_root m)) then mret violation
    else if negb (projection_has_step (sm_projection m) (session_name expected)) then mret violation
    else
      session ← lift (session_dialect (sm_dialects m));
      let verdict := protocol_verdict
        (verify_causal_for_role (vc_message verified) (sm_endpoint m) session (sm_cast m) (sm_store m) (sm_thread m)
           (sm_root m)) in
      _ ← (if bool_decide (verdict = Verdict_Valid)
           then modify (session_append (vc_content_hash verified) (vc_message verified)) else mret tt);
      mret (mkAdmission verdict (vc_content_hash verified) (vc_signer verified)).
End Session.
