(* ===== verification/CbclThms.v ===== *)
(** * Lemmas on the CBCL adapter

    Hexadecimal and key identifiers, the depth scanner against a grammar, what
    a recognised control is, and that built controls are recognised. *)

From S2P Require Import Prelude External CbclExternal CbclProtocol.

(** ** Hexadecimal *)

Lemma ascii_bytes_text b : octet_list b -> ascii_bytes (octets_text b) = b.
Proof.
  intros Hb. unfold ascii_bytes, octets_text. rewrite String.list_ascii_of_string_of_list_ascii, map_map.
  induction Hb as [|x b Hx _ IH]; [done|]. simpl. rewrite IH. f_equal.
  rewrite Ascii.N_ascii_embedding by lia. lia.
Qed.

Lemma octets_text_bytes s : octets_text (ascii_bytes s) = s.
Proof.
  unfold ascii_bytes, octets_text. rewrite map_map. induction s as [|c s IH]; simpl; [done|].
  by rewrite IH, N2Z.id, Ascii.ascii_N_embedding.
Qed.

Lemma ascii_bytes_octets s : octet_list (ascii_bytes s).
Proof.
  unfold octet_list, ascii_bytes. apply Forall_forall. intros x (c & <- & _)%list_elem_of_In%in_map_iff.
  pose proof (Ascii.N_ascii_bounded c). lia.
Qed.

(** Numbers up to fifteen, one by one. *)
Lemma nibble_cases (P : Z -> Prop) : Forall P [0; 1; 2; 3; 4; 5; 6; 7; 8; 9; 10; 11; 12; 13; 14; 15] -> forall i, 0 <= i <= 15 -> P i.
Proof. intros HP i Hi. rewrite Forall_forall in HP. apply HP. rewrite !elem_of_cons. lia. Qed.
Ltac nibbles := apply nibble_cases; repeat (apply Forall_cons; split; [try done|]); constructor.

Lemma hex_at_value i : 0 <= i <= 15 -> hex_at i = if i <? 10 then 48 + i else 87 + i.
Proof. revert i. nibbles. Qed.

Lemma nibble_hex_at i : 0 <= i <= 15 -> lower_hex_nibble (hex_at i) = Some i.
Proof. revert i. nibbles. Qed.

Lemma hex_at_nibble x i : lower_hex_nibble x = Some i -> 0 <= i <= 15 /\ x = hex_at i.
Proof.
  unfold lower_hex_nibble. intros Hx. assert (0 <= i <= 15 /\ (i < 10 /\ x = 48 + i \/ 10 <= i /\ x = 87 + i)) as [Hi Hv].
  { repeat case_match; simplify_eq; bool_to_prop; lia. }
  split; [done|]. rewrite hex_at_value by done. destruct (i <? 10) eqn:E; bool_to_prop; lia.
Qed.

Lemma join_nibbles h l : 0 <= h <= 15 -> 0 <= l <= 15 -> Z.lor (Z.shiftl h 4) l = 16 * h + l.
Proof. intros Hh Hl. revert l Hl. revert h Hh. apply (nibble_cases (fun h => forall l, 0 <= l <= 15 -> _)).
  repeat (apply Forall_cons; split; [nibbles|]). constructor.
Qed.

Lemma split_nibbles x : 0 <= x <= 255 ->
  0 <= Z.shiftr x 4 <= 15 /\ 0 <= Z.land x 15 <= 15 /\ 16 * Z.shiftr x 4 + Z.land x 15 = x.
Proof.
  intros Hx. rewrite Z.shiftr_div_pow2 by lia. change 15 with (Z.ones 4). rewrite Z.land_ones by lia.
  change (2 ^ 4) with 16. change (Z.ones 4) with 15. Z.div_mod_to_equations. lia.
Qed.

Lemma nibbles_unique h l : 0 <= h <= 15 -> 0 <= l <= 15 ->
  Z.shiftr (16 * h + l) 4 = h /\ Z.land (16 * h + l) 15 = l.
Proof.
  intros Hh Hl. rewrite Z.shiftr_div_pow2 by lia. change 15 with (Z.ones 4). rewrite Z.land_ones by lia.
  change (2 ^ 4) with 16. Z.div_mod_to_equations. lia.
Qed.

Lemma hex_octets_ok b : octet_list b -> octet_list (hex_octets b) /\ length (hex_octets b) = (length b * 2)%nat.
Proof.
  induction 1 as [|x b Hx _ [IHo IHl]]; [by split; [constructor|]|]. simpl.
  destruct (split_nibbles x Hx) as (Hh & Hl & _). split; [|lia].
  rewrite !hex_at_value by done. repeat constructor; try done; case_match; bool_to_prop; lia.
Qed.

Lemma decode_pairs_hex b : octet_list b -> decode_pairs (hex_octets b) = Some b.
Proof.
  induction 1 as [|x b Hx _ IH]; [done|]. simpl. destruct (split_nibbles x Hx) as (Hh & Hl & Heq).
  rewrite !nibble_hex_at, IH by done. simpl. by rewrite join_nibbles, Heq.
Qed.

Lemma hex_decode_pairs : forall n b r, length b = (n * 2)%nat -> decode_pairs b = Some r ->
  length r = n /\ octet_list r /\ b = hex_octets r.
Proof.
  induction n as [|n IH]; intros [|x [|y b]] r Hn; try done; simpl; intros Hr.
  - injection Hr as <-. split_and!; [done|constructor|done].
  - destruct (lower_hex_nibble x) as [h|] eqn:Hh, (lower_hex_nibble y) as [l|] eqn:Hl; try done. simpl in Hr.
    destruct (decode_pairs b) as [rest|] eqn:Hd; [|done]. injection Hr as <-.
    simpl in Hn. destruct (IH b rest) as (Hlen & Ho & ->); [lia|done|].
    apply hex_at_nibble in Hh as [Hh ->], Hl as [Hl ->]. rewrite join_nibbles by done. simpl.
    destruct (nibbles_unique h l Hh Hl) as [-> ->]. split_and!; [lia| |done]. constructor; [lia|done].
Qed.

Lemma decode_hex_spec n s b :
  decode_lower_hex n s = Some b <-> length b = n /\ octet_list b /\ s = lower_hex b.
Proof.
  unfold decode_lower_hex, lower_hex. split.
  - destruct (_ =? _)%nat eqn:Hn; [|done]. apply Nat.eqb_eq in Hn. simpl. intros Hd.
    destruct (hex_decode_pairs n _ b Hn Hd) as (Hl & Ho & Heq). by rewrite <- Heq, octets_text_bytes.
  - intros (Hl & Ho & ->). destruct (hex_octets_ok b Ho) as [Hoh Hlh].
    rewrite ascii_bytes_text, Hlh, Hl, Nat.eqb_refl by done. by apply decode_pairs_hex.
Qed.

Lemma hex_text_inj a b : octet_list a -> octet_list b -> lower_hex a = lower_hex b -> a = b.
Proof.
  intros Ha Hb Heq. pose proof (proj2 (decode_hex_spec (length b) (lower_hex b) b)) as Hd.
  pose proof (proj2 (decode_hex_spec (length a) (lower_hex a) a)) as Hd'. rewrite Heq in Hd'.
  assert (length a = length b) as Hl.
  { apply (f_equal (fun s => length (ascii_bytes s))) in Heq. unfold lower_hex in Heq.
    rewrite !ascii_bytes_text in Heq by (by apply hex_octets_ok).
    rewrite (proj2 (hex_octets_ok a Ha)), (proj2 (hex_octets_ok b Hb)) in Heq. lia. }
  rewrite Hl in Hd'. specialize (Hd ltac:(done)). specialize (Hd' ltac:(done)). congruence.
Qed.

(** ** Key identifiers *)

Lemma strip_prefix_ok p s r : strip_prefix p s = Some r <-> s = (p +:+ r)%string.
Proof.
  revert s. induction p as [|c p IH]; intros s; simpl.
  - split; [by intros [= ->]|by intros ->].
  - destruct s as [|d s]; [done|]. case_bool_decide as Hc; [subst; rewrite IH|]; split; try congruence.
    all: by intros [= ->].
Qed.

Section Keys.
Context `{Ed25519}.

(** A key identifier is the prefix and the hexadecimal of a public key. *)
Definition key_of (id : string) (pk : bytes) : Prop :=
  length pk = 32%nat /\ octet_list pk /\ verifying_key_valid pk = true /\ id = (KEY_PREFIX +:+ lower_hex pk)%string.

Lemma key_parse_ok s id : CeremonyKeyId_parse s = Ok id <-> id = s /\ exists pk, key_of s pk.
Proof.
  unfold CeremonyKeyId_parse, key_of. split.
  - intros (hex & Hh%ok_or_ok%strip_prefix_ok & (pk & (Hl & Ho & ->)%ok_or_ok%decode_hex_spec & Hv)%bind_ok)%bind_ok.
    destruct (verifying_key_valid pk) eqn:Hp; [|done]. injection Hv as <-. eauto 8.
  - intros (-> & pk & Hl & Ho & Hv & ->). rewrite (proj2 (strip_prefix_ok _ _ (lower_hex pk))) by done. simpl.
    rewrite (proj2 (decode_hex_spec 32 _ pk)) by done. simpl. by rewrite Hv.
Qed.

Lemma public_key_bytes_ok id pk : key_of id pk -> public_key_bytes id = Ok pk.
Proof.
  intros (Hl & Ho & _ & ->). unfold public_key_bytes.
  rewrite (proj2 (strip_prefix_ok _ _ (lower_hex pk))) by done. simpl.
  by rewrite (proj2 (decode_hex_spec 32 _ pk)).
Qed.

Lemma key_of_inj id id' pk : key_of id pk -> key_of id' pk -> id = id'.
Proof. unfold key_of. naive_solver. Qed.

Lemma key_of_unique id pk pk' : key_of id pk -> key_of id pk' -> pk = pk'.
Proof. intros H1%public_key_bytes_ok H2%public_key_bytes_ok. congruence. Qed.

Lemma key_id_of `{!Ed25519Laws} k : exists id, key_id k = Ok id /\ key_of id (verifying_key (csk_secret k)).
Proof.
  unfold key_id, from_public_key. rewrite verifying_key_is_valid. simpl. eexists. split; [done|].
  split_and!; auto using verifying_key_length, verifying_key_octets, verifying_key_is_valid.
Qed.
End Keys.

(** ** The scanner and the grammar

    [quoted] is the rest of a string up to its closing quote, [nested d] a
    sequence of printable characters, strings and groups at most [d] deep. *)
Inductive quoted : bytes -> Prop :=
| quoted_end : quoted [34]
| quoted_char c l : c <> 34 -> c <> 92 -> quoted l -> quoted (c :: l)
| quoted_escape c l : quoted l -> quoted (92 :: c :: l).

Inductive nested : Z -> bytes -> Prop :=
| nested_nil d : nested d []
| nested_char d c l : 32 <= c <= 126 -> c <> 34 -> c <> 40 -> c <> 41 -> nested d l -> nested d (c :: l)
| nested_string d q l : quoted q -> nested d l -> nested d (34 :: q ++ l)
| nested_group d u l : 0 < d -> nested (d - 1) u -> nested d l -> nested d (40 :: u ++ 41 :: l).

Lemma scan_quoted max q : quoted q -> forall l d, sexpr_scan max (q ++ l) d true false = sexpr_scan max l d false false.
Proof.
  induction 1 as [|c q Hc Hc' _ IH|c q _ IH]; intros l d; simpl.
  - done.
  - rewrite (proj2 (Z.eqb_neq c 92)), (proj2 (Z.eqb_neq c 34)) by done. apply IH.
  - apply IH.
Qed.

Lemma scan_nested max d u : nested d u -> forall l k, 0 <= k -> k + d <= max ->
  sexpr_scan max (u ++ l) k false false = sexpr_scan max l k false false.
Proof.
  induction 1 as [d|d c u Hc H34 H40 H41 _ IH|d q u Hq _ IH|d u v Hd _ IHu _ IHv]; intros l k Hk Hmax; simpl.
  - done.
  - rewrite (proj2 (Z.eqb_neq c 34)), (proj2 (Z.eqb_neq c 40)), (proj2 (Z.eqb_neq c 41)) by done.
    rewrite !(proj2 (Z.leb_le _ _)) by lia. by apply IH.
  - rewrite <- app_assoc, scan_quoted by done. by apply IH.
  - rewrite (proj2 (Z.ltb_ge max (k + 1))) by lia. rewrite <- app_assoc, IHu by lia. simpl.
    rewrite (proj2 (checked_sub_some (k + 1) 1 k)) by lia. by apply IHv.
Qed.

Lemma scan_string max l : forall d e, sexpr_scan max l d true e = true ->
  exists q l', l = q ++ l' /\ (if e : bool then exists c q', q = c :: q' /\ quoted q' else quoted q) /\
    sexpr_scan max l' d false false = true.
Proof.
  induction l as [|c l IH]; intros d e Hs; simpl in Hs.
  { by rewrite andb_comm in Hs; destruct (d =? 0), e. }
  destruct e.
  - destruct (IH _ _ Hs) as (q & l' & -> & Hq & Hr). exists (c :: q), l'. by eauto 6.
  - destruct (c =? 92) eqn:H92; [|destruct (c =? 34) eqn:H34]; bool_to_prop.
    + destruct (IH _ _ Hs) as (q & l' & -> & (x & q' & -> & Hq) & Hr). subst.
      exists (92 :: x :: q'), l'. split_and!; [done|by constructor|done].
    + subst. exists [34], l. split_and!; [done|constructor|done].
    + destruct (IH _ _ Hs) as (q & l' & -> & Hq & Hr). exists (c :: q), l'.
      split_and!; [done|by constructor|done].
Qed.

(** What is left when [k] groups are still open. *)
Inductive closes (max : Z) : nat -> bytes -> Prop :=
| closes_done l : nested max l -> closes max O l
| closes_more k u l : nested (max - Z.of_nat (S k)) u -> closes max k l -> closes max (S k) (u ++ 41 :: l).

Lemma closes_extend max k pre l :
  (forall u, nested (max - Z.of_nat k) u -> nested (max - Z.of_nat k) (pre ++ u)) ->
  closes max k l -> closes max k (pre ++ l).
Proof.
  intros Hpre Hc. destruct Hc as [l Hl|k u l Hu Hl].
  - constructor. rewrite Z.sub_0_r in Hpre. by apply Hpre.
  - rewrite app_assoc. constructor; [by apply Hpre|done].
Qed.

Lemma scan_closes max : forall n l k, (length l < n)%nat -> Z.of_nat k <= max ->
  sexpr_scan max l (Z.of_nat k) false false = true -> closes max k l.
Proof.
  induction n as [|n IH]; intros [|c l] k Hn Hk Hs; simpl in Hn; [lia..| |]; simpl in Hs.
  - rewrite !andb_true_r in Hs. bool_to_prop. destruct k; [|lia]. constructor. constructor.
  - destruct (c =? 34) eqn:H34; [|destruct (c =? 40) eqn:H40; [|destruct (c =? 41) eqn:H41]]; bool_to_prop; subst.
    + apply scan_string in Hs as (q & l' & -> & Hq & Hs). rewrite length_app in Hn.
      apply (closes_extend max k (34 :: q)); [intros u Hu; by apply (nested_string _ q u)|].
      apply IH; [lia|done|done].
    + destruct (max <? Z.of_nat k + 1) eqn:Hm; [done|]. bool_to_prop.
      replace (Z.of_nat k + 1) with (Z.of_nat (S k)) in Hs by lia.
      pose proof (IH l (S k) ltac:(lia) ltac:(lia) Hs) as Hc. inversion Hc as [|k' u l' Hu Hl]; subst.
      replace (40 :: u ++ 41 :: l') with ((40 :: u ++ [41]) ++ l') by (simpl; by rewrite <- app_assoc).
      apply closes_extend; [|done]. intros v Hv. simpl. rewrite <- app_assoc. simpl.
      apply nested_group; [lia| |done]. by replace (max - Z.of_nat k - 1) with (max - Z.of_nat (S k)) by lia.
    + destruct k as [|k]; [done|]. rewrite (proj2 (checked_sub_some (Z.of_nat (S k)) 1 (Z.of_nat k))) in Hs by lia.
      apply (closes_more max k []); [constructor|]. apply IH; [lia|lia|done].
    + destruct (_ && _) eqn:Hr in Hs; [|done]. bool_to_prop.
      apply (closes_extend max k [c]); [intros u Hu; by constructor|]. apply IH; [lia|done|done].
Qed.

Lemma is_ascii_spec l : is_ascii l = true <-> Forall (fun b => b <= 127) l.
Proof.
  unfold is_ascii. induction l as [|x l IH]; simpl; [done|].
  rewrite andb_true_iff, IH, Forall_cons. by rewrite Z.leb_le.
Qed.

(** The scanner accepts exactly the grammar. *)
Lemma bounded_sexpr_spec l d : 0 <= d ->
  bounded_ascii_sexpr l d = true <-> Forall (fun b => b <= 127) l /\ nested d l.
Proof.
  intros Hd. unfold bounded_ascii_sexpr. rewrite andb_true_iff, is_ascii_spec. apply and_iff_compat_l. split.
  - intros Hs. pose proof (scan_closes d (S (length l)) l 0 ltac:(lia) Hd Hs) as Hc. by inversion Hc.
  - intros Hn. pose proof (scan_nested d d l Hn [] 0 ltac:(lia) ltac:(lia)) as Hs.
    rewrite app_nil_r in Hs. by rewrite Hs.
Qed.

(** ** Recognised controls *)

Section Recognition.
Context `{Cbcl, !CbclLaws, Ed25519, Sha256}.

Definition content_hash_of (message : Message) : string :=
  (SHA256_PREFIX +:+ sha256_hex (canonical_encode (message_to_sexpr message)))%string.
Definition printed (message : Message) : bytes := ascii_bytes (sexpr_to_string (message_to_sexpr message)).
Definition reads_as (control : bytes) (message : Message) : Prop :=
  exists sexpr, sexpr_parse (octets_text control) = Some sexpr /\ message_from_sexpr sexpr = Some message.

(** A control of the wire: the canonical text of its message, within the
    bounds. *)
Record wire_form (control : bytes) (message : Message) : Prop := {
  wf_size : 0 < blen control <= MAX_CONTROL_OCTETS;
  wf_ascii : Forall (fun b => b <= 127) control;
  wf_nested : nested MAX_CONTROL_DEPTH control;
  wf_reads : reads_as control message;
  wf_printed : printed message = control
}.

(** The signer's signature over the canonical octets of the inner message. *)
Record signed_by (signed inner : Message) (signer : CeremonyKeyId) (pk sig : bytes) : Prop := {
  sb_shape : signed = Message_Wrapped WrapperType_Signed
    [SExpr_Atom (Atom_Symbol signer); SExpr_Atom (Atom_Str (lower_hex sig))] inner;
  sb_key : key_of signer pk;
  sb_length : length sig = 64%nat;
  sb_octets : octet_list sig;
  sb_verified : verify_strict pk (canonical_encode (message_to_sexpr inner)) sig = true
}.

Lemma wire_form_guards control message : wire_form control message ->
  (blen control =? 0) || (MAX_CONTROL_OCTETS <? blen control) = false /\
  bounded_ascii_sexpr control MAX_CONTROL_DEPTH = true.
Proof.
  intros [Hs Ha Hn _ _]. split; [|by apply bounded_sexpr_spec].
  apply orb_false_iff. rewrite Z.eqb_neq, Z.ltb_ge. lia.
Qed.

Lemma signature_part_ok signed key sig inner :
  signature_part signed = Ok (key, sig, inner) <->
  signed = Message_Wrapped WrapperType_Signed [SExpr_Atom (Atom_Symbol key); SExpr_Atom (Atom_Str sig)] inner.
Proof. split; [|by intros ->]. 
  destruct signed as [|[] [|[[]|] [|[[]|] [|]]] i|]; try done. by intros [= -> -> ->]. Qed.

Lemma recognise_ok control role v :
  recognise_signed_control control role = Ok v <->
  wire_form control (vc_message v) /\ vc_content_hash v = content_hash_of (vc_message v) /\
  exists signed inner pk sig, signed_part (vc_message v) role = Ok signed /\
    signed_by signed inner (vc_signer v) pk sig.
Proof.
  unfold recognise_signed_control. split.
  - destruct (_ || _) eqn:Hsize; [done|]. destruct (bounded_ascii_sexpr _ _) eqn:Hb; [|done]. simpl.
    intros (sx & Hsx%ok_or_ok & (m & Hm%ok_or_ok & Hr)%bind_ok)%bind_ok.
    destruct (bool_decide _) eqn:Hprint; [|done]. simpl in Hr.
    apply bind_ok in Hr as (signed & Hsigned & (((key & hex) & inner) & Hpart%signature_part_ok & Hr)%bind_ok).
    apply bind_ok in Hr as (signer & (-> & pk & Hk)%key_parse_ok & Hr).
    apply bind_ok in Hr as (sig & (Hl & Ho & ->)%ok_or_ok%decode_hex_spec & Hr).
    rewrite (public_key_bytes_ok _ _ Hk) in Hr. simpl in Hr. destruct (verifying_key_valid pk); [|done].
    rewrite discipline_full in Hr. simpl in Hr. unfold public_verify in Hr. rewrite Hl in Hr.
    destruct (verify_strict _ _ _) eqn:Hv; [|done]. injection Hr as <-. simpl.
    apply orb_false_iff in Hsize as [Hz Hmax]. bool_to_prop. pose proof (blen_nonneg control).
    apply bounded_sexpr_spec in Hb as [Ha Hn]; [|done].
    split; [split; [lia|done|done|by exists sx|done]|]. split; [done|].
    exists signed, inner, pk, sig. split; [done|]. by split.
  - intros (Hw & Hh & signed & inner & pk & sig & Hsigned & Hs). destruct (wire_form_guards _ _ Hw) as [-> ->].
    destruct Hw as [_ _ _ (sx & -> & Hm) Hp]. simpl. rewrite Hm. simpl. unfold printed in Hp.
    rewrite bool_decide_eq_true_2 by done. simpl. rewrite Hsigned. simpl. destruct Hs as [-> Hk Hl Ho Hv]. simpl.
    rewrite (proj2 (key_parse_ok _ (vc_signer v))) by eauto. simpl.
    rewrite (proj2 (decode_hex_spec 64 _ sig)) by done. simpl. rewrite (public_key_bytes_ok _ _ Hk). simpl.
    rewrite (proj1 (proj2 (proj2 Hk))), discipline_full. unfold public_verify. rewrite Hl, Hv. simpl.
    destruct v. simpl in *. by rewrite Hh.
Qed.

(** ** Bound controls *)

(** The innermost message carries this performative in this ceremony and
    commits to this body. *)
Record bound_to (message : Message) (name ceremony : string) (body : bytes) : Prop := {
  bt_size : blen body <= MAX_ADJACENT_BODY_OCTETS;
  bt_ceremony : validate_ceremony ceremony = Ok tt;
  bt_shape : exists p r cb, innermost_simple message =
    Some (Message_Simple p r (SExpr_Atom (Atom_Str ceremony))
            [SExpr_Atom (Atom_Str (body_digest body)); SExpr_Atom (Atom_Num (blen body))]
            (Some ceremony) None (Some cb)) /\ performative_name p = name
}.

Lemma body_len_ok body : blen body <= MAX_ADJACENT_BODY_OCTETS -> try_into i64_max (blen body) = Some (blen body).
Proof.
  intros Hb. apply try_into_some. pose proof (blen_nonneg body). unfold MAX_ADJACENT_BODY_OCTETS, i64_max in *. lia.
Qed.

Lemma validate_bound_ok message name ceremony body u :
  validate_bound_control message name ceremony body = Ok u <-> bound_to message name ceremony body.
Proof.
  unfold validate_bound_control. destruct u. split.
  - destruct (_ <? _) eqn:Hsize; [done|]. bool_to_prop. intros (simple & Hs%ok_or_ok & Hv)%bind_ok.
    destruct simple as [p r c ps t s cb| |]; try done.
    destruct (bool_decide (_ = name)) eqn:Hn; [|done]. apply bind_ok in Hv as ([] & Hc & Hv).
    destruct (bool_decide (t = _)) eqn:Ht; [|done]. simpl in Hv.
    destruct (_ || _) eqn:Hsc; [done|]. apply orb_false_iff in Hsc as [Hsn Hcn]. bool_to_prop. subst.
    destruct s; [by destruct Hsn|]. destruct cb as [cb|]; [|done].
    destruct ps as [|[[| d| | |]|] [|[[| | n| |]|] [|]]]; try done.
    destruct (bool_decide (c = _)) eqn:Hct; [|done]. rewrite body_len_ok in Hv by done. simpl in Hv.
    destruct (_ || _) eqn:Hd in Hv; [done|]. apply orb_false_iff in Hd as [Hd Hl]. bool_to_prop. subst.
    split; [done..|]. eauto.
  - intros [Hsize Hc (p & r & cb & -> & Hn)]. rewrite (proj2 (Z.ltb_ge _ _)) by lia. simpl.
    rewrite bool_decide_eq_true_2, Hc by done. simpl. rewrite bool_decide_eq_true_2 by done. simpl.
    rewrite bool_decide_eq_true_2, body_len_ok by done. simpl. by rewrite bool_decide_eq_true_2, Z.eqb_refl by done.
Qed.

(** ** Nothing here panics *)

Lemma calm_parse s : calm (CeremonyKeyId_parse s).
Proof. unfold CeremonyKeyId_parse. solve_calm. Qed.
Lemma calm_ceremony s : calm (validate_ceremony s).
Proof. unfold validate_ceremony. solve_calm. Qed.
Lemma calm_recognise control role : calm (recognise_signed_control control role).
Proof.
  unfold recognise_signed_control, signed_part, signature_part, public_key_bytes.
  pose proof calm_parse. solve_calm; apply calm_bind; solve_calm.
Qed.
Lemma calm_bound message name ceremony body : calm (validate_bound_control message name ceremony body).
Proof. unfold validate_bound_control. pose proof calm_ceremony. solve_calm. Qed.

(** ** Built controls are recognised *)

Lemma encode_control_ok message control : encode_control message = Ok control -> wire_form control message.
Proof.
  unfold encode_control. fold (printed message). destruct (_ || _) eqn:Hg; [done|].
  apply orb_false_iff in Hg as [Hg Hb]. apply orb_false_iff in Hg as [Hz Hmax].
  intros (sx & Hsx%ok_or_ok & (m & Hm%ok_or_ok & Hr)%bind_ok)%bind_ok.
  destruct (bool_decide _) eqn:Heq; [|done]. injection Hr as <-. bool_to_prop. subst m.
  pose proof (blen_nonneg (printed message)). apply bounded_sexpr_spec in Hb as [Ha Hn]; [|done].
  split; [lia|done|done| |done]. exists sx. split; [|done]. unfold printed. by rewrite octets_text_bytes.
Qed.

Lemma sign_message_ok `{!Ed25519Laws} k inner :
  exists id signed, key_id k = Ok id /\ sign_message k inner = Ok signed /\
    signed_by signed inner id (verifying_key (csk_secret k))
      (ed25519_sign (csk_secret k) (canonical_encode (message_to_sexpr inner))).
Proof.
  destruct (key_id_of k) as (id & Hid & Hk). unfold sign_message. rewrite Hid. simpl. eexists id, _.
  split; [done|]. split; [done|]. split; auto using signature_length, signature_octets, signature_verifies.
Qed.

Lemma built_recognised `{!Ed25519Laws} k name recipient ceremony body cb control :
  build_bound_control k name recipient ceremony body cb = Ok control ->
  exists v, recognise_signed_control control false = Ok v /\ key_id k = Ok (vc_signer v) /\
    bound_to (vc_message v) name ceremony body /\
    innermost_simple (vc_message v) = Some (bound_message name recipient ceremony body (blen body) cb).
Proof.
  unfold build_bound_control. intros ([] & Hc & Hb)%bind_ok. destruct (_ <? _) eqn:Hsize; [done|]. bool_to_prop.
  rewrite body_len_ok in Hb by done. simpl in Hb.
  destruct (sign_message_ok k (bound_message name recipient ceremony body (blen body) cb))
    as (id & signed & Hid & Hs & Hby).
  rewrite Hs in Hb. simpl in Hb. apply encode_control_ok in Hb.
  exists (mkVerifiedControl signed id (content_hash_of signed)).
  assert (innermost_simple signed = Some (bound_message name recipient ceremony body (blen body) cb)) as Hin.
  { destruct Hby as [-> _ _ _ _]. rewrite innermost_of_wrapped. apply innermost_of_simple. }
  split_and!; simpl; [|done| |done].
  - apply recognise_ok. simpl. split; [done|]. split; [done|]. do 4 eexists. by split.
  - split; [done..|]. rewrite Hin. unfold bound_message. do 3 eexists. split; [done|]. apply custom_name.
Qed.

Lemma opener_recognised `{!Ed25519Laws} k claimant ceremony control :
  build_session_opener k claimant ceremony = Ok control ->
  exists v allocator, recognise_signed_control control true = Ok v /\ vc_signer v = allocator /\ key_id k = Ok allocator /\
    validate_opener_simple (vc_message v) ceremony = Ok tt /\
    wrapper_params (vc_message v) = Ok (exact_opener_params allocator claimant).
Proof.
  unfold build_session_opener. intros ([] & Hc & (id & Hid & (signed & Hs & Hb%encode_control_ok)%bind_ok)%bind_ok)%bind_ok.
  destruct (sign_message_ok k (hello_message ceremony)) as (id' & signed' & Hid' & Hs' & Hby).
  assert (id' = id /\ signed' = signed) as [-> ->] by (split; congruence).
  set (m := Message_Wrapped _ _ _) in *. exists (mkVerifiedControl m id (content_hash_of m)), id.
  split_and!; [|done..| |done].
  - apply recognise_ok. simpl. split; [done|]. split; [done|]. do 4 eexists. by split.
  - destruct Hby as [-> _ _ _ _]. simpl. rewrite hello_name. simpl.
    by rewrite bool_decide_eq_true_2.
Qed.
End Recognition.
