(* ===== verification/CbclMonitors.v ===== *)
(** * The monitors, step by step and along runs

    What one admission of [BootstrapMonitor] and of [SessionMonitor] says of its
    control and does to the monitor, and what holds along any sequence of
    admissions. *)

From S2P Require Import Prelude External CbclExternal CbclProtocol CbclThms.

(** ** Monitors *)

Section Monitors.
Context `{Cbcl, !CbclLaws, Ed25519, Sha256}.

(** The dialects were installed and the two role slots exist. *)
Record monitor_ok (m : BootstrapMonitor) : Prop := {
  mo_bootstrap : is_Some (find_by_name (pd_registry (bm_dialects m)) "blind-pairing-bootstrap/v1");
  mo_roles : length (bm_role_keys m) = 2%nat
}.

Lemma install_ok d : install = Ok d ->
  is_Some (find_by_name (pd_registry d) "blind-pairing-bootstrap/v1") /\
  is_Some (find_by_name (pd_registry d) "blind-pairing-session/v1").
Proof.
  unfold install, install_sources. destruct (_ || _); [done|].
  intros (r1 & _ & (r2 & _ & (b & Hb%ok_or_ok & (s & Hs%ok_or_ok & Hd)%bind_ok)%bind_ok)%bind_ok)%bind_ok.
  destruct (_ || _); [done|]. injection Hd as <-. simpl. rewrite Hb, Hs. eauto.
Qed.

Lemma monitor_new_ok invitation m : BootstrapMonitor_new invitation = Ok m -> monitor_ok m.
Proof.
  unfold BootstrapMonitor_new. intros (d & [Hd _]%install_ok & [= <-])%bind_ok. by split.
Qed.

Definition role_of (p : BootstrapPerformative) : PairingRole :=
  match p with CpaceA | FinishedA => PairingRole_Allocator | CpaceB | FinishedB => PairingRole_Claimant end.

Lemma role_slot p : role_number (role_of p) = role_index p.
Proof. by destruct p. Qed.

Lemma role_slot_bound m p : monitor_ok m -> bm_role_keys m !! role_index p = Some (monitor_role_key m (role_of p)).
Proof.
  intros [_ Hl]. unfold monitor_role_key. rewrite role_slot.
  destruct (lookup_lt_is_Some_2 (bm_role_keys m) (role_index p)) as [k ->]; [rewrite Hl; destruct p; simpl; lia|done].
Qed.

(** What an admission says: a genuine control bound to this body. *)
Record admitted_control (name ceremony : string) (control body : bytes) (a : Admission) (message : Message) : Prop := {
  ac_wire : wire_form control message;
  ac_hash : ad_content_hash a = content_hash_of message;
  ac_signed : exists inner pk sig, signed_by message inner (ad_signer a) pk sig;
  ac_bound : bound_to message name ceremony body
}.

Lemma recognised_bound control name ceremony body v u verdict :
  recognise_signed_control control false = Ok v -> validate_bound_control (vc_message v) name ceremony body = Ok u ->
  admitted_control name ceremony control body (mkAdmission verdict (vc_content_hash v) (vc_signer v)) (vc_message v).
Proof.
  intros (Hw & Hh & signed & inner & pk & sig & [= <-] & Hs)%recognise_ok Hb%validate_bound_ok. split; simpl; eauto.
Qed.

Lemma append_keys hash message m : bm_role_keys (bootstrap_append hash message m) = bm_role_keys m /\
  bm_dialects (bootstrap_append hash message m) = bm_dialects m /\ bm_thread (bootstrap_append hash message m) = bm_thread m.
Proof. unfold bootstrap_append. by destruct (store_append _ _ _ _). Qed.

(** The state after a control was admitted. *)
Definition admitted_state (p : BootstrapPerformative) (a : Admission) (message : Message) (m : BootstrapMonitor) :
    BootstrapMonitor :=
  if bool_decide (ad_verdict a = Verdict_Valid) then
    bootstrap_append (ad_content_hash a) message
      (if bool_decide (monitor_role_key m (role_of p) = None) then bind_role_key (role_index p) (ad_signer a) m else m)
  else m.

Lemma admit_cases m p control body : monitor_ok m ->
  match bootstrap_admit p control body m with
  | (m', Ok a) => exists message, admitted_control (bootstrap_name p) (bm_thread m) control body a message /\
      (forall k, monitor_role_key m (role_of p) = Some k -> ad_signer a = k) /\
      (ad_verdict a = Verdict_Valid -> monitor_role_key m (role_of p) = None -> is_cpace p = true) /\
      m' = admitted_state p a message m
  | (m', Err _) => m' = m
  | (_, Panic) => False
  end.
Proof.
  intros Hok. unfold bootstrap_admit, mbind, stM_bind, get, lift, throw, modify, mret, stM_ret.
  pose proof (calm_recognise control false) as Hcr.
  destruct (recognise_signed_control control false) as [v|e|] eqn:Hv; [|done|by destruct Hcr].
  pose proof (calm_bound (vc_message v) (bootstrap_name p) (bm_thread m) body) as Hcb.
  destruct (validate_bound_control _ _ _ _) as [u|e|] eqn:Hb; [|done|by destruct Hcb].
  destruct (innermost_simple (vc_message v)) as [simple|]; [|done]. simpl.
  destruct (negb _); [done|]. destruct (negb _); [done|].
  rewrite (role_slot_bound m p Hok). simpl.
  destruct (match monitor_role_key m (role_of p) with Some _ => _ | None => _ end) eqn:Hkey; [done|].
  unfold bootstrap_dialect. destruct (mo_bootstrap m Hok) as [d ->]. simpl.
  destruct (dialect_causal_protocol d) as [protocol|]; [|done]. simpl.
  set (verdict := protocol_verdict _). pose proof (recognised_bound _ _ _ _ v u verdict Hv Hb) as Ha.
  assert (forall k, monitor_role_key m (role_of p) = Some k -> vc_signer v = k) as Hsame.
  { intros k Hk. rewrite Hk in Hkey. by bool_to_prop. }
  destruct (bool_decide (verdict = Verdict_Valid)) eqn:Hvalid.
  2:{ exists (vc_message v). split_and!; [done..| |]; unfold admitted_state; simpl;
        [intros Hva; by bool_to_prop|by rewrite Hvalid]. }
  destruct (is_cpace p) eqn:Hcp, (bool_decide (monitor_role_key m (role_of p) = None)) eqn:Hnone; simpl; try done.
  all: exists (vc_message v); split_and!; [done..| |]; unfold admitted_state; simpl; rewrite ?Hvalid, ?Hnone; try done.
  intros _ Hn. by bool_to_prop.
Qed.

Lemma bind_lookup m i r signer : monitor_ok m -> (i < 2)%nat ->
  monitor_role_key (bind_role_key i signer m) r = if bool_decide (role_number r = i) then Some signer else monitor_role_key m r.
Proof.
  intros [_ Hl] Hi. unfold monitor_role_key, bind_role_key. simpl. case_bool_decide as Heq.
  - subst. by rewrite list_lookup_insert_eq by lia.
  - by rewrite list_lookup_insert_ne.
Qed.

(** One admission keeps the monitor well formed and every bound key, and binds
    at most the key of its own role. *)
Lemma admitted_keys m p a message : monitor_ok m ->
  (ad_verdict a = Verdict_Valid -> monitor_role_key m (role_of p) = None -> is_cpace p = true) ->
  (forall k, monitor_role_key m (role_of p) = Some k -> ad_signer a = k) ->
  let m' := admitted_state p a message m in
  monitor_ok m' /\ bm_thread m' = bm_thread m /\
  (forall r k, monitor_role_key m r = Some k -> monitor_role_key m' r = Some k) /\
  (ad_verdict a = Verdict_Valid -> monitor_role_key m' (role_of p) = Some (ad_signer a)) /\
  (forall r k, monitor_role_key m' r = Some k -> monitor_role_key m r = Some k \/
     (r = role_of p /\ k = ad_signer a /\ ad_verdict a = Verdict_Valid /\ is_cpace p = true)).
Proof.
  intros Hok Hcp Hsame m'. subst m'. unfold admitted_state. case_bool_decide as Hvalid; [|by split_and!; auto].
  set (m1 := if bool_decide _ then _ else _).
  destruct (append_keys (ad_content_hash a) message m1) as (Hk & Hd & Ht).
  assert (forall r, monitor_role_key (bootstrap_append (ad_content_hash a) message m1) r = monitor_role_key m1 r) as Hm1
    by (intros r; unfold monitor_role_key; by rewrite Hk).
  assert (forall r, monitor_role_key m1 r = if bool_decide (r = role_of p) then Some (ad_signer a) else monitor_role_key m r)
    as Hm.
  { intros r. subst m1. case_bool_decide as Hn.
    - rewrite bind_lookup by (done || destruct p; simpl; lia). rewrite <- role_slot.
      rewrite (bool_decide_ext (role_number r = _) (r = role_of p)) by (destruct r, (role_of p); simpl; naive_solver). done.
    - case_bool_decide; [subst|done]. destruct (monitor_role_key m (role_of p)) as [k|] eqn:Hkey; [|done].
      by rewrite (Hsame k). }
  destruct Hok as [Hdial Hlen]. split_and!.
  - split; [rewrite Hd|rewrite Hk]; subst m1; case_bool_decide; simpl; rewrite ?length_insert; done.
  - rewrite Ht. subst m1. by case_bool_decide.
  - intros r k Hr. rewrite Hm1, Hm. case_bool_decide; [subst|done]. by rewrite (Hsame k).
  - intros _. by rewrite Hm1, Hm, bool_decide_eq_true_2.
  - intros r k. rewrite Hm1, Hm. case_bool_decide; [subst|by left]. intros [= <-].
    destruct (monitor_role_key m (role_of p)) as [k|] eqn:Hkey; [left; by rewrite (Hsame k)|right]. auto.
Qed.

(** ** Runs of the bootstrap monitor *)

Fixpoint boot_run (m : BootstrapMonitor) (events : list (BootstrapPerformative * bytes * bytes)) :
    BootstrapMonitor * list (outcome ProtocolError Admission) :=
  match events with
  | [] => (m, [])
  | (p, control, body) :: events =>
      let '(m, r) := bootstrap_admit p control body m in
      let '(m, rs) := boot_run m events in
      (m, r :: rs)
  end.

(** What one answer of a run says about its control, given the monitor at the
    end. *)
Definition answered (ceremony : string) (final : BootstrapMonitor) (event : BootstrapPerformative * bytes * bytes)
    (r : outcome ProtocolError Admission) : Prop :=
  let '(p, control, body) := event in
  calm r /\ forall a, r = Ok a ->
    (exists message, admitted_control (bootstrap_name p) ceremony control body a message) /\
    (ad_verdict a = Verdict_Valid -> monitor_role_key final (role_of p) = Some (ad_signer a)).

Lemma boot_run_ok events : forall m m' rs, monitor_ok m -> boot_run m events = (m', rs) ->
  (forall r k, monitor_role_key m r = Some k -> monitor_role_key m' r = Some k) /\
  Forall2 (answered (bm_thread m) m') events rs /\
  (forall r k, monitor_role_key m' r = Some k -> monitor_role_key m r = Some k \/
     exists p control body a, ((p, control, body), Ok a) ∈ zip events rs /\ is_cpace p = true /\ r = role_of p /\
       ad_verdict a = Verdict_Valid /\ k = ad_signer a).
Proof.
  induction events as [|[[p control] body] events IH]; intros m m' rs Hok; simpl.
  { intros [= <- <-]. split_and!; [done|constructor|by left]. }
  pose proof (admit_cases m p control body Hok) as Hc.
  destruct (bootstrap_admit p control body m) as [m1 r] eqn:Hadmit. destruct (boot_run m1 events) as [m2 rs'] eqn:Hrun.
  intros [= <- <-]. destruct r as [a|e|]; [| |done].
  - destruct Hc as (message & Hctl & Hsame & Hcp & ->).
    destruct (admitted_keys m p a message Hok Hcp Hsame) as (Hok1 & Ht & Hmono & Hown & Hnew).
    destruct (IH _ _ _ Hok1 Hrun) as (Hmono' & Hall & Hnew'). rewrite Ht in Hall. split_and!; [by auto| |].
    + constructor; [|done]. split; [done|]. intros a' [= <-]. split; [by exists message|by auto].
    + intros r k Hr. destruct (Hnew' r k Hr) as [Hr'|(q & c & b & a' & Hin & Hrest)].
      * destruct (Hnew r k Hr') as [?|(-> & -> & Hv & Hcpa)]; [by left|right].
        exists p, control, body, a. split; [simpl; set_solver|done].
      * right. exists q, c, b, a'. split; [simpl; set_solver|done].
  - subst m1. destruct (IH _ _ _ Hok Hrun) as (Hmono' & Hall & Hnew'). split_and!; [by auto| |].
    + constructor; [|done]. split; done.
    + intros r k Hr. destruct (Hnew' r k Hr) as [?|(q & c & b & a' & Hin & Hrest)]; [by left|right].
      exists q, c, b, a'. split; [simpl; set_solver|done].
Qed.

(** ** The session monitor *)

Definition session_ok (m : SessionMonitor) : Prop :=
  is_Some (find_by_name (pd_registry (sm_dialects m)) "blind-pairing-session/v1").

(** The opener that a session monitor starts from. *)
Record opened_by (ceremony : string) (allocator claimant : CeremonyKeyId) (control : bytes) (m : SessionMonitor)
    (a : Admission) : Prop := {
  ob_message : exists pk sig inner, wire_form control
      (Message_Wrapped WrapperType_WithRoles (exact_opener_params allocator claimant) inner) /\
    ad_content_hash a = content_hash_of
      (Message_Wrapped WrapperType_WithRoles (exact_opener_params allocator claimant) inner) /\
    exists p, performative_name p = "hello"%string /\
      signed_by inner (Message_Simple p None (SExpr_List []) [] (Some ceremony) None (Some CausedBy_Begin))
        allocator pk sig;
  ob_signer : ad_signer a = allocator;
  ob_verdict : ad_verdict a = Verdict_Valid;
  ob_thread : sm_thread m = ceremony;
  ob_root : sm_root m = ad_content_hash a;
  ob_cast : cast_singleton (sm_cast m) = <["claimant"%string := claimant]> {["allocator"%string := allocator]} /\
    cast_indexed_is_empty (sm_cast m) = true /\ cast_dialect_pin (sm_cast m) = Some SESSION_DIALECT_HASH;
  ob_dialect : session_ok m
}.

Lemma validate_opener_ok message ceremony u :
  validate_opener_simple message ceremony = Ok u <->
  exists ps qs p, message = Message_Wrapped WrapperType_WithRoles ps (Message_Wrapped WrapperType_Signed qs
      (Message_Simple p None (SExpr_List []) [] (Some ceremony) None (Some CausedBy_Begin))) /\
    performative_name p = "hello"%string.
Proof.
  destruct u. split.
  - destruct message as [|[] ps [|[] qs [p r c qs' t sd cb| |]|]|]; try done. simpl. destruct (_ || _) eqn:Hg; [done|].
    repeat (apply orb_false_iff in Hg as [Hg ?]). bool_to_prop. intros _. subst.
    destruct r as [r|]; [exfalso; eauto|]. destruct sd as [sd|]; [exfalso; eauto|]. eauto.
  - intros (ps & qs & p & -> & Hp). simpl. rewrite Hp. by rewrite !bool_decide_eq_true_2.
Qed.

Lemma validate_cast_ok cast allocator claimant u :
  validate_exact_cast cast allocator claimant = Ok u ->
  cast_singleton cast = <["claimant"%string := claimant]> {["allocator"%string := allocator]} /\
  cast_indexed_is_empty cast = true /\ cast_dialect_pin cast = Some SESSION_DIALECT_HASH.
Proof.
  unfold validate_exact_cast. destruct (_ || _) eqn:Hg; [done|]. intros _.
  repeat (apply orb_false_iff in Hg as [Hg ?]). by bool_to_prop.
Qed.

Lemma open_ok ceremony role allocator claimant control m a :
  open_for_ceremony ceremony role allocator claimant control = Ok (m, a) ->
  opened_by ceremony allocator claimant control m a.
Proof.
  unfold open_for_ceremony.
  intros ([] & _ & (d & [_ Hd]%install_ok & (v & (Hw & Hh & signed & inner & pk & sig & Hsp & Hsb)%recognise_ok & Ho)%bind_ok)%bind_ok)%bind_ok.
  destruct (bool_decide (vc_signer v = allocator)) eqn:Hal; [|done]. bool_to_prop. simpl in Ho.
  apply bind_ok in Ho as ([] & (ps & qs & p & Hm & Hp)%validate_opener_ok & Ho). rewrite Hm in *. simpl in Ho, Hsp.
  injection Hsp as <-. destruct (bool_decide (ps = _)) eqn:Hps; [|done]. bool_to_prop. subst ps. simpl in Ho.
  unfold session_dialect in Ho. destruct Hd as [sd Hsd]. rewrite Hsd in Ho. simpl in Ho.
  apply bind_ok in Ho as (cast & _ & ([] & Hcast%validate_cast_ok & Ho)%bind_ok).
  destruct (bool_decide (_ = [])); [|done]. simpl in Ho. destruct (evaluate _ _); [|done]. simpl in Ho.
  set (verdict := protocol_verdict _) in *.
  destruct (bool_decide (verdict = _)) eqn:Hv; [|done]. bool_to_prop. simpl in Ho.
  destruct (store_append _ _ _ _) as [store new]. injection Ho as <- <-.
  pose proof (sb_shape _ _ _ _ _ Hsb) as Heq. injection Heq as -> <-.
  split; simpl; try done.
  - rewrite Hal in *. exists pk, sig. eexists. split; [exact Hw|]. split; [exact Hh|]. by exists p.
  - by exists sd.
Qed.

Definition anchored (p : SessionPerformative) (message : Message) (root : string) : Prop :=
  exists simple h, innermost_simple message = Some simple /\ message_caused_by simple = Some (CausedBy_Single h) /\
    (p = SessionPerformative_Intent -> h = root).

Lemma session_anchor_ok p cb root : session_reference_is_anchored p cb root = true <->
  exists h, cb = Some (CausedBy_Single h) /\ (p = SessionPerformative_Intent -> h = root).
Proof.
  unfold session_reference_is_anchored. split.
  - destruct p, cb as [[]|]; try done; intros Hb; bool_to_prop; subst; by eexists.
  - intros (h & -> & Hp). destruct p; try done. by rewrite bool_decide_eq_true_2 by auto.
Qed.

(** The history moves only for a valid control, and then by that control. *)
Lemma session_admit_cases m p control body : session_ok m ->
  match session_admit p control body m with
  | (m', Ok a) => exists message, admitted_control (session_name p) (sm_thread m) control body a message /\
      (ad_verdict a <> Verdict_Violation -> anchored p message (sm_root m) /\
         projection_has_step (sm_projection m) (session_name p) = true) /\
      m' = if bool_decide (ad_verdict a = Verdict_Valid) then session_append (ad_content_hash a) message m else m
  | (m', Err _) => m' = m
  | (_, Panic) => False
  end.
Proof.
  intros [d Hok]. unfold session_admit, mbind, stM_bind, get, lift, throw, modify, mret, stM_ret.
  pose proof (calm_recognise control false) as Hcr.
  destruct (recognise_signed_control control false) as [v|e|] eqn:Hv; [|done|by destruct Hcr].
  pose proof (calm_bound (vc_message v) (session_name p) (sm_thread m) body) as Hcb.
  destruct (validate_bound_control _ _ _ _) as [u|e|] eqn:Hb; [|done|by destruct Hcb].
  destruct (negb _); [done|]. destruct (innermost_simple (vc_message v)) as [simple|] eqn:Hin; [|done]. simpl.
  pose proof (fun verdict => recognised_bound _ _ _ _ v u verdict Hv Hb) as Ha.
  destruct (session_reference_is_anchored _ _ _) eqn:Hanch; [|by exists (vc_message v)].
  apply session_anchor_ok in Hanch as (h & Hh & Hroot). simpl.
  destruct (projection_has_step _ _) eqn:Hstep; [|by exists (vc_message v)]. simpl.
  unfold session_dialect. rewrite Hok. simpl. set (verdict := protocol_verdict _).
  destruct (bool_decide (verdict = Verdict_Valid)) eqn:Hvalid; exists (vc_message v);
    (split; [by apply Ha|]); (split; [by intros _; split; [exists simple, h|]|]); simpl; by rewrite Hvalid.
Qed.

Fixpoint session_run (m : SessionMonitor) (events : list (SessionPerformative * bytes * bytes)) :
    SessionMonitor * list (outcome ProtocolError Admission) :=
  match events with
  | [] => (m, [])
  | (p, control, body) :: events =>
      let '(m, r) := session_admit p control body m in
      let '(m, rs) := session_run m events in
      (m, r :: rs)
  end.

(** What one answer of a session says about its control. *)
Definition session_answered (ceremony root : string) (event : SessionPerformative * bytes * bytes)
    (r : outcome ProtocolError Admission) : Prop :=
  let '(p, control, body) := event in
  calm r /\ forall a, r = Ok a -> exists message,
    admitted_control (session_name p) ceremony control body a message /\
    (ad_verdict a <> Verdict_Violation -> anchored p message root).

Lemma session_append_same hash message m :
  sm_dialects (session_append hash message m) = sm_dialects m /\ sm_thread (session_append hash message m) = sm_thread m /\
  sm_root (session_append hash message m) = sm_root m.
Proof. unfold session_append. by destruct (store_append _ _ _ _). Qed.

Lemma session_run_ok events : forall m m' rs, session_ok m -> session_run m events = (m', rs) ->
  Forall2 (session_answered (sm_thread m) (sm_root m)) events rs.
Proof.
  induction events as [|[[p control] body] events IH]; intros m m' rs Hok; simpl.
  { intros [= <- <-]. constructor. }
  pose proof (session_admit_cases m p control body Hok) as Hc.
  destruct (session_admit p control body m) as [m1 r]. destruct (session_run m1 events) as [m2 rs'] eqn:Hrun.
  intros [= <- <-].
  assert (sm_dialects m1 = sm_dialects m /\ sm_thread m1 = sm_thread m /\ sm_root m1 = sm_root m) as (Hd & Ht & Hr).
  { destruct r as [a|e|]; [|by subst|done]. destruct Hc as (message & _ & _ & ->).
    case_bool_decide; [apply session_append_same|done]. }
  constructor.
  - split; [by destruct r|]. intros a ->. destruct Hc as (message & Hctl & Hanch & _).
    exists message. split; [done|]. intros Hv. by apply Hanch.
  - rewrite <- Ht, <- Hr. eapply IH; [|done]. unfold session_ok. by rewrite Hd.
Qed.
End Monitors.
