(* ===== verification/CbclDemo.v ===== *)
(** * A small engine and signature scheme

    Executable functions that satisfy the laws of [CbclExternal]: an
    S-expression printer and reader, messages as lists, a causal history that
    knows which hashes it holds, and keyed digests as signatures.  They are not
    [cbcl_core] or Ed25519; they show that the laws can hold and let the
    concrete inputs of the development be computed. *)

From stdpp Require Import pretty.
From S2P Require Import Prelude External Instances CbclExternal CbclProtocol.

(** ** Text *)

Fixpoint print_sexpr (e : SExpr) : string :=
  match e with
  | SExpr_Atom (Atom_Symbol s) => s
  | SExpr_Atom (Atom_Str s) => String (Ascii.ascii_of_nat 34) (s +:+ String (Ascii.ascii_of_nat 34) EmptyString)
  | SExpr_Atom (Atom_Num n) => pretty n
  | SExpr_Atom (Atom_Keyword s) => ":" +:+ s
  | SExpr_Atom (Atom_Other s) => s
  | SExpr_List l => "(" +:+ String.concat " " (map print_sexpr l) +:+ ")"
  end%string.

(** Numbers and keywords are told from symbols by their first octet. *)
Definition digits (b : bytes) : Z := foldl (fun n d => 10 * n + (d - 48)) 0 b.
Definition read_token (b : bytes) : SExpr :=
  SExpr_Atom match b with
             | 58 :: b => Atom_Keyword (octets_text b)
             | x :: _ => if (48 <=? x) && (x <=? 57) then Atom_Num (digits b) else Atom_Symbol (octets_text b)
             | [] => Atom_Other EmptyString
             end.

(** The open lists, innermost first and each in reverse, and the token being
    read, in reverse, with whether it is a string. *)
Definition push (e : SExpr) (stack : list (list SExpr)) : list (list SExpr) :=
  match stack with l :: stack => (e :: l) :: stack | [] => [[e]] end.
Definition flush (token : option (bool * bytes)) (stack : list (list SExpr)) : list (list SExpr) :=
  match token with Some (_, b) => push (read_token (reverse b)) stack | None => stack end.
Fixpoint read_sexpr (input : bytes) (stack : list (list SExpr)) (token : option (bool * bytes)) : option SExpr :=
  match input with
  | [] => match flush token stack with [[e]] => Some e | _ => None end
  | x :: input =>
      match token with
      | Some (true, b) =>
          if x =? 34 then read_sexpr input (push (SExpr_Atom (Atom_Str (octets_text (reverse b)))) stack) None
          else read_sexpr input stack (Some (true, x :: b))
      | _ =>
          if x =? 34 then read_sexpr input (flush token stack) (Some (true, []))
          else if x =? 40 then read_sexpr input ([] :: flush token stack) None
          else if x =? 41 then
            match flush token stack with
            | l :: stack => read_sexpr input (push (SExpr_List (reverse l)) stack) None
            | [] => None
            end
          else if x =? 32 then read_sexpr input (flush token stack) None
          else read_sexpr input stack (Some (false, x :: match token with Some (_, b) => b | None => [] end))
      end
  end.

(** ** Messages as lists *)

Definition cause_sexpr (c : CausedBy) : SExpr :=
  match c with
  | CausedBy_Begin => SExpr_Atom (Atom_Symbol "begin")
  | CausedBy_Single h => SExpr_Atom (Atom_Str h)
  | CausedBy_Multiple hs => SExpr_List (map (fun h => SExpr_Atom (Atom_Str h)) hs)
  | CausedBy_Other s => SExpr_Atom (Atom_Symbol s)
  end.
Definition cause_from (e : SExpr) : CausedBy :=
  match e with
  | SExpr_Atom (Atom_Str h) => CausedBy_Single h
  | SExpr_List l =>
      CausedBy_Multiple (omap (fun e => match e with SExpr_Atom (Atom_Str h) => Some h | _ => None end) l)
  | _ => CausedBy_Begin
  end.
Definition demo_name (p : Performative) : string :=
  match p with
  | Performative_Core CorePerformative_Hello => "hello"
  | Performative_Core (CorePerformative_Other s) | Performative_Custom s => s
  end%string.

Fixpoint message_list (m : Message) : SExpr :=
  match m with
  | Message_Simple p r c ps t _ cb =>
      SExpr_List [SExpr_Atom (Atom_Symbol (demo_name p));
                  SExpr_List match r with Some (Recipients_One k) => [SExpr_Atom (Atom_Symbol k)] | _ => [] end;
                  c; SExpr_List ps; SExpr_Atom (Atom_Str (default EmptyString t));
                  cause_sexpr (default CausedBy_Begin cb)]
  | Message_Wrapped w ps m =>
      SExpr_List [SExpr_Atom (Atom_Keyword match w with WrapperType_Signed => "signed" | _ => "with-roles" end);
                  SExpr_List ps; message_list m]
  | Message_Other s => SExpr_Atom (Atom_Other s)
  end.
Fixpoint list_message (e : SExpr) : option Message :=
  match e with
  | SExpr_List [SExpr_Atom (Atom_Symbol n); SExpr_List r; c; SExpr_List ps; SExpr_Atom (Atom_Str t); cb] =>
      Some (Message_Simple
        (if bool_decide (n = "hello"%string) then Performative_Core CorePerformative_Hello else Performative_Custom n)
        match r with [SExpr_Atom (Atom_Symbol k)] => Some (Recipients_One k) | _ => None end
        c ps (Some t) None (Some (cause_from cb)))
  | SExpr_List [SExpr_Atom (Atom_Keyword w); SExpr_List ps; e] =>
      Message_Wrapped (if bool_decide (w = "signed"%string) then WrapperType_Signed else WrapperType_WithRoles) ps
        <$> list_message e
  | _ => None
  end.
Fixpoint simple_of (m : Message) : option Message :=
  match m with
  | Message_Simple _ _ _ _ _ _ _ => Some m
  | Message_Wrapped _ _ m => simple_of m
  | Message_Other _ => None
  end.
Definition cause_of (m : Message) : option CausedBy :=
  match m with Message_Simple _ _ _ _ _ _ cb => cb | _ => None end.

(** ** Histories: the hashes held *)

Definition cause_verdict (cb : option CausedBy) (store : list string) : VerificationResult :=
  match cb with
  | Some CausedBy_Begin => VerificationResult_Valid
  | Some (CausedBy_Single h) => if bool_decide (h ∈ store) then VerificationResult_Valid else VerificationResult_Unknown
  | Some (CausedBy_Multiple hs) =>
      if bool_decide (Forall (.∈ store) hs) then VerificationResult_Valid else VerificationResult_Unknown
  | _ => VerificationResult_Violation "cause"
  end.

(** The cast of the exact opener parameters. *)
Definition demo_cast (ps : list SExpr) : option (gmap string string) :=
  match ps with
  | SExpr_List [SExpr_List [SExpr_Atom (Atom_Symbol r1); SExpr_Atom (Atom_Symbol k1)];
                SExpr_List [SExpr_Atom (Atom_Symbol r2); SExpr_Atom (Atom_Symbol k2)]] :: _ =>
      Some (<[r2 := k2]> {[r1 := k1]})
  | _ => None
  end.

(** A dialect is known by its name. *)
Definition demo_dialect_hash (name : string) : string :=
  if bool_decide (name = "blind-pairing-bootstrap/v1"%string) then BOOTSTRAP_DIALECT_HASH else SESSION_DIALECT_HASH.

#[export] Instance demo_cbcl : Cbcl := {|
  sexpr_to_string := print_sexpr;
  sexpr_parse s := read_sexpr (ascii_bytes s) [] None;
  message_to_sexpr := message_list;
  message_from_sexpr := list_message;
  canonical_encode e := ascii_bytes (print_sexpr e);
  innermost_simple := simple_of;
  recipient_set m := match m with Message_Simple _ (Some (Recipients_One k)) _ _ _ _ _ => {[k]} | _ => ∅ end;
  message_caused_by := cause_of;
  performative_name := demo_name;
  Dialect := string;
  DialectRegistry := list string;
  CausalProtocol := unit;
  Roles := unit;
  parser_parse s := Some (SExpr_Atom (Atom_Str s));
  parse_dialect e := if bool_decide (e = SExpr_Atom (Atom_Str BOOTSTRAP_DIALECT_SOURCE))
                     then Some "blind-pairing-bootstrap/v1"%string else Some "blind-pairing-session/v1"%string;
  registry_new := [];
  registry_install r d := Some (d :: r);
  find_by_name r n := if bool_decide (n ∈ r) then Some n else None;
  dialect_stored_hash d := Some (demo_dialect_hash d);
  dialect_hash := demo_dialect_hash;
  dialect_causal_protocol _ := Some tt;
  dialect_roles _ := tt;
  evaluate _ _ := true;
  ThreadedMessageStore := list string;
  store_new := [];
  store_append h _ _ s := if bool_decide (h ∈ s) then (s, false) else (h :: s, true);
  verify_causal _ cb s _ _ := cause_verdict cb s;
  Cast := gmap string string;
  cast_singleton c := c;
  cast_indexed_is_empty _ := true;
  cast_dialect_pin _ := Some SESSION_DIALECT_HASH;
  parse_wrapper_cast ps _ := demo_cast ps;
  r6_instantiated_violations _ _ := [];
  LocalProtocol := string;
  project d _ _ := d;
  projection_has_step _ _ := true;
  verify_causal_for_role m _ _ _ s _ _ := cause_verdict (simple_of m ≫= cause_of) s;
  verify_with_discipline v m sig := v m sig
|}.

#[export] Instance demo_cbcl_laws : CbclLaws.
Proof. by split. Qed.

(** ** Keys: a signature is a digest under the public key *)

Definition octet_digest (n : nat) (b : bytes) : bytes := map (fun x => x mod 256) (demo_digest n b).
Lemma octet_digest_ok n b : octet_list (octet_digest n b) /\ length (octet_digest n b) = n.
Proof.
  unfold octet_digest. rewrite length_map, demo_digest_len. split; [|done].
  apply Forall_forall. intros x (y & <- & _)%list_elem_of_In%in_map_iff. pose proof (Z.mod_pos_bound y 256). lia.
Qed.

#[export] Instance demo_ed25519 : Ed25519 := {|
  verifying_key_valid k := (length k =? 32)%nat;
  verifying_key := octet_digest 32;
  ed25519_sign secret m := octet_digest 64 (octet_digest 32 secret ++ m);
  verify_strict k m sig := bool_decide (sig = octet_digest 64 (k ++ m))
|}.
#[export] Instance demo_ed25519_laws : Ed25519Laws.
Proof.
  split.
  - intros secret. apply (octet_digest_ok 32).
  - intros secret. apply (octet_digest_ok 32).
  - intros secret. apply Nat.eqb_eq, (octet_digest_ok 32).
  - intros secret m. apply (octet_digest_ok 64).
  - intros secret m. apply (octet_digest_ok 64).
  - intros secret m. by apply bool_decide_eq_true.
Qed.

(** ** A digest that knows the two published dialects *)

Definition published_sha256 (b : bytes) : bytes :=
  if bool_decide (b = ascii_bytes BOOTSTRAP_DIALECT_SOURCE) then default [] (decode_lower_hex 32 BOOTSTRAP_SOURCE_SHA256)
  else if bool_decide (b = ascii_bytes SESSION_DIALECT_SOURCE) then default [] (decode_lower_hex 32 SESSION_SOURCE_SHA256)
  else octet_digest 32 b.
