(* ===== verification/CbclProps.v ===== *)
(** * What the CBCL adapter promises

    The properties of [src/cbcl_protocol.rs], with concrete runs. *)

From S2P Require Import Prelude External Instances CbclExternal CbclProtocol CbclThms CbclMonitors CbclDemo.

(** The scanner accepts exactly a grammar.  The one-pass depth scan in front
    of the CBCL parser accepts a text exactly when it is ASCII and a sequence
    of printable characters, closed strings with their escapes, and balanced
    groups nested at most [max_depth] deep; parentheses inside strings do not
    count. *)
Theorem scanner_grammar (input : bytes) (max_depth : Z) :
  0 <= max_depth ->
  (bounded_ascii_sexpr input max_depth = true <-> Forall (fun b => b <= 127) input /\ nested max_depth input).
Proof. apply bounded_sexpr_spec. Qed.

(** C26. A control is recognised exactly when it is genuine.  It is the canonical
    text of its message within the size and depth bounds, the message (or what
    its role wrapper holds) is a signed wrapper whose key identifier spells a
    valid public key in 64 lowercase hexadecimal digits, and the 64-octet
    signature verifies strictly over the canonical octets of the inner
    message; the content address is the digest of the whole message. *)
Theorem control_recognised_exactly `{Cbcl, !CbclLaws, Ed25519, Sha256} control role v :
  recognise_signed_control control role = Ok v <->
  wire_form control (vc_message v) /\ vc_content_hash v = content_hash_of (vc_message v) /\
  exists signed inner pk sig, signed_part (vc_message v) role = Ok signed /\
    signed_by signed inner (vc_signer v) pk sig.
Proof. apply recognise_ok. Qed.

(** C36. What one endpoint builds the other recognises.  Every control that
    [build_bootstrap_control] or [build_session_control] returns is recognised
    as signed by the builder's key and passes the checks of the body, the
    ceremony and the performative it was built for; every opener that
    [build_session_opener] returns is recognised under the builder's key with
    the exact cast of the two keys. *)
Theorem built_controls_recognised `{Cbcl, !CbclLaws, Ed25519, !Ed25519Laws, Sha256} k ceremony body cb control :
  (forall p, build_bootstrap_control k p ceremony body cb = Ok control ->
     exists v, recognise_signed_control control false = Ok v /\ key_id k = Ok (vc_signer v) /\
       validate_bound_control (vc_message v) (bootstrap_name p) ceremony body = Ok tt /\
       innermost_simple (vc_message v) = Some (bound_message (bootstrap_name p) None ceremony body (blen body) cb)) /\
  (forall p recipient, build_session_control k p ceremony recipient body cb = Ok control ->
     exists v, recognise_signed_control control false = Ok v /\ key_id k = Ok (vc_signer v) /\
       validate_bound_control (vc_message v) (session_name p) ceremony body = Ok tt /\
       innermost_simple (vc_message v) =
         Some (bound_message (session_name p) (Some recipient) ceremony body (blen body) cb)) /\
  (forall claimant, build_session_opener k claimant ceremony = Ok control ->
     exists v, recognise_signed_control control true = Ok v /\ key_id k = Ok (vc_signer v) /\
       validate_opener_simple (vc_message v) ceremony = Ok tt /\
       wrapper_params (vc_message v) = Ok (exact_opener_params (vc_signer v) claimant)).
Proof.
  split_and!.
  - intros p (v & Hr & Hk & Hb%(validate_bound_ok _ _ _ _ tt) & Hi)%built_recognised. by exists v.
  - intros p recipient (v & Hr & Hk & Hb%(validate_bound_ok _ _ _ _ tt) & Hi)%built_recognised. by exists v.
  - intros claimant (v & id & Hr & <- & Hk & Ho & Hw)%opener_recognised. by exists v.
Qed.

(** C14. One key per role.  Along any sequence of controls offered to the
    bootstrap monitor of an invitation, nothing panics; every admitted control
    is genuine and bound to its body and to the invitation's ceremony; every
    control admitted as valid is signed by the one key that its role holds at
    the end, which is the key of a valid CPace control of that role. *)
Theorem bootstrap_keys_fixed `{Cbcl, !CbclLaws, Ed25519, Sha256} invitation m events m' rs :
  BootstrapMonitor_new invitation = Ok m -> boot_run m events = (m', rs) ->
  Forall2 (answered (ceremony_id invitation) m') events rs /\
  (forall r k, monitor_role_key m' r = Some k ->
     exists p control body a, ((p, control, body), Ok a) ∈ zip events rs /\ is_cpace p = true /\ r = role_of p /\
       ad_verdict a = Verdict_Valid /\ k = ad_signer a).
Proof.
  intros Hnew Hrun. pose proof (monitor_new_ok _ _ Hnew) as Hok.
  destruct (boot_run_ok events m m' rs Hok Hrun) as (_ & Hall & Hkeys).
  unfold BootstrapMonitor_new in Hnew. apply bind_ok in Hnew as (d & _ & [= <-]). split; [exact Hall|].
  intros r k Hr. destruct (Hkeys r k Hr) as [Hk|?]; [|done]. by destruct r.
Qed.

(** C29. A session is opened by its allocator and carries only its own messages.
    The opener is a hello for this ceremony, signed by the allocator's key and
    wrapped with exactly the cast of the two keys; along any sequence of
    controls after it nothing panics, every admitted control is genuine and
    bound to its body and ceremony, and one that is not a violation cites a
    single predecessor, the opener itself for the intent. *)
Theorem session_anchored `{Cbcl, !CbclLaws, Ed25519, Sha256} ceremony role allocator claimant opener m a events m' rs :
  open_for_ceremony ceremony role allocator claimant opener = Ok (m, a) -> session_run m events = (m', rs) ->
  opened_by ceremony allocator claimant opener m a /\
  Forall2 (session_answered ceremony (ad_content_hash a)) events rs.
Proof.
  intros Ho%open_ok Hrun. split; [exact Ho|]. rewrite <- (ob_thread _ _ _ _ _ _ Ho), <- (ob_root _ _ _ _ _ _ Ho).
  by eapply session_run_ok; [apply Ho|].
Qed.

(** ** Concrete runs *)

#[local] Instance published : Sha256 := published_sha256.

Definition demo_allocator : CeremonySigningKey := mkCeremonySigningKey [7].
Definition demo_claimant : CeremonySigningKey := mkCeremonySigningKey [8].
Definition demo_ceremony : string := ceremony_id [1; 2; 3].
(** The octets of a control, or none. *)
Definition octets_of {E} (m : outcome E bytes) : bytes := match m with Ok b => b | _ => [] end.
Definition text_of {E} (m : outcome E string) : string := match m with Ok s => s | _ => EmptyString end.

(** A share of each side, then a share under the wrong key. *)
Definition demo_shares : list (BootstrapPerformative * bytes * bytes) :=
  [(CpaceA, octets_of (build_bootstrap_control demo_allocator CpaceA demo_ceremony [5; 6] CausedBy_Begin), [5; 6]);
   (CpaceB, octets_of (build_bootstrap_control demo_claimant CpaceB demo_ceremony [7] CausedBy_Begin), [7]);
   (CpaceA, octets_of (build_bootstrap_control demo_claimant CpaceA demo_ceremony [5; 6] CausedBy_Begin), [5; 6])].
Definition demo_opener : bytes :=
  octets_of (build_session_opener demo_allocator (text_of (key_id demo_claimant)) demo_ceremony).

(** A string of parentheses inside one group. *)
Lemma scanner_grammar_witness :
  nested 1 (ascii_bytes "(a " ++ [34; 40; 40; 34] ++ ascii_bytes ")") /\ ~ nested 1 (ascii_bytes "((x))").
Proof.
  split.
  - assert (bounded_ascii_sexpr (ascii_bytes "(a " ++ [34; 40; 40; 34] ++ ascii_bytes ")") 1 = true) as Hb by (by vm_compute).
    apply scanner_grammar in Hb as [_ Hn]; [exact Hn|lia].
  - intros Hn. assert (bounded_ascii_sexpr (ascii_bytes "((x))") 1 = true) as Hb.
    { apply scanner_grammar; [lia|]. split; [|exact Hn]. apply (bool_decide_unpack _). by vm_compute. }
    by vm_compute in Hb.
Defined.

Lemma control_recognised_exactly_witness :
  exists v signed inner pk sig, recognise_signed_control demo_opener true = Ok v /\
    signed_part (vc_message v) true = Ok signed /\ signed_by signed inner (vc_signer v) pk sig.
Proof.
  assert (match recognise_signed_control demo_opener true with Ok _ => true | _ => false end = true) as Hok by (by vm_compute).
  destruct (recognise_signed_control demo_opener true) as [v| |] eqn:Hv; [|discriminate Hok..].
  pose proof (proj1 (control_recognised_exactly demo_opener true v) Hv) as (_ & _ & signed & inner & pk & sig & Hs & Hb).
  exists v, signed, inner, pk, sig. split; [reflexivity|]. split; [exact Hs|exact Hb].
Defined.

Lemma built_controls_recognised_witness :
  exists v, recognise_signed_control demo_opener true = Ok v /\ key_id demo_allocator = Ok (vc_signer v) /\
    validate_opener_simple (vc_message v) demo_ceremony = Ok tt.
Proof.
  assert (build_session_opener demo_allocator (text_of (key_id demo_claimant)) demo_ceremony = Ok demo_opener) as Hb
    by (by vm_compute).
  destruct (built_controls_recognised demo_allocator demo_ceremony [] CausedBy_Begin demo_opener) as (_ & _ & Ho).
  destruct (Ho _ Hb) as (v & Hr & Hk & Hv & _). exists v. split; [exact Hr|]. split; [exact Hk|exact Hv].
Defined.

Definition is_ok {E A} (m : outcome E A) : bool := match m with Ok _ => true | _ => false end.
Lemma is_ok_value {E A} (m : outcome E A) : is_ok m = true -> exists a, m = Ok a.
Proof. destruct m; eauto; done. Qed.

(** The verdicts of the shares at a new monitor. *)
Definition share_verdicts : list (option ProtocolVerdict) :=
  match BootstrapMonitor_new [1; 2; 3] with
  | Ok m => map (fun r => match r with Ok a => Some (ad_verdict a) | _ => None end) (boot_run m demo_shares).2
  | _ => []
  end.

Lemma demo_monitor_new : is_ok (BootstrapMonitor_new [1; 2; 3]) = true.
Proof. vm_cast_no_check (eq_refl true). Qed.
Lemma demo_verdicts : share_verdicts = [Some Verdict_Valid; Some Verdict_Valid; None].
Proof. vm_cast_no_check (eq_refl [Some Verdict_Valid; Some Verdict_Valid; None]). Qed.

Lemma bootstrap_keys_fixed_witness :
  exists m m' rs, BootstrapMonitor_new [1; 2; 3] = Ok m /\ boot_run m demo_shares = (m', rs) /\
    Forall2 (answered demo_ceremony m') demo_shares rs /\
    map (fun r => match r with Ok a => Some (ad_verdict a) | _ => None end) rs =
      [Some Verdict_Valid; Some Verdict_Valid; None].
Proof.
  destruct (is_ok_value _ demo_monitor_new) as [m Hm]. pose proof demo_verdicts as Hv.
  unfold share_verdicts in Hv. rewrite Hm in Hv.
  destruct (boot_run m demo_shares) as [m' rs] eqn:Hrun. exists m, m', rs. split; [exact Hm|].
  split; [exact Hrun|]. split; [|exact Hv].
  exact (proj1 (bootstrap_keys_fixed [1; 2; 3] m demo_shares m' rs Hm Hrun)).
Defined.

Definition demo_allocator_id : CeremonyKeyId := text_of (key_id demo_allocator).
Definition demo_claimant_id : CeremonyKeyId := text_of (key_id demo_claimant).
Lemma demo_opens :
  is_ok (open_for_ceremony demo_ceremony PairingRole_Claimant demo_allocator_id demo_claimant_id demo_opener) = true.
Proof. vm_cast_no_check (eq_refl true). Qed.

Lemma session_anchored_witness :
  exists m a, open_for_ceremony demo_ceremony PairingRole_Claimant demo_allocator_id demo_claimant_id demo_opener =
      Ok (m, a) /\
    opened_by demo_ceremony demo_allocator_id demo_claimant_id demo_opener m a.
Proof.
  destruct (is_ok_value _ demo_opens) as [[m a] Ho]. exists m, a. split; [exact Ho|].
  exact (proj1 (session_anchored demo_ceremony PairingRole_Claimant demo_allocator_id demo_claimant_id demo_opener
    m a [] m [] Ho eq_refl)).
Defined.
