(* ===== verification/InvitationRecord.v ===== *)
(** * The invitation record ([src/endpoint.rs])

    The durable record that lets an invitation serve one attempt: unused, bound
    to the digest of one attempt, or spent.  [bind] and [consume] mutate it;
    [encode] and [decode] keep it across a restart.  What is written is what is
    read, and along any sequence of binds, consumptions and restarts one
    attempt at most is accepted. *)

From S2P Require Import Prelude External Instances WireLaws.

Inductive InvitationStatus : Type := InvitationStatus_Unused | InvitationStatus_Bound | InvitationStatus_Spent.
#[export] Instance InvitationStatus_eq_dec : EqDecision InvitationStatus.
Proof. solve_decision. Defined.
Inductive BindOutcome : Type := BindOutcome_Bound | BindOutcome_Resumed.

Record InvitationRecord := mkInvitationRecord {
  ir_invitation_digest : bytes;
  ir_status : InvitationStatus;
  ir_binding : option bytes
}.

Inductive ReducerError : Type :=
| ReducerError_Invitation
| ReducerError_WrongSide
| ReducerError_Protocol
| ReducerError_Channel
| ReducerError_Recognition
| ReducerError_Phase
| ReducerError_IntentDigest
| ReducerError_Profile
| ReducerError_DecisionConflict
| ReducerError_Terminal.

Section Record.
Context `{Cbor, Sha256}.

Definition attempt_binding (invitation_digest mailbox_id peer_cpace_frame public_context : bytes) :
    outcome ReducerError bytes :=
  encoded ← ok_or (to_canonical_vec
    (VArray [VText "blind-pairing-attempt/v1"; VBytes invitation_digest; VBytes mailbox_id;
             VBytes peer_cpace_frame; VBytes public_context])) ReducerError_Recognition;
  Ok (sha256 encoded).

Definition InvitationRecord_new (invitation : bytes) : InvitationRecord :=
  mkInvitationRecord (sha256 invitation) InvitationStatus_Unused None.

Definition spend (r : InvitationRecord) : InvitationRecord :=
  mkInvitationRecord (ir_invitation_digest r) InvitationStatus_Spent None.
Definition consume (r : InvitationRecord) : InvitationRecord := spend r.

Definition bind_record (b : bytes) (r : InvitationRecord) : InvitationRecord :=
  mkInvitationRecord (ir_invitation_digest r) InvitationStatus_Bound (Some b).

Definition bind (mailbox_id peer_cpace_frame public_context : bytes) : stM InvitationRecord ReducerError BindOutcome :=
  r ← get;
  b ← lift (attempt_binding (ir_invitation_digest r) mailbox_id peer_cpace_frame public_context);
  match ir_status r with
  | InvitationStatus_Unused => _ ← modify (bind_record b); mret BindOutcome_Bound
  | InvitationStatus_Bound =>
      if bool_decide (ir_binding r = Some b) then mret BindOutcome_Resumed
      else _ ← modify spend; throw ReducerError_Invitation
  | InvitationStatus_Spent => throw ReducerError_Invitation
  end.

Definition status_number (s : InvitationStatus) : Z :=
  match s with InvitationStatus_Unused => 0 | InvitationStatus_Bound => 1 | InvitationStatus_Spent => 2 end.

Definition encode_record (r : InvitationRecord) : outcome ReducerError bytes :=
  ok_or (to_canonical_vec
    (VArray [VInteger 1; VBytes (ir_invitation_digest r); VInteger (status_number (ir_status r));
             match ir_binding r with None => VNull | Some b => VBytes b end])) ReducerError_Recognition.

Definition integer_u64 (v : Value) : option Z :=
  match v with VInteger z => try_into u64_max z | _ => None end.
Definition fixed_value (n : nat) (v : Value) : outcome ReducerError bytes :=
  match v with
  | VBytes b => if (length b =? n)%nat then Ok b else Err ReducerError_Recognition
  | _ => Err ReducerError_Recognition
  end.

Definition decode_record (input : bytes) : outcome ReducerError InvitationRecord :=
  '(value, _) ← ok_or (from_reader input) ReducerError_Recognition;
  canonical ← ok_or (to_canonical_vec value) ReducerError_Recognition;
  if negb (bool_decide (canonical = input)) then Err ReducerError_Recognition
  else
    match value with
    | VArray [version; digest; status; binding] =>
        if negb (bool_decide (integer_u64 version = Some 1)) then Err ReducerError_Recognition
        else
          invitation_digest ← fixed_value 32 digest;
          status ← match integer_u64 status with
                   | Some 0 => Ok InvitationStatus_Unused
                   | Some 1 => Ok InvitationStatus_Bound
                   | Some 2 => Ok InvitationStatus_Spent
                   | _ => Err ReducerError_Recognition
                   end;
          binding ← match binding with
                    | VNull => Ok None
                    | value => b ← fixed_value 32 value; Ok (Some b)
                    end;
          if negb (Bool.eqb (bool_decide (status = InvitationStatus_Bound)) (bool_decide (is_Some binding)))
          then Err ReducerError_Recognition
          else Ok (mkInvitationRecord invitation_digest status binding)
    | _ => Err ReducerError_Recognition
    end.
End Record.

(** ** One invitation, one attempt

    The properties of the invitation record of [src/endpoint.rs]: what is
    written is what is read, and along any sequence of binds, consumptions and
    restarts one attempt at most is accepted. *)

Section Record.
Context `{Cbor, !CborLaws, Sha256, !Sha256Laws}.

(** A record as the crate makes them: fixed widths, a binding exactly while
    bound. *)
Definition record_typed (r : InvitationRecord) : Prop :=
  length (ir_invitation_digest r) = 32%nat /\ (ir_status r = InvitationStatus_Bound <-> is_Some (ir_binding r)) /\
  forall b, ir_binding r = Some b -> length b = 32%nat.

Definition record_value (r : InvitationRecord) : Value :=
  VArray [VInteger 1; VBytes (ir_invitation_digest r); VInteger (status_number (ir_status r));
          match ir_binding r with None => VNull | Some b => VBytes b end].

Lemma integer_u64_ok v n : integer_u64 v = Some n <-> v = VInteger n /\ 0 <= n <= u64_max.
Proof.
  unfold integer_u64. split.
  - destruct v; try done. by intros [-> ?]%try_into_some.
  - intros [-> ?]. by apply try_into_some.
Qed.
Lemma fixed_value_ok n v b : fixed_value n v = Ok b <-> v = VBytes b /\ length b = n.
Proof.
  unfold fixed_value. split.
  - destruct v; try done. destruct (_ =? _)%nat eqn:Hl; [|done]. apply Nat.eqb_eq in Hl. by intros [= <-].
  - intros [-> ->]. by rewrite Nat.eqb_refl.
Qed.

Lemma record_written r b : encode_record r = Ok b <-> to_canonical_vec (record_value r) = Some b.
Proof. apply ok_or_ok. Qed.

Lemma record_plain r : plain (record_value r) = true.
Proof. unfold record_value. simpl. by destruct (ir_status r), (ir_binding r). Qed.

Lemma status_read v s : match integer_u64 v with
    | Some 0 => Ok InvitationStatus_Unused
    | Some 1 => Ok InvitationStatus_Bound
    | Some 2 => Ok InvitationStatus_Spent
    | _ => Err ReducerError_Recognition
    end = Ok s <-> v = VInteger (status_number s).
Proof.
  split.
  - destruct (integer_u64 v) as [n|] eqn:Hn; [|done]. apply integer_u64_ok in Hn as [-> _].
    destruct n as [|[[]|[]|]|]; try done; by intros [= <-].
  - intros ->. by destruct s.
Qed.

Lemma binding_read v o : (match v with VNull => Ok None | value => b ← fixed_value 32 value; Ok (Some b) end : outcome ReducerError _) = Ok o <->
  v = match o with None => VNull | Some b => VBytes b end /\ forall b, o = Some b -> length b = 32%nat.
Proof.
  split.
  - destruct v; try done; simpl; [|by intros [= <-]].
    intros (x & [-> Hl]%(fixed_value_ok 32 (VBytes _)) & [= <-])%bind_ok. split; [done|]. by intros y [= <-].
  - intros [-> Hl]. destruct o as [b|]; [|done]. rewrite (proj2 (fixed_value_ok 32 (VBytes b) b)); [done|]. auto.
Qed.

Lemma record_inverse r b : decode_record b = Ok r <-> record_typed r /\ encode_record r = Ok b.
Proof.
  rewrite record_written. unfold decode_record. split.
  - intros ([v pos] & Hr%ok_or_ok & (c & Hc%ok_or_ok & Hd)%bind_ok)%bind_ok.
    destruct (bool_decide _) eqn:Heq; [|done]. simpl in Hd. bool_to_prop. subst c.
    destruct v as [| | | | | | |[|version [|digest [|status [|binding [|]]]]]|]; try done.
    destruct (bool_decide (integer_u64 version = _)) eqn:Hv; [|done]. bool_to_prop. simpl in Hd.
    apply integer_u64_ok in Hv as [-> _].
    apply bind_ok in Hd as (d & [-> Hl]%fixed_value_ok & (s & ->%status_read & (o & [-> Ho]%binding_read & Hd)%bind_ok)%bind_ok).
    destruct (Bool.eqb _ _) eqn:He; [|done]. injection Hd as <-. apply Bool.eqb_prop in He.
    split; [|done]. split; [done|]. split; [|done]. simpl. rewrite <- (bool_decide_spec (s = _)), He. apply bool_decide_spec.
  - intros [(Hl & Hs & Hb) Hw]. rewrite (plain_read _ _ (record_plain r) Hw). simpl. rewrite Hw. simpl.
    rewrite bool_decide_eq_true_2 by done. simpl.
    rewrite Hl. simpl. assert (ir_status r = InvitationStatus_Bound <-> ir_binding r <> None) as Hs' by (by rewrite Hs, not_eq_None_Some).
    destruct r as [d st [bi|]]; simpl in *.
    + rewrite (Hb bi eq_refl). simpl. by destruct st; try by destruct Hs' as [_ Hs']; discriminate Hs'.
    + by destruct st; try by destruct Hs' as [Hs' _]; destruct Hs'.
Qed.

(** ** Histories of one record *)

Inductive RecordOp : Type :=
| Record_Bind (mailbox_id peer_cpace_frame public_context : bytes)
| Record_Consume
| Record_Restart.

(** A restart reads back what was written. *)
Definition record_step (op : RecordOp) : stM InvitationRecord ReducerError (option BindOutcome) :=
  match op with
  | Record_Bind mailbox_id frame context => o ← bind mailbox_id frame context; mret (Some o)
  | Record_Consume => _ ← modify consume; mret None
  | Record_Restart =>
      r ← get;
      written ← lift (encode_record r);
      read ← lift (decode_record written);
      _ ← modify (fun _ => read);
      mret None
  end.

Fixpoint record_run (r : InvitationRecord) (ops : list RecordOp) :
    InvitationRecord * list (outcome ReducerError (option BindOutcome)) :=
  match ops with
  | [] => (r, [])
  | op :: ops =>
      let '(r, a) := record_step op r in
      let '(r, rs) := record_run r ops in
      (r, a :: rs)
  end.

(** The attempts that were accepted. *)
Definition accepted_one (op : RecordOp) (a : outcome ReducerError (option BindOutcome)) : option (bytes * bytes * bytes) :=
  match op, a with
  | Record_Bind m f c, Ok (Some _) => Some (m, f, c)
  | _, _ => None
  end.
Definition accepted (ops : list RecordOp) (rs : list (outcome ReducerError (option BindOutcome))) : list (bytes * bytes * bytes) :=
  omap (fun p => accepted_one p.1 p.2) (zip ops rs).

Lemma accepted_cons op ops a rs : accepted (op :: ops) (a :: rs) = option_list (accepted_one op a) ++ accepted ops rs.
Proof. unfold accepted. simpl. by destruct (accepted_one op a). Qed.
Lemma accepted_refused op e : accepted_one op (Err e) = None.
Proof. by destruct op. Qed.

(** What a step does to a typed record. *)
Inductive record_moves (r : InvitationRecord) : RecordOp -> InvitationRecord -> outcome ReducerError (option BindOutcome) -> Prop :=
| moves_bound m f c b : ir_status r = InvitationStatus_Unused -> attempt_binding (ir_invitation_digest r) m f c = Ok b ->
    record_moves r (Record_Bind m f c) (bind_record b r) (Ok (Some BindOutcome_Bound))
| moves_resumed m f c b : ir_status r = InvitationStatus_Bound -> ir_binding r = Some b ->
    attempt_binding (ir_invitation_digest r) m f c = Ok b ->
    record_moves r (Record_Bind m f c) r (Ok (Some BindOutcome_Resumed))
| moves_mismatch m f c : ir_status r = InvitationStatus_Bound ->
    record_moves r (Record_Bind m f c) (spend r) (Err ReducerError_Invitation)
| moves_refused op e : record_moves r op r (Err e)
| moves_consumed : record_moves r Record_Consume (spend r) (Ok None)
| moves_restarted : record_moves r Record_Restart r (Ok None).

Lemma record_step_moves op r r' a : record_typed r -> record_step op r = (r', a) -> record_moves r op r' a.
Proof.
  intros Ht. destruct op as [m f c| |]; simpl.
  - unfold bind, mbind, stM_bind, get, lift, modify, throw, mret, stM_ret.
    destruct (attempt_binding _ _ _ _) as [b|x|] eqn:Hb; [|intros [= <- <-]; constructor|].
    2:{ unfold attempt_binding in Hb. by destruct (to_canonical_vec _). }
    destruct (ir_status r) eqn:Hs; [intros [= <- <-]; by apply moves_bound| |intros [= <- <-]; constructor].
    case_bool_decide; intros [= <- <-]; [by apply (moves_resumed r m f c b)|by constructor].
  - intros [= <- <-]. apply moves_consumed.
  - unfold mbind, stM_bind, get, lift, modify, mret, stM_ret. destruct (encode_record r) as [b|x|] eqn:Hw.
    + assert (decode_record b = Ok r) as -> by (by apply record_inverse). intros [= <- <-]. constructor.
    + intros [= <- <-]. constructor.
    + unfold encode_record in Hw. by destruct (to_canonical_vec _).
Qed.

Lemma attempt_binding_ok d m f c b : attempt_binding d m f c = Ok b ->
  exists e, to_canonical_vec (VArray [VText "blind-pairing-attempt/v1"; VBytes d; VBytes m; VBytes f; VBytes c]) = Some e /\
    b = sha256 e.
Proof. unfold attempt_binding. intros (e & He%ok_or_ok & [= <-])%bind_ok. eauto. Qed.

Lemma moves_typed r op r' a : record_typed r -> record_moves r op r' a -> record_typed r'.
Proof.
  intros (Hl & Hs & Hb) Hm. destruct Hm; try done; unfold record_typed; simpl.
  - split; [done|]. split; [by split; [eexists|]|]. intros x [= <-].
    match goal with H : attempt_binding _ _ _ _ = Ok _ |- _ => apply attempt_binding_ok in H as (e & _ & ->) end.
    apply sha256_len.
  - split; [done|]. split; [split; [done|by intros []]|done].
  - split; [done|]. split; [split; [done|by intros []]|done].
Qed.

Lemma moves_digest r op r' a : record_moves r op r' a -> ir_invitation_digest r' = ir_invitation_digest r.
Proof. by destruct 1. Qed.

(** A spent record never changes and accepts nothing. *)
Lemma spent_run ops : forall r r' rs, record_typed r -> ir_status r = InvitationStatus_Spent ->
  record_run r ops = (r', rs) -> r' = r /\ accepted ops rs = [].
Proof.
  induction ops as [|op ops IH]; intros r r' rs Ht Hs; simpl; [by intros [= <- <-]|].
  destruct (record_step op r) as [r1 a] eqn:Hstep. destruct (record_run r1 ops) as [r2 rs'] eqn:Hrun. intros [= <- <-].
  apply record_step_moves in Hstep; [|done].
  assert (r1 = r /\ (forall m f c o, op = Record_Bind m f c -> a <> Ok (Some o))) as [-> Ha].
  { destruct Hstep; try congruence; split; try done. destruct Ht as (_ & Hi & _). destruct r as [d st bi]; simpl in *.
    unfold spend. simpl. rewrite Hs. destruct bi; [|done]. subst. by destruct Hi as [_ Hi]; discriminate Hi; eexists. }
  destruct (IH r r2 rs' Ht Hs Hrun) as [-> Hacc]. split; [done|]. rewrite accepted_cons, Hacc, app_nil_r.
  destruct op; try done. by destruct a as [[o|]| |]; try done; destruct (Ha _ _ _ o eq_refl).
Qed.

(** Everything a bound record accepts has its binding. *)
Lemma bound_run ops : forall r r' rs b, record_typed r -> ir_status r = InvitationStatus_Bound -> ir_binding r = Some b ->
  record_run r ops = (r', rs) ->
  Forall (fun t => attempt_binding (ir_invitation_digest r) t.1.1 t.1.2 t.2 = Ok b) (accepted ops rs).
Proof.
  induction ops as [|op ops IH]; intros r r' rs b Ht Hs Hb; simpl; [intros [= <- <-]; constructor|].
  destruct (record_step op r) as [r1 a] eqn:Hstep. destruct (record_run r1 ops) as [r2 rs'] eqn:Hrun. intros [= <- <-].
  apply record_step_moves in Hstep; [|done]. pose proof (moves_typed _ _ _ _ Ht Hstep) as Ht1.
  destruct Hstep as [m f c b' Hu| m f c b' _ Hb' Hat|m f c _|op x| |]; try congruence.
  - rewrite Hb in Hb'. injection Hb' as <-. rewrite accepted_cons. constructor; [done|]. by eapply IH.
  - destruct (spent_run ops _ _ _ Ht1 eq_refl Hrun) as [_ Hacc]. by rewrite accepted_cons, Hacc.
  - rewrite accepted_cons, accepted_refused. by eapply IH.
  - destruct (spent_run ops _ _ _ Ht1 eq_refl Hrun) as [_ Hacc]. by rewrite accepted_cons, Hacc.
  - by eapply IH.
Qed.

Lemma run_typed ops : forall r r' rs, record_typed r -> record_run r ops = (r', rs) -> record_typed r'.
Proof.
  induction ops as [|op ops IH]; intros r r' rs Ht; simpl; [by intros [= <- <-]|].
  destruct (record_step op r) as [r1 a] eqn:Hstep. destruct (record_run r1 ops) as [r2 rs'] eqn:Hrun. intros [= <- <-].
  eapply IH; [|done]. eapply moves_typed, record_step_moves; done.
Qed.

Lemma unused_run ops : forall r r' rs, record_typed r -> ir_status r = InvitationStatus_Unused ->
  record_run r ops = (r', rs) ->
  exists b, Forall (fun t => attempt_binding (ir_invitation_digest r) t.1.1 t.1.2 t.2 = Ok b) (accepted ops rs).
Proof.
  induction ops as [|op ops IH]; intros r r' rs Ht Hs; simpl; [intros [= <- <-]; exists []; constructor|].
  destruct (record_step op r) as [r1 a] eqn:Hstep. destruct (record_run r1 ops) as [r2 rs'] eqn:Hrun. intros [= <- <-].
  apply record_step_moves in Hstep; [|done]. pose proof (moves_typed _ _ _ _ Ht Hstep) as Ht1.
  destruct Hstep as [m f c b Hu Hat| m f c b' Hx|m f c Hx|op x| |]; try congruence.
  - exists b. rewrite accepted_cons. constructor; [done|]. by apply (bound_run ops _ _ _ b Ht1 eq_refl eq_refl Hrun).
  - rewrite accepted_cons, accepted_refused. by eapply IH.
  - destruct (spent_run ops _ _ _ Ht1 eq_refl Hrun) as [_ Hacc]. exists []. by rewrite accepted_cons, Hacc.
  - by eapply IH.
Qed.
Definition attempt_value (digest : bytes) (t : bytes * bytes * bytes) : Value :=
  VArray [VText "blind-pairing-attempt/v1"; VBytes digest; VBytes t.1.1; VBytes t.1.2; VBytes t.2].

(** Two different encodings of attempts with one digest. *)
Definition attempt_collision (digest : bytes) (t u : bytes * bytes * bytes) : Prop :=
  exists b c, to_canonical_vec (attempt_value digest t) = Some b /\ to_canonical_vec (attempt_value digest u) = Some c /\
    b <> c /\ sha256 b = sha256 c.

Lemma attempts_agree digest t u b :
  attempt_binding digest t.1.1 t.1.2 t.2 = Ok b -> attempt_binding digest u.1.1 u.1.2 u.2 = Ok b ->
  t = u \/ attempt_collision digest t u.
Proof.
  intros (x & Hx & Hbx)%attempt_binding_ok (y & Hy & Hby)%attempt_binding_ok.
  destruct (decide (x = y)) as [->|Hne]; [left|right; exists x, y; by rewrite <- Hbx, <- Hby].
  destruct t as [[m f] c], u as [[m' f'] c']. simpl in *.
  pose proof (fun p q => plain_written_inj _ _ _ p q Hx Hy) as Heq. specialize (Heq eq_refl eq_refl). by injection Heq as <- <- <-.
Qed.

Lemma new_record_typed invitation : record_typed (InvitationRecord_new invitation).
Proof. split; [apply sha256_len|]. split; [by split; [|intros []]|done]. Qed.
End Record.

(** The durable record is read as it was written: decoding some octets gives
    a record exactly when the record is well formed and its encoding is those
    octets, so every other input is refused. *)
Theorem invitation_record_roundtrip `{Cbor, !CborLaws, Sha256} r b :
  decode_record b = Ok r <-> record_typed r /\ encode_record r = Ok b.
Proof. apply record_inverse. Qed.

(** C15. An invitation serves one attempt.  Along any sequence of binds,
    consumptions and restarts from a new record, any two accepted attempts
    carry the same mailbox, frame and context, or the two encodings they are
    bound by are a collision of SHA-256; and once the record is spent no later
    operation changes it or is accepted. *)
Theorem invitation_single_use `{Cbor, !CborLaws, Sha256, !Sha256Laws} invitation ops r rs :
  record_run (InvitationRecord_new invitation) ops = (r, rs) ->
  (forall t u, t ∈ accepted ops rs -> u ∈ accepted ops rs -> t = u \/ attempt_collision (sha256 invitation) t u) /\
  (ir_status r = InvitationStatus_Spent -> forall later r' rs', record_run r later = (r', rs') ->
     r' = r /\ accepted later rs' = []).
Proof.
  intros Hrun. pose proof (new_record_typed invitation) as Ht. split.
  - intros t u Hin Hiu. destruct (unused_run ops _ _ _ Ht eq_refl Hrun) as [b Hall].
    rewrite Forall_forall in Hall. eapply attempts_agree; by apply Hall.
  - intros Hs later r' rs' Hlater. eapply spent_run; [|done..]. by eapply run_typed.
Qed.

(** ** Concrete records *)

Definition demo_attempts : list RecordOp :=
  [Record_Bind [1] [2] [3]; Record_Restart; Record_Bind [1] [2] [3]; Record_Bind [1] [2] [4]; Record_Bind [1] [2] [3]].
Definition demo_history := Eval vm_compute in record_run (InvitationRecord_new [7; 7]) demo_attempts.

Lemma invitation_record_roundtrip_witness :
  record_typed demo_history.1 /\ decode_record (match encode_record demo_history.1 with Ok b => b | _ => [] end) = Ok demo_history.1.
Proof.
  destruct (encode_record demo_history.1) as [b|e|] eqn:He; [|by vm_compute in He..].
  assert (record_typed demo_history.1) as Ht.
  { split; [by vm_compute|]. split; [|done]. split; [done|by intros []]. }
  split; [exact Ht|]. apply invitation_record_roundtrip. split; [exact Ht|exact He].
Defined.

(** Bound, restarted, resumed, then spent by another attempt. *)
Lemma invitation_single_use_witness :
  ir_status demo_history.1 = InvitationStatus_Spent /\
  accepted demo_attempts demo_history.2 = [([1], [2], [3]); ([1], [2], [3])] /\
  (forall later r' rs', record_run demo_history.1 later = (r', rs') -> r' = demo_history.1 /\ accepted later rs' = []).
Proof.
  split; [reflexivity|]. split; [reflexivity|].
  apply (invitation_single_use [7; 7] demo_attempts demo_history.1 demo_history.2); reflexivity.
Defined.
