(* ===== verification/Calm.v ===== *)
(** * Codecs and collaborators never panic

    The recognisers and encoders of the wire, the channel, the key schedule's
    users, the built-in profiles and the control builders return a value or an
    error for every input. *)

From S2P Require Import Prelude External Wire Cddl WireCodec Channel Profile CbclExternal CbclProtocol CbclThms CbclMonitors InvitationRecord.

(** ** Wire codecs *)

Lemma calm_field es k : calm (field es k).
Proof. apply calm_ok_or. Qed.
Lemma calm_text v : calm (text_value v).
Proof. unfold text_value. solve_calm. Qed.
Lemma calm_bytes v : calm (bytes_value v).
Proof. unfold bytes_value. solve_calm. Qed.
Lemma calm_uint v : calm (uint_value v).
Proof. unfold uint_value. solve_calm. Qed.
#[export] Hint Resolve calm_field calm_text calm_bytes calm_uint : pairing.
Lemma calm_fixed n v : calm (fixed_bytes n v).
Proof. unfold fixed_bytes. solve_calm. Qed.
Lemma calm_narrow max v : calm (narrow_value max v).
Proof. unfold narrow_value. solve_calm. Qed.
#[export] Hint Resolve calm_fixed calm_narrow : pairing.
Lemma calm_optional {A} (f : Value -> wireM A) es k : (forall v, calm (f v)) -> calm (optional_value f es k).
Proof. intros Hf. unfold optional_value. destruct (optional_field es k); [|done]. apply calm_bind; [apply Hf|done]. Qed.
Lemma calm_map_entries v : calm (map_entries v).
Proof. unfold map_entries. solve_calm. Qed.
Lemma calm_side v : calm (wire_side v).
Proof. unfold wire_side. solve_calm. Qed.
Lemma calm_direction v : calm (wire_direction v).
Proof. unfold wire_direction. solve_calm. Qed.
Lemma calm_application s : calm (validate_application s).
Proof. unfold validate_application. solve_calm. Qed.
Lemma calm_origin `{UrlParser} s : calm (validate_origin s).
Proof. unfold validate_origin. solve_calm. Qed.
Lemma calm_decision s : calm (decision_of s).
Proof. unfold decision_of. solve_calm. Qed.
Lemma calm_locator v : calm (locator_value v).
Proof. unfold locator_value. solve_calm. Qed.
#[export] Hint Resolve calm_optional calm_map_entries calm_side calm_direction calm_application calm_origin
  calm_decision calm_locator : pairing.

(** Every step, whichever side of a bind it is on. *)
Ltac calm_steps :=
  repeat first
    [ done
    | apply calm_bind; [|intros ? ?]
    | match goal with |- calm (match ?x with _ => _ end) => destruct x end
    | solve [auto with pairing] ].

Lemma calm_invitation_of `{UrlParser} es : calm (invitation_of es).
Proof. unfold invitation_of. calm_steps. Qed.
Lemma calm_plaintext_of es : calm (sealed_plaintext_of es).
Proof. unfold sealed_plaintext_of. calm_steps. Qed.
Lemma calm_intent_of es : calm (pairing_intent_of es).
Proof. unfold pairing_intent_of. calm_steps. Qed.
Lemma calm_decision_of es : calm (pairing_decision_of es).
Proof. unfold pairing_decision_of. calm_steps. Qed.
Lemma calm_payload_of es : calm (application_payload_of es).
Proof. unfold application_payload_of. calm_steps. Qed.

Section Codecs.
Context `{Cbor, Cddl}.


Lemma calm_duplicate v : calm (has_duplicate_key v).
Proof.
  revert v. fix IH 1. intros [z|b|z|s|b| |t v|l|l]; simpl; [clear IH; done..|apply IH| |].
  - induction l as [|v l IHl]; [done|]. apply calm_bind; [apply IH|]. intros [] _; [done|apply IHl].
  - generalize (@nil bytes). induction l as [|[k v] l IHl]; intros keys; [done|].
    apply calm_bind; [apply calm_ok_or|]. intros key _. destruct (bool_decide _); [done|].
    apply calm_bind; [apply IH|]. intros [] _; [done|]. apply calm_bind; [apply IH|]. intros [] _; [done|apply IHl].
Qed.

Lemma calm_recognise_value input rule : calm (recognise_value input rule).
Proof.
  unfold recognise_value. pose proof calm_duplicate.
  apply calm_bind; [apply calm_ok_or|]. intros [v pos] _. destruct (negb _); [done|].
  apply calm_bind; [destruct (to_canonical_vec v); [by case_bool_decide|apply calm_bind; by auto]|].
  intros [] _. apply calm_bind; [by auto|]. intros [] _; [done|]. by destruct (validate_cbor _ _).
Qed.

Lemma calm_decode_with {M} rule (of_entries : list (Value * Value) -> wireM M) input :
  (forall es, calm (of_entries es)) -> calm (decode_with rule of_entries input).
Proof.
  intros Hof. unfold decode_with. apply calm_bind; [apply calm_recognise_value|]. intros v _.
  apply calm_bind; [apply calm_map_entries|]. intros es _. apply Hof.
Qed.
Lemma calm_encode_with {M} rule (of_entries : list (Value * Value) -> wireM M) entries m :
  (forall es, calm (of_entries es)) -> calm (encode_with rule of_entries entries m).
Proof.
  intros Hof. unfold encode_with. apply calm_bind; [apply calm_ok_or|]. intros b _.
  apply calm_bind; [by apply calm_decode_with|done].
Qed.

Lemma calm_cpace_message input : calm (decode_cpace_message input).
Proof. unfold decode_cpace_message. pose proof calm_recognise_value. calm_steps. Qed.
Lemma calm_channel_frame_of es : calm (channel_frame_of es).
Proof. unfold channel_frame_of. pose proof calm_cpace_message. calm_steps. Qed.

(** ** The channel *)

Lemma calm_seal `{Aead} p c : calm (seal p c).2.
Proof. destruct (seal p c) as [c' r] eqn:Hs. apply seal_cases in Hs. simpl. by destruct Hs as [(n & f & -> & _)|[_ [e ->]]]. Qed.
Lemma calm_open `{Aead} f c : calm (open f c).2.
Proof.
  destruct (open f c) as [c' r] eqn:Ho. apply open_cases in Ho. simpl.
  by destruct Ho as [(n & p & -> & _)|[(_ & _ & ->)|(_ & e & -> & _)]].
Qed.
Lemma calm_confirm p tag : calm (confirm p tag).
Proof. unfold confirm. destruct (_ || _); [done|]. by destruct (pn_local_side p). Qed.
End Codecs.
#[export] Hint Resolve calm_invitation_of calm_plaintext_of calm_intent_of calm_decision_of calm_payload_of
  calm_channel_frame_of calm_decode_with calm_encode_with calm_seal calm_open calm_confirm : pairing.


(** ** Profiles *)

Class VerifierCalm (V : Type) `{GrantVerifier V} : Prop := verify_calm : forall p v, calm (verify p v).2.
Class ProfileCalm (P : Type) `{ApplicationProfile P} : Prop := {
  recognise_invitation_calm p i : calm (recognise_invitation p i);
  recognise_intent_calm i p : calm (recognise_intent i p).2;
  recognise_payload_calm p b payload : calm (recognise_payload p b payload);
  authorize_payload_calm r p : calm (authorize_payload r p).2
}.

Lemma calm_bounded s max : calm (bounded_text s max).
Proof. unfold bounded_text. solve_calm. Qed.
Lemma calm_bounded_bytes b lo hi : calm (bounded_bytes b lo hi).
Proof. unfold bounded_bytes. solve_calm. Qed.
Lemma calm_sole fs k e : calm (sole_field fs k e).
Proof. unfold sole_field. calm_steps. Qed.
#[export] Hint Resolve calm_bounded calm_bounded_bytes calm_sole : pairing.
Lemma calm_text_field fs k max e : calm (text_field fs k max e).
Proof. unfold text_field. calm_steps. Qed.
Lemma calm_bytes_field fs k max e : calm (bytes_field fs k max e).
Proof. unfold bytes_field. calm_steps. Qed.
Lemma calm_canonical_origin `{UrlParser} s : calm (canonical_https_origin s).
Proof. unfold canonical_https_origin. calm_steps. Qed.
Lemma calm_common_invitation d i : calm (common_invitation d i).
Proof. unfold common_invitation. calm_steps. Qed.
Lemma calm_common_intent d a i : calm (common_intent d a i).
Proof. unfold common_intent. calm_steps. Qed.
Lemma calm_payload_type d p : calm (payload_type d p).
Proof. unfold payload_type. calm_steps. Qed.
Lemma calm_words a b : calm (encode_agent_word_indices a b).
Proof. unfold encode_agent_word_indices. calm_steps. Qed.
#[export] Hint Resolve calm_text_field calm_bytes_field calm_canonical_origin calm_common_invitation calm_common_intent
  calm_payload_type calm_words : pairing.

Section Profiles.
Context `{Cbor, Sha256, UrlParser}.

Lemma calm_canonical_map input n e : calm (canonical_map input n e).
Proof. unfold canonical_map. calm_steps. Qed.
Lemma calm_binding fs : calm (binding fs).
Proof. unfold binding. calm_steps. Qed.
Hint Resolve calm_canonical_map calm_binding : pairing.
Lemma calm_credential_valid c : calm (validate_credential_claims c).
Proof. unfold validate_credential_claims. calm_steps. Qed.
Lemma calm_agent_texts a b c : calm (validate_agent_texts a b c).
Proof. unfold validate_agent_texts. calm_steps. Qed.
Lemma calm_agent_valid c : calm (validate_agent_claims c).
Proof. unfold validate_agent_claims, validate_agent_texts. calm_steps. Qed.
Lemma calm_synthetic_valid c : calm (validate_synthetic_claims c).
Proof. unfold validate_synthetic_claims. calm_steps. Qed.
Hint Resolve calm_credential_valid calm_agent_valid calm_agent_texts calm_synthetic_valid : pairing.
Lemma calm_agent_claims a c : calm (decode_agent_claims a c).
Proof. unfold decode_agent_claims. calm_steps. Qed.
Lemma calm_agent_grant b : calm (decode_agent_grant b).
Proof. unfold decode_agent_grant. calm_steps. Qed.
Lemma calm_credential_claims a c : calm (decode_credential_claims a c).
Proof. unfold decode_credential_claims. calm_steps. Qed.
Lemma calm_credential_grant b : calm (decode_credential_grant b).
Proof. unfold decode_credential_grant. calm_steps. Qed.
Lemma calm_synthetic_claims a c : calm (decode_synthetic_claims a c).
Proof. unfold decode_synthetic_claims. calm_steps. Qed.
Lemma calm_synthetic_grant b : calm (decode_synthetic_grant b).
Proof. unfold decode_synthetic_grant. calm_steps. Qed.
Hint Resolve calm_agent_claims calm_agent_grant calm_credential_claims calm_credential_grant calm_synthetic_claims
  calm_synthetic_grant : pairing.

#[export] Instance synthetic_calm : ProfileCalm SyntheticProfile.
Proof.
  split.
  - intros p i. simpl. unfold synthetic_invitation. calm_steps.
  - intros i p. simpl. unfold synthetic_intent, synthetic_binding. calm_steps.
  - intros p b payload. simpl. unfold synthetic_payload, synthetic_binding. calm_steps.
  - intros r p. simpl. unfold synthetic_authorize, mbind, stM_bind, get, throw. by destruct (sp_authorize p).
Qed.

Context {V : Type} `{GrantVerifier V, !VerifierCalm V}.

Lemma calm_zoom {S T E F A} (sel : S -> T) upd (f : F -> E) (m : stM T F A) s : calm (m (sel s)).2 -> calm (zoom sel upd f m s).2.
Proof. unfold zoom. destruct (m (sel s)) as [t r]. apply calm_map_err. Qed.

#[export] Instance agent_calm : ProfileCalm (AgentProfile V).
Proof.
  split.
  - intros p i. simpl. unfold agent_invitation. calm_steps.
  - intros i p. simpl. unfold agent_intent, agent_binding. calm_steps.
  - intros p b payload. simpl. unfold agent_payload, agent_payload_binding. calm_steps.
  - intros r p. simpl. unfold agent_authorize, mbind, stM_bind.
    pose proof (calm_zoom ap_verifier (fun v p => mkAgentProfile (ap_descriptor p) v) id (verify r) p (verify_calm _ _)) as Hz.
    destruct (zoom _ _ _ _ _) as [p' []]; done.
Qed.
#[export] Instance credential_calm : ProfileCalm (CredentialProfile V).
Proof.
  split.
  - intros p i. simpl. unfold credential_invitation. calm_steps.
  - intros i p. simpl. unfold credential_intent, credential_binding. calm_steps.
  - intros p b payload. simpl. unfold credential_payload, credential_binding. calm_steps.
  - intros r p. simpl. unfold credential_authorize, mbind, stM_bind.
    pose proof (calm_zoom cp_verifier (fun v p => mkCredentialProfile (cp_descriptor p) v) id (verify r) p (verify_calm _ _)) as Hz.
    destruct (zoom _ _ _ _ _) as [p' []]; done.
Qed.
End Profiles.

(** ** Builders *)

Section Builders.
Context `{Cbcl, Ed25519, !Ed25519Laws, Sha256}.

Lemma calm_encode_control m : calm (encode_control m).
Proof. unfold encode_control. calm_steps. Qed.
Lemma calm_sign k m : calm (sign_message k m).
Proof. destruct (sign_message_ok k m) as (id & signed & _ & -> & _). done. Qed.
Lemma calm_build k n r c b cb : calm (build_bound_control k n r c b cb).
Proof.
  unfold build_bound_control. pose proof calm_sign. pose proof calm_encode_control. pose proof calm_ceremony. calm_steps.
Qed.
Lemma calm_opener k claimant ceremony : calm (build_session_opener k claimant ceremony).
Proof.
  unfold build_session_opener. pose proof calm_sign. pose proof calm_encode_control. pose proof calm_ceremony.
  destruct (key_id_of k) as (id & -> & _). calm_steps.
Qed.
Lemma calm_install : calm install.
Proof. unfold install, install_sources, install_source. calm_steps. Qed.

Lemma calm_open_for ceremony role a c control : calm (open_for_ceremony ceremony role a c control).
Proof.
  unfold open_for_ceremony. apply calm_bind; [apply calm_ceremony|]. intros [] _.
  apply calm_bind; [apply calm_install|]. intros d [_ [sd Hd]]%install_ok.
  apply calm_bind; [apply calm_recognise|]. intros v _. destruct (negb _); [done|].
  unfold validate_opener_simple, wrapper_params, validate_exact_cast, session_dialect. rewrite Hd. calm_steps.
Qed.
End Builders.
#[export] Hint Resolve calm_sign calm_build calm_opener calm_open_for : pairing.
