(* ===== verification/Endpoint.v ===== *)
(** * The endpoint reducer ([src/endpoint.rs])

    The security state of one endpoint, composed around the monitors of
    [CbclProtocol], the channel and the application profile.  The methods run
    in [redM], the reducer with a [ReducerError]; [P] is the profile behind
    [Box<dyn ApplicationProfile>].  The collaborators are run in place: their
    new state is kept whatever they answer.  Secrets are plain values; erasing
    one is dropping it from its slot. *)

From S2P Require Import Prelude External Wire Cddl WireCodec Channel Profile CbclExternal CbclProtocol InvitationRecord.

Definition MAX_PENDING_CONTROLS : nat := 16.

Inductive EndpointEffect : Type :=
| EndpointEffect_SendFrame (frame : ChannelFrame)
| EndpointEffect_DisplayIntent (intent : DisplayIntent)
| EndpointEffect_DeliverGrant (grant : AuthorisedGrant)
| EndpointEffect_CloseMailbox.

Inductive TerminalReason : Type :=
| TerminalReason_Cancelled
| TerminalReason_Expired
| TerminalReason_MailboxClosed
| TerminalReason_MailboxCrowded
| TerminalReason_MailboxConflict
| TerminalReason_Declined
| TerminalReason_ProtocolViolation
| TerminalReason_KeyConfirmation
| TerminalReason_Channel
| TerminalReason_IntentMismatch
| TerminalReason_Profile
| TerminalReason_DecisionConflict
| TerminalReason_InvitationMismatch
| TerminalReason_Malformed.
#[export] Instance TerminalReason_eq_dec : EqDecision TerminalReason.
Proof. solve_decision. Defined.

Record IntentRecord := mkIntentRecord { in_digest : bytes; in_control_hash : string; in_profile_binding : bytes }.
Record DecisionRecord := mkDecisionRecord { de_decision : WireDecision; de_control_hash : string }.

Inductive DecodedApplication : Type :=
| Decoded_Intent (value : PairingIntent)
| Decoded_Decision (value : PairingDecision)
| Decoded_Payload (value : ApplicationPayload).

Record PendingApplication := mkPendingApplication { pa_plaintext : SealedPlaintext; pa_decoded : DecodedApplication }.

#[export] Instance WireDecision_eq_dec : EqDecision WireDecision.
Proof. solve_decision. Defined.
#[export] Instance ChannelFrame_eq_dec : EqDecision ChannelFrame.
Proof. solve_decision. Defined.
#[export] Instance SealedPlaintext_eq_dec : EqDecision SealedPlaintext.
Proof. solve_decision. Defined.
#[export] Instance PairingIntent_eq_dec : EqDecision PairingIntent.
Proof. solve_decision. Defined.
#[export] Instance PairingDecision_eq_dec : EqDecision PairingDecision.
Proof. solve_decision. Defined.
#[export] Instance ApplicationPayload_eq_dec : EqDecision ApplicationPayload.
Proof. solve_decision. Defined.
#[export] Instance DecodedApplication_eq_dec : EqDecision DecodedApplication.
Proof. solve_decision. Defined.
#[export] Instance PendingApplication_eq_dec : EqDecision PendingApplication.
Proof. solve_decision. Defined.

Definition performative (d : DecodedApplication) : SessionPerformative :=
  match d with
  | Decoded_Intent _ => SessionPerformative_Intent
  | Decoded_Decision v =>
      match pd_decision v with
      | Decision_Approve => SessionPerformative_Approve
      | Decision_Decline => SessionPerformative_Decline
      end
  | Decoded_Payload _ => SessionPerformative_Payload
  end.

Section Endpoint.
Context `{Cbor, Cddl, UrlParser, Sha256, Sha512, HkdfSha512, HmacSha512, Aead, Cbcl, Ed25519}
  {P : Type} `{ApplicationProfile P}.

Record EndpointReducer := mkEndpointReducer {
  er_side : Side;
  er_application : string;
  er_ceremony : string;
  er_expected_role_keys : list (option bytes);
  er_profile : P;
  er_record : InvitationRecord;
  er_ceremony_key : option CeremonySigningKey;
  er_bootstrap : option BootstrapMonitor;
  er_pending_channel : option PendingChannel;
  er_channel : option SecureChannel;
  er_session : option SessionMonitor;
  er_allocator_cpace_hash : string;
  er_claimant_cpace_hash : string;
  er_local_finished : option ChannelFrame;
  er_pending_finished : option ChannelFrame;
  er_pending_applications : list PendingApplication;
  er_intent : option IntentRecord;
  er_decision : option DecisionRecord;
  er_payload_control_hash : option string;
  er_outbound_payload_sent : bool;
  er_delivered_payloads : Z;
  er_profile_verifications : Z;
  er_terminal : option TerminalReason;
  er_local_decline_committed : bool;
  er_terminal_replay_frame_digest : option bytes
}.

Definition set_profile (x : P) (e : EndpointReducer) : EndpointReducer :=
  mkEndpointReducer (er_side e) (er_application e) (er_ceremony e) (er_expected_role_keys e) x (er_record e)
    (er_ceremony_key e) (er_bootstrap e) (er_pending_channel e) (er_channel e) (er_session e)
    (er_allocator_cpace_hash e) (er_claimant_cpace_hash e) (er_local_finished e) (er_pending_finished e)
    (er_pending_applications e) (er_intent e) (er_decision e) (er_payload_control_hash e)
    (er_outbound_payload_sent e) (er_delivered_payloads e) (er_profile_verifications e) (er_terminal e)
    (er_local_decline_committed e) (er_terminal_replay_frame_digest e).
Definition set_record (x : InvitationRecord) (e : EndpointReducer) : EndpointReducer :=
  mkEndpointReducer (er_side e) (er_application e) (er_ceremony e) (er_expected_role_keys e) (er_profile e) x
    (er_ceremony_key e) (er_bootstrap e) (er_pending_channel e) (er_channel e) (er_session e)
    (er_allocator_cpace_hash e) (er_claimant_cpace_hash e) (er_local_finished e) (er_pending_finished e)
    (er_pending_applications e) (er_intent e) (er_decision e) (er_payload_control_hash e)
    (er_outbound_payload_sent e) (er_delivered_payloads e) (er_profile_verifications e) (er_terminal e)
    (er_local_decline_committed e) (er_terminal_replay_frame_digest e).
Definition set_ceremony_key (x : option CeremonySigningKey) (e : EndpointReducer) : EndpointReducer :=
  mkEndpointReducer (er_side e) (er_application e) (er_ceremony e) (er_expected_role_keys e) (er_profile e)
    (er_record e) x (er_bootstrap e) (er_pending_channel e) (er_channel e) (er_session e)
    (er_allocator_cpace_hash e) (er_claimant_cpace_hash e) (er_local_finished e) (er_pending_finished e)
    (er_pending_applications e) (er_intent e) (er_decision e) (er_payload_control_hash e)
    (er_outbound_payload_sent e) (er_delivered_payloads e) (er_profile_verifications e) (er_terminal e)
    (er_local_decline_committed e) (er_terminal_replay_frame_digest e).
Definition set_bootstrap (x : option BootstrapMonitor) (e : EndpointReducer) : EndpointReducer :=
  mkEndpointReducer (er_side e) (er_application e) (er_ceremony e) (er_expected_role_keys e) (er_profile e)
    (er_record e) (er_ceremony_key e) x (er_pending_channel e) (er_channel e) (er_session e)
    (er_allocator_cpace_hash e) (er_claimant_cpace_hash e) (er_local_finished e) (er_pending_finished e)
    (er_pending_applications e) (er_intent e) (er_decision e) (er_payload_control_hash e)
    (er_outbound_payload_sent e) (er_delivered_payloads e) (er_profile_verifications e) (er_terminal e)
    (er_local_decline_committed e) (er_terminal_replay_frame_digest e).
Definition set_pending_channel (x : option PendingChannel) (e : EndpointReducer) : EndpointReducer :=
  mkEndpointReducer (er_side e) (er_application e) (er_ceremony e) (er_expected_role_keys e) (er_profile e)
    (er_record e) (er_ceremony_key e) (er_bootstrap e) x (er_channel e) (er_session e)
    (er_allocator_cpace_hash e) (er_claimant_cpace_hash e) (er_local_finished e) (er_pending_finished e)
    (er_pending_applications e) (er_intent e) (er_decision e) (er_payload_control_hash e)
    (er_outbound_payload_sent e) (er_delivered_payloads e) (er_profile_verifications e) (er_terminal e)
    (er_local_decline_committed e) (er_terminal_replay_frame_digest e).
Definition set_channel (x : option SecureChannel) (e : EndpointReducer) : EndpointReducer :=
  mkEndpointReducer (er_side e) (er_application e) (er_ceremony e) (er_expected_role_keys e) (er_profile e)
    (er_record e) (er_ceremony_key e) (er_bootstrap e) (er_pending_channel e) x (er_session e)
    (er_allocator_cpace_hash e) (er_claimant_cpace_hash e) (er_local_finished e) (er_pending_finished e)
    (er_pending_applications e) (er_intent e) (er_decision e) (er_payload_control_hash e)
    (er_outbound_payload_sent e) (er_delivered_payloads e) (er_profile_verifications e) (er_terminal e)
    (er_local_decline_committed e) (er_terminal_replay_frame_digest e).
Definition set_session (x : option SessionMonitor) (e : EndpointReducer) : EndpointReducer :=
  mkEndpointReducer (er_side e) (er_application e) (er_ceremony e) (er_expected_role_keys e) (er_profile e)
    (er_record e) (er_ceremony_key e) (er_bootstrap e) (er_pending_channel e) (er_channel e) x
    (er_allocator_cpace_hash e) (er_claimant_cpace_hash e) (er_local_finished e) (er_pending_finished e)
    (er_pending_applications e) (er_intent e) (er_decision e) (er_payload_control_hash e)
    (er_outbound_payload_sent e) (er_delivered_payloads e) (er_profile_verifications e) (er_terminal e)
    (er_local_decline_committed e) (er_terminal_replay_frame_digest e).
Definition set_local_finished (x : option ChannelFrame) (e : EndpointReducer) : EndpointReducer :=
  mkEndpointReducer (er_side e) (er_application e) (er_ceremony e) (er_expected_role_keys e) (er_profile e)
    (er_record e) (er_ceremony_key e) (er_bootstrap e) (er_pending_channel e) (er_channel e) (er_session e)
    (er_allocator_cpace_hash e) (er_claimant_cpace_hash e) x (er_pending_finished e) (er_pending_applications e)
    (er_intent e) (er_decision e) (er_payload_control_hash e) (er_outbound_payload_sent e)
    (er_delivered_payloads e) (er_profile_verifications e) (er_terminal e) (er_local_decline_committed e)
    (er_terminal_replay_frame_digest e).
Definition set_pending_finished (x : option ChannelFrame) (e : EndpointReducer) : EndpointReducer :=
  mkEndpointReducer (er_side e) (er_application e) (er_ceremony e) (er_expected_role_keys e) (er_profile e)
    (er_record e) (er_ceremony_key e) (er_bootstrap e) (er_pending_channel e) (er_channel e) (er_session e)
    (er_allocator_cpace_hash e) (er_claimant_cpace_hash e) (er_local_finished e) x (er_pending_applications e)
    (er_intent e) (er_decision e) (er_payload_control_hash e) (er_outbound_payload_sent e)
    (er_delivered_payloads e) (er_profile_verifications e) (er_terminal e) (er_local_decline_committed e)
    (er_terminal_replay_frame_digest e).
Definition set_pending_applications (x : list PendingApplication) (e : EndpointReducer) : EndpointReducer :=
  mkEndpointReducer (er_side e) (er_application e) (er_ceremony e) (er_expected_role_keys e) (er_profile e)
    (er_record e) (er_ceremony_key e) (er_bootstrap e) (er_pending_channel e) (er_channel e) (er_session e)
    (er_allocator_cpace_hash e) (er_claimant_cpace_hash e) (er_local_finished e) (er_pending_finished e) x
    (er_intent e) (er_decision e) (er_payload_control_hash e) (er_outbound_payload_sent e)
    (er_delivered_payloads e) (er_profile_verifications e) (er_terminal e) (er_local_decline_committed e)
    (er_terminal_replay_frame_digest e).
Definition set_intent (x : option IntentRecord) (e : EndpointReducer) : EndpointReducer :=
  mkEndpointReducer (er_side e) (er_application e) (er_ceremony e) (er_expected_role_keys e) (er_profile e)
    (er_record e) (er_ceremony_key e) (er_bootstrap e) (er_pending_channel e) (er_channel e) (er_session e)
    (er_allocator_cpace_hash e) (er_claimant_cpace_hash e) (er_local_finished e) (er_pending_finished e)
    (er_pending_applications e) x (er_decision e) (er_payload_control_hash e) (er_outbound_payload_sent e)
    (er_delivered_payloads e) (er_profile_verifications e) (er_terminal e) (er_local_decline_committed e)
    (er_terminal_replay_frame_digest e).
Definition set_decision (x : option DecisionRecord) (e : EndpointReducer) : EndpointReducer :=
  mkEndpointReducer (er_side e) (er_application e) (er_ceremony e) (er_expected_role_keys e) (er_profile e)
    (er_record e) (er_ceremony_key e) (er_bootstrap e) (er_pending_channel e) (er_channel e) (er_session e)
    (er_allocator_cpace_hash e) (er_claimant_cpace_hash e) (er_local_finished e) (er_pending_finished e)
    (er_pending_applications e) (er_intent e) x (er_payload_control_hash e) (er_outbound_payload_sent e)
    (er_delivered_payloads e) (er_profile_verifications e) (er_terminal e) (er_local_decline_committed e)
    (er_terminal_replay_frame_digest e).
Definition set_payload_control_hash (x : option string) (e : EndpointReducer) : EndpointReducer :=
  mkEndpointReducer (er_side e) (er_application e) (er_ceremony e) (er_expected_role_keys e) (er_profile e)
    (er_record e) (er_ceremony_key e) (er_bootstrap e) (er_pending_channel e) (er_channel e) (er_session e)
    (er_allocator_cpace_hash e) (er_claimant_cpace_hash e) (er_local_finished e) (er_pending_finished e)
    (er_pending_applications e) (er_intent e) (er_decision e) x (er_outbound_payload_sent e)
    (er_delivered_payloads e) (er_profile_verifications e) (er_terminal e) (er_local_decline_committed e)
    (er_terminal_replay_frame_digest e).
Definition set_outbound_payload_sent (x : bool) (e : EndpointReducer) : EndpointReducer :=
  mkEndpointReducer (er_side e) (er_application e) (er_ceremony e) (er_expected_role_keys e) (er_profile e)
    (er_record e) (er_ceremony_key e) (er_bootstrap e) (er_pending_channel e) (er_channel e) (er_session e)
    (er_allocator_cpace_hash e) (er_claimant_cpace_hash e) (er_local_finished e) (er_pending_finished e)
    (er_pending_applications e) (er_intent e) (er_decision e) (er_payload_control_hash e) x
    (er_delivered_payloads e) (er_profile_verifications e) (er_terminal e) (er_local_decline_committed e)
    (er_terminal_replay_frame_digest e).
Definition set_delivered_payloads (x : Z) (e : EndpointReducer) : EndpointReducer :=
  mkEndpointReducer (er_side e) (er_application e) (er_ceremony e) (er_expected_role_keys e) (er_profile e)
    (er_record e) (er_ceremony_key e) (er_bootstrap e) (er_pending_channel e) (er_channel e) (er_session e)
    (er_allocator_cpace_hash e) (er_claimant_cpace_hash e) (er_local_finished e) (er_pending_finished e)
    (er_pending_applications e) (er_intent e) (er_decision e) (er_payload_control_hash e)
    (er_outbound_payload_sent e) x (er_profile_verifications e) (er_terminal e) (er_local_decline_committed e)
    (er_terminal_replay_frame_digest e).
Definition set_profile_verifications (x : Z) (e : EndpointReducer) : EndpointReducer :=
  mkEndpointReducer (er_side e) (er_application e) (er_ceremony e) (er_expected_role_keys e) (er_profile e)
    (er_record e) (er_ceremony_key e) (er_bootstrap e) (er_pending_channel e) (er_channel e) (er_session e)
    (er_allocator_cpace_hash e) (er_claimant_cpace_hash e) (er_local_finished e) (er_pending_finished e)
    (er_pending_applications e) (er_intent e) (er_decision e) (er_payload_control_hash e)
    (er_outbound_payload_sent e) (er_delivered_payloads e) x (er_terminal e) (er_local_decline_committed e)
    (er_terminal_replay_frame_digest e).
Definition set_terminal (x : option TerminalReason) (e : EndpointReducer) : EndpointReducer :=
  mkEndpointReducer (er_side e) (er_application e) (er_ceremony e) (er_expected_role_keys e) (er_profile e)
    (er_record e) (er_ceremony_key e) (er_bootstrap e) (er_pending_channel e) (er_channel e) (er_session e)
    (er_allocator_cpace_hash e) (er_claimant_cpace_hash e) (er_local_finished e) (er_pending_finished e)
    (er_pending_applications e) (er_intent e) (er_decision e) (er_payload_control_hash e)
    (er_outbound_payload_sent e) (er_delivered_payloads e) (er_profile_verifications e) x
    (er_local_decline_committed e) (er_terminal_replay_frame_digest e).
Definition set_local_decline_committed (x : bool) (e : EndpointReducer) : EndpointReducer :=
  mkEndpointReducer (er_side e) (er_application e) (er_ceremony e) (er_expected_role_keys e) (er_profile e)
    (er_record e) (er_ceremony_key e) (er_bootstrap e) (er_pending_channel e) (er_channel e) (er_session e)
    (er_allocator_cpace_hash e) (er_claimant_cpace_hash e) (er_local_finished e) (er_pending_finished e)
    (er_pending_applications e) (er_intent e) (er_decision e) (er_payload_control_hash e)
    (er_outbound_payload_sent e) (er_delivered_payloads e) (er_profile_verifications e) (er_terminal e) x
    (er_terminal_replay_frame_digest e).
Definition set_terminal_replay_frame_digest (x : option bytes) (e : EndpointReducer) : EndpointReducer :=
  mkEndpointReducer (er_side e) (er_application e) (er_ceremony e) (er_expected_role_keys e) (er_profile e)
    (er_record e) (er_ceremony_key e) (er_bootstrap e) (er_pending_channel e) (er_channel e) (er_session e)
    (er_allocator_cpace_hash e) (er_claimant_cpace_hash e) (er_local_finished e) (er_pending_finished e)
    (er_pending_applications e) (er_intent e) (er_decision e) (er_payload_control_hash e)
    (er_outbound_payload_sent e) (er_delivered_payloads e) (er_profile_verifications e) (er_terminal e)
    (er_local_decline_committed e) x.

Abbreviation redM := (stM EndpointReducer ReducerError).

(** ** Ending *)

Definition terminated (reason : TerminalReason) (e : EndpointReducer) : EndpointReducer :=
  set_terminal (Some reason) (set_record (spend (er_record e)) (set_ceremony_key None (set_pending_channel None
  (set_channel None (set_bootstrap None (set_session None (set_local_finished None (set_pending_finished None
  (set_pending_applications [] (set_intent None (set_decision None (set_payload_control_hash None
  (set_outbound_payload_sent false e))))))))))))).
Definition terminate (reason : TerminalReason) : redM unit := modify (terminated reason).
Definition fail {A} (reason : TerminalReason) (error : ReducerError) : redM A :=
  _ ← terminate reason;
  throw error.
Definition ensure_live : redM unit :=
  e ← get;
  if bool_decide (is_Some (er_terminal e)) then throw ReducerError_Terminal else mret tt.

(** [self.slot.as_mut().ok_or(Phase)?.method(..)]: run a collaborator in its
    slot and return its answer. *)
Definition in_slot {S E A} (slot : EndpointReducer -> option S) (set_slot : option S -> EndpointReducer -> EndpointReducer)
    (m : stM S E A) : redM (outcome E A) :=
  e ← get;
  s ← lift (ok_or (slot e) ReducerError_Phase);
  let '(s, r) := m s in
  _ ← modify (set_slot (Some s));
  match r with Panic => lift Panic | r => mret r end.

(** ** Keys *)

Definition role_key (role : PairingRole) : redM CeremonyKeyId :=
  e ← get;
  lift (ok_or (er_bootstrap e ≫= fun m => monitor_role_key m role) ReducerError_Phase).

Definition role_key_mismatch (e : EndpointReducer) (entry : nat * PairingRole) : outcome ReducerError bool :=
  expected ← expect (er_expected_role_keys e !! entry.1);
  match expected, er_bootstrap e ≫= fun m => monitor_role_key m entry.2 with
  | Some expected, Some actual =>
      match public_key_bytes actual with
      | Ok octets => Ok (negb (bool_decide (sha256 octets = expected)))
      | Err _ => Ok true
      | Panic => Panic
      end
  | _, _ => Ok false
  end.

(** [any] stops at the first mismatch. *)
Definition validate_expected_role_keys : redM unit :=
  e ← get;
  first ← lift (role_key_mismatch e (0%nat, PairingRole_Allocator));
  mismatch ← (if first : bool then mret true else lift (role_key_mismatch e (1%nat, PairingRole_Claimant)));
  if mismatch : bool then fail TerminalReason_ProtocolViolation ReducerError_Protocol else mret tt.

(** ** Construction *)

Definition EndpointReducer_new (side : Side) (invitation : bytes) (record : InvitationRecord)
    (ceremony_key : CeremonySigningKey) (bootstrap : BootstrapMonitor) (pending_channel : PendingChannel)
    (allocator_cpace_hash claimant_cpace_hash : string) (profile : P) : outcome ReducerError EndpointReducer :=
  let invitation_digest := sha256 invitation in
  if negb (bool_decide (ir_status record = InvitationStatus_Bound)) ||
     negb (bool_decide (ir_invitation_digest record = invitation_digest))
  then Err ReducerError_Invitation
  else
    value ← map_err (fun _ => ReducerError_Recognition) (decode_invitation invitation);
    _ ← map_err (fun _ => ReducerError_Profile) (recognise_invitation profile value);
    let endpoint := mkEndpointReducer side (iv_application value) (ceremony_id invitation)
      [iv_expected_allocator_key value; iv_expected_claimant_key value] profile record (Some ceremony_key)
      (Some bootstrap) (Some pending_channel) None None allocator_cpace_hash claimant_cpace_hash None None [] None None
      None false 0 0 None false None in
    let '(endpoint, r) := validate_expected_role_keys endpoint in
    _ ← r;
    Ok endpoint.

(** ** Bootstrap *)

Definition admit_bootstrap_control (p : BootstrapPerformative) (control body : bytes) : redM ProtocolVerdict :=
  _ ← ensure_live;
  result ← in_slot er_bootstrap set_bootstrap (bootstrap_admit p control body);
  match result with
  | Ok admission =>
      if negb (bool_decide (ad_verdict admission = Verdict_Violation)) then
        _ ← validate_expected_role_keys;
        mret (ad_verdict admission)
      else fail TerminalReason_ProtocolViolation ReducerError_Protocol
  | _ => fail TerminalReason_ProtocolViolation ReducerError_Protocol
  end.

Definition finished_performative (side : Side) : BootstrapPerformative :=
  match side with Side_Allocator => FinishedA | Side_Claimant => FinishedB end.

Definition local_finished_frame : redM (option ChannelFrame) :=
  _ ← ensure_live;
  _ ← validate_expected_role_keys;
  e ← get;
  match er_local_finished e with
  | Some frame => mret (Some frame)
  | None =>
      pending ← lift (ok_or (er_pending_channel e) ReducerError_Phase);
      let value := pn_local_finished pending in
      let p := finished_performative (er_side e) in
      key ← lift (ok_or (er_ceremony_key e) ReducerError_Phase);
      control ← lift (map_err (fun _ => ReducerError_Protocol)
        (build_bootstrap_control key p (er_ceremony e) value
           (CausedBy_Multiple [er_allocator_cpace_hash e; er_claimant_cpace_hash e])));
      result ← in_slot er_bootstrap set_bootstrap (bootstrap_admit p control value);
      match result with
      | Ok admission =>
          match ad_verdict admission with
          | Verdict_Unknown => mret None
          | Verdict_Violation => fail TerminalReason_ProtocolViolation ReducerError_Protocol
          | Verdict_Valid =>
              let frame := ChannelFrame_Finished (er_side e) control value in
              _ ← modify (set_local_finished (Some frame));
              mret (Some frame)
          end
      | _ => fail TerminalReason_ProtocolViolation ReducerError_Protocol
      end
  end.

(** ** Sealing *)

Definition seal_control (control : bytes) (body : option bytes) : redM ChannelFrame :=
  plaintext ← lift (map_err (fun _ => ReducerError_Recognition) (encode_sealed_plaintext (mkSealedPlaintext control body)));
  result ← in_slot er_channel set_channel (seal plaintext);
  match result with
  | Ok frame => mret frame
  | _ => fail TerminalReason_Channel ReducerError_Channel
  end.

Definition admit_local_session (p : SessionPerformative) (control body : bytes) : redM string :=
  result ← in_slot er_session set_session (session_admit p control body);
  admission ← lift (map_err (fun _ => ReducerError_Protocol) result);
  if negb (bool_decide (ad_verdict admission = Verdict_Valid))
  then fail TerminalReason_ProtocolViolation ReducerError_Protocol
  else mret (ad_content_hash admission).

Definition channel_frame_digest (frame : ChannelFrame) : outcome ReducerError bytes :=
  encoded ← map_err (fun _ => ReducerError_Recognition) (encode_channel_frame frame);
  Ok (sha256 encoded).

(** [Result::ok]. *)
Definition ok {E A} (m : outcome E A) : outcome E (option A) :=
  match m with Ok a => Ok (Some a) | Err _ => Ok None | Panic => Panic end.

(** ** Session *)

Definition open_allocator_session : redM (list EndpointEffect) :=
  allocator ← role_key PairingRole_Allocator;
  claimant ← role_key PairingRole_Claimant;
  e ← get;
  key ← lift (ok_or (er_ceremony_key e) ReducerError_Phase);
  opener ← lift (map_err (fun _ => ReducerError_Protocol) (build_session_opener key claimant (er_ceremony e)));
  '(session, admission) ← lift (map_err (fun _ => ReducerError_Protocol)
    (open_for_ceremony (er_ceremony e) PairingRole_Allocator allocator claimant opener));
  if negb (bool_decide (ad_verdict admission = Verdict_Valid))
  then fail TerminalReason_ProtocolViolation ReducerError_Protocol
  else
    _ ← modify (set_session (Some session));
    frame ← seal_control opener None;
    mret [EndpointEffect_SendFrame frame].

Definition receive_finished (frame : ChannelFrame) : redM (list EndpointEffect) :=
  match frame with
  | ChannelFrame_Finished side control value =>
      e ← get;
      if bool_decide (side = er_side e) then fail TerminalReason_ProtocolViolation ReducerError_WrongSide
      else if bool_decide (er_local_finished e = None) then fail TerminalReason_ProtocolViolation ReducerError_Phase
      else if bool_decide (¬ is_Some (er_pending_channel e)) || bool_decide (is_Some (er_channel e))
      then fail TerminalReason_ProtocolViolation ReducerError_Phase
      else
        _ ← validate_expected_role_keys;
        result ← in_slot er_bootstrap set_bootstrap (bootstrap_admit (finished_performative side) control value);
        match result with
        | Ok admission =>
            match ad_verdict admission with
            | Verdict_Unknown =>
                e ← get;
                match er_pending_finished e with
                | Some pending =>
                    if negb (bool_decide (pending = frame))
                    then fail TerminalReason_ProtocolViolation ReducerError_Protocol
                    else _ ← modify (set_pending_finished (Some frame)); mret []
                | None => _ ← modify (set_pending_finished (Some frame)); mret []
                end
            | Verdict_Violation => fail TerminalReason_ProtocolViolation ReducerError_Protocol
            | Verdict_Valid =>
                _ ← modify (set_pending_finished None);
                e ← get;
                _ ← modify (set_pending_channel None);
                match er_pending_channel e with
                | None => fail TerminalReason_ProtocolViolation ReducerError_Phase
                | Some pending =>
                    match confirm pending value with
                    | Ok channel =>
                        _ ← modify (set_channel (Some channel));
                        _ ← modify (fun e => set_record (spend (er_record e)) e);
                        if bool_decide (er_side e = Side_Allocator) then open_allocator_session else mret []
                    | Err _ => fail TerminalReason_KeyConfirmation ReducerError_Channel
                    | Panic => lift Panic
                    end
                end
            end
        | _ => fail TerminalReason_ProtocolViolation ReducerError_Protocol
        end
  | _ => lift Panic
  end.

Definition receive_opener (plaintext : SealedPlaintext) : redM (list EndpointEffect) :=
  e ← get;
  if negb (bool_decide (er_side e = Side_Claimant)) || bool_decide (is_Some (sp_body plaintext))
  then fail TerminalReason_ProtocolViolation ReducerError_Protocol
  else
    allocator ← role_key PairingRole_Allocator;
    claimant ← role_key PairingRole_Claimant;
    match open_for_ceremony (er_ceremony e) PairingRole_Claimant allocator claimant (sp_control plaintext) with
    | Ok (session, admission) =>
        if negb (bool_decide (ad_verdict admission = Verdict_Valid))
        then fail TerminalReason_ProtocolViolation ReducerError_Protocol
        else _ ← modify (set_session (Some session)); mret []
    | Err _ => fail TerminalReason_ProtocolViolation ReducerError_Protocol
    | Panic => lift Panic
    end.

(** ** Applications *)

Definition apply_intent (value : PairingIntent) (control_hash : string) : redM (list EndpointEffect) :=
  e ← get;
  if negb (bool_decide (er_side e = Side_Claimant)) || negb (bool_decide (pi_application value = er_application e))
  then fail TerminalReason_IntentMismatch ReducerError_IntentDigest
  else
    encoded ← lift (map_err (fun _ => ReducerError_Recognition) (encode_pairing_intent value));
    let digest := sha256 encoded in
    let '(profile, r) := recognise_intent value (er_profile e) in
    _ ← modify (set_profile profile);
    match r with
    | Ok intent =>
        match er_intent e with
        | Some existing =>
            if bool_decide (in_digest existing = digest) && bool_decide (in_control_hash existing = control_hash)
            then mret []
            else fail TerminalReason_IntentMismatch ReducerError_IntentDigest
        | None =>
            _ ← modify (set_intent (Some (mkIntentRecord digest control_hash (pri_binding intent))));
            mret [EndpointEffect_DisplayIntent (pri_display intent)]
        end
    | Err _ => fail TerminalReason_Profile ReducerError_Profile
    | Panic => lift Panic
    end.

Definition apply_decision (value : PairingDecision) (control_hash : string) : redM (list EndpointEffect) :=
  e ← get;
  if negb (bool_decide (er_side e = Side_Allocator)) then fail TerminalReason_ProtocolViolation ReducerError_Protocol
  else
    intent ← lift (ok_or (er_intent e) ReducerError_Phase);
    if negb (bool_decide (pd_intent_digest value = in_digest intent))
    then fail TerminalReason_IntentMismatch ReducerError_IntentDigest
    else
      match er_decision e with
      | Some existing =>
          if bool_decide (de_decision existing = pd_decision value) &&
             bool_decide (de_control_hash existing = control_hash)
          then mret []
          else fail TerminalReason_DecisionConflict ReducerError_DecisionConflict
      | None =>
          _ ← modify (set_decision (Some (mkDecisionRecord (pd_decision value) control_hash)));
          if bool_decide (pd_decision value = Decision_Decline)
          then _ ← terminate TerminalReason_Declined; mret [EndpointEffect_CloseMailbox]
          else mret []
      end.

Definition apply_payload (value : ApplicationPayload) (control_hash : string) : redM (list EndpointEffect) :=
  e ← get;
  if negb (bool_decide (er_side e = Side_Claimant)) then fail TerminalReason_ProtocolViolation ReducerError_Protocol
  else
    intent ← lift (ok_or (er_intent e) ReducerError_Phase);
    if negb (bool_decide (ap_intent_digest value = in_digest intent)) ||
       negb (bool_decide (de_decision <$> er_decision e = Some Decision_Approve))
    then fail TerminalReason_IntentMismatch ReducerError_IntentDigest
    else
      match er_payload_control_hash e with
      | Some existing =>
          if bool_decide (existing = control_hash) then mret []
          else fail TerminalReason_ProtocolViolation ReducerError_Protocol
      | None =>
          match recognise_payload (er_profile e) (in_profile_binding intent) value with
          | Ok recognised =>
              _ ← modify (set_profile_verifications (er_profile_verifications e + 1));
              let '(profile, r) := authorize_payload recognised (er_profile e) in
              _ ← modify (set_profile profile);
              match r with
              | Ok grant =>
                  _ ← modify (set_payload_control_hash (Some control_hash));
                  _ ← modify (set_delivered_payloads (er_delivered_payloads e + 1));
                  mret [EndpointEffect_DeliverGrant grant]
              | Err _ => fail TerminalReason_Profile ReducerError_Profile
              | Panic => lift Panic
              end
          | Err _ => fail TerminalReason_Profile ReducerError_Profile
          | Panic => lift Panic
          end
      end.

Definition apply_application (decoded : DecodedApplication) (control_hash : string) : redM (list EndpointEffect) :=
  match decoded with
  | Decoded_Intent value => apply_intent value control_hash
  | Decoded_Decision value => apply_decision value control_hash
  | Decoded_Payload value => apply_payload value control_hash
  end.

(** One pass over the controls that wait: those still unknown, the effects so
    far, and whether one was applied. *)
Fixpoint retry_pass (remaining next : list PendingApplication) (emitted : list EndpointEffect) (progress : bool) :
    redM (list PendingApplication * list EndpointEffect * bool) :=
  match remaining with
  | [] => mret (next, emitted, progress)
  | pending :: remaining =>
      body ← lift (ok_or (sp_body (pa_plaintext pending)) ReducerError_Recognition);
      result ← in_slot er_session set_session
        (session_admit (performative (pa_decoded pending)) (sp_control (pa_plaintext pending)) body);
      admission ← lift (map_err (fun _ => ReducerError_Protocol) result);
      match ad_verdict admission with
      | Verdict_Unknown => retry_pass remaining (next ++ [pending]) emitted progress
      | Verdict_Violation =>
          _ ← modify (set_pending_applications next);
          fail TerminalReason_ProtocolViolation ReducerError_Protocol
      | Verdict_Valid =>
          effects ← apply_application (pa_decoded pending) (ad_content_hash admission);
          retry_pass remaining next (emitted ++ effects) true
      end
  end.

(** [while progress]: every pass that makes progress leaves fewer controls, so
    a pass for each control and one more are enough fuel. *)
Fixpoint retry_loop (fuel : nat) (remaining : list PendingApplication) (emitted : list EndpointEffect) :
    redM (list PendingApplication * list EndpointEffect) :=
  match fuel with
  | O => lift Panic
  | S fuel =>
      '(next, emitted, progress) ← retry_pass remaining [] emitted false;
      if progress : bool then retry_loop fuel next emitted else mret (next, emitted)
  end.

Definition retry_pending : redM (list EndpointEffect) :=
  e ← get;
  let remaining := er_pending_applications e in
  _ ← modify (set_pending_applications []);
  '(remaining, emitted) ← retry_loop (S (length remaining)) remaining [];
  _ ← modify (set_pending_applications remaining);
  mret emitted.

Definition admit_application (plaintext : SealedPlaintext) (decoded : DecodedApplication) : redM (list EndpointEffect) :=
  body ← lift (ok_or (sp_body plaintext) ReducerError_Recognition);
  result ← in_slot er_session set_session (session_admit (performative decoded) (sp_control plaintext) body);
  match result with
  | Ok admission =>
      match ad_verdict admission with
      | Verdict_Violation => fail TerminalReason_ProtocolViolation ReducerError_Protocol
      | Verdict_Unknown =>
          e ← get;
          let pending := mkPendingApplication plaintext decoded in
          if bool_decide (pending ∈ er_pending_applications e) then mret []
          else if (length (er_pending_applications e) =? MAX_PENDING_CONTROLS)%nat
          then fail TerminalReason_ProtocolViolation ReducerError_Protocol
          else _ ← modify (set_pending_applications (er_pending_applications e ++ [pending])); mret []
      | Verdict_Valid =>
          effects ← apply_application decoded (ad_content_hash admission);
          more ← retry_pending;
          mret (effects ++ more)
      end
  | _ => fail TerminalReason_ProtocolViolation ReducerError_Protocol
  end.

Definition decode_application (body : bytes) : outcome ReducerError DecodedApplication :=
  match decode_pairing_intent body with
  | Ok value => Ok (Decoded_Intent value)
  | Panic => Panic
  | Err _ =>
      match decode_pairing_decision body with
      | Ok value => Ok (Decoded_Decision value)
      | Panic => Panic
      | Err _ =>
          match decode_application_payload body with
          | Ok value => Ok (Decoded_Payload value)
          | Panic => Panic
          | Err _ => Err ReducerError_Recognition
          end
      end
  end.

(** Remember the frame that brought a decline. *)
Definition remember_decline (frame_digest : bytes) (m : redM (list EndpointEffect)) : redM (list EndpointEffect) := fun e =>
  match m e with
  | (e, Ok effects) =>
      (if bool_decide (er_terminal e = Some TerminalReason_Declined)
       then set_terminal_replay_frame_digest (Some frame_digest) e else e, Ok effects)
  | r => r
  end.

Definition receive_sealed (frame : ChannelFrame) : redM (list EndpointEffect) :=
  frame_digest ← lift (channel_frame_digest frame);
  result ← in_slot er_channel set_channel (open frame);
  match result with
  | Ok plaintext_bytes =>
      match decode_sealed_plaintext plaintext_bytes with
      | Ok plaintext =>
          e ← get;
          if bool_decide (¬ is_Some (er_session e)) then receive_opener plaintext
          else
            match sp_body plaintext with
            | None => fail TerminalReason_Malformed ReducerError_Recognition
            | Some body =>
                match decode_application body with
                | Ok decoded => remember_decline frame_digest (admit_application plaintext decoded)
                | Err error => fail TerminalReason_Malformed error
                | Panic => lift Panic
                end
            end
      | Err _ => fail TerminalReason_Malformed ReducerError_Recognition
      | Panic => lift Panic
      end
  | _ => fail TerminalReason_Channel ReducerError_Channel
  end.

(** ** The public operations *)

Definition receive_frame (frame : ChannelFrame) : redM (list EndpointEffect) :=
  e ← get;
  if bool_decide (is_Some (er_terminal e)) then
    digest ← lift (ok (channel_frame_digest frame));
    if bool_decide (er_terminal e = Some TerminalReason_Declined) &&
       bool_decide (er_terminal_replay_frame_digest e = digest)
    then mret [] else throw ReducerError_Terminal
  else
    _ ← ensure_live;
    match frame with
    | ChannelFrame_Finished _ _ _ => receive_finished frame
    | ChannelFrame_Sealed _ _ _ => receive_sealed frame
    | ChannelFrame_Cpace _ _ _ => fail TerminalReason_ProtocolViolation ReducerError_Phase
    end.

Definition cancel : redM (list EndpointEffect) :=
  _ ← ensure_live;
  _ ← terminate TerminalReason_Cancelled;
  mret [EndpointEffect_CloseMailbox].

Definition relay_closed (reason : CloseReason) : redM (list EndpointEffect) :=
  _ ← ensure_live;
  let terminal := match reason with
                  | CloseReason_Closed => TerminalReason_MailboxClosed
                  | CloseReason_Crowded => TerminalReason_MailboxCrowded
                  | CloseReason_Expired => TerminalReason_Expired
                  | CloseReason_Conflict => TerminalReason_MailboxConflict
                  end in
  _ ← terminate terminal;
  mret [EndpointEffect_CloseMailbox].

Definition retry_pending_finished : redM (list EndpointEffect) :=
  _ ← ensure_live;
  e ← get;
  match er_pending_finished e with
  | Some frame => receive_finished frame
  | None => mret []
  end.

Definition send_intent (intent : PairingIntent) : redM ChannelFrame :=
  _ ← ensure_live;
  e ← get;
  if negb (bool_decide (er_side e = Side_Allocator)) || bool_decide (is_Some (er_intent e)) then throw ReducerError_Phase
  else if negb (bool_decide (pi_application intent = er_application e))
  then fail TerminalReason_IntentMismatch ReducerError_IntentDigest
  else
    recognised ← zoom er_profile set_profile (fun _ => ReducerError_Profile) (recognise_intent intent);
    body ← lift (map_err (fun _ => ReducerError_Recognition) (encode_pairing_intent intent));
    let digest := sha256 body in
    session ← lift (ok_or (er_session e) ReducerError_Phase);
    let root := sm_root session in
    claimant ← role_key PairingRole_Claimant;
    key ← lift (ok_or (er_ceremony_key e) ReducerError_Phase);
    control ← lift (map_err (fun _ => ReducerError_Protocol)
      (build_session_control key SessionPerformative_Intent (er_ceremony e) claimant body (CausedBy_Single root)));
    admission ← admit_local_session SessionPerformative_Intent control body;
    frame ← seal_control control (Some body);
    _ ← modify (set_intent (Some (mkIntentRecord digest admission (pri_binding recognised))));
    mret frame.

Definition decide_intent (decision : WireDecision) : redM (list EndpointEffect) :=
  e ← get;
  if bool_decide (is_Some (er_terminal e)) then
    if bool_decide (er_terminal e = Some TerminalReason_Declined) && er_local_decline_committed e &&
       bool_decide (decision = Decision_Decline)
    then mret [] else throw ReducerError_Terminal
  else
    _ ← ensure_live;
    if negb (bool_decide (er_side e = Side_Claimant)) then throw ReducerError_Phase
    else
      match er_decision e with
      | Some existing =>
          if bool_decide (de_decision existing = decision) then mret []
          else fail TerminalReason_DecisionConflict ReducerError_DecisionConflict
      | None =>
          intent ← lift (ok_or (er_intent e) ReducerError_Phase);
          body ← lift (map_err (fun _ => ReducerError_Recognition)
            (encode_pairing_decision (mkPairingDecision (in_digest intent) decision)));
          allocator ← role_key PairingRole_Allocator;
          let p := match decision with
                   | Decision_Approve => SessionPerformative_Approve
                   | Decision_Decline => SessionPerformative_Decline
                   end in
          key ← lift (ok_or (er_ceremony_key e) ReducerError_Phase);
          control ← lift (map_err (fun _ => ReducerError_Protocol)
            (build_session_control key p (er_ceremony e) allocator body (CausedBy_Single (in_control_hash intent))));
          control_hash ← admit_local_session p control body;
          frame ← seal_control control (Some body);
          _ ← modify (set_decision (Some (mkDecisionRecord decision control_hash)));
          if bool_decide (decision = Decision_Decline) then
            _ ← modify (set_local_decline_committed true);
            _ ← terminate TerminalReason_Declined;
            mret [EndpointEffect_SendFrame frame; EndpointEffect_CloseMailbox]
          else mret [EndpointEffect_SendFrame frame]
      end.

Definition send_payload (payload : ApplicationPayload) : redM ChannelFrame :=
  _ ← ensure_live;
  e ← get;
  if negb (bool_decide (er_side e = Side_Allocator)) then throw ReducerError_Phase
  else
    intent ← lift (ok_or (er_intent e) ReducerError_Phase);
    decision ← lift (ok_or (er_decision e) ReducerError_Phase);
    if negb (bool_decide (de_decision decision = Decision_Approve)) then throw ReducerError_Phase
    else if negb (bool_decide (ap_intent_digest payload = in_digest intent)) then throw ReducerError_IntentDigest
    else if er_outbound_payload_sent e then throw ReducerError_Phase
    else
      _ ← lift (map_err (fun _ => ReducerError_Profile)
        (recognise_payload (er_profile e) (in_profile_binding intent) payload));
      body ← lift (map_err (fun _ => ReducerError_Recognition) (encode_application_payload payload));
      claimant ← role_key PairingRole_Claimant;
      key ← lift (ok_or (er_ceremony_key e) ReducerError_Phase);
      control ← lift (map_err (fun _ => ReducerError_Protocol)
        (build_session_control key SessionPerformative_Payload (er_ceremony e) claimant body
           (CausedBy_Single (de_control_hash decision))));
      _ ← admit_local_session SessionPerformative_Payload control body;
      frame ← seal_control control (Some body);
      _ ← modify (set_outbound_payload_sent true);
      mret frame.

Definition secrets_erased (e : EndpointReducer) : bool :=
  bool_decide (er_ceremony_key e = None) && bool_decide (¬ is_Some (er_pending_channel e)) &&
  bool_decide (¬ is_Some (er_channel e)).
Definition session_ready (e : EndpointReducer) : bool := bool_decide (is_Some (er_session e)).
Definition intent_digest (e : EndpointReducer) : option bytes := in_digest <$> er_intent e.
End Endpoint.
