(* ===== verification/EndpointInv.v ===== *)
(** * What holds of an endpoint between calls

    The story of an endpoint is the list of what its person saw and did:
    an intent shown, an approval or a decline, a grant delivered.  [good log e]
    says that the story [log] is one of the permitted ones and that the state
    [e] is exactly as far along, together with the phases of the keys, the
    channel and the session, and the erasure of everything at the end. *)

From S2P Require Import Prelude External Wire Cddl WireCodec WireLaws WireThms WireProps Channel Profile CbclExternal CbclProtocol CbclThms CbclMonitors InvitationRecord Calm Endpoint.

Inductive Event : Type :=
| Shown (intent : DisplayIntent)
| Approved
| Declined
| Granted (grant : AuthorisedGrant).

(** What effects tell. *)
Definition story (effects : list EndpointEffect) : list Event :=
  omap (fun f => match f with
                 | EndpointEffect_DisplayIntent d => Some (Shown d)
                 | EndpointEffect_DeliverGrant g => Some (Granted g)
                 | _ => None
                 end) effects.

Section Invariant.
Context `{Cbor, Cddl, UrlParser, Sha256, Sha512, HkdfSha512, HmacSha512, Aead, Cbcl, Ed25519}
  {P : Type} `{ApplicationProfile P}.
Implicit Types e : EndpointReducer (P := P).

(** ** Stories *)

Definition offered (i : PairingIntent) (pi : ProfileIntent) : Prop :=
  exists p p' : P, recognise_intent i p = (p', Ok pi).

(** A payload for the digest of the intent, recognised by the profile against
    the intent's binding and then authorised. *)
Definition authorised (i : PairingIntent) (pi : ProfileIntent) (g : AuthorisedGrant) : Prop :=
  exists b payload r (p p' : P), encode_pairing_intent i = Ok b /\ ap_intent_digest payload = sha256 b /\
    recognise_payload p (pri_binding pi) payload = Ok r /\ authorize_payload r p = (p', Ok g).

Inductive told : list Event -> Prop :=
| told_nothing : told []
| told_shown i pi : offered i pi -> told [Shown (pri_display pi)]
| told_declined i pi : offered i pi -> told [Shown (pri_display pi); Declined]
| told_approved i pi : offered i pi -> told [Shown (pri_display pi); Approved]
| told_granted i pi g : offered i pi -> authorised i pi g -> told [Shown (pri_display pi); Approved; Granted g].

Definition grants (log : list Event) : Z := sum_with (fun v => match v with Granted _ => 1 | _ => 0 end) log.

(** The accepted intent is the one that was shown. *)
Definition linked_intent e (d : DisplayIntent) : Prop :=
  exists i pi b rec, offered i pi /\ d = pri_display pi /\ encode_pairing_intent i = Ok b /\ er_intent e = Some rec /\
    in_digest rec = sha256 b /\ in_profile_binding rec = pri_binding pi.

(** How far a live claimant is. *)
Definition tale (log : list Event) e : Prop :=
  match log with
  | [] => er_intent e = None /\ er_decision e = None /\ er_payload_control_hash e = None /\ er_delivered_payloads e = 0
  | [Shown d] => linked_intent e d /\ er_decision e = None /\ er_payload_control_hash e = None /\ er_delivered_payloads e = 0
  | [Shown d; Approved] =>
      linked_intent e d /\ de_decision <$> er_decision e = Some Decision_Approve /\ er_payload_control_hash e = None /\
      er_delivered_payloads e = 0
  | [Shown d; Approved; Granted _] =>
      linked_intent e d /\ de_decision <$> er_decision e = Some Decision_Approve /\
      is_Some (er_payload_control_hash e) /\ er_delivered_payloads e = 1
  | _ => False
  end.

(** ** Controls that wait *)

Definition same_session (m m' : SessionMonitor) : Prop :=
  sm_dialects m' = sm_dialects m /\ sm_thread m' = sm_thread m.

(** The checks of a control that do not look at the history. *)
Definition admissible (m : SessionMonitor) (name : string) (control body : bytes) : Prop :=
  exists v simple, recognise_signed_control control false = Ok v /\
    validate_bound_control (vc_message v) name (sm_thread m) body = Ok tt /\
    evaluate (vc_message v) (pd_registry (sm_dialects m)) = true /\ innermost_simple (vc_message v) = Some simple.

Definition encodable (d : DecodedApplication) : Prop :=
  match d with Decoded_Intent v => exists b, encode_pairing_intent v = Ok b | _ => True end.

Definition waiting (m : SessionMonitor) (p : PendingApplication) : Prop :=
  exists body, sp_body (pa_plaintext p) = Some body /\
    admissible m (session_name (performative (pa_decoded p))) (sp_control (pa_plaintext p)) body /\
    encodable (pa_decoded p).

Lemma waiting_same m m' p : same_session m m' -> waiting m p -> waiting m' p.
Proof. intros [Hd Ht] (body & Hb & (v & s & ?) & He). exists body. split; [done|]. split; [|done]. exists v, s. by rewrite Hd, Ht. Qed.

Lemma session_same m p control body : same_session m (session_admit p control body m).1.
Proof.
  unfold session_admit, mbind, stM_bind, get, lift, throw, modify, mret, stM_ret.
  repeat (case_match; simplify_eq/=; try done).
  all: match goal with |- context [session_append ?h ?msg ?m] =>
    destruct (session_append_same h msg m) as (? & ? & _) end; by split.
Qed.

(** Only the history decides between the verdicts: a control is admitted when
    the other checks hold, and they hold when it was admitted. *)
Lemma admits_admissible m m' p control body a :
  session_admit p control body m = (m', Ok a) -> admissible m (session_name p) control body.
Proof.
  unfold session_admit, mbind, stM_bind, get, lift, throw, modify, mret, stM_ret.
  destruct (recognise_signed_control control false) as [v|e|] eqn:Hv; [|done..].
  destruct (validate_bound_control _ _ _ _) as [[]|e|] eqn:Hb; [|done..].
  destruct (evaluate _ _) eqn:He; [|done]. destruct (innermost_simple (vc_message v)) as [s|] eqn:Hs; [|done].
  intros _. exists v, s. done.
Qed.

Lemma admissible_admits m p control body : session_ok m -> admissible m (session_name p) control body ->
  exists m' a, session_admit p control body m = (m', Ok a).
Proof.
  intros [d Hd] (v & s & Hv & Hb & He & Hs).
  unfold session_admit, mbind, stM_bind, get, lift, throw, modify, mret, stM_ret. rewrite Hv, Hb, He, Hs. simpl.
  destruct (session_reference_is_anchored _ _ _); [|by eauto]. destruct (projection_has_step _ _); [|by eauto]. simpl.
  unfold session_dialect. rewrite Hd. simpl. destruct (bool_decide _); eauto.
Qed.

(** ** The invariant *)

Definition erased e : Prop :=
  er_ceremony_key e = None /\ er_bootstrap e = None /\ er_pending_channel e = None /\ er_channel e = None /\
  er_session e = None /\ er_local_finished e = None /\ er_pending_finished e = None /\
  er_pending_applications e = [] /\ er_intent e = None /\ er_decision e = None /\
  er_payload_control_hash e = None /\ er_outbound_payload_sent e = false /\
  ir_status (er_record e) = InvitationStatus_Spent /\ ir_binding (er_record e) = None.

(** Before the confirmation there is a pending channel, after it a channel, and
    the invitation is spent. *)
Definition phased e : Prop :=
  is_Some (er_pending_channel e) /\ er_channel e = None /\ er_session e = None \/
  er_pending_channel e = None /\ is_Some (er_channel e) /\ ir_status (er_record e) = InvitationStatus_Spent.

Definition crypto e : Prop :=
  is_Some (er_ceremony_key e) /\ (exists m, er_bootstrap e = Some m /\ monitor_ok m) /\ phased e /\
  (forall m, er_session e = Some m -> session_ok m).

Definition queue_ok e : Prop :=
  (length (er_pending_applications e) <= MAX_PENDING_CONTROLS)%nat /\
  match er_session e with
  | Some m => Forall (waiting m) (er_pending_applications e)
  | None => er_pending_applications e = []
  end.

Record good (log : list Event) e : Prop := {
  gd_keys : length (er_expected_role_keys e) = 2%nat;
  gd_told : told log;
  gd_count : grants log <= er_delivered_payloads e <= 1;
  gd_allocator : er_side e = Side_Allocator -> log = [] /\ er_delivered_payloads e = 0;
  gd_finished : forall f, er_pending_finished e = Some f -> exists s c v, f = ChannelFrame_Finished s c v;
  gd_end : er_terminal e <> None -> erased e;
  gd_crypto : er_terminal e = None -> crypto e;
  gd_queue : er_terminal e = None -> queue_ok e;
  gd_tale : er_terminal e = None -> er_side e = Side_Claimant -> tale log e
}.

Lemma erased_terminated reason e : erased (terminated reason e).
Proof. done. Qed.

(** Ending keeps the story, and any permitted beginning of it. *)
Lemma good_terminated reason log log' e :
  length (er_expected_role_keys e) = 2%nat -> told log -> grants log <= er_delivered_payloads e <= 1 ->
  (er_side e = Side_Allocator -> log = [] /\ er_delivered_payloads e = 0) -> log' = log ->
  good log' (terminated reason e).
Proof. by intros Hk Ht Hc Ha ->. Qed.

Lemma good_end reason log e : good log e -> good log (terminated reason e).
Proof. intros []. by eapply good_terminated. Qed.

Lemma wp_fail {A} reason error e (Q : A -> EndpointReducer -> Prop) (R : ReducerError -> EndpointReducer -> Prop) :
  R error (terminated reason e) -> wp False (fail reason error) Q R e.
Proof. done. Qed.

Lemma wp_in_slot {S X A} slot set (m : stM S X A) (s : S) (Q : outcome X A -> EndpointReducer -> Prop)
    (R : ReducerError -> EndpointReducer -> Prop) e :
  slot e = Some s -> calm (m s).2 -> (forall s' r, m s = (s', r) -> Q r (set (Some s') e)) ->
  wp False (in_slot slot set m) Q R e.
Proof.
  intros Hs Hc HQ. unfold in_slot, wp, mbind, stM_bind, get, lift, modify, mret, stM_ret. rewrite Hs. simpl.
  destruct (m s) as [s' r] eqn:Hm. specialize (HQ s' r eq_refl). by destruct r.
Qed.
End Invariant.
