(* ===== verification/EndpointSteps.v ===== *)
(** * One step of the endpoint, and the invariant

    The specification of every internal method of the reducer: from a good
    live state it never panics, and it ends in a good state of the story its
    effects tell.  Then the loop over the controls that wait, which ends within
    its fuel. *)

From S2P Require Import Prelude External Wire Cddl WireCodec WireLaws WireThms WireProps Channel Profile CbclExternal CbclProtocol CbclThms CbclMonitors InvitationRecord Calm Endpoint EndpointInv.

Section Steps.
Context `{Cbor, !CborLaws, Cddl, !CddlLaws, UrlParser, Sha256, Sha512, HkdfSha512, HmacSha512, Aead, Cbcl, !CbclLaws,
  Ed25519, !Ed25519Laws} {P : Type} `{ApplicationProfile P, !ProfileCalm P}.
Implicit Types e : EndpointReducer (P := P).

(** One step of a program proof; [R] and [Q] are closed by the caller. *)
Ltac wp_step :=
  lazymatch goal with
  | |- wp _ (_ ≫= _) _ _ _ => apply wp_bind
  | |- wp _ get _ _ _ => apply wp_get
  | |- wp _ (modify _) _ _ _ => apply wp_modify
  | |- wp _ (mret _) _ _ _ => apply wp_ret
  | |- wp _ (throw _) _ _ _ => apply wp_throw
  | |- wp _ (fail _ _) _ _ _ => apply wp_fail
  | |- wp _ (terminate _) _ _ _ => unfold terminate; apply wp_modify
  | |- wp _ (lift (ok_or ?o _)) _ _ _ => apply wp_lift; destruct o eqn:?; simpl
  | |- wp _ (lift (map_err _ ?m)) _ _ _ =>
      apply wp_lift; let Hc := fresh "Hcalm" in assert (calm m) as Hc by eauto with pairing;
      destruct m eqn:?; simpl; [| |exfalso; by apply Hc]
  | |- wp _ (if bool_decide ?Q then _ else _) _ _ _ => destruct (decide Q);
      [rewrite (bool_decide_eq_true_2 Q) by assumption|rewrite (bool_decide_eq_false_2 Q) by assumption]; simpl
  | |- wp _ (if negb (bool_decide ?Q) then _ else _) _ _ _ => destruct (decide Q);
      [rewrite (bool_decide_eq_true_2 Q) by assumption|rewrite (bool_decide_eq_false_2 Q) by assumption]; simpl
  | |- wp _ (if ?b then _ else _) _ _ _ => destruct b eqn:?; simpl
  end.

Hint Resolve recognise_intent_calm recognise_payload_calm authorize_payload_calm : pairing.

(** ** Slots and fields that the story does not read *)

Ltac keep_good := let Hg := fresh in intros Hg; destruct Hg; split; assumption.

Lemma good_profile log e p : good log e -> good log (set_profile p e).
Proof. keep_good. Qed.
Lemma good_verifications log e n : good log e -> good log (set_profile_verifications n e).
Proof. keep_good. Qed.

Lemma good_bootstrap log e m : good log e -> er_terminal e = None -> monitor_ok m -> good log (set_bootstrap (Some m) e).
Proof.
  intros Hg Hlive Hm. destruct Hg as [? ? ? ? ? Hend Hc ? ?]. split; try done.
  intros _. destruct (Hc Hlive) as (Hk & _ & Hp & Hs). split; [done|]. split; [by exists m|done].
Qed.

Lemma good_finished log e f g : good log e -> er_terminal e = None ->
  (forall x, g = Some x -> exists s c v, x = ChannelFrame_Finished s c v) ->
  good log (set_local_finished f e) /\ good log (set_pending_finished g e).
Proof.
  intros Hg Hlive Hx. destruct Hg as [? ? ? ? ? Hend Hc ? ?].
  by split; split.
Qed.

Lemma bootstrap_admit_keeps m p control body : monitor_ok m ->
  monitor_ok (bootstrap_admit p control body m).1 /\ calm (bootstrap_admit p control body m).2.
Proof.
  intros Hok. pose proof (admit_cases m p control body Hok) as Hc.
  destruct (bootstrap_admit p control body m) as [m' [a|x|]]; [|by subst|done].
  destruct Hc as (message & _ & Hs & Hcp & ->). split; [|done]. by apply admitted_keys.
Qed.

Lemma wp_bootstrap log e p control body Q R :
  good log e -> er_terminal e = None ->
  (forall m r, good log (set_bootstrap (Some m) e) -> Q r (set_bootstrap (Some m) e)) ->
  wp False (in_slot er_bootstrap set_bootstrap (bootstrap_admit p control body)) Q R e.
Proof.
  intros Hg Hlive HQ. destruct (gd_crypto _ _ Hg Hlive) as (_ & (m & Hm & Hok) & _).
  destruct (bootstrap_admit_keeps m p control body Hok) as [Hk Hc].
  eapply wp_in_slot; [done|done|]. intros m' r Heq. rewrite Heq in Hk. by apply HQ, good_bootstrap.
Qed.

(** ** Keys *)

Lemma mismatch_calm e n r : length (er_expected_role_keys e) = 2%nat -> (n < 2)%nat -> calm (role_key_mismatch e (n, r)).
Proof.
  intros Hl Hn. unfold role_key_mismatch. simpl.
  destruct (lookup_lt_is_Some_2 (er_expected_role_keys e) n) as [k ->]; [lia|]. simpl.
  destruct k; [|done]. destruct (er_bootstrap e ≫= _) as [a|]; [|done].
  unfold public_key_bytes. destruct (strip_prefix _ _); [|done]. simpl. by destruct (decode_lower_hex _ _).
Qed.

Lemma wp_validate e (Q : unit -> EndpointReducer -> Prop) (R : ReducerError -> EndpointReducer -> Prop) :
  length (er_expected_role_keys e) = 2%nat -> Q tt e ->
  R ReducerError_Protocol (terminated TerminalReason_ProtocolViolation e) -> (forall x, R x e) ->
  wp False validate_expected_role_keys Q R e.
Proof.
  intros Hl HQ HR HRe. unfold validate_expected_role_keys. wp_step. wp_step. wp_step. apply wp_lift.
  pose proof (mismatch_calm e 0 PairingRole_Allocator Hl ltac:(lia)) as H0'.
  destruct (role_key_mismatch e (0%nat, _)) as [[]| |]; [..|done|by destruct H0'].
  - do 2 wp_step. by wp_step.
  - wp_step. apply wp_lift. pose proof (mismatch_calm e 1 PairingRole_Claimant Hl ltac:(lia)) as H1'.
    destruct (role_key_mismatch e (1%nat, _)) as [[]| |]; [by wp_step|by wp_step|done|by destruct H1'].
Qed.

Lemma wp_role_key r e (Q : CeremonyKeyId -> EndpointReducer -> Prop) (R : ReducerError -> EndpointReducer -> Prop) :
  (forall k, Q k e) -> R ReducerError_Phase e -> wp False (role_key r) Q R e.
Proof. intros HQ HR. unfold role_key. wp_step. wp_step. by wp_step. Qed.

(** ** Applications *)

Definition kept e e' : Prop :=
  er_terminal e' = None -> er_session e' = er_session e /\ er_pending_applications e' = er_pending_applications e.

(** What applying one message leaves behind. *)
Definition applied log e (effects : list EndpointEffect) e' : Prop :=
  good (log ++ story effects) e' /\ er_side e' = er_side e /\ kept e e' /\
  (er_side e = Side_Claimant -> er_terminal e' = None /\ is_Some (er_intent e')).
Definition refused log e (ends : Prop) e' : Prop :=
  good log e' /\ er_side e' = er_side e /\
  (er_side e = Side_Claimant -> is_Some (er_intent e) -> ends -> er_terminal e' <> None).

Lemma refused_fail log e ends reason : good log e -> refused log e ends (terminated reason e).
Proof. intros Hg. split; [by apply good_end|]. by split. Qed.

Lemma wp_apply_intent log e value hash : good log e -> er_terminal e = None ->
  wp False (apply_intent value hash) (applied log e) (fun _ => refused log e (encodable (Decoded_Intent value))) e.
Proof.
  intros Hg Hlive. unfold apply_intent. wp_step. wp_step. wp_step; [wp_step; by apply refused_fail|].
  wp_step. wp_step.
  2:{ split; [done|]. split; [done|]. intros _ _ [b Hb]. congruence. }
  destruct (recognise_intent value (er_profile e)) as [p r] eqn:Hr.
  pose proof (recognise_intent_calm value (er_profile e)) as Hc. rewrite Hr in Hc. simpl in Hc.
  wp_step. wp_step. destruct r as [pi|x|]; [|wp_step; by apply (refused_fail log (set_profile p e)), good_profile|by destruct Hc].
  assert (er_side e = Side_Claimant) as Hside.
  { apply orb_false_iff in Heqb as [Hs _]. by bool_to_prop. }
  pose proof (gd_tale _ _ Hg Hlive Hside) as Ht.
  destruct (er_intent e) as [existing|] eqn:Hi.
  - wp_step; wp_step; [|by apply (refused_fail log (set_profile p e)), good_profile].
    unfold applied. rewrite app_nil_r. split_and!; [by apply good_profile|done|done|].
    intros _. split; [done|]. simpl. by rewrite Hi.
  - wp_step. wp_step. wp_step.
    assert (log = []) as ->.
    { destruct log as [|[d| | |g] [|[| | |] [|[| | |] [|]]]]; try done; simpl in Ht;
        destruct Ht as [(? & ? & ? & ? & ? & ? & ? & ? & _) _]; congruence. }
    destruct Hg as [Hk Hto Hco Hal Hpf Hend Hcr Hq _]. destruct Ht as (_ & Hd & Hh & Hn).
    split_and!; [|done|done|by intros _; split; [|by eexists]]. split; simpl; try done.
    + apply (told_shown value pi). by exists (er_profile e), p.
    + rewrite Hside. done.
    + intros _ _. split_and!; [|done..].
      do 4 eexists. split_and!; [by exists (er_profile e), p|done|done|done|done|done].
Qed.

Lemma wp_apply_decision log e value hash : good log e -> er_terminal e = None ->
  wp False (apply_decision value hash) (applied log e) (fun _ => refused log e (encodable (Decoded_Decision value))) e.
Proof.
  intros Hg Hlive. unfold apply_decision. wp_step. wp_step. wp_step; [|wp_step; by apply refused_fail].
  destruct (gd_allocator _ _ Hg) as [-> Hzero]; [done|].
  wp_step. wp_step; [|split; [done|]; split; [done|]; congruence].
  wp_step; [|wp_step; by apply refused_fail].
  assert (forall e', er_side e' = er_side e -> good [] e' -> kept e e' -> applied [] e [] e') as Happ.
  { intros e' Hs Hge Hk. split; [done|]. split; [done|]. split; [done|]. congruence. }
  destruct (er_decision e) as [existing|]; [wp_step; wp_step; [by apply Happ|by apply refused_fail]|].
  wp_step. wp_step. wp_step.
  - wp_step. wp_step. wp_step. assert (good [] (terminated TerminalReason_Declined e)) by (by apply good_end).
    split; [done|]. split; [done|]. split; [done|]. simpl. congruence.
  - wp_step. apply Happ; [done| |done]. destruct Hg. split; try assumption; [by intros Hn; destruct Hn|by intros _ Hs; simpl in Hs; congruence].
Qed.

Lemma wp_apply_payload log e value hash : good log e -> er_terminal e = None ->
  wp False (apply_payload value hash) (applied log e) (fun _ => refused log e (encodable (Decoded_Payload value))) e.
Proof.
  intros Hg Hlive. unfold apply_payload. wp_step. wp_step. wp_step; [|wp_step; by apply refused_fail].
  wp_step. wp_step; [|split; [done|]; split; [done|]; intros _ [? ?]; congruence]. match goal with Hi : er_intent e = Some ?r |- _ => rename r into rec end.
  wp_step; [wp_step; by apply refused_fail|]. apply orb_false_iff in Heqb as [Hdigest Hdec]. bool_to_prop.
  pose proof (gd_tale _ _ Hg Hlive ltac:(done)) as Ht.
  destruct (er_payload_control_hash e) as [existing|] eqn:Hh.
  { wp_step; wp_step; [|by apply refused_fail]. unfold applied. rewrite app_nil_r.
    split_and!; [done..|]. intros _. split; [done|]. by exists rec. }
  assert (exists d, log = [Shown d; Approved] /\ linked_intent e d /\ er_delivered_payloads e = 0) as (d & -> & Hl & Hn).
  { destruct log as [|[d| | |g] [|[| | |] [|[| | |] [|]]]]; try done; simpl in Ht.
    - by destruct Ht as (? & ? & _); congruence.
    - by destruct Ht as (_ & Hd & _); rewrite Hd in *.
    - destruct Ht as (? & _ & _ & ?). eauto.
    - destruct Ht as (_ & _ & [? ?] & _); congruence. }
  pose proof (recognise_payload_calm (er_profile e) (in_profile_binding rec) value) as Hc.
  destruct (recognise_payload _ _ value) as [r|x|] eqn:Hrec; [|wp_step; by apply refused_fail|by destruct Hc].
  wp_step. wp_step. destruct (authorize_payload r (er_profile e)) as [p r'] eqn:Hau.
  pose proof (authorize_payload_calm r (er_profile e)) as Hca. rewrite Hau in Hca. simpl in Hca.
  wp_step. wp_step. destruct r' as [g|x|]; [| |by destruct Hca].
  2:{ wp_step. by apply (refused_fail _ (set_profile p (set_profile_verifications (er_profile_verifications e + 1) e))),
        good_profile, good_verifications. }
  repeat wp_step. destruct Hl as (i & pi & b & rec' & Hof & -> & Henc & Hrec' & Hdig & Hbind).
  assert (rec' = rec) as -> by congruence.
  destruct Hg as [Hk _ _ Hal Hpf Hend Hcr Hq _]. split_and!; [|done|done|by intros _; split; [|by exists rec]].
  split; simpl; try done.
  - apply (told_granted i pi g); [done|]. exists b, value, r, (er_profile e), p. rewrite <- Hbind.
    split_and!; [done|congruence|done|done].
  - unfold grants. simpl. lia.
  - by intros Hs; destruct (Hal Hs).
  - intros _ _. split_and!; [|done|done|lia]. do 4 eexists. by split_and!.
Qed.

Lemma wp_apply log e decoded hash : good log e -> er_terminal e = None ->
  wp False (apply_application decoded hash) (applied log e) (fun _ => refused log e (encodable decoded)) e.
Proof. destruct decoded; [apply wp_apply_intent|apply wp_apply_decision|apply wp_apply_payload]. Qed.
End Steps.

(** ** The controls that wait

    The retry loop: every pass that applies a control leaves fewer, so the loop
    ends within its fuel; each effect keeps the invariant. *)

Section Retry.
Context `{Cbor, !CborLaws, Cddl, !CddlLaws, UrlParser, Sha256, Sha512, HkdfSha512, HmacSha512, Aead, Cbcl, !CbclLaws,
  Ed25519, !Ed25519Laws} {P : Type} `{ApplicationProfile P, !ProfileCalm P}.
Implicit Types e : EndpointReducer (P := P).

(** The part of the invariant that no slot touches. *)
Definition based (log : list Event) e : Prop :=
  length (er_expected_role_keys e) = 2%nat /\ told (P := P) log /\ grants log <= er_delivered_payloads e <= 1 /\
  (er_side e = Side_Allocator -> log = [] /\ er_delivered_payloads e = 0).

Lemma good_based log e : good log e -> based log e.
Proof. by intros []. Qed.

Lemma based_terminated reason log e : based log e -> good log (terminated reason e).
Proof. intros (? & ? & ? & ?). by eapply good_terminated. Qed.

Lemma based_ended log e : based log e -> er_terminal e <> None -> erased e -> good log e.
Proof. 
  intros (? & ? & ? & ?) Ht He. split; try done. intros f Hf. by destruct He as (_ & _ & _ & _ & _ & _ & He & _); rewrite He in Hf.
Qed.

Lemma grants_app l k : grants (l ++ k) = grants l + grants k.
Proof. apply sum_with_app. Qed.
Lemma grants_nonneg l : 0 <= grants l.
Proof. apply sum_with_nonneg. intros [] _; lia. Qed.

(** Back to the story before the effects that were lost. *)
Lemma based_before log0 log e : told (P := P) log0 -> log0 `prefix_of` log -> based log e -> based log0 e.
Proof.
  intros Ht [more ->] (Hk & _ & Hc & Ha). split; [done|]. split; [done|]. split.
  - rewrite grants_app in Hc. pose proof (grants_nonneg more). lia.
  - intros Hs. destruct (Ha Hs) as [Hnil ?]. by apply app_eq_nil in Hnil as [-> _].
Qed.

Lemma erased_queue e : erased e -> erased (set_pending_applications [] e).
Proof. unfold erased. simpl. intuition. Qed.

Lemma good_session log e m m' : good log e -> er_terminal e = None -> er_session e = Some m -> same_session m m' ->
  good log (set_session (Some m') e).
Proof.
  intros Hg Hlive Hm Hsame. destruct Hg as [? ? ? ? ? Hend Hc Hq ?].
  destruct (Hc Hlive) as (Hk & Hb & Hp & Hs), (Hq Hlive) as [Hlen Hw]. rewrite Hm in Hw.
  split; try assumption; [by intros Hn; destruct Hn| |].
  - intros _. split; [done|]. split; [done|]. split.
    + destruct Hp as [(_ & _ & Hn)|Hp]; [congruence|by right].
    + intros s [= <-]. destruct Hsame as [Hd _]. unfold session_ok. rewrite Hd. by apply Hs.
  - intros _. split; [done|]. simpl. eapply Forall_impl; [done|]. intros p. by apply waiting_same.
Qed.

Lemma good_queue log e l : good log e -> er_terminal e = None -> (length l <= MAX_PENDING_CONTROLS)%nat ->
  (match er_session e with Some m => Forall (waiting m) l | None => l = [] end) ->
  good log (set_pending_applications l e).
Proof.
  intros Hg Hlive Hlen Hw. destruct Hg as [? ? ? ? ? Hend Hc Hq ?]. split; try assumption; [by intros Hn; destruct Hn|].
  intros _. split; [done|]. exact Hw.
Qed.

(** Admitting a control through the session slot. *)
Lemma wp_session log e m p control body (Q : outcome ProtocolError Admission -> EndpointReducer -> Prop)
    (R : ReducerError -> EndpointReducer -> Prop) :
  good log e -> er_terminal e = None -> er_session e = Some m ->
  (forall m' r, session_admit p control body m = (m', r) -> same_session m m' ->
     good log (set_session (Some m') e) -> Q r (set_session (Some m') e)) ->
  wp False (in_slot er_session set_session (session_admit p control body)) Q R e.
Proof.
  intros Hg Hlive Hm HQ. destruct (gd_crypto _ _ Hg Hlive) as (_ & _ & _ & Hs).
  pose proof (session_admit_cases m p control body (Hs m Hm)) as Hc. pose proof (session_same m p control body) as Hsame.
  eapply wp_in_slot; [done| |].
  - by destruct (session_admit p control body m) as [m' []].
  - intros m' r Heq. rewrite Heq in Hsame. apply HQ; [done|done|]. by eapply good_session.
Qed.

(** ** One pass *)

(** What the loop keeps: while the endpoint lives, its queue is in the loop's
    hands and the session would admit all of it; a claimant lives on with its
    intent. *)
Definition looping (log : list Event) (l : list PendingApplication) e : Prop :=
  good log e /\
  (er_terminal e = None -> er_pending_applications e = [] /\ exists m, er_session e = Some m /\ Forall (waiting m) l) /\
  (er_side e = Side_Claimant -> er_terminal e = None /\ is_Some (er_intent e)).

Lemma looping_perm log l l' e : (forall p, p ∈ l' -> p ∈ l) -> looping log l e -> looping log l' e.
Proof.
  intros Hsub (Hg & Hq & Hc). split; [done|]. split; [|done]. intros Hlive. destruct (Hq Hlive) as (Hp & m & Hm & Hw).
  split; [done|]. exists m. split; [done|]. rewrite Forall_forall in *. auto.
Qed.

Lemma wp_retry_pass log0 log side remaining : told (P := P) log0 -> log0 `prefix_of` log -> forall next emitted progress e,
  er_side e = side -> looping (log ++ story emitted) (next ++ remaining) e ->
  (er_terminal e <> None -> progress = true \/ next = []) ->
  wp False (retry_pass remaining next emitted progress)
    (fun r e' => let '(next', emitted', progress') := r in
       er_side e' = side /\ looping (log ++ story emitted') next' e' /\
       (length next' <= length (next ++ remaining))%nat /\
       (progress' = true -> progress = true \/ (length next' < length (next ++ remaining))%nat) /\
       (er_terminal e' <> None -> progress' = true \/ next' = []))
    (fun _ e' => er_side e' = side /\ good log0 e') e.
Proof.
  intros Htold Hpre. assert (forall l, log0 `prefix_of` log ++ l) as Hpre' by (intros l; by apply prefix_app_r).
  induction remaining as [|p remaining IH]; intros next emitted progress e Hside Hloop Hdone.
  { rewrite app_nil_r in *. apply wp_ret. split_and!; auto. }
  assert (based log0 e) as Hbase by (eapply based_before; [done|by apply Hpre'|]; apply good_based, Hloop).
  destruct (decide (er_terminal e = None)) as [Hlive|Hdead].
  2:{ (* an allocator that was declined: the session is gone *)
      assert (good log0 e) as Hg0.
      { apply based_ended; [done|done|]. by apply (gd_end _ _ (proj1 Hloop)). }
      pose proof (gd_end _ _ Hg0 Hdead) as (_ & _ & _ & _ & Hnone & _).
      simpl. apply wp_bind, wp_lift. destruct (sp_body _); [|done]. simpl. apply wp_bind. unfold in_slot.
      apply wp_bind, wp_get, wp_bind, wp_lift. by rewrite Hnone. }
  destruct Hloop as (Hg & Hq & Hclaim). destruct (Hq Hlive) as (Hnil & m & Hm & Hw).
  apply Forall_app in Hw as [Hwn Hwr]. inversion Hwr as [|? ? Hwp Hwr']; subst.
  destruct Hwp as (body & Hbody & Hadm & Henc).
  destruct (gd_crypto _ _ Hg Hlive) as (_ & _ & _ & Hsok).
  destruct (admissible_admits m _ _ _ (Hsok m Hm) Hadm) as (m1 & a & Hadmit).
  simpl. apply wp_bind, wp_lift. rewrite Hbody. simpl. apply wp_bind.
  eapply (wp_session (log ++ story emitted)); [done|done|done|].
  intros m' r Heq Hsame Hg'. rewrite Hadmit in Heq. injection Heq as <- <-.
  set (e1 := set_session (Some m1) e) in *. apply wp_bind, wp_lift. simpl.
  assert (Forall (waiting m1) (next ++ remaining)) as Hw1.
  { apply Forall_app. split; (eapply Forall_impl; [done|intros q; by apply waiting_same]). }
  destruct (ad_verdict a) eqn:Hverdict.
  - apply wp_bind. eapply wp_mono; [apply (wp_apply (log ++ story emitted) e1); [done|done]| |].
    + intros effects e2 (Hg2 & Hs2 & Hk2 & Hc2). eapply wp_mono; [apply (IH next (emitted ++ effects) true)| |].
      * by rewrite Hs2.
      * unfold story in *. rewrite omap_app, app_assoc. split; [done|]. split; [|by intros Hs; apply Hc2; rewrite <- Hs2].
        intros Hlive2. destruct (Hk2 Hlive2) as [Hk2a Hk2b]. split; [by rewrite Hk2b|]. exists m1. by rewrite Hk2a.
      * by left.
      * intros [[next' emitted'] progress'] e' (Hs & Hl & Hlen & Hpr & Hd). split_and!; [done|done| | |done].
        -- rewrite length_app in *. simpl. lia.
        -- intros _. right. rewrite length_app in *. simpl. lia.
      * done.
    + intros x e2 (Hg2 & Hs2 & Hend). split; [done|].
      assert (based log0 e2) by (eapply based_before; [done|by apply Hpre'|]; by apply good_based).
      destruct (decide (er_terminal e2 = None)) as [Hlive2|Hdead2].
      * destruct (er_side e2) eqn:Hs2'.
        -- destruct (gd_allocator _ _ Hg2 Hs2') as [Hnil2 _]. rewrite Hnil2 in Hg2.
           apply app_eq_nil in Hnil2 as [Hnil2 _]. rewrite Hnil2 in Hpre. by apply prefix_nil_inv in Hpre as ->.
        -- assert (er_side e = Side_Claimant) as Hcl by (change (er_side e1 = Side_Claimant); congruence).
           exfalso. apply Hend; [done|by apply Hclaim|done|done].
      * apply based_ended; [done|done|]. by apply (gd_end _ _ Hg2).
  - eapply wp_mono; [apply (IH (next ++ [p]) emitted progress e1)| |]; [done| | | |done].
    + split; [done|]. split; [|done]. intros _. split; [done|]. exists m1. split; [done|].
      rewrite <- app_assoc. simpl. apply Forall_app in Hw1 as [Hw1n Hw1r].
      apply Forall_app. split; [done|]. constructor; [|done]. by eapply waiting_same; [|exists body].
    + intros Hn. by destruct Hn.
    + intros [[next' emitted'] progress'] e' (Hs & Hl & Hlen & Hpr & Hd). rewrite <- app_assoc in *. by split_and!.
  - apply wp_bind, wp_modify. apply wp_fail. split; [done|]. by apply based_terminated.
Qed.

(** ** The loop *)

Lemma wp_retry_loop log0 log side : told (P := P) log0 -> log0 `prefix_of` log -> forall fuel remaining emitted e,
  (length remaining < fuel)%nat -> er_side e = side -> looping (log ++ story emitted) remaining e ->
  wp False (retry_loop fuel remaining emitted)
    (fun r e' => er_side e' = side /\ looping (log ++ story r.2) r.1 e' /\ (length r.1 <= length remaining)%nat /\
       (er_terminal e' <> None -> r.1 = []))
    (fun _ e' => er_side e' = side /\ good log0 e') e.
Proof.
  intros Htold Hpre. induction fuel as [|fuel IH]; intros remaining emitted e Hfuel Hside Hloop; [lia|]. simpl.
  apply wp_bind. eapply wp_mono; [by apply (wp_retry_pass log0 log side remaining Htold Hpre []); auto| |done].
  intros [[next emitted'] progress] e' (Hs & Hl & Hlen & Hpr & Hd). simpl in *. destruct progress.
  - destruct Hpr as [?|Hlt]; [done|done|]. eapply wp_mono; [apply IH; [lia|done|done]| |done].
    intros [l em] e2 (Hs2 & Hl2 & Hlen2 & Hd2). simpl in *. split_and!; [done|done|lia|done].
  - apply wp_ret. split_and!; [done|done|done|]. intros Hn. by destruct (Hd Hn).
Qed.

Lemma wp_retry_pending log0 log e : told (P := P) log0 -> log0 `prefix_of` log -> good log e -> (er_terminal e = None -> is_Some (er_session e)) ->
  (er_side e = Side_Claimant -> er_terminal e = None /\ is_Some (er_intent e)) ->
  wp False retry_pending (fun effects e' => er_side e' = er_side e /\ good (log ++ story effects) e')
    (fun _ e' => er_side e' = er_side e /\ good log0 e') e.
Proof.
  intros Htold Hpre Hg Hsession Hclaim. unfold retry_pending. apply wp_bind, wp_get, wp_bind, wp_modify, wp_bind.
  set (l := er_pending_applications e). assert (length l <= MAX_PENDING_CONTROLS)%nat as Hlen.
  { destruct (decide (er_terminal e = None)) as [Hlive|Hdead]; [apply (gd_queue _ _ Hg Hlive)|].
    destruct (gd_end _ _ Hg Hdead) as (_ & _ & _ & _ & _ & _ & _ & Hl & _). unfold l. rewrite Hl. simpl. lia. }
  eapply wp_mono; [apply (wp_retry_loop log0 log (er_side e) Htold Hpre); [lia|done|]| |done].
  - rewrite app_nil_r. split; [|split; [|done]].
    + destruct (decide (er_terminal e = None)) as [Hlive|Hdead].
      * apply good_queue; [done|done|simpl; lia|]. destruct (Hsession Hlive) as [m ->]. constructor.
      * apply based_ended; [by apply (good_based _ e)|done|]. by apply erased_queue, (gd_end _ _ Hg).
    + intros Hlive. split; [done|]. destruct (Hsession Hlive) as [m Hm]. exists m. split; [done|].
      destruct (gd_queue _ _ Hg Hlive) as [_ Hw]. by rewrite Hm in Hw.
  - intros [remaining emitted] e' (Hs & (Hg' & Hq & Hc) & Hle & Hd). simpl in *. apply wp_bind, wp_modify, wp_ret.
    split; [done|]. destruct (decide (er_terminal e' = None)) as [Hlive|Hdead].
    + destruct (Hq Hlive) as (_ & m & Hm & Hw). apply good_queue; [done|done|lia|]. by rewrite Hm.
    + rewrite (Hd Hdead). apply based_ended; [by apply (good_based _ e')|done|].
      by apply erased_queue, (gd_end _ _ Hg').
Qed.

(** ** A received application *)

Lemma wp_admit_application log e plaintext decoded :
  good log e -> er_terminal e = None -> is_Some (er_session e) -> encodable decoded ->
  wp False (admit_application plaintext decoded)
    (fun effects e' => er_side e' = er_side e /\ good (log ++ story effects) e')
    (fun _ e' => er_side e' = er_side e /\ good log e') e.
Proof.
  intros Hg Hlive [m Hm] Henc. unfold admit_application. apply wp_bind, wp_lift.
  destruct (sp_body plaintext) as [body|] eqn:Hbody; [|done]. simpl. apply wp_bind.
  eapply (wp_session log); [done|done|done|]. intros m' r Hadmit Hsame Hg'.
  set (e1 := set_session (Some m') e) in *.
  assert (forall reason error, wp False (fail (A := list EndpointEffect) reason error)
    (fun effects e' => er_side e' = er_side e /\ good (log ++ story effects) e')
    (fun _ e' => er_side e' = er_side e /\ good log e') e1) as Hfail.
  { intros reason error. apply wp_fail. split; [done|]. by apply good_end. }
  destruct r as [a|x|]; [|apply Hfail|apply Hfail]. destruct (ad_verdict a); [| |apply Hfail].
  - apply wp_bind. eapply wp_mono; [by apply (wp_apply log e1)| |by intros x e2 (? & ? & _)].
    intros effects e2 (Hg2 & Hs2 & Hk2 & Hc2). apply wp_bind.
    eapply wp_mono; [apply (wp_retry_pending log (log ++ story effects) e2);
      [apply (gd_told _ _ Hg)|by eexists|done| |]| |].
    + intros Hlive2. destruct (Hk2 Hlive2) as [-> _]. by eexists.
    + by rewrite Hs2.
    + intros more e3 [Hs3 Hg3]. apply wp_ret. unfold story in *. rewrite omap_app, app_assoc. split; [by rewrite Hs3, Hs2|done].
    + intros x e3 [Hs3 Hg3]. split; [by rewrite Hs3, Hs2|done].
  - apply wp_bind, wp_get. destruct (bool_decide _); [apply wp_ret; by rewrite app_nil_r|].
    destruct (_ =? _)%nat eqn:Hfull; [apply Hfail|]. apply Nat.eqb_neq in Hfull.
    apply wp_bind, wp_modify, wp_ret. rewrite app_nil_r. split; [done|].
    destruct (gd_queue _ _ Hg' Hlive) as [Hlen Hw]. simpl in Hw.
    apply good_queue; [done|done|rewrite length_app; simpl in *; lia|]. simpl. apply Forall_app. split; [done|]. constructor; [|done]. exists body. split; [done|]. split; [|done].
    destruct Hsame as [Hd Ht]. apply admits_admissible in Hadmit as (v & s & Hv). exists v, s. by rewrite Hd, Ht.
Qed.
End Retry.
