(* ===== verification/EndpointOps.v ===== *)
(** * The public operations and their runs

    Every operation of the reducer takes a good state to a good state of the
    story it tells, whatever it returns, and never panics; so does every run
    of operations from construction. *)

From S2P Require Import Prelude External Wire Cddl WireCodec WireLaws WireThms WireProps Channel Profile CbclExternal CbclProtocol CbclThms CbclMonitors InvitationRecord Calm Endpoint EndpointInv EndpointSteps.

Section Ops.
Context `{Cbor, !CborLaws, Cddl, !CddlLaws, UrlParser, Sha256, Sha512, HkdfSha512, HmacSha512, Aead, Cbcl, !CbclLaws,
  Ed25519, !Ed25519Laws} {P : Type} `{ApplicationProfile P, !ProfileCalm P}.
Implicit Types e : EndpointReducer (P := P).

(** The two ways an operation ends. *)
Definition told_by (side : Side) (log : list Event) (more : list Event) e : Prop :=
  er_side e = side /\ good (log ++ more) e.
Definition left_good {X} (side : Side) (log : list Event) (x : X) e : Prop := er_side e = side /\ good log e.

Lemma told_nothing_more side log e : er_side e = side -> good log e -> told_by side log [] e.
Proof. intros Hs Hg. split; [done|]. by rewrite app_nil_r. Qed.

Lemma wp_fail_good {A} reason error side log e (Q : A -> EndpointReducer -> Prop) :
  er_side e = side -> based log e -> wp False (fail reason error) Q (left_good side log) e.
Proof. intros Hs Hb. apply wp_fail. split; [done|]. by apply based_terminated. Qed.

(** ** Channel and session *)

Lemma good_channel log e c : good log e -> er_terminal e = None -> is_Some (er_channel e) ->
  good log (set_channel (Some c) e).
Proof.
  intros Hg Hlive [c0 Hc0]. destruct Hg as [? ? ? ? ? Hend Hc Hq ?].
  split; try assumption; [by intros Hn; destruct Hn|]. intros _. destruct (Hc Hlive) as (Hk & Hb & Hp & Hs).
  split; [done|]. split; [done|]. split; [|done].
  destruct Hp as [(_ & Hn & _)|(Hn & _ & Hr)]; [congruence|right]. split; [done|]. split; [by eexists|done].
Qed.

Lemma wp_channel {A} log e (m : stM SecureChannel ChannelError A) (Q : outcome ChannelError A -> EndpointReducer -> Prop)
    (R : ReducerError -> EndpointReducer -> Prop) :
  good log e -> er_terminal e = None -> (forall c, calm (m c).2) -> R ReducerError_Phase e ->
  (forall c r, good log (set_channel (Some c) e) -> Q r (set_channel (Some c) e)) ->
  wp False (in_slot er_channel set_channel m) Q R e.
Proof.
  intros Hg Hlive Hcalm HR HQ. destruct (er_channel e) as [c|] eqn:Hc.
  - eapply wp_in_slot; [done|apply Hcalm|]. intros c' r _. apply HQ, good_channel; [done|done|by eexists].
  - unfold in_slot. apply wp_bind, wp_get, wp_bind, wp_lift. by rewrite Hc.
Qed.

Lemma wp_seal_control log e control body side (Q : ChannelFrame -> EndpointReducer -> Prop) :
  good log e -> er_terminal e = None -> er_side e = side ->
  (forall c f, good log (set_channel (Some c) e) -> Q f (set_channel (Some c) e)) ->
  wp False (seal_control control body) Q (left_good side log) e.
Proof.
  intros Hg Hlive Hs HQ. unfold seal_control. apply wp_bind, wp_lift.
  assert (calm (encode_sealed_plaintext (mkSealedPlaintext control body))) as Hc by (apply calm_encode_with; auto with pairing).
  destruct (encode_sealed_plaintext _) as [b|x|]; [|done|by destruct Hc]. simpl. apply wp_bind.
  apply (wp_channel log); [done|done|intros c; by apply calm_seal|done|].
  intros c r Hg'. destruct r as [f|x|]; [apply wp_ret, HQ, Hg'|..]; by apply wp_fail_good; [|apply good_based].
Qed.

Lemma wp_admit_local log e p control body side (Q : string -> EndpointReducer -> Prop) :
  good log e -> er_terminal e = None -> er_side e = side ->
  (forall m h, good log (set_session (Some m) e) -> Q h (set_session (Some m) e)) ->
  wp False (admit_local_session p control body) Q (left_good side log) e.
Proof.
  intros Hg Hlive Hs HQ. unfold admit_local_session. apply wp_bind.
  destruct (er_session e) as [m|] eqn:Hm.
  - eapply (wp_session log); [done|done|done|]. intros m' r Hadmit Hsame Hg'. apply wp_bind, wp_lift.
    destruct (gd_crypto _ _ Hg Hlive) as (_ & _ & _ & Hsok).
    pose proof (session_admit_cases m p control body (Hsok m Hm)) as Hc. rewrite Hadmit in Hc.
    destruct r as [a|x|]; [|done|done]. simpl. destruct (negb _); [by apply wp_fail_good; [|apply good_based]|].
    by apply wp_ret, HQ.
  - unfold in_slot. apply wp_bind, wp_get, wp_bind, wp_lift. by rewrite Hm.
Qed.

Lemma good_new_session log e m : good log e -> er_terminal e = None -> er_session e = None -> is_Some (er_channel e) ->
  session_ok m -> good log (set_session (Some m) e).
Proof.
  intros Hg Hlive Hn [c Hch] Hm. destruct Hg as [? ? ? ? ? Hend Hc Hq ?].
  split; try assumption; [by intros Hx; destruct Hx| |].
  - intros _. destruct (Hc Hlive) as (Hk & Hb & Hp & Hs). split; [done|]. split; [done|]. split.
    + destruct Hp as [(_ & Hx & _)|Hp]; [congruence|by right].
    + by intros s [= <-].
  - intros _. destruct (Hq Hlive) as [Hlen Hw]. rewrite Hn in Hw. split; [done|]. simpl. by rewrite Hw.
Qed.

Lemma wp_open_allocator_session log e side : good log e -> er_terminal e = None -> er_session e = None ->
  is_Some (er_channel e) -> er_side e = side ->
  wp False open_allocator_session (fun effects => told_by side log (story effects)) (left_good side log) e.
Proof.
  intros Hg Hlive Hn Hch Hs. unfold open_allocator_session.
  apply wp_bind, wp_role_key; [intros allocator|done]. apply wp_bind, wp_role_key; [intros claimant|done].
  apply wp_bind, wp_get, wp_bind, wp_lift. destruct (er_ceremony_key e) as [k|]; [|done]. simpl.
  apply wp_bind, wp_lift. pose proof (calm_opener k claimant (er_ceremony e)) as Hc.
  destruct (build_session_opener _ _ _) as [opener|x|]; [|done|by destruct Hc]. simpl. apply wp_bind, wp_lift.
  pose proof (calm_open_for (er_ceremony e) PairingRole_Allocator allocator claimant opener) as Hc'.
  destruct (open_for_ceremony _ _ _ _ _) as [[session admission]|x|] eqn:Ho; [|done|by destruct Hc']. simpl.
  apply open_ok in Ho. destruct (negb _); [by apply wp_fail_good; [|apply good_based]|].
  apply wp_bind, wp_modify, wp_bind. apply wp_seal_control; [|done|done|].
  - apply good_new_session; try done. apply (ob_dialect _ _ _ _ _ _ Ho).
  - intros c f Hg'. apply wp_ret. by apply told_nothing_more.
Qed.

(** ** Confirmation *)

Lemma good_confirmed log e c : good log e -> er_terminal e = None -> er_session e = None ->
  good log (set_record (spend (er_record e)) (set_channel (Some c) (set_pending_channel None e))).
Proof.
  intros Hg Hlive Hn. destruct Hg as [? ? ? ? ? Hend Hc Hq ?]. split; try assumption; [by intros Hx; destruct Hx|].
  intros _. destruct (Hc Hlive) as (Hk & Hb & Hp & Hs). split; [done|]. split; [done|]. split; [right|done].
  split; [done|]. split; [by eexists|done].
Qed.

Lemma wp_receive_finished log e side s control value : good log e -> er_terminal e = None -> er_side e = side ->
  wp False (receive_finished (ChannelFrame_Finished s control value))
    (fun effects => told_by side log (story effects)) (left_good side log) e.
Proof.
  intros Hg Hlive Hs. simpl. apply wp_bind, wp_get.
  assert (forall reason error e', er_side e' = side -> good log e' -> wp False (fail (A := list EndpointEffect) reason error)
    (fun effects => told_by side log (story effects)) (left_good side log) e') as Hfail.
  { intros. apply wp_fail_good; [done|]. by apply good_based. }
  destruct (bool_decide _); [by apply Hfail|]. destruct (bool_decide _); [by apply Hfail|].
  destruct (_ || _) eqn:Hph; [by apply Hfail|]. apply orb_false_iff in Hph as [Hpend Hchan]. bool_to_prop.
  assert (er_session e = None) as Hnone.
  { destruct (gd_crypto _ _ Hg Hlive) as (_ & _ & [(_ & _ & ?)|(_ & Hsome & _)] & _); [done|by destruct Hchan]. }
  apply wp_bind, wp_validate; [apply Hg| |by split; [|apply based_terminated, good_based]|done].
  apply wp_bind, (wp_bootstrap log); [done|done|]. intros m r Hg1. set (e1 := set_bootstrap (Some m) e) in *.
  destruct r as [a|x|]; [|by apply Hfail|by apply Hfail].
  destruct (ad_verdict a).
  - apply wp_bind, wp_modify, wp_bind, wp_get, wp_bind, wp_modify.
    assert (good log (set_pending_finished None e1)) as Hg2 by (by apply (good_finished log e1 None None); auto).
    change (er_pending_channel (set_pending_finished None e1)) with (er_pending_channel e).
    destruct (er_pending_channel e) as [pending|]; [|by destruct Hpend; intros []].
    pose proof (calm_confirm pending value) as Hc. destruct (confirm pending value) as [c|x|]; [| |by destruct Hc].
    + apply wp_bind, wp_modify, wp_bind, wp_modify.
      pose proof (good_confirmed log (set_pending_finished None e1) c Hg2 Hlive Hnone) as Hg3.
      destruct (bool_decide _); [|apply wp_ret; by apply told_nothing_more].
      by apply wp_open_allocator_session.
    + apply wp_fail_good; [done|]. by apply (good_based log (set_pending_finished None e1)).
  - apply wp_bind, wp_get.
    assert (good log (set_pending_finished (Some (ChannelFrame_Finished s control value)) e1)) as Hg2
      by (by apply (good_finished log e1 None); [..|intros f [= <-]; eauto]).
    destruct (er_pending_finished e1) as [f|]; [destruct (negb _); [by apply Hfail|]|];
      apply wp_bind, wp_modify, wp_ret; by apply told_nothing_more.
  - by apply Hfail.
Qed.

(** ** Sealed frames *)

Lemma calm_frame_digest f : calm (channel_frame_digest f).
Proof.
  unfold channel_frame_digest. apply calm_bind; [|done]. apply calm_map_err, calm_encode_with.
  intros es. apply calm_channel_frame_of.
Qed.

Lemma calm_decode_application body : calm (decode_application body).
Proof.
  unfold decode_application.
  assert (calm (decode_pairing_intent body)) as Hi by (apply calm_decode_with; auto with pairing).
  assert (calm (decode_pairing_decision body)) as Hd by (apply calm_decode_with; auto with pairing).
  assert (calm (decode_application_payload body)) as Hp by (apply calm_decode_with; auto with pairing).
  destruct (decode_pairing_intent body); [done| |by destruct Hi].
  destruct (decode_pairing_decision body); [done| |by destruct Hd].
  by destruct (decode_application_payload body).
Qed.

(** What was decoded can be encoded again. *)
Lemma decoded_encodable body decoded : decode_application body = Ok decoded -> encodable decoded.
Proof.
  unfold decode_application. destruct (decode_pairing_intent body) as [i|x|] eqn:Hi.
  - intros [= <-]. simpl. exists body.
    by apply (codec_inverse _ pairing_intent_rule _ _ (fun m => length (pi_intent_nonce m) = 32%nat)) in Hi as [_ Hi];
      [|rule_known|apply map_text_keys].
  - destruct (decode_pairing_decision body); [by intros [= <-]| |done].
    by destruct (decode_application_payload body); [intros [= <-]|..].
  - done.
Qed.

Lemma wp_remember side log digest (m : stM EndpointReducer ReducerError (list EndpointEffect)) e :
  wp False m (fun effects e' => er_side e' = side /\ good (log ++ story effects) e') (left_good side log) e ->
  wp False (remember_decline digest m) (fun effects => told_by side log (story effects)) (left_good side log) e.
Proof.
  unfold wp, remember_decline. destruct (m e) as [e' [effects|x|]]; [|done..]. intros [Hs Hg].
  case_bool_decide; [|done]. split; [done|]. destruct Hg. by split.
Qed.

Lemma wp_receive_opener log e side plaintext : good log e -> er_terminal e = None -> er_session e = None ->
  is_Some (er_channel e) -> er_side e = side ->
  wp False (receive_opener plaintext) (fun effects => told_by side log (story effects)) (left_good side log) e.
Proof.
  intros Hg Hlive Hn Hch Hs. unfold receive_opener. apply wp_bind, wp_get.
  destruct (_ || _); [by apply wp_fail_good; [|apply good_based]|].
  apply wp_bind, wp_role_key; [intros allocator|done]. apply wp_bind, wp_role_key; [intros claimant|done].
  pose proof (calm_open_for (er_ceremony e) PairingRole_Claimant allocator claimant (sp_control plaintext)) as Hc.
  destruct (open_for_ceremony _ _ _ _ _) as [[session admission]|x|] eqn:Ho;
    [|by apply wp_fail_good; [|apply good_based]|by destruct Hc].
  apply open_ok in Ho. destruct (negb _); [by apply wp_fail_good; [|apply good_based]|].
  apply wp_bind, wp_modify, wp_ret, told_nothing_more; [done|].
  apply good_new_session; try done. apply (ob_dialect _ _ _ _ _ _ Ho).
Qed.

Lemma wp_receive_sealed log e side frame : good log e -> er_terminal e = None -> er_side e = side ->
  wp False (receive_sealed frame) (fun effects => told_by side log (story effects)) (left_good side log) e.
Proof.
  intros Hg Hlive Hs. unfold receive_sealed. apply wp_bind, wp_lift. pose proof (calm_frame_digest frame) as Hc.
  destruct (channel_frame_digest frame) as [digest|x|]; [|done|by destruct Hc].
  apply wp_bind. destruct (er_channel e) as [c0|] eqn:Hch.
  2:{ unfold in_slot. apply wp_bind, wp_get, wp_bind, wp_lift. by rewrite Hch. }
  apply (wp_channel log); [done|done|intros c; by apply calm_open|done|]. intros c r Hg1.
  set (e1 := set_channel (Some c) e) in *.
  assert (forall reason error, wp False (fail (A := list EndpointEffect) reason error)
    (fun effects => told_by side log (story effects)) (left_good side log) e1) as Hfail.
  { intros. by apply wp_fail_good; [|apply good_based]. }
  destruct r as [b|x|]; [|apply Hfail|apply Hfail].
  assert (calm (decode_sealed_plaintext b)) as Hcp by (apply calm_decode_with; auto with pairing).
  destruct (decode_sealed_plaintext b) as [plaintext|x|]; [|apply Hfail|by destruct Hcp].
  apply wp_bind, wp_get. case_bool_decide as Hses.
  - apply wp_receive_opener; try done.
    change (er_session e = None). change (¬ is_Some (er_session e)) in Hses. by apply eq_None_not_Some.
  - destruct (sp_body plaintext) as [body|]; [|apply Hfail]. pose proof (calm_decode_application body) as Hcd.
    destruct (decode_application body) as [decoded|x|] eqn:Hd; [|apply Hfail|by destruct Hcd].
    apply wp_remember. eapply wp_mono; [apply (wp_admit_application log e1); try done| |].
    + by apply (decoded_encodable body).
    + intros effects e2 [Hs2 Hg2]. split; [|done]. rewrite Hs2. exact Hs.
    + intros x e2 [Hs2 Hg2]. split; [|done]. rewrite Hs2. exact Hs.
Qed.

(** ** Every operation *)

Lemma wp_ensure_live e (Q : unit -> EndpointReducer -> Prop) (R : ReducerError -> EndpointReducer -> Prop) :
  (er_terminal e = None -> Q tt e) -> (er_terminal e <> None -> R ReducerError_Terminal e) ->
  wp False ensure_live Q R e.
Proof.
  intros HQ HR. unfold ensure_live. apply wp_bind, wp_get. destruct (er_terminal e) as [r|] eqn:Ht.
  - by apply HR.
  - by apply HQ.
Qed.

Lemma wp_receive_frame log e side frame : good log e -> er_side e = side ->
  wp False (receive_frame frame) (fun effects => told_by side log (story effects)) (left_good side log) e.
Proof.
  intros Hg Hs. unfold receive_frame. apply wp_bind, wp_get. case_bool_decide as Ht.
  - apply wp_bind, wp_lift. pose proof (calm_frame_digest frame) as Hc.
    destruct (channel_frame_digest frame) as [digest|x|]; [| |by destruct Hc]; simpl;
      (destruct (_ && _); [apply wp_ret; by apply told_nothing_more|done]).
  - apply wp_bind, wp_ensure_live; [intros Hlive|done]. destruct frame.
    + by apply wp_fail_good; [|apply good_based].
    + by apply wp_receive_finished.
    + by apply wp_receive_sealed.
Qed.

Lemma wp_ending log e side reason : good log e -> er_side e = side ->
  wp False (_ ← ensure_live; _ ← terminate reason; mret [EndpointEffect_CloseMailbox])
    (fun effects => told_by side log (story effects)) (left_good side log) e.
Proof.
  intros Hg Hs. apply wp_bind, wp_ensure_live; [intros Hlive|done]. apply wp_bind. unfold terminate.
  apply wp_modify, wp_ret, told_nothing_more; [done|]. by apply good_end.
Qed.

Lemma wp_retry_pending_finished log e side : good log e -> er_side e = side ->
  wp False retry_pending_finished (fun effects => told_by side log (story effects)) (left_good side log) e.
Proof.
  intros Hg Hs. unfold retry_pending_finished. apply wp_bind, wp_ensure_live; [intros Hlive|done].
  apply wp_bind, wp_get. destruct (er_pending_finished e) as [f|] eqn:Hf; [|apply wp_ret; by apply told_nothing_more].
  destruct (gd_finished _ _ Hg f Hf) as (s & c & v & ->). by apply wp_receive_finished.
Qed.

Lemma wp_admit_bootstrap log e side p control body : good log e -> er_side e = side ->
  wp False (admit_bootstrap_control p control body) (fun _ => told_by side log []) (left_good side log) e.
Proof.
  intros Hg Hs. unfold admit_bootstrap_control. apply wp_bind, wp_ensure_live; [intros Hlive|done].
  apply wp_bind, (wp_bootstrap log); [done|done|]. intros m r Hg1.
  assert (forall reason error, wp False (fail (A := ProtocolVerdict) reason error) (fun _ => told_by side log [])
    (left_good side log) (set_bootstrap (Some m) e)) as Hfail by (intros; by apply wp_fail_good; [|apply good_based]).
  destruct r as [a|x|]; [|apply Hfail|apply Hfail]. destruct (negb _); [|apply Hfail].
  apply wp_bind, wp_validate; [apply Hg1|apply wp_ret; by apply told_nothing_more| |done].
  by split; [|apply based_terminated, good_based].
Qed.

Lemma wp_local_finished log e side : good log e -> er_side e = side ->
  wp False local_finished_frame (fun _ => told_by side log []) (left_good side log) e.
Proof.
  intros Hg Hs. unfold local_finished_frame. apply wp_bind, wp_ensure_live; [intros Hlive|done].
  apply wp_bind, wp_validate; [apply Hg| |by split; [|apply based_terminated, good_based]|done].
  apply wp_bind, wp_get. destruct (er_local_finished e); [apply wp_ret; by apply told_nothing_more|].
  apply wp_bind, wp_lift. destruct (er_pending_channel e) as [pending|]; [|done]. simpl.
  apply wp_bind, wp_lift. destruct (er_ceremony_key e) as [k|]; [|done]. simpl. apply wp_bind, wp_lift.
  match goal with |- context [build_bootstrap_control ?k ?p ?c ?b ?cb] =>
    assert (calm (build_bootstrap_control k p c b cb)) as Hc by (apply calm_build);
    destruct (build_bootstrap_control k p c b cb) end;
    [|done|by destruct Hc]. simpl.
  apply wp_bind, (wp_bootstrap log); [done|done|]. intros m r Hg1.
  assert (forall reason error, wp False (fail (A := option ChannelFrame) reason error) (fun _ => told_by side log [])
    (left_good side log) (set_bootstrap (Some m) e)) as Hfail by (intros; by apply wp_fail_good; [|apply good_based]).
  destruct r as [a'|x|]; [|apply Hfail|apply Hfail]. destruct (ad_verdict a').
  - apply wp_bind, wp_modify, wp_ret, told_nothing_more; [done|].
    by apply (good_finished log (set_bootstrap (Some m) e) _ None).
  - apply wp_ret. by apply told_nothing_more.
  - apply Hfail.
Qed.

Lemma good_allocator_intent log e i : good log e -> er_terminal e = None -> er_side e = Side_Allocator ->
  good log (set_intent i e).
Proof.
  intros Hg Hlive Hs. destruct Hg. split; try assumption; [by intros Hx; destruct Hx|].
  intros _ Hc. change (er_side e = Side_Claimant) in Hc. congruence.
Qed.

Lemma wp_send_intent log e side i : good log e -> er_side e = side ->
  wp False (send_intent i) (fun _ => told_by side log []) (left_good side log) e.
Proof.
  intros Hg Hs. unfold send_intent. apply wp_bind, wp_ensure_live; [intros Hlive|done]. apply wp_bind, wp_get.
  destruct (_ || _) eqn:Hphase; [done|]. apply orb_false_iff in Hphase as [Hal _]. bool_to_prop.
  destruct (negb _); [by apply wp_fail_good; [|apply good_based]|].
  apply wp_bind, wp_zoom. unfold wp at 1. pose proof (recognise_intent_calm i (er_profile e)) as Hc.
  destruct (recognise_intent i (er_profile e)) as [p [pi|x|]]; [| |by destruct Hc].
  2:{ split; [done|]. by apply good_profile. }
  assert (good log (set_profile p e)) as Hg1 by (by apply good_profile). set (e1 := set_profile p e) in *.
  apply wp_bind, wp_lift. assert (calm (encode_pairing_intent i)) as Hce by (apply calm_encode_with; auto with pairing).
  destruct (encode_pairing_intent i) as [body|x|]; [|done|by destruct Hce]. simpl.
  apply wp_bind, wp_lift. destruct (er_session e) as [session|] eqn:Hses; [|done]. simpl.
  apply wp_bind, wp_role_key; [intros claimant|done].
  apply wp_bind, wp_lift. destruct (er_ceremony_key e) as [k|]; [|done]. simpl. apply wp_bind, wp_lift.
  match goal with |- context [build_session_control ?k ?p ?c ?r ?b ?cb] =>
    assert (calm (build_session_control k p c r b cb)) as Hcb by (apply calm_build);
    destruct (build_session_control k p c r b cb) end;
    [|done|by destruct Hcb]. simpl.
  apply wp_bind, (wp_admit_local log); [done|done|done|]. intros m h Hg2.
  apply wp_bind, (wp_seal_control log); [done|done|done|]. intros c f Hg3.
  apply wp_bind, wp_modify, wp_ret, told_nothing_more; [done|]. by apply good_allocator_intent.
Qed.

Lemma wp_send_payload log e side p : good log e -> er_side e = side ->
  wp False (send_payload p) (fun _ => told_by side log []) (left_good side log) e.
Proof.
  intros Hg Hs. unfold send_payload. apply wp_bind, wp_ensure_live; [intros Hlive|done]. apply wp_bind, wp_get.
  destruct (negb _); [done|].
  apply wp_bind, wp_lift. destruct (er_intent e) as [rec|]; [|done]. simpl.
  apply wp_bind, wp_lift. destruct (er_decision e) as [decision|]; [|done]. simpl.
  destruct (negb _); [done|]. destruct (negb _); [done|]. destruct (er_outbound_payload_sent e); [done|].
  apply wp_bind, wp_lift. pose proof (recognise_payload_calm (er_profile e) (in_profile_binding rec) p) as Hc.
  destruct (recognise_payload _ _ _); [|done|by destruct Hc]. simpl.
  apply wp_bind, wp_lift. assert (calm (encode_application_payload p)) as Hce by (apply calm_encode_with; auto with pairing).
  destruct (encode_application_payload p) as [body|x|]; [|done|by destruct Hce]. simpl.
  apply wp_bind, wp_role_key; [intros claimant|done].
  apply wp_bind, wp_lift. destruct (er_ceremony_key e) as [k|]; [|done]. simpl. apply wp_bind, wp_lift.
  match goal with |- context [build_session_control ?k ?p ?c ?r ?b ?cb] =>
    assert (calm (build_session_control k p c r b cb)) as Hcb by (apply calm_build);
    destruct (build_session_control k p c r b cb) end;
    [|done|by destruct Hcb]. simpl.
  apply wp_bind, (wp_admit_local log); [done|done|done|]. intros m h Hg2.
  apply wp_bind, (wp_seal_control log); [done|done|done|]. intros c f Hg3.
  apply wp_bind, wp_modify, wp_ret, told_nothing_more; [done|]. destruct Hg3. split; assumption || (by intros Hx; destruct Hx).
Qed.

(** ** The decision *)

(** What a decision tells: nothing unless a frame goes out. *)
Definition decision_story (d : WireDecision) (effects : list EndpointEffect) : list Event :=
  match effects with
  | EndpointEffect_SendFrame _ :: _ => [match d with Decision_Approve => Approved | Decision_Decline => Declined end]
  | _ => []
  end.

Lemma good_decided log e d h : good log e -> er_terminal e = None -> er_side e = Side_Claimant ->
  er_decision e = None -> is_Some (er_intent e) ->
  match d with
  | Decision_Approve => good (log ++ [Approved]) (set_decision (Some (mkDecisionRecord d h)) e)
  | Decision_Decline => forall b, good (log ++ [Declined])
      (terminated TerminalReason_Declined (set_local_decline_committed b (set_decision (Some (mkDecisionRecord d h)) e)))
  end.
Proof.
  intros Hg Hlive Hs Hd [rec Hi]. pose proof (gd_tale _ _ Hg Hlive Hs) as Ht.
  assert (exists s, log = [Shown s] /\ linked_intent e s /\ er_payload_control_hash e = None /\ er_delivered_payloads e = 0)
    as (s & -> & Hl & Hh & Hn).
  { destruct log as [|[s| | |g] [|[| | |] [|[| | |] [|]]]]; try done; simpl in Ht.
    - destruct Ht as (? & _). congruence.
    - destruct Ht as (? & _ & ? & ?). eauto.
    - destruct Ht as (_ & Hx & _). by rewrite Hd in Hx.
    - destruct Ht as (_ & Hx & _). by rewrite Hd in Hx. }
  destruct Hg as [Hk Hto Hco Hal Hpf Hend Hcr Hq _]. pose proof Hl as (i & pi & b & rec' & Hof & -> & Hrest).
  assert (forall v, told (P := P) ([Shown (pri_display pi)] ++ [v]) -> grants ([Shown (pri_display pi)] ++ [v]) = 0 ->
    based ([Shown (pri_display pi)] ++ [v]) e) as Hbase.
  { intros v Hv Hz. split; [done|]. split; [done|]. split; [lia|]. congruence. }
  destruct d.
  - destruct (Hbase Approved) as (? & ? & ? & ?); [by apply (told_approved i pi)|done|].
    split; try assumption; [by intros Hx; destruct Hx|]. intros _ _. by split_and!.
  - intros c. apply based_terminated. by apply (Hbase Declined); [apply (told_declined i pi)|].
Qed.

Lemma wp_decide log e side d : good log e -> er_side e = side ->
  wp False (decide_intent d) (fun effects => told_by side log (decision_story d effects)) (left_good side log) e.
Proof.
  intros Hg Hs. unfold decide_intent. apply wp_bind, wp_get.
  case_bool_decide; [destruct (_ && _); [apply wp_ret; by apply told_nothing_more|done]|].
  apply wp_bind, wp_ensure_live; [intros Hlive|done]. destruct (bool_decide (er_side e = _)) eqn:Hside; [|done].
  bool_to_prop. simpl. destruct (er_decision e) as [existing|] eqn:Hdec.
  { destruct (bool_decide _); [apply wp_ret; by apply told_nothing_more|by apply wp_fail_good; [|apply good_based]]. }
  apply wp_bind, wp_lift. destruct (er_intent e) as [rec|] eqn:Hi; [|done]. simpl. apply wp_bind, wp_lift.
  match goal with |- context [encode_pairing_decision ?v] =>
    assert (calm (encode_pairing_decision v)) as Hce by (apply calm_encode_with; auto with pairing);
    destruct (encode_pairing_decision v) as [body|x|]; [|done|by destruct Hce] end. simpl.
  apply wp_bind, wp_role_key; [intros allocator|done].
  apply wp_bind, wp_lift. destruct (er_ceremony_key e) as [k|]; [|done]. simpl. apply wp_bind, wp_lift.
  match goal with |- context [build_session_control ?k ?p ?c ?r ?b ?cb] =>
    assert (calm (build_session_control k p c r b cb)) as Hcb by (apply calm_build);
    destruct (build_session_control k p c r b cb) end;
    [|done|by destruct Hcb]. simpl.
  apply wp_bind, (wp_admit_local log); [done|done|done|]. intros m h Hg2.
  apply wp_bind, (wp_seal_control log); [done|done|done|]. intros c f Hg3.
  apply wp_bind, wp_modify. pose proof (good_decided log _ d h Hg3 Hlive Hside Hdec ltac:(simpl; by rewrite Hi)) as Hd.
  destruct d; simpl.
  - apply wp_ret. by split.
  - apply wp_bind, wp_modify, wp_bind. unfold terminate. apply wp_modify, wp_ret. split; [done|]. apply Hd.
Qed.
End Ops.

(** ** Runs of an endpoint

    The public operations as one type, runs of them from construction, and what
    every run keeps. *)

Inductive EndpointOp : Type :=
| Op_AdmitBootstrap (p : BootstrapPerformative) (control body : bytes)
| Op_LocalFinished
| Op_Receive (frame : ChannelFrame)
| Op_Cancel
| Op_RelayClosed (reason : CloseReason)
| Op_RetryFinished
| Op_SendIntent (intent : PairingIntent)
| Op_Decide (decision : WireDecision)
| Op_SendPayload (payload : ApplicationPayload).

(** What an operation tells with these effects. *)
Definition op_story (op : EndpointOp) (effects : list EndpointEffect) : list Event :=
  match op with Op_Decide d => decision_story d effects | _ => story effects end.
Definition op_events {X} (op : EndpointOp) (r : outcome X (list EndpointEffect)) : list Event :=
  match r with Ok effects => op_story op effects | _ => [] end.

Section Runs.
Context `{Cbor, !CborLaws, Cddl, !CddlLaws, UrlParser, Sha256, Sha512, HkdfSha512, HmacSha512, Aead, Cbcl, !CbclLaws,
  Ed25519, !Ed25519Laws} {P : Type} `{ApplicationProfile P, !ProfileCalm P}.
Implicit Types e : EndpointReducer (P := P).

(** One call; a frame that an operation returns is an effect of sending it. *)
Definition perform (op : EndpointOp) : stM EndpointReducer ReducerError (list EndpointEffect) :=
  match op with
  | Op_AdmitBootstrap p control body => _ ← admit_bootstrap_control p control body; mret []
  | Op_LocalFinished =>
      frame ← local_finished_frame;
      mret match frame with Some f => [EndpointEffect_SendFrame f] | None => [] end
  | Op_Receive frame => receive_frame frame
  | Op_Cancel => cancel
  | Op_RelayClosed reason => relay_closed reason
  | Op_RetryFinished => retry_pending_finished
  | Op_SendIntent intent => frame ← send_intent intent; mret [EndpointEffect_SendFrame frame]
  | Op_Decide decision => decide_intent decision
  | Op_SendPayload payload => frame ← send_payload payload; mret [EndpointEffect_SendFrame frame]
  end.

(** A run: the final state, the answers, and the story told. *)
Fixpoint endpoint_run e (ops : list EndpointOp) :
    EndpointReducer * list (outcome ReducerError (list EndpointEffect)) * list Event :=
  match ops with
  | [] => (e, [], [])
  | op :: ops =>
      let '(e, r) := perform op e in
      let '(e, rs, log) := endpoint_run e ops in
      (e, r :: rs, op_events op r ++ log)
  end.

Lemma wp_perform log e side op : good log e -> er_side e = side ->
  wp False (perform op) (fun effects => told_by side log (op_story op effects)) (left_good side log) e.
Proof.
  intros Hg Hs. destruct op; simpl.
  - apply wp_bind. eapply wp_mono; [by apply (wp_admit_bootstrap log)| |done]. intros v e' Ht. by apply wp_ret.
  - apply wp_bind. eapply wp_mono; [by apply (wp_local_finished log)| |done]. intros [f|] e' Ht; by apply wp_ret.
  - by apply wp_receive_frame.
  - by apply wp_ending.
  - by apply wp_ending.
  - by apply wp_retry_pending_finished.
  - apply wp_bind. eapply wp_mono; [by apply (wp_send_intent log)| |done]. intros f e' Ht. by apply wp_ret.
  - by apply wp_decide.
  - apply wp_bind. eapply wp_mono; [by apply (wp_send_payload log)| |done]. intros f e' Ht. by apply wp_ret.
Qed.

Lemma run_good ops : forall log e e' rs more, good log e -> endpoint_run e ops = (e', rs, more) ->
  good (log ++ more) e' /\ er_side e' = er_side e /\ Forall calm rs.
Proof.
  induction ops as [|op ops IH]; intros log e e' rs more Hg; simpl.
  { intros [= <- <- <-]. by rewrite app_nil_r. }
  pose proof (wp_perform log e (er_side e) op Hg eq_refl) as Hw. unfold wp in Hw.
  destruct (perform op e) as [e1 r] eqn:Hp. destruct (endpoint_run e1 ops) as [[e2 rs'] more'] eqn:Hrun.
  intros [= <- <- <-]. destruct r as [effects|x|]; [| |done]; destruct Hw as [Hs Hg1].
  - destruct (IH _ _ _ _ _ Hg1 Hrun) as (Hg2 & Hs2 & Hc). rewrite <- app_assoc in Hg2.
    split; [done|]. split; [congruence|by constructor].
  - destruct (IH _ _ _ _ _ Hg1 Hrun) as (Hg2 & Hs2 & Hc). split; [done|]. split; [congruence|by constructor].
Qed.

(** The monitor an endpoint starts with: a new one and what it admitted. *)
Definition monitor_of (invitation : bytes) (m : BootstrapMonitor) : Prop :=
  exists m0 events, BootstrapMonitor_new invitation = Ok m0 /\ (boot_run m0 events).1 = m.

Lemma boot_run_keeps events : forall m, monitor_ok m -> monitor_ok (boot_run m events).1.
Proof.
  induction events as [|[[p c] b] events IH]; intros m Hm; simpl; [done|].
  destruct (bootstrap_admit_keeps m p c b Hm) as [Hk _]. destruct (bootstrap_admit p c b m) as [m1 r].
  specialize (IH m1 Hk). by destruct (boot_run m1 events).
Qed.

Lemma monitor_of_ok invitation m : monitor_of invitation m -> monitor_ok m.
Proof. intros (m0 & events & Hnew & <-). by eapply boot_run_keeps, monitor_new_ok. Qed.

Lemma new_good side invitation record k m pending ah ch profile e :
  EndpointReducer_new side invitation record k m pending ah ch profile = Ok e -> monitor_ok m -> good [] e /\ er_side e = side.
Proof.
  intros Hnew Hm. unfold EndpointReducer_new in Hnew. destruct (_ || _); [done|].
  apply bind_ok in Hnew as (value & _ & Hnew). apply bind_ok in Hnew as ([] & _ & Hnew).
  set (e0 := mkEndpointReducer _ _ _ _ _ _ _ _ _ _ _ _ _ _ _ _ _ _ _ _ _ _ _ _ _) in Hnew.
  assert (wp False validate_expected_role_keys (fun _ e' => e' = e0) (fun _ _ => True) e0) as Hw by (by apply wp_validate).
  unfold wp in Hw. destruct (validate_expected_role_keys e0) as [e1 [[]|x|]]; [|done..]. subst e1.
  injection Hnew as <-. split; [|done]. split; try done; [apply told_nothing| |intros _; split; simpl; [lia|done]].
  intros _. split; [by eexists|]. split; [by eexists|]. split; [|done]. left. split; [by eexists|done].
Qed.

(** Every run from construction. *)
Lemma new_run side invitation record k m pending ah ch profile e0 ops e rs log :
  monitor_of invitation m ->
  EndpointReducer_new side invitation record k m pending ah ch profile = Ok e0 ->
  endpoint_run e0 ops = (e, rs, log) -> good log e /\ er_side e = side /\ Forall calm rs.
Proof.
  intros Hm Hnew Hrun. destruct (new_good _ _ _ _ _ _ _ _ _ _ Hnew (monitor_of_ok _ _ Hm)) as [Hg Hs].
  destruct (run_good ops [] e0 e rs log Hg Hrun) as (Hg' & Hs' & Hc). split; [done|]. split; [congruence|done].
Qed.

(** ** The end *)

Lemma ended_perform log e op : good log e -> er_terminal e <> None ->
  exists r, perform op e = (e, r) /\ (r = Err ReducerError_Terminal \/ r = Ok []).
Proof.
  intros Hg Ht. assert (is_Some (er_terminal e)) as Hs by (by apply not_eq_None_Some).
  assert (forall {A} (k : unit -> stM EndpointReducer ReducerError A), (ensure_live ≫= k) e = (e, Err ReducerError_Terminal)) as Hlive.
  { intros A k. unfold ensure_live, mbind, stM_bind, get. by rewrite bool_decide_eq_true_2. }
  assert (forall {A B} (m : stM EndpointReducer ReducerError A) (k : A -> stM EndpointReducer ReducerError B),
    m e = (e, Err ReducerError_Terminal) -> (m ≫= k) e = (e, Err ReducerError_Terminal)) as Hbind.
  { intros A B m k Hm. unfold mbind, stM_bind. by rewrite Hm. }
  destruct op; simpl.
  all: try (eexists; split; [|by left]; first [apply Hlive|apply Hbind, Hlive]).
  - pose proof (calm_frame_digest frame) as Hc. unfold receive_frame, mbind, stM_bind, get, lift. rewrite bool_decide_eq_true_2 by done.
    destruct (channel_frame_digest frame); [| |by destruct Hc]; simpl; destruct (_ && _); eauto.
  - unfold decide_intent, mbind, stM_bind, get. rewrite bool_decide_eq_true_2 by done. destruct (_ && _); eauto.
Qed.
End Runs.
