(* ===== verification/EndpointProps.v ===== *)
(** * What an endpoint promises

    The properties of [src/endpoint.rs], with a meeting of two endpoints as the
    concrete run. *)

From S2P Require Import Prelude External Instances Wire Cddl WireCodec WireLaws Channel CurveExternal Cpace Profile ProfileThms ProfileProps CbclExternal CbclProtocol CbclThms CbclMonitors CbclDemo InvitationRecord Calm Endpoint EndpointInv EndpointSteps EndpointOps.

Section Reached.
Context `{Cbor, !CborLaws, Cddl, !CddlLaws, UrlParser, Sha256, Sha512, HkdfSha512, HmacSha512, Aead, Cbcl, !CbclLaws,
  Ed25519, !Ed25519Laws} {P : Type} `{ApplicationProfile P, !ProfileCalm P}.
Implicit Types e : EndpointReducer (P := P).

(** A state, the answers and the story of some run of an endpoint that was
    constructed for an invitation with a monitor of that invitation. *)
Definition reached (side : Side) (invitation : bytes) e (rs : list (outcome ReducerError (list EndpointEffect)))
    (log : list Event) : Prop :=
  exists record key m pending ah ch profile e0 ops,
    monitor_of invitation m /\
    EndpointReducer_new side invitation record key m pending ah ch profile = Ok e0 /\
    endpoint_run e0 ops = (e, rs, log).

Lemma reached_good side invitation e rs log :
  reached side invitation e rs log -> good log e /\ er_side e = side /\ Forall calm rs.
Proof. intros (record & key & m & pending & ah & ch & profile & e0 & ops & Hm & Hnew & Hrun). by eapply new_run. Qed.

(** At the end every operation is refused or answers nothing. *)
Lemma ended_run ops : forall log e e' rs more, good log e -> er_terminal e <> None -> endpoint_run e ops = (e', rs, more) ->
  e' = e /\ more = [] /\ Forall (fun r => r = Err ReducerError_Terminal \/ r = Ok []) rs.
Proof.
  induction ops as [|op ops IH]; intros log e e' rs more Hg Ht; simpl; [by intros [= <- <- <-]|].
  destruct (ended_perform log e op Hg Ht) as (r & -> & Hr).
  destruct (endpoint_run e ops) as [[e1 rs1] log1] eqn:Hrun. intros [= <- <- <-].
  destruct (IH _ _ _ _ _ Hg Ht Hrun) as (-> & -> & Hall). split; [done|]. split; [|by constructor].
  destruct Hr as [->| ->]; [done|]. by destruct op as [| | | | | | |[]|].
Qed.

Lemma granted_told log g : told (P := P) log -> Granted g ∈ log ->
  exists i pi, log = [Shown (pri_display pi); Approved; Granted g] /\ offered (P := P) i pi /\ authorised (P := P) i pi g.
Proof. intros Ht Hin. destruct Ht; repeat (apply elem_of_cons in Hin as [Hin|Hin]; simplify_eq); try set_solver; eauto 10. Qed.
End Reached.

(** ** What the built-in profiles deliver *)

Section Deliveries.
Context `{Cbor, !CborLaws, Sha256, Cddl, UrlParser} {V : Type} `{GrantVerifier V}.

Lemma zoom_then {S T E F A B} (f : S -> T) (put : T -> S -> S) (er : E -> F) (m : stM T E A) (b : B) s s' c :
  (_ ← zoom f put er m; mret b) s = (s', Ok c) -> c = b.
Proof. unfold zoom, mbind, stM_bind, mret, stM_ret. destruct (m (f s)) as [t [a|e|]]; simpl; by intros [= _ <-]. Qed.

Lemma agent_delivers i pi g : offered (P := AgentProfile V) i pi -> authorised (P := AgentProfile V) i pi g ->
  exists grant, decode_agent_grant (ag_body g) = Ok grant /\ agent_shown pi grant.
Proof.
  intros (p & p' & [= -> Hi]) (b & payload & r & q & q' & _ & _ & Hr & Hg).
  apply zoom_then in Hg as ->. destruct (agent_grant_matches _ _ _ _ _ _ Hi Hr) as (grant & Hd & Hb & Hs).
  exists grant. simpl. by rewrite Hb.
Qed.
Lemma credential_delivers i pi g :
  offered (P := CredentialProfile V) i pi -> authorised (P := CredentialProfile V) i pi g ->
  exists grant, decode_credential_grant (ag_body g) = Ok grant /\ credential_shown pi grant.
Proof.
  intros (p & p' & [= -> Hi]) (b & payload & r & q & q' & _ & _ & Hr & Hg).
  apply zoom_then in Hg as ->. destruct (credential_grant_matches _ _ _ _ _ _ Hi Hr) as (grant & Hd & Hb & Hs).
  exists grant. simpl. by rewrite Hb.
Qed.
Lemma synthetic_delivers i pi g :
  offered (P := SyntheticProfile) i pi -> authorised (P := SyntheticProfile) i pi g ->
  exists grant, decode_synthetic_grant (ag_body g) = Ok grant /\ synthetic_shown pi grant.
Proof.
  intros (p & p' & [= -> Hi]) (b & payload & r & q & q' & _ & _ & Hr & Hg).
  assert (g = payload_grant r) as ->.
  { simpl in Hg. unfold synthetic_authorize, mbind, stM_bind, get in Hg. destruct (negb _); [done|]. by injection Hg. }
  destruct (synthetic_grant_matches _ _ _ _ _ _ Hi Hr) as (grant & Hd & Hb & Hs). exists grant. simpl. by rewrite Hb.
Qed.
End Deliveries.

(** C4. What the person at an endpoint sees and does.  Along every run of an
    endpoint, with any frames, controls and calls, the story is a beginning of
    one intent shown, one decision on it, and after an approval one grant,
    authorised for a payload that names that intent's digest and is recognised
    against its binding; an allocator shows and delivers nothing; and the
    counter of delivered payloads is at least the number of grants and never
    exceeds one. *)
Theorem endpoint_story `{Cbor, !CborLaws, Cddl, !CddlLaws, UrlParser, Sha256, Sha512, HkdfSha512, HmacSha512, Aead,
    Cbcl, !CbclLaws, Ed25519, !Ed25519Laws} {P} `{ApplicationProfile P, !ProfileCalm P} side invitation e rs log :
  reached (P := P) side invitation e rs log ->
  told (P := P) log /\ (side = Side_Allocator -> log = []) /\ grants log <= er_delivered_payloads e <= 1.
Proof.
  intros (Hg & <- & _)%reached_good. split; [apply (gd_told _ _ Hg)|]. split; [|apply (gd_count _ _ Hg)].
  intros Ha. by apply (gd_allocator _ _ Hg).
Qed.

(** C34. An endpoint never panics.  Every operation of every run answers a value
    or an error: no index, invariant or unreachable branch of the code fires
    and the loop over waiting controls ends; at most [MAX_PENDING_CONTROLS]
    controls ever wait. *)
Theorem endpoint_total `{Cbor, !CborLaws, Cddl, !CddlLaws, UrlParser, Sha256, Sha512, HkdfSha512, HmacSha512, Aead,
    Cbcl, !CbclLaws, Ed25519, !Ed25519Laws} {P} `{ApplicationProfile P, !ProfileCalm P} side invitation e rs log :
  reached (P := P) side invitation e rs log ->
  Forall calm rs /\ (length (er_pending_applications e) <= MAX_PENDING_CONTROLS)%nat.
Proof.
  intros (Hg & _ & Hc)%reached_good. split; [exact Hc|]. destruct (decide (er_terminal e = None)) as [Ht|Ht].
  - apply (gd_queue _ _ Hg Ht).
  - destruct (gd_end _ _ Hg Ht) as (_ & _ & _ & _ & _ & _ & _ & -> & _). unfold MAX_PENDING_CONTROLS. simpl. lia.
Qed.

(** C25. The end is final.  An endpoint that has ended holds no key, channel,
    monitor, frame, intent or decision and its invitation is spent; every later
    operation leaves it as it is, tells nothing, and is refused as terminal or
    answers no effects. *)
Theorem endpoint_end_final `{Cbor, !CborLaws, Cddl, !CddlLaws, UrlParser, Sha256, Sha512, HkdfSha512, HmacSha512, Aead,
    Cbcl, !CbclLaws, Ed25519, !Ed25519Laws} {P} `{ApplicationProfile P, !ProfileCalm P} side invitation e rs log :
  reached (P := P) side invitation e rs log -> er_terminal e <> None ->
  erased e /\ secrets_erased e = true /\ session_ready e = false /\
  forall later e' rs' more, endpoint_run e later = (e', rs', more) ->
    e' = e /\ more = [] /\ Forall (fun r => r = Err ReducerError_Terminal \/ r = Ok []) rs'.
Proof.
  intros (Hg & _)%reached_good Ht. pose proof (gd_end _ _ Hg Ht) as He. split; [exact He|].
  destruct He as (Hk & _ & Hp & Hch & Hs & _). split_and!.
  - unfold secrets_erased. by rewrite Hk, Hp, Hch.
  - unfold session_ready. by rewrite Hs.
  - intros later e' rs' more. by eapply ended_run.
Qed.

(** One attempt becomes one channel.  A live endpoint holds its ceremony
    key and monitor, and either the pending channel or the confirmed one, never
    both; it has a session only with a confirmed channel, and from the moment
    the channel is confirmed its invitation is spent. *)
Theorem endpoint_phases `{Cbor, !CborLaws, Cddl, !CddlLaws, UrlParser, Sha256, Sha512, HkdfSha512, HmacSha512, Aead,
    Cbcl, !CbclLaws, Ed25519, !Ed25519Laws} {P} `{ApplicationProfile P, !ProfileCalm P} side invitation e rs log :
  reached (P := P) side invitation e rs log -> er_terminal e = None ->
  is_Some (er_ceremony_key e) /\ is_Some (er_bootstrap e) /\
  (is_Some (er_pending_channel e) <-> er_channel e = None) /\
  (is_Some (er_session e) -> is_Some (er_channel e)) /\
  (is_Some (er_channel e) -> ir_status (er_record e) = InvitationStatus_Spent).
Proof.
  intros (Hg & _)%reached_good Ht. destruct (gd_crypto _ _ Hg Ht) as (Hk & (m & Hm & _) & Hp & _).
  split; [exact Hk|]. split; [by rewrite Hm|].
  destruct Hp as [(Hp & -> & ->)|(-> & Hc & ->)].
  - split; [done|]. split; by intros [].
  - split; [|done]. split; [by intros []|]. intros Hn. rewrite Hn in Hc. by destruct Hc.
Qed.

(** C3. The grant that is delivered is the one that was approved.  For each
    built-in profile, an endpoint that delivers a grant has shown exactly one
    intent and had it approved before; the grant's body decodes, and the fields
    it repeats are the ones shown, unless the two lists of fields are a SHA-256
    collision. *)
Theorem approved_grant_is_shown `{Cbor, !CborLaws, Cddl, !CddlLaws, UrlParser, Sha256, Sha512, HkdfSha512, HmacSha512,
    Aead, Cbcl, !CbclLaws, Ed25519, !Ed25519Laws} {V} `{GrantVerifier V, !VerifierCalm V} side invitation rs log g :
  Granted g ∈ log ->
  (forall e : EndpointReducer (P := AgentProfile V), reached side invitation e rs log ->
     exists pi grant, log = [Shown (pri_display pi); Approved; Granted g] /\
       decode_agent_grant (ag_body g) = Ok grant /\ agent_shown pi grant) /\
  (forall e : EndpointReducer (P := CredentialProfile V), reached side invitation e rs log ->
     exists pi grant, log = [Shown (pri_display pi); Approved; Granted g] /\
       decode_credential_grant (ag_body g) = Ok grant /\ credential_shown pi grant) /\
  (forall e : EndpointReducer (P := SyntheticProfile), reached side invitation e rs log ->
     exists pi grant, log = [Shown (pri_display pi); Approved; Granted g] /\
       decode_synthetic_grant (ag_body g) = Ok grant /\ synthetic_shown pi grant).
Proof.
  intros Hin. split_and!; intros e (Hg & _)%reached_good.
  - destruct (granted_told _ _ (gd_told _ _ Hg) Hin) as (i & pi & -> & Ho & Ha). exists pi.
    destruct (agent_delivers _ _ _ Ho Ha) as (grant & ? & ?). by exists grant.
  - destruct (granted_told _ _ (gd_told _ _ Hg) Hin) as (i & pi & -> & Ho & Ha). exists pi.
    destruct (credential_delivers _ _ _ Ho Ha) as (grant & ? & ?). by exists grant.
  - destruct (granted_told _ _ (gd_told _ _ Hg) Hin) as (i & pi & -> & Ho & Ha). exists pi.
    destruct (synthetic_delivers _ _ _ Ho Ha) as (grant & ? & ?). by exists grant.
Qed.

(** ** A meeting

    A synthetic pairing between an allocator and a claimant, computed with the
    executable primitives of [Instances] and [CbclDemo]: every frame one side
    sends is queued for the other and delivered in order. *)

Definition octets_of {E} (m : outcome E bytes) : bytes := match m with Ok b => b | _ => [] end.

(** One side acts, or takes the next frame sent to it. *)
Inductive Move : Type := Act (side : Side) (op : EndpointOp) | Deliver (side : Side).

Section Start.
Context `{Cbor, !CborLaws, Cddl, !CddlLaws, UrlParser, Sha256, Sha512, HkdfSha512, HmacSha512, Aead, Cbcl, !CbclLaws,
  Ed25519, !Ed25519Laws} {P : Type} `{ApplicationProfile P}.

(** An endpoint whose monitor admitted the two shares, for a bound invitation. *)
Definition start_endpoint (invitation : bytes) (shares : list (BootstrapPerformative * bytes * bytes)) (side : Side)
    (key : CeremonySigningKey) (secret context frame_a frame_b : bytes) (p : P) : option (EndpointReducer (P := P)) :=
  match BootstrapMonitor_new invitation with
  | Ok m0 =>
      match boot_run m0 shares, PendingChannel_new side secret context frame_a frame_b,
            bind secret context frame_a (InvitationRecord_new invitation) with
      | (m, [Ok a; Ok c]), Ok pending, (record, Ok _) =>
          match EndpointReducer_new side invitation record key m pending (ad_content_hash a) (ad_content_hash c) p with
          | Ok e => Some e
          | _ => None
          end
      | _, _, _ => None
      end
  | _ => None
  end.

Lemma start_endpoint_new invitation shares side key secret context fa fb p e :
  start_endpoint invitation shares side key secret context fa fb p = Some e ->
  exists record m pending ah ch, monitor_of invitation m /\
    EndpointReducer_new side invitation record key m pending ah ch p = Ok e.
Proof.
  unfold start_endpoint. destruct (BootstrapMonitor_new invitation) as [m0| |] eqn:Hm0; [|done..].
  destruct (boot_run m0 shares) as [m rs] eqn:Hrun.
  destruct rs as [|[a| |] [|[c| |] [|]]]; try done.
  destruct (PendingChannel_new _ _ _ _ _) as [pending| |]; [|done..].
  destruct (bind _ _ _ _) as [record [o| |]]; [|done..].
  destruct (EndpointReducer_new _ _ _ _ _ _ _ _ _) as [e0| |] eqn:Hnew; [|done..]. intros [= <-].
  exists record, m, pending, (ad_content_hash a), (ad_content_hash c). split; [|exact Hnew].
  exists m0, shares. split; [done|]. by rewrite Hrun.
Qed.
(** Each side's endpoint, the frames sent to it, and what it did. *)
Record Meeting := mkMeeting {
  mt_endpoint : Side -> EndpointReducer (P := P);
  mt_inbox : Side -> list ChannelFrame;
  mt_ops : Side -> list EndpointOp
}.
Definition at_side {A} (side : Side) (x : A) (f : Side -> A) : Side -> A := fun s => if bool_decide (s = side) then x else f s.
Definition frames (effects : list EndpointEffect) : list ChannelFrame :=
  omap (fun f => match f with EndpointEffect_SendFrame c => Some c | _ => None end) effects.
Definition act (side : Side) (op : EndpointOp) (m : Meeting) : Meeting :=
  let '(e, r) := perform op (mt_endpoint m side) in
  let sent := match r with Ok effects => frames effects | _ => [] end in
  let other := other_side side in
  mkMeeting (at_side side e (mt_endpoint m)) (at_side other (mt_inbox m other ++ sent) (mt_inbox m))
    (at_side side (mt_ops m side ++ [op]) (mt_ops m)).
Definition move (v : Move) (m : Meeting) : Meeting :=
  match v with
  | Act side op => act side op m
  | Deliver side =>
      match mt_inbox m side with
      | f :: inbox => act side (Op_Receive f) (mkMeeting (mt_endpoint m) (at_side side inbox (mt_inbox m)) (mt_ops m))
      | [] => m
      end
  end.

(** The run of one side of a meeting between two endpoints. *)
Definition hold (a b : option (EndpointReducer (P := P))) (script : list Move) (side : Side) :
    option (EndpointReducer (P := P) * list (outcome ReducerError (list EndpointEffect)) * list Event) :=
  match a, b with
  | Some a, Some b =>
      let start := fun s => match s with Side_Allocator => a | Side_Claimant => b end in
      let m := foldl (fun m v => move v m) (mkMeeting start (fun _ => []) (fun _ => [])) script in
      Some (endpoint_run (start side) (mt_ops m side))
  | _, _ => None
  end.
Definition summary (r : EndpointReducer (P := P) * list (outcome ReducerError (list EndpointEffect)) * list Event) :
    option TerminalReason * list Event := (er_terminal r.1.1, r.2).

Lemma hold_run a b script side t log : summary <$> hold a b script side = Some (t, log) ->
  exists e0 ops e rs, match side with Side_Allocator => a | Side_Claimant => b end = Some e0 /\
    endpoint_run e0 ops = (e, rs, log) /\ er_terminal e = t.
Proof.
  unfold hold. destruct a as [a|], b as [b|]; [|done..]. set (ops := mt_ops _ side).
  destruct (endpoint_run _ ops) as [[e rs] log'] eqn:Hrun. intros [= <- <-].
  destruct side; [exists a|exists b]; exists ops, e, rs; done.
Qed.
End Start.

#[export] Existing Instance schema_validator.
#[export] Existing Instance schema_validator_laws.
#[export] Instance meeting_sha : Sha256 := published_sha256.
#[export] Instance meeting_origins : UrlParser := fun s =>
  Some (mkUrl EmptyString None None None "/" s "https" (Some "relay.example"%string) None).

Definition meeting : bytes :=
  octets_of (encode_invitation (mkInvitation SYNTHETIC_APPLICATION "https://relay.example" (Locator_Direct (replicate 32 5))
    (replicate 16 1) None None)).
Definition meeting_id : string := ceremony_id meeting.

Definition allocator_key : CeremonySigningKey := mkCeremonySigningKey [7].
Definition claimant_key : CeremonySigningKey := mkCeremonySigningKey [8].
Definition share_a : bytes * bytes :=
  (octets_of (build_bootstrap_control allocator_key CpaceA meeting_id [5; 6] CausedBy_Begin), [5; 6]).
Definition share_b : bytes * bytes :=
  (octets_of (build_bootstrap_control claimant_key CpaceB meeting_id [7] CausedBy_Begin), [7]).
Definition shares : list (BootstrapPerformative * bytes * bytes) :=
  [(CpaceA, share_a.1, share_a.2); (CpaceB, share_b.1, share_b.2)].

Definition meeting_endpoint (side : Side) (key : CeremonySigningKey) (p : SyntheticProfile) : option EndpointReducer :=
  start_endpoint meeting shares side key [1] [2] [5; 6] [7] p.

Definition meeting_subject : SyntheticGrant := mkSyntheticGrant "subject" "audience" [9].
Definition meeting_intent : option PairingIntent :=
  match encode_synthetic_claims (synthetic_claims_of meeting_subject) with
  | Ok (a, c) => Some (mkPairingIntent SYNTHETIC_APPLICATION SYNTHETIC_ACTION a c "one grant" (replicate 32 4))
  | _ => None
  end.

(** The claimant's approval and decline of the allocator's intent, and what
    the allocator sends after an approval. *)
Definition confirmation : list Move :=
  [Act Side_Allocator Op_LocalFinished; Act Side_Claimant Op_LocalFinished; Deliver Side_Allocator;
   Deliver Side_Claimant; Deliver Side_Claimant].
Definition offering (i : PairingIntent) (d : WireDecision) : list Move :=
  [Act Side_Allocator (Op_SendIntent i); Deliver Side_Claimant; Act Side_Claimant (Op_Decide d); Deliver Side_Allocator].
Definition meeting_payload (i : PairingIntent) : ApplicationPayload :=
  mkApplicationPayload (sha256 (octets_of (encode_pairing_intent i))) SYNTHETIC_PAYLOAD
    (octets_of (encode_synthetic_grant meeting_subject)).
Definition approving (i : PairingIntent) : list Move :=
  confirmation ++ offering i Decision_Approve ++ [Act Side_Allocator (Op_SendPayload (meeting_payload i)); Deliver Side_Claimant].
Definition declining (i : PairingIntent) : list Move := confirmation ++ offering i Decision_Decline.

(** The run of one side of a meeting. *)
Definition key_of (side : Side) : CeremonySigningKey :=
  match side with Side_Allocator => allocator_key | Side_Claimant => claimant_key end.
Definition meeting_run (script : PairingIntent -> list Move) :=
  hold (meeting_endpoint Side_Allocator (key_of Side_Allocator) (SyntheticProfile_new true))
    (meeting_endpoint Side_Claimant (key_of Side_Claimant) (SyntheticProfile_new true))
    (match meeting_intent with Some i => script i | None => [] end).

(** What the claimant's person sees. *)
Definition meeting_display : DisplayIntent :=
  mkDisplayIntent SYNTHETIC_APPLICATION SYNTHETIC_ACTION "one grant"
    [mkDisplayField "synthetic subject" "subject" true; mkDisplayField "synthetic audience" "audience" true].
Definition meeting_grant : AuthorisedGrant :=
  mkAuthorisedGrant SYNTHETIC_APPLICATION SYNTHETIC_PAYLOAD (octets_of (encode_synthetic_grant meeting_subject)).

Lemma approved_meeting :
  summary <$> meeting_run approving Side_Claimant = Some (None, [Shown meeting_display; Approved; Granted meeting_grant]).
Proof. vm_cast_no_check (eq_refl (Some (@None TerminalReason, [Shown meeting_display; Approved; Granted meeting_grant]))). Qed.
Lemma declined_meeting :
  summary <$> meeting_run declining Side_Claimant = Some (Some TerminalReason_Declined, [Shown meeting_display; Declined]).
Proof. vm_cast_no_check (eq_refl (Some (Some TerminalReason_Declined, [Shown meeting_display; Declined]))). Qed.

Lemma meeting_reached script side t log : summary <$> meeting_run script side = Some (t, log) ->
  exists e rs, reached side meeting e rs log /\ er_terminal e = t.
Proof.
  unfold meeting_run. intros Hh. apply hold_run in Hh as (e0 & ops & e & rs & He0 & Hrun & Ht). exists e, rs. split; [|exact Ht].
  assert (exists key, meeting_endpoint side key (SyntheticProfile_new true) = Some e0) as (key & Hnew)
    by (destruct side; eexists; exact He0).
  unfold meeting_endpoint in Hnew. apply start_endpoint_new in Hnew as (record & m & pending & ah & ch & Hm & Hnew).
  exists record, key, m, pending, ah, ch, (SyntheticProfile_new true), e0, ops. split; [exact Hm|]. split; [exact Hnew|exact Hrun].
Qed.

(** The claimant of the approved meeting. *)
Lemma endpoint_story_witness : exists e rs,
  reached Side_Claimant meeting e rs [Shown meeting_display; Approved; Granted meeting_grant] /\
  told (P := SyntheticProfile) [Shown meeting_display; Approved; Granted meeting_grant] /\ er_delivered_payloads e = 1.
Proof.
  destruct (meeting_reached _ _ _ _ approved_meeting) as (e & rs & Hr & _). exists e, rs. split; [exact Hr|].
  destruct (endpoint_story Side_Claimant meeting e rs _ Hr) as (Ht & _ & Hc). split; [exact Ht|].
  unfold grants, sum_with in Hc. simpl in Hc. lia.
Defined.

Lemma endpoint_total_witness : exists e rs,
  reached Side_Claimant meeting e rs [Shown meeting_display; Approved; Granted meeting_grant] /\ Forall calm rs.
Proof.
  destruct (meeting_reached _ _ _ _ approved_meeting) as (e & rs & Hr & _). exists e, rs. split; [exact Hr|].
  exact (proj1 (endpoint_total Side_Claimant meeting e rs _ Hr)).
Defined.

Lemma endpoint_end_final_witness : exists e rs,
  reached Side_Claimant meeting e rs [Shown meeting_display; Declined] /\
  er_terminal e = Some TerminalReason_Declined /\ erased e.
Proof.
  destruct (meeting_reached _ _ _ _ declined_meeting) as (e & rs & Hr & Ht). exists e, rs. split; [exact Hr|].
  split; [exact Ht|]. apply (endpoint_end_final Side_Claimant meeting e rs _ Hr). rewrite Ht. discriminate.
Defined.

Lemma endpoint_phases_witness : exists e rs,
  reached Side_Claimant meeting e rs [Shown meeting_display; Approved; Granted meeting_grant] /\
  er_terminal e = None /\ is_Some (er_ceremony_key e).
Proof.
  destruct (meeting_reached _ _ _ _ approved_meeting) as (e & rs & Hr & Ht). exists e, rs. split; [exact Hr|].
  split; [exact Ht|]. apply (endpoint_phases Side_Claimant meeting e rs _ Hr Ht).
Defined.

#[local] Instance no_verifier : GrantVerifier unit := fun _ => mret tt.
#[local] Instance no_verifier_calm : VerifierCalm unit.
Proof. by intros []. Qed.
Lemma approved_grant_is_shown_witness : exists pi grant,
  meeting_display = pri_display pi /\ decode_synthetic_grant (ag_body meeting_grant) = Ok grant /\ synthetic_shown pi grant.
Proof.
  destruct (meeting_reached _ _ _ _ approved_meeting) as (e & rs & Hr & _).
  assert (Granted meeting_grant ∈ [Shown meeting_display; Approved; Granted meeting_grant]) as Hin
    by (right; right; left).
  destruct (approved_grant_is_shown (V := unit) Side_Claimant meeting rs _ meeting_grant Hin) as (_ & _ & Hs).
  destruct (Hs e Hr) as (pi & grant & Hlog & Hd & Hsh). exists pi, grant.
  split; [|split; [exact Hd|exact Hsh]]. by injection Hlog.
Defined.
