(* ===== verification/CredCore.v ===== *)
(** * The shared recognisers and the padded objects ([src/credential_v2/mod.rs], [object.rs])

    The error type, the canonical CBOR recogniser with its field readers, the
    closed kinds and the padded application objects of credential/v2, and the
    lemmas that written values are read back exactly. *)

From S2P Require Import Prelude External Wire Cddl WireCodec WireLaws.

Inductive CredentialV2Error : Type :=
| CredentialV2Error_MalformedCbor
| CredentialV2Error_TrailingBytes
| CredentialV2Error_NonDeterministic
| CredentialV2Error_DuplicateKey
| CredentialV2Error_Schema
| CredentialV2Error_Origin
| CredentialV2Error_Cpace
| CredentialV2Error_KeySchedule
| CredentialV2Error_Finished
| CredentialV2Error_Direction
| CredentialV2Error_Counter
| CredentialV2Error_Authentication
| CredentialV2Error_Size
| CredentialV2Error_Terminal
| CredentialV2Error_Profile
| CredentialV2Error_Predecessor
| CredentialV2Error_Phase
| CredentialV2Error_Expired.

Abbreviation credM := (outcome CredentialV2Error).

(** ** Fields *)

Definition v2_map_entries (value : Value) : credM (list (Value * Value)) :=
  match value with VMap entries => Ok entries | _ => Err CredentialV2Error_Schema end.

Definition v2_as_text (value : Value) : credM string :=
  match value with VText s => Ok s | _ => Err CredentialV2Error_Schema end.
Definition v2_as_bytes (value : Value) : credM bytes :=
  match value with VBytes b => Ok b | _ => Err CredentialV2Error_Schema end.

Definition v2_fixed_bytes (n : nat) (value : Value) : credM bytes :=
  b ← v2_as_bytes value;
  if (length b =? n)%nat then Ok b else Err CredentialV2Error_Schema.

Definition v2_uint (value : Value) : credM Z :=
  match value with
  | VInteger z => ok_or (try_into u64_max z) CredentialV2Error_Schema
  | _ => Err CredentialV2Error_Schema
  end.

(** [field] at a text key; [optional_field] is the one of [Cddl]. *)
Definition v2_field (entries : list (Value * Value)) (key : string) : credM Value :=
  ok_or (optional_field entries key) CredentialV2Error_Schema.

(** [field] at an integer key. *)
Fixpoint find_integer (entries : list (Value * Value)) (key : Z) : option Value :=
  match entries with
  | [] => None
  | (VInteger k, v) :: entries => if k =? key then Some v else find_integer entries key
  | _ :: entries => find_integer entries key
  end.
Definition v2_integer_field (entries : list (Value * Value)) (key : Z) : credM Value :=
  ok_or (find_integer entries key) CredentialV2Error_Schema.

Definition v2_text_field (entries : list (Value * Value)) (key : string) : credM string :=
  v2_field entries key ≫= v2_as_text.
Definition v2_bytes_field (n : nat) (entries : list (Value * Value)) (key : string) : credM bytes :=
  v2_field entries key ≫= v2_fixed_bytes n.
Definition v2_uint_field (entries : list (Value * Value)) (key : string) : credM Z :=
  v2_field entries key ≫= v2_uint.

Definition side_number (side : Side) : Z := match side with Side_Allocator => 0 | Side_Claimant => 1 end.
Definition v2_side (value : Value) : credM Side :=
  n ← v2_uint value;
  if n =? 0 then Ok Side_Allocator else if n =? 1 then Ok Side_Claimant else Err CredentialV2Error_Schema.

(** ** Canonical values *)

Section Canonical.
Context `{Cbor}.

(** [keys.insert(encoded)] over the entries, depth first. *)
Fixpoint contains_duplicate_map_key (value : Value) : credM bool :=
  match value with
  | VMap entries =>
      (fix go (keys : list bytes) entries :=
         match entries with
         | [] => Ok false
         | (key, child) :: entries =>
             encoded ← ok_or (to_canonical_vec key) CredentialV2Error_NonDeterministic;
             if bool_decide (encoded ∈ keys) then Ok true
             else
               in_key ← contains_duplicate_map_key key;
               if (in_key : bool) then Ok true
               else
                 in_child ← contains_duplicate_map_key child;
                 if (in_child : bool) then Ok true else go (encoded :: keys) entries
         end) [] entries
  | VArray values =>
      (fix go values := match values with
                        | [] => Ok false
                        | value :: values =>
                            duplicate ← contains_duplicate_map_key value;
                            if (duplicate : bool) then Ok true else go values
                        end) values
  | VTag _ value => contains_duplicate_map_key value
  | _ => Ok false
  end.

Definition decode_canonical (input : bytes) : credM Value :=
  '(value, position) ← ok_or (from_reader input) CredentialV2Error_MalformedCbor;
  if negb (position =? blen input) then Err CredentialV2Error_TrailingBytes
  else
    duplicate ← contains_duplicate_map_key value;
    if (duplicate : bool) then Err CredentialV2Error_DuplicateKey
    else
      canonical ← ok_or (to_canonical_vec value) CredentialV2Error_NonDeterministic;
      if negb (bool_decide (canonical = input)) then Err CredentialV2Error_NonDeterministic else Ok value.
End Canonical.

(** ** Objects *)

Definition CONTROL_PADDING_BYTES : Z := 4096.
Definition LARGE_PADDING_BYTES : Z := 64512.
Definition MAX_CONTROL_BODY : Z := 2048.
Definition MAX_LARGE_BODY : Z := 62000.

Inductive CredentialV2Kind : Type :=
| Kind_Offer
| Kind_IntentApprove
| Kind_IntentDecline
| Kind_Preparation
| Kind_ComparisonConfirmed
| Kind_BindingConfirmed
| Kind_Refusal
| Kind_FinalApprove
| Kind_FinalDecline
| Kind_Payload
| Kind_Receipt
| Kind_AccountSelect.
#[export] Instance CredentialV2Kind_eq_dec : EqDecision CredentialV2Kind.
Proof. solve_decision. Defined.

Definition Kind_ALL : list CredentialV2Kind :=
  [Kind_Offer; Kind_IntentApprove; Kind_IntentDecline; Kind_Preparation; Kind_ComparisonConfirmed;
   Kind_BindingConfirmed; Kind_Refusal; Kind_FinalApprove; Kind_FinalDecline; Kind_Payload; Kind_Receipt;
   Kind_AccountSelect].
Definition kind_number (k : CredentialV2Kind) : Z :=
  match k with
  | Kind_Offer => 0 | Kind_IntentApprove => 1 | Kind_IntentDecline => 2 | Kind_Preparation => 3
  | Kind_ComparisonConfirmed => 4 | Kind_BindingConfirmed => 5 | Kind_Refusal => 6 | Kind_FinalApprove => 7
  | Kind_FinalDecline => 8 | Kind_Payload => 9 | Kind_Receipt => 10 | Kind_AccountSelect => 11
  end.
Definition is_large (k : CredentialV2Kind) : bool :=
  match k with Kind_Offer | Kind_Payload | Kind_Receipt => true | _ => false end.
Definition kind_from_number (value : Z) : credM CredentialV2Kind :=
  ok_or (Kind_ALL !! Z.to_nat value) CredentialV2Error_Schema.

Record CredentialV2Object := mkCredentialV2Object {
  ob_kind : CredentialV2Kind;
  ob_intent_digest : bytes;
  ob_body : bytes;
  ob_bytes : bytes;
  ob_content_hash : bytes
}.

Definition capacity (k : CredentialV2Kind) : Z := if is_large k then LARGE_PADDING_BYTES else CONTROL_PADDING_BYTES.

Definition validate_body (k : CredentialV2Kind) (length : Z) : credM unit :=
  let maximum := if is_large k then MAX_LARGE_BODY else MAX_CONTROL_BODY in
  if (length =? 0) || (maximum <? length) then Err CredentialV2Error_Size else Ok tt.

Definition padded (k : CredentialV2Kind) (body : bytes) : bytes :=
  body ++ replicate (Z.to_nat (capacity k) - length body) 0.

Definition object_entries (k : CredentialV2Kind) (intent_digest body : bytes) : list (Z * Value) :=
  [(0, VInteger 2); (1, VInteger (kind_number k)); (2, VBytes intent_digest); (3, VInteger (blen body));
   (4, VBytes (padded k body))].

Section Objects.
Context `{Cbor, Sha256}.

Definition CredentialV2Object_new (k : CredentialV2Kind) (intent_digest body : bytes) : credM CredentialV2Object :=
  _ ← validate_body k (blen body);
  octets ← ok_or (to_canonical_vec (int_map (object_entries k intent_digest body))) CredentialV2Error_Schema;
  Ok (mkCredentialV2Object k intent_digest body octets (sha256 octets)).

Definition decode_object (input : bytes) : credM CredentialV2Object :=
  value ← decode_canonical input;
  entries ← v2_map_entries value;
  if negb (length entries =? 5)%nat then Err CredentialV2Error_Schema
  else
    version ← v2_integer_field entries 0 ≫= v2_uint;
    if negb (version =? 2) then Err CredentialV2Error_Schema
    else
      kind ← (v2_integer_field entries 1 ≫= v2_uint) ≫= kind_from_number;
      intent_digest ← v2_integer_field entries 2 ≫= v2_fixed_bytes 32;
      body_len ← v2_integer_field entries 3 ≫= v2_uint;
      _ ← validate_body kind body_len;
      padding ← v2_integer_field entries 4 ≫= v2_as_bytes;
      if negb (blen padding =? capacity kind) ||
         existsb (fun byte => negb (byte =? 0)) (drop (Z.to_nat body_len) padding)
      then Err CredentialV2Error_Schema
      else
        object ← CredentialV2Object_new kind intent_digest (take (Z.to_nat body_len) padding);
        if negb (bool_decide (ob_bytes object = input)) then Err CredentialV2Error_NonDeterministic else Ok object.
End Objects.

(** ** Lemmas of the credential/v2 recognisers

    What [decode_canonical] accepts, that written values are accepted and read
    back with their fields, and the inverse of the padded objects. *)

(** ** Canonical values *)

Section Canonical.
Context `{Cbor}.

Local Ltac same_result := split; by intros [= <-].

(** The two duplicate checks of the crate agree. *)
Lemma duplicate_keys_agree : forall v b, contains_duplicate_map_key v = Ok b <-> has_duplicate_key v = Ok b.
Proof.
  fix IH 1. intros [z|s|z|s|x| |t v|l|l] b; [clear IH; simpl; same_result..| | |].
  - exact (IH v b).
  - simpl. induction l as [|v l IHl]; simpl; [same_result|].
    rewrite !bind_ok. setoid_rewrite IH.
    split; intros (a & Ha & Hk); exists a; (split; [done|]); destruct a; by apply IHl || (revert Hk; by intros [= <-]).
  - simpl. generalize (@nil bytes). induction l as [|[k v] l IHl]; intros keys; simpl; [same_result|].
    destruct (to_canonical_vec k); simpl; [|done]. case_bool_decide; [same_result|].
    rewrite !bind_ok. setoid_rewrite IH.
    split; intros (a & Ha & Hk); exists a; (split; [done|]); destruct a; try (revert Hk; by intros [= <-]);
      revert Hk; rewrite !bind_ok; setoid_rewrite IH; intros (a' & Ha' & Hk); exists a'; (split; [done|]);
      destruct a'; by apply IHl || (revert Hk; by intros [= <-]).
Qed.

Lemma decode_canonical_ok input v :
  decode_canonical input = Ok v <->
  from_reader input = Some (v, blen input) /\ to_canonical_vec v = Some input /\ has_duplicate_key v = Ok false.
Proof.
  rewrite <- duplicate_keys_agree. unfold decode_canonical.
  destruct (from_reader input) as [[v' n]|]; simpl; [|naive_solver].
  destruct (n =? blen input) eqn:Hn; simpl; bool_to_prop; [subst n|naive_solver].
  destruct (to_canonical_vec v') as [w|] eqn:Hb; simpl;
    destruct (contains_duplicate_map_key v') as [[]| |] eqn:Hd; simpl;
    try (split; [done|]; intros ([= ->] & ? & ?); congruence).
  case_bool_decide; simpl; (split; [|intros ([= ->] & ? & ?); congruence]); naive_solver.
Qed.

Context `{!CborLaws}.

Lemma decode_plain v b : plain v = true -> to_canonical_vec v = Some b -> decode_canonical b = Ok v.
Proof. intros Hv Hb. apply decode_canonical_ok. auto using plain_read, plain_no_duplicate. Qed.

Lemma decode_text_map l b : plain_entries l -> to_canonical_vec (text_map l) = Some b ->
  exists l', l' ≡ₚ l /\ decode_canonical b = Ok (text_map l').
Proof.
  intros Hpl Hb. destruct (map_read _ _ Hpl Hb) as (l' & Hp & Hr). exists l'. split; [done|].
  apply decode_canonical_ok. split_and!; [done|by rewrite (map_order l l')|].
  apply plain_entries_no_duplicate. destruct Hpl. split; by rewrite Hp.
Qed.

(** Plain keys, pairwise different, and plain contents. *)
Lemma plain_pairs_no_duplicate es :
  NoDup (map fst es) -> Forall (fun e => plain e.1 = true /\ plain e.2 = true) es -> has_duplicate_key (VMap es) = Ok false.
Proof.
  intros Hnd Hpl. rewrite has_duplicate_key_map.
  assert (forall keys, (forall k ck, k ∈ map fst es -> to_canonical_vec k = Some ck -> ck ∉ keys) ->
    duplicate_in keys es = Ok false) as Hgen; [|apply Hgen; intros; by apply not_elem_of_nil].
  induction es as [|[k v] es IH]; intros keys Hkeys; [done|].
  apply NoDup_cons in Hnd as [Hk Hnd]. apply Forall_cons in Hpl as [[Hpk Hv] Hpl]. simpl in *.
  apply duplicate_in_cons. destruct (plain_written k Hpk) as [ck Hck].
  exists ck. split_and!; [done|apply (Hkeys k); [by left|done]|by apply plain_no_duplicate..|].
  apply IH; [done..|]. intros k' ck' Hin Hck'. apply not_elem_of_cons. split; [|apply (Hkeys k'); [by right|done]].
  intros ->. assert (k' = k) as ->; [|done].
  assert (plain k' = true) as Hk' by (apply list_elem_of_fmap in Hin as ([? ?] & -> & Hin);
    rewrite Forall_forall in Hpl; by apply Hpl in Hin as [? ?]).
  by eapply plain_written_inj.
Qed.

Context `{!CborIntLaws}.

Lemma decode_int_map l b : int_entries l -> to_canonical_vec (int_map l) = Some b ->
  exists l', l' ≡ₚ l /\ decode_canonical b = Ok (int_map l').
Proof.
  intros Hin Hb. destruct (int_map_read _ _ Hin Hb) as (l' & Hp & Hr). exists l'. split; [done|].
  apply decode_canonical_ok. split_and!; [done|by rewrite (int_map_order l l')|].
  destruct Hin as [Hnd Hpl]. apply plain_pairs_no_duplicate; rewrite ?map_map; simpl.
  - rewrite <- (map_map fst VInteger). apply NoDup_fmap_2; [by intros ? ? [= ->]|by rewrite Hp].
  - apply Forall_fmap, Forall_forall. intros kv Hkv. rewrite Forall_forall in Hpl. apply Hpl. by rewrite <- Hp.
Qed.
End Canonical.

(** ** Fields *)

Lemma optional_field_texts l l' k :
  NoDup (map fst l) -> l' ≡ₚ l -> optional_field (map (fun kv => (VText kv.1, kv.2)) l') k = optional_field (texts l) k.
Proof. apply optional_field_perm. Qed.

Lemma find_integer_elem (l : list (Z * Value)) k v : NoDup (map fst l) ->
  find_integer (map (fun kv => (VInteger kv.1, kv.2)) l) k = Some v <-> (k, v) ∈ l.
Proof.
  induction l as [|[k' v'] l IH]; simpl; intros Hnd; [split; [done|by intros ?%elem_of_nil]|].
  apply NoDup_cons in Hnd as [Hk Hnd]. rewrite elem_of_cons. destruct (k' =? k) eqn:Heq; bool_to_prop.
  - subst. split; [intros [= <-]; by left|]. intros [[= ->]|Hin]; [done|].
    destruct Hk. apply list_elem_of_fmap. by exists (k, v).
  - rewrite IH by done. split; [by right|]. intros [[= -> ->]|?]; done.
Qed.
Lemma find_integer_perm (l l' : list (Z * Value)) k : NoDup (map fst l) -> l' ≡ₚ l ->
  find_integer (map (fun kv => (VInteger kv.1, kv.2)) l') k = find_integer (map (fun kv => (VInteger kv.1, kv.2)) l) k.
Proof.
  intros Hnd Hp. assert (NoDup (map fst l')) by (by rewrite Hp). apply option_eq. intros v.
  rewrite !find_integer_elem by done. by rewrite Hp.
Qed.

Lemma v2_uint_integer z : 0 <= z <= u64_max -> v2_uint (VInteger z) = Ok z.
Proof. intros Hz. unfold v2_uint. apply ok_or_ok, try_into_some. lia. Qed.
Lemma v2_uint_ok v z : v2_uint v = Ok z <-> v = VInteger z /\ 0 <= z <= u64_max.
Proof. unfold v2_uint. destruct v; simpl; rewrite ?ok_or_ok, ?try_into_some; naive_solver. Qed.
Lemma v2_fixed_bytes_ok n v b : v2_fixed_bytes n v = Ok b <-> v = VBytes b /\ length b = n.
Proof.
  unfold v2_fixed_bytes, v2_as_bytes. destruct v; simpl; try naive_solver.
  destruct (_ =? _)%nat eqn:E; [apply Nat.eqb_eq in E|apply Nat.eqb_neq in E]; naive_solver.
Qed.
Lemma v2_side_number side : v2_side (VInteger (side_number side)) = Ok side.
Proof. by destruct side. Qed.
Lemma v2_side_ok v side : v2_side v = Ok side <-> v = VInteger (side_number side).
Proof.
  split; [|intros ->; apply v2_side_number]. unfold v2_side. intros (n & [-> Hn]%v2_uint_ok & Hk)%bind_ok.
  destruct (n =? 0) eqn:E0; [|destruct (n =? 1) eqn:E1]; bool_to_prop; by simplify_eq/=.
Qed.

(** ** Objects *)

Lemma kind_number_inv k : kind_from_number (kind_number k) = Ok k.
Proof. by destruct k. Qed.
Lemma kind_number_range k : 0 <= kind_number k <= 11.
Proof. destruct k; simpl; lia. Qed.
Lemma kind_from_number_ok z k : 0 <= z -> kind_from_number z = Ok k <-> z = kind_number k.
Proof.
  intros Hz. split; [|intros ->; apply kind_number_inv]. unfold kind_from_number. intros Hk%ok_or_ok.
  assert (Z.to_nat z < 12)%nat as Hlt by (by apply lookup_lt_Some in Hk).
  assert (z ∈ [0; 1; 2; 3; 4; 5; 6; 7; 8; 9; 10; 11]) as Hin.
  { rewrite !elem_of_cons. lia. }
  repeat (apply elem_of_cons in Hin as [->|Hin]; [by simplify_eq/=|]). by apply elem_of_nil in Hin.
Qed.

Lemma validate_body_ok k n u : validate_body k n = Ok u <->
  n <> 0 /\ n <= (if is_large k then MAX_LARGE_BODY else MAX_CONTROL_BODY).
Proof.
  unfold validate_body. destruct u. destruct (_ || _) eqn:E; [apply orb_true_iff in E as [?|?]|]; bool_to_prop; naive_solver lia.
Qed.

Lemma body_bound_capacity k : (if is_large k then MAX_LARGE_BODY else MAX_CONTROL_BODY) <= capacity k.
Proof. by destruct k. Qed.

Lemma padded_take k body : take (length body) (padded k body) = body.
Proof. unfold padded. apply take_app_length. Qed.
Lemma padded_length k body : blen body <= capacity k -> blen (padded k body) = capacity k.
Proof. unfold padded, blen. rewrite length_app, length_replicate. lia. Qed.
Lemma padded_zeros k body : existsb (fun byte => negb (byte =? 0)) (drop (length body) (padded k body)) = false.
Proof.
  unfold padded. rewrite drop_app_length. generalize (Z.to_nat (capacity k) - length body)%nat.
  induction n; done.
Qed.

#[global] Arguments v2_uint : simpl never.
#[global] Arguments v2_fixed_bytes : simpl never.
#[global] Arguments v2_side : simpl never.
#[global] Arguments kind_from_number : simpl never.
#[global] Arguments validate_body : simpl never.

Section Objects.
Context `{Cbor, Sha256, !CborLaws, !CborIntLaws}.

Lemma object_entries_plain k digest body : blen body <= capacity k -> int_entries (object_entries k digest body).
Proof.
  intros Hb. split.
  - apply (bool_decide_unpack _). by vm_compute.
  - pose proof (kind_number_range k). assert (capacity k <= 64512) by (by destruct k). pose proof (blen_nonneg body).
    repeat constructor; simpl; rewrite ?andb_true_iff, ?Z.leb_le; unfold u64_max; lia.
Qed.

Lemma object_new_ok k digest body o : CredentialV2Object_new k digest body = Ok o <->
  0 < blen body <= (if is_large k then MAX_LARGE_BODY else MAX_CONTROL_BODY) /\
  exists octets, to_canonical_vec (int_map (object_entries k digest body)) = Some octets /\
    o = mkCredentialV2Object k digest body octets (sha256 octets).
Proof.
  unfold CredentialV2Object_new. rewrite bind_ok. setoid_rewrite bind_ok. setoid_rewrite validate_body_ok.
  setoid_rewrite ok_or_ok. pose proof (blen_nonneg body). split.
  - intros (_ & ? & octets & ? & [= <-]). split; [lia|eauto].
  - intros (? & octets & ? & ->). exists tt. split; [lia|eauto].
Qed.

Lemma object_field k digest body l' key : l' ≡ₚ object_entries k digest body ->
  find_integer (map (fun kv => (VInteger kv.1, kv.2)) l') key =
  find_integer (map (fun kv => (VInteger kv.1, kv.2)) (object_entries k digest body)) key.
Proof. apply find_integer_perm. apply (bool_decide_unpack _). by vm_compute. Qed.

(** Decoding inverts construction: what is accepted is what was built. *)
Lemma object_inverse b o : decode_object b = Ok o <->
  length (ob_intent_digest o) = 32%nat /\
  CredentialV2Object_new (ob_kind o) (ob_intent_digest o) (ob_body o) = Ok o /\ ob_bytes o = b.
Proof.
  split.
  - unfold decode_object. intros (v & _ & (es & _ & Hd)%bind_ok)%bind_ok. case_hyp.
    apply bind_ok in Hd as (ver & _ & Hd). case_hyp.
    apply bind_ok in Hd as (k & _ & (digest & (? & _ & [-> Hlen]%v2_fixed_bytes_ok)%bind_ok & Hd)%bind_ok).
    apply bind_ok in Hd as (n & _ & (u & _ & (pad & _ & Hd)%bind_ok)%bind_ok). case_hyp.
    apply bind_ok in Hd as (o' & Ho & Hd). case_hyp. bool_to_prop.
    apply object_new_ok in Ho as Ho'. destruct Ho' as (_ & octets & _ & ->). done.
  - intros (Hlen & Ho & Hb). apply object_new_ok in Ho as Ho'. destruct Ho' as (Hsize & octets & Hw & Heq).
    destruct o as [k digest body b' h]. simplify_eq/=.
    assert (blen body <= capacity k) as Hcap by (pose proof (body_bound_capacity k); lia).
    destruct (decode_int_map _ _ (object_entries_plain k digest body Hcap) Hw) as (l' & Hp & Hdec).
    unfold decode_object. rewrite Hdec. simpl. rewrite length_map, (Permutation_length Hp). simpl.
    unfold v2_integer_field. rewrite !(object_field k digest body l') by done. simpl.
    rewrite (v2_uint_integer (kind_number k)) by (pose proof (kind_number_range k); unfold u64_max; lia). simpl.
    rewrite kind_number_inv. simpl. rewrite (proj2 (v2_fixed_bytes_ok 32 (VBytes digest) digest)) by done. simpl.
    rewrite (v2_uint_integer (blen body)) by (assert (capacity k <= 64512) by (by destruct k); unfold u64_max; lia). simpl.
    rewrite (proj2 (validate_body_ok k (blen body) tt)) by lia. simpl.
    rewrite padded_length, Z.eqb_refl by done. unfold blen. rewrite Nat2Z.id, padded_zeros, padded_take. simpl.
    rewrite Ho. simpl. by rewrite bool_decide_eq_true_2.
Qed.
End Objects.

(** A record of distinct texts and plain values is read back with its fields. *)
Lemma read_text_map `{Cbor, !CborLaws} l b : plain_entries l -> to_canonical_vec (text_map l) = Some b ->
  exists es, decode_canonical b = Ok (VMap es) /\ length es = length l /\
    forall k, optional_field es k = optional_field (texts l) k.
Proof.
  intros Hpl Hb. destruct (decode_text_map l b Hpl Hb) as (l' & Hp & Hd). eexists. split; [exact Hd|].
  rewrite length_map. split; [by apply Permutation_length|]. intros k. by rewrite (optional_field_texts l l') by (apply Hpl || done).
Qed.
