(* ===== verification/CredFrame.v ===== *)
(** * The frames of credential/v2 ([src/credential_v2/frame.rs])

    CPace, Finished and sealed frames with their codec, and the theorem that
    decoding inverts encoding. *)

From S2P Require Import Prelude External Wire Cddl WireCodec WireLaws CredCore.

Definition MAX_CIPHERTEXT : Z := 69572.

Inductive CredentialV2Frame : Type :=
| V2Frame_Cpace (message : CpaceMessage)
| V2Frame_Finished (side : Side) (value : bytes)
| V2Frame_Sealed (direction : Direction) (counter : Z) (ciphertext : bytes).
#[export] Instance CpaceMessage_eq_dec : EqDecision CpaceMessage.
Proof. solve_decision. Defined.
#[export] Instance CredentialV2Frame_eq_dec : EqDecision CredentialV2Frame.
Proof. solve_decision. Defined.

(** [CredentialV2Frame::cpace]. *)
Definition frame_cpace (message : CpaceMessage) : credM CredentialV2Frame :=
  if (blen (cm_associated_data message) =? 0) || (256 <? blen (cm_associated_data message))
  then Err CredentialV2Error_Size
  else Ok (V2Frame_Cpace message).
Definition cpace_message (f : CredentialV2Frame) : option CpaceMessage :=
  match f with V2Frame_Cpace message => Some message | _ => None end.
Definition frame_direction (f : CredentialV2Frame) : option Direction :=
  match f with V2Frame_Sealed direction _ _ => Some direction | _ => None end.
Definition frame_finished (f : CredentialV2Frame) : option (Side * bytes) :=
  match f with V2Frame_Finished side value => Some (side, value) | _ => None end.
Definition frame_sealed (f : CredentialV2Frame) : option (Direction * Z * bytes) :=
  match f with V2Frame_Sealed direction counter ciphertext => Some (direction, counter, ciphertext) | _ => None end.

Definition v2_direction_number (d : Direction) : Z :=
  match d with Direction_AllocatorToClaimant => 0 | Direction_ClaimantToAllocator => 1 end.
Definition v2_direction (value : Value) : credM Direction :=
  n ← v2_uint value;
  if n =? 0 then Ok Direction_AllocatorToClaimant
  else if n =? 1 then Ok Direction_ClaimantToAllocator else Err CredentialV2Error_Schema.

Definition cpace_parts (message : CpaceMessage) : Value :=
  VArray [VInteger 2; VInteger (side_number (cm_side message)); VBytes (cm_share message);
          VBytes (cm_associated_data message)].
Definition cpace_entries (side : Side) (nested : bytes) : list (string * Value) :=
  [("v", VInteger 2); ("kind", VText "cpace"); ("role", VInteger (side_number side)); ("message", VBytes nested)].
Definition finished_entries (side : Side) (value : bytes) : list (string * Value) :=
  [("v", VInteger 2); ("kind", VText "finished"); ("role", VInteger (side_number side)); ("value", VBytes value)].
Definition sealed_entries (direction : Direction) (counter : Z) (ciphertext : bytes) : list (string * Value) :=
  [("v", VInteger 2); ("kind", VText "sealed"); ("direction", VInteger (v2_direction_number direction));
   ("counter", VInteger counter); ("ciphertext", VBytes ciphertext)].

Definition ciphertext_fits (ciphertext : bytes) : bool := (17 <=? blen ciphertext) && (blen ciphertext <=? MAX_CIPHERTEXT).

Section Frames.
Context `{Cbor}.

Definition encode_frame (frame : CredentialV2Frame) : credM bytes :=
  entries ←
    match frame with
    | V2Frame_Cpace message =>
        if (blen (cm_associated_data message) =? 0) || (256 <? blen (cm_associated_data message))
        then Err CredentialV2Error_Size
        else
          nested ← ok_or (to_canonical_vec (cpace_parts message)) CredentialV2Error_Schema;
          Ok (cpace_entries (cm_side message) nested)
    | V2Frame_Finished side value => Ok (finished_entries side value)
    | V2Frame_Sealed direction counter ciphertext =>
        if negb (ciphertext_fits ciphertext) then Err CredentialV2Error_Size
        else Ok (sealed_entries direction counter ciphertext)
    end;
  ok_or (to_canonical_vec (text_map entries)) CredentialV2Error_Schema.

Definition cpace_of_entries (entries : list (Value * Value)) : credM CredentialV2Frame :=
  outer_side ← v2_field entries "role" ≫= v2_side;
  nested_bytes ← v2_field entries "message" ≫= v2_as_bytes;
  nested ← decode_canonical nested_bytes;
  match nested with
  | VArray [version; role; share; associated_data] =>
      nested_side ← v2_side role;
      associated_data ← v2_as_bytes associated_data;
      version ← v2_uint version;
      if negb (version =? 2) || negb (bool_decide (nested_side = outer_side)) ||
         (blen associated_data =? 0) || (256 <? blen associated_data)
      then Err CredentialV2Error_Schema
      else
        share ← v2_fixed_bytes 32 share;
        Ok (V2Frame_Cpace (mkCpaceMessage outer_side share associated_data))
  | _ => Err CredentialV2Error_Schema
  end.

Definition frame_of_entries (entries : list (Value * Value)) : credM CredentialV2Frame :=
  version ← v2_field entries "v" ≫= v2_uint;
  kind ← v2_field entries "kind" ≫= v2_as_text;
  if negb (version =? 2) then Err CredentialV2Error_Schema
  else if bool_decide (kind = "cpace"%string) && (length entries =? 4)%nat then cpace_of_entries entries
  else if bool_decide (kind = "finished"%string) && (length entries =? 4)%nat then
    side ← v2_field entries "role" ≫= v2_side;
    value ← v2_field entries "value" ≫= v2_fixed_bytes 64;
    Ok (V2Frame_Finished side value)
  else if bool_decide (kind = "sealed"%string) && (length entries =? 5)%nat then
    ciphertext ← v2_field entries "ciphertext" ≫= v2_as_bytes;
    if negb (ciphertext_fits ciphertext) then Err CredentialV2Error_Size
    else
      direction ← v2_field entries "direction" ≫= v2_direction;
      counter ← v2_field entries "counter" ≫= v2_uint;
      Ok (V2Frame_Sealed direction counter ciphertext)
  else Err CredentialV2Error_Schema.

Definition decode_frame (input : bytes) : credM CredentialV2Frame :=
  value ← decode_canonical input;
  entries ← v2_map_entries value;
  frame ← frame_of_entries entries;
  encoded ← encode_frame frame;
  if negb (bool_decide (encoded = input)) then Err CredentialV2Error_NonDeterministic else Ok frame.
End Frames.

(** ** Inverse *)

(** Rust's array sizes and counter width. *)
Definition frame_typed (f : CredentialV2Frame) : Prop :=
  match f with
  | V2Frame_Cpace m => length (cm_share m) = 32%nat
  | V2Frame_Finished _ value => length value = 64%nat
  | V2Frame_Sealed _ counter _ => 0 <= counter <= u64_max
  end.

#[global] Arguments v2_direction : simpl never.
Lemma v2_direction_number_inv d : v2_direction (VInteger (v2_direction_number d)) = Ok d.
Proof. by destruct d. Qed.

Section Reading.
Context `{Cbor, !CborLaws}.

Lemma cpace_entries_plain side nested : plain_entries (cpace_entries side nested).
Proof. split; [by apply (bool_decide_unpack _); vm_compute|]. destruct side; by repeat constructor. Qed.
Lemma finished_entries_plain side value : plain_entries (finished_entries side value).
Proof. split; [by apply (bool_decide_unpack _); vm_compute|]. destruct side; by repeat constructor. Qed.
Lemma sealed_entries_plain d counter c : 0 <= counter <= u64_max -> plain_entries (sealed_entries d counter c).
Proof.
  intros Hc. split; [by apply (bool_decide_unpack _); vm_compute|].
  repeat constructor; simpl; try by destruct d. rewrite andb_true_iff, !Z.leb_le. lia.
Qed.
Lemma cpace_parts_plain m : plain (cpace_parts m) = true.
Proof. unfold cpace_parts. by destruct (cm_side m). Qed.

Lemma cpace_read side nested m es b :
  to_canonical_vec (cpace_parts m) = Some nested -> frame_typed (V2Frame_Cpace m) ->
  0 < blen (cm_associated_data m) <= 256 -> cm_side m = side ->
  (forall k, optional_field es k = optional_field (texts (cpace_entries side nested)) k) ->
  cpace_of_entries es = Ok b <-> b = V2Frame_Cpace m.
Proof.
  intros Hn Hty Had <- Hf. unfold cpace_of_entries, v2_field. rewrite !Hf. simpl. rewrite v2_side_number. simpl.
  rewrite (decode_plain _ _ (cpace_parts_plain m) Hn). simpl. rewrite v2_side_number. simpl.
  rewrite ?(v2_uint_integer 2) by done. simpl. rewrite bool_decide_eq_true_2 by done. simpl.
  destruct (_ =? 0) eqn:E0; bool_to_prop; [lia|]. destruct (256 <? _) eqn:E1; bool_to_prop; [lia|]. simpl.
  rewrite (proj2 (v2_fixed_bytes_ok 32 (VBytes (cm_share m)) (cm_share m))) by done. simpl. destruct m. naive_solver.
Qed.

(** Decoding accepts exactly the encodings. *)
Lemma frame_inverse b f : decode_frame b = Ok f <-> frame_typed f /\ encode_frame f = Ok b.
Proof.
  split.
  - unfold decode_frame. intros (v & _ & (es & _ & (f' & Hof & (b' & Hb & Hd)%bind_ok)%bind_ok)%bind_ok)%bind_ok.
    case_hyp. bool_to_prop. subst b'. split; [|done].
    unfold frame_of_entries in Hof. apply bind_ok in Hof as (ver & _ & (kind & _ & Hof)%bind_ok). repeat case_hyp.
    + unfold cpace_of_entries in Hof. apply bind_ok in Hof as (s & _ & (nb & _ & (nv & _ & Hof)%bind_ok)%bind_ok).
      repeat case_hyp. apply bind_ok in Hof as (s' & _ & (ad & _ & (ver' & _ & Hof)%bind_ok)%bind_ok). case_hyp.
      apply bind_ok in Hof as (share & [_ Hlen]%v2_fixed_bytes_ok & [= <-]). done.
    + apply bind_ok in Hof as (s & _ & (value & (? & _ & [_ Hlen]%v2_fixed_bytes_ok)%bind_ok & [= <-])%bind_ok). done.
    + apply bind_ok in Hof as (c & _ & Hof). case_hyp.
      apply bind_ok in Hof as (d & _ & (n & (? & _ & [_ Hn]%v2_uint_ok)%bind_ok & [= <-])%bind_ok). done.
  - intros [Hty He]. pose proof He as He'. unfold encode_frame in He'. apply bind_ok in He' as (es & Hes & Hw%ok_or_ok).
    unfold decode_frame. assert (frame_of_entries_ok : forall vs,
      length vs = length es -> (forall k, optional_field vs k = optional_field (texts es) k) ->
      frame_of_entries vs = Ok f /\ plain_entries es).
    { intros vs Hlen Hf. unfold frame_of_entries, v2_field. rewrite !Hf, Hlen. destruct f as [m|side value|d n c]; simpl in *.
      - case_hyp. apply orb_false_iff in Heqb0 as [? ?]. bool_to_prop. pose proof (blen_nonneg (cm_associated_data m)).
        apply bind_ok in Hes as (nested & Hn%ok_or_ok & [= <-]). simpl. split; [|apply cpace_entries_plain].
        rewrite ?(v2_uint_integer 2) by done. simpl. eapply cpace_read; [done..|lia|done|done|done].
      - injection Hes as <-. simpl. split; [|apply finished_entries_plain]. rewrite ?(v2_uint_integer 2) by done. simpl.
        rewrite v2_side_number. simpl. by rewrite (proj2 (v2_fixed_bytes_ok 64 (VBytes value) value)).
      - case_hyp. simpl. split; [|by apply sealed_entries_plain]. rewrite ?(v2_uint_integer 2) by done. simpl.
        rewrite Heqb0. simpl. rewrite v2_direction_number_inv. simpl. by rewrite v2_uint_integer. }
    assert (plain_entries es) as Hpl by (by destruct (frame_of_entries_ok (texts es) (length_map _ _) (fun k => eq_refl))).
    destruct (read_text_map es b Hpl Hw) as (vs & Hd & Hlen & Hf). rewrite Hd. simpl.
    destruct (frame_of_entries_ok vs Hlen Hf) as [-> _]. simpl. rewrite He. simpl. by rewrite bool_decide_eq_true_2.
Qed.
End Reading.
