(* ===== verification/CredDisplay.v ===== *)
(** * Authenticated display of credential/v2 ([src/credential_v2/display.rs])

    First the operations of [str] the recognisers use, on the octets of a text.
    Then the recognisers of application identifiers and origins, the claims of
    a signed offer with their validation, and the recognition of an offer
    against the live authority.  The consumer's parser and verifier are classes
    over their own state. *)

From S2P Require Import Prelude External Wire WireCodec CbclProtocol CredCore.

(** [strip_prefix], [find] of a character, [rsplit_once] of a character. *)
Fixpoint strip_octets (p s : bytes) : option bytes :=
  match p, s with
  | [], _ => Some s
  | a :: p, b :: s => if a =? b then strip_octets p s else None
  | _ :: _, [] => None
  end.
Fixpoint find_octet (c : Z) (s : bytes) : option nat :=
  match s with
  | [] => None
  | x :: s => if x =? c then Some O else S <$> find_octet c s
  end.
Fixpoint rsplit_once (c : Z) (s : bytes) : option (bytes * bytes) :=
  match s with
  | [] => None
  | x :: s =>
      match rsplit_once c s with
      | Some (a, b) => Some (x :: a, b)
      | None => if x =? c then Some ([], s) else None
      end
  end.
Definition contains_octet (c : Z) (s : bytes) : bool := existsb (Z.eqb c) s.

(** [is_ascii_lowercase], [to_ascii_lowercase], [to_ascii_uppercase]. *)
Definition ascii_lowercase (c : Z) : bool := (97 <=? c) && (c <=? 122).
Definition ascii_uppercase (c : Z) : bool := (65 <=? c) && (c <=? 90).
Definition to_lower (s : bytes) : bytes := map (fun c => if ascii_uppercase c then c + 32 else c) s.
Definition to_upper (s : bytes) : bytes := map (fun c => if ascii_lowercase c then c - 32 else c) s.

(** [a >= b] on byte strings. *)
Definition octets_ge (a b : bytes) : bool := leb b a.
(** [windows(2).any(|pair| pair[0] >= pair[1])]. *)
Fixpoint any_descent (l : list bytes) : bool :=
  match l with
  | a :: (b :: _) as l => octets_ge a b || any_descent l
  | _ => false
  end.

(** ** Splitting *)

(** The pieces with separators between them. *)
Fixpoint join_with (c : Z) (l : list bytes) : bytes :=
  match l with
  | [] => []
  | [p] => p
  | p :: l => p ++ c :: join_with c l
  end.

Lemma strip_octets_some p s r : strip_octets p s = Some r <-> s = p ++ r.
Proof.
  revert s. induction p as [|a p IH]; intros s; simpl; [naive_solver|].
  destruct s as [|b s]; [naive_solver|]. destruct (a =? b) eqn:E; bool_to_prop; [rewrite IH|]; naive_solver.
Qed.

Lemma split_on_cons c l : exists p ps, split_on c l = p :: ps.
Proof. induction l as [|x l (p & ps & IH)]; simpl; [eauto|]. rewrite IH. destruct (x =? c); eauto. Qed.

Lemma join_split c l : join_with c (split_on c l) = l.
Proof.
  induction l as [|x l IH]; simpl; [done|]. destruct (split_on_cons c l) as (p & ps & E). rewrite E in *.
  destruct (x =? c) eqn:Ex; bool_to_prop; [by rewrite Ex, <- IH|].
  destruct ps; simpl in *; by rewrite IH.
Qed.

Lemma split_piece c p : c ∉ p -> split_on c p = [p].
Proof.
  induction p as [|x p IH]; simpl; [done|]. intros [Hx Hp]%not_elem_of_cons. rewrite IH by done.
  destruct (x =? c) eqn:E; bool_to_prop; [congruence|done].
Qed.
Lemma split_app c p l : c ∉ p -> split_on c (p ++ c :: l) = p :: split_on c l.
Proof.
  induction p as [|x p IH]; simpl.
  - intros _. destruct (split_on_cons c l) as (q & qs & ->). by rewrite Z.eqb_refl.
  - intros [Hx Hp]%not_elem_of_cons. rewrite IH by done. destruct (x =? c) eqn:E; bool_to_prop; [congruence|done].
Qed.

Lemma split_join c ps : ps <> [] -> Forall (fun p => c ∉ p) ps -> split_on c (join_with c ps) = ps.
Proof.
  intros Hne Hps. induction Hps as [|p ps Hp Hps IH]; [done|]. destruct ps as [|q ps]; [by apply split_piece|].
  change (join_with c (p :: q :: ps)) with (p ++ c :: join_with c (q :: ps)). rewrite split_app by done. by rewrite IH.
Qed.

Lemma split_on_fresh c l : Forall (fun p => c ∉ p) (split_on c l).
Proof.
  induction l as [|x l IH]; simpl; [by repeat constructor; apply not_elem_of_nil|].
  destruct (split_on_cons c l) as (p & ps & E). rewrite E in *. apply Forall_cons in IH as [Hp Hps].
  destruct (x =? c) eqn:Ex; bool_to_prop; repeat constructor; try done; [apply not_elem_of_nil|].
  apply not_elem_of_cons. naive_solver.
Qed.

Lemma elem_of_join c x l : x ∈ join_with c l -> x = c \/ exists p, p ∈ l /\ x ∈ p.
Proof.
  induction l as [|p l IH]; simpl; [by intros ?%elem_of_nil|]. destruct l as [|q l].
  - intros Hx. right. exists p. set_solver.
  - intros [Hx|[->|Hx]%elem_of_cons]%elem_of_app; [right; exists p; set_solver|by left|].
    destruct (IH Hx) as [?|(p' & Hp' & Hx')]; [by left|right]. exists p'. set_solver.
Qed.

(** ** Searching *)

Lemma find_octet_none c s : find_octet c s = None <-> c ∉ s.
Proof.
  induction s as [|x s IH]; simpl; [split; [intros _; apply not_elem_of_nil|done]|].
  rewrite not_elem_of_cons. destruct (x =? c) eqn:E; bool_to_prop; [naive_solver|].
  destruct (find_octet c s); simpl; naive_solver.
Qed.
Lemma find_octet_app c a b : c ∉ a -> find_octet c (a ++ c :: b) = Some (length a).
Proof.
  induction a as [|x a IH]; simpl; [by rewrite Z.eqb_refl|]. intros [Hx Ha]%not_elem_of_cons.
  destruct (x =? c) eqn:E; bool_to_prop; [congruence|]. by rewrite IH.
Qed.
Lemma find_octet_some c s n : find_octet c s = Some n -> exists b, s = take n s ++ c :: b /\ c ∉ take n s.
Proof.
  revert n. induction s as [|x s IH]; simpl; [done|]. intros n. destruct (x =? c) eqn:E; bool_to_prop.
  - intros [= <-]. subst. exists s. split; [done|apply not_elem_of_nil].
  - destruct (find_octet c s) as [m|] eqn:Em; [|done]. intros [= <-]. destruct (IH m) as (b & Hb & Hn); [done|].
    exists b. simpl. split; [by rewrite <- Hb|]. apply not_elem_of_cons. naive_solver.
Qed.
Lemma find_octet_nth c s n : find_octet c s = Some n -> (n < length s)%nat /\ nth n s 0 = c.
Proof.
  revert n. induction s as [|x s IH]; simpl; [done|]. intros n. destruct (x =? c) eqn:E; bool_to_prop.
  - intros [= <-]. split; [lia|done].
  - destruct (find_octet c s) as [m|]; [|done]. intros [= <-]. destruct (IH m); [done|]. split; [lia|done].
Qed.

Lemma rsplit_once_none c s : rsplit_once c s = None <-> c ∉ s.
Proof.
  induction s as [|x s IH]; simpl; [split; [intros _; apply not_elem_of_nil|done]|].
  rewrite not_elem_of_cons. destruct (rsplit_once c s) as [[a b]|]; [naive_solver|].
  destruct (x =? c) eqn:E; bool_to_prop; naive_solver.
Qed.
Lemma rsplit_once_some c s a b : rsplit_once c s = Some (a, b) <-> s = a ++ c :: b /\ c ∉ b.
Proof.
  revert a. induction s as [|x s IH]; simpl; intros a.
  - split; [done|]. intros [Heq _]. by destruct a.
  - destruct (rsplit_once c s) as [[a' b']|] eqn:E.
    + split.
      * intros [= <- <-]. destruct (proj1 (IH a')) as [-> Hb]; [done|]. done.
      * intros [Heq Hb]. destruct a as [|y a]; simplify_eq/=.
        -- assert (rsplit_once c b = None) as Hn by (by apply rsplit_once_none). congruence.
        -- pose proof (proj2 (IH a) (conj eq_refl Hb)) as Ha. congruence.
    + destruct (x =? c) eqn:Ex; bool_to_prop.
      * subst. split.
        -- intros [= <- <-]. split; [done|]. by apply rsplit_once_none.
        -- intros [Heq Hb]. destruct a as [|y a]; simplify_eq/=; [done|].
           pose proof (proj2 (IH a) (conj eq_refl Hb)). congruence.
      * split; [done|]. intros [Heq Hb]. destruct a as [|y a]; simplify_eq/=.
        pose proof (proj2 (IH a) (conj eq_refl Hb)). congruence.
Qed.

Lemma contains_octet_spec c s : contains_octet c s = true <-> c ∈ s.
Proof.
  unfold contains_octet. rewrite existsb_exists. setoid_rewrite <- list_elem_of_In.
  setoid_rewrite Z.eqb_eq. split; [intros (? & ? & ->); done|eauto].
Qed.
Lemma contains_octet_false c s : contains_octet c s = false <-> c ∉ s.
Proof. rewrite <- contains_octet_spec. by destruct (contains_octet c s). Qed.

Lemma forallb_elem {A} (f : A -> bool) l : forallb f l = true <-> forall x, x ∈ l -> f x = true.
Proof. rewrite forallb_forall. by setoid_rewrite list_elem_of_In. Qed.

(** ** Case *)

Lemma to_upper_upper s : forallb (fun c => negb (ascii_lowercase c)) s = true -> to_upper s = s.
Proof.
  induction s as [|c s IH]; simpl; [done|]. intros [Hc Hs]%andb_true_iff. apply negb_true_iff in Hc.
  rewrite Hc. by f_equal; apply IH.
Qed.
Lemma to_lower_lower s : forallb (fun c => negb (ascii_uppercase c)) s = true -> to_lower s = s.
Proof.
  induction s as [|c s IH]; simpl; [done|]. intros [Hc Hs]%andb_true_iff. apply negb_true_iff in Hc.
  rewrite Hc. by f_equal; apply IH.
Qed.
Lemma length_to_upper s : length (to_upper s) = length s.
Proof. apply length_map. Qed.
Lemma length_to_lower s : length (to_lower s) = length s.
Proof. apply length_map. Qed.

(** ** Authenticated display of credential/v2 ([src/credential_v2/display.rs])

    The recognisers of application identifiers and origins, the claims of a
    signed offer with their validation, and the recognition of an offer against
    the live authority.  The consumer's parser and verifier are classes over
    their own state. *)

Definition MAX_APPLICATION_ID_OCTETS : Z := 2048.
Definition MAX_ORIGIN_OCTETS : Z := 272.
Definition MAX_PERMISSION_OCTETS : Z := 128.
Definition MAX_PERMISSIONS : nat := 4.
Definition MAX_ROOMS : nat := 256.
Definition MAX_ROOM_OCTETS : Z := 129.
Definition MAX_ROOM_ARRAY_OCTETS : Z := 33793.

(** ** Application identifiers and origins *)

Definition dash : Z := 45.
Definition dot_octet : Z := 46.
Definition slash : Z := 47.
Definition colon : Z := 58.
Definition percent : Z := 37.

Definition is_unreserved (value : Z) : bool :=
  ascii_alphanumeric value || (value =? dash) || (value =? dot_octet) || (value =? 95) || (value =? 126).

(** [! $ & ' ( ) * + , ; = : @] beside the unreserved characters. *)
Definition is_pchar (value : Z) : bool :=
  is_unreserved value || bool_decide (value ∈ [33; 36; 38; 39; 40; 41; 42; 43; 44; 59; 61; 58; 64]).

Definition upper_hex_digit (value : Z) : bool := ascii_digit value || ((65 <=? value) && (value <=? 70)).
Definition hex (value : Z) : Z :=
  if ascii_digit value then value - 48 else if (65 <=? value) && (value <=? 70) then value - 65 + 10 else 0.

(** The loop over the octets from the index on. *)
Fixpoint valid_path (path : bytes) : bool :=
  match path with
  | [] => true
  | byte :: rest =>
      if byte =? percent then
        match rest with
        | high :: low :: rest =>
            upper_hex_digit high && upper_hex_digit low &&
            negb (is_unreserved (Z.lor (Z.shiftl (hex high) 4) (hex low))) && valid_path rest
        | _ => false
        end
      else ((byte =? slash) || is_pchar byte) && valid_path rest
  end.

Definition valid_host_label (label : bytes) : bool :=
  negb (bool_decide (label = [])) && (blen label <=? 63) && negb (bool_decide (head label = Some dash)) &&
  negb (bool_decide (last label = Some dash)) &&
  forallb (fun byte => ascii_lowercase byte || ascii_digit byte || (byte =? dash)) label.

Definition valid_host (host : bytes) : bool :=
  if bool_decide (host = []) || (253 <? blen host) then false
  else
    let labels := split_on dot_octet host in
    forallb valid_host_label labels &&
    match last labels with Some label => negb (forallb ascii_digit label) | None => false end.

(** [parse::<u16>] of digits. *)
Definition decimal (digits : bytes) : Z := fold_left (fun n d => 10 * n + (d - 48)) digits 0.

Definition valid_port (port : bytes) : bool :=
  if bool_decide (port = []) || (5 <? blen port) || bool_decide (head port = Some 48) || negb (forallb ascii_digit port)
  then false
  else (decimal port <=? u16_max) && negb (decimal port =? 0) && negb (decimal port =? 443).

Definition https_prefix : bytes := ascii_bytes "https://".

Definition split_https (value : bytes) : credM (bytes * bytes) :=
  if negb (is_ascii value) || contains_octet 63 value || contains_octet 35 value then Err CredentialV2Error_Origin
  else
    rest ← ok_or (strip_octets https_prefix value) CredentialV2Error_Origin;
    let authority_end := default (length rest) (find_octet slash rest) in
    let authority := take authority_end rest in
    if bool_decide (authority = []) || contains_octet 64 authority then Err CredentialV2Error_Origin
    else
      let '(host, port) := match rsplit_once colon authority with
                           | Some (host, port) => (host, Some port)
                           | None => (authority, None)
                           end in
      if negb (valid_host host) || negb (match port with Some port => valid_port port | None => true end)
      then Err CredentialV2Error_Origin
      else
        let origin_len := (length https_prefix + length authority)%nat in
        Ok (take origin_len value, drop origin_len value).

Definition dot_segment (part : bytes) : bool :=
  bool_decide (part = []) || bool_decide (part = [dot_octet]) || bool_decide (part = [dot_octet; dot_octet]).

Definition recognise_application_id (value : bytes) : credM bytes :=
  if bool_decide (value = []) || (MAX_APPLICATION_ID_OCTETS <? blen value) then Err CredentialV2Error_Schema
  else
    '(origin, path) ← split_https value;
    if match path with
       | byte :: rest =>
           negb (byte =? slash) || existsb dot_segment (split_on slash rest) || negb (valid_path path)
       | [] => true
       end
    then Err CredentialV2Error_Schema
    else Ok origin.

Definition recognise_origin (value : bytes) (maximum : Z) : credM unit :=
  if bool_decide (value = []) || (maximum <? blen value) then Err CredentialV2Error_Origin
  else
    '(origin, path) ← split_https value;
    if negb (bool_decide (origin = value)) || negb (bool_decide (path = [])) then Err CredentialV2Error_Origin
    else Ok tt.

(** ** The claims of an offer *)

Record CredentialV2AccountProvenance := mkCredentialV2AccountProvenance {
  ap_account_principal_digest : bytes;
  ap_account_scope_id : bytes
}.

Record CredentialV2DeviceBinding := mkCredentialV2DeviceBinding {
  db_device_did : string;
  db_device_key_digest : bytes
}.

(** [is_base58btc]: the alphanumerics without 0, I, O and l. *)
Definition is_base58btc (value : Z) : bool :=
  ((49 <=? value) && (value <=? 57)) || ((65 <=? value) && (value <=? 72)) || ((74 <=? value) && (value <=? 78)) ||
  ((80 <=? value) && (value <=? 90)) || ((97 <=? value) && (value <=? 107)) || ((109 <=? value) && (value <=? 122)).

Definition device_validate (d : CredentialV2DeviceBinding) : credM unit :=
  let did := ascii_bytes (db_device_did d) in
  match strip_octets (ascii_bytes "did:key:z6Mk") did with
  | None => Err CredentialV2Error_Schema
  | Some encoded =>
      if negb (blen did =? 56) || negb (blen encoded =? 44) || negb (forallb is_base58btc encoded)
      then Err CredentialV2Error_Schema
      else Ok tt
  end.
Definition CredentialV2DeviceBinding_new (device_did : string) (device_key_digest : bytes) :
    credM CredentialV2DeviceBinding :=
  let value := mkCredentialV2DeviceBinding device_did device_key_digest in
  _ ← device_validate value;
  Ok value.

Inductive CredentialV2TofuState : Type := TofuState_CeremonyGesture | TofuState_NewPair | TofuState_TrustedPair.

Record PathAToBDisplay := mkPathAToBDisplay {
  pb_legacy_handle : string;
  pb_legacy_key_digest : bytes;
  pb_migration_rooms : list string;
  pb_room_set_digest : bytes;
  pb_migration_snapshot_digest : bytes;
  pb_snapshot_nonce : bytes
}.

Inductive CredentialV2Transition : Type := NoTransition | PathAToB (display : PathAToBDisplay).

Definition at_sign : Z := 64.

Definition valid_legacy_handle (value : bytes) : bool :=
  match value with
  | first :: rest =>
      (first =? at_sign) && (1 <=? blen rest) && (blen rest <=? 32) &&
      forallb (fun byte => ascii_lowercase byte || ascii_digit byte || (byte =? 95) || (byte =? dash)) rest
  | [] => false
  end.

(** [_ - . / ! ? + * < > = @] beside the alphanumerics. *)
Definition room_octet (byte : Z) : bool :=
  ascii_alphanumeric byte || bool_decide (byte ∈ [95; 45; 46; 47; 33; 63; 43; 42; 60; 62; 61; 64]).
Definition valid_room (value : bytes) : bool :=
  match value with
  | first :: rest =>
      (first =? at_sign) && negb (bool_decide (rest = [])) && is_ascii value && (blen value <=? MAX_ROOM_OCTETS) &&
      forallb room_octet rest
  | [] => false
  end.

Definition room_array_octets (rooms : list bytes) : Z :=
  2 + sum_with (fun room => blen room + 2) rooms + saturating_sub (Z.of_nat (length rooms)) 1.

Definition path_validate (p : PathAToBDisplay) : credM unit :=
  let rooms := map ascii_bytes (pb_migration_rooms p) in
  if negb (valid_legacy_handle (ascii_bytes (pb_legacy_handle p))) || (MAX_ROOMS <? length rooms)%nat
  then Err CredentialV2Error_Schema
  else if existsb (fun room => negb (valid_room room)) rooms || any_descent rooms ||
          (MAX_ROOM_ARRAY_OCTETS <? room_array_octets rooms)
  then Err CredentialV2Error_Schema
  else Ok tt.

Definition transition_validate (t : CredentialV2Transition) : credM unit :=
  match t with NoTransition => Ok tt | PathAToB value => path_validate value end.
Definition path_a_to_b (legacy_handle : string) (legacy_key_digest : bytes) (migration_rooms : list string)
    (room_set_digest migration_snapshot_digest snapshot_nonce : bytes) : credM CredentialV2Transition :=
  let display := mkPathAToBDisplay legacy_handle legacy_key_digest migration_rooms room_set_digest
                   migration_snapshot_digest snapshot_nonce in
  _ ← path_validate display;
  Ok (PathAToB display).
Definition as_path_a_to_b (t : CredentialV2Transition) : option PathAToBDisplay :=
  match t with NoTransition => None | PathAToB value => Some value end.

Record CredentialV2IntentClaims := mkCredentialV2IntentClaims {
  ic_application_id : string;
  ic_https_origin : string;
  ic_relay_origin : string;
  ic_carrier_ceremony_id : bytes;
  ic_account_provenance : CredentialV2AccountProvenance;
  ic_permissions : list string;
  ic_device_binding : CredentialV2DeviceBinding;
  ic_transition : CredentialV2Transition;
  ic_offer_core_digest : bytes
}.
#[export] Instance PathAToBDisplay_eq_dec : EqDecision PathAToBDisplay.
Proof. solve_decision. Defined.
#[export] Instance CredentialV2Transition_eq_dec : EqDecision CredentialV2Transition.
Proof. solve_decision. Defined.
#[export] Instance CredentialV2DeviceBinding_eq_dec : EqDecision CredentialV2DeviceBinding.
Proof. solve_decision. Defined.
#[export] Instance CredentialV2AccountProvenance_eq_dec : EqDecision CredentialV2AccountProvenance.
Proof. solve_decision. Defined.
#[export] Instance CredentialV2IntentClaims_eq_dec : EqDecision CredentialV2IntentClaims.
Proof. solve_decision. Defined.

Definition claims_validate (c : CredentialV2IntentClaims) : credM unit :=
  origin ← recognise_application_id (ascii_bytes (ic_application_id c));
  _ ← recognise_origin (ascii_bytes (ic_https_origin c)) MAX_ORIGIN_OCTETS;
  _ ← recognise_origin (ascii_bytes (ic_relay_origin c)) MAX_ORIGIN_OCTETS;
  if negb (bool_decide (origin = ascii_bytes (ic_https_origin c))) then Err CredentialV2Error_Schema
  else
    let permissions := map ascii_bytes (ic_permissions c) in
    if bool_decide (permissions = []) || (MAX_PERMISSIONS <? length permissions)%nat ||
       existsb (fun p => bool_decide (p = []) || (MAX_PERMISSION_OCTETS <? blen p)) permissions || any_descent permissions
    then Err CredentialV2Error_Schema
    else
      _ ← device_validate (ic_device_binding c);
      transition_validate (ic_transition c).

Definition CredentialV2IntentClaims_new (application_id https_origin relay_origin : string)
    (carrier_ceremony_id : bytes) (account_provenance : CredentialV2AccountProvenance) (permissions : list string)
    (device_binding : CredentialV2DeviceBinding) (transition : CredentialV2Transition) (offer_core_digest : bytes) :
    credM CredentialV2IntentClaims :=
  let value := mkCredentialV2IntentClaims application_id https_origin relay_origin carrier_ceremony_id
                 account_provenance permissions device_binding transition offer_core_digest in
  _ ← claims_validate value;
  Ok value.

(** Copies with one field changed; they are not validated again. *)
Definition with_application_id (c : CredentialV2IntentClaims) (value : string) : CredentialV2IntentClaims :=
  mkCredentialV2IntentClaims value (ic_https_origin c) (ic_relay_origin c) (ic_carrier_ceremony_id c)
    (ic_account_provenance c) (ic_permissions c) (ic_device_binding c) (ic_transition c) (ic_offer_core_digest c).
Definition with_https_origin (c : CredentialV2IntentClaims) (value : string) : CredentialV2IntentClaims :=
  mkCredentialV2IntentClaims (ic_application_id c) value (ic_relay_origin c) (ic_carrier_ceremony_id c)
    (ic_account_provenance c) (ic_permissions c) (ic_device_binding c) (ic_transition c) (ic_offer_core_digest c).
Definition with_relay_origin (c : CredentialV2IntentClaims) (value : string) : CredentialV2IntentClaims :=
  mkCredentialV2IntentClaims (ic_application_id c) (ic_https_origin c) value (ic_carrier_ceremony_id c)
    (ic_account_provenance c) (ic_permissions c) (ic_device_binding c) (ic_transition c) (ic_offer_core_digest c).
Definition with_carrier_ceremony_id (c : CredentialV2IntentClaims) (value : bytes) : CredentialV2IntentClaims :=
  mkCredentialV2IntentClaims (ic_application_id c) (ic_https_origin c) (ic_relay_origin c) value
    (ic_account_provenance c) (ic_permissions c) (ic_device_binding c) (ic_transition c) (ic_offer_core_digest c).
Definition with_account_provenance (c : CredentialV2IntentClaims) (value : CredentialV2AccountProvenance) : CredentialV2IntentClaims :=
  mkCredentialV2IntentClaims (ic_application_id c) (ic_https_origin c) (ic_relay_origin c) (ic_carrier_ceremony_id c)
    value (ic_permissions c) (ic_device_binding c) (ic_transition c) (ic_offer_core_digest c).
Definition with_permissions (c : CredentialV2IntentClaims) (value : list string) : CredentialV2IntentClaims :=
  mkCredentialV2IntentClaims (ic_application_id c) (ic_https_origin c) (ic_relay_origin c) (ic_carrier_ceremony_id c)
    (ic_account_provenance c) value (ic_device_binding c) (ic_transition c) (ic_offer_core_digest c).
Definition with_device_binding (c : CredentialV2IntentClaims) (value : CredentialV2DeviceBinding) : CredentialV2IntentClaims :=
  mkCredentialV2IntentClaims (ic_application_id c) (ic_https_origin c) (ic_relay_origin c) (ic_carrier_ceremony_id c)
    (ic_account_provenance c) (ic_permissions c) value (ic_transition c) (ic_offer_core_digest c).
Definition with_transition (c : CredentialV2IntentClaims) (value : CredentialV2Transition) : CredentialV2IntentClaims :=
  mkCredentialV2IntentClaims (ic_application_id c) (ic_https_origin c) (ic_relay_origin c) (ic_carrier_ceremony_id c)
    (ic_account_provenance c) (ic_permissions c) (ic_device_binding c) value (ic_offer_core_digest c).
Definition with_offer_core_digest (c : CredentialV2IntentClaims) (value : bytes) : CredentialV2IntentClaims :=
  mkCredentialV2IntentClaims (ic_application_id c) (ic_https_origin c) (ic_relay_origin c) (ic_carrier_ceremony_id c)
    (ic_account_provenance c) (ic_permissions c) (ic_device_binding c) (ic_transition c) value.

(** ** Recognition *)

(** Peer input; its accessors are those of the claims. *)
Record CredentialV2IntentInput := mkCredentialV2IntentInput {
  ii_claims : CredentialV2IntentClaims;
  ii_intent_digest : bytes
}.
Record CredentialV2IntentAuthority := mkCredentialV2IntentAuthority {
  ia_claims : CredentialV2IntentClaims;
  ia_tofu_state : CredentialV2TofuState;
  ia_intent_digest : bytes
}.
Record CredentialV2Display := mkCredentialV2Display {
  cd_claims : CredentialV2IntentClaims;
  cd_tofu_state : CredentialV2TofuState
}.

Class CredentialV2OfferParser (P : Type) :=
  parse_signed_offer : bytes -> stM P CredentialV2Error CredentialV2IntentClaims.
Class CredentialV2IntentVerifier (V : Type) :=
  verify_intent : CredentialV2IntentInput -> CredentialV2IntentAuthority -> stM V CredentialV2Error unit.

Section Recognition.
Context `{Sha256}.

Definition intent_domain : bytes := ascii_bytes "selfsame credential/v2 intent" ++ [0].
Definition credential_v2_intent_digest (offer_core_digest : bytes) : bytes := sha256 (intent_domain ++ offer_core_digest).

Definition CredentialV2IntentAuthority_new (claims : CredentialV2IntentClaims) (tofu_state : CredentialV2TofuState) :
    credM CredentialV2IntentAuthority :=
  _ ← claims_validate claims;
  Ok (mkCredentialV2IntentAuthority claims tofu_state (credential_v2_intent_digest (ic_offer_core_digest claims))).

Context {P V : Type} `{CredentialV2OfferParser P, CredentialV2IntentVerifier V}.

(** The parser's and the verifier's states. *)
Definition recognise_credential_v2_intent (object : CredentialV2Object) (authority : CredentialV2IntentAuthority) :
    stM (P * V) CredentialV2Error CredentialV2Display :=
  if negb (bool_decide (ob_kind object = Kind_Offer)) then throw CredentialV2Error_Schema
  else
    claims ← zoom fst (fun p s => (p, s.2)) id (parse_signed_offer (ob_body object));
    _ ← lift (map_err (fun _ => CredentialV2Error_Profile) (claims_validate claims));
    let intent_digest := credential_v2_intent_digest (ic_offer_core_digest claims) in
    if negb (bool_decide (ob_intent_digest object = intent_digest)) then throw CredentialV2Error_Profile
    else
      let peer := mkCredentialV2IntentInput claims intent_digest in
      if negb (bool_decide (ii_claims peer = ia_claims authority)) ||
         negb (bool_decide (ii_intent_digest peer = ia_intent_digest authority))
      then throw CredentialV2Error_Profile
      else
        _ ← zoom snd (fun v s => (s.1, v)) id (verify_intent peer authority);
        mret (mkCredentialV2Display (ia_claims authority) (ia_tofu_state authority)).
End Recognition.
