(* ===== verification/CredDisplayThms.v ===== *)
(** * The grammar of application identifiers

    Structured application identifiers, their rendering, and the theorems that
    [recognise_application_id] accepts exactly the renderings and that a
    rendering determines the structure. *)

From S2P Require Import Prelude External Wire WireCodec CbclExternal CbclProtocol CbclThms CredCore CredDisplay.

#[local] Arguments strip_octets : simpl never.

(** ** Structure *)

(** A character of a path segment: itself or percent-encoded. *)
Inductive path_symbol : Type := Plain (c : Z) | Encoded (v : Z).

Definition upper_hex (d : Z) : Z := if d <? 10 then 48 + d else 55 + d.
Definition symbol_text (s : path_symbol) : bytes :=
  match s with Plain c => [c] | Encoded v => [percent; upper_hex (v / 16); upper_hex (v `mod` 16)] end.
Definition segment_text (segment : list path_symbol) : bytes := concat (map symbol_text segment).

Record application_name := mkApplicationName {
  an_labels : list bytes;
  an_port : option Z;
  an_segments : list (list path_symbol)
}.

(** A number in decimal, without leading zeros; a port has five digits at most. *)
Fixpoint decimal_digits (fuel : nat) (n : Z) : bytes :=
  match fuel with
  | O => []
  | S fuel => (if n <? 10 then [] else decimal_digits fuel (n / 10)) ++ [48 + n `mod` 10]
  end.
Definition decimal_text (n : Z) : bytes := decimal_digits 5 n.
Definition port_text (port : option Z) : bytes := match port with Some n => colon :: decimal_text n | None => [] end.
Definition authority_text (a : application_name) : bytes :=
  join_with dot_octet (an_labels a) ++ port_text (an_port a).
Definition origin_text (a : application_name) : bytes := https_prefix ++ authority_text a.
Definition path_text (segments : list (list path_symbol)) : bytes :=
  slash :: join_with slash (map segment_text segments).
Definition name_text (a : application_name) : bytes := origin_text a ++ path_text (an_segments a).

(** The grammar, stated without the predicates of the code.  A host is a list
    of labels, each of one to 63 lower-case letters, digits and hyphens, with no
    hyphen at an end; the last label is no number. *)
Definition host_char (c : Z) : Prop := c ∈ ascii_bytes "abcdefghijklmnopqrstuvwxyz0123456789-".
Definition digit_char (c : Z) : Prop := c ∈ ascii_bytes "0123456789".
Record label_ok (l : bytes) : Prop := {
  lb_length : (1 <= length l <= 63)%nat;
  lb_chars : Forall host_char l;
  lb_inner : forall rest, l <> 45 :: rest /\ l <> rest ++ [45]
}.
Record host_ok (labels : list bytes) : Prop := {
  ho_labels : Forall label_ok labels;
  ho_last : exists front label, labels = front ++ [label] /\ ~ Forall digit_char label;
  ho_length : (length (join_with dot_octet labels) <= 253)%nat
}.
(** A port number other than that of the scheme. *)
Definition port_ok (port : option Z) : Prop := match port with Some n => 1 <= n <= 65535 /\ n <> 443 | None => True end.

(** The unreserved characters of RFC 3986 stand for themselves; the delimiters
    do too, or are encoded; every other octet is encoded. *)
Definition unreserved_char (c : Z) : Prop :=
  c ∈ ascii_bytes "ABCDEFGHIJKLMNOPQRSTUVWXYZabcdefghijklmnopqrstuvwxyz0123456789-._~".
Definition delimiter_char (c : Z) : Prop := c ∈ ascii_bytes "!$&'()*+,;=:@".
Definition symbol_ok (s : path_symbol) : Prop :=
  match s with
  | Plain c => unreserved_char c \/ delimiter_char c
  | Encoded v => 0 <= v < 256 /\ ~ unreserved_char v
  end.
(** A segment is not empty and neither [.] nor [..]. *)
Definition segment_ok (segment : list path_symbol) : Prop :=
  Forall symbol_ok segment /\ segment <> [] /\ segment <> [Plain 46] /\ segment <> [Plain 46; Plain 46].

Record name_ok (a : application_name) : Prop := {
  no_host : host_ok (an_labels a);
  no_port : port_ok (an_port a);
  no_segments : an_segments a <> [];
  no_segment_ok : Forall segment_ok (an_segments a);
  no_length : blen (name_text a) <= 2048
}.
Definition authority_ok (auth : bytes) : Prop :=
  exists labels port, auth = join_with dot_octet labels ++ port_text port /\ host_ok labels /\ port_ok port.

(** ** The classes of characters *)

Definition same_class (f : Z -> bool) (text : string) : bool :=
  forallb (fun c => Bool.eqb (f c) (bool_decide (c ∈ ascii_bytes text))) (seqZ 0 256).
Lemma class_spec f text : (forall c, f c = true -> 0 <= c < 256) -> same_class f text = true ->
  forall c, f c = true <-> c ∈ ascii_bytes text.
Proof.
  intros Hf Hall c. unfold same_class in Hall. rewrite forallb_elem in Hall.
  assert (0 <= c < 256 -> (f c = true <-> c ∈ ascii_bytes text)) as Hin.
  { intros Hc. specialize (Hall c ltac:(apply elem_of_seqZ; lia)). apply Bool.eqb_prop in Hall. by rewrite Hall, bool_decide_eq_true. }
  split; intros Hc; apply Hin; auto. pose proof (ascii_bytes_octets text) as Ho. unfold octet_list in Ho.
  rewrite Forall_forall in Ho. specialize (Ho c Hc). unfold u8_max in *. lia.
Qed.
Ltac class_range := intros c; unfold is_pchar, is_unreserved, ascii_alphanumeric, ascii_alphabetic, ascii_lowercase, ascii_digit, dash, dot_octet;
  rewrite ?orb_true_iff, ?bool_decide_eq_true, ?andb_true_iff, ?Z.leb_le, ?Z.eqb_eq, ?elem_of_cons, ?elem_of_nil; lia.

Definition label_octet (c : Z) : bool := ascii_lowercase c || ascii_digit c || (c =? dash).
Lemma host_char_spec c : label_octet c = true <-> host_char c.
Proof. revert c. apply class_spec; [unfold label_octet; class_range|by vm_compute]. Qed.
Lemma digit_char_spec c : ascii_digit c = true <-> digit_char c.
Proof. revert c. apply class_spec; [class_range|by vm_compute]. Qed.
Lemma unreserved_spec c : is_unreserved c = true <-> unreserved_char c.
Proof. revert c. apply class_spec; [class_range|by vm_compute]. Qed.
Lemma pchar_spec c : is_pchar c = true <-> unreserved_char c \/ delimiter_char c.
Proof.
  unfold unreserved_char, delimiter_char. rewrite <- elem_of_app. revert c.
  apply (class_spec _ ("ABCDEFGHIJKLMNOPQRSTUVWXYZabcdefghijklmnopqrstuvwxyz0123456789-._~" ++ "!$&'()*+,;=:@")); [class_range|by vm_compute].
Qed.

(** ** Hosts and ports *)

Ltac octet_range := unfold label_octet, ascii_lowercase, ascii_digit, dash, dot_octet, slash, colon, percent in *; bool_to_prop.

Lemma octet_not_in (f : Z -> bool) c l : forallb f l = true -> f c = false -> c ∉ l.
Proof. intros Hl Hc Hin. rewrite forallb_elem in Hl. apply Hl in Hin. congruence. Qed.
Lemma forallb_class {A} f (P : A -> Prop) l : (forall c, f c = true <-> P c) -> forallb f l = true <-> Forall P l.
Proof. intros Hf. rewrite forallb_elem, Forall_forall. by setoid_rewrite Hf. Qed.
Lemma head_not (c : Z) l : head l <> Some c <-> forall rest, l <> c :: rest.
Proof. destruct l as [|x l]; [by split|]. simpl. split; [intros Hx rest [= -> ->]; done|intros Hx [= ->]; by apply (Hx l)]. Qed.
Lemma last_not (c : Z) l : last l <> Some c <-> forall rest, l <> rest ++ [c].
Proof. rewrite last_Some. naive_solver. Qed.

Lemma host_label_spec l : valid_host_label l = true <-> label_ok l.
Proof.
  unfold valid_host_label. rewrite !andb_true_iff, !negb_true_iff, !bool_decide_eq_false, Z.leb_le, head_not, last_not.
  fold label_octet. rewrite (forallb_class _ host_char) by apply host_char_spec. unfold blen. split.
  - intros ((((Hne & Hl) & Hh) & Ht) & Hc). split; [destruct l; [done|]; simpl in *; lia|done|]. by split.
  - intros [Hl Hc Hi]. split_and!; [by intros ->; simpl in Hl; lia|lia| | |done]; intros rest; by apply Hi.
Qed.
Lemma label_octets l : label_ok l -> forallb label_octet l = true /\ l <> [].
Proof. intros [Hl Hc _]. split; [by apply (forallb_class _ host_char), Hc; apply host_char_spec|]. intros ->. simpl in Hl. lia. Qed.
Lemma labels_split labels : host_ok labels -> split_on dot_octet (join_with dot_octet labels) = labels.
Proof.
  intros [Hl (front & label & -> & _) _]. apply split_join; [by destruct front|]. eapply Forall_impl; [exact Hl|].
  intros l [Hv _]%label_octets. by eapply octet_not_in.
Qed.

Lemma valid_host_spec h : valid_host h = true <-> exists labels, h = join_with dot_octet labels /\ host_ok labels.
Proof.
  assert (forall labels, (match last labels with Some label => negb (forallb ascii_digit label) | None => false end = true) <->
    exists front label, labels = front ++ [label] /\ ~ Forall digit_char label) as Hlast.
  { intros labels. destruct (last labels) as [label|] eqn:Hl.
    - apply last_Some in Hl as [front ->]. rewrite negb_true_iff, <- not_true_iff_false, (forallb_class _ digit_char) by apply digit_char_spec.
      split; [intros Hd; by exists front, label|]. intros (f & l & [_ [= <-]]%app_inj_2 & Hd); done.
    - apply last_None in Hl as ->. split; [done|]. intros (f & l & Hf & _). by destruct f. }
  unfold valid_host. split.
  - destruct (_ || _) eqn:E; [done|]. apply orb_false_iff in E as [Hne Hlen]. bool_to_prop. cbv zeta. rewrite andb_true_iff, Hlast.
    intros [Hl Hend]. exists (split_on dot_octet h). rewrite join_split. split; [done|]. split; [|done|].
    + by apply (forallb_class _ label_ok) in Hl; [|apply host_label_spec].
    + rewrite join_split. unfold blen in Hlen. lia.
  - intros (labels & -> & Hok). pose proof (labels_split _ Hok) as Hs. destruct Hok as [Hl Hend Hlen].
    rewrite bool_decide_eq_false_2.
    2: { intros Hh. rewrite Hh in Hs. subst labels. apply Forall_cons in Hl as [[Hx _ _] _]. simpl in Hx. lia. }
    unfold blen. rewrite (proj2 (Z.ltb_ge _ _)) by lia. cbn [orb]. cbv zeta. rewrite Hs, andb_true_iff, Hlast. split; [|done].
    apply (forallb_class _ label_ok); [apply host_label_spec|done].
Qed.

Lemma host_octets labels c : host_ok labels -> c ∈ join_with dot_octet labels -> label_octet c = true \/ c = dot_octet.
Proof.
  intros [Hl _ _] [->|(l & Hin & Hc)]%elem_of_join; [by right|left].
  rewrite Forall_forall in Hl. apply Hl, label_octets in Hin as [Hin _]. rewrite forallb_elem in Hin. auto.
Qed.

(** Digits and the number they spell. *)
Lemma decimal_snoc p d : decimal (p ++ [d]) = 10 * decimal p + (d - 48).
Proof. unfold decimal. by rewrite fold_left_app. Qed.
Lemma digits_spell fuel n : 0 <= n < 10 ^ Z.of_nat fuel -> (0 < fuel)%nat ->
  decimal (decimal_digits fuel n) = n /\ Forall (fun c => ascii_digit c = true) (decimal_digits fuel n) /\
  (length (decimal_digits fuel n) <= fuel)%nat /\ (0 < n -> head (decimal_digits fuel n) <> Some 48) /\ decimal_digits fuel n <> [].
Proof.
  revert n. induction fuel as [|fuel IH]; intros n Hn Hf; [lia|]. cbn [decimal_digits].
  assert (ascii_digit (48 + n `mod` 10) = true) as Hd.
  { unfold ascii_digit. rewrite andb_true_iff, !Z.leb_le. Z.div_mod_to_equations. lia. }
  destruct (n <? 10) eqn:E; bool_to_prop.
  - rewrite Z.mod_small in * by lia. split_and!; [unfold decimal; simpl; lia|by repeat constructor|simpl; lia|intros ? [= ?]; lia|done].
  - rewrite Nat2Z.inj_succ, Z.pow_succ_r in Hn by lia. destruct fuel as [|fuel]; [simpl in Hn; lia|].
    destruct (IH (n / 10)) as (Hv & Hc & Hl & Hh & Hne); [Z.div_mod_to_equations; lia|lia|].
    split_and!.
    + rewrite decimal_snoc, Hv. Z.div_mod_to_equations. lia.
    + apply Forall_app. by repeat constructor.
    + rewrite length_app. simpl in *. lia.
    + intros _. destruct (decimal_digits (S fuel) (n / 10)); [done|]. apply Hh. Z.div_mod_to_equations. lia.
    + by destruct (decimal_digits (S fuel) (n / 10)).
Qed.
Lemma spelled_digits fuel p : Forall (fun c => ascii_digit c = true) p -> head p <> Some 48 -> p <> [] -> (length p <= fuel)%nat ->
  p = decimal_digits fuel (decimal p) /\ 0 < decimal p.
Proof.
  intros Hp. revert fuel. induction p as [|d p IH] using rev_ind; intros fuel Hh Hne Hl; [done|].
  apply Forall_app in Hp as [Hp [Hd _]%Forall_cons]. rewrite length_app in Hl. simpl in Hl.
  unfold ascii_digit in Hd. rewrite andb_true_iff, !Z.leb_le in Hd. destruct fuel as [|fuel]; [lia|]. rewrite decimal_snoc. cbn [decimal_digits].
  destruct p as [|x p].
  - unfold decimal. cbn [fold_left]. assert (d <> 48) by (intros ->; by apply Hh). rewrite (proj2 (Z.ltb_lt _ _)) by lia. rewrite Z.mod_small by lia.
    simpl. split; [|lia]. f_equal. lia.
  - destruct (IH Hp fuel) as [Heq Hpos]; [done|done|simpl in *; lia|]. rewrite (proj2 (Z.ltb_ge _ _)) by lia.
    replace ((10 * decimal (x :: p) + (d - 48)) / 10) with (decimal (x :: p)) by (Z.div_mod_to_equations; lia).
    replace ((10 * decimal (x :: p) + (d - 48)) `mod` 10) with (d - 48) by (Z.div_mod_to_equations; lia). rewrite <- Heq.
    split; [do 2 f_equal; lia|lia].
Qed.
Lemma valid_port_spec p : valid_port p = true <-> exists n, p = decimal_text n /\ port_ok (Some n).
Proof.
  unfold valid_port, decimal_text, u16_max. split.
  - destruct (_ || _) eqn:E; [done|]. apply orb_false_iff in E as [[[Hne Hl]%orb_false_iff Hh]%orb_false_iff Hd].
    apply negb_false_iff in Hd. bool_to_prop. intros [[Hm Hz]%andb_true_iff Hn]%andb_true_iff. apply negb_true_iff in Hz, Hn. bool_to_prop.
    destruct (spelled_digits 5 p) as [Heq Hpos]; [by apply Forall_forall; rewrite forallb_elem in Hd|done|done|unfold blen in Hl; lia|].
    exists (decimal p). split; [done|]. simpl. lia.
  - intros (n & -> & Hn & Hne). destruct (digits_spell 5 n) as (Hv & Hc & Hl & Hh & Hnn); [simpl; lia|lia|].
    rewrite Hv. rewrite !bool_decide_eq_false_2 by (done || apply Hh; lia). unfold blen. rewrite (proj2 (Z.ltb_ge _ _)) by lia.
    assert (forallb ascii_digit (decimal_digits 5 n) = true) as -> by (by apply forallb_elem, Forall_forall).
    cbn [orb negb]. rewrite (proj2 (Z.leb_le _ _)), (proj2 (Z.eqb_neq n 0)), (proj2 (Z.eqb_neq n 443)) by lia. done.
Qed.
Lemma port_octets n c : port_ok (Some n) -> c ∈ decimal_text n -> ascii_digit c = true.
Proof.
  intros [Hn _] Hc. destruct (digits_spell 5 n) as (_ & Hd & _); [simpl; lia|lia|]. rewrite Forall_forall in Hd. by apply Hd.
Qed.
Lemma decimal_text_inj n m : port_ok (Some n) -> port_ok (Some m) -> decimal_text n = decimal_text m -> n = m.
Proof.
  intros [Hn _] [Hm _] Heq. destruct (digits_spell 5 n) as (Hvn & _); [simpl; lia|lia|]. destruct (digits_spell 5 m) as (Hvm & _); [simpl; lia|lia|].
  unfold decimal_text in Heq. congruence.
Qed.

Lemma authority_octets auth c : authority_ok auth -> c ∈ auth -> label_octet c = true \/ c = dot_octet \/ c = colon.
Proof.
  intros (labels & port & -> & Hh & Hp) [Hc|Hc]%elem_of_app.
  - destruct (host_octets _ _ Hh Hc); auto.
  - destruct port as [p|]; [|by apply elem_of_nil in Hc]. apply elem_of_cons in Hc as [->|Hc]; [auto|].
    left. unfold label_octet. rewrite (port_octets p c) by done. by rewrite orb_true_r.
Qed.
Lemma authority_not_in auth c :
  authority_ok auth -> label_octet c = false -> c <> dot_octet -> c <> colon -> c ∉ auth.
Proof. intros Ha Hc Hd Hcol Hin. destruct (authority_octets _ _ Ha Hin) as [?|[?|?]]; congruence. Qed.

(** What the scan for a port finds. *)
Lemma port_scan labels port : host_ok labels -> port_ok port ->
  rsplit_once colon (join_with dot_octet labels ++ port_text port) = (fun n => (join_with dot_octet labels, decimal_text n)) <$> port.
Proof.
  intros Hh Hp. assert (colon ∉ join_with dot_octet labels) as Hcol by (intros Hin; destruct (host_octets _ _ Hh Hin); done).
  destruct port as [p|]; simpl.
  - apply rsplit_once_some. split; [done|]. intros Hin. by apply (port_octets p colon) in Hin.
  - rewrite app_nil_r. by apply rsplit_once_none.
Qed.
Lemma authority_scan auth :
  (let '(host, port) := match rsplit_once colon auth with Some (h, p) => (h, Some p) | None => (auth, None) end in
   negb (valid_host host) || negb (match port with Some port => valid_port port | None => true end)) = false <->
  authority_ok auth.
Proof.
  split.
  - destruct (rsplit_once colon auth) as [[h p]|] eqn:E; intros [Hh Hp]%orb_false_iff; apply negb_false_iff in Hh, Hp.
    + apply rsplit_once_some in E as [-> _]. apply valid_host_spec in Hh as (labels & -> & Hh).
      apply valid_port_spec in Hp as (n & -> & Hp). by exists labels, (Some n).
    + apply valid_host_spec in Hh as (labels & -> & Hh). exists labels, None. by rewrite app_nil_r.
  - intros (labels & port & -> & Hh & Hp). rewrite port_scan by done.
    assert (valid_host (join_with dot_octet labels) = true) as Hv by (apply valid_host_spec; by exists labels).
    destruct port as [n|]; simpl; [|by rewrite app_nil_r, Hv].
    rewrite Hv, (proj2 (valid_port_spec (decimal_text n))) by by exists n. done.
Qed.

(** ** Splitting an identifier *)

Lemma https_prefix_length : length https_prefix = 8%nat.
Proof. done. Qed.

Lemma scan_path rest auth path :
  (let n := default (length rest) (find_octet slash rest) in (take n rest, drop n rest)) = (auth, path) <->
  rest = auth ++ path /\ (slash ∉ auth) /\ (path = [] \/ head path = Some slash).
Proof.
  simpl. split.
  - intros [= <- <-]. rewrite take_drop. split; [done|]. destruct (find_octet slash rest) as [n|] eqn:En; simpl.
    + apply find_octet_some in En as (b & Hb & Hn). split; [done|right].
      assert (n < length rest)%nat as Hlt.
      { rewrite Hb, length_app. simpl. rewrite length_take. destruct (decide (n < length rest)%nat); [lia|].
        rewrite take_ge in Hb by lia. apply (f_equal length) in Hb. rewrite length_app in Hb. simpl in Hb. lia. }
      rewrite Hb, drop_app_length' by (rewrite length_take; lia). done.
    + rewrite take_ge, drop_ge by lia. split; [by apply find_octet_none|by left].
  - intros (-> & Ha & [->|Hp]).
    + rewrite app_nil_r. rewrite (proj2 (find_octet_none _ _)) by done. simpl. by rewrite take_ge, drop_ge.
    + destruct path as [|c path]; simplify_eq/=. rewrite find_octet_app by done. simpl.
      by rewrite take_app_length, drop_app_length.
Qed.

Lemma split_https_ok value origin path : split_https value = Ok (origin, path) <->
  exists auth, authority_ok auth /\ origin = https_prefix ++ auth /\ value = origin ++ path /\
    (path = [] \/ head path = Some slash) /\ is_ascii value = true /\ (63 ∉ value) /\ (35 ∉ value).
Proof.
  unfold split_https. split.
  - destruct (_ || _) eqn:E; [done|]. apply orb_false_iff in E as [[Ha Hq]%orb_false_iff Hf].
    apply negb_false_iff in Ha. rewrite contains_octet_false in Hq, Hf.
    intros (rest & Hrest%ok_or_ok%strip_octets_some & Hk)%bind_ok.
    destruct (scan_path rest (take (default (length rest) (find_octet slash rest)) rest)
      (drop (default (length rest) (find_octet slash rest)) rest)) as [(Hsplit & _ & Hp) _]; [done|].
    set (auth := take _ rest) in *. set (tail := drop _ rest) in *. clearbody auth tail.
    destruct (bool_decide _ || _) eqn:E; [done|]. pose proof (authority_scan auth) as [Hscan _].
    assert (authority_ok auth /\ (take (length https_prefix + length auth) value,
      drop (length https_prefix + length auth) value) = (origin, path)) as [Hauth [= <- <-]].
    { destruct (rsplit_once colon auth) as [[h p]|]; simpl in Hk, Hscan;
        match type of Hk with (if ?b then _ else _) = _ => destruct b; [done|] end; by injection Hk as <- <-; auto. }
    exists auth. subst rest value.
    rewrite app_assoc, take_app_length', drop_app_length' by (rewrite length_app; done). auto 10.
  - intros (auth & Hauth & -> & Hv & Hp & Ha & Hq & Hf). rewrite Ha.
    rewrite (proj2 (contains_octet_false 63 value)), (proj2 (contains_octet_false 35 value)) by done. cbn [negb orb].
    rewrite (proj2 (strip_octets_some https_prefix value (auth ++ path))) by (by rewrite app_assoc).
    unfold ok_or. rewrite ok_bind.
    assert (slash ∉ auth) as Hslash by (by apply authority_not_in).
    pose proof (proj2 (scan_path (auth ++ path) auth path) (conj eq_refl (conj Hslash Hp))) as Hscan.
    cbv zeta in Hscan. injection Hscan as Htake _. cbv zeta. rewrite Htake.
    rewrite (proj2 (contains_octet_false 64 auth)) by (by apply authority_not_in).
    rewrite bool_decide_eq_false_2.
    2: { intros ->. apply authority_scan in Hauth. by vm_compute in Hauth. }
    cbn [orb]. pose proof (proj2 (authority_scan auth) Hauth) as Hok. rewrite Hv.
    rewrite take_app_length', drop_app_length' by (by rewrite length_app).
    destruct (rsplit_once colon auth) as [[h p]|]; cbv iota beta in Hok |- *; by rewrite Hok.
Qed.

(** ** Paths *)

Definition upper_hex_digits : bytes := map upper_hex (seqZ 0 16).
Lemma upper_hex_digit_elem d : upper_hex_digit d = true -> d ∈ upper_hex_digits.
Proof.
  unfold upper_hex_digit, ascii_digit. intros Hd. assert (48 <= d <= 57 \/ 65 <= d <= 70) as Hr.
  { apply orb_true_iff in Hd as [?|?]; bool_to_prop; lia. }
  apply list_elem_of_fmap. exists (if d <=? 57 then d - 48 else d - 55). unfold upper_hex. rewrite elem_of_seqZ.
  destruct (d <=? 57) eqn:E; bool_to_prop; (split; [|lia]); case_goal; bool_to_prop; lia.
Qed.
Lemma upper_hex_is_digit d : 0 <= d < 16 -> upper_hex_digit (upper_hex d) = true.
Proof.
  intros Hd. unfold upper_hex_digit, upper_hex, ascii_digit. destruct (d <? 10) eqn:E; bool_to_prop;
    apply orb_true_iff; [left|right]; apply andb_true_iff; split; apply Z.leb_le; lia.
Qed.

(** A pair of digits and the value it encodes. *)
Definition pair_value (high low : Z) : Z := Z.lor (Z.shiftl (hex high) 4) (hex low).
Lemma pair_value_spec high low : high ∈ upper_hex_digits -> low ∈ upper_hex_digits ->
  0 <= pair_value high low < 256 /\ upper_hex (pair_value high low / 16) = high /\
  upper_hex (pair_value high low `mod` 16) = low.
Proof.
  assert (forallb (fun h => forallb (fun l => (0 <=? pair_value h l) && (pair_value h l <? 256) &&
    (upper_hex (pair_value h l / 16) =? h) && (upper_hex (pair_value h l `mod` 16) =? l)) upper_hex_digits)
    upper_hex_digits = true) as Hall by (by vm_compute).
  rewrite forallb_elem in Hall. intros Hh Hl. specialize (Hall _ Hh). rewrite forallb_elem in Hall. specialize (Hall _ Hl).
  bool_to_prop. done.
Qed.
Lemma pair_value_hex v : 0 <= v < 256 -> pair_value (upper_hex (v / 16)) (upper_hex (v `mod` 16)) = v.
Proof.
  intros Hv. assert (forallb (fun v => pair_value (upper_hex (v / 16)) (upper_hex (v `mod` 16)) =? v)
    (seqZ 0 256) = true) as Hall by (by vm_compute).
  rewrite forallb_elem in Hall. apply Z.eqb_eq, Hall, elem_of_seqZ. lia.
Qed.

Lemma plain_octet c : is_pchar c = true -> c <> percent /\ c <> slash.
Proof. intros Hc. split; intros ->; by vm_compute in Hc. Qed.

Lemma symbol_valid s rest : symbol_ok s -> valid_path (symbol_text s ++ rest) = valid_path rest.
Proof.
  destruct s as [c|v]; simpl.
  - intros Hc%pchar_spec. destruct (plain_octet c Hc). destruct (c =? percent) eqn:E; bool_to_prop; [done|].
    by rewrite Hc, orb_true_r.
  - intros [Hv Hu]. rewrite <- unreserved_spec in Hu. apply not_true_iff_false in Hu. fold (pair_value (upper_hex (v / 16)) (upper_hex (v `mod` 16))). rewrite pair_value_hex, Hu by done.
    by rewrite !upper_hex_is_digit by (Z.div_mod_to_equations; lia).
Qed.
Lemma segment_valid segment rest : Forall symbol_ok segment -> valid_path (segment_text segment ++ rest) = valid_path rest.
Proof.
  unfold segment_text. induction 1 as [|s segment Hs _ IH]; simpl; [done|]. by rewrite <- app_assoc, symbol_valid.
Qed.

Lemma symbol_no_slash s : symbol_ok s -> slash ∉ symbol_text s.
Proof.
  destruct s as [c|v]; simpl.
  - intros [_ Hc]%pchar_spec%plain_octet. set_solver.
  - intros [Hv _]. assert (forall d, 0 <= d < 16 -> upper_hex d <> slash).
    { intros d Hd. unfold upper_hex, slash. destruct (d <? 10) eqn:E; bool_to_prop; lia. }
    rewrite !not_elem_of_cons. split_and!; [done|..|apply not_elem_of_nil]; apply not_eq_sym; [|]; apply H;
      Z.div_mod_to_equations; lia.
Qed.
Lemma segment_no_slash segment : Forall symbol_ok segment -> slash ∉ segment_text segment.
Proof.
  unfold segment_text. induction 1 as [|s segment Hs _ IH]; simpl; [apply not_elem_of_nil|].
  rewrite not_elem_of_app. auto using symbol_no_slash.
Qed.

(** A valid text without slashes is a segment, up to the next slash. *)
Lemma valid_segment n : forall p rest, (length p <= n)%nat -> slash ∉ p -> (rest = [] \/ head rest = Some slash) ->
  valid_path (p ++ rest) = true ->
  exists segment, Forall symbol_ok segment /\ p = segment_text segment /\ valid_path rest = true.
Proof.
  induction n as [|n IH]; intros p rest Hlen Hs Hr Hv.
  { destruct p; [|simpl in Hlen; lia]. exists []. split_and!; [constructor|done|done]. }
  destruct p as [|c p]; [exists []; split_and!; [constructor|done|done]|].
  apply not_elem_of_cons in Hs as [Hc Hs]. simpl in Hv, Hlen.
  destruct (c =? percent) eqn:Ec; [apply Z.eqb_eq in Ec|apply Z.eqb_neq in Ec].
  - subst c. destruct p as [|h [|l p]]; simpl in Hv.
    + by destruct Hr as [->|Hr]; [|destruct rest as [|x [|y rest]]; simplify_eq/=].
    + destruct Hr as [->|Hr]; [done|]. destruct rest as [|x rest]; simplify_eq/=. by rewrite andb_false_r in Hv.
    + apply andb_true_iff in Hv as [[[Hh Hl]%andb_true_iff Hu]%andb_true_iff Hv]. apply negb_true_iff in Hu.
      apply upper_hex_digit_elem in Hh, Hl. destruct (pair_value_spec h l Hh Hl) as (Hrange & Eh & El).
      apply not_elem_of_cons in Hs as [_ [_ Hs]%not_elem_of_cons].
      destruct (IH p rest) as (segment & Hok & -> & Hv'); [simpl in Hlen; lia|done..|].
      exists (Encoded (pair_value h l) :: segment). split_and!; [|..|done].
      { constructor; [|done]. split; [done|]. rewrite <- unreserved_spec. fold (pair_value h l) in Hu. congruence. }
      unfold segment_text. simpl. by rewrite Eh, El.
  - apply andb_true_iff in Hv as [Hp Hv]. destruct (c =? slash) eqn:Es; [apply Z.eqb_eq in Es; congruence|]. simpl in Hp.
    destruct (IH p rest) as (segment & Hok & -> & Hv'); [lia|done..|].
    exists (Plain c :: segment). split_and!; [by constructor; [apply pchar_spec|]|done|done].
Qed.

Lemma valid_path_segments parts : Forall (fun p => slash ∉ p) parts -> valid_path (join_with slash parts) = true ->
  exists segments, Forall (Forall symbol_ok) segments /\ parts = map segment_text segments.
Proof.
  induction 1 as [|p parts Hp Hps IH]; intros Hv; [by exists []|]. destruct parts as [|q parts].
  - simpl in Hv. rewrite <- (app_nil_r p) in Hv. destruct (valid_segment (length p) p []) as (s & Hs & -> & _); [done|done|by left|done|].
    exists [s]. repeat constructor; done.
  - change (join_with slash (p :: q :: parts)) with (p ++ slash :: join_with slash (q :: parts)) in Hv.
    destruct (valid_segment (length p) p (slash :: join_with slash (q :: parts))) as (s & Hs & -> & Hv'); [done|done|by right|done|].
    simpl in Hv'. destruct IH as (segments & Hss & Heq); [done|]. exists (s :: segments). simpl. rewrite Heq. split; [by constructor|done].
Qed.
Lemma segments_valid_path segments : Forall (Forall symbol_ok) segments ->
  valid_path (join_with slash (map segment_text segments)) = true.
Proof.
  induction 1 as [|s segments Hs Hss IH]; [done|]. destruct segments as [|s' segments].
  - simpl. rewrite <- (app_nil_r (segment_text s)). by rewrite segment_valid.
  - change (join_with slash (map segment_text (s :: s' :: segments))) with
      (segment_text s ++ slash :: join_with slash (map segment_text (s' :: segments))).
    rewrite segment_valid by done. simpl. exact IH.
Qed.

(** ** Unambiguity *)

Lemma upper_hex_inj d e : 0 <= d < 16 -> 0 <= e < 16 -> upper_hex d = upper_hex e -> d = e.
Proof. unfold upper_hex. intros ??. destruct (d <? 10) eqn:?, (e <? 10) eqn:?; bool_to_prop; lia. Qed.

Lemma segment_text_inj s t : Forall symbol_ok s -> Forall symbol_ok t -> segment_text s = segment_text t -> s = t.
Proof.
  unfold segment_text. intros Hs. revert t. induction Hs as [|a s Ha Hs IH]; intros [|b t] Ht Heq; simpl in Heq.
  - done.
  - by destruct b.
  - by destruct a.
  - apply Forall_cons in Ht as [Hb Ht]. destruct a as [c|v], b as [d|w]; simplify_eq/=.
    + f_equal. by apply IH.
    + by apply pchar_spec, plain_octet in Ha as [? _].
    + by apply pchar_spec, plain_octet in Hb as [? _].
    + destruct Ha as [Hv _], Hb as [Hw _]. f_equal; [|by apply IH]. f_equal.
      apply upper_hex_inj in H; [|Z.div_mod_to_equations; lia..]. apply upper_hex_inj in H0; [|Z.div_mod_to_equations; lia..].
      rewrite (Z.div_mod v 16), (Z.div_mod w 16) by lia. congruence.
Qed.

(** ** Identifiers *)

Definition name_octet (c : Z) : bool := is_pchar c || (c =? slash) || (c =? percent).

Lemma alphanumeric_octet c : ascii_alphanumeric c = true -> name_octet c = true.
Proof. intros Hc. unfold name_octet, is_pchar, is_unreserved. by rewrite Hc. Qed.
Lemma digit_octet c : ascii_digit c = true -> name_octet c = true.
Proof. intros Hc. apply alphanumeric_octet. unfold ascii_alphanumeric. by rewrite Hc, orb_true_r. Qed.
Lemma label_name_octet c : label_octet c = true -> name_octet c = true.
Proof.
  unfold label_octet. intros [[Hc|Hc]%orb_true_iff|Hc]%orb_true_iff.
  - apply alphanumeric_octet. unfold ascii_alphanumeric, ascii_alphabetic. unfold ascii_lowercase in Hc. by rewrite Hc, orb_true_r.
  - by apply digit_octet.
  - apply Z.eqb_eq in Hc as ->. done.
Qed.
Lemma hex_octet d : 0 <= d < 16 -> name_octet (upper_hex d) = true.
Proof.
  intros Hd. apply alphanumeric_octet. unfold ascii_alphanumeric, ascii_alphabetic, ascii_digit, upper_hex.
  destruct (d <? 10) eqn:E; bool_to_prop; rewrite !orb_true_iff, !andb_true_iff, !Z.leb_le; lia.
Qed.
Lemma symbol_octets s c : symbol_ok s -> c ∈ symbol_text s -> name_octet c = true.
Proof.
  destruct s as [d|v]; simpl.
  - intros Hd%pchar_spec Hin%list_elem_of_singleton. subst. unfold name_octet. by rewrite Hd.
  - intros [Hv _] Hin. apply elem_of_cons in Hin as [->|Hin]; [done|].
    apply elem_of_cons in Hin as [->| ->%list_elem_of_singleton]; apply hex_octet; Z.div_mod_to_equations; lia.
Qed.
Lemma segment_octets s c : Forall symbol_ok s -> c ∈ segment_text s -> name_octet c = true.
Proof.
  intros Hs Hc. unfold segment_text in Hc. apply list_elem_of_In, in_concat in Hc as (t & Ht & Hc).
  apply list_elem_of_In, list_elem_of_fmap in Ht as (y & -> & Hy). rewrite Forall_forall in Hs.
  apply (symbol_octets y); [auto|by apply list_elem_of_In].
Qed.
Lemma path_octets segments c : Forall (Forall symbol_ok) segments -> c ∈ path_text segments -> name_octet c = true.
Proof.
  intros Hs [->|[->|(p & Hp & Hc)]%elem_of_join]%elem_of_cons; [done..|].
  apply list_elem_of_fmap in Hp as (y & -> & Hy). rewrite Forall_forall in Hs. eauto using segment_octets.
Qed.
Lemma authority_name_octets auth c : authority_ok auth -> c ∈ auth -> name_octet c = true.
Proof.
  intros Ha Hc. destruct (authority_octets _ _ Ha Hc) as [?|[->| ->]]; [by apply label_name_octet|done..].
Qed.

Lemma name_octet_ascii c : name_octet c = true -> c <= 127 /\ c <> 63 /\ c <> 35.
Proof.
  unfold name_octet, is_pchar, is_unreserved, ascii_alphanumeric, ascii_alphabetic, ascii_digit. rewrite !orb_true_iff.
  intros Hc. repeat match goal with H : _ \/ _ |- _ => destruct H end; bool_to_prop; try (unfold slash, percent, dash, dot_octet in *; lia).
  repeat (apply elem_of_cons in H as [->|H]; [lia|]). by apply elem_of_nil in H.
Qed.

Lemma name_authority_ok a : name_ok a -> authority_ok (authority_text a).
Proof.
  intros [Hh Hp _ _ _]. by exists (an_labels a), (an_port a).
Qed.
Lemma name_symbols_ok a : name_ok a -> Forall (Forall symbol_ok) (an_segments a).
Proof. intros Ha. eapply Forall_impl; [apply (no_segment_ok a Ha)|]. by intros s [? _]. Qed.

Lemma name_octets a c : name_ok a -> c ∈ name_text a -> name_octet c = true.
Proof.
  intros Ha Hc. unfold name_text, origin_text in Hc. rewrite !elem_of_app in Hc. destruct Hc as [[Hc|Hc]|Hc].
  - revert Hc. assert (forallb name_octet https_prefix = true) as Hall by (by vm_compute).
    rewrite forallb_elem in Hall. apply Hall.
  - eauto using authority_name_octets, name_authority_ok.
  - eauto using path_octets, name_symbols_ok.
Qed.

Lemma split_name a : name_ok a -> split_https (name_text a) = Ok (origin_text a, path_text (an_segments a)).
Proof.
  intros Ha. apply split_https_ok. exists (authority_text a). split_and!; [by apply name_authority_ok|done|done|by right|..].
  - apply forallb_elem. intros c Hc. apply Z.leb_le. by apply (name_octet_ascii c), (name_octets a).
  - intros Hc. apply (name_octets a) in Hc as (_ & Hc & _)%name_octet_ascii; done.
  - intros Hc. apply (name_octets a) in Hc as (_ & _ & Hc)%name_octet_ascii; done.
Qed.

Lemma split_segments segments : Forall (Forall symbol_ok) segments -> segments <> [] ->
  split_on slash (join_with slash (map segment_text segments)) = map segment_text segments.
Proof.
  intros Hs Hne. apply split_join; [by destruct segments|]. apply Forall_fmap. eapply Forall_impl; [exact Hs|].
  intros s Hok. by apply segment_no_slash.
Qed.

(** The segments that the code refuses. *)
Lemma dot_segment_spec segment : Forall symbol_ok segment ->
  dot_segment (segment_text segment) = false <-> segment <> [] /\ segment <> [Plain 46] /\ segment <> [Plain 46; Plain 46].
Proof.
  intros Hs. unfold dot_segment. rewrite !orb_false_iff, !bool_decide_eq_false. unfold dot_octet.
  assert (forall t, Forall symbol_ok t -> segment_text segment = segment_text t <-> segment = t) as Heq.
  { intros t Ht. split; [by apply segment_text_inj|by intros ->]. }
  assert (symbol_ok (Plain 46)) as Hd by (left; unfold unreserved_char; by apply (bool_decide_unpack _); vm_compute).
  pose proof (Heq [] ltac:(constructor)) as E0. pose proof (Heq [Plain 46] ltac:(by repeat constructor)) as E1.
  pose proof (Heq [Plain 46; Plain 46] ltac:(by repeat constructor)) as E2. cbn in E0, E1, E2. rewrite E0, E1, E2. unfold not. tauto.
Qed.

Lemma recognise_name a : name_ok a -> recognise_application_id (name_text a) = Ok (origin_text a).
Proof.
  intros Ha. unfold recognise_application_id. rewrite bool_decide_eq_false_2 by done. pose proof (no_length a Ha). unfold MAX_APPLICATION_ID_OCTETS in *.
  destruct (_ <? _) eqn:E; bool_to_prop; [lia|]. cbn [orb]. rewrite split_name, ok_bind by done.
  unfold path_text. rewrite Z.eqb_refl. cbn [negb orb].
  rewrite split_segments by (apply name_symbols_ok || apply no_segments; done).
  assert (existsb dot_segment (map segment_text (an_segments a)) = false) as ->.
  { apply not_true_iff_false. rewrite existsb_exists. intros (p & Hp & Hd). apply list_elem_of_In, list_elem_of_fmap in Hp as (s & -> & Hs). pose proof (no_segment_ok a Ha) as Hok.
    rewrite Forall_forall in Hok. destruct (Hok _ Hs) as [Hsy Hds]. apply dot_segment_spec in Hds; [|done]. congruence. }
  simpl. by rewrite segments_valid_path by (by apply name_symbols_ok).
Qed.

Lemma recognised_name value origin : recognise_application_id value = Ok origin ->
  exists a, name_ok a /\ value = name_text a /\ origin = origin_text a.
Proof.
  unfold recognise_application_id. destruct (_ || _) eqn:E; [done|]. apply orb_false_iff in E as [_ Hlen].
  intros ([o path] & Hs%split_https_ok & Hk)%bind_ok. destruct Hs as (auth & Hauth & -> & -> & _ & _).
  destruct path as [|c rest]; [done|]. destruct (_ || _) eqn:E; [done|]. injection Hk as <-.
  apply orb_false_iff in E as [[Hc Hdot]%orb_false_iff Hv]. bool_to_prop. subst c.
  rewrite <- (join_split slash rest) in Hv. simpl in Hv.
  destruct (valid_path_segments (split_on slash rest)) as (segments & Hok & Heq); [apply split_on_fresh|done|].
  destruct Hauth as (labels & port & -> & Hh & Hp).
  exists (mkApplicationName labels port segments). unfold name_text, path_text. simpl. rewrite <- Heq, join_split.
  split_and!; [|done|done]. split; simpl; try done.
  - intros ->. destruct (split_on_cons slash rest) as (? & ? & Hcons). by rewrite Hcons in Heq.
  - apply Forall_forall. intros s Hin. rewrite Forall_forall in Hok. specialize (Hok s Hin). split; [done|].
    apply dot_segment_spec; [done|]. apply not_true_iff_false. intros Hd. apply not_true_iff_false in Hdot. apply Hdot, existsb_exists.
    exists (segment_text s). split; [|done]. rewrite Heq. by apply list_elem_of_In, list_elem_of_fmap_2.
  - unfold name_text, path_text, origin_text, authority_text. simpl. by rewrite <- Heq, join_split.
Qed.

Lemma name_text_inj a b : name_ok a -> name_ok b -> name_text a = name_text b -> a = b.
Proof.
  intros Ha Hb Heq. pose proof (split_name a Ha) as Hs. rewrite Heq, (split_name b Hb) in Hs. injection Hs as Ho Hp.
  unfold authority_text in Ho.
  pose proof (port_scan _ _ (no_host a Ha) (no_port a Ha)) as Hsa. rewrite <- Ho, (port_scan _ _ (no_host b Hb) (no_port b Hb)) in Hsa.
  assert (an_port a = an_port b /\ join_with dot_octet (an_labels a) = join_with dot_octet (an_labels b)) as [Hport Hhost].
  { pose proof (no_port a Ha) as Hpa. pose proof (no_port b Hb) as Hpb. destruct (an_port a) as [n|], (an_port b) as [m|]; simpl in Hsa; simplify_eq.
    - split; [|done]. f_equal. by apply decimal_text_inj.
    - split; [done|]. simpl in Ho. by rewrite !app_nil_r in Ho. }
  pose proof (labels_split _ (no_host a Ha)) as Hla. pose proof (labels_split _ (no_host b Hb)) as Hlb.
  assert (map segment_text (an_segments a) = map segment_text (an_segments b)) as Hsegs.
  { rewrite <- (split_segments (an_segments a)), <- (split_segments (an_segments b)) by
      (apply name_symbols_ok || apply no_segments; done). by rewrite Hp. }
  pose proof (name_symbols_ok a Ha) as Hka. pose proof (name_symbols_ok b Hb) as Hkb.
  destruct a as [la pa sa], b as [lb pb sb]; simpl in *. f_equal; [congruence|done|].
  clear -Hsegs Hka Hkb. revert sb Hsegs Hkb. induction Hka as [|s sa Hs _ IH]; intros [|t sb] Heq Hkb; simplify_eq/=; [done|].
  apply Forall_cons in Hkb as [Ht Hkb]. f_equal; [by apply segment_text_inj|by apply IH].
Qed.

(** ** Validated claims *)

Lemma any_descent_ascending l : any_descent l = false ->
  forall i a b, l !! i = Some a -> l !! S i = Some b -> leb b a = false.
Proof.
  induction l as [|x [|y l] IH]; intros Hd i a b Ha Hb; [done|by destruct i|].
  cbn [any_descent] in Hd. apply orb_false_iff in Hd as [Hx Hd]. destruct i as [|i].
  - simpl in *. injection Ha as ->. by injection Hb as ->.
  - by apply (IH Hd i a b).
Qed.

(** What a validated set of claims satisfies: the identifier is the rendering
    of a well-formed name whose origin is the web origin, and the permissions
    are one to four non-empty strings in strictly ascending order. *)
Record claims_valid (c : CredentialV2IntentClaims) (a : application_name) : Prop := {
  cv_name : name_ok a;
  cv_application : ascii_bytes (ic_application_id c) = name_text a;
  cv_origin : ascii_bytes (ic_https_origin c) = origin_text a;
  cv_relay : exists auth, authority_ok auth /\ ascii_bytes (ic_relay_origin c) = https_prefix ++ auth;
  cv_count : (1 <= length (ic_permissions c) <= 4)%nat;
  cv_each p : p ∈ ic_permissions c -> 1 <= blen (ascii_bytes p) <= 128;
  cv_ascending i p q : ic_permissions c !! i = Some p -> ic_permissions c !! S i = Some q ->
    leb (ascii_bytes q) (ascii_bytes p) = false;
  cv_device : device_validate (ic_device_binding c) = Ok tt;
  cv_transition : transition_validate (ic_transition c) = Ok tt
}.

Lemma recognised_origin value maximum : recognise_origin value maximum = Ok tt ->
  exists auth, authority_ok auth /\ value = https_prefix ++ auth.
Proof.
  unfold recognise_origin. destruct (_ || _); [done|]. intros ([origin path] & Hs & Hk)%bind_ok.
  apply split_https_ok in Hs as (auth & Hauth & Hv & Ho & _). case_hyp. apply orb_false_iff in Heqb as [Hb _].
  bool_to_prop. exists auth. split; [done|]. congruence.
Qed.

Lemma validated_claims c : claims_validate c = Ok tt -> exists a, claims_valid c a.
Proof.
  unfold claims_validate. intros (origin & (a & Ha & Hid & Ho)%recognised_name & Hd)%bind_ok.
  apply bind_ok in Hd as ([] & _ & ([] & Hrelay%recognised_origin & Hd)%bind_ok). case_hyp. cbv zeta in Hd.
  destruct (_ || any_descent _) eqn:E; [done|].
  apply orb_false_iff in E as [[[He Hn]%orb_false_iff Hp]%orb_false_iff Hdesc].
  apply negb_false_iff, bool_decide_eq_true in Heqb. apply bool_decide_eq_false in He.
  apply bind_ok in Hd as ([] & Hdev & Htr). exists a. split; try done.
  - apply Nat.ltb_ge in Hn. rewrite length_map in Hn. destruct (ic_permissions c); [done|]. unfold MAX_PERMISSIONS in *. simpl in *. lia.
  - intros p Hin. destruct (bool_decide (ascii_bytes p = []) || (MAX_PERMISSION_OCTETS <? blen (ascii_bytes p))) eqn:E.
    { exfalso. apply not_true_iff_false in Hp. apply Hp, existsb_exists. exists (ascii_bytes p). split; [|done].
      by apply list_elem_of_In, list_elem_of_fmap_2. }
    apply orb_false_iff in E as [E1 E2]. bool_to_prop. unfold MAX_PERMISSION_OCTETS in *. destruct (ascii_bytes p); [done|].
    unfold blen in *. simpl in *. lia.
  - intros i p q Hi Hj. apply (any_descent_ascending _ Hdesc i); by rewrite list_lookup_fmap, ?Hi, ?Hj.
Qed.
