(* ===== verification/CredCarrier.v ===== *)
(** * Machine carriers of credential/v2 ([src/credential_v2/carrier.rs])

    The carrier with its codec and validation, the human-presence secrets
    supplied apart from it, and the inverse of the codec. *)

From S2P Require Import Prelude External Wire Cddl WireCodec WireLaws CbclProtocol CredCore CredDisplay.

Definition V2_PROFILE : string := "anuna.io/credential/v2".

(** [CredentialV2CarrierInput] and its wrapper [CredentialV2Carrier]. *)
Record CredentialV2Carrier := mkCredentialV2Carrier {
  ca_application_context : string;
  ca_relay_origin : string;
  ca_mailbox_id : bytes;
  ca_carrier_ceremony_id : bytes;
  ca_carrier_nonce : bytes;
  ca_claim_commitment : bytes;
  ca_relay_expires_at : Z;
  ca_expected_allocator_key : option bytes
}.
#[export] Instance CredentialV2Carrier_eq_dec : EqDecision CredentialV2Carrier.
Proof. solve_decision. Defined.

Definition v2_validate_origin `{UrlParser} (value : string) (maximum : Z) : credM unit :=
  let octets := ascii_bytes value in
  if bool_decide (octets = []) || (maximum <? blen octets) || negb (is_ascii octets) then Err CredentialV2Error_Origin
  else
    parsed ← ok_or (url_parse value) CredentialV2Error_Origin;
    if negb (bool_decide (url_scheme parsed = "https"%string)) ||
       negb (bool_decide (url_username parsed = EmptyString)) || bool_decide (is_Some (url_password parsed)) ||
       bool_decide (is_Some (url_query parsed)) || bool_decide (is_Some (url_fragment parsed)) ||
       negb (bool_decide (url_path parsed = "/"%string)) || negb (bool_decide (url_origin parsed = value))
    then Err CredentialV2Error_Origin
    else Ok tt.

Definition carrier_entries (c : CredentialV2Carrier) : list (string * Value) :=
  [("version", VInteger 2); ("profile", VText V2_PROFILE); ("application-context", VText (ca_application_context c));
   ("profile-version", VInteger 2); ("relay-origin", VText (ca_relay_origin c)); ("locator", VBytes (ca_mailbox_id c));
   ("carrier-ceremony-id", VBytes (ca_carrier_ceremony_id c)); ("carrier-nonce", VBytes (ca_carrier_nonce c));
   ("claim-commitment", VBytes (ca_claim_commitment c)); ("relay-expires-at", VInteger (ca_relay_expires_at c))] ++
  optional_entry "expected-allocator-key" (VBytes <$> ca_expected_allocator_key c).

Section Carrier.
Context `{Cbor, UrlParser}.

Definition encode_carrier (carrier : CredentialV2Carrier) : credM bytes :=
  _ ← recognise_application_id (ascii_bytes (ca_application_context carrier));
  _ ← v2_validate_origin (ca_relay_origin carrier) 272;
  ok_or (to_canonical_vec (text_map (carrier_entries carrier))) CredentialV2Error_Schema.

Definition CredentialV2Carrier_new (input : CredentialV2Carrier) : credM CredentialV2Carrier :=
  _ ← recognise_application_id (ascii_bytes (ca_application_context input));
  _ ← v2_validate_origin (ca_relay_origin input) 272;
  _ ← encode_carrier input;
  Ok input.

(** [.map(fixed_bytes).transpose()?]. *)
Definition optional_key (value : option Value) : credM (option bytes) :=
  match value with
  | Some value => key ← v2_fixed_bytes 32 value; Ok (Some key)
  | None => Ok None
  end.

Definition decode_carrier (input : bytes) : credM CredentialV2Carrier :=
  value ← decode_canonical input;
  entries ← v2_map_entries value;
  let expected_len :=
    if bool_decide (is_Some (optional_field entries "expected-allocator-key")) then 11%nat else 10%nat in
  if negb (length entries =? expected_len)%nat then Err CredentialV2Error_Schema
  else
    version ← v2_uint_field entries "version";
    if negb (version =? 2) then Err CredentialV2Error_Schema
    else
      profile ← v2_text_field entries "profile";
      if negb (bool_decide (profile = V2_PROFILE)) then Err CredentialV2Error_Schema
      else
        profile_version ← v2_uint_field entries "profile-version";
        if negb (profile_version =? 2) then Err CredentialV2Error_Schema
        else
          application_context ← v2_text_field entries "application-context";
          relay_origin ← v2_text_field entries "relay-origin";
          mailbox_id ← v2_bytes_field 32 entries "locator";
          carrier_ceremony_id ← v2_bytes_field 32 entries "carrier-ceremony-id";
          carrier_nonce ← v2_bytes_field 32 entries "carrier-nonce";
          claim_commitment ← v2_bytes_field 32 entries "claim-commitment";
          relay_expires_at ← v2_uint_field entries "relay-expires-at";
          expected_allocator_key ← optional_key (optional_field entries "expected-allocator-key");
          carrier ← CredentialV2Carrier_new
                      (mkCredentialV2Carrier application_context relay_origin mailbox_id carrier_ceremony_id carrier_nonce
                         claim_commitment relay_expires_at expected_allocator_key);
          encoded ← encode_carrier carrier;
          if negb (bool_decide (encoded = input)) then Err CredentialV2Error_NonDeterministic else Ok carrier.

(** [digest], whose encoding is an [expect]. *)
Definition carrier_digest `{Sha256} (carrier : CredentialV2Carrier) : credM bytes :=
  match encode_carrier carrier with
  | Ok octets => Ok (sha256 octets)
  | _ => Panic
  end.
End Carrier.

(** ** Human presence *)

Record CredentialV2Presence := mkCredentialV2Presence {
  pr_cpace_secret : bytes;
  pr_claim_token : option bytes
}.

Definition CredentialV2Presence_new (cpace_secret claim_token : bytes) : CredentialV2Presence :=
  mkCredentialV2Presence cpace_secret (Some claim_token).
(** [claim_token.take()]. *)
Definition take_claim_token : stM CredentialV2Presence CredentialV2Error bytes :=
  p ← get;
  _ ← modify (fun p => mkCredentialV2Presence (pr_cpace_secret p) None);
  lift (ok_or (pr_claim_token p) CredentialV2Error_Terminal).
Definition checkpoint_parts (p : CredentialV2Presence) : bytes * option bytes := (pr_cpace_secret p, pr_claim_token p).
Definition presence_from_checkpoint (cpace_secret : bytes) (claim_token : option bytes) : CredentialV2Presence :=
  mkCredentialV2Presence cpace_secret claim_token.

(** ** Carriers are read back exactly *)

(** Rust's array sizes and integer width. *)
Record carrier_typed (c : CredentialV2Carrier) : Prop := {
  cat_mailbox : length (ca_mailbox_id c) = 32%nat;
  cat_ceremony : length (ca_carrier_ceremony_id c) = 32%nat;
  cat_nonce : length (ca_carrier_nonce c) = 32%nat;
  cat_commitment : length (ca_claim_commitment c) = 32%nat;
  cat_expiry : 0 <= ca_relay_expires_at c <= u64_max;
  cat_key : match ca_expected_allocator_key c with Some k => length k = 32%nat | None => True end
}.

Lemma v2_bytes_field_ok n es k b : v2_bytes_field n es k = Ok b -> length b = n.
Proof. unfold v2_bytes_field. intros (v & _ & [_ ?]%v2_fixed_bytes_ok)%bind_ok. done. Qed.
Lemma v2_uint_field_ok es k z : v2_uint_field es k = Ok z -> 0 <= z <= u64_max.
Proof. unfold v2_uint_field. intros (v & _ & [_ ?]%v2_uint_ok)%bind_ok. done. Qed.
Lemma optional_key_ok v k : optional_key v = Ok k -> match k with Some k => length k = 32%nat | None => True end.
Proof.
  unfold optional_key. destruct v; [|by intros [= <-]]. intros (k' & [_ ?]%v2_fixed_bytes_ok & [= <-])%bind_ok. done.
Qed.

Section Carrier.
Context `{Cbor, !CborLaws, UrlParser}.

Lemma carrier_entries_plain c : carrier_typed c -> plain_entries (carrier_entries c).
Proof.
  intros [_ _ _ _ He _]. unfold carrier_entries. destruct (ca_expected_allocator_key c); split.
  1,3: apply (bool_decide_unpack _); by vm_compute.
  all: repeat constructor; simpl; by rewrite andb_true_iff, !Z.leb_le.
Qed.

Lemma carrier_new_ok c c' : CredentialV2Carrier_new c = Ok c' <-> c' = c /\ exists b, encode_carrier c = Ok b.
Proof.
  unfold CredentialV2Carrier_new, encode_carrier.
  destruct (recognise_application_id _) as [o| |]; simpl; [|naive_solver..].
  destruct (v2_validate_origin _ _) as [[]| |]; simpl; [|naive_solver..].
  destruct (to_canonical_vec _); simpl; naive_solver.
Qed.

(** Decoding accepts exactly the encodings. *)
Lemma carrier_inverse b c : decode_carrier b = Ok c <-> carrier_typed c /\ encode_carrier c = Ok b.
Proof.
  split.
  - unfold decode_carrier. intros (v & _ & (es & _ & Hd)%bind_ok)%bind_ok.
    revert Hd. cbv zeta. generalize (if bool_decide (is_Some (optional_field es "expected-allocator-key")) then 11%nat else 10%nat).
    intros expected_len Hd. case_hyp.
    apply bind_ok in Hd as (ver & _ & Hd). case_hyp. apply bind_ok in Hd as (p & _ & Hd). case_hyp.
    apply bind_ok in Hd as (pv & _ & Hd). case_hyp.
    apply bind_ok in Hd as (app & _ & (origin & _ & (m & Hm%v2_bytes_field_ok & Hd)%bind_ok)%bind_ok).
    apply bind_ok in Hd as (cid & Hcid%v2_bytes_field_ok & (n & Hn%v2_bytes_field_ok & Hd)%bind_ok).
    apply bind_ok in Hd as (com & Hcom%v2_bytes_field_ok & (e & He%v2_uint_field_ok & Hd)%bind_ok).
    apply bind_ok in Hd as (k & Hk%optional_key_ok & (c' & [-> _]%carrier_new_ok & (b' & Hb & Hd)%bind_ok)%bind_ok).
    case_hyp. bool_to_prop. subst b'. done.
  - intros [Hty He]. apply bind_ok in He as He'. destruct He' as (o & _ & (u & _ & Hw%ok_or_ok)%bind_ok).
    destruct (read_text_map _ b (carrier_entries_plain c Hty) Hw) as (es & Hd & Hlen & Hf).
    unfold decode_carrier. rewrite Hd, ok_bind. cbn [v2_map_entries]. rewrite ok_bind.
    unfold v2_uint_field, v2_text_field, v2_bytes_field, v2_field. rewrite !Hf, Hlen.
    assert (CredentialV2Carrier_new c = Ok c) as Hnew by (apply carrier_new_ok; eauto).
    destruct Hty as [Hm Hc Hn Hcom Hexp Hk]. destruct c as [app origin m cid n com e k]. simpl in *.
    rewrite ?(v2_uint_integer 2) by done. destruct k as [k|]; simpl.
    all: rewrite ?(proj2 (v2_fixed_bytes_ok 32 (VBytes m) m)), ?(proj2 (v2_fixed_bytes_ok 32 (VBytes cid) cid)),
      ?(proj2 (v2_fixed_bytes_ok 32 (VBytes n) n)), ?(proj2 (v2_fixed_bytes_ok 32 (VBytes com) com)) by done; simpl.
    all: rewrite v2_uint_integer by done; simpl.
    1: rewrite (proj2 (v2_fixed_bytes_ok 32 (VBytes k) k)) by done; simpl.
    all: rewrite Hnew; simpl; rewrite He; simpl; by rewrite bool_decide_eq_true_2.
Qed.
End Carrier.
