(* ===== verification/CredContext.v ===== *)
(** * Context and account selection of credential/v2 ([src/credential_v2/context.rs], [account_select.rs])

    The public octets both sides derive from the carrier and the live profile,
    the start of CPace, the claimant's account selection object, and the lemmas
    on what they bind. *)

From S2P Require Import Prelude External Wire Cddl WireCodec WireLaws Context CurveExternal Cpace CredCore CredDisplay CredCarrier.

(** ** Context *)

Record CredentialV2Context := mkCredentialV2Context {
  cx_channel_identifier : bytes;
  cx_public_context : bytes;
  cx_session_id : bytes;
  cx_carrier_ceremony_id : bytes;
  cx_carrier_digest : bytes;
  cx_associated_data : bytes * bytes
}.

(** The members the two arrays of [derive] share after their domain. *)
Definition shared_members (c : CredentialV2Carrier) (profile_digest digest : bytes) : list Value :=
  [VInteger 2; VText SUITE_ID; VText V2_PROFILE; VText (ca_application_context c); VBytes profile_digest; VBytes digest;
   VText (ca_relay_origin c); VBytes (ca_mailbox_id c); VBytes (ca_carrier_ceremony_id c);
   VBytes (ca_claim_commitment c)].
Definition v2_channel_identifier_value (c : CredentialV2Carrier) (profile_digest digest : bytes) : Value :=
  VArray (VText "cbcl-pairing-ci/credential-v2" :: shared_members c profile_digest digest ++
          [VArray [VText "allocator"; VText "claimant"]]).
Definition v2_public_context_value (c : CredentialV2Carrier) (profile_digest digest : bytes) : Value :=
  VArray (VText "cbcl-pairing-public-context/credential-v2" :: shared_members c profile_digest digest ++
          [key_or_null (ca_expected_allocator_key c); VNull]).
Definition v2_associated_data_value (side : Side) (expected_key : option bytes) (profile_digest digest : bytes) : Value :=
  VArray [VText "cbcl-pairing-ad/credential-v2"; VText (side_text side); key_or_null expected_key;
          VBytes profile_digest; VBytes digest].

Definition v2_associated_data (c : CredentialV2Context) (side : Side) : bytes :=
  match side with Side_Allocator => (cx_associated_data c).1 | Side_Claimant => (cx_associated_data c).2 end.

Section Context.
Context `{Cbor, Sha256, UrlParser}.

Definition v2_canonical (value : Value) : credM bytes := ok_or (to_canonical_vec value) CredentialV2Error_Schema.

(** [CredentialV2Context::derive]. *)
Definition v2_derive (carrier : CredentialV2Carrier) (profile_digest : bytes) : credM CredentialV2Context :=
  digest ← carrier_digest carrier;
  channel_identifier ← v2_canonical (v2_channel_identifier_value carrier profile_digest digest);
  allocator_data ← v2_canonical (v2_associated_data_value Side_Allocator (ca_expected_allocator_key carrier) profile_digest digest);
  claimant_data ← v2_canonical (v2_associated_data_value Side_Claimant None profile_digest digest);
  public_context ← v2_canonical (v2_public_context_value carrier profile_digest digest);
  Ok (mkCredentialV2Context channel_identifier public_context (ca_mailbox_id carrier) (ca_carrier_ceremony_id carrier)
        digest (allocator_data, claimant_data)).

Definition v2_start_cpace `{Sha512, Fiat25519, X25519} (c : CredentialV2Context) (side : Side) (presence : CredentialV2Presence)
    (fresh_scalar : bytes) : credM (CpaceState * CpaceMessage) :=
  let peer := match side with Side_Allocator => Side_Claimant | Side_Claimant => Side_Allocator end in
  map_err (fun _ => CredentialV2Error_Cpace)
    (start_bound side (pr_cpace_secret presence) (cx_channel_identifier c) (cx_session_id c)
       (v2_associated_data c side) (v2_associated_data c peer) fresh_scalar).

(** ** Account selection *)

Definition ACCOUNT_SELECT_DOMAIN : string := "selfsame-account-select/v1".
Definition MAX_APPLICATION_ID : Z := 2048.

Definition account_select_intent_digest : bytes :=
  sha256 (ascii_bytes "cbcl-pairing credential/v2 account-select intent/v1").

Record CredentialV2AccountSelect := mkCredentialV2AccountSelect {
  as_carrier_ceremony_id : bytes;
  as_application_id : string;
  as_account_scope : option bytes
}.

Definition CredentialV2AccountSelect_new (carrier_ceremony_id : bytes) (application_id : string)
    (account_scope : option bytes) : credM CredentialV2AccountSelect :=
  if (blen (ascii_bytes application_id) =? 0) || (MAX_APPLICATION_ID <? blen (ascii_bytes application_id))
  then Err CredentialV2Error_Schema
  else Ok (mkCredentialV2AccountSelect carrier_ceremony_id application_id account_scope).

Definition selection_value (account_scope : option bytes) : Value :=
  match account_scope with
  | None => VArray [VInteger 0]
  | Some scope => VArray [VInteger 1; VBytes scope]
  end.
Definition account_select_value (s : CredentialV2AccountSelect) : Value :=
  VArray [VText ACCOUNT_SELECT_DOMAIN; VBytes (as_carrier_ceremony_id s); VText (as_application_id s);
          selection_value (as_account_scope s)].

(** [encode], an [expect]. *)
Definition encode_account_select (s : CredentialV2AccountSelect) : credM bytes :=
  expect (to_canonical_vec (account_select_value s)).

Definition decode_selection (selection : list Value) : credM (option bytes) :=
  match selection with
  | [tag] =>
      n ← v2_uint tag;
      if n =? 0 then Ok None else Err CredentialV2Error_Schema
  | [tag; scope] =>
      n ← v2_uint tag;
      if n =? 1 then scope ← v2_fixed_bytes 32 scope; Ok (Some scope) else Err CredentialV2Error_Schema
  | _ => Err CredentialV2Error_Schema
  end.

Definition decode_account_select (body : bytes) : credM CredentialV2AccountSelect :=
  value ← decode_canonical body;
  match value with
  | VArray [domain; ceremony; application; selection] =>
      if match domain with VText d => negb (bool_decide (d = ACCOUNT_SELECT_DOMAIN)) | _ => true end
      then Err CredentialV2Error_Schema
      else
        carrier_ceremony_id ← v2_fixed_bytes 32 ceremony;
        application_id ← v2_as_text application;
        match selection with
        | VArray selection =>
            account_scope ← decode_selection selection;
            CredentialV2AccountSelect_new carrier_ceremony_id application_id account_scope
        | _ => Err CredentialV2Error_Schema
        end
  | _ => Err CredentialV2Error_Schema
  end.

(** [object]. *)
Definition account_select_object (s : CredentialV2AccountSelect) : credM CredentialV2Object :=
  body ← encode_account_select s;
  CredentialV2Object_new Kind_AccountSelect account_select_intent_digest body.

(** [recognise]. *)
Definition recognise_account_select (object : CredentialV2Object) (carrier_ceremony_id : bytes)
    (application_id : string) : credM CredentialV2AccountSelect :=
  if negb (bool_decide (ob_kind object = Kind_AccountSelect)) ||
     negb (bool_decide (ob_intent_digest object = account_select_intent_digest))
  then Err CredentialV2Error_Schema
  else
    selection ← decode_account_select (ob_body object);
    if negb (bool_decide (as_carrier_ceremony_id selection = carrier_ceremony_id)) ||
       negb (bool_decide (as_application_id selection = application_id))
    then Err CredentialV2Error_Profile
    else Ok selection.
End Context.

(** ** Account selections are read back exactly, and what the context binds *)

(** Rust's array sizes and the constructor's bound. *)
Record selection_typed (s : CredentialV2AccountSelect) : Prop := {
  st_ceremony : length (as_carrier_ceremony_id s) = 32%nat;
  st_application : 1 <= blen (ascii_bytes (as_application_id s)) <= MAX_APPLICATION_ID;
  st_scope : match as_account_scope s with Some b => length b = 32%nat | None => True end
}.

Section Selection.
Context `{Cbor, !CborLaws, Sha256}.

Lemma v2_as_text_ok v s : v2_as_text v = Ok s <-> v = VText s.
Proof. destruct v; simpl; split; intros; simplify_eq; done. Qed.
Lemma selection_new_ok id app scope s : CredentialV2AccountSelect_new id app scope = Ok s <->
  s = mkCredentialV2AccountSelect id app scope /\ 1 <= blen (ascii_bytes app) <= MAX_APPLICATION_ID.
Proof.
  unfold CredentialV2AccountSelect_new. pose proof (blen_nonneg (ascii_bytes app)). destruct (_ || _) eqn:E; split; try done.
  - intros [_ ?]. apply orb_true_iff in E as [E|E]; bool_to_prop; lia.
  - apply orb_false_iff in E as [? ?]. bool_to_prop. intros [= <-]. split; [done|lia].
  - by intros [-> _].
Qed.

Lemma decode_selection_ok l scope : decode_selection l = Ok scope ->
  VArray l = selection_value scope /\ match scope with Some b => length b = 32%nat | None => True end.
Proof.
  unfold decode_selection. destruct l as [|tag [|b [|]]]; try done.
  - intros (n & [-> _]%v2_uint_ok & Hd)%bind_ok. destruct (n =? 0) eqn:En; [|done]. apply Z.eqb_eq in En as ->. by injection Hd as <-.
  - intros (n & [-> _]%v2_uint_ok & Hd)%bind_ok. destruct (n =? 1) eqn:En; [|done]. apply Z.eqb_eq in En as ->.
    apply bind_ok in Hd as (b' & [-> Hl]%v2_fixed_bytes_ok & [= <-]). done.
Qed.

Lemma selection_inverse b s : decode_account_select b = Ok s <-> selection_typed s /\ encode_account_select s = Ok b.
Proof.
  split.
  - unfold decode_account_select. intros (v & (_ & Hw & _)%decode_canonical_ok & Hd)%bind_ok.
    destruct v as [| | | | | | |l|]; try done. destruct l as [|domain [|ceremony [|application [|sel [|]]]]]; try done.
    destruct domain; try done. destruct (negb _) eqn:E; [done|]. apply negb_false_iff, bool_decide_eq_true in E.
    apply bind_ok in Hd as (id & [-> Hid]%v2_fixed_bytes_ok & (app & ->%v2_as_text_ok & Hd)%bind_ok).
    destruct sel as [| | | | | | |l|]; try done.
    apply bind_ok in Hd as (scope & [Hv Hl]%decode_selection_ok & [-> Hb]%selection_new_ok).
    split; [by split|]. unfold encode_account_select, account_select_value. simpl. by rewrite <- Hv, <- E, Hw.
  - intros [[Hid Happ Hsc] He]. unfold encode_account_select, expect in He.
    destruct (to_canonical_vec (account_select_value s)) as [b'|] eqn:Hw; [|done]. injection He as ->.
    unfold decode_account_select. rewrite (decode_plain (account_select_value s) b); [|by destruct s as [? ? []]|done].
    rewrite ok_bind. unfold account_select_value. rewrite bool_decide_eq_true_2 by done. cbn [negb].
    rewrite (proj2 (v2_fixed_bytes_ok 32 _ (as_carrier_ceremony_id s))) by done. rewrite ok_bind. cbn [v2_as_text]. rewrite ok_bind.
    destruct s as [id app [scope|]]; cbn [selection_value as_account_scope as_carrier_ceremony_id as_application_id] in *;
      unfold decode_selection; rewrite v2_uint_integer by done; rewrite ok_bind, Z.eqb_refl.
    + rewrite (proj2 (v2_fixed_bytes_ok 32 _ scope)) by done. rewrite !ok_bind. by apply selection_new_ok.
    + rewrite !ok_bind. by apply selection_new_ok.
Qed.
End Selection.

(** ** The context *)

Section Binding.
Context `{Cbor, !CborLaws, Sha256, UrlParser}.

Lemma v2_canonical_inj v w b c : plain v = true -> plain w = true -> v2_canonical v = Ok b -> v2_canonical w = Ok c ->
  b = c <-> v = w.
Proof.
  unfold v2_canonical. intros Hv Hw Hb%ok_or_ok Hc%ok_or_ok. split; [|congruence].
  intros <-. by apply (plain_written_inj v w b).
Qed.

Lemma v2_key_or_null_inj k k' : key_or_null k = key_or_null k' -> k = k'.
Proof. destruct k, k'; simpl; congruence. Qed.
Lemma identifier_plain_v2 c p d : plain (v2_channel_identifier_value c p d) = true.
Proof. done. Qed.
Lemma public_plain_v2 c p d : plain (v2_public_context_value c p d) = true.
Proof. unfold v2_public_context_value. simpl. by destruct (ca_expected_allocator_key c). Qed.
Lemma associated_plain_v2 side k p d : plain (v2_associated_data_value side k p d) = true.
Proof. unfold v2_associated_data_value. simpl. by destruct k. Qed.

Lemma v2_derive_ok c p x : v2_derive c p = Ok x -> exists b,
  encode_carrier c = Ok b /\ cx_carrier_digest x = sha256 b /\ cx_session_id x = ca_mailbox_id c /\
  v2_canonical (v2_channel_identifier_value c p (sha256 b)) = Ok (cx_channel_identifier x) /\
  v2_canonical (v2_public_context_value c p (sha256 b)) = Ok (cx_public_context x) /\
  v2_canonical (v2_associated_data_value Side_Allocator (ca_expected_allocator_key c) p (sha256 b)) = Ok (v2_associated_data x Side_Allocator) /\
  v2_canonical (v2_associated_data_value Side_Claimant None p (sha256 b)) = Ok (v2_associated_data x Side_Claimant).
Proof.
  unfold v2_derive, carrier_digest. destruct (encode_carrier c) as [b| |] eqn:Hb; [|done..]. rewrite ok_bind.
  intros (ci & Hci & (a & Ha & (cl & Hcl & (pc & Hpc & [= <-])%bind_ok)%bind_ok)%bind_ok)%bind_ok.
  by exists b.
Qed.

(** Two derivations share a channel identifier only for one carrier and profile. *)
Lemma v2_derive_binds c c' p p' x x' : v2_derive c p = Ok x -> v2_derive c' p' = Ok x' -> carrier_typed c -> carrier_typed c' ->
  cx_channel_identifier x = cx_channel_identifier x' \/ cx_public_context x = cx_public_context x' \/
    (exists side side', v2_associated_data x side = v2_associated_data x' side') ->
  p = p' /\ (c = c' \/ exists b b', b <> b' /\ sha256 b = sha256 b' /\ encode_carrier c = Ok b /\ encode_carrier c' = Ok b').
Proof.
  intros (b & Hb & _ & _ & Hci & Hpc & Haa & Hac)%v2_derive_ok (b' & Hb' & _ & _ & Hci' & Hpc' & Haa' & Hac')%v2_derive_ok Hc Hc' Heq.
  assert (p = p' /\ sha256 b = sha256 b') as [-> Hd].
  { destruct Heq as [Heq|[Heq|(side & side' & Heq)]].
    - apply (v2_canonical_inj _ _ _ _ (identifier_plain_v2 _ _ _) (identifier_plain_v2 _ _ _) Hci Hci') in Heq. by injection Heq.
    - apply (v2_canonical_inj _ _ _ _ (public_plain_v2 _ _ _) (public_plain_v2 _ _ _) Hpc Hpc') in Heq. by injection Heq.
    - destruct side, side'.
      + apply (v2_canonical_inj _ _ _ _ (associated_plain_v2 _ _ _ _) (associated_plain_v2 _ _ _ _) Haa Haa') in Heq. by injection Heq.
      + apply (v2_canonical_inj _ _ _ _ (associated_plain_v2 _ _ _ _) (associated_plain_v2 _ _ _ _) Haa Hac') in Heq. by injection Heq.
      + apply (v2_canonical_inj _ _ _ _ (associated_plain_v2 _ _ _ _) (associated_plain_v2 _ _ _ _) Hac Haa') in Heq. by injection Heq.
      + apply (v2_canonical_inj _ _ _ _ (associated_plain_v2 _ _ _ _) (associated_plain_v2 _ _ _ _) Hac Hac') in Heq. by injection Heq. }
  split; [done|]. destruct (decide (b = b')) as [<-|Hne]; [left|right; by exists b, b'].
  pose proof (proj2 (carrier_inverse b c) (conj Hc Hb)) as Hx. pose proof (proj2 (carrier_inverse b c') (conj Hc' Hb')) as Hx'.
  congruence.
Qed.
End Binding.
