(* ===== verification/CredPresence.v ===== *)
(** * Presence codes of credential/v2 ([src/credential_v2/presence.rs])

    The two secrets with a two-octet check, written as eleven groups of five
    characters of an alphabet of 32, and the theorem that the parser accepts
    exactly the displayed codes.  A text is the list of its octets. *)

From S2P Require Import Prelude External Wire WireCodec CbclExternal CbclProtocol CredCore CredDisplay CredCarrier.

Definition PRESENCE_PREFIX : bytes := ascii_bytes "PAIR1".
Definition PRESENCE_DOMAIN : bytes := ascii_bytes "selfsame credential/v2 presence code" ++ [0].
Definition ALPHABET : bytes := ascii_bytes "0123456789ABCDEFGHJKMNPQRSTVWXYZ".
Definition GROUPS : nat := 11.
Definition GROUP_OCTETS : nat := 5.
Definition DATA_BITS : nat := 272.
Definition ENCODED_BITS : nat := 275.

Record CredentialV2PresenceCode := mkCredentialV2PresenceCode {
  pc_cpace_secret : bytes;
  pc_claim_token : bytes
}.
Definition into_presence (c : CredentialV2PresenceCode) : CredentialV2Presence :=
  CredentialV2Presence_new (pc_cpace_secret c) (pc_claim_token c).

(** Bit [position] of the payload, most significant first. *)
Definition payload_bit (payload : bytes) (position : nat) : Z :=
  Z.land (Z.shiftr (nth (position / 8) payload 0) (7 - Z.of_nat (position `mod` 8))) 1.

(** One symbol: five bits, zeros past the data. *)
Definition symbol_value (payload : bytes) (symbol : nat) : Z :=
  fold_left (fun value bit =>
    let position := (symbol * 5 + bit)%nat in
    let value := Z.shiftl value 1 `mod` 256 in
    if (position <? DATA_BITS)%nat then Z.lor value (payload_bit payload position) else value)
    (seq 0 5) 0.

(** [payload[i] |= set << s]. *)
Definition or_bit (payload : bytes) (position : nat) (bit : Z) : bytes :=
  alter (fun octet => Z.lor octet (Z.shiftl bit (7 - Z.of_nat (position `mod` 8)))) (position / 8)%nat payload.

(** [ALPHABET.iter().position(..)]. *)
Definition symbol_position (character : Z) : option Z := Z.of_nat <$> find_octet character ALPHABET.

(** The inner loop over the bits of one symbol. *)
Definition read_bit (symbol : nat) (value : Z) (payload : credM bytes) (bit : nat) : credM bytes :=
  payload ← payload;
  let position := (symbol * 5 + bit)%nat in
  let set := Z.land (Z.shiftr value (4 - Z.of_nat bit)) 1 in
  if (position <? DATA_BITS)%nat then Ok (or_bit payload position set)
  else if (position <? ENCODED_BITS)%nat && negb (set =? 0) then Err CredentialV2Error_Schema
  else Ok payload.
Definition read_symbol (symbol : nat) (value : Z) (payload : bytes) : credM bytes :=
  fold_left (read_bit symbol value) (seq 0 5) (Ok payload).

Fixpoint read_symbols (symbol : nat) (characters : bytes) (payload : bytes) : credM bytes :=
  match characters with
  | [] => Ok payload
  | character :: characters =>
      value ← ok_or (symbol_position character) CredentialV2Error_Schema;
      payload ← read_symbol symbol value payload;
      read_symbols (S symbol) characters payload
  end.

Section Presence.
Context `{Sha256}.

Definition bind_to_carrier (c : CredentialV2PresenceCode) (carrier : CredentialV2Carrier) :
    credM CredentialV2PresenceCode :=
  if negb (bool_decide (claim_commitment (ca_mailbox_id carrier) (pc_claim_token c) = ca_claim_commitment carrier))
  then Err CredentialV2Error_Profile
  else Ok c.

Definition presence_check (cpace_secret claim_token : bytes) : bytes :=
  take 2 (sha256 (PRESENCE_DOMAIN ++ cpace_secret ++ claim_token)).
Definition presence_payload (c : CredentialV2PresenceCode) : bytes :=
  pc_cpace_secret c ++ pc_claim_token c ++ presence_check (pc_cpace_secret c) (pc_claim_token c).

(** [Display]. *)
Definition display_group (payload : bytes) (group : nat) : bytes :=
  dash :: map (fun offset => nth (Z.to_nat (symbol_value payload (group * GROUP_OCTETS + offset))) ALPHABET 0)
            (seq 0 GROUP_OCTETS).
Definition presence_display (c : CredentialV2PresenceCode) : bytes :=
  PRESENCE_PREFIX ++ concat (map (display_group (presence_payload c)) (seq 0 GROUPS)).

(** [from_str]. *)
Definition presence_from_str (input : bytes) : credM CredentialV2PresenceCode :=
  if negb (is_ascii input) then Err CredentialV2Error_Schema
  else
    match split_on dash (to_upper input) with
    | prefix :: groups =>
        if negb (bool_decide (prefix = PRESENCE_PREFIX)) then Err CredentialV2Error_Schema
        else if negb (length groups =? GROUPS)%nat || existsb (fun group => negb (length group =? GROUP_OCTETS)%nat) groups
        then Err CredentialV2Error_Schema
        else
          payload ← read_symbols 0 (concat groups) (replicate 34 0);
          let value := mkCredentialV2PresenceCode (take 16 payload) (take 16 (drop 16 payload)) in
          if negb (bool_decide (drop 32 (presence_payload value) = drop 32 payload)) then Err CredentialV2Error_Profile
          else Ok value
    | [] => Err CredentialV2Error_Schema
    end.

Definition display_code (p : CredentialV2Presence) : option bytes :=
  match pr_claim_token p with
  | Some claim_token => Some (presence_display (mkCredentialV2PresenceCode (pr_cpace_secret p) claim_token))
  | None => None
  end.
End Presence.

(** ** Presence codes are read back exactly

    The loops over the symbols and their bits, described by the bits of the
    payload, and the theorem that [presence_from_str] accepts exactly the
    displayed codes, in either case of letters. *)

#[local] Arguments Nat.modulo : simpl never.
#[local] Arguments Nat.div : simpl never.

(** ** Bits *)

(** Bit [position] of an octet string, most significant first. *)
Definition bit_at (p : bytes) (position : nat) : bool :=
  Z.testbit (nth (position / 8) p 0) (7 - Z.of_nat (position `mod` 8)).

Lemma low_bit x k : 0 <= k -> Z.land (Z.shiftr x k) 1 = Z.b2z (Z.testbit x k).
Proof.
  intros Hk. change 1 with (Z.ones 1). rewrite Z.land_ones, Z.shiftr_div_pow2, Z.testbit_spec' by lia. done.
Qed.

Lemma position_split i j : (j < 8)%nat -> ((8 * i + j) / 8)%nat = i /\ ((8 * i + j) `mod` 8)%nat = j.
Proof. intros Hj. split; [symmetry; by apply (Nat.div_unique _ _ _ j)|symmetry; by apply (Nat.mod_unique _ _ i)]. Qed.

(** Octets with the same bits are equal. *)
Lemma octet_bits_inj x y : 0 <= x <= 255 -> 0 <= y <= 255 ->
  (forall j, (j < 8)%nat -> Z.testbit x (7 - Z.of_nat j) = Z.testbit y (7 - Z.of_nat j)) -> x = y.
Proof.
  intros Hx Hy Hb. apply Z.bits_inj'. intros n Hn. destruct (decide (n < 8)) as [Hlt|Hge].
  - specialize (Hb (Z.to_nat (7 - n)) ltac:(lia)). rewrite Z2Nat.id in Hb by lia. by replace (7 - (7 - n)) with n in Hb by lia.
  - assert (forall z, 0 <= z <= 255 -> Z.testbit z n = false) as Hz; [|by rewrite !Hz].
    intros z Hz. rewrite <- (Z.mod_small z (2 ^ 8)) by lia. apply Z.mod_pow2_bits_high. lia.
Qed.
Lemma bits_inj p q : octet_list p -> octet_list q -> length p = length q ->
  (forall k, (k < 8 * length p)%nat -> bit_at p k = bit_at q k) -> p = q.
Proof.
  intros Hp Hq Hlen Hb. apply (nth_ext _ _ 0 0); [done|]. intros i Hi.
  assert (forall l, octet_list l -> (i < length l)%nat -> 0 <= nth i l 0 <= 255) as Hr.
  { intros l Hl Hil. unfold octet_list in Hl. rewrite Forall_forall in Hl. apply Hl.
    apply list_elem_of_In, nth_In. done. }
  apply octet_bits_inj; [by apply Hr|apply Hr; [done|lia]|]. intros j Hj.
  specialize (Hb (8 * i + j)%nat ltac:(lia)). unfold bit_at in Hb. destruct (position_split i j Hj) as [E1 E2].
  by rewrite E1, E2 in Hb.
Qed.

(** ** One symbol *)

(** Five bits, the most significant first. *)
Definition five (b : nat -> bool) : Z :=
  16 * Z.b2z (b 0%nat) + 8 * Z.b2z (b 1%nat) + 4 * Z.b2z (b 2%nat) + 2 * Z.b2z (b 3%nat) + Z.b2z (b 4%nat).
Lemma five_range b : 0 <= five b < 32.
Proof. unfold five. destruct (b 0%nat), (b 1%nat), (b 2%nat), (b 3%nat), (b 4%nat); simpl; lia. Qed.
Lemma five_bit b i : (i < 5)%nat -> Z.testbit (five b) (4 - Z.of_nat i) = b i.
Proof.
  intros Hi. unfold five. do 5 (destruct i as [|i]; [by destruct (b 0%nat), (b 1%nat), (b 2%nat), (b 3%nat), (b 4%nat)|]). lia.
Qed.
Lemma five_testbits v : 0 <= v < 32 -> five (fun i => Z.testbit v (4 - Z.of_nat i)) = v.
Proof.
  intros Hv. assert (Forall (fun v => five (fun i => Z.testbit v (4 - Z.of_nat i)) = v) (seqZ 0 32)) as Hall by
    (apply (bool_decide_unpack _); by vm_compute).
  rewrite Forall_forall in Hall. apply Hall, elem_of_seqZ. lia.
Qed.

(** The data bit at a position, nothing past the data. *)
Definition data_bit (p : bytes) (position : nat) : bool := (position <? DATA_BITS)%nat && bit_at p position.

Lemma symbol_value_bits p s : symbol_value p s = five (fun i => data_bit p (s * 5 + i)).
Proof.
  unfold symbol_value.
  assert (forall v position, (if (position <? DATA_BITS)%nat then Z.lor v (payload_bit p position) else v) =
    Z.lor v (Z.b2z (data_bit p position))) as Hstep.
  { intros v position. unfold data_bit, payload_bit, bit_at. destruct (position <? DATA_BITS)%nat; simpl; [|by rewrite Z.lor_0_r].
    rewrite low_bit by (pose proof (Nat.mod_upper_bound position 8); lia). done. }
  cbn [seq fold_left]. rewrite !Hstep. unfold five.
  destruct (data_bit p (s * 5 + 0)), (data_bit p (s * 5 + 1)), (data_bit p (s * 5 + 2)), (data_bit p (s * 5 + 3)),
    (data_bit p (s * 5 + 4)); done.
Qed.

(** ** The alphabet *)

Lemma symbol_position_some c v : symbol_position c = Some v <-> 0 <= v < 32 /\ nth (Z.to_nat v) ALPHABET 0 = c.
Proof.
  unfold symbol_position. split.
  - destruct (find_octet c ALPHABET) as [n|] eqn:E; [|done]. intros [= <-].
    apply find_octet_nth in E as [Hn <-]. change (length ALPHABET) with 32%nat in Hn. split; [lia|by rewrite Nat2Z.id].
  - intros [Hv <-]. assert (Forall (fun v => find_octet (nth (Z.to_nat v) ALPHABET 0) ALPHABET = Some (Z.to_nat v)) (seqZ 0 32)) as Hall
      by (apply (bool_decide_unpack _); by vm_compute).
    rewrite Forall_forall in Hall. rewrite Hall by (apply elem_of_seqZ; lia). simpl. by rewrite Z2Nat.id by lia.
Qed.

Lemma alphabet_octets : forallb (fun c => (c <=? 127) && negb (c =? dash) && negb (ascii_lowercase c)) ALPHABET = true.
Proof. by vm_compute. Qed.

(** ** Writing bits *)

(** Positions below [k] hold the bits of [f], the others are clear. *)
Record written (f : nat -> bool) (k : nat) (p : bytes) : Prop := {
  wr_length : length p = 34%nat;
  wr_octets : octet_list p;
  wr_bits : forall j, (j < DATA_BITS)%nat -> bit_at p j = (j <? k)%nat && f j
}.

Lemma testbit_set x b i j : 0 <= i -> 0 <= j -> Z.testbit (Z.lor x (Z.shiftl (Z.b2z b) i)) j = Z.testbit x j || (b && (i =? j)).
Proof.
  intros Hi Hj. rewrite Z.lor_spec. f_equal. rewrite Z.shiftl_spec by done. destruct b; simpl.
  - destruct (i =? j) eqn:E; bool_to_prop; [subst; by rewrite Z.sub_diag|].
    destruct (decide (j < i)) as [Hlt|Hge]; [apply Z.testbit_neg_r; lia|]. apply Z.bits_above_log2; simpl; lia.
  - apply Z.bits_0.
Qed.

Lemma set_octet x b i : 0 <= x <= 255 -> 0 <= i <= 7 -> 0 <= Z.lor x (Z.shiftl (Z.b2z b) i) <= 255.
Proof.
  intros Hx Hi. split; [apply Z.lor_nonneg; split; [lia|]; apply Z.shiftl_nonneg; by destruct b|].
  apply Z.lt_succ_r. change (Z.succ 255) with (2 ^ 8). destruct (decide (Z.lor x (Z.shiftl (Z.b2z b) i) = 0)) as [->|Hn]; [done|].
  assert (0 <= Z.lor x (Z.shiftl (Z.b2z b) i)) by (apply Z.lor_nonneg; split; [lia|]; apply Z.shiftl_nonneg; by destruct b).
  apply Z.log2_lt_pow2; [lia|]. rewrite Z.log2_lor by (lia || (apply Z.shiftl_nonneg; by destruct b)).
  apply Z.max_lub_lt.
  - destruct (decide (x = 0)) as [->|]; [done|]. apply Z.log2_lt_pow2; lia.
  - destruct b; simpl; [|by rewrite Z.shiftl_0_l]. rewrite Z.shiftl_1_l, Z.log2_pow2; lia.
Qed.

Lemma or_bit_at p k b j : length p = 34%nat -> (k < DATA_BITS)%nat -> (j < DATA_BITS)%nat ->
  bit_at (or_bit p k (Z.b2z b)) j = bit_at p j || (b && (k =? j)%nat).
Proof.
  intros Hlen Hk Hj. unfold bit_at, or_bit. pose proof (Nat.mod_upper_bound k 8 ltac:(lia)). pose proof (Nat.mod_upper_bound j 8 ltac:(lia)).
  pose proof (Nat.div_mod_eq k 8). pose proof (Nat.div_mod_eq j 8). unfold DATA_BITS in *.
  destruct (decide (k / 8 = j / 8)%nat) as [He|Hne].
  - rewrite <- He. assert (k / 8 < length p)%nat as Hlt by (rewrite Hlen; lia). rewrite !nth_lookup, list_lookup_alter_eq.
    apply lookup_lt_is_Some in Hlt as [x ->]. simpl.
    rewrite testbit_set by lia. f_equal. f_equal. apply eq_true_iff_eq. rewrite Z.eqb_eq, Nat.eqb_eq. lia.
  - assert ((k =? j)%nat = false) as -> by (apply Nat.eqb_neq; congruence). rewrite andb_false_r, orb_false_r.
    by rewrite !nth_lookup, list_lookup_alter_ne.
Qed.

Lemma written_or f k p : written f k p -> (k < DATA_BITS)%nat -> written f (S k) (or_bit p k (Z.b2z (f k))).
Proof.
  intros [Hl Ho Hb] Hk. split.
  - unfold or_bit. by rewrite length_alter.
  - unfold or_bit. apply Forall_alter; [done|]. intros x Hx Hr. apply set_octet; [done|].
    pose proof (Nat.mod_upper_bound k 8). lia.
  - intros j Hj. rewrite or_bit_at, Hb by done.
    destruct (Nat.eqb_spec k j) as [->|Hne].
    + rewrite Nat.ltb_irrefl, andb_true_r. simpl. by rewrite (proj2 (Nat.ltb_lt _ _)) by lia.
    + rewrite andb_false_r, orb_false_r. f_equal. apply eq_true_iff_eq. rewrite !Nat.ltb_lt. lia.
Qed.
Lemma written_past f k p : written f k p -> (DATA_BITS <= k)%nat -> written f (S k) p.
Proof.
  intros [Hl Ho Hb] Hk. split; [done..|]. intros j Hj. rewrite Hb by done. f_equal.
  apply eq_true_iff_eq. rewrite !Nat.ltb_lt. lia.
Qed.
Lemma written_start f : written f 0 (replicate 34 0).
Proof.
  split; [done|by apply (bool_decide_unpack _); vm_compute|]. intros j Hj. unfold bit_at.
  rewrite nth_lookup. destruct (_ !! _) eqn:E; simpl; [|by rewrite Z.bits_0].
  apply lookup_replicate in E as [-> _]. by rewrite Z.bits_0.
Qed.

(** The bits a string of characters stands for. *)
Definition character_value (c : Z) : Z := default 0 (symbol_position c).
Definition character_bit (cs : bytes) (position : nat) : bool :=
  Z.testbit (character_value (nth (position / 5) cs 0)) (4 - Z.of_nat (position `mod` 5)).

(** The loop over the bits of one symbol: it fails on a bit past the data. *)
Lemma read_bits s v f p : (forall i, (i < 5)%nat -> f (s * 5 + i)%nat = Z.testbit v (4 - Z.of_nat i)) ->
  written f (s * 5) p -> forall n, (n <= 5)%nat -> (s * 5 + 5 <= ENCODED_BITS)%nat ->
  let fold := fold_left (read_bit s v) (seq 0 n) (Ok p) in
  let clear := forall i, (i < n)%nat -> (DATA_BITS <= s * 5 + i)%nat -> f (s * 5 + i)%nat = false in
  (exists q, fold = Ok q /\ written f (s * 5 + n) q /\ clear) \/ (fold = Err CredentialV2Error_Schema /\ ~ clear).
Proof.
  intros Hf Hw n. induction n as [|n IH]; intros Hn He; cbv zeta.
  - left. exists p. rewrite Nat.add_0_r. split_and!; [done|done|]. intros i Hi. lia.
  - rewrite seq_S, fold_left_app. cbn [fold_left]. destruct IH as [(q & Hq & Hwq & Hc)|[Hq Hc]]; [lia..| |]; rewrite Hq.
    + unfold read_bit. rewrite ok_bind. cbv zeta. rewrite Nat.add_0_l, low_bit, <- Hf by lia. destruct (s * 5 + n <? DATA_BITS)%nat eqn:Ed.
      * apply Nat.ltb_lt in Ed. left. eexists. split; [done|]. rewrite Nat.add_succ_r. split; [by apply written_or|].
        intros i Hi Hpast. apply Hc; lia.
      * apply Nat.ltb_ge in Ed. rewrite (proj2 (Nat.ltb_lt _ _)) by lia. destruct (f (s * 5 + n)%nat) eqn:Efn; simpl.
        -- right. split; [done|]. intros Hall. rewrite Hall in Efn; [done|lia..].
        -- left. exists q. rewrite Nat.add_succ_r. split_and!; [done|by apply written_past|].
           intros i Hi Hpast. destruct (decide (i = n)) as [->|]; [done|]. apply Hc; lia.
    + right. split; [done|]. intros Hall. apply Hc. intros i Hi. apply Hall. lia.
Qed.

Lemma character_bit_symbol cs s i c : cs !! s = Some c -> (i < 5)%nat ->
  character_bit cs (s * 5 + i) = Z.testbit (character_value c) (4 - Z.of_nat i).
Proof.
  intros Hc Hi. unfold character_bit.
  assert ((s * 5 + i) / 5 = s)%nat as -> by (symmetry; apply (Nat.div_unique _ _ _ i); lia).
  assert ((s * 5 + i) `mod` 5 = i)%nat as -> by (symmetry; apply (Nat.mod_unique _ _ s); lia).
  by rewrite nth_lookup, Hc.
Qed.

(** What the loop over the symbols reads, and when. *)
Definition readable (cs : bytes) (s : nat) : Prop :=
  Forall (fun c => is_Some (symbol_position c)) (drop s cs) /\
  forall i, (s * 5 <= i < length cs * 5)%nat -> (DATA_BITS <= i)%nat -> character_bit cs i = false.

Lemma read_symbols_result cs : (length cs * 5 <= ENCODED_BITS)%nat -> forall rest s p,
  rest = drop s cs -> (s <= length cs)%nat -> written (character_bit cs) (s * 5) p ->
  (exists r, read_symbols s rest p = Ok r /\ written (character_bit cs) (length cs * 5) r /\ readable cs s) \/
  (exists e, read_symbols s rest p = Err e /\ ~ readable cs s).
Proof.
  intros Hmax rest. induction rest as [|c rest IH]; intros s p Hr Hs Hw.
  - left. exists p. assert (s = length cs) as ->.
    { apply (f_equal length) in Hr. rewrite length_drop in Hr. simpl in Hr. lia. }
    split_and!; [done|done|]. split; [by rewrite <- Hr|lia].
  - assert (cs !! s = Some c) as Hc by (rewrite <- (Nat.add_0_r s), <- lookup_drop, <- Hr; done).
    assert (s < length cs)%nat as Hlt by (by apply lookup_lt_Some in Hc).
    assert (rest = drop (S s) cs) as Hrest by (rewrite <- Nat.add_1_r, <- drop_drop, <- Hr; done).
    assert (readable cs s <-> is_Some (symbol_position c) /\ readable cs (S s) /\
      forall i, (i < 5)%nat -> (DATA_BITS <= s * 5 + i)%nat -> character_bit cs (s * 5 + i) = false) as Hread.
    { unfold readable. rewrite <- Hr, Forall_cons, <- Hrest. split.
      - intros [[Hs0 Hall] Hb]. split_and!; [done|done| |]; intros; apply Hb; lia.
      - intros (Hs0 & [Hall Hb] & Hb'). split; [done|]. intros i Hi Hpast. destruct (decide (i < S s * 5)%nat); [|apply Hb; lia].
        replace i with (s * 5 + (i - s * 5))%nat by lia. apply Hb'; lia. }
    setoid_rewrite Hread. clear Hread. cbn [read_symbols].
    destruct (symbol_position c) as [v|] eqn:Ev; simpl.
    2: { right. eexists. split; [done|]. by intros [[? ?] _]. }
    assert (character_value c = v) as Hv by (unfold character_value; by rewrite Ev).
    destruct (read_bits s v (character_bit cs) p) with (n := 5%nat) as [(q & Hq & Hwq & Hclear)|[Hq Hclear]]; try lia; [|done|..].
    + intros i Hi. rewrite <- Hv. by apply character_bit_symbol.
    + unfold read_symbol. rewrite Hq. simpl.
      replace (s * 5 + 5)%nat with (S s * 5)%nat in Hwq by lia.
      destruct (IH (S s) q) as [(r & -> & Hwr & Hrd)|(e & -> & Hno)]; [done|lia|done|left|right].
      * exists r. split_and!; [done|done|by eexists|done|done].
      * exists e. split; [done|]. by intros (_ & Hrd & _).
    + right. unfold read_symbol. rewrite Hq. simpl. eexists. split; [done|]. by intros (_ & _ & Hc').
Qed.

(** ** Codes *)

Record code_typed (c : CredentialV2PresenceCode) : Prop := {
  ct_secret : length (pc_cpace_secret c) = 16%nat /\ octet_list (pc_cpace_secret c);
  ct_token : length (pc_claim_token c) = 16%nat /\ octet_list (pc_claim_token c)
}.

(** The characters shown for a payload, and their groups. *)
Definition shown (p : bytes) (symbol : nat) : Z := nth (Z.to_nat (symbol_value p symbol)) ALPHABET 0.
Definition shown_groups (p : bytes) : list bytes :=
  map (fun group => map (fun offset => shown p (group * 5 + offset)) (seq 0 5)) (seq 0 11).

Lemma shown_position p s : symbol_position (shown p s) = Some (symbol_value p s).
Proof. unfold shown. apply symbol_position_some. rewrite symbol_value_bits. split; [apply five_range|done]. Qed.
Lemma shown_octets p s : shown p s <= 127 /\ shown p s <> dash /\ ascii_lowercase (shown p s) = false.
Proof.
  pose proof alphabet_octets as Ha. rewrite forallb_elem in Ha. unfold shown.
  rewrite symbol_value_bits. pose proof (five_range (fun i => data_bit p (s * 5 + i))) as Hr.
  assert (nth (Z.to_nat (five (fun i => data_bit p (s * 5 + i)))) ALPHABET 0 ∈ ALPHABET) as Hin.
  { apply list_elem_of_In, nth_In. change (length ALPHABET) with 32%nat. lia. }
  apply Ha in Hin. bool_to_prop. done.
Qed.

Lemma concat_shown_groups p : concat (shown_groups p) = map (shown p) (seq 0 55).
Proof. reflexivity. Qed.
Lemma shown_groups_shape p : length (shown_groups p) = 11%nat /\ Forall (fun g => length g = 5%nat) (shown_groups p).
Proof. split; [done|]. apply Forall_forall. intros g (n & -> & _)%list_elem_of_fmap. by rewrite length_map. Qed.

Lemma join_concat c p ps : p ++ concat (map (cons c) ps) = join_with c (p :: ps).
Proof.
  revert p. induction ps as [|q ps IH]; intros p; simpl; [by rewrite app_nil_r|]. f_equal. f_equal. apply (IH q).
Qed.

Lemma shown_group_octets p g c : g ∈ shown_groups p -> c ∈ g -> exists s, c = shown p s.
Proof.
  intros Hg Hc. apply list_elem_of_fmap in Hg as (n & -> & _). apply list_elem_of_fmap in Hc as (o & -> & _). eauto.
Qed.

(** Lists of groups of the same size are equal when their concatenations are. *)
Lemma groups_inj n (l k : list bytes) : Forall (fun g => length g = n) l -> Forall (fun g => length g = n) k ->
  length l = length k -> concat l = concat k -> l = k.
Proof.
  intros Hl. revert k. induction Hl as [|g l Hg Hl IH]; intros [|h k] Hk Hlen Heq; simplify_eq/=; [done|].
  apply Forall_cons in Hk as [Hh Hk]. apply app_inj_1 in Heq as [-> Heq]; [|congruence]. f_equal. by apply IH.
Qed.

(** The bits of the shown characters are those of the payload. *)
Lemma shown_bits p i : (i < ENCODED_BITS)%nat -> character_bit (map (shown p) (seq 0 55)) i = data_bit p i.
Proof.
  intros Hi. unfold ENCODED_BITS in Hi. pose proof (Nat.div_mod_eq i 5) as Hd.
  pose proof (Nat.mod_upper_bound i 5 ltac:(lia)) as Hm. assert (i / 5 < 55)%nat by lia.
  replace i with (i / 5 * 5 + i `mod` 5)%nat at 1 by lia. rewrite (character_bit_symbol _ _ _ (shown p (i / 5))); [|by rewrite list_lookup_fmap, lookup_seq_lt|done].
  unfold character_value. rewrite shown_position. simpl. rewrite symbol_value_bits, five_bit by done. f_equal. lia.
Qed.

Lemma shown_readable p : readable (map (shown p) (seq 0 55)) 0.
Proof.
  split.
  - apply Forall_forall. intros c (s & -> & _)%list_elem_of_fmap. by rewrite shown_position.
  - rewrite length_map, length_seq. intros i Hi Hpast. rewrite shown_bits by (unfold ENCODED_BITS; lia).
    unfold data_bit. by rewrite (proj2 (Nat.ltb_ge _ _)).
Qed.

(** Readable characters are those shown for what they are read as. *)
Lemma read_shown cs r : length cs = 55%nat -> readable cs 0 -> written (character_bit cs) 275 r ->
  cs = map (shown r) (seq 0 55).
Proof.
  intros Hlen [Hall Hclear] Hw. rewrite Hlen in Hclear. apply list_eq_same_length with (n := 55%nat); [by rewrite length_map|done|].
  intros s c c' Hs Hc Hc'. rewrite list_lookup_fmap, lookup_seq_lt in Hc' by done. simplify_eq/=.
  rewrite Forall_forall in Hall. destruct (Hall c) as [v Hv]; [by eapply list_elem_of_lookup_2|].
  apply symbol_position_some in Hv as Hv'. destruct Hv' as [Hr <-]. unfold shown. f_equal. f_equal.
  rewrite symbol_value_bits. rewrite <- (five_testbits v Hr).
  assert (forall i, (i < 5)%nat -> Z.testbit v (4 - Z.of_nat i) = data_bit r (s * 5 + i)) as Hb.
  { intros i Hi. unfold data_bit. pose proof (character_bit_symbol cs s i _ Hc Hi) as Hbit.
    unfold character_value in Hbit. rewrite Hv in Hbit. simpl in Hbit. rewrite <- Hbit.
    destruct (s * 5 + i <? DATA_BITS)%nat eqn:Ed; simpl.
    - apply Nat.ltb_lt in Ed. rewrite (wr_bits _ _ _ Hw) by done. rewrite (proj2 (Nat.ltb_lt _ _)) by lia. done.
    - apply Nat.ltb_ge in Ed. apply Hclear; [lia|done]. }
  unfold five. by rewrite !Hb by lia.
Qed.
Lemma shown_written p r : length p = 34%nat -> octet_list p ->
  written (character_bit (map (shown p) (seq 0 55))) 275 r -> r = p.
Proof.
  intros Hlen Ho [Hl Hor Hb]. apply bits_inj; [done..|congruence|]. rewrite Hl. intros k Hk.
  rewrite Hb by (unfold DATA_BITS; lia). rewrite (proj2 (Nat.ltb_lt _ _)) by lia.
  rewrite shown_bits by (unfold ENCODED_BITS; lia). unfold data_bit. by rewrite (proj2 (Nat.ltb_lt _ _)) by (unfold DATA_BITS; lia).
Qed.

Section Codes.
Context `{Sha256, !Sha256Laws, !Sha256Octets}.

Lemma payload_typed c : code_typed c -> length (presence_payload c) = 34%nat /\ octet_list (presence_payload c).
Proof.
  intros [[Hs Hso] [Ht Hto]]. unfold presence_payload, presence_check.
  rewrite !length_app, length_take, sha256_len. split; [lia|]. unfold octet_list in *.
  rewrite !Forall_app. split_and!; [done|done|]. apply Forall_take, sha256_octets.
Qed.

Lemma payload_code c : code_typed c ->
  mkCredentialV2PresenceCode (take 16 (presence_payload c)) (take 16 (drop 16 (presence_payload c))) = c.
Proof.
  intros [[Hs _] [Ht _]]. destruct c as [secret token]. unfold presence_payload. cbn [pc_cpace_secret pc_claim_token] in *.
  by rewrite (take_app_length' secret), (drop_app_length' secret), (take_app_length' token).
Qed.

Lemma display_joined c : presence_display c = join_with dash (PRESENCE_PREFIX :: shown_groups (presence_payload c)).
Proof. rewrite <- join_concat. reflexivity. Qed.
Lemma display_split c : split_on dash (presence_display c) = PRESENCE_PREFIX :: shown_groups (presence_payload c).
Proof.
  rewrite display_joined. apply split_join; [done|]. constructor; [by apply (bool_decide_unpack _); vm_compute|].
  apply Forall_forall. intros g Hg Hd. destruct (shown_group_octets _ _ _ Hg Hd) as [s Hs].
  destruct (shown_octets (presence_payload c) s) as (_ & Hne & _). congruence.
Qed.

(** Reading accepts exactly the displayed codes, lower case letters included. *)
Lemma presence_inverse s c : presence_from_str s = Ok c <->
  code_typed c /\ is_ascii s = true /\ to_upper s = presence_display c.
Proof.
  split.
  - unfold presence_from_str. destruct (is_ascii s) eqn:Ha; [cbn [negb]|done].
    destruct (split_on dash (to_upper s)) as [|prefix groups] eqn:Esplit; [done|].
    case_bool_decide as Hp; [cbn [negb]|done]. destruct (_ || _) eqn:E; [done|]. apply orb_false_iff in E as [Hn Hg].
    apply negb_false_iff, Nat.eqb_eq in Hn. change GROUPS with 11%nat in Hn.
    assert (Forall (fun g => length g = 5%nat) groups) as Hfive.
    { apply Forall_forall. intros g Hin. apply not_true_iff_false in Hg. apply dec_stable. intros Hlen. apply Hg, existsb_exists.
      exists g. split; [by apply list_elem_of_In|]. apply negb_true_iff, Nat.eqb_neq. done. }
    assert (length (concat groups) = 55%nat) as Hlen.
    { assert (forall l, Forall (fun g : bytes => length g = 5%nat) l -> length (concat l) = (length l * 5)%nat) as Hcl.
      { induction 1 as [|g l Hgl _ IH]; simpl; [done|]. rewrite length_app, IH. lia. }
      rewrite Hcl, Hn by done. done. }
    destruct (read_symbols_result (concat groups)) with (rest := concat groups) (s := 0%nat) (p := replicate 34 0)
      as [(r & Hr & Hw & Hrd)|(e & He & _)]; [rewrite Hlen; unfold ENCODED_BITS; lia|done|lia|apply written_start| |].
    2: { rewrite He. done. }
    rewrite Hr, ok_bind, Hlen in *. case_bool_decide as Hcheck; [|done]. intros [= <-].
    destruct Hw as [Hl Ho Hb] eqn:Ew. clear Ew.
    set (c := mkCredentialV2PresenceCode (take 16 r) (take 16 (drop 16 r))) in *.
    assert (code_typed c) as Hct.
    { split; simpl; rewrite length_take, ?length_drop, Hl; (split; [done|]); unfold octet_list in *; auto using Forall_take, Forall_drop. }
    assert (presence_payload c = r) as Hpay.
    { destruct (payload_typed c Hct) as [Hpl _]. rewrite <- (take_drop 32 (presence_payload c)), Hcheck.
      rewrite <- (take_drop 32 r) at 2. f_equal. unfold presence_payload. simpl.
      rewrite app_assoc, take_app_length' by (rewrite length_app, !length_take, length_drop, Hl; done).
      rewrite (take_take_drop r 16 16). done. }
    split_and!; [done|done|]. rewrite <- (join_split dash (to_upper s)), Esplit, display_joined, Hpay. subst prefix. f_equal. f_equal.
    destruct (shown_groups_shape r) as [Hsl Hsf]. apply (groups_inj 5); [done|done|congruence|].
    rewrite concat_shown_groups. apply read_shown; [done|done|]. by split.
  - intros (Hct & Ha & Hup). unfold presence_from_str. rewrite Ha, Hup, display_split. cbn [negb].
    rewrite bool_decide_eq_true_2 by done. cbn [negb].
    destruct (shown_groups_shape (presence_payload c)) as [Hsl Hsf]. rewrite Hsl.
    assert (existsb (fun group => negb (length group =? GROUP_OCTETS)%nat) (shown_groups (presence_payload c)) = false) as -> by done.
    cbn [negb orb Nat.eqb GROUPS]. rewrite concat_shown_groups. destruct (payload_typed c Hct) as [Hpl Hpo].
    destruct (read_symbols_result (map (shown (presence_payload c)) (seq 0 55))) with
      (rest := map (shown (presence_payload c)) (seq 0 55)) (s := 0%nat) (p := replicate 34 0)
      as [(r & Hr & Hw & Hrd)|(e & He & Hno)];
      [rewrite length_map, length_seq; unfold ENCODED_BITS; lia|done|lia|apply written_start| |].
    2: { destruct Hno. apply shown_readable. }
    rewrite length_map, length_seq in Hw. rewrite Hr, ok_bind. apply shown_written in Hw; [|assumption..]. subst r.
    rewrite payload_code by done. by rewrite bool_decide_eq_true_2.
Qed.
End Codes.
