(* ===== verification/CredHandoff.v ===== *)
(** * Confidential transfer texts of credential/v2 ([src/credential_v2/handoff.rs], [manual.rs])

    The one-text handoff of a carrier with both secrets, and the manual
    bootstrap with the three words that carry the CPace secret.  A text is the
    list of its octets; [Zeroizing] buffers are plain values. *)

From S2P Require Import Prelude External Wire WireCodec Profile CbclProtocol CredCore CredDisplay CredCarrier CredPresence.

(** ** String members *)

(** [append_bstr], to be appended. *)
Definition bstr (b : bytes) : bytes :=
  let len := blen b in
  (if len <=? 23 then [Z.lor 64 (len `mod` 256)]
   else if len <=? 255 then [88; len `mod` 256]
   else 89 :: be16 (len `mod` 65536)) ++ b.

Inductive CredentialV2HandoffError : Type :=
| HandoffError_Version
| HandoffError_Oversize
| HandoffError_Encoding
| HandoffError_Schema
| HandoffError_Carrier
| HandoffError_Commitment.

(** [SchemaParser], over the octets left. *)
Abbreviation parserM := (stM bytes CredentialV2HandoffError).

Definition parser_take (length : nat) : parserM bytes :=
  rest ← get;
  if (length <=? List.length rest)%nat then
    _ ← modify (drop length);
    mret (take length rest)
  else throw HandoffError_Schema.
Definition parser_byte : parserM Z :=
  taken ← parser_take 1;
  mret (nth 0 taken 0).
Definition parser_string (major : Z) : parserM bytes :=
  head ← parser_byte;
  if negb (Z.shiftr head 5 =? major) then throw HandoffError_Schema
  else
    let short := Z.land head 31 in
    length ←
      (if short <=? 23 then mret short
       else if short =? 24 then
         n ← parser_byte;
         if n <? 24 then throw HandoffError_Schema else mret n
       else if short =? 25 then
         high ← parser_byte;
         low ← parser_byte;
         let n := from_be16 high low in
         if n <=? 255 then throw HandoffError_Schema else mret n
       else throw HandoffError_Schema);
    parser_take (Z.to_nat length).

(** ** Handoff *)

Definition HANDOFF_PREFIX : bytes := ascii_bytes "SSPAIR1:".
Definition HANDOFF_DOMAIN : bytes := ascii_bytes "selfsame-pairing-handoff/v1".
Definition HANDOFF_MAX_CARRIER : Z := 2695.
Definition HANDOFF_MAX_DECODED : Z := 2762.
Definition HANDOFF_MAX_TEXT : Z := 3691.

Record CredentialV2Handoff := mkCredentialV2Handoff {
  ho_carrier : CredentialV2Carrier;
  ho_presence : CredentialV2PresenceCode
}.

Section Handoff.
Context `{Cbor, UrlParser, Sha256, Base64Url}.

Definition CredentialV2Handoff_new (carrier : CredentialV2Carrier) (presence : CredentialV2PresenceCode) :
    outcome CredentialV2HandoffError CredentialV2Handoff :=
  let commitment := claim_commitment (ca_mailbox_id carrier) (pc_claim_token presence) in
  if negb (bool_decide (commitment = ca_claim_commitment carrier)) then Err HandoffError_Commitment
  else Ok (mkCredentialV2Handoff carrier presence).

Definition handoff_octets (public c t : bytes) : bytes :=
  [132; 120; 27] ++ HANDOFF_DOMAIN ++ bstr public ++ bstr c ++ bstr t.

Definition handoff_encode (h : CredentialV2Handoff) : outcome CredentialV2HandoffError bytes :=
  public ← map_err (fun _ => HandoffError_Carrier) (encode_carrier (ho_carrier h));
  if HANDOFF_MAX_CARRIER <? blen public then Err HandoffError_Oversize
  else
    let decoded := handoff_octets public (pc_cpace_secret (ho_presence h)) (pc_claim_token (ho_presence h)) in
    encoded ← ok_or (base64url_encode decoded (HANDOFF_MAX_TEXT - blen HANDOFF_PREFIX)) HandoffError_Oversize;
    Ok (HANDOFF_PREFIX ++ encoded).

(** The members of the fixed array. *)
Definition handoff_members : parserM (bytes * bytes * bytes) :=
  head ← parser_byte;
  if negb (head =? 132) then throw HandoffError_Schema
  else
    domain ← parser_string 3;
    if negb (bool_decide (domain = HANDOFF_DOMAIN)) then throw HandoffError_Version
    else
      public ← parser_string 2;
      if bool_decide (public = []) then throw HandoffError_Schema
      else if HANDOFF_MAX_CARRIER <? blen public then throw HandoffError_Oversize
      else
        c ← parser_string 2;
        if negb (length c =? 16)%nat then throw HandoffError_Schema
        else
          t ← parser_string 2;
          if negb (length t =? 16)%nat then throw HandoffError_Schema
          else
            rest ← get;
            if negb (bool_decide (rest = [])) then throw HandoffError_Schema else mret (public, c, t).

Definition handoff_from_str (input : bytes) : outcome CredentialV2HandoffError CredentialV2Handoff :=
  if HANDOFF_MAX_TEXT <? blen input then Err HandoffError_Oversize
  else
    suffix ← ok_or (strip_octets HANDOFF_PREFIX input) HandoffError_Version;
    if bool_decide (suffix = []) then Err HandoffError_Encoding
    else
      decoded ← ok_or (base64url_decode suffix HANDOFF_MAX_DECODED) HandoffError_Encoding;
      '(public, c, t) ← (handoff_members decoded).2;
      carrier ← map_err (fun _ => HandoffError_Carrier) (decode_carrier public);
      handoff ← CredentialV2Handoff_new carrier (mkCredentialV2PresenceCode c t);
      encoded ← handoff_encode handoff;
      if negb (bool_decide (encoded = input)) then Err HandoffError_Schema else Ok handoff.

Definition handoff_into_parts (h : CredentialV2Handoff) : CredentialV2Carrier * CredentialV2PresenceCode :=
  (ho_carrier h, ho_presence h).
End Handoff.

(** ** Manual bootstrap *)

Definition MANUAL_PREFIX : bytes := ascii_bytes "SSPAIR-M1:".
Definition MANUAL_DOMAIN : bytes := ascii_bytes "selfsame-pairing-manual/v1".
Definition MANUAL_WORD_DOMAIN : bytes := ascii_bytes "selfsame-pairing-manual-words/v1" ++ [0].
Definition C_PREFIX : bytes := ascii_bytes "SSPAIR-M1" ++ [0; 0; 0].
Definition MANUAL_MAX_CARRIER : Z := 2695.
Definition MANUAL_MAX_DECODED : Z := 2744.
Definition MANUAL_MAX_TEXT : Z := 3669.
Definition MAX_PHRASE : Z := 128.

Inductive CredentialV2ManualError : Type :=
| ManualError_Version
| ManualError_Oversize
| ManualError_Encoding
| ManualError_Schema
| ManualError_Carrier
| ManualError_Commitment
| ManualError_Expired
| ManualError_AllocatorKeyRequired
| ManualError_Checksum.

(** [From<CredentialV2HandoffError>]. *)
Definition manual_error_from (e : CredentialV2HandoffError) : CredentialV2ManualError := ManualError_Schema.

Record CredentialV2ManualBootstrap := mkCredentialV2ManualBootstrap {
  mb2_carrier : CredentialV2Carrier;
  mb2_claim_token : bytes
}.
(** [CredentialV2ManualWords(c)]. *)
Abbreviation CredentialV2ManualWords := bytes (only parsing).

Abbreviation manualP := (stM bytes CredentialV2ManualError).
Definition manual_string (major : Z) : manualP bytes := zoom id (fun rest _ => rest) manual_error_from (parser_string major).

Section Manual.
Context `{Cbor, UrlParser, Sha256, Base64Url}.

Definition CredentialV2ManualBootstrap_new (carrier : CredentialV2Carrier) (claim_token : bytes) (now : Z) :
    outcome CredentialV2ManualError CredentialV2ManualBootstrap :=
  if negb (bool_decide (claim_commitment (ca_mailbox_id carrier) claim_token = ca_claim_commitment carrier))
  then Err ManualError_Commitment
  else if bool_decide (ca_expected_allocator_key carrier = None) then Err ManualError_AllocatorKeyRequired
  else if ca_relay_expires_at carrier <=? now then Err ManualError_Expired
  else Ok (mkCredentialV2ManualBootstrap carrier claim_token).

Definition manual_octets (public t : bytes) : bytes := [131; 120; 26] ++ MANUAL_DOMAIN ++ bstr public ++ bstr t.

Definition manual_encode (b : CredentialV2ManualBootstrap) : outcome CredentialV2ManualError bytes :=
  public ← map_err (fun _ => ManualError_Carrier) (encode_carrier (mb2_carrier b));
  if MANUAL_MAX_CARRIER <? blen public then Err ManualError_Oversize
  else
    let decoded := manual_octets public (mb2_claim_token b) in
    encoded ← ok_or (base64url_encode decoded (MANUAL_MAX_TEXT - blen MANUAL_PREFIX)) ManualError_Oversize;
    Ok (MANUAL_PREFIX ++ encoded).

Definition manual_members : manualP (bytes * bytes) :=
  head ← zoom id (fun rest _ => rest) manual_error_from parser_byte;
  if negb (head =? 131) then throw ManualError_Schema
  else
    domain ← manual_string 3;
    if negb (bool_decide (domain = MANUAL_DOMAIN)) then throw ManualError_Version
    else
      public ← manual_string 2;
      if bool_decide (public = []) then throw ManualError_Schema
      else if MANUAL_MAX_CARRIER <? blen public then throw ManualError_Oversize
      else
        t ← manual_string 2;
        if negb (length t =? 16)%nat then throw ManualError_Schema
        else
          rest ← get;
          if negb (bool_decide (rest = [])) then throw ManualError_Schema else mret (public, t).

Definition manual_recognise (input : bytes) (now : Z) : outcome CredentialV2ManualError CredentialV2ManualBootstrap :=
  if MANUAL_MAX_TEXT <? blen input then Err ManualError_Oversize
  else
    suffix ← ok_or (strip_octets MANUAL_PREFIX input) ManualError_Version;
    if bool_decide (suffix = []) then Err ManualError_Encoding
    else
      decoded ← ok_or (base64url_decode suffix MANUAL_MAX_DECODED) ManualError_Encoding;
      '(public, t) ← (manual_members decoded).2;
      carrier ← map_err (fun _ => ManualError_Carrier) (decode_carrier public);
      bootstrap ← CredentialV2ManualBootstrap_new carrier t now;
      encoded ← manual_encode bootstrap;
      if negb (bool_decide (encoded = input)) then Err ManualError_Schema else Ok bootstrap.

Definition manual_into_parts (b : CredentialV2ManualBootstrap) (words : CredentialV2ManualWords) :
    CredentialV2Carrier * CredentialV2PresenceCode :=
  (mb2_carrier b, mkCredentialV2PresenceCode words (mb2_claim_token b)).

(** ** The three words *)

Definition be32 (n : Z) : bytes := be16 (n / 65536) ++ be16 (n mod 65536).
Definition from_be32 (b : bytes) : Z := fold_left (fun n octet => 256 * n + octet) b 0.

(** The first digest octet, shifted down to its three high bits. *)
Definition checksum (n : Z) : Z := Z.shiftr (nth 0 (sha256 (MANUAL_WORD_DOMAIN ++ be32 n)) 0) 5.

Definition words_from_csprng (random : bytes) : CredentialV2ManualWords :=
  C_PREFIX ++ be32 (Z.land (from_be32 random) 1073741823).
Definition words_from_secret (c : bytes) : outcome CredentialV2ManualError CredentialV2ManualWords :=
  if negb (bool_decide (take 12 c = C_PREFIX)) || negb (Z.land (nth 12 c 0) 192 =? 0)
  then Err ManualError_Schema
  else Ok c.

Context `{Bip39}.

Definition word_octets : list bytes := map ascii_bytes word_list.

(** [words[..]] panics out of range. *)
Definition words_encode (w : CredentialV2ManualWords) : outcome CredentialV2ManualError bytes :=
  let n := from_be32 (drop 12 w) in
  let bits := Z.lor (Z.shiftl n 3) (checksum n) in
  words ← collect (fun shift => expect (word_octets !! Z.to_nat (Z.land (Z.shiftr bits shift) 2047))) [22; 11; 0];
  Ok (join_with 32 words).

(** [binary_search] on a sorted slice, between two bounds. *)
Fixpoint binary_search (fuel : nat) (l : list bytes) (x : bytes) (low high : nat) : option nat :=
  match fuel with
  | O => None
  | S fuel =>
      if (low <? high)%nat then
        let middle := ((low + high) / 2)%nat in
        match l !! middle with
        | Some y =>
            if bool_decide (y = x) then Some middle
            else if leb y x then binary_search fuel l x (S middle) high
            else binary_search fuel l x low middle
        | None => None
        end
      else None
  end.

(** [split([' ', '\t', '\r', '\n'])], the empty pieces left out. *)
Definition blank (c : Z) : bool := (c =? 32) || (c =? 9) || (c =? 13) || (c =? 10).
Definition split_words (s : bytes) : list bytes :=
  filter (fun piece => piece <> []) (split_on 32 (map (fun c => if blank c then 32 else c) s)).

Definition word_index_of (word : bytes) : outcome CredentialV2ManualError Z :=
  let l := word_octets in
  index ← ok_or (binary_search (S (length l)) l word 0 (length l)) ManualError_Schema;
  Ok (Z.of_nat index).

(** The loop over the three words. *)
Fixpoint read_words (count : nat) (words : list bytes) (bits : Z) :
    outcome CredentialV2ManualError (Z * list bytes) :=
  match count with
  | O => Ok (bits, words)
  | S count =>
      match words with
      | [] => Err ManualError_Schema
      | word :: words =>
          index ← word_index_of word;
          read_words count words (Z.lor (Z.shiftl bits 11) index)
      end
  end.

Definition words_from_str (input : bytes) : outcome CredentialV2ManualError CredentialV2ManualWords :=
  if MAX_PHRASE <? blen input then Err ManualError_Oversize
  else if negb (is_ascii input) then Err ManualError_Encoding
  else
    '(bits, rest) ← read_words 3 (split_words (to_lower input)) 0;
    if negb (bool_decide (rest = [])) then Err ManualError_Schema
    else
      let n := Z.shiftr bits 3 `mod` 2 ^ 32 in
      if negb (checksum n =? Z.land bits 7) then Err ManualError_Checksum
      else Ok (words_from_csprng (be32 n)).

(** Both inputs. *)
Definition recognise_pair (bootstrap words : bytes) (now : Z) :
    outcome CredentialV2ManualError (CredentialV2Carrier * CredentialV2PresenceCode) :=
  if (MANUAL_MAX_TEXT <? blen bootstrap) || (MAX_PHRASE <? blen words) then Err ManualError_Oversize
  else
    words ← words_from_str words;
    b ← manual_recognise bootstrap now;
    Ok (manual_into_parts b words).
End Manual.
