(* ===== verification/CredHandoffThms.v ===== *)
(** * Transfer texts and words are read back exactly *)

From S2P Require Import Prelude External Wire WireCodec WireLaws Profile ProfileThms CbclExternal CbclProtocol CredCore CredDisplay CredCarrier CredPresence CredHandoff.

Lemma ok_or_some {E A} (a : A) (e : E) : ok_or (Some a) e = Ok a.
Proof. done. Qed.
Lemma map_err_some {E F A} (f : E -> F) (a : A) : map_err f (Ok a) = Ok a.
Proof. done. Qed.

(** ** The parser *)

Lemma stM_bind_ok {S E A B} (m : stM S E A) (k : A -> stM S E B) s s' a :
  m s = (s', Ok a) -> (m ≫= k) s = k a s'.
Proof. unfold mbind, stM_bind. by intros ->. Qed.

Lemma parser_take_app a rest : parser_take (length a) (a ++ rest) = (rest, Ok a).
Proof.
  unfold parser_take, mbind, stM_bind, get, modify, mret, stM_ret. rewrite length_app.
  rewrite (proj2 (Nat.leb_le _ _)) by lia. by rewrite take_app_length, drop_app_length.
Qed.
Lemma parser_byte_cons x rest : parser_byte (x :: rest) = (rest, Ok x).
Proof. unfold parser_byte. by erewrite stM_bind_ok by apply (parser_take_app [x]). Qed.

Lemma parser_string_head major head rest : parser_string major (head :: rest) =
  (if negb (Z.shiftr head 5 =? major) then throw HandoffError_Schema
   else
     length ←
       (if Z.land head 31 <=? 23 then mret (Z.land head 31)
        else if Z.land head 31 =? 24 then
          n ← parser_byte;
          if n <? 24 then throw HandoffError_Schema else mret n
        else if Z.land head 31 =? 25 then
          high ← parser_byte;
          low ← parser_byte;
          let n := from_be16 high low in
          if n <=? 255 then throw HandoffError_Schema else mret n
        else throw HandoffError_Schema);
     parser_take (Z.to_nat length)) rest.
Proof. unfold parser_string. by rewrite (stM_bind_ok _ _ _ _ _ (parser_byte_cons head rest)). Qed.

Lemma small_head n : 0 <= n <= 23 -> Z.shiftr (Z.lor 64 n) 5 = 2 /\ Z.land (Z.lor 64 n) 31 = n.
Proof.
  intros Hn. assert (Forall (fun n => Z.shiftr (Z.lor 64 n) 5 = 2 /\ Z.land (Z.lor 64 n) 31 = n) (seqZ 0 24)) as Hall by
    (apply (bool_decide_unpack _); by vm_compute).
  rewrite Forall_forall in Hall. apply Hall, elem_of_seqZ. lia.
Qed.

Section Heads.
Context (major head : Z) (rest : bytes) (Hmajor : Z.shiftr head 5 = major).

Lemma parser_string_short : 0 <= Z.land head 31 <= 23 ->
  parser_string major (head :: rest) = parser_take (Z.to_nat (Z.land head 31)) rest.
Proof. intros Hs. rewrite parser_string_head, Hmajor, Z.eqb_refl, (proj2 (Z.leb_le _ _)) by lia. done. Qed.
Lemma parser_string_octet n : Z.land head 31 = 24 -> 24 <= n ->
  parser_string major (head :: n :: rest) = parser_take (Z.to_nat n) rest.
Proof.
  intros Hs Hn. rewrite parser_string_head, Hmajor, Hs, Z.eqb_refl. change (24 <=? 23) with false.
  change (24 =? 24) with true. cbv iota. unfold mbind, stM_bind. cbv beta. cbn [negb]. cbv iota. rewrite parser_byte_cons.
  by rewrite (proj2 (Z.ltb_ge _ _)) by lia.
Qed.
Lemma parser_string_pair high low : Z.land head 31 = 25 -> 255 < from_be16 high low ->
  parser_string major (head :: high :: low :: rest) = parser_take (Z.to_nat (from_be16 high low)) rest.
Proof.
  intros Hs Hn. rewrite parser_string_head, Hmajor, Hs, Z.eqb_refl. change (25 <=? 23) with false.
  change (25 =? 24) with false. change (25 =? 25) with true. cbv iota. unfold mbind, stM_bind. cbn [negb]. cbv iota beta. rewrite parser_byte_cons. cbv iota beta. rewrite parser_byte_cons. cbv iota beta zeta.
  by rewrite (proj2 (Z.leb_gt _ _)) by lia.
Qed.
End Heads.

Lemma parser_take_blen a rest : parser_take (Z.to_nat (blen a)) (a ++ rest) = (rest, Ok a).
Proof. unfold blen. rewrite Nat2Z.id. apply parser_take_app. Qed.

Lemma parser_bstr b rest : blen b <= 65535 -> parser_string 2 (bstr b ++ rest) = (rest, Ok b).
Proof.
  intros Hb. pose proof (blen_nonneg b). unfold bstr. destruct (blen b <=? 23) eqn:E1; bool_to_prop.
  - rewrite Z.mod_small by lia. destruct (small_head (blen b)) as [Hm Hl]; [lia|]. cbn [app].
    rewrite parser_string_short, Hl by (done || lia). apply parser_take_blen.
  - destruct (blen b <=? 255) eqn:E2; bool_to_prop; rewrite Z.mod_small by lia; cbn [app be16].
    + rewrite parser_string_octet by (done || lia). apply parser_take_blen.
    + assert (from_be16 (blen b / 256) (blen b mod 256) = blen b) as Hbe
        by (unfold from_be16; pose proof (Z.div_mod (blen b) 256); lia).
      rewrite parser_string_pair, Hbe by (done || lia). apply parser_take_blen.
Qed.

Lemma parser_text n text rest : 24 <= n -> blen text = n -> parser_string 3 (120 :: n :: text ++ rest) = (rest, Ok text).
Proof. intros Hn <-. rewrite parser_string_octet by (done || lia). apply parser_take_blen. Qed.

Lemma bstr_length b : blen b <= 65535 -> blen (bstr b) <= blen b + 3.
Proof. intros Hb. unfold bstr, be16, blen. rewrite length_app. repeat case_goal; simpl; lia. Qed.

Lemma bstr_16 b : length b = 16%nat -> blen (bstr b) = 17.
Proof. intros Hb. unfold bstr, blen. by rewrite Hb, length_app, Hb. Qed.

Section Transfer.
Context `{Cbor, !CborLaws, !CborIntLaws, UrlParser, Sha256, Base64Url, !Base64UrlLaws}.

Lemma public_nonempty c b : encode_carrier c = Ok b -> b <> [].
Proof.
  unfold encode_carrier. intros (? & _ & (? & _ & Hb%ok_or_ok)%bind_ok)%bind_ok ->. by apply written_nonempty in Hb.
Qed.

(** A text within the bounds is decoded into the buffer of the bound's size. *)
Lemma transfer_decoded octets n m text : base64url_encode octets n = Some text -> n <= 4 * m / 3 + 1 ->
  0 <= m -> blen octets <= m -> 0 < blen octets ->
  blen text <= n /\ text <> [] /\ base64url_decode text m = Some octets.
Proof.
  intros He Hn Hm Hoct Hpos. pose proof (base64url_len _ _ _ He) as Hlen.
  assert (encoded_len octets <= n) as Hfit by (apply base64url_fits; eauto). unfold encoded_len in *. split_and!.
  - lia.
  - intros ->. change (blen []) with 0 in Hlen. Z.div_mod_to_equations; lia.
  - by apply (base64url_read _ _ _ _ He).
Qed.

(** *** Handoff *)

Record handoff_typed (h : CredentialV2Handoff) : Prop := {
  ht_carrier : carrier_typed (ho_carrier h);
  ht_secret : length (pc_cpace_secret (ho_presence h)) = 16%nat;
  ht_token : length (pc_claim_token (ho_presence h)) = 16%nat;
  ht_commitment : claim_commitment (ca_mailbox_id (ho_carrier h)) (pc_claim_token (ho_presence h)) =
                  ca_claim_commitment (ho_carrier h)
}.

Lemma handoff_members_written public c t :
  public <> [] -> blen public <= HANDOFF_MAX_CARRIER -> length c = 16%nat -> length t = 16%nat ->
  handoff_members (handoff_octets public c t) = ([], Ok (public, c, t)).
Proof.
  intros Hne Hp Hc Ht. unfold handoff_members, handoff_octets. unfold HANDOFF_MAX_CARRIER in *.
  change ([132; 120; 27] ++ HANDOFF_DOMAIN ++ bstr public ++ bstr c ++ bstr t) with
    (132 :: 120 :: 27 :: HANDOFF_DOMAIN ++ bstr public ++ bstr c ++ bstr t).
  rewrite (stM_bind_ok _ _ _ _ _ (parser_byte_cons _ _)). rewrite Z.eqb_refl. cbn [negb].
  rewrite (stM_bind_ok _ _ _ _ _ (parser_text 27 HANDOFF_DOMAIN _ ltac:(lia) eq_refl)).
  rewrite bool_decide_eq_true_2 by done. cbn [negb].
  rewrite (stM_bind_ok _ _ _ _ _ (parser_bstr public _ ltac:(lia))).
  rewrite bool_decide_eq_false_2, (proj2 (Z.ltb_ge _ _)) by (done || lia).
  rewrite (stM_bind_ok _ _ _ _ _ (parser_bstr c _ ltac:(unfold blen; lia))). rewrite Hc. cbn [negb Nat.eqb].
  rewrite <- (app_nil_r (bstr t)). rewrite (stM_bind_ok _ _ _ _ _ (parser_bstr t _ ltac:(unfold blen; lia))).
  rewrite Ht. done.
Qed.

Lemma handoff_new_ok c p h : CredentialV2Handoff_new c p = Ok h <->
  h = mkCredentialV2Handoff c p /\ claim_commitment (ca_mailbox_id c) (pc_claim_token p) = ca_claim_commitment c.
Proof. unfold CredentialV2Handoff_new. case_bool_decide; naive_solver. Qed.

(** Lengths checked by the parser. *)
Lemma handoff_members_typed input rest public c t :
  handoff_members input = (rest, Ok (public, c, t)) -> length c = 16%nat /\ length t = 16%nat.
Proof.
  unfold handoff_members, mbind, stM_bind. intros Hm. repeat (case_hyp; try done).
  all: repeat match goal with H : (_ =? _)%nat = true |- _ => apply Nat.eqb_eq in H | H : negb _ = false |- _ => apply negb_false_iff in H end.
  all: unfold mret, stM_ret in *; simplify_eq/=; done.
Qed.

Lemma handoff_inverse s h : handoff_from_str s = Ok h <-> handoff_typed h /\ handoff_encode h = Ok s.
Proof.
  split.
  - unfold handoff_from_str. destruct (_ <? _); [done|]. intros (suffix & _ & Hd)%bind_ok. case_hyp.
    apply bind_ok in Hd as (decoded & _ & ([[public c] t] & Hm & (ca & Hca & (h' & Hh & (e & He & Hd)%bind_ok)%bind_ok)%bind_ok)%bind_ok).
    case_hyp. bool_to_prop. subst e. split; [|done].
    apply map_err_ok, carrier_inverse in Hca as [Hca _]. apply handoff_new_ok in Hh as [-> Hcom].
    destruct (handoff_members decoded) as [rest r] eqn:Em. simpl in Hm. subst r. apply handoff_members_typed in Em as [Hc Ht]. by split.
  - intros [[Hca Hc Ht Hcom] He]. apply bind_ok in He as He'. destruct He' as (public & Hpub & Hk). apply map_err_ok in Hpub.
    destruct (_ <? _) eqn:Elen; [done|]. apply Z.ltb_ge in Elen.
    apply bind_ok in Hk as (text & Htext%ok_or_ok & Hs). assert (s = HANDOFF_PREFIX ++ text) as -> by congruence. clear Hs. pose proof (public_nonempty _ _ Hpub) as Hne.
    set (c := pc_cpace_secret (ho_presence h)) in *. set (t := pc_claim_token (ho_presence h)) in *.
    assert (0 < blen (handoff_octets public c t) <= HANDOFF_MAX_DECODED) as Hsize.
    { unfold handoff_octets, HANDOFF_MAX_CARRIER, HANDOFF_MAX_DECODED in *.
      pose proof (bstr_length public ltac:(lia)) as Hlp. pose proof (blen_nonneg (bstr public)). rewrite !blen_app, (bstr_16 c), (bstr_16 t) by done.
      change (blen HANDOFF_DOMAIN) with 27. change (blen [132; 120; 27]) with 3. lia. }
    destruct (transfer_decoded _ _ HANDOFF_MAX_DECODED _ Htext) as (Hlen & Htne & Hdec); [by vm_compute|by vm_compute|lia|lia|].
    unfold handoff_from_str. rewrite (proj2 (Z.ltb_ge _ _)).
    2: { rewrite blen_app. lia. }
    rewrite (proj2 (strip_octets_some HANDOFF_PREFIX _ text)) by done. rewrite ok_or_some, ok_bind.
    rewrite bool_decide_eq_false_2, Hdec by done. rewrite ok_or_some, ok_bind.
    rewrite handoff_members_written by done. cbn [snd]. rewrite ok_bind. rewrite (proj2 (carrier_inverse public (ho_carrier h))) by done.
    rewrite map_err_some, ok_bind. assert (mkCredentialV2Handoff (ho_carrier h) (mkCredentialV2PresenceCode c t) = h) as Hh.
    { subst c t. by destruct h as [? []]. }
    rewrite (proj2 (handoff_new_ok _ _ h)), ok_bind by done. rewrite He, ok_bind. by rewrite bool_decide_eq_true_2.
Qed.

(** *** Manual bootstrap *)

Record manual_typed (b : CredentialV2ManualBootstrap) : Prop := {
  mt_carrier : carrier_typed (mb2_carrier b);
  mt_token : length (mb2_claim_token b) = 16%nat;
  mt_commitment : claim_commitment (ca_mailbox_id (mb2_carrier b)) (mb2_claim_token b) = ca_claim_commitment (mb2_carrier b);
  mt_key : ca_expected_allocator_key (mb2_carrier b) <> None
}.

Lemma manual_string_ok major s s' b : parser_string major s = (s', Ok b) -> manual_string major s = (s', Ok b).
Proof. unfold manual_string, zoom, id. by intros ->. Qed.

Lemma manual_members_written public t :
  public <> [] -> blen public <= MANUAL_MAX_CARRIER -> length t = 16%nat ->
  manual_members (manual_octets public t) = ([], Ok (public, t)).
Proof.
  intros Hne Hp Ht. unfold manual_members, manual_octets. unfold MANUAL_MAX_CARRIER in *.
  change ([131; 120; 26] ++ MANUAL_DOMAIN ++ bstr public ++ bstr t) with (131 :: 120 :: 26 :: MANUAL_DOMAIN ++ bstr public ++ bstr t).
  erewrite stM_bind_ok by (unfold zoom, id; by rewrite parser_byte_cons). rewrite Z.eqb_refl. cbn [negb].
  rewrite (stM_bind_ok _ _ _ _ _ (manual_string_ok _ _ _ _ (parser_text 26 MANUAL_DOMAIN _ ltac:(lia) eq_refl))).
  rewrite bool_decide_eq_true_2 by done. cbn [negb].
  rewrite (stM_bind_ok _ _ _ _ _ (manual_string_ok _ _ _ _ (parser_bstr public _ ltac:(lia)))).
  rewrite bool_decide_eq_false_2, (proj2 (Z.ltb_ge _ _)) by (done || lia).
  rewrite <- (app_nil_r (bstr t)).
  rewrite (stM_bind_ok _ _ _ _ _ (manual_string_ok _ _ _ _ (parser_bstr t _ ltac:(unfold blen; lia)))).
  rewrite Ht. done.
Qed.
Lemma manual_members_typed input rest public t : manual_members input = (rest, Ok (public, t)) -> length t = 16%nat.
Proof.
  unfold manual_members, mbind, stM_bind. intros Hm. repeat (case_hyp; try done).
  all: repeat match goal with H : (_ =? _)%nat = true |- _ => apply Nat.eqb_eq in H | H : negb _ = false |- _ => apply negb_false_iff in H end.
  all: unfold mret, stM_ret in *; simplify_eq/=; done.
Qed.

Lemma manual_new_ok c t now b : CredentialV2ManualBootstrap_new c t now = Ok b <->
  b = mkCredentialV2ManualBootstrap c t /\ claim_commitment (ca_mailbox_id c) t = ca_claim_commitment c /\
  ca_expected_allocator_key c <> None /\ now < ca_relay_expires_at c.
Proof.
  unfold CredentialV2ManualBootstrap_new. case_bool_decide; [|naive_solver]. cbn [negb]. case_bool_decide; [naive_solver|].
  destruct (_ <=? _) eqn:E; bool_to_prop; naive_solver lia.
Qed.

Lemma manual_inverse s now b : manual_recognise s now = Ok b <->
  manual_typed b /\ now < ca_relay_expires_at (mb2_carrier b) /\ manual_encode b = Ok s.
Proof.
  split.
  - unfold manual_recognise. destruct (_ <? _); [done|]. intros (suffix & _ & Hd)%bind_ok. case_hyp.
    apply bind_ok in Hd as (decoded & _ & ([public t] & Hm & (ca & Hca & (b' & Hb & (e & He & Hd)%bind_ok)%bind_ok)%bind_ok)%bind_ok).
    case_hyp. bool_to_prop. subst e. apply map_err_ok, carrier_inverse in Hca as [Hca _].
    apply manual_new_ok in Hb as (-> & Hcom & Hkey & Hnow).
    destruct (manual_members decoded) as [rest r] eqn:Em. simpl in Hm. subst r. apply manual_members_typed in Em. done.
  - intros ([Hca Ht Hcom Hkey] & Hnow & He). apply bind_ok in He as He'. destruct He' as (public & Hpub & Hk). apply map_err_ok in Hpub.
    destruct (_ <? _) eqn:Elen; [done|]. apply Z.ltb_ge in Elen.
    apply bind_ok in Hk as (text & Htext%ok_or_ok & Hs). assert (s = MANUAL_PREFIX ++ text) as -> by congruence. clear Hs. pose proof (public_nonempty _ _ Hpub) as Hne.
    assert (0 < blen (manual_octets public (mb2_claim_token b)) <= MANUAL_MAX_DECODED) as Hsize.
    { unfold manual_octets, MANUAL_MAX_CARRIER, MANUAL_MAX_DECODED in *.
      pose proof (bstr_length public ltac:(lia)) as Hlp. pose proof (blen_nonneg (bstr public)). rewrite !blen_app, (bstr_16 (mb2_claim_token b)) by done.
      change (blen MANUAL_DOMAIN) with 26. change (blen [131; 120; 26]) with 3. lia. }
    destruct (transfer_decoded _ _ MANUAL_MAX_DECODED _ Htext) as (Hlen & Htne & Hdec); [by vm_compute|by vm_compute|lia|lia|].
    unfold manual_recognise. rewrite (proj2 (Z.ltb_ge _ _)).
    2: { rewrite blen_app. lia. }
    rewrite (proj2 (strip_octets_some MANUAL_PREFIX _ text)) by done. rewrite ok_or_some, ok_bind.
    rewrite bool_decide_eq_false_2, Hdec by done. rewrite ok_or_some, ok_bind.
    rewrite manual_members_written by done. cbn [snd]. rewrite ok_bind. rewrite (proj2 (carrier_inverse public (mb2_carrier b))) by done.
    rewrite map_err_some, ok_bind.
    rewrite (proj2 (manual_new_ok _ _ now b)), ok_bind by (by destruct b). rewrite He, ok_bind. by rewrite bool_decide_eq_true_2.
Qed.
End Transfer.

(** ** The three words of a manual bootstrap *)

(** The English list is in strictly ascending order and its words are one to
    eight lower-case letters. *)
Class Bip39Ordered `{Bip39} : Prop := {
  ordered_count : length word_list = 2048%nat;
  ordered_words i j a b : (i < j)%nat -> word_octets !! i = Some a -> word_octets !! j = Some b -> leb b a = false;
  word_letters w : w ∈ word_octets -> 1 <= blen w <= 8 /\ forallb ascii_lowercase w = true
}.

(** ** Binary search *)

Section Search.
Context (l : list bytes) (x : bytes).

Lemma binary_search_sound fuel low high i : binary_search fuel l x low high = Some i -> l !! i = Some x.
Proof.
  revert low high. induction fuel as [|fuel IH]; intros low high; cbn [binary_search]; [done|].
  destruct (low <? high)%nat; [|done]. cbv zeta. destruct (l !! ((low + high) / 2)%nat) as [y|] eqn:E; [|done].
  case_bool_decide; [intros; congruence|]. destruct (leb y x); apply IH.
Qed.

Context (Hord : forall i j a b, (i < j)%nat -> l !! i = Some a -> l !! j = Some b -> leb b a = false).

Lemma binary_search_complete fuel low high i : l !! i = Some x -> (low <= i < high)%nat -> (high <= length l)%nat ->
  (high - low <= fuel)%nat -> binary_search fuel l x low high = Some i.
Proof.
  intros Hi. revert low high. induction fuel as [|fuel IH]; intros low high Hr Hl Hf; [lia|]. cbn [binary_search].
  rewrite (proj2 (Nat.ltb_lt _ _)) by lia. cbv zeta.
  assert (low <= (low + high) / 2 < high)%nat as Hm.
  { pose proof (Nat.div_mod_eq (low + high) 2). pose proof (Nat.mod_upper_bound (low + high) 2). lia. }
  destruct (lookup_lt_is_Some_2 l ((low + high) / 2)%nat) as [y Hy]; [lia|]. rewrite Hy. case_bool_decide as Heq.
  - rewrite Heq in Hy. f_equal. destruct (Nat.lt_trichotomy i ((low + high) / 2)%nat) as [Hlt|[?|Hlt]]; [|done|].
    + pose proof (Hord _ _ _ _ Hlt Hi Hy) as Hf'. by rewrite leb_refl in Hf'.
    + pose proof (Hord _ _ _ _ Hlt Hy Hi) as Hf'. by rewrite leb_refl in Hf'.
  - destruct (Nat.lt_trichotomy i ((low + high) / 2)%nat) as [Hlt|[->|Hlt]]; [|congruence|].
    + rewrite (Hord _ _ _ _ Hlt Hi Hy). apply IH; lia.
    + pose proof (Hord _ _ _ _ Hlt Hy Hi) as Hf'. apply leb_false in Hf'. rewrite Hf'. apply IH; lia.
Qed.
End Search.

(** ** Numbers *)

Lemma or_low a b k : 0 <= k -> 0 <= b < 2 ^ k -> Z.lor (Z.shiftl a k) b = a * 2 ^ k + b.
Proof.
  intros Hk Hb. rewrite <- Z.shiftl_mul_pow2 by done. rewrite <- Z.lxor_lor, <- Z.add_nocarry_lxor; [done|..].
  all: apply Z.bits_inj'; intros n Hn; rewrite Z.land_spec, Z.bits_0.
  all: destruct (decide (n < k)); [rewrite Z.shiftl_spec_low by lia; done|].
  all: rewrite <- (Z.mod_small b (2 ^ k)), Z.mod_pow2_bits_high by lia; apply andb_false_r.
Qed.
Lemma from_be32_be32 n : 0 <= n < 2 ^ 32 -> from_be32 (be32 n) = n.
Proof. intros Hn. unfold from_be32, be32, be16. cbn [app fold_left]. Z.div_mod_to_equations. lia. Qed.

(** The word value of thirty bits. *)
Definition words_of (n : Z) : bytes := C_PREFIX ++ be32 n.

Lemma csprng_words r : words_from_csprng r = words_of (from_be32 r mod 2 ^ 30).
Proof. unfold words_from_csprng. change 1073741823 with (Z.ones 30). by rewrite Z.land_ones. Qed.
Lemma csprng_be32 n : 0 <= n < 2 ^ 30 -> words_from_csprng (be32 n) = words_of n.
Proof. intros Hn. rewrite csprng_words, from_be32_be32, Z.mod_small by lia. done. Qed.

Lemma secret_words c : length c = 16%nat -> octet_list c ->
  (exists w, words_from_secret c = Ok w) <-> exists n, 0 <= n < 2 ^ 30 /\ c = words_of n.
Proof.
  intros Hl Ho. unfold words_from_secret. split.
  - intros [w Hw]. destruct (_ || _) eqn:E; [done|]. apply orb_false_iff in E as [Hp Hz]. bool_to_prop.
    destruct c as [|c0 [|c1 [|c2 [|c3 [|c4 [|c5 [|c6 [|c7 [|c8 [|c9 [|c10 [|c11 [|a [|b [|d [|e [|]]]]]]]]]]]]]]]]]; try done.
    cbn [take] in Hp. cbn [nth] in Hz. unfold octet_list in Ho.
    repeat (apply Forall_cons in Ho as [? Ho]). exists (a * 16777216 + b * 65536 + d * 256 + e).
    assert (Forall (fun a => Z.land a 192 = 0 -> a < 64) (seqZ 0 256)) as Hall by (apply (bool_decide_unpack _); by vm_compute).
    rewrite Forall_forall in Hall. specialize (Hall a ltac:(apply elem_of_seqZ; lia) Hz). split; [lia|].
    unfold words_of. rewrite <- Hp. unfold be32, be16. cbn [app]. repeat f_equal; Z.div_mod_to_equations; lia.
  - intros (n & Hn & ->). exists (words_of n). rewrite bool_decide_eq_true_2 by done. unfold words_of.
    assert (nth 12 (C_PREFIX ++ be32 n) 0 = n / 16777216) as ->.
    { unfold be32, be16. cbn [nth C_PREFIX app]. change (nth 12 (C_PREFIX ++ ?l) 0) with (nth 0 l 0). cbn [nth app]. Z.div_mod_to_equations; lia. }
    assert (Forall (fun a => Z.land a 192 = 0) (seqZ 0 64)) as Hall by (apply (bool_decide_unpack _); by vm_compute).
    rewrite Forall_forall in Hall. rewrite Hall; [done|]. apply elem_of_seqZ. Z.div_mod_to_equations; lia.
Qed.

(** ** Phrases *)

Section Words.
Context `{Sha256, !Sha256Octets, Bip39, !Bip39Ordered}.

Lemma checksum_range n : 0 <= checksum n < 8.
Proof.
  unfold checksum. rewrite Z.shiftr_div_pow2 by lia. pose proof (sha256_octets (MANUAL_WORD_DOMAIN ++ be32 n)) as Ho.
  assert (0 <= nth 0 (sha256 (MANUAL_WORD_DOMAIN ++ be32 n)) 0 <= 255) as Hr by (destruct Ho; simpl; lia).
  Z.div_mod_to_equations; lia.
Qed.

Lemma word_at_index i : 0 <= i < 2048 -> exists w, word_octets !! Z.to_nat i = Some w.
Proof. intros Hi. apply lookup_lt_is_Some_2. unfold word_octets. rewrite length_map, ordered_count. lia. Qed.

Lemma word_index_spec w i : word_index_of w = Ok i <-> 0 <= i < 2048 /\ word_octets !! Z.to_nat i = Some w.
Proof.
  unfold word_index_of. cbv zeta. rewrite bind_ok. setoid_rewrite ok_or_ok. split.
  - intros (k & Hk%binary_search_sound & [= <-]). rewrite Nat2Z.id. split; [|done].
    apply lookup_lt_Some in Hk. unfold word_octets in Hk. rewrite length_map, ordered_count in Hk. lia.
  - intros [Hi Hw]. exists (Z.to_nat i). rewrite Z2Nat.id by lia. split; [|done].
    apply lookup_lt_Some in Hw as Hlt. apply binary_search_complete; [apply ordered_words|done|lia..].
Qed.

(** The indices of the words for [bits]. *)
Definition bits_of (n : Z) : Z := 8 * n + checksum n.
Lemma bits_eq n : Z.lor (Z.shiftl n 3) (checksum n) = bits_of n.
Proof. rewrite or_low by (pose proof (checksum_range n); lia). unfold bits_of. lia. Qed.
Lemma bits_range n : 0 <= n < 2 ^ 30 -> 0 <= bits_of n < 2 ^ 33.
Proof. intros Hn. unfold bits_of. pose proof (checksum_range n). lia. Qed.

Definition index_at (bits shift : Z) : Z := Z.land (Z.shiftr bits shift) 2047.
Lemma index_at_eq bits shift : 0 <= shift -> index_at bits shift = bits / 2 ^ shift mod 2048.
Proof. intros Hs. unfold index_at. change 2047 with (Z.ones 11). by rewrite Z.land_ones, Z.shiftr_div_pow2. Qed.
Lemma index_at_range bits shift : 0 <= shift -> 0 <= index_at bits shift < 2048.
Proof. intros Hs. rewrite index_at_eq by done. apply Z.mod_pos_bound. lia. Qed.

(** Three indices are the bits, and the bits are three indices. *)
Lemma bits_indices bits : 0 <= bits < 2 ^ 33 ->
  bits = (index_at bits 22 * 2048 + index_at bits 11) * 2048 + index_at bits 0.
Proof. intros Hb. rewrite !index_at_eq by lia. change (2 ^ 0) with 1. change (2 ^ 11) with 2048. change (2 ^ 22) with 4194304. Z.div_mod_to_equations; lia. Qed.
Lemma indices_bits i j k : 0 <= i < 2048 -> 0 <= j < 2048 -> 0 <= k < 2048 ->
  let bits := (i * 2048 + j) * 2048 + k in index_at bits 22 = i /\ index_at bits 11 = j /\ index_at bits 0 = k.
Proof.
  intros Hi Hj Hk. cbv zeta. rewrite !index_at_eq by lia. change (2 ^ 0) with 1. change (2 ^ 11) with 2048. change (2 ^ 22) with 4194304.
  Z.div_mod_to_equations; lia.
Qed.

Lemma words_encode_of n a b c : 0 <= n < 2 ^ 30 ->
  word_octets !! Z.to_nat (index_at (bits_of n) 22) = Some a ->
  word_octets !! Z.to_nat (index_at (bits_of n) 11) = Some b ->
  word_octets !! Z.to_nat (index_at (bits_of n) 0) = Some c ->
  words_encode (words_of n) = Ok (join_with 32 [a; b; c]).
Proof.
  intros Hn Ha Hb Hc. unfold words_encode, words_of. rewrite (drop_app_length' C_PREFIX) by done.
  rewrite from_be32_be32, bits_eq by lia. fold (index_at (bits_of n) 22). cbv zeta. cbn [collect].
  fold (index_at (bits_of n) 22) (index_at (bits_of n) 11) (index_at (bits_of n) 0). by rewrite Ha, Hb, Hc.
Qed.

(** Three list words come apart again. *)
Lemma word_no_blank w c : w ∈ word_octets -> c ∈ w -> blank c = false.
Proof.
  intros Hw Hc. apply word_letters in Hw as [_ Hl]. rewrite forallb_elem in Hl. apply Hl in Hc.
  unfold ascii_lowercase in Hc. bool_to_prop. unfold blank. rewrite !orb_false_iff, !Z.eqb_neq. lia.
Qed.
Lemma split_phrase a b c : a ∈ word_octets -> b ∈ word_octets -> c ∈ word_octets ->
  split_words (join_with 32 [a; b; c]) = [a; b; c].
Proof.
  intros Ha Hb Hc. unfold split_words.
  assert (map (fun c => if blank c then 32 else c) (join_with 32 [a; b; c]) = join_with 32 [a; b; c]) as ->.
  { rewrite <- map_id. apply map_ext_in. intros x Hx. destruct (blank x) eqn:Ex; [|done].
    apply list_elem_of_In, elem_of_join in Hx as [->|(p & Hp & Hx)]; [done|].
    rewrite (word_no_blank p x) in Ex; [done| |done]. set_solver. }
  rewrite split_join; [|done|].
  - assert (forall w, w ∈ word_octets -> w <> []) as Hne by (intros w [Hw _]%word_letters ->; change (blen []) with 0 in Hw; lia).
    rewrite !filter_cons_True by auto. done.
  - rewrite !Forall_cons. split_and!; [| | |done].
    all: intros Hin; by apply word_no_blank in Hin.
Qed.

Lemma read_three ws bits rest : read_words 3 ws 0 = Ok (bits, rest) <->
  exists a b c i j k, ws = a :: b :: c :: rest /\ word_index_of a = Ok i /\ word_index_of b = Ok j /\ word_index_of c = Ok k /\
    bits = (i * 2048 + j) * 2048 + k.
Proof.
  assert (forall bits w i, word_index_of w = Ok i -> Z.lor (Z.shiftl bits 11) i = bits * 2048 + i) as Hor.
  { intros z w i [Hi _]%word_index_spec. by rewrite or_low. }
  split.
  - cbn [read_words]. destruct ws as [|a ws]; [done|]. intros (i & Hi & Hd)%bind_ok. destruct ws as [|b ws]; [done|].
    apply bind_ok in Hd as (j & Hj & Hd). destruct ws as [|c ws]; [done|]. apply bind_ok in Hd as (k & Hk & [= <- <-]).
    exists a, b, c, i, j, k. split_and!; [done..|]. rewrite (Hor _ a i), (Hor _ b j), (Hor _ c k) by done. by rewrite Z.mul_0_l, Z.add_0_l.
  - intros (a & b & c & i & j & k & -> & Hi & Hj & Hk & ->). cbn [read_words].
    rewrite Hi, ok_bind, Hj, ok_bind, Hk, ok_bind. rewrite (Hor _ a i), (Hor _ b j), (Hor _ c k) by done. by rewrite Z.mul_0_l, Z.add_0_l.
Qed.

(** A phrase is accepted exactly when its words, in either case and however
    spaced, are those of the value returned. *)
Lemma phrase_inverse s w : words_from_str s = Ok w <->
  blen s <= MAX_PHRASE /\ is_ascii s = true /\
  exists n text, 0 <= n < 2 ^ 30 /\ w = words_of n /\ words_encode w = Ok text /\ split_words (to_lower s) = split_words text.
Proof.
  unfold words_from_str. destruct (_ <? _) eqn:El; bool_to_prop; [split; [done|intros [? _]; lia]|].
  destruct (is_ascii s); cbn [negb]; [|split; [done|by intros (_ & ? & _)]]. split.
  - intros ([bits rest] & (a & b & c & i & j & k & Hs & Hi & Hj & Hk & Hbits)%read_three & Hd)%bind_ok.
    revert Hbits. case_hyp. case_hyp. bool_to_prop. subst rest. intros Hbits. split_and!; [done..|].
    apply word_index_spec in Hi as [Hi Ha], Hj as [Hj Hb], Hk as [Hk Hc].
    assert (0 <= bits < 2 ^ 33) as Hr by lia. set (n := bits / 8).
    assert (Z.shiftr bits 3 mod 2 ^ 32 = n) as Hn by (rewrite Z.shiftr_div_pow2, Z.mod_small; unfold n; Z.div_mod_to_equations; lia).
    rewrite Hn in *. assert (0 <= n < 2 ^ 30) as Hnr by (unfold n; Z.div_mod_to_equations; lia).
    change 7 with (Z.ones 3) in Heqb1. rewrite Z.land_ones in Heqb1 by lia.
    assert (bits_of n = bits) as Hbo by (unfold bits_of; rewrite Heqb1; unfold n; change (2 ^ 3) with 8; Z.div_mod_to_equations; lia).
    destruct (indices_bits i j k) as (E22 & E11 & E0); [done..|]. rewrite <- Hbits, <- Hbo in E22, E11, E0.
    exists n, (join_with 32 [a; b; c]). rewrite csprng_be32 by done. split_and!; [lia|lia|done| |].
    + apply words_encode_of; [done|by rewrite E22|by rewrite E11|by rewrite E0].
    + rewrite split_phrase by (by eapply list_elem_of_lookup_2). done.
  - intros (_ & _ & n & text & Hn & -> & He & Hs). pose proof (bits_range n Hn) as Hr.
    destruct (word_at_index (index_at (bits_of n) 22)) as [a Ha]; [by apply index_at_range|].
    destruct (word_at_index (index_at (bits_of n) 11)) as [b Hb]; [by apply index_at_range|].
    destruct (word_at_index (index_at (bits_of n) 0)) as [c Hc]; [by apply index_at_range|].
    rewrite (words_encode_of n a b c) in He by done. assert (text = join_with 32 [a; b; c]) as -> by congruence.
    rewrite split_phrase in Hs by (by eapply list_elem_of_lookup_2).
    rewrite (proj2 (read_three (split_words (to_lower s)) (bits_of n) [])).
    2: { exists a, b, c, (index_at (bits_of n) 22), (index_at (bits_of n) 11), (index_at (bits_of n) 0). rewrite !word_index_spec.
      split_and!; try done; try (by apply index_at_range). by apply bits_indices. }
    rewrite ok_bind. rewrite bool_decide_eq_true_2 by done. cbn [negb]. cbv zeta.
    assert (Z.shiftr (bits_of n) 3 mod 2 ^ 32 = n) as ->.
    { rewrite Z.shiftr_div_pow2 by lia. unfold bits_of in *. pose proof (checksum_range n). change (2 ^ 3) with 8.
      rewrite Z.mod_small; Z.div_mod_to_equations; lia. }
    assert (Z.land (bits_of n) 7 = checksum n) as ->.
    { change 7 with (Z.ones 3). rewrite Z.land_ones by lia. unfold bits_of. pose proof (checksum_range n).
      change (2 ^ 3) with 8. Z.div_mod_to_equations; lia. }
    rewrite Z.eqb_refl. cbn [negb]. by rewrite csprng_be32.
Qed.

(** Every value of thirty bits is shown, and what is shown is read back. *)
Lemma phrase_shown n : 0 <= n < 2 ^ 30 ->
  exists text, words_encode (words_of n) = Ok text /\ words_from_str text = Ok (words_of n).
Proof.
  intros Hn.
  destruct (word_at_index (index_at (bits_of n) 22)) as [a Ha]; [by apply index_at_range|].
  destruct (word_at_index (index_at (bits_of n) 11)) as [b Hb]; [by apply index_at_range|].
  destruct (word_at_index (index_at (bits_of n) 0)) as [c Hc]; [by apply index_at_range|].
  pose proof (words_encode_of n a b c Hn Ha Hb Hc) as He.
  apply list_elem_of_lookup_2, word_letters in Ha as [[_ Hla] Hfa], Hb as [[_ Hlb] Hfb], Hc as [[_ Hlc] Hfc].
  exists (join_with 32 [a; b; c]). split; [done|].
  assert (forall x, x ∈ join_with 32 [a; b; c] -> x = 32 \/ ascii_lowercase x = true) as Hall.
  { rewrite forallb_elem in Hfa, Hfb, Hfc. intros x [->|(w & Hw & Hx)]%elem_of_join; [by left|right].
    apply elem_of_cons in Hw as [->|Hw]; [by apply Hfa|]. apply elem_of_cons in Hw as [->|Hw]; [by apply Hfb|].
    apply list_elem_of_singleton in Hw as ->. by apply Hfc. }
  apply phrase_inverse. split_and!; [| |exists n, (join_with 32 [a; b; c]); split_and!; try done; try lia].
  - unfold MAX_PHRASE, blen in *. cbn [join_with]. rewrite !length_app. cbn [length]. rewrite !length_app. cbn [length]. lia.
  - apply forallb_elem. intros x [->|Hl]%Hall; [done|]. unfold ascii_lowercase in Hl. bool_to_prop. lia.
  - f_equal. apply to_lower_lower, forallb_elem. intros x [->|Hl]%Hall; [done|].
    unfold ascii_lowercase, ascii_uppercase in *. bool_to_prop. apply negb_true_iff, andb_false_iff. rewrite !Z.leb_gt. lia.
Qed.
End Words.
