(* ===== verification/CredProps.v ===== *)
(** * Properties of the carriers, codes and display of credential/v2

    Small executable libraries for the concrete inputs come first. *)

From S2P Require Import Prelude External Instances Wire WireCodec Profile CbclExternal CbclProtocol CbclDemo CredCore CredFrame CredDisplay CredDisplayThms CredCarrier CredContext CredPresence CredHandoff CredHandoffThms.

(** Digests of octets. *)
#[export] Instance octet_sha : Sha256 := octet_digest 32.
#[export] Instance octet_sha_laws : Sha256Laws.
Proof. split. intros b. apply octet_digest_ok. Qed.
#[export] Instance octet_sha_octets : Sha256Octets.
Proof. intros b. apply octet_digest_ok. Qed.

(** ** Maps with integer keys *)

Lemma ordered_int_map l l' : NoDup (map fst l) -> l' ≡ₚ l -> ordered (int_map l') = ordered (int_map l).
Proof.
  intros Hnd Hp. apply ordered_keys; [|by apply fmap_Permutation].
  assert (map key_octets (map (fun kv => (VInteger kv.1, kv.2)) l) = map (fun k => [0; k]) (map fst l)) as ->
    by (by rewrite !map_map). apply NoDup_fmap_2; [|done]. by intros k k' [= ->].
Qed.

#[export] Instance demo_int_laws : CborIntLaws.
Proof.
  split.
  - by eexists.
  - intros l b [Hnd _] Hb.
    assert (b = write_value (ordered (int_map l))) as -> by (by injection Hb as <-).
    assert (exists l', l' ≡ₚ l /\ int_map l' = ordered (int_map l)) as (l' & Hp & <-).
    { destruct (Permutation_map_inv (fun kv : Z * Value => (VInteger kv.1, kv.2))
        (l1 := merge_sort key_le (map (fun kv => (VInteger kv.1, kv.2)) l)) l) as (l' & Hl' & Hp).
      - apply merge_sort_Permutation.
      - exists l'. split; [done|]. unfold int_map. simpl. by rewrite Hl'. }
    exists l'. split; [done|]. apply demo_read.
  - intros l l' [Hnd _] Hp. unfold to_canonical_vec, demo_cbor. by rewrite (ordered_int_map l l').
  - intros v [= Hw]. by destruct (ordered v).
Qed.

(** ** Base64

    Three octets become four characters, a rest of two three and of one two, as
    in the real encoding; the characters are the octets and a zero. *)

Fixpoint base_encode (b : bytes) : bytes :=
  match b with
  | x :: y :: z :: b => x :: y :: z :: 0 :: base_encode b
  | [] => []
  | b => b ++ [0]
  end.
Fixpoint base_decode (s : bytes) : bytes :=
  match s with
  | x :: y :: z :: _ :: s => x :: y :: z :: base_decode s
  | [x; y; _] => [x; y]
  | [x; _] => [x]
  | _ => []
  end.
Lemma base_read (n : nat) b : (length b <= n)%nat ->
  base_decode (base_encode b) = b /\ blen (base_encode b) = encoded_len b.
Proof.
  revert b. induction n as [|n IH]; intros b Hb; [destruct b; [by vm_compute|simpl in Hb; lia]|].
  destruct b as [|x [|y [|z b]]]; try (by vm_compute). simpl in Hb. destruct (IH b) as [Hd Hl]; [lia|].
  cbn [base_encode base_decode]. split; [by rewrite Hd|]. unfold encoded_len, blen in Hl.
  unfold encoded_len, blen. cbn [length]. rewrite !Nat2Z.inj_succ, Hl. Z.div_mod_to_equations. lia.
Qed.

#[export] Instance demo_base64 : Base64Url := {|
  base64url_encode b n := if encoded_len b <=? n then Some (base_encode b) else None;
  base64url_decode s n := let b := base_decode s in
    if bool_decide (base_encode b = s) && (blen b <=? n) then Some b else None
|}.
#[export] Instance demo_base64_laws : Base64UrlLaws.
Proof.
  split; simpl.
  - intros b n. destruct (Z.leb_spec (encoded_len b) n); split; intros Hx; try done; try (by destruct Hx); exfalso; lia.
  - intros b n s. destruct (_ <=? _); [|done]. intros [= <-]. by apply (base_read (length b)).
  - intros b n s m. destruct (_ <=? _); [|done]. intros [= <-] Hm. destruct (base_read (length b) b) as [-> _]; [done|].
    by rewrite bool_decide_eq_true_2, (proj2 (Z.leb_le _ _)).
Qed.

(** ** A word list

    2048 words of three letters in order. *)

Definition letters_at (i : nat) : bytes := map (fun n => 97 + Z.of_nat n) [i / 169; (i / 13) `mod` 13; i `mod` 13]%nat.
Definition ordered_list : list string := Eval vm_compute in map (fun i => text_octets (letters_at i)) (seq 0 2048).
#[export] Instance ordered_words_list : Bip39 := {|
  find_word w := (fun '(i, _) => Z.of_nat i) <$> list_find (eq w) ordered_list;
  word_list := ordered_list
|}.

Fixpoint ascending (l : list bytes) : bool :=
  match l with
  | [] => true
  | a :: l => forallb (fun b => negb (leb b a)) l && ascending l
  end.
Lemma ascending_spec l i j a b : ascending l = true -> (i < j)%nat -> l !! i = Some a -> l !! j = Some b -> leb b a = false.
Proof.
  revert i j. induction l as [|x l IH]; intros i j Hl Hij Ha Hb; [done|].
  simpl in Hl. apply andb_true_iff in Hl as [Hx Hl]. destruct j as [|j]; [lia|]. destruct i as [|i].
  - simpl in *. injection Ha as ->. rewrite forallb_forall in Hx.
    apply negb_true_iff, Hx, list_elem_of_In. by eapply list_elem_of_lookup_2.
  - apply (IH i j); [done|lia|done|done].
Qed.

#[export] Instance ordered_words_laws : Bip39Ordered.
Proof.
  split.
  - by vm_compute.
  - intros i j a b. apply ascending_spec. by vm_compute.
  - assert (forallb (fun w => (1 <=? blen w) && (blen w <=? 8) && forallb ascii_lowercase w) word_octets = true) as Hall
      by (by vm_compute).
    intros w Hw%list_elem_of_In. rewrite forallb_forall in Hall. apply Hall in Hw.
    apply andb_true_iff in Hw as [[? ?]%andb_true_iff ?]. bool_to_prop. split; [lia|done].
Qed.

(** ** Properties of the carriers, codes and display of credential/v2 *)

(** ** Codecs *)

(** C28. The recognisers of credential/v2 invert its encoders: octets are
    accepted as a padded object, a frame, a carrier or an account selection
    exactly when they are
    the canonical encoding of the value returned, and that value has the
    declared sizes; hence no value has two encodings and none is read from
    unequal octets. *)
Theorem cred_codecs_inverse `{Cbor, !CborLaws, !CborIntLaws, Sha256, UrlParser} b :
  (forall o, decode_object b = Ok o <->
    length (ob_intent_digest o) = 32%nat /\ ob_bytes o = b /\
    CredentialV2Object_new (ob_kind o) (ob_intent_digest o) (ob_body o) = Ok o) /\
  (forall f, decode_frame b = Ok f <-> frame_typed f /\ encode_frame f = Ok b) /\
  (forall c, decode_carrier b = Ok c <-> carrier_typed c /\ encode_carrier c = Ok b) /\
  (forall s, decode_account_select b = Ok s <-> selection_typed s /\ encode_account_select s = Ok b).
Proof.
  split_and!; intros x; [|apply frame_inverse|apply carrier_inverse|apply selection_inverse]. rewrite object_inverse. naive_solver.
Qed.

(** The transfer texts carry what they say.  A presence code is accepted
    exactly when, in upper case, it is the display of the two secrets it
    returns; a handoff text exactly when it is the encoding of its carrier and
    secrets; a manual bootstrap exactly when it is the encoding of its carrier
    and token, names the allocator's key and has not expired.  The claim token
    of the last two opens the commitment of the carrier. *)
Theorem transfer_texts_inverse `{Cbor, !CborLaws, !CborIntLaws, Sha256, !Sha256Laws, !Sha256Octets, UrlParser,
    Base64Url, !Base64UrlLaws} s :
  (forall c, presence_from_str s = Ok c <-> code_typed c /\ is_ascii s = true /\ to_upper s = presence_display c) /\
  (forall h, handoff_from_str s = Ok h <-> handoff_typed h /\ handoff_encode h = Ok s) /\
  (forall now b, manual_recognise s now = Ok b <->
    manual_typed b /\ now < ca_relay_expires_at (mb2_carrier b) /\ manual_encode b = Ok s).
Proof. split_and!; intros; [apply presence_inverse|apply handoff_inverse|apply manual_inverse]. Qed.

(** A phrase of three words is accepted exactly when it is short ASCII text
    whose words, in lower case and however separated, are those that a value of
    thirty bits is shown as; the value is the one returned.  Every such value
    is shown, and the words shown are read back. *)
Theorem phrase_exact `{Sha256, !Sha256Octets, Bip39, !Bip39Ordered} :
  (forall s w, words_from_str s = Ok w <->
    blen s <= MAX_PHRASE /\ is_ascii s = true /\
    exists n text, 0 <= n < 2 ^ 30 /\ w = words_of n /\ words_encode w = Ok text /\
      split_words (to_lower s) = split_words text) /\
  (forall n, 0 <= n < 2 ^ 30 -> exists text, words_encode (words_of n) = Ok text /\ words_from_str text = Ok (words_of n)).
Proof. split; [apply phrase_inverse|apply phrase_shown]. Qed.

(** ** Names and display *)

(** C27. [recognise_application_id] accepts exactly the renderings, of at most
    2048 octets, of structured names, stated without the code's predicates: a
    host of at most 253 octets in lower-case labels, the last of them no number;
    perhaps a port number from 1 to 65535 other than 443, in decimal; and path
    segments, neither empty nor [.] nor [..], of unreserved characters and
    delimiters that stand for themselves and of octets, none of them an
    unreserved character, percent-encoded in upper case.  It returns the origin
    of the name, and two names never render alike: an accepted identifier has
    one reading. *)
Theorem application_id_grammar value origin : recognise_application_id value = Ok origin <->
  exists a, name_ok a /\ value = name_text a /\ origin = origin_text a /\
    (forall a', name_ok a' -> name_text a' = value -> a' = a).
Proof.
  split.
  - intros (a & Ha & -> & ->)%recognised_name. exists a. split_and!; try done. intros a' Ha' Heq. by apply name_text_inj.
  - intros (a & Ha & -> & -> & _). by apply recognise_name.
Qed.

Section Display.
Context `{Sha256} {P V : Type} `{CredentialV2OfferParser P, CredentialV2IntentVerifier V}.

(** The offer, the claims parsed from it and the authority agree. *)
Record agreed (object : CredentialV2Object) (authority : CredentialV2IntentAuthority) (p p' : P)
    (claims : CredentialV2IntentClaims) : Prop := {
  ag_kind : ob_kind object = Kind_Offer;
  ag_parsed : parse_signed_offer (ob_body object) p = (p', Ok claims);
  ag_valid : claims_validate claims = Ok tt;
  ag_object : ob_intent_digest object = credential_v2_intent_digest (ic_offer_core_digest claims);
  ag_claims : ia_claims authority = claims;
  ag_digest : ia_intent_digest authority = ob_intent_digest object
}.

(** The verifier is asked about agreeing offers only. *)
Lemma recognised_run object authority p v s' r :
  recognise_credential_v2_intent object authority (p, v) = (s', r) ->
  ((forall claims, ~ agreed object authority p s'.1 claims) /\ s'.2 = v /\ forall d, r <> Ok d) \/
  exists claims, agreed object authority p s'.1 claims /\
    let '(v', answer) := verify_intent (mkCredentialV2IntentInput claims (ob_intent_digest object)) authority v in
    s'.2 = v' /\ r = (_ ← answer; Ok (mkCredentialV2Display claims (ia_tofu_state authority))).
Proof.
  unfold recognise_credential_v2_intent.
  case_bool_decide as Hk; cbn [negb]; [|intros [= <- <-]; left; split_and!; try done; by intros claims []].
  unfold mbind, stM_bind, zoom, lift, mret, stM_ret, throw. cbn [fst snd].
  destruct (parse_signed_offer (ob_body object) p) as [p' [claims|e|]] eqn:Hp; cbn [map_err].
  2, 3: intros [= <- <-]; left; split_and!; try done; intros claims [_ Hp' _ _ _ _]; simpl in Hp'; congruence.
  assert (forall claims', agreed object authority p p' claims' -> claims' = claims) as Heq.
  { intros claims' [_ Hp' _ _ _ _]. congruence. }
  destruct (claims_validate claims) as [[]|e|] eqn:Hv; cbn [map_err].
  2, 3: intros [= <- <-]; left; split_and!; try done; intros claims' Hag; pose proof (Heq _ Hag) as ->; destruct Hag; congruence.
  cbn [ii_claims ii_intent_digest]. case_bool_decide as Ho; cbn [negb];
    [|intros [= <- <-]; left; split_and!; try done; intros claims' Hag; pose proof (Heq _ Hag) as ->; by destruct Hag].
  destruct (negb _ || negb _) eqn:E.
  { intros [= <- <-]. left. split_and!; try done. intros claims' Hag; pose proof (Heq _ Hag) as ->. destruct Hag as [_ _ _ _ <- Hd].
    rewrite <- Ho, Hd, !bool_decide_eq_true_2 in E by done. done. }
  apply orb_false_iff in E as [Hc%negb_false_iff%bool_decide_eq_true Hd%negb_false_iff%bool_decide_eq_true].
  rewrite <- Ho, Hc. destruct (verify_intent (mkCredentialV2IntentInput (ia_claims authority) (ob_intent_digest object)) authority v)
    as [v' answer] eqn:Hver. cbn [fst snd].
  rewrite Hver. intros Hr. right. exists (ia_claims authority). split.
  - split; try done; destruct answer; injection Hr as <- <-; simpl; congruence.
  - rewrite Hver. by destruct answer as [[]|e|]; injection Hr as <- <-.
Qed.
End Display.

(** C16. What is displayed is authenticated.  Recognising an offer shows a display
    exactly when the object is an offer, its digest is that of the parsed
    claims, the parsed claims are those of the live authority and the
    consumer's verifier accepted them; the display then holds those claims and
    the local trust state.  The claims shown are valid: the identifier has the
    web origin shown as its origin and the permissions are in ascending order.
    The verifier's state is untouched unless everything before it agreed. *)
Theorem display_authenticated `{Sha256} {P V : Type} `{CredentialV2OfferParser P, CredentialV2IntentVerifier V}
    object authority (s s' : P * V) r :
  recognise_credential_v2_intent object authority s = (s', r) ->
  (forall d, r = Ok d <-> exists claims, agreed object authority s.1 s'.1 claims /\
    verify_intent (mkCredentialV2IntentInput claims (ob_intent_digest object)) authority s.2 = (s'.2, Ok tt) /\
    d = mkCredentialV2Display claims (ia_tofu_state authority)) /\
  (forall d, r = Ok d -> exists a, claims_valid (cd_claims d) a) /\
  (s'.2 <> s.2 -> exists claims, agreed object authority s.1 s'.1 claims).
Proof.
  destruct s as [p v]. intros Hr. apply recognised_run in Hr. cbn [fst snd].
  assert (forall d, r = Ok d <-> exists claims, agreed object authority p s'.1 claims /\
    verify_intent (mkCredentialV2IntentInput claims (ob_intent_digest object)) authority v = (s'.2, Ok tt) /\
    d = mkCredentialV2Display claims (ia_tofu_state authority)) as Hok.
  { intros d. destruct Hr as [(Hno & _ & Hn)|(claims & Ha & Hv)].
    - split; [intros Hd; by destruct (Hn d)|by intros (claims & []%Hno & _)].
    - split.
      + intros ->. exists claims. split; [done|].
        destruct (verify_intent (mkCredentialV2IntentInput claims (ob_intent_digest object)) authority v) as [v' [[]|e|]];
          destruct Hv as [-> Hd]; try done. by injection Hd as ->.
      + intros (claims' & Ha' & Hv' & ->). assert (claims' = claims) as -> by (destruct Ha, Ha'; congruence).
        rewrite Hv' in Hv. by destruct Hv as [_ ->]. }
  split_and!; [done| |].
  - intros d (claims & Ha & _ & ->)%Hok. by apply validated_claims, (ag_valid _ _ _ _ _ Ha).
  - intros Hne. destruct Hr as [(_ & ? & _)|(claims & Ha & _)]; [done|by exists claims].
Qed.

(** C23. What a context of credential/v2 binds.  When two derivations share a
    channel identifier, a public context or any associated data, they were
    made for one profile digest and one carrier, or two different encodings of
    carriers have one hash.  The session is the carrier's mailbox. *)
Theorem v2_context_binds `{Cbor, !CborLaws, Sha256, UrlParser} c c' p p' x x' :
  v2_derive c p = Ok x -> v2_derive c' p' = Ok x' -> carrier_typed c -> carrier_typed c' ->
  cx_session_id x = ca_mailbox_id c /\
  (cx_channel_identifier x = cx_channel_identifier x' \/ cx_public_context x = cx_public_context x' \/
     (exists side side', v2_associated_data x side = v2_associated_data x' side') ->
   p = p' /\ (c = c' \/ exists b b', b <> b' /\ sha256 b = sha256 b' /\ encode_carrier c = Ok b /\ encode_carrier c' = Ok b')).
Proof.
  intros Hx Hx' Hc Hc'. split; [by destruct (v2_derive_ok c p x Hx) as (b & _ & _ & ? & _)|].
  by apply (v2_derive_binds c c' p p' x x').
Qed.

(** ** Concrete carriers, codes and offers *)

#[local] Instance carrier_origins : UrlParser := fun s => Some (mkUrl EmptyString None None None "/" s "https" None None).

Definition demo_secret : bytes := seqZ 1 16.
Definition demo_token : bytes := seqZ 101 16.
Definition demo_carrier : CredentialV2Carrier :=
  mkCredentialV2Carrier "https://example.org/app" "https://relay.example.org" (replicate 32 7) (replicate 32 8) (replicate 32 9)
    (claim_commitment (replicate 32 7) demo_token) 1000 (Some (replicate 32 5)).
Definition demo_presence : CredentialV2PresenceCode := mkCredentialV2PresenceCode demo_secret demo_token.
Definition octets_of {E} (m : outcome E bytes) : bytes := match m with Ok b => b | _ => [] end.
Definition accepted {E A} (m : outcome E A) : bool := match m with Ok _ => true | _ => false end.

Definition carrier_octets : bytes := octets_of (encode_carrier demo_carrier).
Lemma carrier_octets_accepted : accepted (decode_carrier carrier_octets) = true.
Proof. vm_cast_no_check (eq_refl true). Qed.

Lemma cred_codecs_inverse_witness : exists c, decode_carrier carrier_octets = Ok c /\ encode_carrier c = Ok carrier_octets.
Proof.
  pose proof carrier_octets_accepted as Ha. destruct (decode_carrier carrier_octets) as [c| |] eqn:Hc; [|discriminate Ha..].
  exists c. split; [reflexivity|]. by apply (proj1 (proj2 (proj2 (cred_codecs_inverse carrier_octets)))).
Defined.

Definition handoff_octets_demo : bytes := octets_of (handoff_encode (mkCredentialV2Handoff demo_carrier demo_presence)).
Lemma handoff_octets_accepted : accepted (handoff_from_str handoff_octets_demo) = true.
Proof. vm_cast_no_check (eq_refl true). Qed.
Lemma presence_accepted : accepted (presence_from_str (to_lower (presence_display demo_presence))) = true.
Proof. vm_cast_no_check (eq_refl true). Qed.

Lemma transfer_texts_inverse_witness :
  (exists h, handoff_from_str handoff_octets_demo = Ok h /\ handoff_typed h) /\
  (exists c, presence_from_str (to_lower (presence_display demo_presence)) = Ok c /\ code_typed c).
Proof.
  split.
  - pose proof handoff_octets_accepted as Ha. destruct (handoff_from_str handoff_octets_demo) as [h| |] eqn:Hh; [|discriminate Ha..].
    exists h. split; [reflexivity|]. by apply (proj1 (proj2 (transfer_texts_inverse handoff_octets_demo))).
  - pose proof presence_accepted as Ha.
    destruct (presence_from_str (to_lower (presence_display demo_presence))) as [c| |] eqn:Hc; [|discriminate Ha..].
    exists c. split; [reflexivity|]. by apply (proj1 (transfer_texts_inverse (to_lower (presence_display demo_presence)))).
Defined.

Definition spaced_phrase : bytes := 32 :: to_upper (octets_of (words_encode (words_of 123456789))) ++ [32; 10].
Lemma spaced_phrase_accepted : accepted (words_from_str spaced_phrase) = true.
Proof. vm_cast_no_check (eq_refl true). Qed.

Lemma phrase_exact_witness : exists w, words_from_str spaced_phrase = Ok w /\ exists n, 0 <= n < 2 ^ 30 /\ w = words_of n.
Proof.
  pose proof spaced_phrase_accepted as Ha. destruct (words_from_str spaced_phrase) as [w| |] eqn:Hw; [|discriminate Ha..].
  exists w. split; [reflexivity|].
  destruct (proj1 (proj1 phrase_exact spaced_phrase w) Hw) as (_ & _ & n & text & Hn & He & _). exists n. by split.
Defined.

(** A parser that knows one offer and a verifier that counts. *)
Definition demo_claims : CredentialV2IntentClaims :=
  mkCredentialV2IntentClaims "https://example.org/app" "https://example.org" "https://relay.example.org" (replicate 32 8)
    (mkCredentialV2AccountProvenance (replicate 32 1) (replicate 32 2)) ["messages.read"; "messages.write"]
    (mkCredentialV2DeviceBinding "did:key:z6MkABCDEFGHJKMNPQRSTUVWXYZabcdefghijkmnopqrstuv" (replicate 32 3))
    NoTransition (replicate 32 4).
#[local] Instance demo_parser : CredentialV2OfferParser nat := fun body n => (S n, Ok demo_claims).
#[local] Instance demo_verifier : CredentialV2IntentVerifier nat := fun peer authority n => (S n, Ok tt).
Definition demo_offer : CredentialV2Object :=
  mkCredentialV2Object Kind_Offer (credential_v2_intent_digest (replicate 32 4)) [1; 2; 3] [] [].
Definition demo_authority : CredentialV2IntentAuthority :=
  mkCredentialV2IntentAuthority demo_claims TofuState_NewPair (credential_v2_intent_digest (replicate 32 4)).

Lemma display_authenticated_witness :
  recognise_credential_v2_intent demo_offer demo_authority (0%nat, 0%nat) =
    ((1%nat, 1%nat), Ok (mkCredentialV2Display demo_claims TofuState_NewPair)) /\
  exists a, claims_valid demo_claims a.
Proof.
  assert (recognise_credential_v2_intent demo_offer demo_authority (0%nat, 0%nat) =
    ((1%nat, 1%nat), Ok (mkCredentialV2Display demo_claims TofuState_NewPair))) as Hr by (vm_compute; reflexivity).
  split; [exact Hr|].
  exact (proj1 (proj2 (display_authenticated _ _ _ _ _ Hr)) _ eq_refl).
Defined.

Definition demo_context : credM CredentialV2Context := v2_derive demo_carrier (replicate 32 1).
Lemma demo_context_derived : accepted demo_context = true.
Proof. vm_cast_no_check (eq_refl true). Qed.
Lemma v2_context_binds_witness : exists x, demo_context = Ok x /\ cx_session_id x = replicate 32 7.
Proof.
  pose proof demo_context_derived as Ha. destruct demo_context as [x| |] eqn:Hx; [|discriminate Ha..].
  assert (carrier_typed demo_carrier) as Ht by (split; done).
  exists x. split; [reflexivity|]. exact (proj1 (v2_context_binds _ _ _ _ _ _ Hx Hx Ht Ht)).
Defined.
