(* ===== verification/CredChannel.v ===== *)
(** * The channel and the relay membership of credential/v2 ([src/credential_v2/channel.rs], [bootstrap.rs])

    The key schedule, key confirmation and transport of credential/v2, the
    snapshot its checkpoints hold, and the token that recovers a receipt; then
    the sequence numbers and the cached frame of a relay membership.  The
    roles' directions and the nonce are those of [Channel].  The lemmas show
    that both sides agree and that sealed frames open. *)

From S2P Require Import Prelude External Wire Cddl WireCodec WireLaws Channel CredCore CredFrame CredCarrier.

Definition MAX_PLAINTEXT : Z := 69556.
Definition RECEIPT_RECOVERY_TOKEN_DOMAIN : bytes := ascii_bytes "selfsame credential/v2 receipt recovery token v1" ++ [0].
Definition RECEIPT_RECOVERY_COMMITMENT_DOMAIN : bytes :=
  ascii_bytes "selfsame credential/v2 receipt recovery commitment v1" ++ [0].

Record V2PendingSecrets := mkV2PendingSecrets {
  p2_key_allocator_to_claimant : bytes;
  p2_key_claimant_to_allocator : bytes;
  p2_iv_allocator_to_claimant : bytes;
  p2_iv_claimant_to_allocator : bytes;
  p2_exporter : bytes
}.

Record PendingCredentialV2Channel := mkPendingCredentialV2Channel {
  n2_local_side : Side;
  n2_transcript_hash : bytes;
  n2_local_finished : bytes;
  n2_peer_finished : bytes;
  n2_secrets : V2PendingSecrets
}.

(** [SecureCredentialV2Channel] and the snapshot with the same fields. *)
Record SecureCredentialV2Channel := mkSecureCredentialV2Channel {
  c2_local_side : Side;
  c2_transcript_hash : bytes;
  c2_send_key : bytes;
  c2_receive_key : bytes;
  c2_send_iv : bytes;
  c2_receive_iv : bytes;
  c2_exporter : bytes;
  c2_next_send_counter : option Z;
  c2_next_receive_counter : option Z;
  c2_terminal : bool
}.
Record SecureCredentialV2ChannelSnapshot := mkSecureCredentialV2ChannelSnapshot {
  sn_local_side : Side;
  sn_transcript_hash : bytes;
  sn_send_key : bytes;
  sn_receive_key : bytes;
  sn_send_iv : bytes;
  sn_receive_iv : bytes;
  sn_exporter : bytes;
  sn_next_send_counter : option Z;
  sn_next_receive_counter : option Z;
  sn_terminal : bool
}.

Definition checkpoint_snapshot (c : SecureCredentialV2Channel) : SecureCredentialV2ChannelSnapshot :=
  mkSecureCredentialV2ChannelSnapshot (c2_local_side c) (c2_transcript_hash c) (c2_send_key c) (c2_receive_key c)
    (c2_send_iv c) (c2_receive_iv c) (c2_exporter c) (c2_next_send_counter c) (c2_next_receive_counter c) (c2_terminal c).
Definition restore_snapshot (s : SecureCredentialV2ChannelSnapshot) : SecureCredentialV2Channel :=
  mkSecureCredentialV2Channel (sn_local_side s) (sn_transcript_hash s) (sn_send_key s) (sn_receive_key s)
    (sn_send_iv s) (sn_receive_iv s) (sn_exporter s) (sn_next_send_counter s) (sn_next_receive_counter s) (sn_terminal s).

Abbreviation v2chanM := (stM SecureCredentialV2Channel CredentialV2Error).

Definition v2_aad_entries (direction : Direction) (counter : Z) (transcript_hash : bytes) : list (string * Value) :=
  [("v", VInteger 2); ("direction", VInteger (v2_direction_number direction)); ("counter", VInteger counter);
   ("th", VBytes transcript_hash)].

Section Channel.
Context `{Cbor, Sha512, HkdfSha512, HmacSha512, Aead}.

(** ** Key schedule *)

Definition v2_sealed_aad (direction : Direction) (counter : Z) (transcript_hash : bytes) : credM bytes :=
  ok_or (to_canonical_vec (text_map (v2_aad_entries direction counter transcript_hash))) CredentialV2Error_Schema.

Definition v2_transcript_hash (public_context allocator_frame claimant_frame : bytes) : credM bytes :=
  transcript ← ok_or (to_canonical_vec (VArray [VBytes public_context; VBytes allocator_frame; VBytes claimant_frame]))
                 CredentialV2Error_Schema;
  Ok (sha512 transcript).

Definition v2_expand (length : nat) (isk label transcript_hash : bytes) : credM bytes :=
  ok_or (hkdf_expand isk (label ++ transcript_hash) length) CredentialV2Error_KeySchedule.
Definition v2_finished (key label transcript_hash : bytes) : credM bytes :=
  ok_or (hmac_sha512 key (label ++ transcript_hash)) CredentialV2Error_KeySchedule.

Definition PendingCredentialV2Channel_new (local_side : Side) (isk public_context allocator_frame claimant_frame : bytes) :
    credM PendingCredentialV2Channel :=
  th ← v2_transcript_hash public_context allocator_frame claimant_frame;
  kc_allocator ← v2_expand 32 isk (ascii_bytes "pairing-credential-v2 kc A") th;
  kc_claimant ← v2_expand 32 isk (ascii_bytes "pairing-credential-v2 kc B") th;
  allocator_finished ← v2_finished kc_allocator (ascii_bytes "pairing-credential-v2 finished A") th;
  claimant_finished ← v2_finished kc_claimant (ascii_bytes "pairing-credential-v2 finished B") th;
  key_ab ← v2_expand 32 isk (ascii_bytes "pairing-credential-v2 key A-B") th;
  key_ba ← v2_expand 32 isk (ascii_bytes "pairing-credential-v2 key B-A") th;
  iv_ab ← v2_expand 12 isk (ascii_bytes "pairing-credential-v2 iv A-B") th;
  iv_ba ← v2_expand 12 isk (ascii_bytes "pairing-credential-v2 iv B-A") th;
  exporter ← v2_expand 32 isk (ascii_bytes "pairing-credential-v2 exporter") th;
  let secrets := mkV2PendingSecrets key_ab key_ba iv_ab iv_ba exporter in
  Ok (match local_side with
      | Side_Allocator => mkPendingCredentialV2Channel local_side th allocator_finished claimant_finished secrets
      | Side_Claimant => mkPendingCredentialV2Channel local_side th claimant_finished allocator_finished secrets
      end).

Definition v2_local_finished_frame (p : PendingCredentialV2Channel) : CredentialV2Frame :=
  V2Frame_Finished (n2_local_side p) (n2_local_finished p).

Definition v2_confirm (p : PendingCredentialV2Channel) (peer_finished_frame : CredentialV2Frame) :
    credM SecureCredentialV2Channel :=
  '(peer_side, peer_finished) ← ok_or (frame_finished peer_finished_frame) CredentialV2Error_Finished;
  if bool_decide (peer_side = n2_local_side p) || negb (bool_decide (n2_peer_finished p = peer_finished))
  then Err CredentialV2Error_Finished
  else
    let s := n2_secrets p in
    let '(send_key, receive_key, send_iv, receive_iv) :=
      match n2_local_side p with
      | Side_Allocator => (p2_key_allocator_to_claimant s, p2_key_claimant_to_allocator s,
                           p2_iv_allocator_to_claimant s, p2_iv_claimant_to_allocator s)
      | Side_Claimant => (p2_key_claimant_to_allocator s, p2_key_allocator_to_claimant s,
                          p2_iv_claimant_to_allocator s, p2_iv_allocator_to_claimant s)
      end in
    Ok (mkSecureCredentialV2Channel (n2_local_side p) (n2_transcript_hash p) send_key receive_key send_iv receive_iv
          (p2_exporter s) (Some 0) (Some 0) false).

(** ** Transport *)

Definition v2_set_send_counter (n : option Z) (c : SecureCredentialV2Channel) : SecureCredentialV2Channel :=
  mkSecureCredentialV2Channel (c2_local_side c) (c2_transcript_hash c) (c2_send_key c) (c2_receive_key c) (c2_send_iv c)
    (c2_receive_iv c) (c2_exporter c) n (c2_next_receive_counter c) (c2_terminal c).
Definition v2_set_receive_counter (n : option Z) (c : SecureCredentialV2Channel) : SecureCredentialV2Channel :=
  mkSecureCredentialV2Channel (c2_local_side c) (c2_transcript_hash c) (c2_send_key c) (c2_receive_key c) (c2_send_iv c)
    (c2_receive_iv c) (c2_exporter c) (c2_next_send_counter c) n (c2_terminal c).
Definition v2_set_terminal (c : SecureCredentialV2Channel) : SecureCredentialV2Channel :=
  mkSecureCredentialV2Channel (c2_local_side c) (c2_transcript_hash c) (c2_send_key c) (c2_receive_key c) (c2_send_iv c)
    (c2_receive_iv c) (c2_exporter c) (c2_next_send_counter c) (c2_next_receive_counter c) true.

Definition v2_channel_fail {A} (e : CredentialV2Error) : v2chanM A :=
  _ ← modify v2_set_terminal;
  throw e.

(** [Aes256Gcm::new_from_slice]. *)
Definition v2_cipher_key (key : bytes) : credM bytes :=
  if (length key =? 32)%nat then Ok key else Err CredentialV2Error_KeySchedule.

Definition can_seal (c : SecureCredentialV2Channel) (plaintext : bytes) : credM unit :=
  if c2_terminal c then Err CredentialV2Error_Terminal
  else if (blen plaintext =? 0) || (MAX_PLAINTEXT <? blen plaintext) then Err CredentialV2Error_Size
  else
    _ ← ok_or (c2_next_send_counter c) CredentialV2Error_Counter;
    Ok tt.

Definition v2_seal (plaintext : bytes) : v2chanM CredentialV2Frame :=
  c ← get;
  _ ← lift (can_seal c plaintext);
  counter ← lift (ok_or (c2_next_send_counter c) CredentialV2Error_Counter);
  let direction := send_direction (c2_local_side c) in
  aad ← lift (v2_sealed_aad direction counter (c2_transcript_hash c));
  let nonce := derive_nonce (c2_send_iv c) counter in
  key ← lift (v2_cipher_key (c2_send_key c));
  ciphertext ← lift (ok_or (aead_encrypt key nonce aad plaintext) CredentialV2Error_Authentication);
  _ ← modify (v2_set_send_counter (checked_add u64_max counter 1));
  mret (V2Frame_Sealed direction counter ciphertext).

Definition v2_open (frame : CredentialV2Frame) : v2chanM bytes :=
  c ← get;
  if c2_terminal c then throw CredentialV2Error_Terminal
  else
    match frame_sealed frame with
    | None => v2_channel_fail CredentialV2Error_Schema
    | Some (direction, counter, ciphertext) =>
        if negb (bool_decide (direction = receive_direction (c2_local_side c)))
        then v2_channel_fail CredentialV2Error_Direction
        else
          match c2_next_receive_counter c with
          | None => v2_channel_fail CredentialV2Error_Counter
          | Some expected =>
              if negb (counter =? expected) then v2_channel_fail CredentialV2Error_Counter
              else if negb ((17 <=? blen ciphertext) && (blen ciphertext <=? MAX_PLAINTEXT + 16))
              then v2_channel_fail CredentialV2Error_Size
              else
                aad ← lift (v2_sealed_aad direction counter (c2_transcript_hash c));
                let nonce := derive_nonce (c2_receive_iv c) counter in
                key ← lift (v2_cipher_key (c2_receive_key c));
                match aead_decrypt key nonce aad ciphertext with
                | Some plaintext =>
                    _ ← modify (v2_set_receive_counter (checked_add u64_max counter 1));
                    mret plaintext
                | None => v2_channel_fail CredentialV2Error_Authentication
                end
          end
    end.
End Channel.

(** ** Receipt recovery *)

Definition receipt_recovery_token `{HmacSha256} (c : SecureCredentialV2Channel) : credM bytes :=
  Ok (hmac_sha256 (c2_exporter c) (RECEIPT_RECOVERY_TOKEN_DOMAIN ++ c2_transcript_hash c)).
Definition receipt_recovery_commitment `{HmacSha256, Sha256} (c : SecureCredentialV2Channel)
    (carrier : CredentialV2Carrier) : credM bytes :=
  token ← receipt_recovery_token c;
  Ok (sha256 (RECEIPT_RECOVERY_COMMITMENT_DOMAIN ++ token ++ ca_carrier_ceremony_id carrier ++
              ascii_bytes (ca_application_context carrier))).

(** ** The relay membership of a credential/v2 endpoint ([src/credential_v2/bootstrap.rs])

    Sequence numbers, the outstanding acknowledgement and the cached sealed
    frame that a retry sends again. *)

Record CredentialV2RelayState := mkCredentialV2RelayState {
  rs_membership_token : bytes;
  rs_next_local_sequence : Z;
  rs_next_peer_sequence : Z;
  rs_awaiting_ack : bool;
  rs_cached_outbound : option CredentialV2Frame
}.

Definition CredentialV2RelayState_new (membership_token : bytes) : CredentialV2RelayState :=
  mkCredentialV2RelayState membership_token 0 0 false None.

Abbreviation relayM := (stM CredentialV2RelayState CredentialV2Error).

Definition set_next_local_sequence (n : Z) (r : CredentialV2RelayState) : CredentialV2RelayState :=
  mkCredentialV2RelayState (rs_membership_token r) n (rs_next_peer_sequence r) (rs_awaiting_ack r) (rs_cached_outbound r).
Definition set_next_peer_sequence (n : Z) (r : CredentialV2RelayState) : CredentialV2RelayState :=
  mkCredentialV2RelayState (rs_membership_token r) (rs_next_local_sequence r) n (rs_awaiting_ack r) (rs_cached_outbound r).
Definition set_awaiting_ack (b : bool) (r : CredentialV2RelayState) : CredentialV2RelayState :=
  mkCredentialV2RelayState (rs_membership_token r) (rs_next_local_sequence r) (rs_next_peer_sequence r) b (rs_cached_outbound r).
Definition set_relay_cached (f : option CredentialV2Frame) (r : CredentialV2RelayState) : CredentialV2RelayState :=
  mkCredentialV2RelayState (rs_membership_token r) (rs_next_local_sequence r) (rs_next_peer_sequence r) (rs_awaiting_ack r) f.

Definition accept_peer_sequence (sequence : Z) : relayM unit :=
  r ← get;
  if negb (sequence =? rs_next_peer_sequence r) then throw CredentialV2Error_Counter
  else
    next ← lift (ok_or (checked_add u8_max (rs_next_peer_sequence r) 1) CredentialV2Error_Counter);
    modify (set_next_peer_sequence next).

Definition queue_bootstrap_frame : relayM Z :=
  r ← get;
  if rs_awaiting_ack r || bool_decide (is_Some (rs_cached_outbound r)) then throw CredentialV2Error_Phase
  else
    let sequence := rs_next_local_sequence r in
    next ← lift (ok_or (checked_add u8_max (rs_next_local_sequence r) 1) CredentialV2Error_Counter);
    _ ← modify (set_next_local_sequence next);
    _ ← modify (set_awaiting_ack true);
    mret sequence.

Definition acknowledge_bootstrap_frame (sequence : Z) : relayM unit :=
  r ← get;
  expected ← lift (ok_or (checked_sub (rs_next_local_sequence r) 1) CredentialV2Error_Counter);
  if negb (rs_awaiting_ack r) || negb (sequence =? expected) || bool_decide (is_Some (rs_cached_outbound r))
  then throw CredentialV2Error_Counter
  else modify (set_awaiting_ack false).

Definition acknowledgement_already_applied (r : CredentialV2RelayState) (sequence : Z) : bool :=
  match checked_sub (rs_next_local_sequence r) 1 with
  | None => false
  | Some last_sent => (sequence <? last_sent) || ((sequence =? last_sent) && negb (rs_awaiting_ack r))
  end.

Definition cache_application_frame (frame : CredentialV2Frame) : relayM unit :=
  r ← get;
  if rs_awaiting_ack r || bool_decide (frame_sealed frame = None) then throw CredentialV2Error_Phase
  else
    next ← lift (ok_or (checked_add u8_max (rs_next_local_sequence r) 1) CredentialV2Error_Counter);
    _ ← modify (set_next_local_sequence next);
    _ ← modify (set_relay_cached (Some frame));
    modify (set_awaiting_ack true).

Definition cached_application_sequence (r : CredentialV2RelayState) : credM Z :=
  if negb (rs_awaiting_ack r) || negb (bool_decide (is_Some (rs_cached_outbound r))) then Err CredentialV2Error_Phase
  else ok_or (checked_sub (rs_next_local_sequence r) 1) CredentialV2Error_Counter.

Definition cached_bootstrap_sequence (r : CredentialV2RelayState) : credM (option Z) :=
  if bool_decide (is_Some (rs_cached_outbound r)) then Err CredentialV2Error_Phase
  else if negb (rs_awaiting_ack r) then Ok None
  else ok_or (Some <$> checked_sub (rs_next_local_sequence r) 1) CredentialV2Error_Counter.

Definition acknowledge_application_frame (sequence : Z) : relayM unit :=
  r ← get;
  cached ← lift (cached_application_sequence r);
  if negb (cached =? sequence) then throw CredentialV2Error_Counter
  else
    _ ← modify (set_relay_cached None);
    modify (set_awaiting_ack false).

(** ** Agreement and delivery on the channel of credential/v2 *)

(** Array sizes and counter width. *)
Record v2_channel_ok (c : SecureCredentialV2Channel) : Prop := {
  v2k_send_key : length (c2_send_key c) = 32%nat;
  v2k_receive_key : length (c2_receive_key c) = 32%nat;
  v2k_send_iv : length (c2_send_iv c) = 12%nat;
  v2k_receive_iv : length (c2_receive_iv c) = 12%nat;
  v2k_transcript : length (c2_transcript_hash c) = 64%nat;
  v2k_send_counter : counter_ok (c2_next_send_counter c);
  v2k_receive_counter : counter_ok (c2_next_receive_counter c)
}.

(** The receiver [r] of what [s] sends, with no frame under way. *)
Record v2_linked (s r : SecureCredentialV2Channel) : Prop := {
  v2l_sender : c2_terminal s = false;
  v2l_receiver : c2_terminal r = false;
  v2l_direction : receive_direction (c2_local_side r) = send_direction (c2_local_side s);
  v2l_transcript : c2_transcript_hash r = c2_transcript_hash s;
  v2l_key : c2_receive_key r = c2_send_key s;
  v2l_iv : c2_receive_iv r = c2_send_iv s;
  v2l_counter : c2_next_receive_counter r = c2_next_send_counter s
}.

Definition v2_plaintext (p : bytes) : Prop := 0 < blen p <= MAX_PLAINTEXT.

(** [opposite] of a side, before the endpoint. *)
Definition opposite_side (s : Side) : Side := match s with Side_Allocator => Side_Claimant | Side_Claimant => Side_Allocator end.

(** The additional data of a frame is within the cipher's bound. *)
Definition small_aad `{Cbor} : Prop := forall d n th aad,
  length th = 64%nat -> v2_sealed_aad d n th = Ok aad -> blen aad <= aead_data_max.

Section Transport.
Context `{Cbor, Aead}.

(** [f] is the encryption of [p] under counter [n] of the sending side [c]. *)
Definition v2_seals (c : SecureCredentialV2Channel) (n : Z) (p : bytes) (f : CredentialV2Frame) : Prop :=
  exists aad ct,
    f = V2Frame_Sealed (send_direction (c2_local_side c)) n ct /\
    v2_sealed_aad (send_direction (c2_local_side c)) n (c2_transcript_hash c) = Ok aad /\
    length (c2_send_key c) = 32%nat /\
    aead_encrypt (c2_send_key c) (derive_nonce (c2_send_iv c) n) aad p = Some ct.

Lemma v2_seal_cases p c c' r : v2_seal p c = (c', r) ->
  (exists n f, r = Ok f /\ c2_terminal c = false /\ v2_plaintext p /\ c2_next_send_counter c = Some n /\
     v2_seals c n p f /\ c' = v2_set_send_counter (checked_add u64_max n 1) c) \/
  (c' = c /\ exists e, r = Err e).
Proof.
  unfold v2_seal, can_seal, v2_plaintext, mbind, stM_bind, get, throw, lift, modify, mret, stM_ret, v2_cipher_key. simpl.
  destruct (c2_terminal c) eqn:Ht; [intros [= <- <-]; eauto|].
  destruct (_ || _) eqn:Hp; [intros [= <- <-]; eauto|].
  destruct (c2_next_send_counter c) as [n|] eqn:Hn; simpl; [|intros [= <- <-]; eauto].
  destruct (v2_sealed_aad _ _ _) as [aad|e|] eqn:Ha; [|intros [= <- <-]; eauto|].
  2:{ unfold v2_sealed_aad in Ha. by destruct (to_canonical_vec _). }
  destruct (_ =? 32)%nat eqn:Hk; [|intros [= <- <-]; eauto].
  destruct (aead_encrypt _ _ _ _) as [ct|] eqn:He; simpl; intros [= <- <-]; [|eauto].
  apply orb_false_iff in Hp as [Hp1 Hp2]. bool_to_prop. pose proof (blen_nonneg p).
  left. exists n, (V2Frame_Sealed (send_direction (c2_local_side c)) n ct).
  split_and!; try done; [lia|]. exists aad, ct. split_and!; try done. by apply Nat.eqb_eq.
Qed.

(** What makes an incoming frame acceptable to [c]. *)
Definition v2_opens (c : SecureCredentialV2Channel) (n : Z) (f : CredentialV2Frame) (p : bytes) : Prop :=
  exists ct aad,
    f = V2Frame_Sealed (receive_direction (c2_local_side c)) n ct /\
    17 <= blen ct <= MAX_PLAINTEXT + 16 /\
    v2_sealed_aad (receive_direction (c2_local_side c)) n (c2_transcript_hash c) = Ok aad /\
    length (c2_receive_key c) = 32%nat /\
    aead_decrypt (c2_receive_key c) (derive_nonce (c2_receive_iv c) n) aad ct = Some p.

Lemma v2_open_accepts c n f p : c2_terminal c = false -> c2_next_receive_counter c = Some n -> v2_opens c n f p ->
  v2_open f c = (v2_set_receive_counter (checked_add u64_max n 1) c, Ok p).
Proof.
  intros Ht Hn (ct & aad & -> & Hl & Ha & Hk & Hd).
  unfold v2_open, mbind, stM_bind, get, throw, lift, modify, mret, stM_ret, v2_cipher_key. simpl.
  rewrite Ht, bool_decide_eq_true_2 by done. cbn [negb]. rewrite Hn, Z.eqb_refl. cbn [negb].
  rewrite (proj2 (Z.leb_le _ _)), (proj2 (Z.leb_le _ _)) by lia. cbn [negb andb]. rewrite Ha, Hk, Nat.eqb_refl, Hd. done.
Qed.

Lemma v2_open_cases f c c' r : v2_open f c = (c', r) ->
  (exists n p, r = Ok p /\ c2_terminal c = false /\ c2_next_receive_counter c = Some n /\ v2_opens c n f p /\
     c' = v2_set_receive_counter (checked_add u64_max n 1) c) \/
  ((exists e, r = Err e) /\ (c' = c \/ c' = v2_set_terminal c)).
Proof.
  unfold v2_open, v2_channel_fail, mbind, stM_bind, get, throw, lift, modify, mret, stM_ret, v2_cipher_key. simpl.
  destruct (c2_terminal c) eqn:Ht; [intros [= <- <-]; by eauto|].
  destruct (frame_sealed f) as [[[d n] ct]|] eqn:Hf; [|intros [= <- <-]; by eauto].
  destruct (negb _) eqn:Hd; [intros [= <- <-]; by eauto|].
  destruct (c2_next_receive_counter c) as [m|] eqn:Hn; [|intros [= <- <-]; by eauto].
  destruct (negb (n =? m)) eqn:Hm; [intros [= <- <-]; by eauto|].
  destruct (negb (_ && _)) eqn:Hl; [intros [= <- <-]; by eauto|].
  apply negb_false_iff in Hd, Hm, Hl. apply andb_true_iff in Hl as [Hl1 Hl2]. bool_to_prop. subst m d.
  destruct (v2_sealed_aad _ _ _) as [aad|e|] eqn:Ha; [|intros [= <- <-]; by eauto|].
  2:{ unfold v2_sealed_aad in Ha. by destruct (to_canonical_vec _). }
  destruct (_ =? 32)%nat eqn:Hk; [apply Nat.eqb_eq in Hk|intros [= <- <-]; by eauto].
  destruct (aead_decrypt _ _ _ _) as [p|] eqn:He; intros [= <- <-]; [|by eauto].
  left. exists n, p. split_and!; try done. exists ct, aad. split_and!; try done. by destruct f; simplify_eq/=.
Qed.
End Transport.

Section Delivery.
Context `{Cbor, Aead, !CborLaws, !AeadLaws}.

Lemma v2_sealed_aad_total d n th : 0 <= n <= u64_max -> exists aad, v2_sealed_aad d n th = Ok aad.
Proof.
  intros Hn. unfold v2_sealed_aad. destruct (map_written (v2_aad_entries d n th)) as [b Hb]; [|rewrite Hb; by exists b].
  split; simpl; [apply (bool_decide_unpack _); by vm_compute|].
  repeat (apply Forall_cons; split); simpl; try done; [by destruct d|].
  apply andb_true_iff. rewrite !Z.leb_le. lia.
Qed.

Lemma v2_counter_next n : counter_ok (Some n) -> counter_ok (checked_add u64_max n 1).
Proof. intros Hn z [-> Hz]%checked_add_some. specialize (Hn n eq_refl). lia. Qed.

(** What the sender sealed, the receiver opens, and they stay linked. *)
Lemma v2_sealed_opens s r n p f : v2_linked s r -> v2_channel_ok r -> c2_next_send_counter s = Some n -> v2_plaintext p ->
  v2_seals s n p f -> v2_open f r = (v2_set_receive_counter (checked_add u64_max n 1) r, Ok p).
Proof.
  intros [? Hrt Hd Hth Hk Hi Hc] Hr Hn Hp (aad & ct & -> & Ha & _ & He). apply v2_open_accepts; [done|congruence|].
  exists ct, aad. pose proof (encrypt_len _ _ _ _ _ He) as Hl. apply decrypt_encrypt in He. unfold v2_plaintext, blen in *.
  rewrite Hd, Hth, Hk, Hi. split_and!; try done; [lia|lia|]. rewrite <- Hk. by apply Hr.
Qed.
Lemma v2_seal_ready s n p : v2_channel_ok s -> small_aad -> c2_terminal s = false -> c2_next_send_counter s = Some n ->
  v2_plaintext p -> exists f, v2_seals s n p f /\ v2_seal p s = (v2_set_send_counter (checked_add u64_max n 1) s, Ok f).
Proof.
  intros Hs Hsmall Ht Hn Hp. pose proof (v2k_send_counter s Hs) as Hc. rewrite Hn in Hc. specialize (Hc n eq_refl).
  destruct (v2_sealed_aad_total (send_direction (c2_local_side s)) n (c2_transcript_hash s) Hc) as [aad Ha].
  destruct (encrypt_some (c2_send_key s) (derive_nonce (c2_send_iv s) n) aad p) as [ct He].
  - apply Hs.
  - by apply derive_nonce_length, Hs.
  - unfold v2_plaintext, MAX_PLAINTEXT, aead_message_max in *. lia.
  - apply (Hsmall _ _ _ _ (v2k_transcript s Hs) Ha).
  - exists (V2Frame_Sealed (send_direction (c2_local_side s)) n ct). split.
    + exists aad, ct. split_and!; try done. apply Hs.
    + unfold v2_seal, can_seal, mbind, stM_bind, get, throw, lift, modify, mret, stM_ret, v2_cipher_key.
      rewrite Ht, Hn. unfold v2_plaintext in Hp. destruct (_ || _) eqn:E.
      { apply orb_true_iff in E as [E|E]; bool_to_prop; lia. }
      cbn. rewrite Ha, (v2k_send_key s Hs), Nat.eqb_refl, He. done.
Qed.
End Delivery.

(** ** Both directions *)

(** Two confirmed channels with nothing under way. *)
Record v2_pair (a b : SecureCredentialV2Channel) : Prop := {
  vp_ok_a : v2_channel_ok a;
  vp_ok_b : v2_channel_ok b;
  vp_forth : v2_linked a b;
  vp_back : v2_linked b a
}.
Lemma v2_pair_sym a b : v2_pair a b -> v2_pair b a.
Proof. by intros []. Qed.

Lemma v2_pair_step a b n : v2_pair a b -> c2_next_send_counter a = Some n ->
  v2_pair (v2_set_send_counter (checked_add u64_max n 1) a) (v2_set_receive_counter (checked_add u64_max n 1) b).
Proof.
  intros [Ha Hb Hf Hk] Hn. pose proof (v2k_send_counter a Ha) as Hsc. rewrite Hn in Hsc.
  split; [destruct Ha|destruct Hb|destruct Hf|destruct Hk]; split; simpl; try done; by apply v2_counter_next.
Qed.

(** ** Agreement *)

Section Schedule.
Context `{Cbor, Sha512, HkdfSha512, HmacSha512, !CborLaws, !ScheduleLaws}.

Lemma v2_expand_total n isk label th : (n <= 64)%nat -> exists k, v2_expand n isk label th = Ok k /\ length k = n.
Proof. intros Hn. unfold v2_expand. destruct (hkdf_expands isk (label ++ th) n Hn) as (k & -> & Hk). by exists k. Qed.
Lemma v2_finished_total key label th : exists t, v2_finished key label th = Ok t /\ length t = 64%nat.
Proof. unfold v2_finished. destruct (hmac_sha512_some key (label ++ th)) as (t & -> & Ht). by exists t. Qed.
Lemma v2_transcript_total ctx fa fb : exists th, v2_transcript_hash ctx fa fb = Ok th /\ length th = 64%nat.
Proof.
  unfold v2_transcript_hash. destruct (plain_written (VArray [VBytes ctx; VBytes fa; VBytes fb])) as [b Hb]; [done|].
  exists (sha512 b). rewrite Hb. split; [done|apply sha512_len].
Qed.

(** The two sides of one schedule: each accepts exactly the other's Finished
    frame, and then they hold a pair of channels with one exporter. *)
Lemma v2_schedule isk context fa fb : exists pa pb ca cb,
  PendingCredentialV2Channel_new Side_Allocator isk context fa fb = Ok pa /\
  PendingCredentialV2Channel_new Side_Claimant isk context fa fb = Ok pb /\
  (forall f c, v2_confirm pa f = Ok c <-> f = v2_local_finished_frame pb /\ c = ca) /\
  (forall f c, v2_confirm pb f = Ok c <-> f = v2_local_finished_frame pa /\ c = cb) /\
  frame_typed (v2_local_finished_frame pa) /\ frame_typed (v2_local_finished_frame pb) /\
  v2_pair ca cb /\ c2_next_send_counter ca = Some 0 /\ c2_next_send_counter cb = Some 0 /\
  c2_exporter ca = c2_exporter cb /\ c2_local_side ca = Side_Allocator /\ c2_local_side cb = Side_Claimant.
Proof.
  unfold PendingCredentialV2Channel_new. destruct (v2_transcript_total context fa fb) as (th & -> & Hth). rewrite !ok_bind.
  repeat match goal with
    | |- context [v2_expand ?n isk ?l th] =>
        destruct (v2_expand_total n isk l th) as (? & -> & ?); [lia|]; rewrite !ok_bind
    | |- context [v2_finished ?k ?l th] => destruct (v2_finished_total k l th) as (? & -> & ?); rewrite !ok_bind
    end.
  assert (forall side th tag peer s f c,
    let p := mkPendingCredentialV2Channel side th tag peer s in
    v2_confirm p f = Ok c <-> f = V2Frame_Finished (opposite_side side) peer /\ v2_confirm p f = Ok c) as Hconfirm.
  { intros side th' tag peer s f c. cbv zeta. split; [|by intros [_ ?]]. intros Hc. split; [|done]. revert Hc. unfold v2_confirm.
    intros ([side' value] & Hf%ok_or_ok & Hc)%bind_ok. destruct (_ || _) eqn:E; [done|].
    apply orb_false_iff in E as [E1%bool_decide_eq_false E2%negb_false_iff%bool_decide_eq_true]. simpl in E1, E2. subst value.
    destruct f; simplify_eq/=. f_equal. by destruct side, side'. }
  do 4 eexists. split_and!; [reflexivity|reflexivity|..].
  1, 2: intros f c; rewrite Hconfirm; unfold v2_local_finished_frame; simpl; split;
    intros [-> Hc]; (split; [done|]); revert Hc; unfold v2_confirm; simpl; repeat case_bool_decide; try done; simpl;
    [intros [= <-]|intros ->]; reflexivity.
  all: try done.
  split; split; simpl; try done; intros z [= <-]; unfold u64_max; lia.
Qed.
End Schedule.
