(* ===== verification/CredEndpoint.v ===== *)
(** * The credential/v2 endpoint ([src/credential_v2/endpoint.rs])

    The sender-, predecessor- and intent-bound reducer of one side, with the
    receipt recovery of a claimant.  The consumer's body verifier is a class
    over its own state, which the endpoint holds. *)

From S2P Require Import Prelude External Wire Cddl WireCodec CbclProtocol CredCore CredFrame CredDisplay CredCarrier CredContext CredChannel.

Inductive CredentialV2Phase : Type :=
| Phase_Begin
| Phase_AccountSelected
| Phase_Offered
| Phase_IntentApproved
| Phase_Prepared
| Phase_Confirmed
| Phase_FinalApproved
| Phase_PayloadSent
| Phase_Terminal.
#[export] Instance CredentialV2Phase_eq_dec : EqDecision CredentialV2Phase.
Proof. solve_decision. Defined.

Inductive CredentialV2Advance : Type :=
| Advance_Advanced
| Advance_DisplayIntent (display : CredentialV2Display)
| Advance_ExactRetransmission.

Record CredentialV2LogicalBody := mkCredentialV2LogicalBody {
  lb_kind : CredentialV2Kind;
  lb_carrier_ceremony_id : bytes;
  lb_predecessor_digest : bytes;
  lb_bytes : bytes
}.

(** [verify], [checkpoint_state] and [restore_checkpoint_state]. *)
Class CredentialV2BodyVerifier (B : Type) := {
  body_verify : CredentialV2LogicalBody -> stM B CredentialV2Error unit;
  body_checkpoint_state : B -> credM bytes;
  body_restore_checkpoint_state : bytes -> stM B CredentialV2Error unit
}.
(** The trait's own bodies of the last two. *)
Definition default_checkpoint_state {B} (b : B) : credM bytes := Ok [].
Definition default_restore_checkpoint_state {B} (state : bytes) : stM B CredentialV2Error unit :=
  if bool_decide (state = []) then mret tt else throw CredentialV2Error_Schema.

Record CredentialV2RecoveredReceiptAuthority := mkCredentialV2RecoveredReceiptAuthority {
  ra_application_context : string;
  ra_carrier_ceremony_id : bytes;
  ra_intent_digest : bytes;
  ra_payload_content_hash : bytes;
  ra_final_status_digest : bytes;
  ra_receipt_body_digest : bytes
}.

Record LastObject := mkLastObject {
  lo_sender : Side;
  lo_bytes : option bytes;
  lo_kind : CredentialV2Kind;
  lo_intent_digest : bytes;
  lo_content_hash : bytes
}.

Record CredentialV2Endpoint (B : Type) := mkCredentialV2Endpoint {
  ve_side : Side;
  ve_carrier : CredentialV2Carrier;
  ve_phase : CredentialV2Phase;
  ve_intent_digest : option bytes;
  ve_last : option LastObject;
  ve_body_verifier : B;
  ve_checkpoint_generation : Z;
  ve_checkpoint_nonce : option bytes
}.
Arguments mkCredentialV2Endpoint {B}.
Arguments ve_side {B}.
Arguments ve_carrier {B}.
Arguments ve_phase {B}.
Arguments ve_intent_digest {B}.
Arguments ve_last {B}.
Arguments ve_body_verifier {B}.
Arguments ve_checkpoint_generation {B}.
Arguments ve_checkpoint_nonce {B}.

(** ** Bodies *)

Definition opposite (side : Side) : Side :=
  match side with Side_Allocator => Side_Claimant | Side_Claimant => Side_Allocator end.

Definition valid_sender (kind : CredentialV2Kind) (sender : Side) : bool :=
  match kind with
  | Kind_Offer | Kind_ComparisonConfirmed | Kind_BindingConfirmed | Kind_Receipt => bool_decide (sender = Side_Allocator)
  | Kind_IntentApprove | Kind_IntentDecline | Kind_Preparation | Kind_FinalApprove | Kind_FinalDecline | Kind_Payload
  | Kind_AccountSelect => bool_decide (sender = Side_Claimant)
  | Kind_Refusal => true
  end.

Definition pre_offer (phase : CredentialV2Phase) : bool :=
  match phase with Phase_Begin | Phase_AccountSelected => true | _ => false end.

Definition next_phase (phase : CredentialV2Phase) (kind : CredentialV2Kind) : option CredentialV2Phase :=
  if bool_decide (kind = Kind_Refusal) && negb (bool_decide (phase = Phase_PayloadSent)) then Some Phase_Terminal
  else
    match phase, kind with
    | Phase_Offered, Kind_IntentApprove => Some Phase_IntentApproved
    | Phase_Offered, Kind_IntentDecline | Phase_Confirmed, Kind_FinalDecline => Some Phase_Terminal
    | Phase_IntentApproved, Kind_Preparation => Some Phase_Prepared
    | Phase_Prepared, (Kind_ComparisonConfirmed | Kind_BindingConfirmed) => Some Phase_Confirmed
    | Phase_Confirmed, Kind_FinalApprove => Some Phase_FinalApproved
    | Phase_FinalApproved, Kind_Payload => Some Phase_PayloadSent
    | Phase_PayloadSent, Kind_Receipt => Some Phase_Terminal
    | _, _ => None
    end.

Definition valid_compact_jws (value : bytes) : bool :=
  let parts := split_on dot_octet value in
  (length parts =? 3)%nat &&
  forallb (fun part => negb (bool_decide (part = [])) &&
    forallb (fun byte => ascii_alphanumeric byte || (byte =? 45) || (byte =? 95)) part) parts.

Definition validate_receipt (entries : list (Value * Value)) : credM unit :=
  if negb (length entries =? 4)%nat then Err CredentialV2Error_Schema
  else
    jws ← v2_text_field entries "finalStatusJws";
    _ ← v2_bytes_field 32 entries "finalStatusDigest";
    let octets := ascii_bytes jws in
    if negb ((1 <=? blen octets) && (blen octets <=? 8192)) || negb (valid_compact_jws octets)
    then Err CredentialV2Error_Schema
    else Ok tt.

Definition receipt_final_status_digest `{Cbor} (input : bytes) : credM bytes :=
  value ← decode_canonical input;
  entries ← v2_map_entries value;
  _ ← validate_receipt entries;
  v2_bytes_field 32 entries "finalStatusDigest".

Definition recognise_logical_body `{Cbor} (object : CredentialV2Object) : credM CredentialV2LogicalBody :=
  if bool_decide (ob_kind object = Kind_Offer) then Err CredentialV2Error_Schema
  else
    value ← decode_canonical (ob_body object);
    entries ← v2_map_entries value;
    carrier_ceremony_id ← v2_bytes_field 32 entries "carrierCeremonyId";
    predecessor_digest ← v2_bytes_field 32 entries "predecessorDigest";
    _ ← (if bool_decide (ob_kind object = Kind_Receipt) then validate_receipt entries else Ok tt);
    Ok (mkCredentialV2LogicalBody (ob_kind object) carrier_ceremony_id predecessor_digest (ob_body object)).

(** ** The reducer *)

Section Reducer.
Context {B : Type} `{CredentialV2BodyVerifier B}.

Abbreviation endpointM := (stM (CredentialV2Endpoint B) CredentialV2Error).

Definition CredentialV2Endpoint_new (side : Side) (carrier : CredentialV2Carrier) (body_verifier : B) :
    CredentialV2Endpoint B :=
  mkCredentialV2Endpoint side carrier Phase_Begin None None body_verifier 0 None.

Definition set_v2_phase (phase : CredentialV2Phase) (e : CredentialV2Endpoint B) : CredentialV2Endpoint B :=
  mkCredentialV2Endpoint (ve_side e) (ve_carrier e) phase (ve_intent_digest e) (ve_last e) (ve_body_verifier e)
    (ve_checkpoint_generation e) (ve_checkpoint_nonce e).
Definition set_v2_intent (digest : option bytes) (e : CredentialV2Endpoint B) : CredentialV2Endpoint B :=
  mkCredentialV2Endpoint (ve_side e) (ve_carrier e) (ve_phase e) digest (ve_last e) (ve_body_verifier e)
    (ve_checkpoint_generation e) (ve_checkpoint_nonce e).
Definition set_v2_last (last : option LastObject) (e : CredentialV2Endpoint B) : CredentialV2Endpoint B :=
  mkCredentialV2Endpoint (ve_side e) (ve_carrier e) (ve_phase e) (ve_intent_digest e) last (ve_body_verifier e)
    (ve_checkpoint_generation e) (ve_checkpoint_nonce e).
Definition set_v2_verifier (b : B) (e : CredentialV2Endpoint B) : CredentialV2Endpoint B :=
  mkCredentialV2Endpoint (ve_side e) (ve_carrier e) (ve_phase e) (ve_intent_digest e) (ve_last e) b
    (ve_checkpoint_generation e) (ve_checkpoint_nonce e).

Definition v2_fail {A} (error : CredentialV2Error) : endpointM A :=
  _ ← modify (set_v2_phase Phase_Terminal);
  throw error.

(** [match r { Ok(a) => a, Err(error) => return self.fail(error) }]. *)
Definition or_fail {A} (r : credM A) : endpointM A :=
  match r with Ok a => mret a | Err e => v2_fail e | Panic => lift Panic end.

Definition last_of (object : CredentialV2Object) (sender : Side) : LastObject :=
  mkLastObject sender (Some (ob_bytes object)) (ob_kind object) (ob_intent_digest object) (ob_content_hash object).

Definition v2_accept (object : CredentialV2Object) (sender : Side) (next : CredentialV2Phase) : endpointM unit :=
  e ← get;
  _ ← (if bool_decide (ve_intent_digest e = None) && negb (bool_decide (ob_kind object = Kind_AccountSelect))
       then modify (set_v2_intent (Some (ob_intent_digest object))) else mret tt);
  _ ← modify (set_v2_last (Some (last_of object sender)));
  modify (set_v2_phase next).

(** Whether the object is the latest one again; the [Err] of the source's
    result does not occur. *)
Definition exact_retransmission (e : CredentialV2Endpoint B) (object : CredentialV2Object) (sender : Side) : bool :=
  match ve_last e with
  | Some last =>
      bool_decide (lo_sender last = sender) && bool_decide (lo_kind last = ob_kind object) &&
      bool_decide (lo_intent_digest last = ob_intent_digest object) &&
      bool_decide (lo_content_hash last = ob_content_hash object) &&
      match lo_bytes last with Some octets => bool_decide (octets = ob_bytes object) | None => true end
  | None => false
  end.

Definition receipt_released (e : CredentialV2Endpoint B) : bool :=
  bool_decide (ve_side e = Side_Allocator) &&
  match ve_last e with
  | Some last => bool_decide (lo_sender last = Side_Allocator) && bool_decide (lo_kind last = Kind_Receipt)
  | None => false
  end.

(** [self.body_verifier.verify(..)], whose error the caller treats. *)
Definition verify_body (logical : CredentialV2LogicalBody) : endpointM (credM unit) := fun e =>
  let '(b, answer) := body_verify logical (ve_body_verifier e) in (set_v2_verifier b e, Ok answer).

Context `{Cbor, Sha256}.

Definition apply_account_select (object : CredentialV2Object) (sender : Side) : endpointM CredentialV2Advance :=
  e ← get;
  if negb (bool_decide (ve_phase e = Phase_Begin)) || bool_decide (is_Some (ve_last e))
  then v2_fail CredentialV2Error_Phase
  else
    _ ← or_fail (recognise_account_select object (ca_carrier_ceremony_id (ve_carrier e))
                   (ca_application_context (ve_carrier e)));
    _ ← v2_accept object sender Phase_AccountSelected;
    mret Advance_Advanced.

Definition apply_offer (object : CredentialV2Object) (sender : Side) : endpointM CredentialV2Advance :=
  e ← get;
  if negb (bool_decide (sender = Side_Allocator)) || negb (bool_decide (ve_side e = Side_Allocator)) ||
     negb (pre_offer (ve_phase e))
  then v2_fail CredentialV2Error_Phase
  else
    _ ← modify (set_v2_intent (Some (ob_intent_digest object)));
    _ ← v2_accept object sender Phase_Offered;
    mret Advance_Advanced.

Definition apply_successor (object : CredentialV2Object) (sender : Side) : endpointM CredentialV2Advance :=
  e ← get;
  match ve_intent_digest e with
  | None => v2_fail CredentialV2Error_Phase
  | Some expected_intent =>
      if negb (bool_decide (ob_intent_digest object = expected_intent)) then v2_fail CredentialV2Error_Profile
      else
        match next_phase (ve_phase e) (ob_kind object) with
        | None => v2_fail CredentialV2Error_Phase
        | Some next =>
            logical ← or_fail (recognise_logical_body object);
            if negb (bool_decide (lb_carrier_ceremony_id logical = ca_carrier_ceremony_id (ve_carrier e)))
            then v2_fail CredentialV2Error_Profile
            else
              match ve_last e with
              | None => v2_fail CredentialV2Error_Phase
              | Some last =>
                  if negb (bool_decide (lb_predecessor_digest logical = lo_content_hash last))
                  then v2_fail CredentialV2Error_Predecessor
                  else
                    answer ← verify_body logical;
                    _ ← or_fail answer;
                    _ ← v2_accept object sender next;
                    mret Advance_Advanced
              end
        end
  end.

(** [apply]. *)
Definition v2_apply (object : CredentialV2Object) (sender : Side) : endpointM CredentialV2Advance :=
  e ← get;
  if exact_retransmission e object sender then mret Advance_ExactRetransmission
  else if bool_decide (ve_phase e = Phase_Terminal) then throw CredentialV2Error_Terminal
  else if bool_decide (ve_phase e = Phase_PayloadSent) && bool_decide (ob_kind object = Kind_Refusal)
  then throw CredentialV2Error_Phase
  else if negb (valid_sender (ob_kind object) sender) then v2_fail CredentialV2Error_Direction
  else if bool_decide (ob_kind object = Kind_AccountSelect) then apply_account_select object sender
  else if bool_decide (ob_kind object = Kind_Offer) then apply_offer object sender
  else apply_successor object sender.

Definition v2_send (object : CredentialV2Object) : endpointM CredentialV2Advance :=
  e ← get;
  v2_apply object (ve_side e).
Definition v2_receive (object : CredentialV2Object) : endpointM CredentialV2Advance :=
  e ← get;
  v2_apply object (opposite (ve_side e)).

(** ** Receipt recovery *)

Definition authenticate_recovered_receipt (receipt : CredentialV2Object) :
    endpointM CredentialV2RecoveredReceiptAuthority :=
  e ← get;
  if negb (bool_decide (ve_side e = Side_Claimant)) || negb (bool_decide (ve_phase e = Phase_PayloadSent)) ||
     negb (bool_decide (ob_kind receipt = Kind_Receipt))
  then throw CredentialV2Error_Phase
  else
    intent_digest ← lift (ok_or (ve_intent_digest e) CredentialV2Error_Phase);
    if negb (bool_decide (ob_intent_digest receipt = intent_digest)) then throw CredentialV2Error_Profile
    else
      logical ← lift (recognise_logical_body receipt);
      if negb (bool_decide (lb_carrier_ceremony_id logical = ca_carrier_ceremony_id (ve_carrier e)))
      then throw CredentialV2Error_Profile
      else
        payload ← lift (ok_or (ve_last e) CredentialV2Error_Phase);
        if negb (bool_decide (lb_predecessor_digest logical = lo_content_hash payload))
        then throw CredentialV2Error_Predecessor
        else
          answer ← verify_body logical;
          _ ← lift answer;
          final_status_digest ← lift (receipt_final_status_digest (ob_body receipt));
          mret (mkCredentialV2RecoveredReceiptAuthority (ca_application_context (ve_carrier e))
                  (ca_carrier_ceremony_id (ve_carrier e)) intent_digest (lo_content_hash payload) final_status_digest
                  (sha256 (ob_body receipt))).

Definition recover_receipt (receipt : CredentialV2Object) (authority : CredentialV2RecoveredReceiptAuthority) :
    endpointM CredentialV2Advance :=
  e ← get;
  if negb (bool_decide (ve_side e = Side_Claimant)) || negb (bool_decide (ve_phase e = Phase_PayloadSent)) ||
     negb (bool_decide (ob_kind receipt = Kind_Receipt))
  then throw CredentialV2Error_Phase
  else
    logical ← lift (recognise_logical_body receipt);
    payload ← lift (ok_or (ve_last e) CredentialV2Error_Phase);
    intent_digest ← lift (ok_or (ve_intent_digest e) CredentialV2Error_Phase);
    final_status_digest ← lift (receipt_final_status_digest (ob_body receipt));
    let receipt_body_digest := sha256 (ob_body receipt) in
    if negb (bool_decide (ra_application_context authority = ca_application_context (ve_carrier e)) &&
             bool_decide (ra_carrier_ceremony_id authority = ca_carrier_ceremony_id (ve_carrier e)) &&
             bool_decide (ra_intent_digest authority = intent_digest) &&
             bool_decide (ra_payload_content_hash authority = lo_content_hash payload) &&
             bool_decide (ra_final_status_digest authority = final_status_digest) &&
             bool_decide (ra_receipt_body_digest authority = receipt_body_digest) &&
             bool_decide (ob_intent_digest receipt = intent_digest) &&
             bool_decide (lb_carrier_ceremony_id logical = ca_carrier_ceremony_id (ve_carrier e)) &&
             bool_decide (lb_predecessor_digest logical = lo_content_hash payload))
    then throw CredentialV2Error_Profile
    else
      _ ← v2_accept receipt Side_Allocator Phase_Terminal;
      mret Advance_Advanced.

(** ** The offer on a claimant *)

(** The endpoint with the states of the parser and the verifier. *)
Abbreviation offerM P V := (stM (CredentialV2Endpoint B * (P * V)) CredentialV2Error).
Definition on_endpoint {P V A} (m : endpointM A) : offerM P V A := zoom fst (fun e s => (e, s.2)) id m.

(** [match recognise(..) { .. }], for a caller that treats the error. *)
Definition recognise_offer `{CredentialV2OfferParser P, CredentialV2IntentVerifier V}
    (object : CredentialV2Object) (authority : CredentialV2IntentAuthority) : offerM P V (credM CredentialV2Display) :=
  fun s => let '(pv, answer) := recognise_credential_v2_intent object authority s.2 in ((s.1, pv), Ok answer).

Definition receive_offer `{CredentialV2OfferParser P, CredentialV2IntentVerifier V}
    (object : CredentialV2Object) (authority : CredentialV2IntentAuthority) : offerM P V CredentialV2Advance :=
  s ← get;
  let e := s.1 in
  if exact_retransmission e object Side_Allocator then mret Advance_ExactRetransmission
  else if negb (bool_decide (ve_side e = Side_Claimant)) || negb (pre_offer (ve_phase e)) ||
          negb (bool_decide (ob_kind object = Kind_Offer))
  then on_endpoint (v2_fail CredentialV2Error_Phase)
  else if negb (bool_decide (ic_carrier_ceremony_id (ia_claims authority) = ca_carrier_ceremony_id (ve_carrier e))) ||
          negb (bool_decide (ic_application_id (ia_claims authority) = ca_application_context (ve_carrier e)))
  then on_endpoint (v2_fail CredentialV2Error_Profile)
  else
    answer ← recognise_offer object authority;
    display ← on_endpoint (or_fail answer);
    _ ← on_endpoint (v2_accept object Side_Allocator Phase_Offered);
    mret (Advance_DisplayIntent display).

(** ** Sending *)

Context `{Sha512, HkdfSha512, HmacSha512, Aead}.

(** The endpoint, the channel and the relay state. *)
Abbreviation outboundM := (stM (CredentialV2Endpoint B * SecureCredentialV2Channel * CredentialV2RelayState) CredentialV2Error).

Definition prepare_outbound (object : CredentialV2Object) : outboundM CredentialV2Frame :=
  s ← get;
  let '(e, channel, relay) := s in
  if negb (bool_decide (c2_local_side channel = ve_side e)) then throw CredentialV2Error_Direction
  else
    match rs_cached_outbound relay with
    | Some cached =>
        if exact_retransmission e object (ve_side e) then mret cached else throw CredentialV2Error_Phase
    | None =>
        _ ← lift (can_seal channel (ob_bytes object));
        advance ← zoom (fun s => s.1.1) (fun e s => (e, s.1.2, s.2)) id (v2_send object);
        match advance with
        | Advance_Advanced =>
            frame ← zoom (fun s => s.1.2) (fun c s => (s.1.1, c, s.2)) id (v2_seal (ob_bytes object));
            _ ← zoom snd (fun r s => (s.1, r)) id (cache_application_frame frame);
            mret frame
        | _ => throw CredentialV2Error_Phase
        end
    end.
End Reducer.
