(* ===== verification/CredStory.v ===== *)
(** * The transcripts of credential/v2 and the endpoints that keep them

    A transcript is the list of the objects a side has accepted, the latest
    first.  [transcript] is the protocol as a specification: which object may
    follow which, from whom, and how each names its predecessor.  The endpoint
    refines it: whatever it is asked to do, the objects it accepts form a
    transcript, and it accepts every legal continuation. *)

From S2P Require Import Prelude External Wire Cddl WireCodec CredCore CredFrame CredDisplay CredCarrier CredContext CredChannel CredEndpoint.

Abbreviation entry := (Side * CredentialV2Object)%type.

(** ** The protocol *)

Section Protocol.
Context `{Cbor, Sha256} (c : CredentialV2Carrier).

(** [o] from [sender] may follow [prev] in [phase] of the intent [i], and leads
    to [next]. *)
Record successor (phase : CredentialV2Phase) (i : bytes) (prev : CredentialV2Object) (sender : Side)
    (o : CredentialV2Object) (next : CredentialV2Phase) (l : CredentialV2LogicalBody) : Prop := {
  su_live : phase <> Phase_Terminal;
  su_sender : valid_sender (ob_kind o) sender = true;
  su_next : next_phase phase (ob_kind o) = Some next;
  su_intent : ob_intent_digest o = i;
  su_body : recognise_logical_body o = Ok l;
  su_ceremony : lb_carrier_ceremony_id l = ca_carrier_ceremony_id c;
  su_predecessor : lb_predecessor_digest l = ob_content_hash prev
}.

(** Phase, intent and accepted objects. *)
Inductive transcript : CredentialV2Phase -> option bytes -> list entry -> Prop :=
| transcript_begin : transcript Phase_Begin None []
| transcript_select o s :
    recognise_account_select o (ca_carrier_ceremony_id c) (ca_application_context c) = Ok s ->
    transcript Phase_AccountSelected None [(Side_Claimant, o)]
| transcript_offer phase log o :
    transcript phase None log -> ob_kind o = Kind_Offer ->
    transcript Phase_Offered (Some (ob_intent_digest o)) ((Side_Allocator, o) :: log)
| transcript_next phase i s prev log sender o next l :
    transcript phase (Some i) ((s, prev) :: log) -> successor phase i prev sender o next l ->
    transcript next (Some i) ((sender, o) :: (s, prev) :: log).

(** *** What the phases say *)

Lemma next_phase_inv phase kind next : next_phase phase kind = Some next ->
  match next with
  | Phase_IntentApproved => phase = Phase_Offered /\ kind = Kind_IntentApprove
  | Phase_Prepared => phase = Phase_IntentApproved /\ kind = Kind_Preparation
  | Phase_Confirmed => phase = Phase_Prepared /\ (kind = Kind_ComparisonConfirmed \/ kind = Kind_BindingConfirmed)
  | Phase_FinalApproved => phase = Phase_Confirmed /\ kind = Kind_FinalApprove
  | Phase_PayloadSent => phase = Phase_FinalApproved /\ kind = Kind_Payload
  | Phase_Terminal => (phase = Phase_PayloadSent /\ kind = Kind_Receipt) \/
      (phase <> Phase_PayloadSent /\ (kind = Kind_Refusal \/ kind = Kind_IntentDecline \/ kind = Kind_FinalDecline))
  | _ => False
  end.
Proof. destruct phase, kind, next; vm_compute; intuition congruence. Qed.

Lemma transcript_intent phase i log : transcript phase i log ->
  match i with
  | None => (phase = Phase_Begin /\ log = []) \/ (phase = Phase_AccountSelected /\ exists o, log = [(Side_Claimant, o)])
  | Some _ => log <> [] /\ pre_offer phase = false
  end.
Proof.
  destruct 1 as [|o s Hs|phase log o Ht Hk|phase i s prev log sender o next l Ht Hs]; try (by eauto).
  split; [done|]. apply su_next in Hs. by destruct phase, (ob_kind o), next.
Qed.

Lemma transcript_pre phase log : transcript phase None log -> pre_offer phase = true.
Proof. intros [[-> _]|[-> _]]%transcript_intent; done. Qed.

Lemma transcript_log phase i log : transcript phase i log -> phase <> Phase_Begin -> log <> [].
Proof. by destruct 1. Qed.

(** The step before a phase after the offer. *)
Lemma transcript_back phase i log : transcript phase i log -> pre_offer phase = false -> phase <> Phase_Offered ->
  exists before s prev log' sender o l d, i = Some d /\ log = (sender, o) :: (s, prev) :: log' /\
    transcript before i ((s, prev) :: log') /\ successor before d prev sender o phase l.
Proof.
  destruct 1 as [|o s Hs|phase log o Ht Hk|phase i s prev log sender o next l Ht Hs]; try done.
  intros _ _. by exists phase, s, prev, log, sender, o, l, i.
Qed.

(** *** One shape *)

(** The accepted objects up to the preparation: kinds and senders. *)
Definition opening_shape : list (Side * CredentialV2Kind) :=
  [(Side_Claimant, Kind_Preparation); (Side_Claimant, Kind_IntentApprove); (Side_Allocator, Kind_Offer)].
Definition shape (log : list entry) : list (Side * CredentialV2Kind) := map (fun e => (e.1, ob_kind e.2)) log.

Lemma valid_claimant k s : valid_sender k s = true ->
  (k = Kind_IntentApprove \/ k = Kind_Preparation \/ k = Kind_FinalApprove \/ k = Kind_Payload) -> s = Side_Claimant.
Proof. destruct s; intros Hv [->|[->|[->| ->]]]; done. Qed.

Lemma transcript_prepared i log : transcript Phase_Prepared i log -> exists pre,
  shape log = opening_shape ++ pre /\ (pre = [] \/ pre = [(Side_Claimant, Kind_AccountSelect)]).
Proof.
  intros (ph & s & prev & log1 & sender & o & l & d & -> & -> & Ht & Hs)%transcript_back; [|done..].
  destruct (next_phase_inv _ _ _ (su_next _ _ _ _ _ _ _ Hs)) as [-> Hk].
  pose proof (valid_claimant _ _ (su_sender _ _ _ _ _ _ _ Hs)) as Hsend. rewrite Hk in Hsend.
  rewrite Hsend by auto. clear Hs Hsend.
  apply transcript_back in Ht as (ph & s' & prev' & log2 & sender' & o' & l' & d' & _ & [= -> -> ->] & Ht & Hs); [|done..].
  destruct (next_phase_inv _ _ _ (su_next _ _ _ _ _ _ _ Hs)) as [-> Hk'].
  pose proof (valid_claimant _ _ (su_sender _ _ _ _ _ _ _ Hs)) as Hsend. rewrite Hk' in Hsend. rewrite Hsend by auto.
  clear Hs Hsend. inversion Ht as [| |ph log3 o3 Ht3 Hk3|ph i3 s3 prev3 log3 sender3 o3 next3 l3 Ht3 Hs3]; subst.
  2: { by apply su_next, next_phase_inv in Hs3. }
  exists (shape log2). split; [unfold shape; simpl; by rewrite Hk, Hk', Hk3|].
  apply transcript_intent in Ht3 as Hlog. destruct Hlog as [[_ ->]|[_ [o4 ->]]]; [by left|right].
  inversion Ht3 as [|o5 s5 Hrec| |]; subst. simpl. f_equal. f_equal.
  unfold recognise_account_select in Hrec. destruct (_ || _) eqn:E; [done|].
  apply orb_false_iff in E as [E%negb_false_iff%bool_decide_eq_true _]. done.
Qed.

(** Before the payload phase there is no payload. *)
Lemma no_payload phase i log : transcript phase i log -> phase <> Phase_PayloadSent -> phase <> Phase_Terminal ->
  Forall (fun e => ob_kind e.2 <> Kind_Payload) log.
Proof.
  induction 1 as [|o s Hs|phase log o Ht IH Hk|phase i s prev log sender o next l Ht IH Hs]; intros Hp Hn.
  - done.
  - constructor; [|done]. unfold recognise_account_select in Hs. destruct (_ || _) eqn:E; [done|].
    apply orb_false_iff in E as [E%negb_false_iff%bool_decide_eq_true _]. simpl. congruence.
  - constructor; [simpl; congruence|]. apply transcript_pre in Ht. apply IH; by intros ->.
  - pose proof (next_phase_inv _ _ _ (su_next _ _ _ _ _ _ _ Hs)) as Hinv.
    destruct next; try done; destruct Hinv as [-> Hk]; (constructor; [simpl; intuition congruence|by apply IH]).
Qed.

(** A payload comes after the whole of the ceremony, and only a receipt after
    a payload. *)
Lemma transcript_payload phase i log : transcript phase i log -> Exists (fun e => ob_kind e.2 = Kind_Payload) log ->
  exists receipt confirmation pre,
    shape log = receipt ++ (Side_Claimant, Kind_Payload) :: (Side_Claimant, Kind_FinalApprove) ::
                (Side_Allocator, confirmation) :: opening_shape ++ pre /\
    (confirmation = Kind_ComparisonConfirmed \/ confirmation = Kind_BindingConfirmed) /\
    (pre = [] \/ pre = [(Side_Claimant, Kind_AccountSelect)]) /\
    (receipt = [] /\ phase = Phase_PayloadSent \/ receipt = [(Side_Allocator, Kind_Receipt)] /\ phase = Phase_Terminal).
Proof.
  assert (forall i log, transcript Phase_PayloadSent i log -> exists confirmation pre,
    shape log = (Side_Claimant, Kind_Payload) :: (Side_Claimant, Kind_FinalApprove) ::
                (Side_Allocator, confirmation) :: opening_shape ++ pre /\
    (confirmation = Kind_ComparisonConfirmed \/ confirmation = Kind_BindingConfirmed) /\
    (pre = [] \/ pre = [(Side_Claimant, Kind_AccountSelect)])) as Hsent.
  { clear. intros i log (ph & s & prev & log1 & s1 & o1 & l1 & d & -> & -> & Ht & Hs)%transcript_back; [|done..].
    destruct (next_phase_inv _ _ _ (su_next _ _ _ _ _ _ _ Hs)) as [-> Hk1].
    pose proof (valid_claimant _ _ (su_sender _ _ _ _ _ _ _ Hs)) as Hs1. rewrite Hk1 in Hs1. rewrite Hs1 by auto. clear Hs Hs1.
    apply transcript_back in Ht as (ph & s' & prev' & log2 & s2 & o2 & l2 & d' & _ & [= -> -> ->] & Ht & Hs); [|done..].
    destruct (next_phase_inv _ _ _ (su_next _ _ _ _ _ _ _ Hs)) as [-> Hk2].
    pose proof (valid_claimant _ _ (su_sender _ _ _ _ _ _ _ Hs)) as Hs2. rewrite Hk2 in Hs2. rewrite Hs2 by auto. clear Hs Hs2.
    apply transcript_back in Ht as (ph & s'' & prev'' & log3 & s3 & o3 & l3 & d'' & _ & [= -> -> ->] & Ht & Hs); [|done..].
    destruct (next_phase_inv _ _ _ (su_next _ _ _ _ _ _ _ Hs)) as [-> Hk3].
    assert (s3 = Side_Allocator) as -> by (pose proof (su_sender _ _ _ _ _ _ _ Hs) as Hv; destruct Hk3 as [Hk3|Hk3]; rewrite Hk3 in Hv; by destruct s3).
    apply transcript_prepared in Ht as (pre & Hsh & Hpre). exists (ob_kind o3), pre. split_and!; [|done|done].
    unfold shape in *. simpl in *. congruence. }
  intros Ht He. destruct (decide (phase = Phase_PayloadSent)) as [->|Hp].
  - destruct (Hsent i log Ht) as (k & pre & ? & ? & ?). exists [], k, pre. split_and!; [done..|by left].
  - destruct (decide (phase = Phase_Terminal)) as [->|Hn].
    2: { pose proof (no_payload _ _ _ Ht Hp Hn) as Hno. apply Exists_exists in He as (e & Hin & He).
      rewrite Forall_forall in Hno. by apply Hno in He. }
    apply transcript_back in Ht as (ph & s & prev & log1 & s1 & o1 & l1 & d & -> & -> & Ht & Hs); [|done..].
    destruct (next_phase_inv _ _ _ (su_next _ _ _ _ _ _ _ Hs)) as [[-> Hk]|[Hne Hk]].
    + destruct (Hsent _ _ Ht) as (k & pre & Hsh & ? & ?). exists [(Side_Allocator, Kind_Receipt)], k, pre. split_and!; [|done..|by right].
      pose proof (su_sender _ _ _ _ _ _ _ Hs) as Hv. rewrite Hk in Hv. unfold shape in *. simpl in *. rewrite Hk, Hsh. by destruct s1.
    + pose proof (no_payload _ _ _ Ht Hne (su_live _ _ _ _ _ _ _ Hs)) as Hno.
      apply Exists_cons in He as [He|He]; [simpl in He; intuition congruence|]. apply Exists_exists in He as (e & Hin & He).
      rewrite Forall_forall in Hno. by apply Hno in He.
Qed.

(** Every transcript ends. *)
Definition phase_rank (p : CredentialV2Phase) : nat :=
  match p with
  | Phase_Begin => 0 | Phase_AccountSelected => 1 | Phase_Offered => 2 | Phase_IntentApproved => 3 | Phase_Prepared => 4
  | Phase_Confirmed => 5 | Phase_FinalApproved => 6 | Phase_PayloadSent => 7 | Phase_Terminal => 8
  end.
Lemma transcript_length phase i log : transcript phase i log -> (length log <= phase_rank phase)%nat.
Proof.
  induction 1 as [|o s Hs|phase log o Ht IH Hk|phase i s prev log sender o next l Ht IH Hs]; simpl in *; try lia.
  - apply transcript_pre in Ht. destruct phase; simpl in *; try done; lia.
  - pose proof (su_live _ _ _ _ _ _ _ Hs). pose proof (next_phase_inv _ _ _ (su_next _ _ _ _ _ _ _ Hs)) as Hinv.
    destruct next; try done; destruct phase; simpl in *; try done; try lia; destruct Hinv as [? ?]; done.
Qed.
End Protocol.

(** ** The credential/v2 endpoint refines the protocol

    [story e log]: the endpoint [e] has accepted the transcript [log], and it
    is in its phase or has failed.  Every operation keeps this, extending the
    transcript exactly when it accepts an object; and an endpoint that has not
    failed accepts every legal continuation its verifier approves. *)

(** ** Runs *)

Section Runs.
Context {B P V : Type} `{CredentialV2BodyVerifier B, CredentialV2OfferParser P, CredentialV2IntentVerifier V}.
Context `{Cbor, Sha256}.

(** What an endpoint is asked to do. *)
Inductive v2_op : Type :=
| V2_Send (object : CredentialV2Object)
| V2_Receive (object : CredentialV2Object)
| V2_ReceiveOffer (object : CredentialV2Object) (authority : CredentialV2IntentAuthority)
| V2_Authenticate (receipt : CredentialV2Object)
| V2_Recover (receipt : CredentialV2Object) (authority : CredentialV2RecoveredReceiptAuthority).

Definition advanced (x : entry) (a : CredentialV2Advance) : option entry :=
  match a with Advance_ExactRetransmission => None | _ => Some x end.

(** One operation, with the object it accepted. *)
Definition v2_step (op : v2_op) : stM (CredentialV2Endpoint B * (P * V)) CredentialV2Error (option entry) :=
  s ← get;
  let side := ve_side s.1 in
  match op with
  | V2_Send o => a ← on_endpoint (v2_send o); mret (advanced (side, o) a)
  | V2_Receive o => a ← on_endpoint (v2_receive o); mret (advanced (opposite side, o) a)
  | V2_ReceiveOffer o authority => a ← receive_offer o authority; mret (advanced (Side_Allocator, o) a)
  | V2_Authenticate receipt => _ ← on_endpoint (authenticate_recovered_receipt receipt); mret None
  | V2_Recover receipt authority =>
      a ← on_endpoint (recover_receipt receipt authority); mret (advanced (Side_Allocator, receipt) a)
  end.

(** A run, with the objects accepted; a panic ends it. *)
Fixpoint v2_run (ops : list v2_op) (s : CredentialV2Endpoint B * (P * V)) (log : list entry) :
    (CredentialV2Endpoint B * (P * V)) * list entry :=
  match ops with
  | [] => (s, log)
  | op :: ops =>
      match v2_step op s with
      | (s', Ok (Some x)) => v2_run ops s' (x :: log)
      | (s', Ok None) | (s', Err _) => v2_run ops s' log
      | (_, Panic) => (s, log)
      end
  end.
End Runs.

(** ** The relation *)

Section Story.
Context {B : Type} `{CredentialV2BodyVerifier B, Cbor, Sha256} (carrier : CredentialV2Carrier) (side : Side).

Definition last_entry (x : entry) : LastObject := last_of x.2 x.1.

Record story (e : CredentialV2Endpoint B) (phase : CredentialV2Phase) (log : list entry) : Prop := {
  sy_carrier : ve_carrier e = carrier;
  sy_side : ve_side e = side;
  sy_transcript : transcript carrier phase (ve_intent_digest e) log;
  sy_phase : ve_phase e = phase \/ ve_phase e = Phase_Terminal;
  sy_last : ve_last e = last_entry <$> head log
}.

Lemma story_new b : story (CredentialV2Endpoint_new side carrier b) Phase_Begin [].
Proof. split; [done|done|constructor|by left|done]. Qed.

Lemma story_failed e phase log : story e phase log -> story (set_v2_phase Phase_Terminal e) phase log.
Proof. intros []. by split; [| | |right|]. Qed.
Lemma story_verifier b e phase log : story e phase log -> story (set_v2_verifier b e) phase log.
Proof. by intros []. Qed.

(** Accepting a continuation. *)
Definition accepted_state (o : CredentialV2Object) (sender : Side) (next : CredentialV2Phase) (i : option bytes)
    (e : CredentialV2Endpoint B) : CredentialV2Endpoint B :=
  set_v2_phase next (set_v2_last (Some (last_of o sender)) (set_v2_intent i e)).

Lemma accept_run o sender next (e : CredentialV2Endpoint B) : v2_accept o sender next e =
  (accepted_state o sender next
     (if bool_decide (ve_intent_digest e = None) && negb (bool_decide (ob_kind o = Kind_AccountSelect))
      then Some (ob_intent_digest o) else ve_intent_digest e) e, Ok tt).
Proof.
  unfold v2_accept, mbind, stM_bind, get, modify, mret, stM_ret. destruct (_ && _); [done|]. by destruct e.
Qed.

Lemma story_accepted e phase log0 sender o next i log : story e phase log0 ->
  transcript carrier next i ((sender, o) :: log) -> story (accepted_state o sender next i e) next ((sender, o) :: log).
Proof. intros [] Ht. by split; [| | |left|]. Qed.

Lemma recognised_select o id app s : recognise_account_select o id app = Ok s -> ob_kind o = Kind_AccountSelect.
Proof.
  unfold recognise_account_select. destruct (_ || _) eqn:E; [done|].
  by apply orb_false_iff in E as [E%negb_false_iff%bool_decide_eq_true _].
Qed.

(** [Q] on success and the unchanged transcript on failure. *)
Definition keeps (log : list entry) (_ : CredentialV2Error) (e : CredentialV2Endpoint B) : Prop := exists phase, story e phase log.

Lemma wp_v2_fail {A} error e phase log (Q : A -> CredentialV2Endpoint B -> Prop) : story e phase log ->
  wp True (v2_fail error) Q (keeps log) e.
Proof. intros Hs. exists phase. by apply story_failed. Qed.

Lemma wp_or_fail {A} (r : credM A) e phase log (Q : A -> CredentialV2Endpoint B -> Prop) : story e phase log ->
  (forall a, r = Ok a -> Q a e) -> wp True (or_fail r) Q (keeps log) e.
Proof. intros Hs HQ. destruct r as [a|err|]; [by apply HQ|by eapply wp_v2_fail|done]. Qed.

(** What an operation does to the story. *)
Definition tells (sender : Side) (o : CredentialV2Object) (log : list entry) (a : CredentialV2Advance)
    (e : CredentialV2Endpoint B) : Prop :=
  match a with
  | Advance_ExactRetransmission => exists phase, story e phase log
  | _ => exists phase, story e phase ((sender, o) :: log) /\ ve_phase e = phase
  end.

Lemma live_phase e phase log : story e phase log -> ve_phase e <> Phase_Terminal -> ve_phase e = phase.
Proof. intros [_ _ _ [?|?] _] ?; done. Qed.

Lemma wp_apply_account_select o sender e phase log : story e phase log -> valid_sender Kind_AccountSelect sender = true ->
  wp True (apply_account_select o sender) (tells sender o log) (keeps log) e.
Proof.
  intros Hs Hv. unfold apply_account_select. apply wp_bind, wp_get. destruct (_ || _) eqn:E; [by eapply wp_v2_fail|].
  apply orb_false_iff in E as [E1%negb_false_iff%bool_decide_eq_true E2%bool_decide_eq_false].
  apply wp_bind. eapply wp_or_fail; [done|]. intros sel Hsel.
  apply wp_bind. unfold wp at 1. rewrite accept_run. pose proof (recognised_select _ _ _ _ Hsel) as Hk. rewrite Hk.
  rewrite andb_false_r. unfold wp. cbn. exists Phase_AccountSelected. split; [|done].
  pose proof Hs as [Hcr Hsd Ht Hp Hl]. assert (log = []) as ->.
  { destruct log as [|x log]; [done|]. rewrite Hl in E2. destruct E2. by eexists. }
  assert (sender = Side_Claimant) as -> by (by destruct sender).
  assert (ve_intent_digest e = None) as Hi.
  { apply transcript_intent in Ht as Hi. by destruct (ve_intent_digest e) as [|]; [destruct Hi|]. }
  eapply story_accepted; [done|]. rewrite Hi, Hcr in *. by eapply transcript_select.
Qed.

Lemma wp_apply_offer o sender e phase log : story e phase log -> ob_kind o = Kind_Offer ->
  wp True (apply_offer o sender) (tells sender o log) (keeps log) e.
Proof.
  intros Hs Hk. unfold apply_offer. apply wp_bind, wp_get. destruct (_ || _) eqn:E; [by eapply wp_v2_fail|].
  apply orb_false_iff in E as [[E1%negb_false_iff%bool_decide_eq_true _]%orb_false_iff E3%negb_false_iff]. subst sender.
  apply wp_bind, wp_modify. apply wp_bind. unfold wp at 1. rewrite accept_run. unfold wp. cbn.
  exists Phase_Offered. split; [|done]. pose proof Hs as [Hcr Hsd Ht Hp Hl].
  assert (ve_intent_digest e = None /\ ve_phase e = phase) as [Hi Hph].
  { destruct Hp as [Hp|Hp]; [|by rewrite Hp in E3]. split; [|done].
    apply transcript_intent in Ht. destruct (ve_intent_digest e); [|done]. destruct Ht. congruence. }
  rewrite Hi in Ht. pose proof (transcript_offer _ _ _ _ Ht Hk) as Ho.
  by split; [| | |left|].
Qed.

Lemma wp_verify_body l e phase log (Q : credM unit -> CredentialV2Endpoint B -> Prop) (R : CredentialV2Error -> CredentialV2Endpoint B -> Prop) :
  story e phase log ->
  (forall b answer, body_verify l (ve_body_verifier e) = (b, answer) -> story (set_v2_verifier b e) phase log ->
     Q answer (set_v2_verifier b e)) ->
  wp True (verify_body l) Q R e.
Proof.
  intros Hs HQ. unfold wp, verify_body. destruct (body_verify l (ve_body_verifier e)) as [b answer] eqn:Hb.
  by apply HQ, story_verifier.
Qed.

(** The head of the transcript is the endpoint's last object. *)
Lemma story_head e phase log last : story e phase log -> ve_last e = Some last ->
  exists x log', log = x :: log' /\ lo_content_hash last = ob_content_hash x.2.
Proof. intros [_ _ _ _ Hl] Hlast. rewrite Hl in Hlast. destruct log as [|x log]; simplify_eq/=. by exists x, log. Qed.

Lemma kept_intent (e : CredentialV2Endpoint B) o i : ve_intent_digest e = Some i ->
  (if bool_decide (ve_intent_digest e = None) && negb (bool_decide (ob_kind o = Kind_AccountSelect))
   then Some (ob_intent_digest o) else ve_intent_digest e) = Some i.
Proof. by intros ->. Qed.

Lemma wp_apply_successor o sender e phase log : story e phase log -> ve_phase e <> Phase_Terminal ->
  valid_sender (ob_kind o) sender = true ->
  wp True (apply_successor o sender) (tells sender o log) (keeps log) e.
Proof.
  intros Hs Hlive Hv. unfold apply_successor. apply wp_bind, wp_get.
  destruct (ve_intent_digest e) as [i|] eqn:Hi; [|by eapply wp_v2_fail].
  case_bool_decide as Ho; cbn [negb]; [|by eapply wp_v2_fail].
  destruct (next_phase _ _) as [next|] eqn:Hn; [|by eapply wp_v2_fail].
  apply wp_bind. eapply wp_or_fail; [done|]. intros l Hb.
  case_bool_decide as Hc; cbn [negb]; [|by eapply wp_v2_fail].
  destruct (ve_last e) as [last|] eqn:Hl; [|by eapply wp_v2_fail].
  case_bool_decide as Hp; cbn [negb]; [|by eapply wp_v2_fail].
  apply wp_bind. eapply wp_verify_body; [done|]. intros b answer _ Hs'. apply wp_bind. eapply wp_or_fail; [done|]. intros _ _.
  apply wp_bind. unfold wp at 1. rewrite accept_run, (kept_intent _ o i) by done. unfold wp. cbn.
  exists next. split; [|done]. eapply story_accepted; [done|].
  destruct (story_head _ _ _ _ Hs Hl) as ([s prev] & log' & -> & Hh).
  pose proof (live_phase _ _ _ Hs Hlive) as Hph. pose proof Hs as [Hcr _ Ht _ _]. rewrite Hi, <- Hph in Ht.
  rewrite Hcr in Hc. eapply transcript_next; [done|]. split; try done. simpl in Hh. congruence.
Qed.

Lemma wp_v2_apply o sender e phase log : story e phase log ->
  wp True (v2_apply o sender) (tells sender o log) (keeps log) e.
Proof.
  intros Hs. unfold v2_apply. apply wp_bind, wp_get. destruct (exact_retransmission _ _ _); [by exists phase|].
  case_bool_decide as Ht; [by exists phase|]. destruct (_ && _); [by exists phase|].
  destruct (valid_sender _ _) eqn:Hv; cbn [negb]; [|by eapply wp_v2_fail].
  case_bool_decide as Ha; [apply wp_apply_account_select with phase; [done|by rewrite <- Ha]|].
  case_bool_decide; [by apply wp_apply_offer with phase|by apply wp_apply_successor with phase].
Qed.

Lemma wp_recover o authority e phase log : story e phase log ->
  wp True (recover_receipt o authority) (tells Side_Allocator o log) (keeps log) e.
Proof.
  intros Hs. unfold recover_receipt. apply wp_bind, wp_get. destruct (_ || _) eqn:E; [by exists phase|].
  apply orb_false_iff in E as [[_ E2%negb_false_iff%bool_decide_eq_true]%orb_false_iff E3%negb_false_iff%bool_decide_eq_true].
  apply wp_bind, wp_lift. destruct (recognise_logical_body o) as [l|err|] eqn:Hb; [|by exists phase|done].
  apply wp_bind, wp_lift. destruct (ve_last e) as [last|] eqn:Hl; cbn [ok_or]; [|by exists phase].
  apply wp_bind, wp_lift. destruct (ve_intent_digest e) as [i|] eqn:Hi; cbn [ok_or]; [|by exists phase].
  apply wp_bind, wp_lift. destruct (receipt_final_status_digest _) as [d|err|]; [|by exists phase|done].
  destruct (negb _) eqn:E; [by exists phase|]. apply negb_false_iff in E. rewrite !andb_true_iff in E.
  destruct E as [[[_ E7%bool_decide_eq_true] E8%bool_decide_eq_true] E9%bool_decide_eq_true].
  apply wp_bind. unfold wp at 1. rewrite accept_run, (kept_intent _ o i) by done. unfold wp. cbn.
  exists Phase_Terminal. split; [|done]. eapply story_accepted; [done|].
  destruct (story_head _ _ _ _ Hs Hl) as ([s prev] & log' & -> & Hh).
  pose proof (live_phase _ _ _ Hs ltac:(by rewrite E2)) as Hph. pose proof Hs as [Hcr _ Ht _ _]. rewrite Hi, <- Hph, E2 in Ht.
  rewrite Hcr in E8. eapply transcript_next; [done|]. split; try done; [by rewrite E3..|]. simpl in Hh. congruence.
Qed.

Lemma wp_authenticate o e phase log : story e phase log ->
  wp True (authenticate_recovered_receipt o) (fun _ => keeps log CredentialV2Error_Phase) (keeps log) e.
Proof.
  intros Hs. unfold authenticate_recovered_receipt. apply wp_bind, wp_get. destruct (_ || _); [by exists phase|].
  apply wp_bind, wp_lift. destruct (ve_intent_digest e) as [i|]; cbn [ok_or]; [|by exists phase].
  destruct (negb _); [by exists phase|]. apply wp_bind, wp_lift.
  destruct (recognise_logical_body o) as [l|err|]; [|by exists phase|done]. destruct (negb _); [by exists phase|].
  apply wp_bind, wp_lift. destruct (ve_last e) as [last|]; cbn [ok_or]; [|by exists phase].
  destruct (negb _); [by exists phase|]. apply wp_bind. eapply wp_verify_body; [done|]. intros b answer _ Hs'.
  apply wp_bind, wp_lift. destruct answer; [|by exists phase|done]. apply wp_bind, wp_lift.
  destruct (receipt_final_status_digest _) as [d|err|]; [by exists phase|by exists phase|done].
Qed.
End Story.

(** ** Steps and runs *)

Section Steps.
Context {B P V : Type} `{CredentialV2BodyVerifier B, CredentialV2OfferParser P, CredentialV2IntentVerifier V}.
Context `{Cbor, Sha256}.

Abbreviation world := (CredentialV2Endpoint B * (P * V))%type.
Context (carrier : CredentialV2Carrier) (side : Side).

(** The story of the endpoint of a world. *)
Definition told (log : list entry) (s : world) : Prop := exists phase, story carrier side s.1 phase log.
Definition tells_world (sender : Side) (o : CredentialV2Object) (log : list entry) (a : CredentialV2Advance) (s : world) : Prop :=
  tells carrier side sender o log a s.1.

Lemma wp_on_endpoint {A} (m : stM (CredentialV2Endpoint B) CredentialV2Error A) (s : world) Q R :
  wp True m (fun a e => Q a (e, s.2)) (fun err e => R err (e, s.2)) s.1 -> wp True (on_endpoint m) Q R s.
Proof. intros Hm. unfold on_endpoint. by apply wp_zoom. Qed.

Lemma wp_receive_offer o authority (s : world) log : told log s ->
  wp True (receive_offer o authority) (tells_world Side_Allocator o log) (fun _ => told log) s.
Proof.
  intros [phase Hs]. unfold receive_offer. apply wp_bind, wp_get.
  destruct (exact_retransmission _ _ _); [by exists phase|].
  destruct (_ || _) eqn:E; [apply wp_on_endpoint; by eapply wp_v2_fail|].
  apply orb_false_iff in E as [[_ E2%negb_false_iff]%orb_false_iff E3%negb_false_iff%bool_decide_eq_true].
  destruct (_ || _); [apply wp_on_endpoint; by eapply wp_v2_fail|].
  apply wp_bind. unfold wp at 1, recognise_offer. destruct (recognise_credential_v2_intent o authority s.2) as [pv answer].
  apply wp_bind, wp_on_endpoint. cbn [fst snd]. eapply wp_or_fail; [done|]. intros d _.
  apply wp_bind, wp_on_endpoint. cbn [fst snd]. unfold wp at 1. rewrite accept_run. unfold wp, tells_world. cbn.
  exists Phase_Offered. split; [|done]. pose proof Hs as [Hcr Hsd Ht Hp Hl].
  assert (ve_intent_digest s.1 = None) as Hi.
  { destruct (ve_intent_digest s.1); [|done]. apply transcript_intent in Ht as [_ Hpre]. destruct Hp as [Hp|Hp]; rewrite Hp in E2; simpl in E2; congruence. }
  rewrite Hi in *. rewrite bool_decide_eq_true_2, E3 by done. cbn [negb andb]. rewrite bool_decide_eq_false_2 by done. cbn [negb].
  eapply story_accepted; [done|]. by apply transcript_offer with phase.
Qed.

Lemma wp_v2_step op (s : world) log : told log s ->
  wp True (v2_step op) (fun x s' => told (match x with Some x => x :: log | None => log end) s') (fun _ => told log) s.
Proof.
  intros Hs. pose proof Hs as [phase He]. unfold v2_step. apply wp_bind, wp_get.
  assert (forall sender o a e pv, tells carrier side sender o log a e ->
    told (match advanced (sender, o) a with Some x => x :: log | None => log end) (e, pv)) as Hadv.
  { intros sender o a e pv Ht. destruct a; cbn in Ht |- *; [destruct Ht as (ph & ? & _)..|destruct Ht as (ph & ?)]; by exists ph. }
  destruct op as [o|o|o authority|o|o authority]; apply wp_bind.
  - apply wp_on_endpoint. unfold v2_send. apply wp_bind, wp_get. eapply wp_mono; [by eapply wp_v2_apply| |done].
    intros a e Ht. by apply Hadv.
  - apply wp_on_endpoint. unfold v2_receive. apply wp_bind, wp_get. eapply wp_mono; [by eapply wp_v2_apply| |done].
    intros a e Ht. by apply Hadv.
  - eapply wp_mono; [by apply wp_receive_offer| |done]. intros a [e pv] Ht. by apply Hadv.
  - apply wp_on_endpoint. eapply wp_mono; [by eapply wp_authenticate| |done]. by intros a e Ht.
  - apply wp_on_endpoint. eapply wp_mono; [by eapply wp_recover| |done]. intros a e Ht. by apply Hadv.
Qed.

Lemma v2_run_story ops : forall (s : world) log s' log', told log s -> v2_run ops s log = (s', log') -> told log' s'.
Proof.
  induction ops as [|op ops IH]; intros s log s' log' Hs; cbn [v2_run]; [by intros [= <- <-]|].
  pose proof (wp_v2_step op s log Hs) as Hw. destruct (v2_step op s) as [s1 [[x|]|err|]] eqn:Hstep;
    pose proof (wp_run _ _ _ _ _ _ _ Hw Hstep) as Ht; cbn in Ht; intros Hrun; [by eapply IH..|by injection Hrun as <- <-].
Qed.
End Steps.

(** ** Legal continuations are accepted *)

Section Progress.
Context {B : Type} `{CredentialV2BodyVerifier B, Cbor, Sha256}.

Lemma apply_successor_accepts carrier side (e : CredentialV2Endpoint B) phase i s prev log sender o next l b :
  story carrier side e phase ((s, prev) :: log) -> ve_phase e <> Phase_Terminal -> ve_intent_digest e = Some i ->
  exact_retransmission e o sender = false ->
  successor carrier phase i prev sender o next l -> body_verify l (ve_body_verifier e) = (b, Ok tt) ->
  v2_apply o sender e = (accepted_state o sender next (Some i) (set_v2_verifier b e), Ok Advance_Advanced).
Proof.
  intros Hs Hlive Hi Hex [Hl Hv Hn Ho Hb Hc Hp] Hver. pose proof (live_phase _ _ _ _ _ Hs Hlive) as Hph.
  rewrite <- (sy_carrier _ _ _ _ _ Hs) in Hc.
  unfold v2_apply, mbind, stM_bind, get. rewrite Hex, bool_decide_eq_false_2, Hv by done. cbn [negb].
  assert (bool_decide (ve_phase e = Phase_PayloadSent) && bool_decide (ob_kind o = Kind_Refusal) = false) as ->.
  { apply andb_false_iff. rewrite Hph. case_bool_decide as E1; [|by left]. right. apply bool_decide_eq_false. intros E2.
    rewrite E1, E2 in Hn. done. }
  assert (ob_kind o <> Kind_AccountSelect /\ ob_kind o <> Kind_Offer) as [Hk1 Hk2].
  { split; intros Hk; rewrite Hk in Hn; by destruct phase. }
  rewrite !bool_decide_eq_false_2 by done. unfold apply_successor, mbind, stM_bind, get.
  rewrite Hi, bool_decide_eq_true_2 by done. cbn [negb]. rewrite Hph, Hn. unfold or_fail at 1. rewrite Hb. unfold mret, stM_ret.
  rewrite bool_decide_eq_true_2 by done. cbn [negb]. rewrite (sy_last _ _ _ _ _ Hs). cbn [head fmap option_fmap option_map].
  rewrite bool_decide_eq_true_2 by done. cbn [negb]. unfold verify_body. rewrite Hver. cbn [or_fail].
  unfold mret, stM_ret. rewrite accept_run, (kept_intent _ o i) by done. done.
Qed.
End Progress.
