(* ===== verification/CredCeremony.v ===== *)
(** * Two endpoints of credential/v2

    Agreement: equal last objects mean equal histories, up to a collision of
    the hash.  Completion: over linked channels every legal ceremony runs to
    its end. *)

From S2P Require Import Prelude External Wire Cddl WireCodec Channel CredCore CredFrame CredDisplay CredCarrier CredContext CredChannel CredEndpoint CredStory.

(** ** Agreement *)

(** An object as its constructors make it. *)
Definition genuine `{Cbor, Sha256} (o : CredentialV2Object) : Prop := decode_object (ob_bytes o) = Ok o.

(** The objects since the offer, the latest first. *)
Fixpoint since_offer (log : list entry) : list CredentialV2Object :=
  match log with
  | [] => []
  | (_, o) :: log => o :: (if bool_decide (ob_kind o = Kind_Offer) then [] else since_offer log)
  end.

Section Agreement.
Context `{Cbor, Sha256, !CborLaws, !CborIntLaws}.

(** Two of the objects collide. *)
Definition collide (log log' : list entry) : Prop :=
  exists o o', o ∈ map snd log /\ o' ∈ map snd log' /\ ob_bytes o <> ob_bytes o' /\
    sha256 (ob_bytes o) = sha256 (ob_bytes o').

Lemma genuine_hash o : genuine o -> ob_content_hash o = sha256 (ob_bytes o).
Proof.
  intros (_ & Hn & _)%object_inverse. unfold CredentialV2Object_new in Hn.
  apply bind_ok in Hn as (_ & _ & (b & _ & [= <-])%bind_ok). done.
Qed.

Lemma same_object o o' : genuine o -> genuine o' -> ob_content_hash o = ob_content_hash o' ->
  o = o' \/ ob_bytes o <> ob_bytes o' /\ sha256 (ob_bytes o) = sha256 (ob_bytes o').
Proof.
  intros Ho Ho' Heq. rewrite !genuine_hash in Heq by done. destruct (decide (ob_bytes o = ob_bytes o')) as [Hb|]; [left|by right].
  unfold genuine in *. rewrite Hb, Ho' in Ho. by injection Ho.
Qed.

Lemma collide_cons x y log log' : collide log log' -> collide (x :: log) (y :: log').
Proof. intros (o & o' & ? & ? & ?). exists o, o'. simpl. split_and!; try (by apply elem_of_cons; right); tauto. Qed.

Lemma successor_kind c phase i prev sender o next l : successor c phase i prev sender o next l -> ob_kind o <> Kind_Offer.
Proof. intros [Hl _ Hn _ _ _ _] Hk. rewrite Hk in Hn. by destruct phase. Qed.

Lemma transcripts_agree c c' phase i log : transcript c phase i log -> forall phase' i' log' x y r r',
  transcript c' phase' i' log' -> log = x :: r -> log' = y :: r' -> pre_offer phase = false -> pre_offer phase' = false ->
  Forall (fun e => genuine e.2) log -> Forall (fun e => genuine e.2) log' ->
  ob_content_hash x.2 = ob_content_hash y.2 -> since_offer log = since_offer log' \/ collide log log'.
Proof.
  induction 1 as [|o s Hs|phase log o Ht IH Hk|phase i s prev log sender o next l Ht IH Hs];
    intros phase' i' log' x y r r' Ht' Hx Hy Hp Hp' Hg Hg' Hh; try done; simplify_eq/=.
  all: destruct (same_object o y.2) as [Heq|[Hne Hsh]];
    [by apply Forall_cons in Hg as [? _]|by apply Forall_cons in Hg' as [? _]|done|
     |right; exists o, y.2; simpl; split_and!; [by apply elem_of_cons; left|by apply elem_of_cons; left|done|done]].
  - inversion Ht' as [| |ph2 log2 o2 Ht2 Hk2|ph2 i2 s2 prev2 log2 sender2 o2 next2 l2 Ht2 Hs2]; subst; try done.
    + simpl. left. by rewrite bool_decide_eq_true_2.
    + by apply successor_kind in Hs2.
  - inversion Ht' as [| |ph2 log2 o2 Ht2 Hk2|ph2 i2 s2 prev2 log2 sender2 o2 next2 l2 Ht2 Hs2]; subst; try done.
    + by apply successor_kind in Hs.
    + simpl in *. apply successor_kind in Hs as Hno. rewrite bool_decide_eq_false_2 by done.
      apply Forall_cons in Hg as [_ Hg], Hg' as [_ Hg'].
      assert (ob_content_hash prev = ob_content_hash prev2) as Hprev.
      { pose proof (su_body _ _ _ _ _ _ _ _ Hs) as Hb. rewrite (su_body _ _ _ _ _ _ _ _ Hs2) in Hb. injection Hb as ->.
        by rewrite <- (su_predecessor _ _ _ _ _ _ _ _ Hs), <- (su_predecessor _ _ _ _ _ _ _ _ Hs2). }
      destruct (IH ph2 (Some i2) ((s2, prev2) :: log2) (s, prev) (s2, prev2) log log2) as [IH'|Hcol]; try done.
      * by apply transcript_intent in Ht as [_ ?].
      * by apply transcript_intent in Ht2 as [_ ?].
      * left. f_equal. exact IH'.
      * right. by apply collide_cons.
Qed.
End Agreement.

(** ** The next object is new and determined *)

Section Next.
Context `{Cbor, Sha256} (c : CredentialV2Carrier).

Lemma select_kind phase o : transcript c phase None [(Side_Claimant, o)] -> ob_kind o = Kind_AccountSelect.
Proof.
  intros Ht. inversion Ht as [|o' s Hs| |]; subst. by apply recognised_select in Hs.
Qed.

Lemma transcript_det phase i log : transcript c phase i log -> forall phase' i', transcript c phase' i' log ->
  phase' = phase /\ i' = i.
Proof.
  induction 1 as [|o s Hs|phase log o Ht IH Hk|phase i s prev log sender o next l Ht IH Hs]; intros phase' i' Ht';
    inversion Ht' as [|o2 s2 Hs2|ph2 log2 o2 Ht2 Hk2|ph2 i2 s2 prev2 log2 sender2 o2 next2 l2 Ht2 Hs2]; subst; try done.
  - by apply successor_kind in Hs2.
  - by apply successor_kind in Hs.
  - destruct (IH _ _ Ht2) as [-> [= ->]]. split; [|done].
    pose proof (su_next _ _ _ _ _ _ _ _ Hs). pose proof (su_next _ _ _ _ _ _ _ _ Hs2). congruence.
Qed.

Lemma fresh_kind next i' sender o s prev log : transcript c next i' ((sender, o) :: (s, prev) :: log) ->
  ob_kind prev <> ob_kind o.
Proof.
  intros Ht. inversion Ht as [| |ph2 log2 o2 Ht2 Hk2|ph2 i2 s2 prev2 log2 sender2 o2 next2 l2 Ht2 Hs2]; subst.
  - apply transcript_intent in Ht2 as Hlog. destruct Hlog as [[_ ?]|[_ [o3 [= -> -> ->]]]]; [done|].
    apply select_kind in Ht2. congruence.
  - destruct Hs2 as [Hlive _ Hn _ _ _ _]. apply next_phase_inv in Hn as Hinv.
    inversion Ht2 as [| |ph3 log3 o3 Ht3 Hk3|ph3 i3 s3 prev3 log3 sender3 o3 next3 l3 Ht3 Hs3]; subst.
    + rewrite Hk3. intros Hk. rewrite <- Hk in Hn. done.
    + apply su_next, next_phase_inv in Hs3. intros Hk.
      destruct ph2; try done; destruct next; try done; destruct Hs3 as [? ?]; intuition congruence.
Qed.

Lemma not_repeated {B} side (e : CredentialV2Endpoint B) phase log next i' sender o : story c side e phase log ->
  transcript c next i' ((sender, o) :: log) -> forall who, exact_retransmission e o who = false.
Proof.
  intros Hs Ht who. unfold exact_retransmission. rewrite (sy_last _ _ _ _ _ Hs). destruct log as [|[s prev] log]; simpl; [done|].
  apply fresh_kind in Ht. rewrite (bool_decide_eq_false_2 (ob_kind prev = ob_kind o)) by done. by rewrite andb_false_r.
Qed.
End Next.

(** ** Accepting the next object *)

Section Accepting.
Context {B : Type} `{CredentialV2BodyVerifier B, Cbor, Sha256} (c : CredentialV2Carrier).

(** The consumer accepts the body of the object. *)
Definition consumer_accepts (o : CredentialV2Object) : Prop := forall l b, recognise_logical_body o = Ok l ->
  exists b', body_verify l b = (b', Ok tt).

(** An endpoint that has not failed. *)
Record live (side : Side) (e : CredentialV2Endpoint B) (phase : CredentialV2Phase) (i : option bytes) (log : list entry) : Prop := {
  li_story : story c side e phase log;
  li_phase : ve_phase e = phase;
  li_intent : ve_intent_digest e = i
}.

Lemma live_new side b : live side (CredentialV2Endpoint_new side c b) Phase_Begin None [].
Proof. split; [apply story_new|done|done]. Qed.

Lemma accepted_live side e phase i log sender o next : story c side e phase log ->
  transcript c next i ((sender, o) :: log) -> live side (accepted_state o sender next i e) next i ((sender, o) :: log).
Proof. intros Hs Ht. split; [by eapply story_accepted|done|done]. Qed.

Lemma v2_apply_accepts side e phase i log sender o next i' : live side e phase i log ->
  transcript c next i' ((sender, o) :: log) -> (ob_kind o = Kind_Offer -> side = Side_Allocator) -> consumer_accepts o ->
  exists e', v2_apply o sender e = (e', Ok Advance_Advanced) /\ live side e' next i' ((sender, o) :: log).
Proof.
  intros [Hs Hph Hi] Ht Hoff Hacc. pose proof (not_repeated c _ _ _ _ _ _ _ _ Hs Ht sender) as Hno.
  pose proof (sy_carrier _ _ _ _ _ Hs) as Hcr.
  inversion Ht as [|o2 s2 Hs2|ph2 log2 o2 Ht2 Hk2|ph2 i2 s2 prev2 log2 sender2 o2 next2 l2 Ht2 Hs2]; subst.
  - pose proof (recognised_select _ _ _ _ Hs2) as Hk.
    destruct (transcript_det c _ _ _ (sy_transcript _ _ _ _ _ Hs) _ _ (transcript_begin c)) as [Hb Hn].
    eexists. split; [|by apply (accepted_live side e (ve_phase e) None [])].
    unfold v2_apply, mbind, stM_bind, get. rewrite Hno, Hk, <- Hb. cbn [valid_sender].
    rewrite !bool_decide_eq_false_2, !bool_decide_eq_true_2 by done. cbn [negb andb].
    unfold apply_account_select, mbind, stM_bind, get. rewrite (sy_last _ _ _ _ _ Hs), <- Hb, bool_decide_eq_true_2 by done.
    rewrite bool_decide_eq_false_2 by (by intros [? ?]). cbn [negb orb]. rewrite ?Hcr, Hs2. cbn [or_fail]. unfold mret, stM_ret.
    rewrite accept_run, Hk, <- Hn. done.
  - assert (side = Side_Allocator) as -> by auto.
    destruct (transcript_det c _ _ _ (sy_transcript _ _ _ _ _ Hs) _ _ Ht2) as [-> Hn].
    assert (pre_offer (ve_phase e) = true) as Hpre by (by eapply transcript_pre).
    exists (accepted_state o Side_Allocator Phase_Offered (Some (ob_intent_digest o)) (set_v2_intent (Some (ob_intent_digest o)) e)).
    split; [|by apply (accepted_live Side_Allocator e (ve_phase e) (Some (ob_intent_digest o)) log)].
    unfold v2_apply, mbind, stM_bind, get. rewrite Hno, Hk2. cbn [valid_sender].
    rewrite (bool_decide_eq_false_2 (ve_phase e = Phase_Terminal)) by (by intros Hp; rewrite Hp in Hpre).
    rewrite (bool_decide_eq_false_2 (ve_phase e = Phase_PayloadSent)) by (by intros Hp; rewrite Hp in Hpre).
    rewrite (bool_decide_eq_true_2 (Side_Allocator = Side_Allocator)) by done. cbn [negb andb].
    rewrite (bool_decide_eq_false_2 (Kind_Offer = Kind_AccountSelect)), (bool_decide_eq_true_2 (Kind_Offer = Kind_Offer)) by done.
    unfold apply_offer, mbind, stM_bind, get, modify. rewrite (sy_side _ _ _ _ _ Hs), Hpre, bool_decide_eq_true_2 by done.
    cbn [negb orb]. rewrite accept_run. done.
  - destruct (transcript_det c _ _ _ (sy_transcript _ _ _ _ _ Hs) _ _ Ht2) as [-> Hn].
    destruct (Hacc l2 (ve_body_verifier e) (su_body _ _ _ _ _ _ _ _ Hs2)) as [b' Hb'].
    eexists. split.
    + eapply apply_successor_accepts; [done| |done|done|done|done]. apply Hs2.
    + apply (accepted_live side (set_v2_verifier b' e) (ve_phase e) (Some i2) ((s2, prev2) :: log2)); [|done]. by apply story_verifier.
Qed.
End Accepting.

(** ** A ceremony of two *)

Section Ceremony.
Context {B P V : Type} `{CredentialV2BodyVerifier B, CredentialV2OfferParser P, CredentialV2IntentVerifier V}.
Context `{Cbor, Sha256, Sha512, HkdfSha512, HmacSha512, Aead}.

(** One side: endpoint, channel, relay membership. *)
Abbreviation party := (CredentialV2Endpoint B * SecureCredentialV2Channel * CredentialV2RelayState)%type.

Definition answer {S A} (r : S * credM A) : credM (S * A) :=
  match r with (s, Ok a) => Ok (s, a) | (_, Err e) => Err e | (_, Panic) => Panic end.

(** The frame is sealed and cached, opened and applied, and acknowledged. *)
Definition transmitted (o : CredentialV2Object) (p : party) : credM (party * CredentialV2Frame) :=
  answer (prepare_outbound o p).
Definition applied (authority : CredentialV2IntentAuthority) (f : CredentialV2Frame) (p : party) (pv : P * V) :
    credM (party * (P * V)) :=
  let '(e, ch, rl) := p in
  '(ch, octets) ← answer (v2_open f ch);
  o ← decode_object octets;
  if bool_decide (ob_kind o = Kind_Offer) then
    '((e, pv), _) ← answer (receive_offer o authority (e, pv));
    Ok ((e, ch, rl), pv)
  else
    '(e, _) ← answer (v2_receive o e);
    Ok ((e, ch, rl), pv).
Definition acknowledged (p : party) : credM party :=
  let '(e, ch, rl) := p in
  sequence ← cached_application_sequence rl;
  '(rl, _) ← answer (acknowledge_application_frame sequence rl);
  Ok (e, ch, rl).

(** One object from its sender to the other side. *)
Definition exchange (authority : CredentialV2IntentAuthority) (x : entry) (s : party * party * (P * V)) :
    credM (party * party * (P * V)) :=
  let '(a, c, pv) := s in
  match x.1 with
  | Side_Allocator =>
      '(a, f) ← transmitted x.2 a;
      '(c, pv) ← applied authority f c pv;
      a ← acknowledged a;
      Ok (a, c, pv)
  | Side_Claimant =>
      '(c, f) ← transmitted x.2 c;
      '(a, pv) ← applied authority f a pv;
      c ← acknowledged c;
      Ok (a, c, pv)
  end.
Fixpoint ceremony (authority : CredentialV2IntentAuthority) (script : list entry) (s : party * party * (P * V)) :
    credM (party * party * (P * V)) :=
  match script with
  | [] => Ok s
  | x :: script => s ← exchange authority x s; ceremony authority script s
  end.

(** ** Completion *)

Context `{!CborLaws, !CborIntLaws, !AeadLaws}.
Context (carrier : CredentialV2Carrier) (Hsmall : small_aad).

(** A party ready to send or to receive. *)
Record ready (side : Side) (phase : CredentialV2Phase) (i : option bytes) (log : list entry) (p : party) (n : nat) : Prop := {
  rd_live : live carrier side p.1.1 phase i log;
  rd_side : c2_local_side p.1.2 = side;
  rd_send : c2_next_send_counter p.1.2 = Some (Z.of_nat n);
  rd_ack : rs_awaiting_ack p.2 = false;
  rd_cached : rs_cached_outbound p.2 = None;
  rd_sequence : rs_next_local_sequence p.2 = Z.of_nat n
}.

(** The transfer of an object that fits. *)
Definition sendable (o : CredentialV2Object) : Prop := genuine o /\ v2_plaintext (ob_bytes o).

Lemma transmitted_ok side e ch rl peer phase i log n o next i' : ready side phase i log (e, ch, rl) n -> v2_pair ch peer ->
  (n < 100)%nat -> sendable o -> transcript carrier next i' ((side, o) :: log) ->
  (ob_kind o = Kind_Offer -> side = Side_Allocator) -> consumer_accepts (B := B) o ->
  exists e' ch' rl' f,
    transmitted o (e, ch, rl) = Ok ((e', ch', rl'), f) /\ live carrier side e' next i' ((side, o) :: log) /\
    v2_open f peer = (v2_set_receive_counter (Some (Z.of_nat (S n))) peer, Ok (ob_bytes o)) /\
    v2_pair ch' (v2_set_receive_counter (Some (Z.of_nat (S n))) peer) /\
    exists rl'', acknowledged (e', ch', rl') = Ok (e', ch', rl'') /\
      ready side next i' ((side, o) :: log) (e', ch', rl'') (S n).
Proof.
  intros [Hl Hsd Hsc Hack Hca Hsq] Hp Hn [Hg Hpl] Ht Hoff Hacc. cbn [fst snd] in *.
  destruct (v2_apply_accepts carrier side e phase i log side o next i' Hl Ht Hoff Hacc) as (e' & He' & Hl').
  pose proof (sy_side _ _ _ _ _ (li_story _ _ _ _ _ _ Hl)) as Hes.
  destruct (v2_seal_ready ch (Z.of_nat n) (ob_bytes o)) as (f & Hf & Hseal); [apply Hp|done|apply (vp_forth _ _ Hp)|done|done|].
  assert (checked_add u64_max (Z.of_nat n) 1 = Some (Z.of_nat (S n))) as Hnext.
  { apply checked_add_some. unfold u64_max. lia. }
  assert (checked_add u8_max (Z.of_nat n) 1 = Some (Z.of_nat (S n))) as Hnext8.
  { apply checked_add_some. unfold u8_max. lia. }
  rewrite Hnext in Hseal. exists e', (v2_set_send_counter (Some (Z.of_nat (S n))) ch).
  exists (set_awaiting_ack true (set_relay_cached (Some f) (set_next_local_sequence (Z.of_nat (S n)) rl))), f.
  assert (frame_sealed f <> None) as Hfs by (destruct Hf as (aad & ct & -> & _); done).
  split_and!.
  - unfold transmitted, prepare_outbound, mbind, stM_bind, get, lift. rewrite Hsd, Hes, Hca, bool_decide_eq_true_2 by done. cbn [negb].
    assert (can_seal ch (ob_bytes o) = Ok tt) as ->.
    { unfold can_seal. rewrite (v2l_sender _ _ (vp_forth _ _ Hp)), Hsc. unfold v2_plaintext in Hpl.
      destruct (_ || _) eqn:E; [apply orb_true_iff in E as [E|E]; bool_to_prop; lia|done]. }
    unfold zoom, v2_send, mbind, stM_bind, get. cbn [fst snd]. rewrite Hes, He'. cbn [map_err fst snd]. rewrite Hseal.
    cbn [map_err fst snd]. unfold cache_application_frame, mbind, stM_bind, get, lift, modify, throw. rewrite Hack.
    rewrite bool_decide_eq_false_2 by done. cbn [orb]. rewrite Hsq, Hnext8. done.
  - done.
  - rewrite <- Hnext. by apply v2_sealed_opens with ch; [apply Hp..| | |].
  - rewrite <- Hnext. by apply v2_pair_step.
  - exists (set_awaiting_ack false (set_relay_cached None (set_next_local_sequence (Z.of_nat (S n)) rl))). split.
    + unfold acknowledged, cached_application_sequence. cbn. 
      assert (checked_sub (Z.of_nat (S n)) 1 = Some (Z.of_nat n)) as Hsub by (apply checked_sub_some; lia).
      rewrite Hsub. cbn. unfold acknowledge_application_frame, mbind, stM_bind, get, lift, cached_application_sequence. cbn.
      rewrite Hsub. cbn. rewrite Z.eqb_refl. done.
    + by split.
Qed.

(** The consumer of the claimant accepts the offer for this carrier. *)
Record offer_accepted (authority : CredentialV2IntentAuthority) (o : CredentialV2Object) : Prop := {
  oa_ceremony : ic_carrier_ceremony_id (ia_claims authority) = ca_carrier_ceremony_id carrier;
  oa_application : ic_application_id (ia_claims authority) = ca_application_context carrier;
  oa_recognised pv : exists pv' d, recognise_credential_v2_intent (P := P) (V := V) o authority pv = (pv', Ok d)
}.

Lemma received_offer (e : CredentialV2Endpoint B) i phase log o next i' authority (pv : P * V) : live carrier Side_Claimant e phase i log ->
  transcript carrier next i' ((Side_Allocator, o) :: log) -> ob_kind o = Kind_Offer -> offer_accepted authority o ->
  exists e' pv' d, receive_offer o authority (e, pv) = ((e', pv'), Ok (Advance_DisplayIntent d)) /\
    live carrier Side_Claimant e' next i' ((Side_Allocator, o) :: log).
Proof.
  intros [Hs Hph Hi] Ht Hk [Hc Ha Hr]. destruct (Hr pv) as (pv' & d & Hd).
  inversion Ht as [| |ph2 log2 o2 Ht2 Hk2|ph2 i2 s2 prev2 log2 sender2 o2 next2 l2 Ht2 Hs2]; subst;
    [|by apply successor_kind in Hs2].
  destruct (transcript_det carrier _ _ _ (sy_transcript _ _ _ _ _ Hs) _ _ Ht2) as [-> Hn].
  exists (accepted_state o Side_Allocator Phase_Offered (Some (ob_intent_digest o)) e), pv', d.
  split; [|by apply (accepted_live carrier Side_Claimant e (ve_phase e) (Some (ob_intent_digest o)) log)].
  unfold receive_offer, mbind, stM_bind, get. cbn [fst snd]. rewrite (not_repeated carrier _ _ _ _ _ _ _ _ Hs Ht).
  rewrite (sy_side _ _ _ _ _ Hs), (transcript_pre carrier _ _ Ht2), Hk, !bool_decide_eq_true_2 by done. cbn [negb orb].
  rewrite (sy_carrier _ _ _ _ _ Hs), !bool_decide_eq_true_2 by done. cbn [negb orb].
  unfold recognise_offer. cbn [fst snd]. rewrite Hd. unfold on_endpoint, zoom. cbn [fst snd or_fail].
  unfold mret, stM_ret. cbn [map_err fst snd]. rewrite accept_run, Hk, <- Hn. done.
Qed.

Lemma applied_ok side e ch rl phase i log n o next i' authority f peer pv :
  ready side phase i log (e, ch, rl) n -> v2_open f ch = (v2_set_receive_counter peer ch, Ok (ob_bytes o)) -> genuine o ->
  transcript carrier next i' ((opposite side, o) :: log) ->
  (ob_kind o = Kind_Offer -> offer_accepted authority o) -> consumer_accepts (B := B) o ->
  exists e' pv', applied authority f (e, ch, rl) pv = Ok ((e', v2_set_receive_counter peer ch, rl), pv') /\
    ready side next i' ((opposite side, o) :: log) (e', v2_set_receive_counter peer ch, rl) n.
Proof.
  intros [Hl Hsd Hsc Hack Hca Hsq] Ho Hg Ht Hoff Hacc. cbn [fst snd] in *. unfold applied. rewrite Ho. cbn [answer].
  rewrite ok_bind, Hg, ok_bind. case_bool_decide as Hk.
  - assert (side = Side_Claimant) as ->.
    { clear -Ht Hk. remember (opposite side) as who eqn:Hwho.
      inversion Ht as [|o2 s2 Hs2|ph2 log2 o2 Ht2 Hk2|ph2 i2 s2 prev2 log2 sender2 o2 next2 l2 Ht2 Hs2]; subst.
      - apply recognised_select in Hs2. congruence.
      - by destruct side.
      - by apply successor_kind in Hs2. }
    destruct (received_offer e i phase log o next i' authority pv Hl Ht Hk (Hoff Hk)) as (e' & pv' & d & -> & Hl').
    exists e', pv'. split; [done|]. by split.
  - destruct (v2_apply_accepts carrier side e phase i log (opposite side) o next i' Hl Ht) as (e' & He' & Hl'); [done|done|].
    exists e', pv. split; [|by split]. unfold v2_receive, mbind, stM_bind, get.
    rewrite (sy_side _ _ _ _ _ (li_story _ _ _ _ _ _ Hl)), He'. done.
Qed.

(** Both sides at the same point of one transcript. *)
Record together (phase : CredentialV2Phase) (i : option bytes) (log : list entry) (s : party * party * (P * V)) : Prop := {
  tg_allocator : exists n, (n <= length log)%nat /\ ready Side_Allocator phase i log s.1.1 n;
  tg_claimant : exists n, (n <= length log)%nat /\ ready Side_Claimant phase i log s.1.2 n;
  tg_channels : v2_pair s.1.1.1.2 s.1.2.1.2
}.

(** What the script's objects must satisfy. *)
Definition playable (authority : CredentialV2IntentAuthority) (x : entry) : Prop :=
  sendable x.2 /\ consumer_accepts (B := B) x.2 /\ (ob_kind x.2 = Kind_Offer -> offer_accepted authority x.2).

Lemma exchange_ok authority x phase i log s next i' : together phase i log s ->
  transcript carrier next i' (x :: log) -> playable authority x ->
  exists s', exchange authority x s = Ok s' /\ together next i' (x :: log) s'.
Proof.
  destruct x as [side o], s as [[[[ea cha] rla] [[ec chc] rlc]] pv].
  intros [(na & Hna & Ha) (nc & Hnc & Hc) Hp] Ht ([Hg Hpl] & Hacc & Hoff). cbn [fst snd] in *.
  pose proof (transcript_length carrier _ _ _ Ht) as Hlen. simpl in Hlen.
  assert (phase_rank next <= 8)%nat by (destruct next; simpl; lia).
  assert (ob_kind o = Kind_Offer -> side = Side_Allocator) as Hside.
  { intros Hk. inversion Ht as [| |ph2 log2 o2 Ht2 Hk2 Hsd2|ph2 i2 s2 prev2 log2 sender2 o2 next2 l2 Ht2 Hs2]; subst; try done.
    - match goal with Hr : recognise_account_select _ _ _ = _ |- _ => apply recognised_select in Hr end. congruence.
    - by apply successor_kind in Hs2. }
  unfold exchange. cbn [fst snd]. destruct side.
  - destruct (transmitted_ok Side_Allocator ea cha rla chc phase i log na o next i' Ha Hp) as
      (ea' & cha' & rla' & f & -> & Hla & Ho & Hp' & rla'' & Hk & Ha'); [lia|by split|done|done|done|].
    destruct (applied_ok Side_Claimant ec chc rlc phase i log nc o next i' authority f _ pv Hc Ho Hg Ht Hoff Hacc)
      as (ec' & pv' & Hap & Hc').
    rewrite ok_bind, Hap, ok_bind, Hk, ok_bind. eexists. split; [done|].
    split; cbn [fst snd]; [exists (S na)|exists nc|done]; (split; [simpl; lia|done]).
  - destruct (transmitted_ok Side_Claimant ec chc rlc cha phase i log nc o next i' Hc (v2_pair_sym _ _ Hp)) as
      (ec' & chc' & rlc' & f & -> & Hlc & Ho & Hp' & rlc'' & Hk & Hc'); [lia|by split|done|done|done|].
    destruct (applied_ok Side_Allocator ea cha rla phase i log na o next i' authority f _ pv Ha Ho Hg Ht Hoff Hacc)
      as (ea' & pv' & Hap & Ha').
    rewrite ok_bind, Hap, ok_bind, Hk, ok_bind. eexists. split; [done|].
    split; cbn [fst snd]; [exists na|exists (S nc)|by apply v2_pair_sym]; (split; [simpl; lia|done]).
Qed.

(** Prefixes of a transcript are transcripts. *)
Lemma transcript_tail phase i x log : transcript carrier phase i (x :: log) -> exists phase' i', transcript carrier phase' i' log.
Proof.
  intros Ht. inversion Ht; subst; eauto using transcript_begin.
Qed.
Lemma transcript_suffix log0 log : forall phase i, transcript carrier phase i (log0 ++ log) ->
  exists phase' i', transcript carrier phase' i' log.
Proof.
  induction log0 as [|x log0 IH]; intros phase i Ht; [by eauto|]. apply transcript_tail in Ht as (ph & i' & Ht). by eapply IH.
Qed.

Lemma ceremony_ok authority script : forall phase i log s next i', together phase i log s ->
  transcript carrier next i' (rev script ++ log) -> Forall (playable authority) script ->
  exists s', ceremony authority script s = Ok s' /\ together next i' (rev script ++ log) s'.
Proof.
  induction script as [|x script IH]; intros phase i log s next i' Hs Ht Hp; cbn [ceremony rev app].
  - destruct Hs as [(na & Hna & Ha) ? ?]. pose proof (sy_transcript _ _ _ _ _ (li_story _ _ _ _ _ _ (rd_live _ _ _ _ _ _ Ha))) as Hta.
    rewrite (li_intent _ _ _ _ _ _ (rd_live _ _ _ _ _ _ Ha)) in Hta.
    destruct (transcript_det carrier _ _ _ Hta _ _ Ht) as [-> ->]. exists s. split; [done|]. split; [by exists na|done|done].
  - apply Forall_cons in Hp as [Hx Hp]. cbn [rev] in Ht. rewrite <- app_assoc in Ht |- *. cbn [app] in Ht |- *.
    destruct (transcript_suffix (rev script) (x :: log) _ _ Ht) as (ph & i1 & Ht1).
    destruct (exchange_ok authority x phase i log s ph i1 Hs Ht1 Hx) as (s1 & -> & Hs1). rewrite ok_bind. by eapply IH.
Qed.
End Ceremony.
