(* ===== verification/CredEndpointProps.v ===== *)
(** * Properties of the channel and the endpoint of credential/v2 *)

From S2P Require Import Prelude External Instances Wire Cddl WireCodec Channel CbclDemo CredCore CredFrame CredDisplay CredCarrier CredContext CredProps CredChannel CredEndpoint CredStory CredCeremony.

(** ** The channel *)

(** C17. Key agreement and transport of credential/v2.  From one session key and
    one transcript both sides derive a schedule, each accepts exactly the
    Finished frame of the other, and they then hold linked channels and one
    exporter.  On linked channels the receiver opens what the sender sealed, to
    the same octets, and the channels stay linked; what a channel opens was
    sealed under its own key at exactly the counter expected next; and a
    channel restored from its snapshot is the same channel. *)
Theorem v2_channel_agreement `{Cbor, Sha512, HkdfSha512, HmacSha512, Aead, !CborLaws, !ScheduleLaws, !AeadLaws}
    isk context fa fb : exists pa pb ca cb,
  PendingCredentialV2Channel_new Side_Allocator isk context fa fb = Ok pa /\
  PendingCredentialV2Channel_new Side_Claimant isk context fa fb = Ok pb /\
  (forall f c, v2_confirm pa f = Ok c <-> f = v2_local_finished_frame pb /\ c = ca) /\
  (forall f c, v2_confirm pb f = Ok c <-> f = v2_local_finished_frame pa /\ c = cb) /\
  v2_pair ca cb /\ c2_exporter ca = c2_exporter cb /\
  (forall s r p s' f, v2_pair s r -> v2_seal p s = (s', Ok f) -> exists r', v2_open f r = (r', Ok p) /\ v2_pair s' r') /\
  (forall c f c' p, v2_open f c = (c', Ok p) -> exists n, c2_next_receive_counter c = Some n /\ v2_opens c n f p) /\
  (forall c, restore_snapshot (checkpoint_snapshot c) = c).
Proof.
  destruct (v2_schedule isk context fa fb) as (pa & pb & ca & cb & Ha & Hb & Hca & Hcb & _ & _ & Hp & _ & _ & He & _).
  exists pa, pb, ca, cb. split_and!; try done.
  - intros s r p s' f Hsr Hs. apply v2_seal_cases in Hs as [(n & f' & [= <-] & _ & Hpl & Hn & Hf & ->)|[_ [e [=]]]].
    exists (v2_set_receive_counter (checked_add u64_max n 1) r). split; [|by apply v2_pair_step].
    destruct Hsr. by eapply v2_sealed_opens.
  - intros c f c' p Ho. apply v2_open_cases in Ho as [(n & p' & [= <-] & _ & Hn & Hf & _)|[[e [=]] _]]. by exists n.
  - by intros [].
Qed.

(** ** The endpoint *)

(** C5. The endpoint refines the protocol.  Whatever it is asked to send,
    receive or recover, and whatever its consumer answers, the objects a new
    endpoint has accepted form a transcript of its carrier: a selection at
    most, then one offer, then objects each from its proper sender, in the
    proper phase, of the offer's intent and naming the hash of the object
    before it.  The endpoint is in the transcript's phase or has ended, it
    remembers the latest object, at most eight objects are ever accepted, and
    a payload is accepted only after offer, approval, preparation,
    confirmation and final approval. *)
Theorem v2_endpoint_refines `{CredentialV2BodyVerifier B, CredentialV2OfferParser P, CredentialV2IntentVerifier V}
    `{Cbor, Sha256} side carrier (b : B) (pv : P * V) ops s log :
  v2_run ops (CredentialV2Endpoint_new side carrier b, pv) [] = (s, log) ->
  exists phase,
    transcript carrier phase (ve_intent_digest s.1) log /\
    (ve_phase s.1 = phase \/ ve_phase s.1 = Phase_Terminal) /\
    ve_last s.1 = last_entry <$> head log /\
    (length log <= 8)%nat /\
    (Exists (fun e => ob_kind e.2 = Kind_Payload) log -> exists receipt confirmation pre,
       shape log = receipt ++ (Side_Claimant, Kind_Payload) :: (Side_Claimant, Kind_FinalApprove) ::
                   (Side_Allocator, confirmation) :: opening_shape ++ pre /\
       (confirmation = Kind_ComparisonConfirmed \/ confirmation = Kind_BindingConfirmed) /\
       (pre = [] \/ pre = [(Side_Claimant, Kind_AccountSelect)]) /\
       (receipt = [] \/ receipt = [(Side_Allocator, Kind_Receipt)])).
Proof.
  intros Hrun. eapply (v2_run_story carrier side) in Hrun as (phase & [_ _ Ht Hp Hl]); [|exists Phase_Begin; apply story_new].
  exists phase. split_and!; try done.
  - apply transcript_length in Ht. destruct phase; simpl in Ht; lia.
  - intros He. destruct (transcript_payload carrier _ _ _ Ht He) as (r & k & pre & ? & ? & ? & Hr).
    exists r, k, pre. split_and!; try done. destruct Hr as [[? _]|[? _]]; auto.
Qed.

(** C18. Agreement of histories.  When two transcripts, of whatever endpoints,
    end in objects with one content hash after their offers, either all their
    objects since the offer are the same, or two different objects in them
    have one hash. *)
Theorem v2_histories_agree `{Cbor, Sha256, !CborLaws, !CborIntLaws} c c' phase phase' i i' x y r r' :
  transcript c phase i (x :: r) -> transcript c' phase' i' (y :: r') ->
  pre_offer phase = false -> pre_offer phase' = false ->
  Forall (fun e => genuine e.2) (x :: r) -> Forall (fun e => genuine e.2) (y :: r') ->
  ob_content_hash x.2 = ob_content_hash y.2 ->
  since_offer (x :: r) = since_offer (y :: r') \/ collide (x :: r) (y :: r').
Proof. intros Ht Ht' Hp Hp' Hg Hg' Hh. by eapply transcripts_agree. Qed.

(** C6. A ceremony completes.  Two new endpoints of one carrier over linked
    channels play every transcript to its end: each object is sealed and cached
    by its sender, opened, decoded and accepted by the other side and
    acknowledged, whenever the consumers accept the objects' bodies and the
    offer, so that both endpoints finish in the transcript's phase with equal
    histories. *)
Theorem v2_ceremony_completes `{CredentialV2BodyVerifier B, CredentialV2OfferParser P, CredentialV2IntentVerifier V}
    `{Cbor, Sha256, Sha512, HkdfSha512, HmacSha512, Aead, !CborLaws, !CborIntLaws, !AeadLaws}
    carrier (ba bc : B) (pv : P * V) ca cc ta tc authority script phase i :
  small_aad -> v2_pair ca cc -> c2_local_side ca = Side_Allocator -> c2_local_side cc = Side_Claimant ->
  c2_next_send_counter ca = Some 0 -> c2_next_send_counter cc = Some 0 ->
  transcript carrier phase i (rev script) -> Forall (playable (B := B) (P := P) (V := V) carrier authority) script ->
  exists a c pv',
    ceremony authority script
      ((CredentialV2Endpoint_new Side_Allocator carrier ba, ca, CredentialV2RelayState_new ta),
       (CredentialV2Endpoint_new Side_Claimant carrier bc, cc, CredentialV2RelayState_new tc), pv) = Ok (a, c, pv') /\
    live carrier Side_Allocator a.1.1 phase i (rev script) /\ live carrier Side_Claimant c.1.1 phase i (rev script) /\
    v2_pair a.1.2 c.1.2.
Proof.
  intros Hsmall Hp Ha Hc Hsa Hsc Ht Hs.
  destruct (ceremony_ok (B := B) (P := P) (V := V) carrier Hsmall authority script Phase_Begin None []
    ((CredentialV2Endpoint_new Side_Allocator carrier ba, ca, CredentialV2RelayState_new ta),
     (CredentialV2Endpoint_new Side_Claimant carrier bc, cc, CredentialV2RelayState_new tc), pv) phase i) as (s & Hrun & Hs').
  - split; [exists 0%nat|exists 0%nat|done]; (split; [simpl; lia|]); (split; [apply live_new|done..]).
  - by rewrite app_nil_r.
  - done.
  - destruct s as [[a c] pv']. rewrite app_nil_r in Hs'. exists a, c, pv'. split; [done|].
    destruct Hs' as [(na & _ & []) (nc & _ & []) ?]. done.
Qed.

(** ** Ends and retries *)

Section Ends.
Context {B P V : Type} `{CredentialV2BodyVerifier B, CredentialV2OfferParser P, CredentialV2IntentVerifier V}.
Context `{Cbor, Sha256, Sha512, HkdfSha512, HmacSha512, Aead}.

Lemma terminal_apply o sender (e : CredentialV2Endpoint B) : ve_phase e = Phase_Terminal ->
  v2_apply o sender e = (e, if exact_retransmission e o sender then Ok Advance_ExactRetransmission else Err CredentialV2Error_Terminal).
Proof.
  intros Ht. unfold v2_apply, mbind, stM_bind, get. destruct (exact_retransmission _ _ _); [done|].
  by rewrite Ht, bool_decide_eq_true_2.
Qed.

Lemma terminal_step op (s : CredentialV2Endpoint B * (P * V)) : ve_phase s.1 = Phase_Terminal ->
  exists r, v2_step op s = (s, r) /\ (r = Ok None \/ exists e, r = Err e).
Proof.
  destruct s as [e pv]. cbn [fst]. intros Ht.
  assert (set_v2_phase Phase_Terminal e = e) as Hsame by (destruct e; simpl in *; by subst).
  unfold v2_step, on_endpoint, zoom, mbind, stM_bind, get, mret, stM_ret.
  destruct op as [o|o|o authority|o|o authority]; cbn [fst snd].
  - unfold v2_send, mbind, stM_bind, get. rewrite terminal_apply by done. destruct (exact_retransmission _ _ _); cbn; eauto.
  - unfold v2_receive, mbind, stM_bind, get. rewrite terminal_apply by done. destruct (exact_retransmission _ _ _); cbn; eauto.
  - unfold receive_offer, mbind, stM_bind, get. cbn [fst snd]. destruct (exact_retransmission _ _ _); cbn; [eauto|].
    rewrite Ht, orb_true_r. cbn [orb]. unfold on_endpoint, zoom, v2_fail, mbind, stM_bind, modify, throw. cbn. rewrite Hsame. eauto.
  - unfold authenticate_recovered_receipt, mbind, stM_bind, get. rewrite Ht, (bool_decide_eq_false_2 (Phase_Terminal = _)) by done.
    cbn [negb]. rewrite orb_true_r. cbn. eauto.
  - unfold recover_receipt, mbind, stM_bind, get. rewrite Ht, (bool_decide_eq_false_2 (Phase_Terminal = _)) by done.
    cbn [negb]. rewrite orb_true_r. cbn. eauto.
Qed.

(** Objects with the same fields. *)
Definition same_fields (o o' : CredentialV2Object) : bool :=
  bool_decide (ob_kind o = ob_kind o') && bool_decide (ob_intent_digest o = ob_intent_digest o') &&
  bool_decide (ob_content_hash o = ob_content_hash o') && bool_decide (ob_bytes o = ob_bytes o').

Lemma repeated_fields (e : CredentialV2Endpoint B) o sender o' : ve_last e = Some (last_of o sender) ->
  exact_retransmission e o' sender = same_fields o o'.
Proof. intros Hl. unfold exact_retransmission. rewrite Hl. cbn. by rewrite bool_decide_eq_true_2. Qed.
End Ends.

(** The end is final.  An endpoint in its terminal phase accepts nothing,
    consults neither parser nor verifier, and stays exactly as it is, through
    any further calls. *)
Theorem v2_end_final `{CredentialV2BodyVerifier B, CredentialV2OfferParser P, CredentialV2IntentVerifier V}
    `{Cbor, Sha256} ops (s : CredentialV2Endpoint B * (P * V)) log :
  ve_phase s.1 = Phase_Terminal -> v2_run ops s log = (s, log).
Proof.
  intros Ht. induction ops as [|op ops IH]; cbn [v2_run]; [done|].
  destruct (terminal_step op s Ht) as (r & -> & [->|[e ->]]); done.
Qed.


(** ** A concrete ceremony *)

(** A consumer that accepts every body and counts them. *)
#[local] Instance demo_bodies : CredentialV2BodyVerifier nat := {|
  body_verify l n := (S n, Ok tt);
  body_checkpoint_state n := Ok [];
  body_restore_checkpoint_state := default_restore_checkpoint_state
|}.
#[local] Existing Instances demo_parser demo_verifier.

Definition demo_digest32 : bytes := credential_v2_intent_digest (replicate 32 4).
Definition made (k : CredentialV2Kind) (body : bytes) : CredentialV2Object :=
  match CredentialV2Object_new k demo_digest32 body with Ok o => o | _ => mkCredentialV2Object k [] [] [] [] end.
Definition body_after (prev : CredentialV2Object) (more : list (string * Value)) : bytes :=
  default [] (to_canonical_vec (text_map ([("carrierCeremonyId", VBytes (ca_carrier_ceremony_id demo_carrier));
    ("predecessorDigest", VBytes (ob_content_hash prev))] ++ more))).
Definition object_1 := made Kind_Offer [1; 2; 3].
Definition object_2 := made Kind_IntentApprove (body_after object_1 []).
Definition object_3 := made Kind_Preparation (body_after object_2 []).
Definition object_4 := made Kind_ComparisonConfirmed (body_after object_3 []).
Definition object_5 := made Kind_FinalApprove (body_after object_4 []).
Definition object_6 := made Kind_Payload (body_after object_5 []).
Definition object_7 := made Kind_Receipt
  (body_after object_6 [("finalStatusDigest", VBytes (replicate 32 6)); ("finalStatusJws", VText "head.body.sig-1")]).
Definition demo_script : list entry :=
  [(Side_Allocator, object_1); (Side_Claimant, object_2); (Side_Claimant, object_3); (Side_Allocator, object_4);
   (Side_Claimant, object_5); (Side_Claimant, object_6); (Side_Allocator, object_7)].

(** A body as the endpoint reads it. *)
Definition body_read (prev o : CredentialV2Object) : CredentialV2LogicalBody :=
  mkCredentialV2LogicalBody (ob_kind o) (ca_carrier_ceremony_id demo_carrier) (ob_content_hash prev) (ob_body o).
Definition reads (prev o : CredentialV2Object) : bool :=
  match recognise_logical_body o with
  | Ok l => bool_decide (lb_carrier_ceremony_id l = ca_carrier_ceremony_id demo_carrier) &&
            bool_decide (lb_predecessor_digest l = ob_content_hash prev)
  | _ => false
  end.
Fixpoint chained (prev : CredentialV2Object) (l : list CredentialV2Object) : bool :=
  match l with [] => true | o :: l => reads prev o && bool_decide (ob_intent_digest o = demo_digest32) && chained o l end.

Lemma demo_chain : chained object_1 [object_2; object_3; object_4; object_5; object_6; object_7] = true.
Proof. vm_cast_no_check (eq_refl true). Qed.
Lemma demo_genuine : forallb (fun x : entry => match decode_object (ob_bytes x.2) with
    Ok o => bool_decide (ob_kind o = ob_kind x.2) && bool_decide (ob_intent_digest o = ob_intent_digest x.2) &&
            bool_decide (ob_body o = ob_body x.2) && bool_decide (ob_bytes o = ob_bytes x.2) &&
            bool_decide (ob_content_hash o = ob_content_hash x.2) | _ => false end) demo_script = true.
Proof. vm_cast_no_check (eq_refl true). Qed.
Lemma demo_sizes : forallb (fun x : entry => (1 <=? blen (ob_bytes x.2)) && (blen (ob_bytes x.2) <=? MAX_PLAINTEXT)) demo_script = true.
Proof. vm_cast_no_check (eq_refl true). Qed.
Lemma demo_kinds : ob_kind object_1 = Kind_Offer /\ ob_kind object_2 = Kind_IntentApprove /\
  ob_kind object_3 = Kind_Preparation /\ ob_kind object_4 = Kind_ComparisonConfirmed /\
  ob_kind object_5 = Kind_FinalApprove /\ ob_kind object_6 = Kind_Payload /\ ob_kind object_7 = Kind_Receipt.
Proof. split_and!; by vm_compute. Qed.
Lemma demo_offer_digest : ob_intent_digest object_1 = demo_digest32.
Proof. by vm_compute. Qed.

Lemma chain_next phase s prev log sender o next rest :
  transcript demo_carrier phase (Some demo_digest32) ((s, prev) :: log) -> phase <> Phase_Terminal ->
  valid_sender (ob_kind o) sender = true -> next_phase phase (ob_kind o) = Some next -> chained prev (o :: rest) = true ->
  transcript demo_carrier next (Some demo_digest32) ((sender, o) :: (s, prev) :: log) /\ chained o rest = true.
Proof.
  cbn [chained]. intros Ht Hl Hv Hn [[Hr Hi%bool_decide_eq_true]%andb_true_iff Hc]%andb_true_iff. split; [|done].
  unfold reads in Hr. destruct (recognise_logical_body o) as [l| |] eqn:Hb; [|done..].
  apply andb_true_iff in Hr as [Hr1%bool_decide_eq_true Hr2%bool_decide_eq_true].
  eapply transcript_next; [done|by split].
Qed.

(** Seven chained objects of these kinds are a ceremony. *)
Lemma chain_ceremony o1 o2 o3 o4 o5 o6 o7 :
  ob_kind o1 = Kind_Offer /\ ob_kind o2 = Kind_IntentApprove /\ ob_kind o3 = Kind_Preparation /\
  ob_kind o4 = Kind_ComparisonConfirmed /\ ob_kind o5 = Kind_FinalApprove /\ ob_kind o6 = Kind_Payload /\ ob_kind o7 = Kind_Receipt ->
  ob_intent_digest o1 = demo_digest32 -> chained o1 [o2; o3; o4; o5; o6; o7] = true ->
  transcript demo_carrier Phase_Terminal (Some demo_digest32)
    [(Side_Allocator, o7); (Side_Claimant, o6); (Side_Claimant, o5); (Side_Allocator, o4); (Side_Claimant, o3); (Side_Claimant, o2);
     (Side_Allocator, o1)].
Proof.
  intros (K1 & K2 & K3 & K4 & K5 & K6 & K7) Hd C1.
  assert (transcript demo_carrier Phase_Offered (Some demo_digest32) [(Side_Allocator, o1)]) as T1.
  { rewrite <- Hd. eapply transcript_offer; [apply transcript_begin|done]. }
  destruct (chain_next _ _ _ _ Side_Claimant o2 Phase_IntentApproved _ T1 ltac:(done) ltac:(by rewrite K2) ltac:(by rewrite K2) C1) as [T2 C2].
  destruct (chain_next _ _ _ _ Side_Claimant o3 Phase_Prepared _ T2 ltac:(done) ltac:(by rewrite K3) ltac:(by rewrite K3) C2) as [T3 C3].
  destruct (chain_next _ _ _ _ Side_Allocator o4 Phase_Confirmed _ T3 ltac:(done) ltac:(by rewrite K4) ltac:(by rewrite K4) C3) as [T4 C4].
  destruct (chain_next _ _ _ _ Side_Claimant o5 Phase_FinalApproved _ T4 ltac:(done) ltac:(by rewrite K5) ltac:(by rewrite K5) C4) as [T5 C5].
  destruct (chain_next _ _ _ _ Side_Claimant o6 Phase_PayloadSent _ T5 ltac:(done) ltac:(by rewrite K6) ltac:(by rewrite K6) C5) as [T6 C6].
  by destruct (chain_next _ _ _ _ Side_Allocator o7 Phase_Terminal _ T6 ltac:(done) ltac:(by rewrite K7) ltac:(by rewrite K7) C6) as [T7 _].
Qed.
Lemma demo_transcript : transcript demo_carrier Phase_Terminal (Some demo_digest32) (rev demo_script).
Proof. exact (chain_ceremony _ _ _ _ _ _ _ demo_kinds demo_offer_digest demo_chain). Qed.

Lemma demo_genuine_all : Forall (fun x : entry => genuine x.2) demo_script.
Proof.
  apply Forall_forall. intros x Hx%list_elem_of_In. pose proof demo_genuine as Hg. rewrite forallb_forall in Hg. apply Hg in Hx.
  unfold genuine. destruct (decode_object (ob_bytes x.2)) as [o| |]; [|done..].
  rewrite !andb_true_iff in Hx. destruct Hx as [[[[H1 H2] H3] H4] H5]. bool_to_prop.
  destruct o, x as [w []]; simpl in *. by subst.
Qed.

Lemma demo_aad_small : small_aad.
Proof.
  intros d n th aad Hl Ha. do 64 (destruct th as [|? th]; [discriminate Hl|]). destruct th; [|discriminate Hl].
  unfold v2_sealed_aad in Ha. apply ok_or_ok in Ha. unfold to_canonical_vec, demo_cbor in Ha.
  apply (f_equal (fun o => match o with Some b => blen b | None => 0 end)) in Ha. revert Ha. generalize (blen aad). intros len Ha.
  destruct d; vm_compute in Ha; rewrite <- Ha; unfold aead_data_max; lia.
Qed.

(** Only the first of the seven is an offer. *)
Lemma one_offer s1 s2 s3 s4 s5 s6 s7 o1 o2 o3 o4 o5 o6 o7 :
  ob_kind o1 = Kind_Offer /\ ob_kind o2 = Kind_IntentApprove /\ ob_kind o3 = Kind_Preparation /\
  ob_kind o4 = Kind_ComparisonConfirmed /\ ob_kind o5 = Kind_FinalApprove /\ ob_kind o6 = Kind_Payload /\ ob_kind o7 = Kind_Receipt ->
  Forall (fun x : entry => ob_kind x.2 = Kind_Offer -> x.2 = o1) [(s1, o1); (s2, o2); (s3, o3); (s4, o4); (s5, o5); (s6, o6); (s7, o7)].
Proof. intros (K1 & K2 & K3 & K4 & K5 & K6 & K7). repeat (apply Forall_cons; split; [cbn; congruence|]). done. Qed.

Lemma demo_offer_accepted : offer_accepted (P := nat) (V := nat) demo_carrier demo_authority object_1.
Proof.
  split; [done|done|]. intros [p v]. exists (S p, S v), (mkCredentialV2Display demo_claims TofuState_NewPair).
  assert (ob_kind object_1 = Kind_Offer /\ ob_intent_digest object_1 = demo_digest32) as [Hk Hd] by (split; by vm_compute).
  revert Hk Hd. generalize object_1. intros o Hk Hd. unfold recognise_credential_v2_intent. rewrite Hk, Hd. by vm_compute.
Qed.
Lemma demo_playable : Forall (playable (B := nat) (P := nat) (V := nat) demo_carrier demo_authority) demo_script.
Proof.
  pose proof (one_offer Side_Allocator Side_Claimant Side_Claimant Side_Allocator Side_Claimant Side_Claimant Side_Allocator
    _ _ _ _ _ _ _ demo_kinds) as Hone. fold demo_script in Hone. pose proof demo_genuine_all as Hg. pose proof demo_sizes as Hs.
  pose proof demo_offer_accepted as Ho. revert Hone Hg Hs Ho. generalize demo_script object_1. intros script o Hone Hg Hs Ho.
  rewrite Forall_forall in Hone, Hg. rewrite forallb_forall in Hs. apply Forall_forall. intros x Hx. split_and!.
  - split; [by apply Hg|]. apply list_elem_of_In, Hs, andb_true_iff in Hx as [? ?]. bool_to_prop. unfold v2_plaintext. lia.
  - intros l b Hb. by eexists.
  - intros Hk. by rewrite (Hone x Hx Hk).
Qed.

Lemma v2_ceremony_completes_witness : exists ca cc a c pv,
  ceremony demo_authority demo_script
    ((CredentialV2Endpoint_new Side_Allocator demo_carrier 0%nat, ca, CredentialV2RelayState_new []),
     (CredentialV2Endpoint_new Side_Claimant demo_carrier 0%nat, cc, CredentialV2RelayState_new []), (0%nat, 0%nat)) = Ok (a, c, pv) /\
  ve_phase a.1.1 = Phase_Terminal /\ ve_phase c.1.1 = Phase_Terminal.
Proof.
  destruct (v2_schedule (replicate 64 1) [1] [2] [3]) as (pa & pc & ca & cc & _ & _ & _ & _ & _ & _ & Hp & Ha & Hc & _ & Hsa & Hsc).
  destruct (v2_ceremony_completes demo_carrier 0%nat 0%nat (0%nat, 0%nat) ca cc [] [] demo_authority demo_script Phase_Terminal
    (Some demo_digest32) demo_aad_small Hp Hsa Hsc Ha Hc demo_transcript demo_playable) as (a & c & pv & Hrun & [_ Hpa _] & [_ Hpc _] & _).
  exists ca, cc, a, c, pv. split_and!; [exact Hrun|exact Hpa|exact Hpc].
Defined.

Lemma v2_channel_agreement_witness : exists pa pb,
  PendingCredentialV2Channel_new Side_Allocator (replicate 64 1) [1] [2] [3] = Ok pa /\
  PendingCredentialV2Channel_new Side_Claimant (replicate 64 1) [1] [2] [3] = Ok pb /\
  exists c, v2_confirm pa (v2_local_finished_frame pb) = Ok c.
Proof.
  destruct (v2_channel_agreement (replicate 64 1) [1] [2] [3]) as (pa & pb & ca & cb & Ha & Hb & Hca & _).
  exists pa, pb. split_and!; [exact Ha|exact Hb|]. exists ca. apply Hca. by split.
Defined.

Lemma v2_histories_agree_witness : since_offer (rev demo_script) = since_offer (rev demo_script) \/
  collide (rev demo_script) (rev demo_script).
Proof.
  assert (Forall (fun e : entry => genuine e.2) (rev demo_script)) as Hg by (apply Forall_rev, demo_genuine_all).
  pose proof demo_transcript as Ht. cbn [demo_script rev app] in *.
  exact (v2_histories_agree _ _ _ _ _ _ _ _ _ _ Ht Ht eq_refl eq_refl Hg Hg eq_refl).
Defined.

(** The allocator sends its offer, receives the approval, and then junk. *)
Definition demo_ops : list v2_op := [V2_Send object_1; V2_Receive object_2; V2_Receive object_2; V2_Receive object_7].
Definition demo_world : CredentialV2Endpoint nat * (nat * nat) :=
  (CredentialV2Endpoint_new Side_Allocator demo_carrier 0%nat, (0%nat, 0%nat)).
Lemma demo_log : map (fun x : entry => ob_kind x.2) (v2_run demo_ops demo_world []).2 = [Kind_IntentApprove; Kind_Offer].
Proof. vm_cast_no_check (eq_refl [Kind_IntentApprove; Kind_Offer]). Qed.

Lemma v2_endpoint_refines_witness : exists s log phase, v2_run demo_ops demo_world [] = (s, log) /\
  map (fun x : entry => ob_kind x.2) log = [Kind_IntentApprove; Kind_Offer] /\
  transcript demo_carrier phase (ve_intent_digest s.1) log.
Proof.
  pose proof demo_log as Hl. destruct (v2_run demo_ops demo_world []) as [s log] eqn:Hrun.
  destruct (v2_endpoint_refines Side_Allocator demo_carrier 0%nat (0%nat, 0%nat) demo_ops s log Hrun) as (phase & Ht & _).
  exists s, log, phase. split_and!; [reflexivity|exact Hl|exact Ht].
Defined.

Definition ended_world : CredentialV2Endpoint nat * (nat * nat) :=
  (set_v2_phase Phase_Terminal demo_world.1, (0%nat, 0%nat)).
Lemma v2_end_final_witness : v2_run demo_ops ended_world [] = (ended_world, []).
Proof. exact (v2_end_final demo_ops ended_world [] eq_refl). Defined.

(** The allocator's channel of the witness above, and its offer prepared. *)
Definition demo_channel : SecureCredentialV2Channel :=
  mkSecureCredentialV2Channel Side_Allocator (replicate 64 1) (replicate 32 2) (replicate 32 3) (replicate 12 4) (replicate 12 5)
    (replicate 32 6) (Some 0) (Some 0) false.
Lemma offer_prepared :
  accepted (prepare_outbound object_1 (demo_world.1, demo_channel, CredentialV2RelayState_new [])).2 = true.
Proof. vm_cast_no_check (eq_refl true). Qed.

