(* ===== verification/CredBytes.v ===== *)
(** * Octet cursors of credential/v2 ([src/credential_v2/bootstrap.rs], [checkpoint.rs])

    The readers over an input and the writers they invert.  [Cursor] and
    [ByteCursor] have the same fields and the same [take], [byte], [array],
    [u64] and [finished], which are given once.  A writer returns the octets
    it appends.  [reads x m a] says that the reader [m] consumes exactly [x]
    and returns [a]; it composes along [bind]. *)

From S2P Require Import Prelude External Channel CredCore.

Definition MAX_FRAME_BYTES : Z := 69600.

(** [u64::from_be_bytes] and [u32::from_be_bytes]. *)
Definition from_be_bytes (b : bytes) : Z := fold_left (fun z octet => z * 256 + octet) b 0.

(** ** Running a step *)

Lemma get_bind {S A} (k : S -> stM S CredentialV2Error A) s : (get ≫= k) s = k s s.
Proof. done. Qed.
Lemma modify_bind {S A} f (k : unit -> stM S CredentialV2Error A) s : (modify f ≫= k) s = k tt (f s).
Proof. done. Qed.
Lemma lift_bind {S A A'} (r : credM A) (k : A -> stM S CredentialV2Error A') s :
  (lift r ≫= k) s = match r with Ok a => k a s | Err e => (s, Err e) | Panic => (s, Panic) end.
Proof. by destruct r. Qed.
(** A step that returns nothing leaves the state of the call. *)
Lemma discard_state {S A} (m : stM S CredentialV2Error A) s : ((_ ← m; mret tt) s).1 = (m s).1.
Proof. unfold mbind, stM_bind. by destruct (m s) as [s' [a|e|]]. Qed.

Ltac run_guards :=
  repeat first [rewrite get_bind | rewrite modify_bind | rewrite lift_bind].

(** ** Readers *)

Record Cursor := mkCursor { cu_input : bytes; cu_position : Z }.
Definition Cursor_new (input : bytes) : Cursor := mkCursor input 0.
Definition set_cursor_position (position : Z) (c : Cursor) : Cursor := mkCursor (cu_input c) position.

Abbreviation cursorM := (stM Cursor CredentialV2Error).

(** [input.get(start..end)]. *)
Definition get_range (input : bytes) (first last : Z) : option bytes :=
  if (first <=? last) && (last <=? blen input)
  then Some (take (Z.to_nat (last - first)) (drop (Z.to_nat first) input)) else None.

Definition cursor_take (length : Z) : cursorM bytes :=
  c ← get;
  last ← lift (ok_or (checked_add u64_max (cu_position c) length) CredentialV2Error_Size);
  value ← lift (ok_or (get_range (cu_input c) (cu_position c) last) CredentialV2Error_Schema);
  _ ← modify (set_cursor_position last);
  mret value.

(** [self.take(1)?[0]]. *)
Definition cursor_byte : cursorM Z :=
  value ← cursor_take 1;
  lift (expect (head value)).

Definition cursor_boolean : cursorM bool :=
  octet ← cursor_byte;
  if octet =? 0 then mret false else if octet =? 1 then mret true else throw CredentialV2Error_Schema.

Definition cursor_array (n : nat) : cursorM bytes :=
  value ← cursor_take (Z.of_nat n);
  if (length value =? n)%nat then mret value else throw CredentialV2Error_Schema.

Definition cursor_optional_array (n : nat) : cursorM (option bytes) :=
  octet ← cursor_byte;
  if octet =? 0 then mret None
  else if octet =? 1 then (value ← cursor_array n; mret (Some value))
  else throw CredentialV2Error_Schema.

Definition cursor_u64 : cursorM Z :=
  value ← cursor_array 8;
  mret (from_be_bytes value).

(** [Cursor::length_prefixed]. *)
Definition cursor_length_prefixed (maximum : Z) : cursorM bytes :=
  value ← cursor_array 4;
  length ← lift (ok_or (try_into u64_max (from_be_bytes value)) CredentialV2Error_Size);
  if (length =? 0) || (maximum <? length) then throw CredentialV2Error_Size else cursor_take length.

(** [ByteCursor::length_prefixed_allow_empty] and [length_prefixed]. *)
Definition length_prefixed_allow_empty (maximum : Z) : cursorM bytes :=
  value ← cursor_array 4;
  length ← lift (ok_or (try_into u64_max (from_be_bytes value)) CredentialV2Error_Size);
  if maximum <? length then throw CredentialV2Error_Size else cursor_take length.
Definition byte_length_prefixed (maximum : Z) : cursorM bytes :=
  value ← length_prefixed_allow_empty maximum;
  if bool_decide (value = []) then throw CredentialV2Error_Size else mret value.

Definition cursor_counter : cursorM (option Z) :=
  octet ← cursor_byte;
  if octet =? 0 then mret None
  else if octet =? 1 then (value ← cursor_u64; mret (Some value))
  else throw CredentialV2Error_Schema.

Definition cursor_finished (c : Cursor) : bool := cu_position c =? blen (cu_input c).

(** ** Writers *)

Definition append_optional_fixed (value : option bytes) : bytes :=
  match value with Some value => 1 :: value | None => [0] end.

(** [append_bytes] of [bootstrap.rs]. *)
Definition append_bytes (value : bytes) : credM bytes :=
  if bool_decide (value = []) || (MAX_FRAME_BYTES <? blen value) then Err CredentialV2Error_Size
  else
    length ← ok_or (try_into u32_max (blen value)) CredentialV2Error_Size;
    Ok (to_be_bytes 4 length ++ value).

(** [append_bytes] of [checkpoint.rs]. *)
Definition append_length_prefixed (value : bytes) : credM bytes :=
  length ← ok_or (try_into u32_max (blen value)) CredentialV2Error_Size;
  Ok (to_be_bytes 4 length ++ value).

Definition append_counter (counter : option Z) : bytes :=
  match counter with Some value => 1 :: to_be_bytes 8 value | None => [0] end.

Definition bool_octet (b : bool) : Z := if b then 1 else 0.

(** ** Big-endian integers *)

Lemma from_be_bytes_app a b : from_be_bytes (a ++ [b]) = from_be_bytes a * 256 + b.
Proof. unfold from_be_bytes. by rewrite fold_left_app. Qed.

Lemma from_to_be_bytes n z : 0 <= z < 256 ^ Z.of_nat n -> from_be_bytes (to_be_bytes n z) = z.
Proof.
  revert z. induction n as [|n IH]; intros z Hz; [simpl in *; unfold from_be_bytes; simpl; lia|].
  cbn [to_be_bytes]. rewrite from_be_bytes_app, IH.
  - pose proof (Z.div_mod z 256). lia.
  - rewrite Nat2Z.inj_succ, Z.pow_succ_r in Hz by lia. split; [apply Z.div_pos; lia|]. apply Z.div_lt_upper_bound; lia.
Qed.

Lemma blen_cons z b : blen (z :: b) = 1 + blen b.
Proof. unfold blen. simpl. lia. Qed.
(** Bounds on parts of a concatenation. *)
Ltac octet_lengths :=
  repeat match goal with
  | H : context [blen (_ :: _)] |- _ => rewrite blen_cons in H
  | H : context [blen (_ ++ _)] |- _ => rewrite blen_app in H
  | |- context [blen (_ :: _)] => rewrite blen_cons
  | |- context [blen (_ ++ _)] => rewrite blen_app
  end; unfold blen in *; lia.

(** ** What a reader consumes *)

Definition reads {A} (x : bytes) (m : cursorM A) (a : A) : Prop := forall pre post,
  blen (pre ++ x ++ post) <= u64_max ->
  m (mkCursor (pre ++ x ++ post) (blen pre)) = (mkCursor (pre ++ x ++ post) (blen (pre ++ x)), Ok a).

(** With the input, whatever the answer. *)
Definition reads_rest {A} (x : bytes) (m : cursorM A) (r : credM A) : Prop := forall pre,
  blen (pre ++ x) <= u64_max -> exists c, m (mkCursor (pre ++ x) (blen pre)) = (c, r).

Section Reads.
Context {A B : Type}.
Implicit Types (m : cursorM A) (k : A -> cursorM B).

Lemma reads_bind x y m k a b : reads x m a -> reads y (k a) b -> reads (x ++ y) (m ≫= k) b.
Proof.
  intros Hm Hk pre post Hlen. unfold mbind, stM_bind. rewrite <- app_assoc in Hlen |- *. rewrite Hm by done.
  pose proof (Hk (pre ++ x) post) as Hk'. rewrite <- !app_assoc in Hk'. rewrite Hk' by done. by rewrite app_assoc.
Qed.
Lemma reads_rest_bind x y m k a r : reads x m a -> reads_rest y (k a) r -> reads_rest (x ++ y) (m ≫= k) r.
Proof.
  intros Hm Hk pre Hlen. unfold mbind, stM_bind. rewrite Hm by done.
  destruct (Hk (pre ++ x)) as [c Hc]; [by rewrite <- app_assoc|]. exists c. by rewrite <- app_assoc in Hc.
Qed.
Lemma reads_ret (a : A) : reads [] (mret a) a.
Proof. intros pre post _. unfold mret, stM_ret. by rewrite app_nil_r. Qed.
Lemma reads_lift (o : credM A) a : o = Ok a -> reads [] (lift o) a.
Proof. intros -> pre post _. unfold lift. by rewrite app_nil_r. Qed.
Lemma reads_rest_lift (o : credM A) k a y r : o = Ok a -> reads_rest y (k a) r -> reads_rest y (lift o ≫= k) r.
Proof. intros Ho. apply (reads_rest_bind [] y), reads_lift, Ho. Qed.
(** [m] followed by something that consumes nothing. *)
Lemma reads_bind_nil x m k a b : reads x m a -> reads [] (k a) b -> reads x (m ≫= k) b.
Proof. intros Hm Hk. rewrite <- (app_nil_r x). by eapply reads_bind. Qed.
Lemma reads_rest_run x (m : cursorM A) r : reads_rest x m r -> blen x <= u64_max -> (m (Cursor_new x)).2 = r.
Proof. intros Hm Hlen. destruct (Hm []) as [c Hc]; [done|]. unfold Cursor_new. change 0 with (blen []). cbn [app] in Hc. by rewrite Hc. Qed.
(** At the end of the input everything has been read. *)
Lemma reads_rest_finished (k : Cursor -> cursorM A) r :
  (forall c, cursor_finished c = true -> exists c', k c c = (c', r)) -> reads_rest [] (get ≫= k) r.
Proof.
  intros Hk pre _. unfold mbind, stM_bind, get. apply Hk. unfold cursor_finished. simpl. rewrite app_nil_r. apply Z.eqb_refl.
Qed.
End Reads.

Lemma take_reads x : reads x (cursor_take (blen x)) x.
Proof.
  intros pre post Hlen. unfold cursor_take, mbind, stM_bind, get, lift, modify, mret, stM_ret. cbn [cu_position cu_input].
  rewrite !blen_app in Hlen. pose proof (blen_nonneg post).
  rewrite (proj2 (checked_add_some _ _ _ (blen pre + blen x))) by lia. cbn [ok_or].
  unfold get_range. rewrite !blen_app. pose proof (blen_nonneg x).
  rewrite (proj2 (Z.leb_le (blen pre) _)), (proj2 (Z.leb_le (_ + _) _)) by lia. cbn [andb ok_or].
  replace (Z.to_nat (blen pre)) with (length pre) by (unfold blen; lia).
  replace (Z.to_nat _) with (length x) by (unfold blen; lia).
  rewrite drop_app_length, take_app_length. done.
Qed.

Lemma byte_reads b : reads [b] cursor_byte b.
Proof. eapply reads_bind_nil; [apply (take_reads [b])|by apply reads_lift]. Qed.

Lemma boolean_reads b : reads [bool_octet b] cursor_boolean b.
Proof. eapply reads_bind_nil; [apply byte_reads|]. destruct b; apply reads_ret. Qed.

Lemma array_reads n x : length x = n -> reads x (cursor_array n) x.
Proof. intros <-. eapply reads_bind_nil; [apply take_reads|]. rewrite Nat.eqb_refl. apply reads_ret. Qed.

Lemma optional_array_reads n v : match v with Some x => length x = n | None => True end ->
  reads (append_optional_fixed v) (cursor_optional_array n) v.
Proof.
  intros Hv. destruct v as [x|]; cbn [append_optional_fixed].
  - eapply (reads_bind [1] x); [apply byte_reads|]. cbn [Z.eqb Pos.eqb]. eapply reads_bind_nil; [by apply array_reads|]. apply reads_ret.
  - eapply reads_bind_nil; [apply byte_reads|]. apply reads_ret.
Qed.

Lemma u64_reads z : 0 <= z <= u64_max -> reads (to_be_bytes 8 z) cursor_u64 z.
Proof.
  intros Hz. eapply reads_bind_nil; [apply array_reads, to_be_bytes_length|].
  rewrite from_to_be_bytes by (unfold u64_max in Hz; lia). apply reads_ret.
Qed.

Lemma counter_reads c : counter_ok c -> reads (append_counter c) cursor_counter c.
Proof.
  intros Hc. destruct c as [z|]; cbn [append_counter].
  - eapply (reads_bind [1]); [apply byte_reads|]. cbn [Z.eqb Pos.eqb]. eapply reads_bind_nil; [by apply u64_reads, Hc|]. apply reads_ret.
  - eapply reads_bind_nil; [apply byte_reads|]. apply reads_ret.
Qed.

(** A length, and a reader that uses it. *)
Lemma length_reads {A} x y (k : Z -> cursorM A) a : blen x <= u32_max -> reads y (k (blen x)) a ->
  reads (to_be_bytes 4 (blen x) ++ y) (value ← cursor_array 4;
    length ← lift (ok_or (try_into u64_max (from_be_bytes value)) CredentialV2Error_Size); k length) a.
Proof.
  intros Hx Hk. pose proof (blen_nonneg x). unfold u32_max in Hx. eapply reads_bind; [apply array_reads, to_be_bytes_length|].
  apply (reads_bind [] y) with (a := blen x); [|done]. apply reads_lift.
  rewrite from_to_be_bytes by lia. apply ok_or_ok, try_into_some. unfold u64_max. lia.
Qed.

Lemma length_prefixed_reads maximum x : 0 < blen x <= maximum -> blen x <= u32_max ->
  reads (to_be_bytes 4 (blen x) ++ x) (cursor_length_prefixed maximum) x.
Proof.
  intros Hx Hu. apply length_reads; [done|]. destruct (_ || _) eqn:E; [apply orb_true_iff in E as [E|E]; bool_to_prop; lia|].
  apply take_reads.
Qed.

Lemma allow_empty_reads maximum x : blen x <= maximum -> blen x <= u32_max ->
  reads (to_be_bytes 4 (blen x) ++ x) (length_prefixed_allow_empty maximum) x.
Proof.
  intros Hx Hu. apply length_reads; [done|]. destruct (_ <? _) eqn:E; bool_to_prop; [lia|]. apply take_reads.
Qed.

Lemma byte_length_prefixed_reads maximum x : 0 < blen x <= maximum -> blen x <= u32_max ->
  reads (to_be_bytes 4 (blen x) ++ x) (byte_length_prefixed maximum) x.
Proof.
  intros Hx Hu. eapply reads_bind_nil; [apply allow_empty_reads; lia|].
  rewrite bool_decide_eq_false_2 by (intros ->; unfold blen in Hx; simpl in Hx; lia). apply reads_ret.
Qed.

(** ** What the writers write *)

Lemma append_length_prefixed_ok x b : append_length_prefixed x = Ok b <-> blen x <= u32_max /\ b = to_be_bytes 4 (blen x) ++ x.
Proof.
  unfold append_length_prefixed. rewrite bind_ok. setoid_rewrite ok_or_ok. setoid_rewrite try_into_some.
  pose proof (blen_nonneg x). naive_solver.
Qed.
Lemma append_bytes_ok x b : append_bytes x = Ok b <-> 0 < blen x <= MAX_FRAME_BYTES /\ b = to_be_bytes 4 (blen x) ++ x.
Proof.
  unfold append_bytes. destruct (_ || _) eqn:E.
  - split; [done|]. intros [Hx _]. apply orb_true_iff in E as [E|E]; bool_to_prop; [subst; unfold blen in Hx; simpl in Hx|]; lia.
  - bool_to_prop. change (_ ← _; _) with (append_length_prefixed x). rewrite append_length_prefixed_ok.
    assert (0 < blen x) by (destruct x; [done|unfold blen; simpl; lia]). unfold MAX_FRAME_BYTES, u32_max in *. naive_solver lia.
Qed.
