(* ===== verification/CredCheckpoint.v ===== *)
(** * Sealed checkpoints of credential/v2 ([src/credential_v2/checkpoint.rs])

    The envelope that seals a plaintext state under a key derived from the
    caller's wrapping key, the encoding of an endpoint with its channel and
    relay membership, and sealing, restoring and inspecting an endpoint. *)

From S2P Require Import Prelude External Wire Cddl WireCodec Context Channel CredCore CredFrame CredDisplay CredCarrier CredContext CredChannel CredEndpoint CredBytes.

Definition CHECKPOINT_PROFILE : string := "anuna.io/credential/v2".
Definition OUTER_DOMAIN : string := "cbcl-pairing-endpoint-checkpoint/v2".
Definition KEY_INFO_DOMAIN : string := "cbcl-pairing checkpoint key/v2".
Definition ENDPOINT_INNER_DOMAIN : bytes := ascii_bytes "cbcl-pairing endpoint state/v2" ++ [0].
Definition CHECKPOINT_MAX_CIPHERTEXT : Z := 69632.
Definition CHECKPOINT_MAX_PLAINTEXT : Z := CHECKPOINT_MAX_CIPHERTEXT - 16.

(** [CredentialV2CheckpointNonce], twelve octets, is its octets, and
    [EndpointCheckpointV2] the sealed octets. *)
Record EndpointCheckpointV2 := mkEndpointCheckpointV2 { ec_bytes : bytes }.

Record OpenedCheckpoint := mkOpenedCheckpoint {
  oc_plaintext : bytes;
  oc_expiry : option Z;
  oc_nonce : bytes
}.

Inductive CheckpointPurpose : Type :=
| Purpose_ResumeAt (now : Z)
| Purpose_Inspect.

Record Outer := mkOuter {
  ou_side : Side;
  ou_ceremony : bytes;
  ou_generation : Z;
  ou_expiry : option Z;
  ou_nonce : bytes;
  ou_ciphertext : bytes
}.

(** ** The envelope *)

Definition checkpoint_integer (value : Value) : credM Z :=
  match value with
  | VInteger z => ok_or (try_into u64_max z) CredentialV2Error_Schema
  | _ => Err CredentialV2Error_Schema
  end.

Definition text_side (value : Value) : credM Side :=
  match value with
  | VText s =>
      if bool_decide (s = "allocator"%string) then Ok Side_Allocator
      else if bool_decide (s = "claimant"%string) then Ok Side_Claimant
      else Err CredentialV2Error_Schema
  | _ => Err CredentialV2Error_Schema
  end.

Definition ck_side_number (side : Side) : Z := match side with Side_Allocator => 0 | Side_Claimant => 1 end.
Definition ck_number_side (value : Z) : credM Side :=
  if value =? 0 then Ok Side_Allocator else if value =? 1 then Ok Side_Claimant else Err CredentialV2Error_Schema.

Definition expiry_or_null (expiry : option Z) : Value :=
  match expiry with Some value => VInteger value | None => VNull end.
Definition aad_members (side : Side) (ceremony : bytes) (generation : Z) (expiry : option Z) : list Value :=
  [VText OUTER_DOMAIN; VInteger 2; VText (side_text side); VText CHECKPOINT_PROFILE; VBytes ceremony; VInteger generation;
   expiry_or_null expiry].

(** [as_text() != Some(text)]. *)
Definition text_is (value : Value) (text : string) : bool :=
  match value with VText s => bool_decide (s = text) | _ => false end.

Section Envelope.
Context `{Cbor, HkdfSalted, Aead}.

Definition encode_outer (side : Side) (ceremony : bytes) (generation : Z) (expiry : option Z) (nonce ciphertext : bytes) :
    credM bytes :=
  ok_or (to_canonical_vec (VArray (aad_members side ceremony generation expiry ++ [VBytes nonce; VBytes ciphertext])))
    CredentialV2Error_Schema.

Definition decode_outer (input : bytes) : credM Outer :=
  value ← decode_canonical input;
  match value with
  | VArray [domain; version; role; profile; ceremony; generation; expiry; nonce; ciphertext] =>
      if negb (text_is domain OUTER_DOMAIN) then Err CredentialV2Error_Schema
      else
        version ← checkpoint_integer version;
        if negb (version =? 2) || negb (text_is profile CHECKPOINT_PROFILE) then Err CredentialV2Error_Schema
        else
          side ← text_side role;
          ceremony ← v2_fixed_bytes 32 ceremony;
          generation ← checkpoint_integer generation;
          expiry ← match expiry with VNull => Ok None | _ => value ← checkpoint_integer expiry; Ok (Some value) end;
          nonce ← v2_fixed_bytes 12 nonce;
          ciphertext ← v2_as_bytes ciphertext;
          if bool_decide (ciphertext = []) || (CHECKPOINT_MAX_CIPHERTEXT <? blen ciphertext) then Err CredentialV2Error_Size
          else Ok (mkOuter side ceremony generation expiry nonce ciphertext)
  | _ => Err CredentialV2Error_Schema
  end.

Definition checkpoint_aad (side : Side) (ceremony : bytes) (generation : Z) (expiry : option Z) : credM bytes :=
  ok_or (to_canonical_vec (VArray (aad_members side ceremony generation expiry))) CredentialV2Error_Schema.

Definition checkpoint_key_info (side : Side) : credM bytes :=
  ok_or (to_canonical_vec (VArray [VText KEY_INFO_DOMAIN; VText (side_text side); VText CHECKPOINT_PROFILE]))
    CredentialV2Error_Schema.

Definition derive_key (side : Side) (ceremony wrapping_key : bytes) : credM bytes :=
  info ← checkpoint_key_info side;
  ok_or (hkdf_salted ceremony wrapping_key info 32) CredentialV2Error_KeySchedule.

Definition seal_checkpoint_plaintext (plaintext : bytes) (side : Side) (carrier : CredentialV2Carrier)
    (wrapping_key : bytes) (generation : Z) (expiry : option Z) (nonce : bytes) : credM EndpointCheckpointV2 :=
  if bool_decide (plaintext = []) || (CHECKPOINT_MAX_PLAINTEXT <? blen plaintext) then Err CredentialV2Error_Size
  else
    aad ← checkpoint_aad side (ca_carrier_ceremony_id carrier) generation expiry;
    key ← derive_key side (ca_carrier_ceremony_id carrier) wrapping_key;
    cipher ← v2_cipher_key key;
    ciphertext ← ok_or (aead_encrypt cipher nonce aad plaintext) CredentialV2Error_Authentication;
    if bool_decide (ciphertext = []) || (CHECKPOINT_MAX_CIPHERTEXT <? blen ciphertext) then Err CredentialV2Error_Size
    else
      octets ← encode_outer side (ca_carrier_ceremony_id carrier) generation expiry nonce ciphertext;
      Ok (mkEndpointCheckpointV2 octets).

Definition open_checkpoint_for (input wrapping_key : bytes) (expected_side : Side) (expected_carrier : CredentialV2Carrier)
    (expected_generation : Z) (purpose : CheckpointPurpose) : credM OpenedCheckpoint :=
  outer ← decode_outer input;
  if negb (bool_decide (ou_side outer = expected_side)) ||
     negb (bool_decide (ou_ceremony outer = ca_carrier_ceremony_id expected_carrier)) ||
     (ou_generation outer =? 0) || negb (ou_generation outer =? expected_generation)
  then Err CredentialV2Error_Profile
  else if match purpose, ou_expiry outer with Purpose_ResumeAt now, Some expiry => expiry <=? now | _, _ => false end
  then Err CredentialV2Error_Expired
  else
    aad ← checkpoint_aad (ou_side outer) (ou_ceremony outer) (ou_generation outer) (ou_expiry outer);
    key ← derive_key (ou_side outer) (ou_ceremony outer) wrapping_key;
    cipher ← v2_cipher_key key;
    plaintext ← ok_or (aead_decrypt cipher (ou_nonce outer) aad (ou_ciphertext outer)) CredentialV2Error_Authentication;
    Ok (mkOpenedCheckpoint plaintext (ou_expiry outer) (ou_nonce outer)).

Definition open_checkpoint_plaintext (input wrapping_key : bytes) (expected_side : Side)
    (expected_carrier : CredentialV2Carrier) (expected_generation now : Z) : credM OpenedCheckpoint :=
  open_checkpoint_for input wrapping_key expected_side expected_carrier expected_generation (Purpose_ResumeAt now).
Definition inspect_checkpoint_plaintext (input wrapping_key : bytes) (expected_carrier : CredentialV2Carrier)
    (expected_generation : Z) : credM OpenedCheckpoint :=
  open_checkpoint_for input wrapping_key Side_Allocator expected_carrier expected_generation Purpose_Inspect.
End Envelope.

(** ** The state of an endpoint *)

Definition ck_phase_number (phase : CredentialV2Phase) : Z :=
  match phase with
  | Phase_Begin => 0 | Phase_Offered => 1 | Phase_IntentApproved => 2 | Phase_Prepared => 3 | Phase_Confirmed => 4
  | Phase_FinalApproved => 5 | Phase_PayloadSent => 6 | Phase_Terminal => 7 | Phase_AccountSelected => 8
  end.
Definition ck_number_phase (value : Z) : credM CredentialV2Phase :=
  match value with
  | 0 => Ok Phase_Begin | 1 => Ok Phase_Offered | 2 => Ok Phase_IntentApproved | 3 => Ok Phase_Prepared
  | 4 => Ok Phase_Confirmed | 5 => Ok Phase_FinalApproved | 6 => Ok Phase_PayloadSent | 7 => Ok Phase_Terminal
  | 8 => Ok Phase_AccountSelected | _ => Err CredentialV2Error_Schema
  end.

Definition append_channel (channel : SecureCredentialV2ChannelSnapshot) : bytes :=
  [ck_side_number (sn_local_side channel)] ++ sn_transcript_hash channel ++ sn_send_key channel ++ sn_receive_key channel ++
  sn_send_iv channel ++ sn_receive_iv channel ++ sn_exporter channel ++ append_counter (sn_next_send_counter channel) ++
  append_counter (sn_next_receive_counter channel) ++ [bool_octet (sn_terminal channel)].

Definition decode_channel : cursorM SecureCredentialV2ChannelSnapshot :=
  octet ← cursor_byte;
  local_side ← lift (ck_number_side octet);
  transcript_hash ← cursor_array 64;
  send_key ← cursor_array 32;
  receive_key ← cursor_array 32;
  send_iv ← cursor_array 12;
  receive_iv ← cursor_array 12;
  exporter ← cursor_array 32;
  next_send_counter ← cursor_counter;
  next_receive_counter ← cursor_counter;
  terminal ← cursor_boolean;
  mret (mkSecureCredentialV2ChannelSnapshot local_side transcript_hash send_key receive_key send_iv receive_iv exporter
          next_send_counter next_receive_counter terminal).

Definition consistent_projection `{Sha256} (phase : CredentialV2Phase) (intent_digest : option bytes)
    (last : option LastObject) : bool :=
  match last with
  | None => bool_decide (phase = Phase_Begin) && bool_decide (intent_digest = None)
  | Some last =>
      let last_is kind intent := bool_decide (lo_kind last = kind) && bool_decide (lo_intent_digest last = intent) in
      match phase, intent_digest with
      | Phase_AccountSelected, None =>
          bool_decide (lo_sender last = Side_Claimant) && last_is Kind_AccountSelect account_select_intent_digest
      | Phase_Offered, Some intent => last_is Kind_Offer intent
      | Phase_IntentApproved, Some intent => last_is Kind_IntentApprove intent
      | Phase_Prepared, Some intent => last_is Kind_Preparation intent
      | Phase_Confirmed, Some intent => last_is Kind_ComparisonConfirmed intent || last_is Kind_BindingConfirmed intent
      | Phase_FinalApproved, Some intent => last_is Kind_FinalApprove intent
      | Phase_PayloadSent, Some intent => last_is Kind_Payload intent
      | Phase_Terminal, Some intent => bool_decide (lo_sender last = Side_Allocator) && last_is Kind_Receipt intent
      | _, _ => false
      end
  end.

Definition validate_checkpoint_phase (side : Side) (phase : CredentialV2Phase) (receipt_released : bool)
    (expiry : option Z) (carrier_expiry now : Z) : credM unit :=
  let unexpired :=
    match expiry with
    | Some value =>
        if (value =? carrier_expiry) && (now <? value) then Ok tt
        else if carrier_expiry <=? now then Err CredentialV2Error_Expired else Err CredentialV2Error_Schema
    | None => Err CredentialV2Error_Schema
    end in
  if bool_decide (phase = Phase_Terminal) && negb (bool_decide (side = Side_Allocator) && receipt_released)
  then Err CredentialV2Error_Terminal
  else
    match side with
    | Side_Allocator => unexpired
    | Side_Claimant =>
        match phase with
        | Phase_PayloadSent => if bool_decide (expiry = None) then Ok tt else Err CredentialV2Error_Schema
        | Phase_FinalApproved => unexpired
        | _ => Err CredentialV2Error_Phase
        end
    end.

Section Endpoint.
Context {B : Type} `{CredentialV2BodyVerifier B, Cbor, UrlParser, Sha256}.

Definition append_optional_frame (frame : option CredentialV2Frame) (append : bytes -> credM bytes) : credM bytes :=
  match frame with
  | Some frame => octets ← encode_frame frame; octets ← append octets; Ok (1 :: octets)
  | None => Ok [0]
  end.

Definition append_relay (relay : CredentialV2RelayState) : credM bytes :=
  cached ← append_optional_frame (rs_cached_outbound relay) append_length_prefixed;
  Ok (rs_membership_token relay ++ [rs_next_local_sequence relay] ++ [rs_next_peer_sequence relay] ++
      [bool_octet (rs_awaiting_ack relay)] ++ cached).

Definition decode_optional_frame (length_prefixed : cursorM bytes) : cursorM (option CredentialV2Frame) :=
  octet ← cursor_byte;
  if octet =? 0 then mret None
  else if octet =? 1 then
    octets ← length_prefixed;
    frame ← lift (decode_frame octets);
    mret (Some frame)
  else throw CredentialV2Error_Schema.

Definition decode_relay : cursorM CredentialV2RelayState :=
  membership_token ← cursor_array 32;
  next_local_sequence ← cursor_byte;
  next_peer_sequence ← cursor_byte;
  awaiting_ack ← cursor_boolean;
  cached_outbound ← decode_optional_frame (byte_length_prefixed CHECKPOINT_MAX_CIPHERTEXT);
  if negb (bool_decide (awaiting_ack = bool_decide (is_Some cached_outbound))) ||
     match cached_outbound with Some frame => bool_decide (frame_sealed frame = None) | None => false end
  then throw CredentialV2Error_Schema
  else mret (mkCredentialV2RelayState membership_token next_local_sequence next_peer_sequence awaiting_ack cached_outbound).

(** The octets of the latest object: not those of a sealed frame that waits. *)
Definition append_last (side : Side) (last : option LastObject) (relay : CredentialV2RelayState) : credM bytes :=
  match last with
  | None => Ok [0]
  | Some last =>
      let omit_outbound_bytes := bool_decide (lo_sender last = side) && bool_decide (is_Some (rs_cached_outbound relay)) in
      octets ← match lo_bytes last with
               | Some octets =>
                   if omit_outbound_bytes then Ok [0] else octets ← append_length_prefixed octets; Ok (1 :: octets)
               | None => Ok [0]
               end;
      Ok ([1; ck_side_number (lo_sender last); kind_number (lo_kind last)] ++ lo_intent_digest last ++
          lo_content_hash last ++ octets)
  end.

Definition decode_last_bytes (kind : CredentialV2Kind) (intent_digest content_hash : bytes) : cursorM (option bytes) :=
  octet ← cursor_byte;
  if octet =? 0 then mret None
  else if octet =? 1 then
    octets ← byte_length_prefixed CHECKPOINT_MAX_CIPHERTEXT;
    object ← lift (decode_object octets);
    if negb (bool_decide (ob_kind object = kind)) || negb (bool_decide (ob_intent_digest object = intent_digest)) ||
       negb (bool_decide (ob_content_hash object = content_hash))
    then throw CredentialV2Error_Schema
    else mret (Some octets)
  else throw CredentialV2Error_Schema.

Definition decode_last : cursorM (option LastObject) :=
  octet ← cursor_byte;
  if octet =? 0 then mret None
  else if octet =? 1 then
    octet ← cursor_byte;
    sender ← lift (ck_number_side octet);
    octet ← cursor_byte;
    kind ← lift (kind_from_number octet);
    intent_digest ← cursor_array 32;
    content_hash ← cursor_array 32;
    octets ← decode_last_bytes kind intent_digest content_hash;
    mret (Some (mkLastObject sender octets kind intent_digest content_hash))
  else throw CredentialV2Error_Schema.

(** [encode_inner]. *)
Definition encode_endpoint (endpoint : CredentialV2Endpoint B) (channel : SecureCredentialV2Channel)
    (relay : CredentialV2RelayState) (generation : Z) (nonce : bytes) : credM bytes :=
  carrier ← encode_carrier (ve_carrier endpoint);
  carrier ← append_length_prefixed carrier;
  last ← append_last (ve_side endpoint) (ve_last endpoint) relay;
  verifier_state ← body_checkpoint_state (ve_body_verifier endpoint);
  verifier_state ← append_length_prefixed verifier_state;
  relay ← append_relay relay;
  Ok (ENDPOINT_INNER_DOMAIN ++ [ck_side_number (ve_side endpoint)] ++ carrier ++ [ck_phase_number (ve_phase endpoint)] ++
      append_optional_fixed (ve_intent_digest endpoint) ++ last ++ verifier_state ++ to_be_bytes 8 generation ++ nonce ++
      append_channel (checkpoint_snapshot channel) ++ relay).

(** [body_verifier.restore_checkpoint_state(..)?] on an owned verifier. *)
Definition restored_verifier (body_verifier : B) (state : bytes) : credM B :=
  match body_restore_checkpoint_state state body_verifier with
  | (b, Ok _) => Ok b
  | (_, Err e) => Err e
  | (_, Panic) => Panic
  end.

(** [decode_inner]. *)
Definition decode_endpoint (expected_side : Side) (expected_carrier : CredentialV2Carrier) (expected_generation : Z)
    (expected_nonce : bytes) (body_verifier : B) :
    cursorM (CredentialV2Endpoint B * SecureCredentialV2Channel * CredentialV2RelayState) :=
  domain ← cursor_take (blen ENDPOINT_INNER_DOMAIN);
  if negb (bool_decide (domain = ENDPOINT_INNER_DOMAIN)) then throw CredentialV2Error_Schema
  else
    octet ← cursor_byte;
    side ← lift (ck_number_side octet);
    carrier_bytes ← byte_length_prefixed CHECKPOINT_MAX_PLAINTEXT;
    carrier ← lift (decode_carrier carrier_bytes);
    if negb (bool_decide (side = expected_side)) || negb (bool_decide (carrier = expected_carrier))
    then throw CredentialV2Error_Profile
    else
      octet ← cursor_byte;
      phase ← lift (ck_number_phase octet);
      intent_digest ← cursor_optional_array 32;
      last ← decode_last;
      verifier_state ← length_prefixed_allow_empty CHECKPOINT_MAX_PLAINTEXT;
      body_verifier ← lift (restored_verifier body_verifier verifier_state);
      generation ← cursor_u64;
      nonce ← cursor_array 12;
      channel ← decode_channel;
      relay ← decode_relay;
      c ← get;
      if negb (cursor_finished c) || negb (generation =? expected_generation) ||
         negb (bool_decide (nonce = expected_nonce)) || negb (bool_decide (sn_local_side channel = side)) ||
         sn_terminal channel ||
         match last with
         | Some last =>
             bool_decide (lo_bytes last = None) &&
             negb (bool_decide (lo_sender last = side) && bool_decide (is_Some (rs_cached_outbound relay)))
         | None => false
         end ||
         negb (consistent_projection phase intent_digest last)
      then throw CredentialV2Error_Schema
      else mret (mkCredentialV2Endpoint side carrier phase intent_digest last body_verifier generation (Some nonce),
                 restore_snapshot channel, relay).

(** ** Sealing and restoring an endpoint *)

Context `{HkdfSalted, Aead}.

Definition set_v2_checkpoint (generation : Z) (nonce : bytes) (e : CredentialV2Endpoint B) : CredentialV2Endpoint B :=
  mkCredentialV2Endpoint (ve_side e) (ve_carrier e) (ve_phase e) (ve_intent_digest e) (ve_last e) (ve_body_verifier e)
    generation (Some nonce).

Definition endpoint_seal_checkpoint (channel : SecureCredentialV2Channel) (relay : CredentialV2RelayState)
    (wrapping_key : bytes) (generation : Z) (expiry : option Z) (nonce : bytes) (now : Z) :
    stM (CredentialV2Endpoint B) CredentialV2Error EndpointCheckpointV2 :=
  e ← get;
  if negb (bool_decide (c2_local_side channel = ve_side e)) then throw CredentialV2Error_Direction
  else
    _ ← lift (validate_checkpoint_phase (ve_side e) (ve_phase e) (receipt_released e) expiry
                (ca_relay_expires_at (ve_carrier e)) now);
    if (generation =? 0) || negb (generation =? saturating_add u64_max (ve_checkpoint_generation e) 1) ||
       bool_decide (ve_checkpoint_nonce e = Some nonce)
    then throw CredentialV2Error_Counter
    else
      plaintext ← lift (encode_endpoint e channel relay generation nonce);
      checkpoint ← lift (seal_checkpoint_plaintext plaintext (ve_side e) (ve_carrier e) wrapping_key generation expiry nonce);
      _ ← modify (set_v2_checkpoint generation nonce);
      mret checkpoint.

(** The restored aggregate is the triple of its parts. *)
Definition endpoint_restore_checkpoint (input wrapping_key : bytes) (expected_side : Side)
    (expected_carrier : CredentialV2Carrier) (expected_generation now : Z) (body_verifier : B) :
    credM (CredentialV2Endpoint B * SecureCredentialV2Channel * CredentialV2RelayState) :=
  opened ← open_checkpoint_plaintext input wrapping_key expected_side expected_carrier expected_generation now;
  '(endpoint, channel, relay) ←
    (decode_endpoint expected_side expected_carrier expected_generation (oc_nonce opened) body_verifier
       (Cursor_new (oc_plaintext opened))).2;
  _ ← validate_checkpoint_phase (ve_side endpoint) (ve_phase endpoint) (receipt_released endpoint) (oc_expiry opened)
        (ca_relay_expires_at (ve_carrier endpoint)) now;
  Ok (endpoint, channel, relay).

Definition inspect_allocator_endpoint (input wrapping_key : bytes) (carrier : CredentialV2Carrier) (generation : Z)
    (body_verifier : B) : credM (CredentialV2Endpoint B * SecureCredentialV2Channel * CredentialV2RelayState) :=
  opened ← inspect_checkpoint_plaintext input wrapping_key carrier generation;
  '(endpoint, channel, relay) ←
    (decode_endpoint Side_Allocator carrier generation (oc_nonce opened) body_verifier (Cursor_new (oc_plaintext opened))).2;
  if bool_decide (ve_phase endpoint = Phase_Terminal) && negb (receipt_released endpoint) then Err CredentialV2Error_Terminal
  else if negb (bool_decide (oc_expiry opened = Some (ca_relay_expires_at carrier))) then Err CredentialV2Error_Schema
  else Ok (endpoint, channel, relay).
End Endpoint.
