(* ===== verification/CredCheckpointThms.v ===== *)
(** * Checkpoints restore exactly *)

From S2P Require Import Prelude External Wire Cddl WireCodec WireLaws Context Channel CredCore CredFrame CredDisplay CredCarrier CredContext CredChannel CredEndpoint CredStory CredBytes CredCheckpoint.

(** ** The envelope *)

(** Array sizes and integer widths. *)
Record outer_typed (o : Outer) : Prop := {
  ot_ceremony : length (ou_ceremony o) = 32%nat;
  ot_generation : 0 <= ou_generation o <= u64_max;
  ot_expiry : match ou_expiry o with Some value => 0 <= value <= u64_max | None => True end;
  ot_nonce : length (ou_nonce o) = 12%nat;
  ot_ciphertext : 0 < blen (ou_ciphertext o) <= CHECKPOINT_MAX_CIPHERTEXT
}.

Lemma blen_positive (b : bytes) : 0 < blen b <-> b <> [].
Proof. destruct b; unfold blen; simpl; [naive_solver lia|split; [done|lia]]. Qed.

Lemma text_is_ok v s : text_is v s = true <-> v = VText s.
Proof. unfold text_is. destruct v; try naive_solver. rewrite bool_decide_eq_true. naive_solver. Qed.
Lemma checkpoint_integer_ok v z : checkpoint_integer v = Ok z <-> v = VInteger z /\ 0 <= z <= u64_max.
Proof. unfold checkpoint_integer. destruct v; simpl; rewrite ?ok_or_ok, ?try_into_some; naive_solver. Qed.
Lemma text_side_ok v side : text_side v = Ok side <-> v = VText (side_text side).
Proof.
  unfold text_side. destruct v; try (split; [done|intros [=]]). repeat case_bool_decide; subst; destruct side; naive_solver.
Qed.
Lemma expiry_ok v e : match v with VNull => Ok None | _ => value ← checkpoint_integer v; Ok (Some value) end = Ok e <->
  v = expiry_or_null e /\ match e with Some value => 0 <= value <= u64_max | None => True end.
Proof.
  assert (forall w, (value ← checkpoint_integer w; Ok (Some value)) = Ok e <->
    exists z, e = Some z /\ w = VInteger z /\ 0 <= z <= u64_max) as Hw.
  { intros w. rewrite bind_ok. setoid_rewrite checkpoint_integer_ok. naive_solver. }
  destruct v; rewrite ?Hw; destruct e; simpl; naive_solver.
Qed.

Lemma aad_members_plain side ceremony generation expiry : 0 <= generation <= u64_max ->
  match expiry with Some value => 0 <= value <= u64_max | None => True end ->
  forallb plain (aad_members side ceremony generation expiry) = true.
Proof.
  intros Hg He. unfold aad_members. cbn [forallb plain]. rewrite !andb_true_iff, !Z.leb_le. unfold u64_max in *.
  repeat (split; [first [done|lia]|]). destruct expiry; cbn [expiry_or_null plain]; rewrite ?andb_true_iff, ?Z.leb_le; intuition lia.
Qed.

Section Envelope.
Context `{Cbor, !CborLaws}.

Lemma outer_inverse b o : decode_outer b = Ok o <->
  outer_typed o /\ encode_outer (ou_side o) (ou_ceremony o) (ou_generation o) (ou_expiry o) (ou_nonce o) (ou_ciphertext o) = Ok b.
Proof.
  unfold decode_outer, encode_outer. split.
  - intros (v & (_ & Hv & _)%decode_canonical_ok & Hd)%bind_ok. destruct v as [| | | | | | |l|]; try done.
    do 10 (destruct l as [|? l]; try done). destruct (negb _) eqn:E in Hd; [done|]. apply negb_false_iff, text_is_ok in E as ->.
    apply bind_ok in Hd as (version & [-> _]%checkpoint_integer_ok & Hd).
    destruct (_ || _) eqn:E in Hd; [done|]. apply orb_false_iff in E as [->%negb_false_iff%Z.eqb_eq ->%negb_false_iff%text_is_ok].
    apply bind_ok in Hd as (side & ->%text_side_ok & (ceremony & [-> Hc]%v2_fixed_bytes_ok & Hd)%bind_ok).
    apply bind_ok in Hd as (generation & [-> Hg]%checkpoint_integer_ok & Hd).
    apply bind_ok in Hd as (expiry & [-> He]%expiry_ok & (nonce & [-> Hn]%v2_fixed_bytes_ok & Hd)%bind_ok).
    apply bind_ok in Hd as (ciphertext & Hct & Hd). destruct (_ || _) eqn:E in Hd; [done|]. injection Hd as <-. bool_to_prop.
    match goal with H : v2_as_bytes ?v = _ |- _ => destruct v; try done; injection H as -> end.
    split; [|by apply ok_or_ok]. split; try done. split; [by apply blen_positive|done].
  - intros [[Hc Hg He Hn Hct] Hw%ok_or_ok]. destruct o as [side ceremony generation expiry nonce ciphertext]. simpl in *.
    assert (plain (VArray (aad_members side ceremony generation expiry ++ [VBytes nonce; VBytes ciphertext])) = true) as Hpl.
    { cbn [plain]. by rewrite forallb_app, aad_members_plain. }
    rewrite (decode_plain _ _ Hpl Hw), ok_bind. unfold aad_members. cbn [app]. rewrite (proj2 (text_is_ok _ _)) by done. cbn [negb].
    assert (checkpoint_integer (VInteger 2) = Ok 2) as -> by done. rewrite ok_bind, (proj2 (text_is_ok (VText _) _)) by done.
    change (2 =? 2) with true. cbn [negb orb]. rewrite (proj2 (text_side_ok _ _) eq_refl), ok_bind.
    rewrite (proj2 (v2_fixed_bytes_ok 32 _ ceremony)), ok_bind by done.
    rewrite (proj2 (checkpoint_integer_ok (VInteger generation) generation)), ok_bind by by split.
    rewrite (proj2 (expiry_ok _ expiry)), ok_bind by by split. rewrite (proj2 (v2_fixed_bytes_ok 12 _ nonce)), ok_bind by done.
    cbn [v2_as_bytes]. rewrite ok_bind. destruct (_ || _) eqn:E; [|done]. exfalso.
    apply orb_true_iff in E as [E|E]; bool_to_prop; [|lia]. destruct Hct as [Hct _]. by apply blen_positive in Hct.
Qed.

Context `{HkdfSalted, !HkdfSaltedLaws, Aead, !AeadLaws}.

(** What sealing does, and what its outcome opens to. *)
Lemma seal_plaintext_ok plaintext side carrier key generation expiry nonce ck :
  seal_checkpoint_plaintext plaintext side carrier key generation expiry nonce = Ok ck ->
  0 < blen plaintext <= CHECKPOINT_MAX_PLAINTEXT /\
  exists aad cipher ct, checkpoint_aad side (ca_carrier_ceremony_id carrier) generation expiry = Ok aad /\
    derive_key side (ca_carrier_ceremony_id carrier) key ≫= v2_cipher_key = Ok cipher /\
    aead_encrypt cipher nonce aad plaintext = Some ct /\ 0 < blen ct <= CHECKPOINT_MAX_CIPHERTEXT /\
    encode_outer side (ca_carrier_ceremony_id carrier) generation expiry nonce ct = Ok (ec_bytes ck).
Proof.
  unfold seal_checkpoint_plaintext. destruct (_ || _) eqn:E; [done|]. intros (aad & Ha & (k & Hk & (c & Hc & Hs)%bind_ok)%bind_ok)%bind_ok.
  apply bind_ok in Hs as (ct & Hct%ok_or_ok & Hs). destruct (bool_decide (ct = []) || _) eqn:E'; [done|].
  apply bind_ok in Hs as (octets & Ho & [= <-]). bool_to_prop. split; [split; [by apply blen_positive|done]|].
  exists aad, c, ct. split_and!; try done; [by rewrite Hk|by apply blen_positive].
Qed.

(** The expiry that lets a purpose pass. *)
Definition live_for (purpose : CheckpointPurpose) (expiry : option Z) : Prop :=
  match purpose, expiry with Purpose_ResumeAt now, Some expiry => now < expiry | _, _ => True end.

(** A sealed plaintext opens for its side, ceremony and generation, before its
    expiry, and in no other case. *)
Lemma sealed_opens plaintext side carrier key generation expiry nonce ck side' carrier' generation' purpose opened :
  length (ca_carrier_ceremony_id carrier) = 32%nat -> 0 < generation <= u64_max ->
  match expiry with Some value => 0 <= value <= u64_max | None => True end -> length nonce = 12%nat ->
  seal_checkpoint_plaintext plaintext side carrier key generation expiry nonce = Ok ck ->
  open_checkpoint_for (ec_bytes ck) key side' carrier' generation' purpose = Ok opened <->
  side' = side /\ ca_carrier_ceremony_id carrier' = ca_carrier_ceremony_id carrier /\ generation' = generation /\
  live_for purpose expiry /\ opened = mkOpenedCheckpoint plaintext expiry nonce.
Proof.
  intros Hc Hg He Hn (Hpl & aad & cipher & ct & Ha & Hk & Hct & Hl & Ho)%seal_plaintext_ok.
  unfold open_checkpoint_for. rewrite (proj2 (outer_inverse _ (mkOuter side (ca_carrier_ceremony_id carrier) generation expiry nonce ct))).
  2: { split; [by split; simpl; try lia|exact Ho]. }
  rewrite ok_bind. cbn [ou_side ou_ceremony ou_generation ou_expiry ou_nonce ou_ciphertext].
  destruct (_ || _) eqn:E; [|destruct (match purpose with Purpose_ResumeAt _ => _ | Purpose_Inspect => _ end) eqn:El].
  - split; [done|]. intros (-> & Hcc & -> & _). rewrite Hcc, !bool_decide_eq_true_2, Z.eqb_refl in E by done. cbn [negb orb] in E.
    rewrite orb_false_r in E. bool_to_prop. lia.
  - split; [done|]. intros (_ & _ & _ & Hlive & _). destruct purpose, expiry; cbn [live_for] in Hlive; try done. bool_to_prop. lia.
  - rewrite Ha, ok_bind. apply bind_ok in Hk as (k & -> & Hk). rewrite ok_bind, Hk, ok_bind, (decrypt_encrypt _ _ _ _ _ Hct).
    cbn [ok_or]. rewrite ok_bind. bool_to_prop.
    assert (live_for purpose expiry) by (destruct purpose, expiry; cbn [live_for]; try done; by apply Z.leb_gt).
    split; [intros [= <-]; subst; by split_and!|]. by intros (_ & _ & _ & _ & ->).
Qed.
End Envelope.

(** ** The state of an endpoint *)

Lemma number_side_inv side : ck_number_side (ck_side_number side) = Ok side.
Proof. by destruct side. Qed.
Lemma number_phase_inv phase : ck_number_phase (ck_phase_number phase) = Ok phase.
Proof. by destruct phase. Qed.

(** An octet, then the rest. *)
Lemma byte_then {B} z (k : Z -> cursorM B) y b : reads y (k z) b -> reads (z :: y) (cursor_byte ≫= k) b.
Proof. apply (reads_bind [z] y), byte_reads. Qed.
Lemma byte_then_rest {B} z (k : Z -> cursorM B) y r : reads_rest y (k z) r -> reads_rest (z :: y) (cursor_byte ≫= k) r.
Proof. apply (reads_rest_bind [z] y), byte_reads. Qed.
(** An octet that stands for a value. *)
Lemma octet_reads {A B} (f : Z -> credM A) z a (k : A -> cursorM B) y b : f z = Ok a -> reads y (k a) b ->
  reads (z :: y) (octet ← cursor_byte; value ← lift (f octet); k value) b.
Proof. intros Hf Hk. apply byte_then. eapply (reads_bind [] y); [by apply reads_lift|done]. Qed.
Lemma octet_reads_rest {A B} (f : Z -> credM A) z a (k : A -> cursorM B) y r : f z = Ok a -> reads_rest y (k a) r ->
  reads_rest (z :: y) (octet ← cursor_byte; value ← lift (f octet); k value) r.
Proof. intros Hf Hk. apply byte_then_rest. by eapply reads_rest_lift. Qed.

(** Array sizes and counters of a channel, exporter included. *)
Definition stored_channel (c : SecureCredentialV2Channel) : Prop := v2_channel_ok c /\ length (c2_exporter c) = 32%nat.

Lemma channel_reads c : stored_channel c -> reads (append_channel (checkpoint_snapshot c)) decode_channel (checkpoint_snapshot c).
Proof.
  intros [[Hsk Hrk Hsi Hri Hth Hsc Hrc] He]. unfold append_channel, decode_channel. cbn [app].
  apply octet_reads with (a := c2_local_side c); [apply number_side_inv|].
  do 6 (eapply reads_bind; [by apply array_reads|cbv beta]). do 2 (eapply reads_bind; [by apply counter_reads|cbv beta]).
  eapply reads_bind_nil; [apply boolean_reads|]. destruct c. apply reads_ret.
Qed.

(** A membership whose cached frame is the sealed one that waits. *)
Record stored_relay (r : CredentialV2RelayState) : Prop := {
  sr_token : length (rs_membership_token r) = 32%nat;
  sr_awaiting : rs_awaiting_ack r = bool_decide (is_Some (rs_cached_outbound r));
  sr_cached f : rs_cached_outbound r = Some f -> frame_sealed f <> None /\ frame_typed f
}.

Section State.
Context `{Cbor, !CborLaws, !CborIntLaws}.

Lemma frame_nonempty f octets : encode_frame f = Ok octets -> octets <> [].
Proof. unfold encode_frame. intros (es & _ & Hw%ok_or_ok)%bind_ok ->. by apply written_nonempty in Hw. Qed.

Lemma optional_frame_reads append prefixed f out : match f with Some f => frame_typed f | None => True end ->
  append_optional_frame f append = Ok out ->
  (forall fr octets o, f = Some fr -> out = 1 :: o -> octets <> [] -> append octets = Ok o -> reads o prefixed octets) ->
  reads out (decode_optional_frame prefixed) f.
Proof.
  intros Hty Ha Hr. unfold append_optional_frame in Ha. unfold decode_optional_frame. destruct f as [f|].
  - apply bind_ok in Ha as (octets & He & (o & Ho & [= <-])%bind_ok). apply byte_then.
    cbn [Z.eqb Pos.eqb]. eapply reads_bind_nil; [eapply Hr; try done; by eapply frame_nonempty|cbv beta].
    apply (reads_bind [] []) with (a := f); [by apply reads_lift, frame_inverse|]. apply reads_ret.
  - injection Ha as <-. apply byte_then, reads_ret.
Qed.

Lemma prefixed_reads maximum octets o : octets <> [] -> append_length_prefixed octets = Ok o -> blen o <= maximum ->
  reads o (byte_length_prefixed maximum) octets.
Proof.
  intros Hne [Hl ->]%append_length_prefixed_ok Hb. rewrite blen_app in Hb. apply blen_positive in Hne.
  pose proof (blen_nonneg (to_be_bytes 4 (blen octets))). apply byte_length_prefixed_reads; lia.
Qed.

Lemma relay_reads r out : stored_relay r -> append_relay r = Ok out -> blen out <= CHECKPOINT_MAX_CIPHERTEXT ->
  reads out decode_relay r.
Proof.
  intros [Ht Haw Hc] Ha Hb. unfold append_relay in Ha. apply bind_ok in Ha as (cached & Hca & [= <-]). unfold decode_relay.
  eapply reads_bind; [by apply array_reads|cbv beta]. do 2 apply byte_then. eapply (reads_bind [_]); [apply boolean_reads|cbv beta].
  eapply reads_bind_nil.
  - eapply optional_frame_reads with (f := rs_cached_outbound r); [|exact Hca|].
    + destruct (rs_cached_outbound r) as [f|]; [by apply Hc|done].
    + intros fr octets o Hf -> Hne Ho. apply prefixed_reads; [done..|]. octet_lengths.
  - cbv beta. rewrite bool_decide_eq_true_2 by done. destruct r as [tok nl np aw [f|]]; cbn in *.
    + destruct (Hc f eq_refl). rewrite bool_decide_eq_false_2 by done. apply reads_ret.
    + apply reads_ret.
Qed.

(** A latest object whose retained octets are those of an object with its
    fields. *)
Record stored_last `{Sha256} (l : LastObject) : Prop := {
  sl_intent : length (lo_intent_digest l) = 32%nat;
  sl_hash : length (lo_content_hash l) = 32%nat;
  sl_bytes octets : lo_bytes l = Some octets -> exists o, decode_object octets = Ok o /\
    ob_kind o = lo_kind l /\ ob_intent_digest o = lo_intent_digest l /\ ob_content_hash o = lo_content_hash l
}.
(** What a checkpoint keeps of the latest object. *)
Definition kept_last (side : Side) (relay : CredentialV2RelayState) (l : LastObject) : LastObject :=
  if bool_decide (lo_sender l = side) && bool_decide (is_Some (rs_cached_outbound relay))
  then mkLastObject (lo_sender l) None (lo_kind l) (lo_intent_digest l) (lo_content_hash l) else l.

Lemma object_nonempty `{Sha256} octets o : decode_object octets = Ok o -> octets <> [].
Proof.
  intros (_ & Hnew & Hb)%object_inverse ->. apply object_new_ok in Hnew as (_ & w & Hw & Ho).
  rewrite Ho in Hb. cbn in Hb. subst w. by apply written_nonempty in Hw.
Qed.

Lemma last_bytes_reads `{Sha256} l octets o : stored_last l -> lo_bytes l = Some octets -> append_length_prefixed octets = Ok o ->
  blen o <= CHECKPOINT_MAX_CIPHERTEXT ->
  reads (1 :: o) (decode_last_bytes (lo_kind l) (lo_intent_digest l) (lo_content_hash l)) (Some octets).
Proof.
  intros [_ _ Hl] Hb Ho Hlen. destruct (Hl _ Hb) as (ob & Hd & <- & <- & <-). apply byte_then. cbn [Z.eqb Pos.eqb].
  eapply reads_bind_nil; [apply prefixed_reads; [by eapply object_nonempty|done..]|cbv beta].
  apply (reads_bind [] []) with (a := ob); [by apply reads_lift|]. rewrite !bool_decide_eq_true_2 by done. apply reads_ret.
Qed.

Lemma no_bytes_reads `{Sha256} k i h : reads [0] (decode_last_bytes k i h) None.
Proof. apply byte_then, reads_ret. Qed.

Lemma last_reads `{Sha256} side last r out : match last with Some l => stored_last l | None => True end ->
  append_last side last r = Ok out -> blen out <= CHECKPOINT_MAX_CIPHERTEXT ->
  reads out decode_last (kept_last side r <$> last).
Proof.
  intros Hl Ha Hlen. unfold append_last in Ha. unfold decode_last. destruct last as [l|]; [|injection Ha as <-; apply byte_then, reads_ret].
  apply bind_ok in Ha as (o & Ho & Heq). injection Heq as <-. cbn [app fmap option_fmap option_map] in *.
  apply byte_then. cbn [Z.eqb Pos.eqb].
  apply octet_reads with (a := lo_sender l); [apply number_side_inv|].
  apply octet_reads with (a := lo_kind l); [apply kind_number_inv|]. 
  eapply reads_bind; [apply array_reads, Hl|cbv beta]. eapply reads_bind; [apply array_reads, Hl|cbv beta].
  unfold kept_last. destruct (lo_bytes l) as [octets|] eqn:Hbytes.
  - destruct (_ && _).
    + injection Ho as <-. eapply reads_bind_nil; [apply no_bytes_reads|apply reads_ret].
    + apply bind_ok in Ho as (o' & Ho' & [= <-]). eapply reads_bind_nil.
      * apply last_bytes_reads; [done..|]. octet_lengths.
      * cbv beta. rewrite <- Hbytes. destruct l. apply reads_ret.
  - injection Ho as <-. eapply reads_bind_nil; [apply no_bytes_reads|]. destruct l. cbn in *. subst. destruct (_ && _); apply reads_ret.
Qed.

Context {B : Type} `{CredentialV2BodyVerifier B, Sha256, UrlParser}.

(** An endpoint whose checkpoint can be read back. *)
Record storable (e : CredentialV2Endpoint B) : Prop := {
  so_carrier : carrier_typed (ve_carrier e);
  so_intent : match ve_intent_digest e with Some i => length i = 32%nat | None => True end;
  so_last : match ve_last e with Some l => stored_last l | None => True end;
  so_consistent : consistent_projection (ve_phase e) (ve_intent_digest e) (ve_last e) = true
}.

(** The endpoint as its checkpoint keeps it, with a verifier. *)
Definition kept_endpoint (relay : CredentialV2RelayState) (b : B) (generation : Z) (nonce : bytes) (e : CredentialV2Endpoint B) :
    CredentialV2Endpoint B :=
  mkCredentialV2Endpoint (ve_side e) (ve_carrier e) (ve_phase e) (ve_intent_digest e)
    (kept_last (ve_side e) relay <$> ve_last e) b generation (Some nonce).

Lemma kept_consistent side relay phase intent last :
  consistent_projection phase intent (kept_last side relay <$> last) = consistent_projection phase intent last.
Proof. destruct last as [l|]; [|done]. cbn [fmap option_fmap option_map]. unfold kept_last. by destruct (bool_decide (lo_sender l = side) && _). Qed.

Lemma carrier_nonempty c octets : encode_carrier c = Ok octets -> octets <> [].
Proof. unfold encode_carrier. intros (? & _ & (? & _ & Hw%ok_or_ok)%bind_ok)%bind_ok ->. by apply written_nonempty in Hw. Qed.

(** An endpoint without the octets of its latest object, though no sealed
    frame stands for them. *)
Definition stranded (e : CredentialV2Endpoint B) (rl : CredentialV2RelayState) : bool :=
  match ve_last e with
  | Some l => bool_decide (lo_bytes l = None) &&
      negb (bool_decide (lo_sender l = ve_side e) && bool_decide (is_Some (rs_cached_outbound rl)))
  | None => false
  end.

(** What [decode_endpoint] makes of the octets [encode_endpoint] wrote. *)
Lemma endpoint_reads e ch rl generation nonce plaintext b b' :
  storable e -> stored_channel ch -> c2_local_side ch = ve_side e -> c2_terminal ch = false -> stored_relay rl ->
  0 <= generation <= u64_max -> length nonce = 12%nat -> blen plaintext <= CHECKPOINT_MAX_PLAINTEXT ->
  encode_endpoint e ch rl generation nonce = Ok plaintext ->
  body_checkpoint_state (ve_body_verifier e) ≫= restored_verifier b = Ok b' ->
  (decode_endpoint (ve_side e) (ve_carrier e) generation nonce b (Cursor_new plaintext)).2 =
    if stranded e rl then Err CredentialV2Error_Schema else Ok (kept_endpoint rl b' generation nonce e, ch, rl).
Proof.
  intros [Hcar Hint Hlast Hcons] Hch Hside Hterm Hrl Hg Hn Hlen Henc Hver. unfold encode_endpoint in Henc.
  apply bind_ok in Henc as (cb & Hcb & (cw & Hcw & (lw & Hlw & (st & Hst & Henc)%bind_ok)%bind_ok)%bind_ok).
  apply bind_ok in Henc as (sw & Hsw & (rw & Hrw & Heq)%bind_ok). rewrite Hst, ok_bind in Hver.
  assert (plaintext = ENDPOINT_INNER_DOMAIN ++ (ck_side_number (ve_side e) :: cw ++ ck_phase_number (ve_phase e) ::
    append_optional_fixed (ve_intent_digest e) ++ lw ++ sw ++ to_be_bytes 8 generation ++ nonce ++
    append_channel (checkpoint_snapshot ch) ++ rw)) as -> by (by injection Heq as <-). clear Heq.
  assert (CHECKPOINT_MAX_PLAINTEXT <= CHECKPOINT_MAX_CIPHERTEXT) as Hmax by done.
  apply reads_rest_run; [|by etrans]. unfold decode_endpoint.
  eapply reads_rest_bind; [apply take_reads|cbv beta]. rewrite bool_decide_eq_true_2 by done. cbn [negb].
  apply octet_reads_rest with (a := ve_side e); [apply number_side_inv|].
  eapply reads_rest_bind; [apply prefixed_reads; [by eapply carrier_nonempty|done|octet_lengths]|cbv beta].
  eapply reads_rest_lift; [by apply carrier_inverse|]. rewrite !bool_decide_eq_true_2 by done. cbn [negb orb].
  apply octet_reads_rest with (a := ve_phase e); [apply number_phase_inv|].
  eapply reads_rest_bind; [by apply optional_array_reads|cbv beta].
  eapply reads_rest_bind; [apply last_reads; [done|exact Hlw|octet_lengths]|cbv beta].
  apply append_length_prefixed_ok in Hsw as [Hsl ->].
  eapply reads_rest_bind; [apply allow_empty_reads; [octet_lengths|done]|cbv beta].
  eapply reads_rest_lift; [exact Hver|].
  eapply reads_rest_bind; [by apply u64_reads|cbv beta]. eapply reads_rest_bind; [by apply array_reads|cbv beta].
  eapply reads_rest_bind; [by apply channel_reads|cbv beta].
  rewrite <- (app_nil_r rw). eapply reads_rest_bind; [apply relay_reads; [done|exact Hrw|octet_lengths]|cbv beta].
  apply reads_rest_finished. intros c ->. exists c. rewrite Z.eqb_refl, !bool_decide_eq_true_2 by done. cbn [negb orb].
  cbn [sn_terminal checkpoint_snapshot]. rewrite Hterm, kept_consistent, Hcons. cbn [negb orb]. rewrite orb_false_r.
  replace (match kept_last (ve_side e) rl <$> ve_last e with Some _ => _ | None => _ end) with (stranded e rl).
  - destruct (stranded e rl); [done|]. unfold mret, stM_ret, kept_endpoint. by destruct ch.
  - unfold stranded. destruct (ve_last e) as [l|]; [|done]. cbn [fmap option_fmap option_map]. unfold kept_last.
    destruct (bool_decide (lo_sender l = ve_side e) && _) eqn:E; cbn [lo_bytes lo_sender]; rewrite E; cbn [negb]; [by rewrite !andb_false_r|done].
Qed.
End State.
