(* ===== verification/CredCheckpointProps.v ===== *)
(** * Properties of the endpoint's checkpoints *)

From S2P Require Import Prelude External Instances Wire Cddl WireCodec WireLaws Context Channel CredCore CredFrame CredDisplay CredCarrier CredContext CredProps CredChannel CredEndpoint CredStory CredCeremony CredEndpointProps CredBytes CredCheckpoint CredCheckpointThms.

Section Stored.
Context {B : Type} `{CredentialV2BodyVerifier B, Cbor, !CborLaws, !CborIntLaws, UrlParser, Sha256, !Sha256Laws}.

Lemma genuine_stored (x : entry) : genuine x.2 -> stored_last (last_entry x).
Proof.
  intros Hg. pose proof (genuine_hash _ Hg) as Hh. pose proof Hg as (Hi & _)%object_inverse. split; cbn; [done|rewrite Hh; apply sha256_len|].
  intros octets [= <-]. by exists x.2.
Qed.

(** What a transcript's last object is, by its phase. *)
Lemma transcript_consistent carrier phase i log : transcript carrier phase i log ->
  (phase = Phase_Terminal -> match head log with Some x => x.1 = Side_Allocator /\ ob_kind x.2 = Kind_Receipt | None => False end) ->
  consistent_projection phase i (last_entry <$> head log) = true.
Proof.
  intros Ht Hend. destruct Ht as [|o s Hs|ph log o Ht Hk|ph i s prev log sender o next l Ht Hs]; cbn -[account_select_intent_digest] in *.
  - done.
  - unfold recognise_account_select in Hs. destruct (_ || _) eqn:E; [done|].
    apply orb_false_iff in E as [Hk%negb_false_iff Hi%negb_false_iff]. by rewrite Hk, Hi.
  - by rewrite Hk, !bool_decide_eq_true_2.
  - pose proof (next_phase_inv _ _ _ (su_next _ _ _ _ _ _ _ _ Hs)) as Hinv. rewrite (su_intent _ _ _ _ _ _ _ _ Hs).
    destruct next; try done; try (destruct Hinv as [_ Hk]; rewrite ?Hk, ?bool_decide_eq_true_2 by done; try done).
    + rewrite (bool_decide_eq_true_2 (i = i)) by done. by destruct Hk as [-> | ->].
    + destruct (Hend eq_refl) as [Hsd Hk]. by rewrite Hsd, Hk, !bool_decide_eq_true_2.
Qed.

Lemma transcript_intent_head carrier phase i log : transcript carrier phase (Some i) log -> exists x, head log = Some x /\ ob_intent_digest x.2 = i.
Proof.
  inversion 1 as [| |ph log' o Ht Hk|ph i' s prev log' sender o next l Ht Hs]; subst; eexists; split; try done.
  by apply (su_intent _ _ _ _ _ _ _ _ Hs).
Qed.

Lemma story_storable carrier side (e : CredentialV2Endpoint B) phase log : story carrier side e phase log ->
  Forall (fun x => genuine x.2) log -> carrier_typed carrier -> (ve_phase e = Phase_Terminal -> receipt_released e = true) -> storable e.
Proof.
  intros [Hc Hs Ht Hp Hl] Hg Hty Hend. split; [by rewrite Hc|..].
  - destruct (ve_intent_digest e) as [i|] eqn:Hi; [|done]. apply transcript_intent_head in Ht as (x & Hx & <-).
    assert (genuine x.2) as (Hlen & _)%object_inverse; [|done]. destruct log; [done|]. injection Hx as ->. by inv Hg.
  - rewrite Hl. destruct log as [|x log]; [done|]. inv Hg. by apply genuine_stored.
  - assert (ve_phase e = phase) as ->.
    { destruct Hp as [|Hp]; [done|]. specialize (Hend Hp). unfold receipt_released in Hend. rewrite Hl in Hend.
      destruct log as [|x log]; [by rewrite andb_false_r in Hend|]. cbn in Hend. rewrite !andb_true_iff in Hend.
      destruct Hend as (_ & _ & Hk%bool_decide_eq_true).
      inversion Ht as [|o s Hr|ph log' o Ht' Hk'|ph i' s prev log' sender o next l Ht' Hs']; subst; cbn in Hk.
      + apply recognised_select in Hr. congruence.
      + congruence.
      + pose proof (next_phase_inv _ _ _ (su_next _ _ _ _ _ _ _ _ Hs')) as Hinv. rewrite Hk in Hinv.
        destruct phase; try done; destruct Hinv as [_ Hinv]; try congruence. by destruct Hinv. }
    rewrite Hl. eapply transcript_consistent; [done|]. intros ->.
    assert (receipt_released e = true) as Hr by (apply Hend; by destruct Hp).
    unfold receipt_released in Hr. rewrite Hl in Hr. destruct (head log) as [x|]; [|by rewrite andb_false_r in Hr].
    cbn in Hr. rewrite !andb_true_iff, !bool_decide_eq_true in Hr. naive_solver.
Qed.
End Stored.

(** ** Endpoints that differ in the retained octets only *)

Section Resumed.
Context {B : Type} `{CredentialV2BodyVerifier B, Cbor, Sha256}.
Implicit Types e : CredentialV2Endpoint B.

Definition without_bytes (l : LastObject) : LastObject :=
  mkLastObject (lo_sender l) None (lo_kind l) (lo_intent_digest l) (lo_content_hash l).
Definition forgets (e e' : CredentialV2Endpoint B) : Prop :=
  e' = e \/ exists l, ve_last e = Some l /\ e' = set_v2_last (Some (without_bytes l)) e.

(** Equal answers, and states that stay related. *)
Definition alike {A} (r r' : CredentialV2Endpoint B * credM A) : Prop := r.2 = r'.2 /\ forgets r.1 r'.1.

Lemma forgets_refl e : forgets e e.
Proof. by left. Qed.
Lemma alike_refl {A} (r : CredentialV2Endpoint B * credM A) : alike r r.
Proof. split; [done|apply forgets_refl]. Qed.
Lemma alike_both {A} e e' (r : credM A) : forgets e e' -> alike (e, r) (e', r).
Proof. by split. Qed.

Lemma alike_bind {A A'} (m : stM (CredentialV2Endpoint B) CredentialV2Error A) (k k' : A -> stM (CredentialV2Endpoint B) CredentialV2Error A') e e' :
  alike (m e) (m e') -> (forall a e1 e1', forgets e1 e1' -> alike (k a e1) (k' a e1')) -> alike ((m ≫= k) e) ((m ≫= k') e').
Proof.
  unfold alike at 1, mbind, stM_bind. intros [Hr Hf] Hk. destruct (m e) as [e1 r], (m e') as [e1' r']. cbn in *. subst r'.
  destruct r as [a|err|]; [by apply Hk|by apply alike_both..].
Qed.

Lemma forgets_map (f : CredentialV2Endpoint B -> CredentialV2Endpoint B) e e' :
  (forall e, ve_last (f e) = ve_last e) -> (forall l e, f (set_v2_last l e) = set_v2_last l (f e)) ->
  forgets e e' -> forgets (f e) (f e').
Proof. intros Hl Hf [-> |(l & He & ->)]; [by left|]. right. exists l. by rewrite Hl, Hf. Qed.

Lemma fail_alike {A} error e e' : forgets e e' -> alike (A := A) (v2_fail error e) (v2_fail error e').
Proof. intros Hf. apply alike_both. by apply (forgets_map (set_v2_phase Phase_Terminal)). Qed.
Lemma or_fail_alike {A} (r : credM A) e e' : forgets e e' -> alike (or_fail r e) (or_fail r e').
Proof. intros Hf. destruct r; [by apply alike_both|by apply fail_alike|by apply alike_both]. Qed.
Lemma verify_alike l e e' : forgets e e' -> alike (verify_body l e) (verify_body l e').
Proof.
  intros Hf. assert (ve_body_verifier e' = ve_body_verifier e) as Hb by (by destruct Hf as [-> |(x & _ & ->)]).
  unfold verify_body. rewrite Hb. destruct (body_verify _ _) as [b r]. apply alike_both. by apply (forgets_map (set_v2_verifier b)).
Qed.
(** An accepted object is remembered with its octets. *)
Lemma accept_alike o sender next e e' : forgets e e' -> alike (v2_accept o sender next e) (v2_accept o sender next e').
Proof. rewrite !accept_run. intros [-> |(l & _ & ->)]; apply alike_refl. Qed.

Lemma accepted_alike o sender next (a : CredentialV2Advance) e e' : forgets e e' ->
  alike ((_ ← v2_accept o sender next; mret a) e) ((_ ← v2_accept o sender next; mret a) e').
Proof. intros Hf. apply alike_bind; [by apply accept_alike|]. intros [] e1 e1' Hf'. by apply alike_both. Qed.

(** What a handler reads of either. *)
Record reads_same (e e' : CredentialV2Endpoint B) : Prop := {
  rs_phase : ve_phase e' = ve_phase e;
  rs_side : ve_side e' = ve_side e;
  rs_carrier : ve_carrier e' = ve_carrier e;
  rs_intent : ve_intent_digest e' = ve_intent_digest e;
  rs_last_some : bool_decide (is_Some (ve_last e')) = bool_decide (is_Some (ve_last e));
  rs_hash : lo_content_hash <$> ve_last e' = lo_content_hash <$> ve_last e
}.
Lemma forgets_reads e e' : forgets e e' -> reads_same e e'.
Proof. intros [-> |(l & Hl & ->)]; split; try done; cbn; by rewrite Hl. Qed.
(** The object before, if any, as far as its hash. *)
Lemma last_alike {A} e1 e1' (k k' : LastObject -> stM (CredentialV2Endpoint B) CredentialV2Error A) (d : stM (CredentialV2Endpoint B) CredentialV2Error A) e e' :
  lo_content_hash <$> ve_last e1' = lo_content_hash <$> ve_last e1 ->
  (forall l l', lo_content_hash l' = lo_content_hash l -> alike (k l e) (k' l' e')) -> alike (d e) (d e') ->
  alike (match ve_last e1 with Some l => k l | None => d end e) (match ve_last e1' with Some l => k' l | None => d end e').
Proof. destruct (ve_last e1), (ve_last e1'); intros [=]; intros Hk Hd; [by apply Hk|done]. Qed.

Lemma select_alike o sender e e' : forgets e e' -> alike (apply_account_select o sender e) (apply_account_select o sender e').
Proof.
  intros Hf. destruct (forgets_reads _ _ Hf) as [Hp Hs Hc Hi Hl Hh]. unfold apply_account_select. rewrite !get_bind, Hp, Hc, Hl.
  destruct (_ || _); [by apply fail_alike|]. apply alike_bind; [by apply or_fail_alike|]. intros a e1 e1' Hf1. by apply accepted_alike.
Qed.

Lemma offer_alike o sender e e' : forgets e e' -> alike (apply_offer o sender e) (apply_offer o sender e').
Proof.
  intros Hf. destruct (forgets_reads _ _ Hf) as [Hp Hs Hc Hi _ Hh]. unfold apply_offer. rewrite !get_bind, Hp, Hs.
  destruct (_ || _); [by apply fail_alike|]. apply alike_bind.
  - apply alike_both. by apply (forgets_map (set_v2_intent _)).
  - intros a e1 e1' Hf1. by apply accepted_alike.
Qed.

Lemma successor_alike o sender e e' : forgets e e' -> alike (apply_successor o sender e) (apply_successor o sender e').
Proof.
  intros Hf. destruct (forgets_reads _ _ Hf) as [Hp Hs Hc Hi _ Hh]. unfold apply_successor. rewrite !get_bind, Hp, Hc, Hi.
  destruct (ve_intent_digest e); [|by apply fail_alike]. case_bool_decide; cbn [negb]; [|by apply fail_alike].
  destruct (next_phase _ _); [|by apply fail_alike]. apply alike_bind; [by apply or_fail_alike|]. intros logical e1 e1' Hf1.
  case_bool_decide; cbn [negb]; [|by apply fail_alike].
  apply (last_alike e e'); [done| |by apply fail_alike]. intros x x' ->. case_bool_decide; cbn [negb]; [|by apply fail_alike].
  apply alike_bind; [by apply verify_alike|]. intros answer e2 e2' Hf2. apply alike_bind; [by apply or_fail_alike|].
  intros [] e3 e3' Hf3. by apply accepted_alike.
Qed.

Lemma apply_alike o sender e e' : forgets e e' -> exact_retransmission e' o sender = exact_retransmission e o sender ->
  alike (v2_apply o sender e) (v2_apply o sender e').
Proof.
  intros Hf Hx. destruct (forgets_reads _ _ Hf) as [Hp Hs Hc Hi _ Hh]. unfold v2_apply. rewrite !get_bind, Hp, Hx. clear Hx.
  destruct (exact_retransmission e o sender); [by apply alike_both|]. case_bool_decide; [by apply alike_both|].
  destruct (_ && _); [by apply alike_both|]. destruct (negb _); [by apply fail_alike|].
  case_bool_decide; [by apply select_alike|]. case_bool_decide; [by apply offer_alike|by apply successor_alike].
Qed.

Lemma authenticate_alike o e e' : forgets e e' -> alike (authenticate_recovered_receipt o e) (authenticate_recovered_receipt o e').
Proof.
  intros Hf. destruct (forgets_reads _ _ Hf) as [Hp Hs Hc Hi _ Hh]. unfold authenticate_recovered_receipt. rewrite !get_bind, Hp, Hs, Hi, Hc.
  destruct (_ || _); [by apply alike_both|]. rewrite !lift_bind. destruct (ok_or _ _) as [i|err|]; [|by apply alike_both..].
  case_bool_decide; cbn [negb]; [|by apply alike_both]. rewrite !lift_bind.
  destruct (recognise_logical_body o) as [logical|err|]; [|by apply alike_both..].
  case_bool_decide; cbn [negb]; [|by apply alike_both]. rewrite !lift_bind.
  destruct (ve_last e) as [l|], (ve_last e') as [l'|]; try done; cbn [ok_or]. injection Hh as ->.
  case_bool_decide; cbn [negb]; [|by apply alike_both]. apply alike_bind; [by apply verify_alike|]. intros answer e1 e1' Hf1.
  rewrite !lift_bind. destruct answer; [|by apply alike_both..].
  destruct (receipt_final_status_digest _); by apply alike_both.
Qed.

Lemma recover_alike o authority e e' : forgets e e' -> alike (recover_receipt o authority e) (recover_receipt o authority e').
Proof.
  intros Hf. destruct (forgets_reads _ _ Hf) as [Hp Hs Hc Hi _ Hh]. unfold recover_receipt. rewrite !get_bind, Hp, Hs, Hi, Hc.
  destruct (_ || _); [by apply alike_both|]. rewrite !lift_bind.
  destruct (recognise_logical_body o) as [logical|err|]; [|by apply alike_both..]. rewrite !lift_bind.
  destruct (ve_last e) as [l|], (ve_last e') as [l'|]; try done; cbn [ok_or]. injection Hh as ->.
  rewrite !lift_bind. destruct (ok_or _ _); [|by apply alike_both..]. rewrite !lift_bind.
  destruct (receipt_final_status_digest _); [|by apply alike_both..].
  destruct (negb _); [by apply alike_both|by apply accepted_alike].
Qed.

(** *** With the consumer's state *)

Context {P V : Type} `{CredentialV2OfferParser P, CredentialV2IntentVerifier V}.
Definition alike_world {A} (r r' : (CredentialV2Endpoint B * (P * V)) * credM A) : Prop :=
  r.2 = r'.2 /\ forgets r.1.1 r'.1.1 /\ r.1.2 = r'.1.2.

Lemma world_both {A} (s s' : CredentialV2Endpoint B * (P * V)) (r : credM A) : forgets s.1 s'.1 -> s.2 = s'.2 -> alike_world (s, r) (s', r).
Proof. by split. Qed.
Lemma world_bind {A A'} (m : stM (CredentialV2Endpoint B * (P * V)) CredentialV2Error A)
    (k k' : A -> stM (CredentialV2Endpoint B * (P * V)) CredentialV2Error A') s s' :
  alike_world (m s) (m s') -> (forall a s1 s1', forgets s1.1 s1'.1 -> s1.2 = s1'.2 -> alike_world (k a s1) (k' a s1')) ->
  alike_world ((m ≫= k) s) ((m ≫= k') s').
Proof.
  unfold alike_world at 1, mbind, stM_bind. intros (Hr & Hf & Hpv) Hk. destruct (m s) as [s1 r], (m s') as [s1' r']. cbn in *. subst r'.
  destruct r as [a|err|]; [by apply Hk|by apply world_both..].
Qed.
Lemma world_endpoint {A} (m : stM (CredentialV2Endpoint B) CredentialV2Error A) s s' :
  alike (m s.1) (m s'.1) -> s.2 = s'.2 -> alike_world (on_endpoint m s) (on_endpoint m s').
Proof.
  unfold on_endpoint, zoom, alike. intros [Hr Hf] Hpv. destruct (m s.1) as [e r], (m s'.1) as [e' r']. cbn in *. subst. by apply world_both.
Qed.

Lemma receive_offer_alike o authority s s' : forgets s.1 s'.1 -> s.2 = s'.2 ->
  exact_retransmission s'.1 o Side_Allocator = exact_retransmission s.1 o Side_Allocator ->
  alike_world (receive_offer o authority s) (receive_offer o authority s').
Proof.
  intros Hf Hpv Hx. destruct (forgets_reads _ _ Hf) as [Hp Hs Hc Hi _ Hh]. unfold receive_offer. rewrite !get_bind. cbv zeta.
  rewrite Hp, Hs, Hc, Hx. clear Hx. destruct (exact_retransmission _ _ _); [by apply world_both|].
  destruct (_ || _); [by apply world_endpoint; [apply fail_alike|]|]. destruct (_ || _); [by apply world_endpoint; [apply fail_alike|]|].
  apply world_bind.
  { unfold recognise_offer. rewrite Hpv. destruct (recognise_credential_v2_intent _ _ _). by apply world_both. }
  intros answer s1 s1' Hf1 Hpv1. apply world_bind; [by apply world_endpoint; [apply or_fail_alike|]|].
  intros d s2 s2' Hf2 Hpv2. apply world_bind; [by apply world_endpoint; [apply accept_alike|]|].
  intros [] s3 s3' Hf3 Hpv3. by apply world_both.
Qed.

(** The object of an operation. *)
Definition op_object (op : v2_op) : CredentialV2Object :=
  match op with V2_Send o | V2_Receive o | V2_ReceiveOffer o _ | V2_Authenticate o | V2_Recover o _ => o end.

(** Two octet strings with one digest: a retained object and another. *)
Definition last_clash (e : CredentialV2Endpoint B) (o : CredentialV2Object) : Prop := exists octets,
  (exists l, ve_last e = Some l /\ lo_bytes l = Some octets) /\ octets <> ob_bytes o /\ sha256 octets = sha256 (ob_bytes o).

Lemma retransmission_alike e e' o sender : forgets e e' -> ob_content_hash o = sha256 (ob_bytes o) ->
  (forall l octets, ve_last e = Some l -> lo_bytes l = Some octets -> lo_content_hash l = sha256 octets) ->
  exact_retransmission e' o sender = exact_retransmission e o sender \/ last_clash e o.
Proof.
  intros [-> |(l & Hl & ->)] Ho Hlast; [by left|]. unfold exact_retransmission. cbn. rewrite Hl. destruct (lo_bytes l) as [octets|] eqn:Hb; [|by left].
  destruct (decide (octets = ob_bytes o)) as [->|Hne]; [left; by rewrite (bool_decide_eq_true_2 (ob_bytes o = _))|].
  destruct (decide (lo_content_hash l = ob_content_hash o)) as [Heq|Hneq]; [right|left].
  - exists octets. split_and!; [by exists l|done|]. rewrite <- (Hlast l octets), <- Ho by done. done.
  - rewrite (bool_decide_eq_false_2 (lo_content_hash l = _)) by done. by rewrite !andb_false_r.
Qed.

Lemma step_alike op s s' : forgets s.1 s'.1 -> s.2 = s'.2 ->
  ob_content_hash (op_object op) = sha256 (ob_bytes (op_object op)) ->
  (forall l octets, ve_last s.1 = Some l -> lo_bytes l = Some octets -> lo_content_hash l = sha256 octets) ->
  alike_world (v2_step op s) (v2_step op s') \/ last_clash s.1 (op_object op).
Proof.
  intros Hf Hpv Ho Hlast. destruct (forgets_reads _ _ Hf) as [Hp Hs Hc Hi _ Hh].
  assert (forall sender, exact_retransmission s'.1 (op_object op) sender = exact_retransmission s.1 (op_object op) sender \/ last_clash s.1 (op_object op)) as Hx
    by (intros; by apply retransmission_alike).
  unfold v2_step. rewrite !get_bind. cbv zeta. rewrite Hs.
  destruct op as [o|o|o authority|o|o authority]; cbn [op_object] in *.
  - destruct (Hx (ve_side s.1)) as [Hx'|]; [left|by right]. apply world_bind; [|intros; by apply world_both].
    apply world_endpoint; [|done]. unfold v2_send. rewrite !get_bind, Hs. by apply apply_alike.
  - destruct (Hx (opposite (ve_side s.1))) as [Hx'|]; [left|by right]. apply world_bind; [|intros; by apply world_both].
    apply world_endpoint; [|done]. unfold v2_receive. rewrite !get_bind, Hs. by apply apply_alike.
  - destruct (Hx Side_Allocator) as [Hx'|]; [left|by right]. apply world_bind; [by apply receive_offer_alike|intros; by apply world_both].
  - left. apply world_bind; [|intros; by apply world_both]. apply world_endpoint; [by apply authenticate_alike|done].
  - left. apply world_bind; [|intros; by apply world_both]. apply world_endpoint; [by apply recover_alike|done].
Qed.
End Resumed.

(** ** Sealing, then restoring *)

Section Sealed.
Context {B : Type} `{CredentialV2BodyVerifier B, Cbor, !CborLaws, !CborIntLaws, UrlParser, Sha256, !Sha256Laws}.
Context `{HkdfSalted, !HkdfSaltedLaws, Aead, !AeadLaws}.
Implicit Types e : CredentialV2Endpoint B.

Lemma phase_valid side phase released expiry limit now : validate_checkpoint_phase side phase released expiry limit now = Ok tt ->
  (phase = Phase_Terminal -> released = true) /\
  match expiry with Some t => t = limit /\ now < t | None => side = Side_Claimant /\ phase = Phase_PayloadSent end /\
  forall now', live_for (Purpose_ResumeAt now') expiry -> validate_checkpoint_phase side phase released expiry limit now' = Ok tt.
Proof.
  unfold validate_checkpoint_phase. destruct (_ && negb _) eqn:E; [done|]. intros Hv.
  assert (phase = Phase_Terminal -> released = true) as Ht.
  { intros ->. rewrite bool_decide_eq_true_2 in E by done. cbn in E. apply negb_false_iff, andb_true_iff in E. naive_solver. }
  assert (forall t, (if (t =? limit) && (now <? t) then Ok tt else if limit <=? now then Err CredentialV2Error_Expired else Err CredentialV2Error_Schema) = Ok tt ->
    t = limit /\ now < t /\ forall now', now' < t ->
    (if (t =? limit) && (now' <? t) then Ok tt else if limit <=? now' then Err CredentialV2Error_Expired else Err CredentialV2Error_Schema) = Ok tt) as Hlim.
  { intros t. destruct ((t =? limit) && (now <? t)) eqn:E1; [intros _|by destruct (limit <=? now)]. apply andb_true_iff in E1 as [->%Z.eqb_eq Hn%Z.ltb_lt].
    split_and!; [done..|]. intros now' Hn'. rewrite Z.eqb_refl. apply Z.ltb_lt in Hn'. by rewrite Hn'. }
  split; [done|]. destruct side.
  - destruct expiry as [t|]; [|done]. destruct (Hlim t Hv) as (? & ? & Hk). split; [done|]. intros now' Hn. by apply Hk.
  - destruct phase; try done.
    + destruct expiry as [t|]; [|done]. destruct (Hlim t Hv) as (? & ? & Hk). split; [done|]. intros now' Hn. by apply Hk.
    + case_bool_decide; [|done]. by subst.
Qed.

(** The conditions of [seal_checkpoint]. *)
Lemma endpoint_seal_ok ch rl key generation expiry nonce now e e' ck :
  endpoint_seal_checkpoint ch rl key generation expiry nonce now e = (e', Ok ck) ->
  e' = set_v2_checkpoint generation nonce e /\ c2_local_side ch = ve_side e /\
  validate_checkpoint_phase (ve_side e) (ve_phase e) (receipt_released e) expiry (ca_relay_expires_at (ve_carrier e)) now = Ok tt /\
  generation <> 0 /\ generation = saturating_add u64_max (ve_checkpoint_generation e) 1 /\ ve_checkpoint_nonce e <> Some nonce /\
  exists plaintext, encode_endpoint e ch rl generation nonce = Ok plaintext /\
    seal_checkpoint_plaintext plaintext (ve_side e) (ve_carrier e) key generation expiry nonce = Ok ck.
Proof.
  unfold endpoint_seal_checkpoint. rewrite get_bind. case_bool_decide as Hsd; cbn [negb]; [|done]. rewrite lift_bind.
  destruct (validate_checkpoint_phase _ _ _ _ _ _) as [[]|err|] eqn:Hv; [|done..]. destruct (_ || _) eqn:E; [done|].
  rewrite lift_bind. destruct (encode_endpoint _ _ _ _ _) as [p|err|] eqn:Hp; [|done..]. rewrite lift_bind.
  destruct (seal_checkpoint_plaintext _ _ _ _ _ _ _) as [c|err|] eqn:Hs; [|done..]. intros [= <- <-]. bool_to_prop.
  split_and!; try done. by exists p.
Qed.

(** What a checkpoint restores to under its own bindings. *)
Lemma restore_sealed ch rl key generation expiry nonce now now' e e' ck b b' :
  storable e -> stored_channel ch -> c2_terminal ch = false -> stored_relay rl ->
  0 <= ve_checkpoint_generation e <= u64_max -> length nonce = 12%nat ->
  body_checkpoint_state (ve_body_verifier e) ≫= restored_verifier b = Ok b' ->
  endpoint_seal_checkpoint ch rl key generation expiry nonce now e = (e', Ok ck) -> live_for (Purpose_ResumeAt now') expiry ->
  endpoint_restore_checkpoint (ec_bytes ck) key (ve_side e) (ve_carrier e) generation now' b =
    if stranded e rl then Err CredentialV2Error_Schema else Ok (kept_endpoint rl b' generation nonce e, ch, rl).
Proof.
  intros Hst Hch Hterm Hrl Hg Hn Hver (_ & Hsd & Hv & Hne & Hgen & _ & p & Hp & Hs)%endpoint_seal_ok Hlive.
  destruct (phase_valid _ _ _ _ _ _ Hv) as (_ & Hexp & Hv'). unfold endpoint_restore_checkpoint, open_checkpoint_plaintext.
  assert (0 < generation <= u64_max) as Hgr by (unfold saturating_add in Hgen; lia).
  assert (match expiry with Some value => 0 <= value <= u64_max | None => True end) as Hexp'.
  { destruct expiry; [|done]. destruct Hexp as [-> _]. apply Hst. }
  pose proof (cat_ceremony _ (so_carrier _ Hst)) as Hlen.
  rewrite (proj2 (sealed_opens p (ve_side e) (ve_carrier e) key generation expiry nonce ck (ve_side e) (ve_carrier e) generation
    (Purpose_ResumeAt now') (mkOpenedCheckpoint p expiry nonce) Hlen Hgr Hexp' Hn Hs)) by done.
  rewrite ok_bind. cbn [oc_plaintext oc_nonce oc_expiry]. apply seal_plaintext_ok in Hs as [[_ Hpl] _].
  rewrite (endpoint_reads e ch rl generation nonce p b b') by (try done; lia).
  destruct (stranded e rl); [done|]. rewrite ok_bind. cbn [kept_endpoint ve_side ve_phase ve_carrier].
  assert (receipt_released (kept_endpoint rl b' generation nonce e) = receipt_released e) as ->.
  { unfold receipt_released. cbn. destruct (ve_last e) as [l|]; [|done]. cbn. unfold kept_last. by destruct (bool_decide (lo_sender l = ve_side e) && _). }
  by rewrite Hv'.
Qed.
End Sealed.

(** ** Runs after a restart *)

Lemma kept_forgets {B} rl generation nonce (e : CredentialV2Endpoint B) :
  forgets (set_v2_checkpoint generation nonce e) (kept_endpoint rl (ve_body_verifier e) generation nonce e).
Proof.
  destruct e as [c sd ph i [l|] v g n]; unfold kept_endpoint, set_v2_checkpoint; cbn; [|by left].
  unfold kept_last. destruct (_ && _); [right; by exists l|by left].
Qed.

(** An object of the transcript and another one that was given have one digest. *)
Definition objects_clash `{Sha256} (log : list entry) (ops : list v2_op) : Prop := exists x op,
  x ∈ log /\ op ∈ ops /\ ob_bytes x.2 <> ob_bytes (op_object op) /\ sha256 (ob_bytes x.2) = sha256 (ob_bytes (op_object op)).

Section Restarted.
Context {B P V : Type} `{CredentialV2BodyVerifier B, CredentialV2OfferParser P, CredentialV2IntentVerifier V}.
Context `{Cbor, !CborLaws, !CborIntLaws, Sha256}.

Lemma step_object op (s s' : CredentialV2Endpoint B * (P * V)) x : v2_step op s = (s', Ok (Some x)) -> x.2 = op_object op.
Proof.
  unfold v2_step. rewrite get_bind. cbv zeta. unfold mbind, stM_bind, mret, stM_ret.
  destruct op as [o|o|o authority|o|o authority]; cbn [op_object];
    match goal with |- context [match ?m with _ => _ end] => destruct m as [s1 [a|err|]] end; intros Heq; try done;
    injection Heq as _ Ha; destruct a; try done; by injection Ha as <-.
Qed.

Lemma run_grows ops (s : CredentialV2Endpoint B * (P * V)) log s1 log1 x : v2_run ops s log = (s1, log1) -> x ∈ log -> x ∈ log1.
Proof.
  revert s log. induction ops as [|op ops IH]; intros s log; cbn [v2_run]; [by intros [= _ <-]|].
  destruct (v2_step op s) as [s2 [[y|]|err|]]; intros Hrun Hx; [apply (IH _ _ Hrun); by right|by eapply IH..|by injection Hrun as _ <-].
Qed.
Lemma run_alike carrier side ops : Forall (fun op => genuine (op_object op)) ops -> forall (s s' : CredentialV2Endpoint B * (P * V)) log s1 log1,
  told carrier side log s -> Forall (fun x => genuine x.2) log -> forgets s.1 s'.1 -> s.2 = s'.2 ->
  v2_run ops s log = (s1, log1) ->
  (exists s1', v2_run ops s' log = (s1', log1) /\ forgets s1.1 s1'.1 /\ s1.2 = s1'.2) \/ objects_clash log1 ops.
Proof.
  induction 1 as [|op ops Hop _ IH]; intros s s' log s1 log1 Ht Hg Hf Hpv; cbn [v2_run].
  { intros [= <- <-]. left. by exists s'. }
  intros Hrun. assert (forall l octets, ve_last s.1 = Some l -> lo_bytes l = Some octets ->
    lo_content_hash l = sha256 octets /\ exists x, x ∈ log /\ ob_bytes x.2 = octets) as Hlast.
  { intros l octets Hl Hb. destruct Ht as [ph [_ _ _ _ Hh]]. rewrite Hl in Hh. destruct log as [|x log]; [done|]. inv Hg.
    injection Hh as ->. injection Hb as <-. split; [by apply genuine_hash|]. exists x. split; [by left|done]. }
  destruct (step_alike op s s' Hf Hpv (genuine_hash _ Hop)) as [(Hr & Hf' & Hpv')|(octets & (l & Hl & Hb) & Hne & Heq)].
  { intros l octets Hl Hb. by apply (Hlast l). }
  2: { right. destruct (Hlast l octets Hl Hb) as [_ (x & Hx & <-)]. exists x, op. split_and!; [by apply (run_grows (op :: ops) s log s1 log1)|by left|done..]. }
  revert Hrun. pose proof (wp_v2_step carrier side op s log Ht) as Hw.
  destruct (v2_step op s) as [s2 r] eqn:Hs, (v2_step op s') as [s2' r']. cbn in Hr, Hf', Hpv'. subst r'.
  pose proof (wp_run _ _ _ _ _ _ _ Hw Hs) as Ht2. cbv beta in Ht2.
  assert (forall s1 s1' log2, (exists s3, v2_run ops s1' log2 = (s3, log1) /\ forgets s1.1 s3.1 /\ s1.2 = s3.2) \/ objects_clash log1 ops ->
    (exists s3, v2_run ops s1' log2 = (s3, log1) /\ forgets s1.1 s3.1 /\ s1.2 = s3.2) \/ objects_clash log1 (op :: ops)) as Hmore.
  { intros ? ? ? [?|(x & op' & Hx & Hin & Hc)]; [by left|right]. exists x, op'. split; [done|]. split; [by right|done]. }
  destruct r as [[x|]|err|]; [|intros ?; by apply Hmore; eapply IH..|].
  - intros ?. apply Hmore. eapply IH; [done| |done..]. constructor; [|done]. by rewrite (step_object _ _ _ _ Hs).
  - intros [= <- <-]. left. by exists s'.
Qed.
End Restarted.

(** ** The properties *)

(** C20. A checkpoint carries an endpoint over a crash.  Sealed while its
    transcript is live, it restores under the key it was sealed with, for its
    side, carrier and generation, until its expiry, to the same channel and
    relay membership and to an endpoint that goes on as the crashed one would
    have: given the same objects from then on, both accept the same ones and end
    in the same phase, unless the octets of an object of the transcript and those
    of another object given after the crash have one digest.  For another side,
    ceremony or generation, or once expired, it does not restore. *)
Theorem v2_checkpoint_restores `{CredentialV2BodyVerifier B, CredentialV2OfferParser P, CredentialV2IntentVerifier V}
    `{Cbor, !CborLaws, !CborIntLaws, UrlParser, Sha256, !Sha256Laws, HkdfSalted, !HkdfSaltedLaws, Aead, !AeadLaws}
    carrier side (e e' : CredentialV2Endpoint B) phase log ch rl key generation expiry nonce now ck b :
  story carrier side e phase log -> Forall (fun x => genuine x.2) log -> carrier_typed carrier ->
  stored_channel ch -> c2_terminal ch = false -> stored_relay rl ->
  0 <= ve_checkpoint_generation e <= u64_max -> length nonce = 12%nat ->
  body_checkpoint_state (ve_body_verifier e) ≫= restored_verifier b = Ok (ve_body_verifier e) ->
  endpoint_seal_checkpoint ch rl key generation expiry nonce now e = (e', Ok ck) ->
  (forall now', live_for (Purpose_ResumeAt now') expiry -> exists e'',
     endpoint_restore_checkpoint (ec_bytes ck) key side carrier generation now' b = Ok (e'', ch, rl) /\
     forall ops (pv : P * V) s log', Forall (fun op => genuine (op_object op)) ops -> v2_run ops (e', pv) log = (s, log') ->
       (exists s', v2_run ops (e'', pv) log = (s', log') /\ ve_phase s'.1 = ve_phase s.1 /\ s'.2 = s.2) \/ objects_clash log' ops) /\
  (forall side' carrier' generation' now' b' r,
     endpoint_restore_checkpoint (B := B) (ec_bytes ck) key side' carrier' generation' now' b' = Ok r ->
     side' = side /\ ca_carrier_ceremony_id carrier' = ca_carrier_ceremony_id carrier /\ generation' = generation /\
     live_for (Purpose_ResumeAt now') expiry).
Proof.
  intros Hs Hg Hty Hch Hterm Hrl Hgen Hn Hver Hseal.
  pose proof Hs as [Hc Hsd Ht Hp Hl].
  pose proof (endpoint_seal_ok _ _ _ _ _ _ _ _ _ _ Hseal) as (-> & _ & Hv & Hne & Heq & _ & p & _ & Hsp).
  destruct (phase_valid _ _ _ _ _ _ Hv) as (Hrel & Hexp & _).
  assert (storable e) as Hst by by eapply story_storable.
  split.
  - intros now' Hlive. exists (kept_endpoint rl (ve_body_verifier e) generation nonce e).
    rewrite <- Hsd, <- Hc. rewrite (restore_sealed _ _ _ _ _ _ _ _ _ _ _ _ _ Hst Hch Hterm Hrl Hgen Hn Hver Hseal Hlive).
    assert (stranded e rl = false) as -> by (unfold stranded; rewrite Hl; by destruct (head log)). split; [done|].
    intros ops pv s log' Hops Hrun.
    edestruct (run_alike carrier side ops Hops (set_v2_checkpoint generation nonce e, pv)
      (kept_endpoint rl (ve_body_verifier e) generation nonce e, pv) log) as [(s' & Hrun' & Hf & Hpv)|]; [|done| | |done| |by right].
    + exists phase. by split.
    + apply kept_forgets.
    + done.
    + left. exists s'. split_and!; [done| |done]. by apply forgets_reads in Hf as [? _ _ _ _ _].
  - intros side' carrier' generation' now' b' r. unfold endpoint_restore_checkpoint, open_checkpoint_plaintext.
    intros (opened & Ho & _)%bind_ok.
    assert (0 < generation <= u64_max) as Hgr by (unfold saturating_add in Heq; lia).
    eapply sealed_opens in Ho; [|apply Hst|done| |done|done].
    + rewrite Hc, Hsd in Ho. naive_solver.
    + destruct expiry; [|done]. destruct Hexp as [-> _]. apply Hst.
Qed.

(** C22. A restart loses the next checkpoint.  An endpoint restored while its own
    object waited for the relay's acknowledgement has not kept that object's
    octets.  When the acknowledgement comes it drops the cached frame too and
    seals a checkpoint that replaces the one it came from; and that checkpoint
    never restores, under any key it could be opened with: a second crash loses
    the ceremony. *)
Theorem v2_second_restart_lost `{CredentialV2BodyVerifier B}
    `{Cbor, !CborLaws, !CborIntLaws, UrlParser, Sha256, !Sha256Laws, HkdfSalted, !HkdfSaltedLaws, Aead, !AeadLaws}
    carrier side (e e1 e2 : CredentialV2Endpoint B) phase log o ch rl rl' sequence key generation expiry nonce now ck b now1
    expiry2 nonce2 now2 ck2 b2 b3 now3 :
  story carrier side e phase ((side, o) :: log) -> Forall (fun x => genuine x.2) ((side, o) :: log) -> carrier_typed carrier ->
  stored_channel ch -> c2_terminal ch = false -> stored_relay rl -> is_Some (rs_cached_outbound rl) ->
  0 <= ve_checkpoint_generation e < u64_max -> length nonce = 12%nat -> length nonce2 = 12%nat ->
  body_checkpoint_state (ve_body_verifier e) ≫= restored_verifier b = Ok (ve_body_verifier e) ->
  body_checkpoint_state (ve_body_verifier e) ≫= restored_verifier b2 = Ok b3 ->
  (endpoint_seal_checkpoint ch rl key generation expiry nonce now e).2 = Ok ck -> live_for (Purpose_ResumeAt now1) expiry ->
  endpoint_restore_checkpoint (ec_bytes ck) key side carrier generation now1 b = Ok (e1, ch, rl) ->
  acknowledge_application_frame sequence rl = (rl', Ok tt) ->
  endpoint_seal_checkpoint ch rl' key (generation + 1) expiry2 nonce2 now2 e1 = (e2, Ok ck2) ->
  live_for (Purpose_ResumeAt now3) expiry2 ->
  endpoint_restore_checkpoint (ec_bytes ck2) key side carrier (generation + 1) now3 b2 = Err CredentialV2Error_Schema.
Proof.
  intros Hs Hg Hty Hch Hterm Hrl [f Hf] Hgen Hn Hn2 Hver Hver2 Hseal Hlive Hres Hack Hseal2 Hlive2.
  pose proof Hs as [Hc Hsd Ht Hp Hl].
  destruct (endpoint_seal_checkpoint ch rl key generation expiry nonce now e) as [e0 r] eqn:Hseal1. cbn in Hseal. subst r.
  pose proof (endpoint_seal_ok _ _ _ _ _ _ _ _ _ _ Hseal1) as (_ & _ & Hv & Hne & Heq & _).
  destruct (phase_valid _ _ _ _ _ _ Hv) as (Hrel & _ & _).
  assert (storable e) as Hst by by eapply story_storable.
  assert (0 <= ve_checkpoint_generation e <= u64_max) as Hgen' by lia.
  rewrite <- Hsd, <- Hc in Hres. rewrite (restore_sealed _ _ _ _ _ _ _ _ _ _ _ _ _ Hst Hch Hterm Hrl Hgen' Hn Hver Hseal1 Hlive) in Hres.
  destruct (stranded e rl); [done|]. injection Hres as <-.
  assert (rl' = set_awaiting_ack false (set_relay_cached None rl)) as ->.
  { unfold acknowledge_application_frame in Hack. rewrite get_bind, lift_bind in Hack.
    destruct (cached_application_sequence rl); [|done..]. destruct (negb _); [done|]. by injection Hack as <-. }
  set (e1 := kept_endpoint rl (ve_body_verifier e) generation nonce e) in *.
  assert (ve_last e1 = Some (without_bytes (last_of o side))) as Hl1.
  { unfold e1, kept_endpoint. cbn [ve_last]. rewrite Hl. cbn. unfold kept_last. rewrite Hsd, Hf. cbn. by rewrite bool_decide_eq_true_2. }
  assert (storable e1) as Hst1.
  { destruct Hst as [? ? Hlast Hcons]. split; try done.
    - rewrite Hl1. rewrite Hl in Hlast. destruct Hlast as [? ? _]. by split.
    - unfold e1, kept_endpoint. cbn [ve_phase ve_intent_digest ve_last]. by rewrite kept_consistent. }
  assert (stored_relay (set_awaiting_ack false (set_relay_cached None rl))) as Hrl' by (destruct Hrl; by split).
  rewrite <- Hsd, <- Hc. change (ve_side e) with (ve_side e1). change (ve_carrier e) with (ve_carrier e1).
  rewrite (restore_sealed _ _ _ _ _ _ _ _ e1 _ _ _ _ Hst1 Hch Hterm Hrl' ltac:(unfold saturating_add in Heq; cbn; lia) Hn2 Hver2 Hseal2 Hlive2).
  unfold stranded. rewrite Hl1. cbn. by rewrite andb_false_r.
Qed.

(** ** A concrete restart *)

#[export] Instance demo_salted : HkdfSalted := fun salt ikm info n => Some (demo_digest n (salt ++ info ++ ikm)).
#[export] Instance demo_salted_laws : HkdfSaltedLaws.
Proof. intros salt ikm info n _. eexists. split; [done|apply demo_digest_len]. Qed.
#[local] Existing Instances demo_parser demo_verifier demo_bodies carrier_origins.

(** The allocator after its offer, with the sealed frame in its cache. *)
Definition offering : CredentialV2Endpoint nat :=
  mkCredentialV2Endpoint Side_Allocator demo_carrier Phase_Offered (Some demo_digest32) (Some (last_of object_1 Side_Allocator)) 0%nat 0 None.
Definition offering_relay : CredentialV2RelayState :=
  mkCredentialV2RelayState (replicate 32 9) 3 2 true (Some (V2Frame_Sealed Direction_AllocatorToClaimant 0 (replicate 40 3))).
Definition wrapping : bytes := replicate 32 8.
Definition first_nonce : bytes := replicate 12 1.
Definition second_nonce : bytes := replicate 12 2.
Definition first_seal : CredentialV2Endpoint nat * credM EndpointCheckpointV2 :=
  endpoint_seal_checkpoint demo_channel offering_relay wrapping 1 (Some 1000) first_nonce 5 offering.

Lemma offering_story : story demo_carrier Side_Allocator offering Phase_Offered [(Side_Allocator, object_1)].
Proof.
  split; [done..| |by left|done]. cbn [offering ve_intent_digest]. rewrite <- demo_offer_digest.
  eapply transcript_offer; [apply transcript_begin|]. apply demo_kinds.
Qed.
Lemma offering_genuine : Forall (fun x : entry => genuine x.2) [(Side_Allocator, object_1)].
Proof. exact (Forall_take _ 1 _ demo_genuine_all). Qed.
Lemma first_sealed : accepted first_seal.2 = true.
Proof. vm_cast_no_check (eq_refl true). Qed.

Lemma demo_stored : carrier_typed demo_carrier /\ stored_channel demo_channel /\ stored_relay offering_relay.
Proof.
  split_and!; [by split| |].
  - split; [|done]. split; try done; intros z [= <-]; vm_compute; split; discriminate.
  - split; try done. intros f [= <-]. split; [done|]. vm_compute. split; discriminate.
Qed.

Lemma v2_checkpoint_restores_witness : exists e' ck e'', first_seal = (e', Ok ck) /\
  endpoint_restore_checkpoint (ec_bytes ck) wrapping Side_Allocator demo_carrier 1 999 0%nat = Ok (e'', demo_channel, offering_relay).
Proof.
  pose proof first_sealed as Ha. destruct first_seal as [e' [ck|err|]] eqn:Hs; [|discriminate Ha..].
  destruct demo_stored as (Hc & Hch & Hrl).
  destruct (v2_checkpoint_restores (P := nat) (V := nat) demo_carrier Side_Allocator offering e' Phase_Offered _ demo_channel offering_relay
    wrapping 1 (Some 1000) first_nonce 5 ck 0%nat offering_story offering_genuine Hc Hch eq_refl Hrl ltac:(vm_compute; split; discriminate)
    eq_refl eq_refl Hs) as [Hrestore _].
  destruct (Hrestore 999 eq_refl) as (e'' & Hr & _). exists e', ck, e''. split; [reflexivity|exact Hr].
Defined.

(** The relay acknowledges the frame after the restart. *)
Definition acked_relay : CredentialV2RelayState := set_awaiting_ack false (set_relay_cached None offering_relay).
Definition resumed : CredentialV2Endpoint nat := kept_endpoint offering_relay 0%nat 1 first_nonce offering.
Definition second_seal : CredentialV2Endpoint nat * credM EndpointCheckpointV2 :=
  endpoint_seal_checkpoint demo_channel acked_relay wrapping 2 (Some 1000) second_nonce 7 resumed.
Lemma second_sealed : accepted second_seal.2 = true.
Proof. vm_cast_no_check (eq_refl true). Qed.
Lemma first_restored e' ck : first_seal = (e', Ok ck) ->
  endpoint_restore_checkpoint (ec_bytes ck) wrapping Side_Allocator demo_carrier 1 6 0%nat = Ok (resumed, demo_channel, offering_relay).
Proof.
  intros Hs. destruct demo_stored as (Hc & Hch & Hrl). unfold first_seal in Hs.
  eapply (restore_sealed demo_channel offering_relay wrapping 1 (Some 1000) first_nonce 5 6 offering e' ck 0%nat 0%nat) in Hs; try done.
  apply (story_storable _ _ _ _ _ offering_story offering_genuine Hc). intros [=].
Qed.

Lemma v2_second_restart_lost_witness : exists e2 ck2, second_seal = (e2, Ok ck2) /\
  endpoint_restore_checkpoint (ec_bytes ck2) wrapping Side_Allocator demo_carrier (1 + 1) 8 0%nat = Err CredentialV2Error_Schema.
Proof.
  pose proof first_sealed as Ha1. destruct first_seal as [e' [ck|err|]] eqn:Hs1; [|discriminate Ha1..].
  pose proof second_sealed as Ha2. destruct second_seal as [e2 [ck2|err|]] eqn:Hs2; [|discriminate Ha2..].
  destruct demo_stored as (Hc & Hch & Hrl). exists e2, ck2. split; [reflexivity|].
  exact (v2_second_restart_lost demo_carrier Side_Allocator offering resumed e2 Phase_Offered [] object_1 demo_channel offering_relay acked_relay
    2 wrapping 1 (Some 1000) first_nonce 5 ck 0%nat 6 (Some 1000) second_nonce 7 ck2 0%nat 0%nat 8 offering_story offering_genuine Hc Hch eq_refl
    Hrl ltac:(eexists; reflexivity) ltac:(vm_compute; split; [discriminate|reflexivity]) eq_refl eq_refl eq_refl eq_refl
    (f_equal snd Hs1) eq_refl (first_restored _ _ Hs1) eq_refl Hs2 eq_refl).
Defined.
