(* ===== verification/CredBootstrap.v ===== *)
(** * The allocator's bootstrap in credential/v2 ([src/credential_v2/bootstrap.rs])

    The allocator from its allocation to the confirmed channel: the phases of
    the CPace exchange with the frames they retain, and the sealed checkpoint
    that carries each phase over a crash.  The relay membership it keeps is in
    [CredChannel]. *)

From S2P Require Import Prelude External Wire Cddl WireCodec Context Channel CurveExternal Cpace Profile CredCore CredFrame CredDisplay CredCarrier CredContext CredPresence CredHandoff CredChannel CredEndpoint CredBytes CredCheckpoint.

Definition OLD_BOOTSTRAP_DOMAIN : bytes := ascii_bytes "cbcl-pairing allocator bootstrap/v2" ++ [0].
Definition BOOTSTRAP_DOMAIN : bytes := ascii_bytes "cbcl-pairing allocator bootstrap/v3".
Definition MAX_INNER_BYTES : Z := 69616.

Inductive CredentialV2AllocatorMode : Type := AllocatorMode_Full | AllocatorMode_Manual.
#[export] Instance CredentialV2AllocatorMode_eq_dec : EqDecision CredentialV2AllocatorMode.
Proof. solve_decision. Defined.

Inductive CredentialV2AllocatorBootstrapPhase : Type :=
| Bootstrap_Allocated | Bootstrap_Claimed | Bootstrap_ShareSent | Bootstrap_FinishedSent.
#[export] Instance CredentialV2AllocatorBootstrapPhase_eq_dec : EqDecision CredentialV2AllocatorBootstrapPhase.
Proof. solve_decision. Defined.

Record CredentialV2AllocatorBootstrap := mkCredentialV2AllocatorBootstrap {
  bo_carrier : CredentialV2Carrier;
  bo_mode : CredentialV2AllocatorMode;
  bo_presence : CredentialV2Presence;
  bo_profile_digest : bytes;
  bo_relay : CredentialV2RelayState;
  bo_phase : CredentialV2AllocatorBootstrapPhase;
  bo_fresh_scalar : option bytes;
  bo_peer_cpace : option CredentialV2Frame;
  bo_peer_finished : option CredentialV2Frame;
  bo_pending : option PendingCredentialV2Channel;
  bo_cached_outbound : option CredentialV2Frame;
  bo_checkpoint_generation : Z;
  bo_checkpoint_nonce : option bytes
}.

Abbreviation bootM := (stM CredentialV2AllocatorBootstrap CredentialV2Error).

(** One assignment per field that changes. *)
Definition set_bo_presence (presence : CredentialV2Presence) (b : CredentialV2AllocatorBootstrap) :=
  mkCredentialV2AllocatorBootstrap (bo_carrier b) (bo_mode b) presence (bo_profile_digest b) (bo_relay b) (bo_phase b)
    (bo_fresh_scalar b) (bo_peer_cpace b) (bo_peer_finished b) (bo_pending b) (bo_cached_outbound b)
    (bo_checkpoint_generation b) (bo_checkpoint_nonce b).
Definition set_bo_relay (relay : CredentialV2RelayState) (b : CredentialV2AllocatorBootstrap) :=
  mkCredentialV2AllocatorBootstrap (bo_carrier b) (bo_mode b) (bo_presence b) (bo_profile_digest b) relay (bo_phase b)
    (bo_fresh_scalar b) (bo_peer_cpace b) (bo_peer_finished b) (bo_pending b) (bo_cached_outbound b)
    (bo_checkpoint_generation b) (bo_checkpoint_nonce b).
Definition set_bo_phase (phase : CredentialV2AllocatorBootstrapPhase) (b : CredentialV2AllocatorBootstrap) :=
  mkCredentialV2AllocatorBootstrap (bo_carrier b) (bo_mode b) (bo_presence b) (bo_profile_digest b) (bo_relay b) phase
    (bo_fresh_scalar b) (bo_peer_cpace b) (bo_peer_finished b) (bo_pending b) (bo_cached_outbound b)
    (bo_checkpoint_generation b) (bo_checkpoint_nonce b).
Definition set_bo_fresh_scalar (scalar : option bytes) (b : CredentialV2AllocatorBootstrap) :=
  mkCredentialV2AllocatorBootstrap (bo_carrier b) (bo_mode b) (bo_presence b) (bo_profile_digest b) (bo_relay b) (bo_phase b)
    scalar (bo_peer_cpace b) (bo_peer_finished b) (bo_pending b) (bo_cached_outbound b)
    (bo_checkpoint_generation b) (bo_checkpoint_nonce b).
Definition set_bo_peer_cpace (frame : option CredentialV2Frame) (b : CredentialV2AllocatorBootstrap) :=
  mkCredentialV2AllocatorBootstrap (bo_carrier b) (bo_mode b) (bo_presence b) (bo_profile_digest b) (bo_relay b) (bo_phase b)
    (bo_fresh_scalar b) frame (bo_peer_finished b) (bo_pending b) (bo_cached_outbound b)
    (bo_checkpoint_generation b) (bo_checkpoint_nonce b).
Definition set_bo_peer_finished (frame : option CredentialV2Frame) (b : CredentialV2AllocatorBootstrap) :=
  mkCredentialV2AllocatorBootstrap (bo_carrier b) (bo_mode b) (bo_presence b) (bo_profile_digest b) (bo_relay b) (bo_phase b)
    (bo_fresh_scalar b) (bo_peer_cpace b) frame (bo_pending b) (bo_cached_outbound b)
    (bo_checkpoint_generation b) (bo_checkpoint_nonce b).
Definition set_bo_pending (pending : option PendingCredentialV2Channel) (b : CredentialV2AllocatorBootstrap) :=
  mkCredentialV2AllocatorBootstrap (bo_carrier b) (bo_mode b) (bo_presence b) (bo_profile_digest b) (bo_relay b) (bo_phase b)
    (bo_fresh_scalar b) (bo_peer_cpace b) (bo_peer_finished b) pending (bo_cached_outbound b)
    (bo_checkpoint_generation b) (bo_checkpoint_nonce b).
Definition set_bo_cached_outbound (frame : option CredentialV2Frame) (b : CredentialV2AllocatorBootstrap) :=
  mkCredentialV2AllocatorBootstrap (bo_carrier b) (bo_mode b) (bo_presence b) (bo_profile_digest b) (bo_relay b) (bo_phase b)
    (bo_fresh_scalar b) (bo_peer_cpace b) (bo_peer_finished b) (bo_pending b) frame
    (bo_checkpoint_generation b) (bo_checkpoint_nonce b).
Definition set_bo_checkpoint (generation : Z) (nonce : bytes) (b : CredentialV2AllocatorBootstrap) :=
  mkCredentialV2AllocatorBootstrap (bo_carrier b) (bo_mode b) (bo_presence b) (bo_profile_digest b) (bo_relay b) (bo_phase b)
    (bo_fresh_scalar b) (bo_peer_cpace b) (bo_peer_finished b) (bo_pending b) (bo_cached_outbound b)
    generation (Some nonce).

(** [relay_state_mut()]. *)
Definition on_bootstrap_relay {A} (m : relayM A) : bootM A := zoom bo_relay set_bo_relay id m.

Definition boot_phase_number (phase : CredentialV2AllocatorBootstrapPhase) : Z :=
  match phase with
  | Bootstrap_Allocated => 0 | Bootstrap_Claimed => 1 | Bootstrap_ShareSent => 2 | Bootstrap_FinishedSent => 3
  end.
Definition boot_number_phase (value : Z) : credM CredentialV2AllocatorBootstrapPhase :=
  match value with
  | 0 => Ok Bootstrap_Allocated | 1 => Ok Bootstrap_Claimed | 2 => Ok Bootstrap_ShareSent | 3 => Ok Bootstrap_FinishedSent
  | _ => Err CredentialV2Error_Schema
  end.

(** The side of a CPace or a Finished frame. *)
Definition is_cpace_of (side : Side) (frame : CredentialV2Frame) : bool :=
  match cpace_message frame with Some message => bool_decide (cm_side message = side) | None => false end.
Definition is_finished_of (side : Side) (frame : CredentialV2Frame) : bool :=
  match frame_finished frame with Some (s, _) => bool_decide (s = side) | None => false end.
Definition is_none_or {A} (test : A -> bool) (o : option A) : bool := match o with Some a => test a | None => true end.
Definition is_some_and {A} (test : A -> bool) (o : option A) : bool := match o with Some a => test a | None => false end.
Definition is_none {A} (o : option A) : bool := match o with Some _ => false | None => true end.

Section Bootstrap.
Context `{Cbor, UrlParser, Sha256, Sha512, HkdfSha512, HmacSha512, Fiat25519, X25519}.

(** [from_secret(..).is_err()]. *)
Definition manual_secret (c : bytes) : bool :=
  match words_from_secret c with Ok _ => true | _ => false end.

Definition projection_is_consistent (b : CredentialV2AllocatorBootstrap) : bool :=
  let '(c, claim) := checkpoint_parts (bo_presence b) in
  if bool_decide (bo_mode b = AllocatorMode_Manual) &&
     (negb (manual_secret c) || is_none (ca_expected_allocator_key (bo_carrier b)))
  then false
  else
    match bo_phase b with
    | Bootstrap_Allocated =>
        negb (is_none claim) && is_none (bo_fresh_scalar b) && is_none (bo_peer_cpace b) && is_none (bo_peer_finished b) &&
        is_none (bo_pending b) && is_none (bo_cached_outbound b)
    | Bootstrap_Claimed =>
        is_none claim && is_none (bo_fresh_scalar b) && is_none (bo_peer_cpace b) && is_none (bo_peer_finished b) &&
        is_none (bo_pending b) && is_none (bo_cached_outbound b)
    | Bootstrap_ShareSent =>
        is_none claim && negb (is_none (bo_fresh_scalar b)) &&
        is_none_or (is_cpace_of Side_Claimant) (bo_peer_cpace b) && is_none (bo_peer_finished b) &&
        is_none (bo_pending b) && is_some_and (is_cpace_of Side_Allocator) (bo_cached_outbound b)
    | Bootstrap_FinishedSent =>
        is_none claim && negb (is_none (bo_fresh_scalar b)) &&
        is_some_and (is_cpace_of Side_Claimant) (bo_peer_cpace b) &&
        is_some_and (is_finished_of Side_Allocator) (bo_cached_outbound b) &&
        is_none_or (is_finished_of Side_Claimant) (bo_peer_finished b)
    end.

Definition CredentialV2AllocatorBootstrap_new (carrier : CredentialV2Carrier) (presence : CredentialV2Presence)
    (profile_digest : bytes) (relay : CredentialV2RelayState) (mode : CredentialV2AllocatorMode) :
    credM CredentialV2AllocatorBootstrap :=
  _ ← v2_derive carrier profile_digest;
  _ ← (if bool_decide (mode = AllocatorMode_Manual) then
         _ ← map_err (fun _ => CredentialV2Error_Schema) (words_from_secret (pr_cpace_secret presence));
         if is_none (ca_expected_allocator_key carrier) then Err CredentialV2Error_Profile else Ok tt
       else Ok tt);
  Ok (mkCredentialV2AllocatorBootstrap carrier mode presence profile_digest relay Bootstrap_Allocated None None None None
        None 0 None).

(** ** What the allocator shows *)

Definition bootstrap_presence_code (b : CredentialV2AllocatorBootstrap) : option bytes :=
  if bool_decide (bo_mode b = AllocatorMode_Full) then display_code (bo_presence b) else None.

Definition bootstrap_handoff (b : CredentialV2AllocatorBootstrap) : credM (option CredentialV2Handoff) :=
  if negb (bool_decide (bo_mode b = AllocatorMode_Full)) then Err CredentialV2Error_Phase
  else
    let '(c, t) := checkpoint_parts (bo_presence b) in
    match t with
    | Some t =>
        handoff ← map_err (fun _ => CredentialV2Error_Profile)
                    (CredentialV2Handoff_new (bo_carrier b) (mkCredentialV2PresenceCode c t));
        Ok (Some handoff)
    | None => Ok None
    end.

Definition bootstrap_manual_transfer_text `{Base64Url, Bip39} (b : CredentialV2AllocatorBootstrap) :
    credM (option (bytes * bytes)) :=
  if negb (bool_decide (bo_mode b = AllocatorMode_Manual)) then Err CredentialV2Error_Phase
  else
    let '(c, t) := checkpoint_parts (bo_presence b) in
    match t with
    | Some t =>
        bootstrap ← map_err (fun _ => CredentialV2Error_Profile) (CredentialV2ManualBootstrap_new (bo_carrier b) t 0);
        words ← map_err (fun _ => CredentialV2Error_Schema) (words_from_secret c);
        text ← map_err (fun _ => CredentialV2Error_Schema) (manual_encode bootstrap);
        phrase ← map_err (fun _ => CredentialV2Error_Schema) (words_encode words);
        Ok (Some (text, phrase))
    | None => Ok None
    end.

(** ** Phases *)

Definition claimant_admitted : bootM unit :=
  b ← get;
  if negb (bool_decide (bo_phase b = Bootstrap_Allocated)) then throw CredentialV2Error_Phase
  else
    _ ← zoom bo_presence set_bo_presence id take_claim_token;
    modify (set_bo_phase Bootstrap_Claimed).

Definition bootstrap_start_cpace (fresh_scalar : bytes) : bootM CredentialV2Frame :=
  b ← get;
  if negb (bool_decide (bo_phase b = Bootstrap_Claimed)) then throw CredentialV2Error_Phase
  else
    context ← lift (v2_derive (bo_carrier b) (bo_profile_digest b));
    started ← lift (v2_start_cpace context Side_Allocator (bo_presence b) fresh_scalar);
    frame ← lift (frame_cpace started.2);
    _ ← modify (set_bo_fresh_scalar (Some fresh_scalar));
    _ ← modify (set_bo_cached_outbound (Some frame));
    _ ← modify (set_bo_phase Bootstrap_ShareSent);
    mret frame.

Definition retain_peer_cpace (peer_frame : CredentialV2Frame) : bootM unit :=
  b ← get;
  if negb (bool_decide (bo_phase b = Bootstrap_ShareSent)) then throw CredentialV2Error_Phase
  else
    peer_message ← lift (ok_or (cpace_message peer_frame) CredentialV2Error_Schema);
    if negb (bool_decide (cm_side peer_message = Side_Claimant)) then throw CredentialV2Error_Direction
    else if is_some_and (fun retained => negb (bool_decide (retained = peer_frame))) (bo_peer_cpace b)
    then throw CredentialV2Error_Profile
    else modify (set_bo_peer_cpace (Some peer_frame)).

(** From a share to the pending channel: shared by [prepare_finished] and
    [rebuild_pending]. *)
Definition bootstrap_pending (context : CredentialV2Context) (state : CpaceState) (local_frame peer_frame : CredentialV2Frame)
    (peer_message : CpaceMessage) : credM PendingCredentialV2Channel :=
  isk ← map_err (fun _ => CredentialV2Error_Cpace) (finish state peer_message);
  local_octets ← encode_frame local_frame;
  peer_octets ← encode_frame peer_frame;
  PendingCredentialV2Channel_new Side_Allocator isk (cx_public_context context) local_octets peer_octets.

Definition prepare_finished : bootM CredentialV2Frame :=
  b ← get;
  if negb (bool_decide (bo_phase b = Bootstrap_ShareSent)) then throw CredentialV2Error_Phase
  else
    peer_frame ← lift (ok_or (bo_peer_cpace b) CredentialV2Error_Phase);
    peer_message ← lift (ok_or (cpace_message peer_frame) CredentialV2Error_Schema);
    scalar ← lift (ok_or (bo_fresh_scalar b) CredentialV2Error_Phase);
    context ← lift (v2_derive (bo_carrier b) (bo_profile_digest b));
    started ← lift (v2_start_cpace context Side_Allocator (bo_presence b) scalar);
    local_frame ← lift (frame_cpace started.2);
    if negb (bool_decide (bo_cached_outbound b = Some local_frame)) then throw CredentialV2Error_Profile
    else
      pending ← lift (bootstrap_pending context started.1 local_frame peer_frame peer_message);
      let finished := v2_local_finished_frame pending in
      _ ← modify (set_bo_pending (Some pending));
      _ ← modify (set_bo_cached_outbound (Some finished));
      _ ← modify (set_bo_phase Bootstrap_FinishedSent);
      mret finished.

Definition bootstrap_receive_cpace (peer_frame : CredentialV2Frame) : bootM CredentialV2Frame :=
  _ ← retain_peer_cpace peer_frame;
  prepare_finished.

Definition retain_peer_finished (peer_frame : CredentialV2Frame) : bootM unit :=
  b ← get;
  if negb (bool_decide (bo_phase b = Bootstrap_FinishedSent)) then throw CredentialV2Error_Phase
  else
    finished ← lift (ok_or (frame_finished peer_frame) CredentialV2Error_Finished);
    if negb (bool_decide (finished.1 = Side_Claimant)) then throw CredentialV2Error_Direction
    else if is_some_and (fun retained => negb (bool_decide (retained = peer_frame))) (bo_peer_finished b)
    then throw CredentialV2Error_Profile
    else modify (set_bo_peer_finished (Some peer_frame)).

(** [confirm] consumes the bootstrap. *)
Definition bootstrap_confirm (b : CredentialV2AllocatorBootstrap) (peer_finished : CredentialV2Frame) :
    credM (SecureCredentialV2Channel * CredentialV2RelayState) :=
  if negb (bool_decide (bo_phase b = Bootstrap_FinishedSent)) then Err CredentialV2Error_Phase
  else
    pending ← ok_or (bo_pending b) CredentialV2Error_Phase;
    channel ← v2_confirm pending peer_finished;
    Ok (channel, bo_relay b).

(** ** The checkpoint *)

Definition encode_bootstrap (b : CredentialV2AllocatorBootstrap) (generation : Z) (nonce : bytes) : credM bytes :=
  if negb (projection_is_consistent b) then Err CredentialV2Error_Schema
  else
    carrier ← encode_carrier (bo_carrier b);
    let '(cpace_secret, claim_token) := checkpoint_parts (bo_presence b) in
    carrier ← append_bytes carrier;
    peer_cpace ← append_optional_frame (bo_peer_cpace b) append_bytes;
    peer_finished ← append_optional_frame (bo_peer_finished b) append_bytes;
    cached_outbound ← append_optional_frame (bo_cached_outbound b) append_bytes;
    let output :=
      BOOTSTRAP_DOMAIN ++ [match bo_mode b with AllocatorMode_Full => 0 | AllocatorMode_Manual => 1 end] ++ carrier ++
      bo_profile_digest b ++ [boot_phase_number (bo_phase b)] ++ cpace_secret ++ append_optional_fixed claim_token ++
      rs_membership_token (bo_relay b) ++ [rs_next_local_sequence (bo_relay b)] ++ [rs_next_peer_sequence (bo_relay b)] ++
      [bool_octet (rs_awaiting_ack (bo_relay b))] ++ append_optional_fixed (bo_fresh_scalar b) ++ peer_cpace ++
      peer_finished ++ cached_outbound ++ to_be_bytes 8 generation ++ nonce in
    if MAX_INNER_BYTES <? blen output then Err CredentialV2Error_Size else Ok output.

(** The mode of a tag, an earlier version's included. *)
Definition tag_mode (tag : bytes) : credM CredentialV2AllocatorMode :=
  if bool_decide (tag = OLD_BOOTSTRAP_DOMAIN) then Ok AllocatorMode_Full
  else if bool_decide (take (length BOOTSTRAP_DOMAIN) tag = BOOTSTRAP_DOMAIN) then
    octet ← expect (tag !! length BOOTSTRAP_DOMAIN);
    if octet =? 0 then Ok AllocatorMode_Full
    else if octet =? 1 then Ok AllocatorMode_Manual
    else Err CredentialV2Error_Schema
  else Err CredentialV2Error_Schema.

Definition rebuild_pending : bootM unit :=
  b ← get;
  scalar ← lift (ok_or (bo_fresh_scalar b) CredentialV2Error_Schema);
  peer ← lift (ok_or (bo_peer_cpace b) CredentialV2Error_Schema);
  peer_message ← lift (ok_or (cpace_message peer) CredentialV2Error_Schema);
  context ← lift (v2_derive (bo_carrier b) (bo_profile_digest b));
  started ← lift (v2_start_cpace context Side_Allocator (bo_presence b) scalar);
  local ← lift (frame_cpace started.2);
  pending ← lift (bootstrap_pending context started.1 local peer peer_message);
  if negb (bool_decide (bo_cached_outbound b = Some (v2_local_finished_frame pending))) then throw CredentialV2Error_Profile
  else modify (set_bo_pending (Some pending)).

(** The checks at the end of [decode_inner]. *)
Definition revived (b : CredentialV2AllocatorBootstrap) : credM CredentialV2AllocatorBootstrap :=
  if negb (projection_is_consistent b) then Err CredentialV2Error_Schema
  else
    match bo_phase b with
    | Bootstrap_FinishedSent =>
        match rebuild_pending b with (b, Ok _) => Ok b | (_, Err e) => Err e | (_, Panic) => Panic end
    | Bootstrap_ShareSent =>
        scalar ← ok_or (bo_fresh_scalar b) CredentialV2Error_Schema;
        context ← v2_derive (bo_carrier b) (bo_profile_digest b);
        started ← v2_start_cpace context Side_Allocator (bo_presence b) scalar;
        frame ← frame_cpace started.2;
        if negb (bool_decide (bo_cached_outbound b = Some frame)) then Err CredentialV2Error_Profile else Ok b
    | _ => Ok b
    end.

(** [decode_inner]. *)
Definition decode_bootstrap (expected_carrier : CredentialV2Carrier) (expected_generation : Z) (expected_nonce : bytes)
    (expected_mode : CredentialV2AllocatorMode) : cursorM CredentialV2AllocatorBootstrap :=
  tag ← cursor_take (blen OLD_BOOTSTRAP_DOMAIN);
  mode ← lift (tag_mode tag);
  if negb (bool_decide (mode = expected_mode)) then throw CredentialV2Error_Profile
  else
    carrier_bytes ← cursor_length_prefixed MAX_INNER_BYTES;
    carrier ← lift (decode_carrier carrier_bytes);
    if negb (bool_decide (carrier = expected_carrier)) then throw CredentialV2Error_Profile
    else
      profile_digest ← cursor_array 32;
      octet ← cursor_byte;
      phase ← lift (boot_number_phase octet);
      cpace_secret ← cursor_array 16;
      claim_token ← cursor_optional_array 16;
      let presence := presence_from_checkpoint cpace_secret claim_token in
      membership_token ← cursor_array 32;
      next_local_sequence ← cursor_byte;
      next_peer_sequence ← cursor_byte;
      awaiting_ack ← cursor_boolean;
      let relay := mkCredentialV2RelayState membership_token next_local_sequence next_peer_sequence awaiting_ack None in
      fresh_scalar ← cursor_optional_array 32;
      peer_cpace ← decode_optional_frame (cursor_length_prefixed MAX_FRAME_BYTES);
      peer_finished ← decode_optional_frame (cursor_length_prefixed MAX_FRAME_BYTES);
      cached_outbound ← decode_optional_frame (cursor_length_prefixed MAX_FRAME_BYTES);
      generation ← cursor_u64;
      nonce ← cursor_array 12;
      c ← get;
      if negb (cursor_finished c) || negb (generation =? expected_generation) || negb (bool_decide (nonce = expected_nonce))
      then throw CredentialV2Error_Schema
      else
        lift (revived (mkCredentialV2AllocatorBootstrap carrier mode presence profile_digest relay phase fresh_scalar peer_cpace
                         peer_finished None cached_outbound generation (Some nonce))).

Context `{HkdfSalted, Aead}.

Definition bootstrap_seal_checkpoint (wrapping_key : bytes) (generation : Z) (nonce : bytes) (now : Z) :
    bootM EndpointCheckpointV2 :=
  b ← get;
  if ca_relay_expires_at (bo_carrier b) <=? now then throw CredentialV2Error_Expired
  else if (generation =? 0) || negb (generation =? saturating_add u64_max (bo_checkpoint_generation b) 1) ||
          bool_decide (bo_checkpoint_nonce b = Some nonce)
  then throw CredentialV2Error_Counter
  else
    plaintext ← lift (encode_bootstrap b generation nonce);
    checkpoint ← lift (seal_checkpoint_plaintext plaintext Side_Allocator (bo_carrier b) wrapping_key generation
                         (Some (ca_relay_expires_at (bo_carrier b))) nonce);
    _ ← modify (set_bo_checkpoint generation nonce);
    mret checkpoint.

(** [restore_checkpoint] and [inspect_checkpoint] once the envelope is open. *)
Definition bootstrap_of_opened (opened : OpenedCheckpoint) (carrier : CredentialV2Carrier) (generation : Z)
    (mode : CredentialV2AllocatorMode) : credM CredentialV2AllocatorBootstrap :=
  if negb (bool_decide (oc_expiry opened = Some (ca_relay_expires_at carrier))) then Err CredentialV2Error_Schema
  else (decode_bootstrap carrier generation (oc_nonce opened) mode (Cursor_new (oc_plaintext opened))).2.

Definition bootstrap_restore_checkpoint (input wrapping_key : bytes) (expected_carrier : CredentialV2Carrier)
    (expected_generation now : Z) (expected_mode : CredentialV2AllocatorMode) : credM CredentialV2AllocatorBootstrap :=
  opened ← open_checkpoint_plaintext input wrapping_key Side_Allocator expected_carrier expected_generation now;
  bootstrap_of_opened opened expected_carrier expected_generation expected_mode.

Definition bootstrap_inspect_checkpoint (input wrapping_key : bytes) (carrier : CredentialV2Carrier) (generation : Z)
    (expected_mode : CredentialV2AllocatorMode) : credM CredentialV2AllocatorBootstrap :=
  opened ← inspect_checkpoint_plaintext input wrapping_key carrier generation;
  bootstrap_of_opened opened carrier generation expected_mode.
End Bootstrap.
