(* ===== verification/CredBootstrapThms.v ===== *)
(** * Lemmas on the allocator's bootstrap

    What each phase retains, that every operation keeps it, and that a
    checkpoint of it is read back to the same state, with the property that
    follows and a concrete handshake. *)

From S2P Require Import Prelude External Instances Wire Cddl WireCodec Context Channel CurveExternal Cpace CpaceProps Profile ProfileThms CbclDemo CredCore CredFrame CredDisplay CredCarrier CredContext CredPresence CredHandoff CredProps CredChannel CredEndpoint CredStory CredCeremony CredEndpointProps CredBytes CredCheckpoint CredCheckpointThms CredCheckpointProps CredBootstrap.

(** ** Operations *)

Inductive boot_op : Type :=
| Boot_Admit | Boot_Start (fresh_scalar : bytes) | Boot_RetainCpace (frame : CredentialV2Frame) | Boot_Prepare
| Boot_ReceiveCpace (frame : CredentialV2Frame) | Boot_RetainFinished (frame : CredentialV2Frame)
| Boot_Peer (sequence : Z) | Boot_Queue | Boot_Ack (sequence : Z)
| Boot_Seal (wrapping_key : bytes) (generation : Z) (nonce : bytes) (now : Z).

Section Bootstrap.
Context `{Cbor, UrlParser, Sha256, Sha512, HkdfSha512, HmacSha512, Fiat25519, X25519, HkdfSalted, Aead}.
Implicit Types b : CredentialV2AllocatorBootstrap.

Definition boot_step (op : boot_op) : bootM unit :=
  match op with
  | Boot_Admit => claimant_admitted
  | Boot_Start fresh_scalar => _ ← bootstrap_start_cpace fresh_scalar; mret tt
  | Boot_RetainCpace frame => retain_peer_cpace frame
  | Boot_Prepare => _ ← prepare_finished; mret tt
  | Boot_ReceiveCpace frame => _ ← bootstrap_receive_cpace frame; mret tt
  | Boot_RetainFinished frame => retain_peer_finished frame
  | Boot_Peer sequence => on_bootstrap_relay (accept_peer_sequence sequence)
  | Boot_Queue => _ ← on_bootstrap_relay queue_bootstrap_frame; mret tt
  | Boot_Ack sequence => on_bootstrap_relay (acknowledge_bootstrap_frame sequence)
  | Boot_Seal wrapping_key generation nonce now => _ ← bootstrap_seal_checkpoint wrapping_key generation nonce now; mret tt
  end.
(** A run, errors included. *)
Definition boot_run (ops : list boot_op) (b : CredentialV2AllocatorBootstrap) : CredentialV2AllocatorBootstrap :=
  fold_left (fun b op => (boot_step op b).1) ops b.

(** The widths of what an operation brings. *)
Definition op_typed (op : boot_op) : Prop :=
  match op with
  | Boot_Start scalar => length scalar = 32%nat
  | Boot_RetainCpace frame | Boot_ReceiveCpace frame | Boot_RetainFinished frame => frame_typed frame
  | Boot_Seal _ generation nonce _ => 0 <= generation <= u64_max /\ length nonce = 12%nat
  | _ => True
  end.

(** ** What a state holds *)

Definition optional_typed (f : option CredentialV2Frame) : Prop := match f with Some f => frame_typed f | None => True end.
Definition optional_length (n : nat) (o : option bytes) : Prop := match o with Some x => length x = n | None => True end.

Record boot_typed (b : CredentialV2AllocatorBootstrap) : Prop := {
  bt_carrier : carrier_typed (bo_carrier b);
  bt_secret : length (pr_cpace_secret (bo_presence b)) = 16%nat;
  bt_token : optional_length 16 (pr_claim_token (bo_presence b));
  bt_profile : length (bo_profile_digest b) = 32%nat;
  bt_membership : length (rs_membership_token (bo_relay b)) = 32%nat;
  bt_scalar : optional_length 32 (bo_fresh_scalar b);
  bt_peer_cpace : optional_typed (bo_peer_cpace b);
  bt_peer_finished : optional_typed (bo_peer_finished b);
  bt_cached : optional_typed (bo_cached_outbound b);
  bt_generation : 0 <= bo_checkpoint_generation b <= u64_max
}.

(** The allocator's own share, made again from what is retained. *)
Definition shares b (x : CredentialV2Context) (state : CpaceState) (local : CredentialV2Frame) : Prop :=
  exists scalar message, bo_fresh_scalar b = Some scalar /\ v2_derive (bo_carrier b) (bo_profile_digest b) = Ok x /\
    v2_start_cpace x Side_Allocator (bo_presence b) scalar = Ok (state, message) /\ frame_cpace message = Ok local.

Record boot_sound (b : CredentialV2AllocatorBootstrap) : Prop := {
  bs_typed : boot_typed b;
  bs_consistent : projection_is_consistent b = true;
  bs_relay : rs_cached_outbound (bo_relay b) = None;
  bs_share : bo_phase b = Bootstrap_ShareSent -> exists x state local, shares b x state local /\ bo_cached_outbound b = Some local;
  bs_finished : bo_phase b = Bootstrap_FinishedSent -> exists x state local peer message pending,
    shares b x state local /\ bo_peer_cpace b = Some peer /\ cpace_message peer = Some message /\
    bootstrap_pending x state local peer message = Ok pending /\
    bo_pending b = Some pending /\ bo_cached_outbound b = Some (v2_local_finished_frame pending)
}.

Lemma is_none_true {A} (o : option A) : is_none o = true <-> o = None.
Proof. destruct o; naive_solver. Qed.
Lemma is_none_false {A} (o : option A) : is_none o = false <-> is_Some o.
Proof. destruct o; simpl; [|split; [done|by intros []]]. split; [by eexists|done]. Qed.

(** The mode's part of the projection, which no operation changes. *)
Definition mode_fits b : bool :=
  negb (bool_decide (bo_mode b = AllocatorMode_Manual) &&
        (negb (manual_secret (pr_cpace_secret (bo_presence b))) || is_none (ca_expected_allocator_key (bo_carrier b)))).

Definition phase_fits b : Prop :=
  match bo_phase b with
  | Bootstrap_Allocated | Bootstrap_Claimed =>
      bo_fresh_scalar b = None /\ bo_peer_cpace b = None /\ bo_peer_finished b = None /\ bo_pending b = None /\
      bo_cached_outbound b = None
  | Bootstrap_ShareSent =>
      is_Some (bo_fresh_scalar b) /\ is_none_or (is_cpace_of Side_Claimant) (bo_peer_cpace b) = true /\
      bo_peer_finished b = None /\ bo_pending b = None /\
      is_some_and (is_cpace_of Side_Allocator) (bo_cached_outbound b) = true
  | Bootstrap_FinishedSent =>
      is_Some (bo_fresh_scalar b) /\ is_some_and (is_cpace_of Side_Claimant) (bo_peer_cpace b) = true /\
      is_some_and (is_finished_of Side_Allocator) (bo_cached_outbound b) = true /\
      is_none_or (is_finished_of Side_Claimant) (bo_peer_finished b) = true
  end.

(** The claim token is held before the claimant is admitted, and erased after. *)
Definition token_fits b : Prop := pr_claim_token (bo_presence b) = None <-> bo_phase b <> Bootstrap_Allocated.

Lemma consistent_ok b : projection_is_consistent b = true <-> mode_fits b = true /\ phase_fits b /\ token_fits b.
Proof.
  unfold projection_is_consistent, checkpoint_parts, mode_fits, phase_fits, token_fits. destruct (_ && _); [naive_solver|].
  cbn [negb]. destruct (bo_phase b); destruct (pr_claim_token _) as [t|]; cbn [is_none negb andb];
    rewrite ?andb_true_iff, ?negb_true_iff, ?is_none_true, ?is_none_false; naive_solver.
Qed.

(** ** What each operation does *)

Lemma admitted_cases b : claimant_admitted b = (b, Err CredentialV2Error_Phase) \/
  bo_phase b = Bootstrap_Allocated /\
  (claimant_admitted b).1 = match pr_claim_token (bo_presence b) with
    | Some _ => set_bo_phase Bootstrap_Claimed (set_bo_presence (mkCredentialV2Presence (pr_cpace_secret (bo_presence b)) None) b)
    | None => set_bo_presence (mkCredentialV2Presence (pr_cpace_secret (bo_presence b)) None) b
    end.
Proof.
  unfold claimant_admitted. run_guards. case_bool_decide as Hp; cbn [negb]; [right|by left]. split; [done|].
  unfold zoom, take_claim_token, mbind, stM_bind, get, modify, lift. cbn. by destruct (pr_claim_token _).
Qed.

Lemma start_cases scalar b : (bootstrap_start_cpace scalar b).1 = b \/
  bo_phase b = Bootstrap_Claimed /\ exists x state message frame,
    v2_derive (bo_carrier b) (bo_profile_digest b) = Ok x /\ v2_start_cpace x Side_Allocator (bo_presence b) scalar = Ok (state, message) /\
    frame_cpace message = Ok frame /\
    bootstrap_start_cpace scalar b = (set_bo_phase Bootstrap_ShareSent (set_bo_cached_outbound (Some frame) (set_bo_fresh_scalar (Some scalar) b)), Ok frame).
Proof.
  unfold bootstrap_start_cpace. run_guards. case_bool_decide as Hp; cbn [negb]; [|by left]. run_guards.
  destruct (v2_derive _ _) as [x|e|] eqn:Hx; [|by left..]. run_guards.
  destruct (v2_start_cpace _ _ _ _) as [[state message]|e|] eqn:Hs; [|by left..]. run_guards. cbn [snd].
  destruct (frame_cpace message) as [frame|e|] eqn:Hf; [|by left..]. right. split; [done|]. by exists x, state, message, frame.
Qed.

Lemma retain_cpace_cases frame b : (retain_peer_cpace frame b).1 = b \/
  bo_phase b = Bootstrap_ShareSent /\ is_cpace_of Side_Claimant frame = true /\
  (bo_peer_cpace b = None \/ bo_peer_cpace b = Some frame) /\
  retain_peer_cpace frame b = (set_bo_peer_cpace (Some frame) b, Ok tt).
Proof.
  unfold retain_peer_cpace, is_cpace_of. run_guards. case_bool_decide as Hp; cbn [negb]; [|by left]. run_guards.
  destruct (cpace_message frame) as [m|]; [|by left]. cbn [ok_or]. case_bool_decide as Hs; cbn [negb]; [|by left].
  destruct (bo_peer_cpace b) as [f|]; cbn [is_some_and]; [|right; by auto]. case_bool_decide; cbn [negb]; [|by left].
  right. subst. by auto.
Qed.

Lemma prepare_cases b : (prepare_finished b).1 = b \/
  bo_phase b = Bootstrap_ShareSent /\ exists x state local peer message pending,
    shares b x state local /\ bo_peer_cpace b = Some peer /\ cpace_message peer = Some message /\
    bo_cached_outbound b = Some local /\ bootstrap_pending x state local peer message = Ok pending /\
    prepare_finished b =
      (set_bo_phase Bootstrap_FinishedSent (set_bo_cached_outbound (Some (v2_local_finished_frame pending)) (set_bo_pending (Some pending) b)),
       Ok (v2_local_finished_frame pending)).
Proof.
  unfold prepare_finished. run_guards. case_bool_decide as Hp; cbn [negb]; [|by left]. run_guards.
  destruct (bo_peer_cpace b) as [peer|] eqn:Hpeer; [|by left]. cbn [ok_or]. run_guards.
  destruct (cpace_message peer) as [message|] eqn:Hm; [|by left]. cbn [ok_or]. run_guards.
  destruct (bo_fresh_scalar b) as [scalar|] eqn:Hsc; [|by left]. cbn [ok_or]. run_guards.
  destruct (v2_derive _ _) as [x|e|] eqn:Hx; [|by left..]. run_guards.
  destruct (v2_start_cpace _ _ _ _) as [[state own]|e|] eqn:Hs; [|by left..]. run_guards. cbn [fst snd].
  destruct (frame_cpace own) as [local|e|] eqn:Hf; [|by left..]. case_bool_decide as Hc; cbn [negb]; [|by left]. run_guards.
  destruct (bootstrap_pending _ _ _ _ _) as [pending|e|] eqn:Hpe; [|by left..]. right. split; [done|].
  exists x, state, local, peer, message, pending. split_and!; try done. by exists scalar, own.
Qed.

Lemma retain_finished_cases frame b : (retain_peer_finished frame b).1 = b \/
  bo_phase b = Bootstrap_FinishedSent /\ is_finished_of Side_Claimant frame = true /\
  (bo_peer_finished b = None \/ bo_peer_finished b = Some frame) /\
  retain_peer_finished frame b = (set_bo_peer_finished (Some frame) b, Ok tt).
Proof.
  unfold retain_peer_finished, is_finished_of. run_guards. case_bool_decide as Hp; cbn [negb]; [|by left]. run_guards.
  destruct (frame_finished frame) as [[s v]|]; [|by left]. cbn [ok_or fst]. case_bool_decide as Hs; cbn [negb]; [|by left].
  destruct (bo_peer_finished b) as [f|]; cbn [is_some_and]; [|right; by auto]. case_bool_decide; cbn [negb]; [|by left].
  right. subst. by auto.
Qed.

(** The relay operations of this phase cache no frame. *)
Lemma relay_cases {A} (m : relayM A) b : (forall r, rs_cached_outbound (m r).1 = rs_cached_outbound r /\ rs_membership_token (m r).1 = rs_membership_token r) ->
  exists r, (on_bootstrap_relay m b).1 = set_bo_relay r b /\ rs_cached_outbound r = rs_cached_outbound (bo_relay b) /\
    rs_membership_token r = rs_membership_token (bo_relay b).
Proof.
  intros Hm. exists (m (bo_relay b)).1. destruct (Hm (bo_relay b)) as [Hc Ht]. split; [|done].
  unfold on_bootstrap_relay, zoom. by destruct (m (bo_relay b)) as [r [a|e|]].
Qed.
Lemma peer_keeps n r : rs_cached_outbound (accept_peer_sequence n r).1 = rs_cached_outbound r /\
  rs_membership_token (accept_peer_sequence n r).1 = rs_membership_token r.
Proof. unfold accept_peer_sequence. run_guards. destruct (negb _); [done|]. run_guards. by destruct (ok_or _ _). Qed.
Lemma queue_keeps r : rs_cached_outbound (queue_bootstrap_frame r).1 = rs_cached_outbound r /\
  rs_membership_token (queue_bootstrap_frame r).1 = rs_membership_token r.
Proof. unfold queue_bootstrap_frame. run_guards. destruct (_ || _); [done|]. run_guards. by destruct (ok_or _ _). Qed.
Lemma ack_keeps n r : rs_cached_outbound (acknowledge_bootstrap_frame n r).1 = rs_cached_outbound r /\
  rs_membership_token (acknowledge_bootstrap_frame n r).1 = rs_membership_token r.
Proof. unfold acknowledge_bootstrap_frame. run_guards. destruct (ok_or _ _); [|done..]. by destruct (_ || _). Qed.

Lemma boot_seal_ok key generation nonce now b b' ck : bootstrap_seal_checkpoint key generation nonce now b = (b', Ok ck) ->
  b' = set_bo_checkpoint generation nonce b /\ now < ca_relay_expires_at (bo_carrier b) /\
  generation <> 0 /\ generation = saturating_add u64_max (bo_checkpoint_generation b) 1 /\ bo_checkpoint_nonce b <> Some nonce /\
  exists plaintext, encode_bootstrap b generation nonce = Ok plaintext /\
    seal_checkpoint_plaintext plaintext Side_Allocator (bo_carrier b) key generation (Some (ca_relay_expires_at (bo_carrier b))) nonce = Ok ck.
Proof.
  unfold bootstrap_seal_checkpoint. run_guards. destruct (_ <=? _) eqn:El; [done|]. destruct (_ || _) eqn:E; [done|]. run_guards.
  destruct (encode_bootstrap _ _ _) as [p|err|] eqn:Hp; [|done..]. run_guards.
  destruct (seal_checkpoint_plaintext _ _ _ _ _ _ _) as [c|err|] eqn:Hs; [|done..]. intros [= <- <-]. bool_to_prop.
  split_and!; try done. by exists p.
Qed.
Lemma boot_seal_cases key generation nonce now b : (bootstrap_seal_checkpoint key generation nonce now b).1 = b \/
  (bootstrap_seal_checkpoint key generation nonce now b).1 = set_bo_checkpoint generation nonce b.
Proof.
  unfold bootstrap_seal_checkpoint. run_guards. destruct (_ <=? _); [by left|]. destruct (_ || _); [by left|]. run_guards.
  destruct (encode_bootstrap _ _ _); [|by left..]. run_guards.
  destruct (seal_checkpoint_plaintext _ _ _ _ _ _ _); [by right|by left..].
Qed.

(** ** The invariant *)

Lemma message_of_share x side presence scalar state message : v2_start_cpace x side presence scalar = Ok (state, message) ->
  cm_side message = side /\ exists point, cm_share message = x25519 scalar point.
Proof.
  unfold v2_start_cpace. intros Hs. apply map_err_ok in Hs. unfold start_bound in Hs.
  apply bind_ok in Hs as ([s m] & Hs & [= _ <-]). apply cpace_start_ok in Hs as (g & _ & _ & -> & _). split; [done|]. by exists g.
Qed.
Lemma share_frame message frame : frame_cpace message = Ok frame -> frame = V2Frame_Cpace message.
Proof. unfold frame_cpace. destruct (_ || _); [done|]. by intros [= <-]. Qed.

Context `{!CborLaws, !X25519Laws, !ScheduleLaws}.

Lemma pending_typed x state local peer message pending : bootstrap_pending x state local peer message = Ok pending ->
  frame_typed (v2_local_finished_frame pending) /\ is_finished_of Side_Allocator (v2_local_finished_frame pending) = true.
Proof.
  unfold bootstrap_pending. intros (isk & _ & (lo & _ & (po & _ & Hp)%bind_ok)%bind_ok)%bind_ok.
  destruct (v2_schedule isk (cx_public_context x) lo po) as (pa & pc & ca & cb & Ha & _ & Hca & _ & Ht & _).
  assert (pa = pending) as <- by congruence. split; [done|].
  unfold PendingCredentialV2Channel_new in Ha. repeat (apply bind_ok in Ha as (? & _ & Ha)). injection Ha as <-. done.
Qed.

Lemma token_erased b : projection_is_consistent b = true -> bo_phase b <> Bootstrap_Allocated -> pr_claim_token (bo_presence b) = None.
Proof. rewrite consistent_ok. intros (_ & _ & Ht). apply Ht. Qed.

Lemma sound_admit b : boot_sound b -> boot_sound (claimant_admitted b).1.
Proof.
  intros Hs. destruct (admitted_cases b) as [->|[Hp ->]]; [done|]. destruct Hs as [Ht Hc Hr _ _].
  apply consistent_ok in Hc as (Hm & Hph & Htok). unfold phase_fits, token_fits in *. rewrite Hp in *.
  destruct (pr_claim_token _) eqn:He; [|by destruct Htok as [[] _]].
  split; [by destruct Ht; split| |done|done|done]. apply consistent_ok. by split_and!.
Qed.

Lemma sound_start scalar b : length scalar = 32%nat -> boot_sound b -> boot_sound (bootstrap_start_cpace scalar b).1.
Proof.
  intros Hl Hs. destruct (start_cases scalar b) as [->|(Hp & x & state & message & frame & Hx & Hst & Hf & ->)]; [done|].
  destruct Hs as [Ht Hc Hr _ _]. pose proof (message_of_share _ _ _ _ _ _ Hst) as [Hsd [pt Hsh]]. pose proof (share_frame _ _ Hf) as Hfr.
  apply consistent_ok in Hc as (Hm & Hph & Htok). unfold phase_fits, token_fits in *. rewrite Hp in *. destruct Hph as (_ & ? & ? & ? & _).
  split; [| |done| |done].
  - destruct Ht. split; try done. subst frame. cbn. rewrite Hsh. apply x25519_octets.
  - apply consistent_ok. split_and!; [done| |split; [done|by intros _; apply Htok]]. cbn. split_and!; [by eexists| |done..|].
    + by replace (bo_peer_cpace b) with (@None CredentialV2Frame).
    + subst frame. unfold is_cpace_of. cbn. by rewrite Hsd.
  - intros _. exists x, state, frame. split; [|done]. by exists scalar, message.
Qed.

Lemma sound_retain_cpace frame b : frame_typed frame -> boot_sound b -> boot_sound (retain_peer_cpace frame b).1.
Proof.
  intros Hl Hs. destruct (retain_cpace_cases frame b) as [->|(Hp & Hf & _ & ->)]; [done|]. destruct Hs as [Ht Hc Hr Hsh Hfin].
  apply consistent_ok in Hc as (Hm & Hph & Htok). unfold phase_fits, token_fits in *. rewrite Hp in *.
  split; [by destruct Ht; split| |done|intros _; exact (Hsh eq_refl)|cbn; by rewrite Hp]. apply consistent_ok. split_and!; [done| |]; unfold phase_fits, token_fits; cbn; rewrite Hp.
  - naive_solver.
  - done.
Qed.

Lemma sound_prepare b : boot_sound b -> boot_sound (prepare_finished b).1.
Proof.
  intros Hs. destruct (prepare_cases b) as [->|(Hp & x & state & local & peer & message & pending & Hsh & Hpeer & Hm & Hca & Hpe & ->)]; [done|].
  destruct Hs as [Ht Hc Hr _ _]. apply consistent_ok in Hc as (Hmf & Hph & Htok). unfold phase_fits, token_fits in *. rewrite Hp, Hpeer in *.
  destruct (pending_typed _ _ _ _ _ _ Hpe) as [Hty Hfi]. split; [|apply consistent_ok; split_and!|done|done|].
  - by destruct Ht; split.
  - done.
  - unfold phase_fits. cbn. rewrite Hpeer. destruct Hph as (? & ? & Hpf & _). by rewrite Hpf.
  - split; [done|by intros _; apply Htok].
  - intros _. by exists x, state, local, peer, message, pending.
Qed.

Lemma sound_receive frame b : frame_typed frame -> boot_sound b -> boot_sound (bootstrap_receive_cpace frame b).1.
Proof.
  intros Hf Hs. unfold bootstrap_receive_cpace, mbind, stM_bind. pose proof (sound_retain_cpace frame b Hf Hs) as Hr.
  destruct (retain_peer_cpace frame b) as [b1 [[]|e|]]; [by apply sound_prepare|done..].
Qed.

Lemma sound_retain_finished frame b : frame_typed frame -> boot_sound b -> boot_sound (retain_peer_finished frame b).1.
Proof.
  intros Hl Hs. destruct (retain_finished_cases frame b) as [->|(Hp & Hf & _ & ->)]; [done|]. destruct Hs as [Ht Hc Hr Hsh Hfin].
  apply consistent_ok in Hc as (Hm & Hph & Htok). unfold phase_fits, token_fits in *. rewrite Hp in *.
  split; [by destruct Ht; split| |done|cbn; by rewrite Hp|]. 
  - apply consistent_ok. split_and!; [done| |]; unfold phase_fits, token_fits; cbn; rewrite Hp; [naive_solver|done].
  - intros _. exact (Hfin eq_refl).
Qed.

Lemma sound_relay r b : rs_cached_outbound r = rs_cached_outbound (bo_relay b) -> rs_membership_token r = rs_membership_token (bo_relay b) ->
  boot_sound b -> boot_sound (set_bo_relay r b).
Proof.
  intros Hr Ht [[] Hc Hr' Hsh Hfin]. split; [split; try done; cbn; by rewrite Ht|done|cbn; by rewrite Hr|done|done].
Qed.

Lemma sound_checkpoint generation nonce b : 0 <= generation <= u64_max -> boot_sound b -> boot_sound (set_bo_checkpoint generation nonce b).
Proof. intros Hg [[] Hc Hr' Hsh Hfin]. by split. Qed.

Lemma sound_step op b : op_typed op -> boot_sound b -> boot_sound (boot_step op b).1.
Proof.
  intros Ho Hs. destruct op as [|scalar|frame| |frame|frame|n| |n|key g nonce now]; cbn [boot_step op_typed] in *; rewrite ?discard_state.
  - by apply sound_admit.
  - by apply sound_start.
  - by apply sound_retain_cpace.
  - by apply sound_prepare.
  - by apply sound_receive.
  - by apply sound_retain_finished.
  - destruct (relay_cases (accept_peer_sequence n) b (peer_keeps n)) as (r & -> & ? & ?). by apply sound_relay.
  - destruct (relay_cases queue_bootstrap_frame b queue_keeps) as (r & -> & ? & ?). by apply sound_relay.
  - destruct (relay_cases (acknowledge_bootstrap_frame n) b (ack_keeps n)) as (r & -> & ? & ?). by apply sound_relay.
  - destruct (boot_seal_cases key g nonce now b) as [-> | ->]; [done|]. destruct Ho. by apply sound_checkpoint.
Qed.
Lemma sound_run ops b : Forall op_typed ops -> boot_sound b -> boot_sound (boot_run ops b).
Proof. intros Ho. revert b. induction Ho as [|op ops Hop _ IH]; intros b Hs; [done|]. by apply IH, sound_step. Qed.

Lemma sound_new carrier presence profile_digest relay mode b :
  CredentialV2AllocatorBootstrap_new carrier presence profile_digest relay mode = Ok b ->
  carrier_typed carrier -> length (pr_cpace_secret presence) = 16%nat -> optional_length 16 (pr_claim_token presence) ->
  is_Some (pr_claim_token presence) -> length profile_digest = 32%nat -> length (rs_membership_token relay) = 32%nat ->
  rs_cached_outbound relay = None -> boot_sound b.
Proof.
  unfold CredentialV2AllocatorBootstrap_new. intros (x & _ & (u & Hm & [= <-])%bind_ok)%bind_ok Hc Hs Ht Hsome Hp Hr Hro.
  split; [by split| |done..]. apply consistent_ok. split_and!; [|done|].
  - unfold mode_fits. cbn. case_bool_decide; [|done]. apply bind_ok in Hm as (w & Hw%map_err_ok & Hk).
    unfold manual_secret. rewrite Hw. by destruct (is_none _).
  - unfold token_fits. cbn. destruct Hsome as [t ->]. naive_solver.
Qed.

(** What a run keeps, and the order of the phases. *)
Record boot_keeps (b b' : CredentialV2AllocatorBootstrap) : Prop := {
  bk_carrier : bo_carrier b' = bo_carrier b;
  bk_mode : bo_mode b' = bo_mode b;
  bk_profile : bo_profile_digest b' = bo_profile_digest b;
  bk_secret : pr_cpace_secret (bo_presence b') = pr_cpace_secret (bo_presence b);
  bk_membership : rs_membership_token (bo_relay b') = rs_membership_token (bo_relay b);
  bk_phase : boot_phase_number (bo_phase b) <= boot_phase_number (bo_phase b')
}.
Lemma keeps_refl b : boot_keeps b b.
Proof. by split. Qed.
Lemma keeps_trans b1 b2 b3 : boot_keeps b1 b2 -> boot_keeps b2 b3 -> boot_keeps b1 b3.
Proof. intros [] []. split; first [congruence|lia]. Qed.

Lemma keeps_prepare b : boot_keeps b (prepare_finished b).1.
Proof.
  destruct (prepare_cases b) as [-> |(Hp & x & st & lo & pe & me & pend & _ & _ & _ & _ & _ & ->)]; [done|].
  split; cbn; rewrite ?Hp; done.
Qed.
Lemma keeps_step op b : boot_keeps b (boot_step op b).1.
Proof.
  destruct op as [|scalar|frame| |frame|frame|n| |n|key g nonce now]; cbn [boot_step]; rewrite ?discard_state.
  - destruct (admitted_cases b) as [-> |[Hp ->]]; [done|]. destruct (pr_claim_token _); split; cbn; rewrite ?Hp; done.
  - destruct (start_cases scalar b) as [-> |(Hp & x & state & message & frame & _ & _ & _ & ->)]; [done|]. split; cbn; rewrite ?Hp; done.
  - destruct (retain_cpace_cases frame b) as [-> |(_ & _ & _ & ->)]; [done|]. by split.
  - apply keeps_prepare.
  - unfold bootstrap_receive_cpace, mbind, stM_bind. destruct (retain_cpace_cases frame b) as [Hb|(_ & _ & _ & ->)].
    + destruct (retain_peer_cpace frame b) as [b1 [[]|e|]]; cbn in Hb |- *; subst b1; [apply keeps_prepare|done..].
    + eapply keeps_trans; [|apply keeps_prepare]. by split.
  - destruct (retain_finished_cases frame b) as [-> |(_ & _ & _ & ->)]; [done|]. by split.
  - destruct (relay_cases (accept_peer_sequence n) b (peer_keeps n)) as (r & -> & _ & ?). by split.
  - destruct (relay_cases queue_bootstrap_frame b queue_keeps) as (r & -> & _ & ?). by split.
  - destruct (relay_cases (acknowledge_bootstrap_frame n) b (ack_keeps n)) as (r & -> & _ & ?). by split.
  - destruct (boot_seal_cases key g nonce now b) as [-> | ->]; [done|by split].
Qed.
Lemma keeps_run ops b : boot_keeps b (boot_run ops b).
Proof. revert b. induction ops as [|op ops IH]; intros b; [done|]. eapply keeps_trans; [apply keeps_step|apply IH]. Qed.

(** ** A checkpoint can always be sealed *)

(** A frame off the wire; the code builds no other frame that encoding
    refuses. *)
Definition frame_known (f : CredentialV2Frame) : Prop := exists octets, decode_frame octets = Ok f.
Definition op_known (op : boot_op) : Prop :=
  match op with
  | Boot_RetainCpace frame | Boot_ReceiveCpace frame | Boot_RetainFinished frame => frame_known frame
  | _ => True
  end.
Definition peers_known b : Prop := forall f, bo_peer_cpace b = Some f \/ bo_peer_finished b = Some f -> frame_known f.

Lemma peers_prepare b : peers_known b -> peers_known (prepare_finished b).1.
Proof. intros Hk. by destruct (prepare_cases b) as [-> |(_ & x & st & lo & pe & me & pend & _ & _ & _ & _ & _ & ->)]. Qed.
Lemma peers_retain_cpace f b : frame_known f -> peers_known b -> peers_known (retain_peer_cpace f b).1.
Proof.
  intros Hf Hk. destruct (retain_cpace_cases f b) as [-> |(_ & _ & _ & ->)]; [done|].
  intros f' [[= <-]|Hp]; [done|]. apply Hk. by right.
Qed.
Lemma peers_step op b : op_known op -> peers_known b -> peers_known (boot_step op b).1.
Proof.
  intros Ho Hk. destruct op as [|scalar|frame| |frame|frame|n| |n|key g nonce now]; cbn [boot_step op_known] in *; rewrite ?discard_state.
  - destruct (admitted_cases b) as [-> |[_ ->]]; [done|]. by destruct (pr_claim_token _).
  - by destruct (start_cases scalar b) as [-> |(_ & x & state & message & frame & _ & _ & _ & ->)].
  - by apply peers_retain_cpace.
  - by apply peers_prepare.
  - unfold bootstrap_receive_cpace, mbind, stM_bind. pose proof (peers_retain_cpace frame b Ho Hk) as Hr.
    destruct (retain_peer_cpace frame b) as [b1 [[]|e|]]; [by apply peers_prepare|done..].
  - destruct (retain_finished_cases frame b) as [-> |(_ & _ & _ & ->)]; [done|]. intros f' [Hp|[= <-]]; [|done]. apply Hk. by left.
  - by destruct (relay_cases (accept_peer_sequence n) b (peer_keeps n)) as (r & -> & _).
  - by destruct (relay_cases queue_bootstrap_frame b queue_keeps) as (r & -> & _).
  - by destruct (relay_cases (acknowledge_bootstrap_frame n) b (ack_keeps n)) as (r & -> & _).
  - by destruct (boot_seal_cases key g nonce now b) as [-> | ->].
Qed.
Lemma peers_run ops b : Forall op_known ops -> peers_known b -> peers_known (boot_run ops b).
Proof. intros Ho. revert b. induction Ho as [|op ops Hop _ IH]; intros b Hk; [done|]. by apply IH, peers_step. Qed.

Context `{!CborSizeLaws, !HkdfSaltedLaws, !AeadLaws}.

Lemma plaintext_seals plaintext side carrier key generation expiry nonce :
  0 < blen plaintext <= CHECKPOINT_MAX_PLAINTEXT -> length (ca_carrier_ceremony_id carrier) = 32%nat -> 0 <= generation <= u64_max ->
  match expiry with Some value => 0 <= value <= u64_max | None => True end -> length nonce = 12%nat ->
  exists ck, seal_checkpoint_plaintext plaintext side carrier key generation expiry nonce = Ok ck.
Proof.
  intros [Hp Hpm] Hc Hg He Hn. unfold seal_checkpoint_plaintext.
  assert (plain (VArray (aad_members side (ca_carrier_ceremony_id carrier) generation expiry)) = true) as Hpl by by apply aad_members_plain.
  destruct (plain_written _ Hpl) as [aad Haad]. pose proof (plain_size _ _ Hpl Haad) as [_ Has].
  assert (blen aad <= aead_data_max) as Hal.
  { etrans; [exact Has|]. unfold aad_members, aead_data_max. destruct side, expiry; cbn; unfold blen; cbn; rewrite Hc; lia. }
  unfold checkpoint_aad, derive_key, checkpoint_key_info.
  destruct (plain_written (VArray [VText KEY_INFO_DOMAIN; VText (side_text side); VText CHECKPOINT_PROFILE]) eq_refl) as [info Hi].
  rewrite Haad, Hi. cbn [ok_or]. rewrite !ok_bind.
  destruct (salted_expands (ca_carrier_ceremony_id carrier) key info 32 ltac:(lia)) as (okm & Hk & Hkl). rewrite Hk. cbn [ok_or].
  rewrite ok_bind. unfold v2_cipher_key. rewrite Hkl. cbn [Nat.eqb]. rewrite ok_bind. unfold CHECKPOINT_MAX_PLAINTEXT, CHECKPOINT_MAX_CIPHERTEXT in *.
  destruct (encrypt_some okm nonce aad plaintext Hkl Hn ltac:(unfold aead_message_max; lia) Hal) as [ct Hct].
  rewrite Hct. pose proof (encrypt_len _ _ _ _ _ Hct) as Hcl. cbn [ok_or]. rewrite ok_bind.
  assert (blen ct = blen plaintext + 16) as Hcb by (unfold blen; lia).
  rewrite !bool_decide_eq_false_2 by (intros ->; unfold blen in *; cbn in *; lia). rewrite !(proj2 (Z.ltb_ge _ _)) by lia. cbn [orb].
  unfold encode_outer. destruct (plain_written (VArray (aad_members side (ca_carrier_ceremony_id carrier) generation expiry ++ [VBytes nonce; VBytes ct])))
    as [octets Ho]; [|rewrite Ho; by eexists]. cbn [plain] in *. by rewrite forallb_app, Hpl.
Qed.

Lemma carrier_small c octets : carrier_typed c -> encode_carrier c = Ok octets -> 1 <= blen octets <= 3000.
Proof.
  intros Hty. unfold encode_carrier. intros (o & Ha & (u & Ho & Hw%ok_or_ok)%bind_ok)%bind_ok.
  pose proof (carrier_entries_plain c Hty) as Hp. apply map_size in Hw; [|done].
  assert (blen (ascii_bytes (ca_application_context c)) <= 2048).
  { unfold recognise_application_id in Ha. destruct (_ || _) eqn:E in Ha; [done|]. apply orb_false_iff in E as [_ E].
    unfold MAX_APPLICATION_ID_OCTETS in E. lia. }
  assert (blen (ascii_bytes (ca_relay_origin c)) <= 272).
  { unfold v2_validate_origin in Ho. destruct (_ || _) eqn:E in Ho; [done|]. apply orb_false_iff in E as [[_ E]%orb_false_iff _]. lia. }
  split; [lia|]. etrans; [apply Hw|]. destruct Hty as [Hm Hce Hn Hco _ Hk]. clear Hw Hp Ha Ho. unfold blen in *.
  unfold carrier_entries. destruct (ca_expected_allocator_key c); cbn; unfold blen; cbn; rewrite ?Hk, ?Hm, ?Hce, ?Hn, ?Hco; lia.
Qed.
Lemma frame_small f octets : frame_typed f -> is_Some (cpace_message f) \/ is_Some (frame_finished f) -> encode_frame f = Ok octets ->
  1 <= blen octets <= 3000.
Proof.
  intros Hty Hk. unfold encode_frame. destruct f as [m|side v|d n c]; [| |by destruct Hk as [[] | []]].
  - destruct (_ || _) eqn:E; [done|]. apply orb_false_iff in E as [_ E]. cbn [cm_associated_data] in E.
    intros (es & (nested & Hn%ok_or_ok & [= <-])%bind_ok & Hw%ok_or_ok)%bind_ok.
    apply (plain_size _ _ (cpace_parts_plain m)) in Hn. apply map_size in Hw; [|apply cpace_entries_plain].
    cbn in Hn, Hw, Hty. unfold blen in *. cbn in Hn, Hw. rewrite Hty in Hn. lia.
  - rewrite ok_bind. intros Hw%ok_or_ok. apply map_size in Hw; [|apply finished_entries_plain]. cbn in Hw, Hty. unfold blen in *. cbn in Hw.
    rewrite Hty in Hw. lia.
Qed.
Lemma appends octets : 1 <= blen octets <= 3000 -> exists out, append_bytes octets = Ok out /\ blen out = 4 + blen octets.
Proof.
  intros Hl. unfold append_bytes, MAX_FRAME_BYTES, try_into. rewrite bool_decide_eq_false_2 by (intros ->; unfold blen in *; cbn in *; lia).
  rewrite (proj2 (Z.ltb_ge _ _)), (proj2 (Z.leb_le 0 _)), (proj2 (Z.leb_le _ u32_max)) by (unfold u32_max; lia).
  cbn [orb andb ok_or]. rewrite ok_bind. eexists. split; [done|]. rewrite blen_app. unfold blen. rewrite to_be_bytes_length. lia.
Qed.

(** The frames that a sound state holds. *)
Definition frame_builds (f : option CredentialV2Frame) : Prop :=
  exists out, append_optional_frame f append_bytes = Ok out /\ blen out <= 3005.
Lemma known_builds f side : frame_known f -> is_cpace_of side f = true \/ is_finished_of side f = true -> frame_builds (Some f).
Proof.
  intros [input [Hty Ho]%frame_inverse] Hk.
  assert (1 <= blen input <= 3000) as Hs.
  { eapply frame_small; [done| |done]. destruct Hk as [Hk|Hk]; [left|right]; [unfold is_cpace_of in Hk|unfold is_finished_of in Hk];
      destruct (_ f); try done; by eexists. }
  destruct (appends input Hs) as (out & Ha & Hl). exists (1 :: out). unfold append_optional_frame. rewrite Ho, ok_bind, Ha, ok_bind.
  split; [done|]. rewrite blen_cons. lia.
Qed.
Lemma none_builds : frame_builds None.
Proof. by exists [0]. Qed.
Lemma share_known message frame : frame_typed frame -> frame_cpace message = Ok frame -> frame_known frame.
Proof.
  intros Hty Hf. pose proof (share_frame _ _ Hf) as ->. unfold frame_cpace in Hf. destruct (_ || _) eqn:E; [done|].
  destruct (plain_written _ (cpace_parts_plain message)) as [nested Hn].
  destruct (map_written _ (cpace_entries_plain (cm_side message) nested)) as [octets Ho]. exists octets. apply frame_inverse. split; [done|].
  unfold encode_frame. rewrite E, Hn. cbn [ok_or]. rewrite !ok_bind. by rewrite Ho.
Qed.
Lemma finished_known side value : length value = 64%nat -> frame_known (V2Frame_Finished side value).
Proof.
  intros Hl. destruct (map_written _ (finished_entries_plain side value)) as [octets Ho]. exists octets. apply frame_inverse.
  split; [done|]. unfold encode_frame. by rewrite ok_bind, Ho.
Qed.
Lemma sound_cached b : boot_sound b -> frame_builds (bo_cached_outbound b).
Proof.
  intros [Ht Hc Hr Hsh Hfin]. apply consistent_ok in Hc as (_ & Hph & _). unfold phase_fits in Hph. pose proof (bt_cached _ Ht) as Hty.
  destruct (bo_phase b) eqn:Hp.
  - destruct Hph as (_ & _ & _ & _ & ->). apply none_builds.
  - destruct Hph as (_ & _ & _ & _ & ->). apply none_builds.
  - destruct (Hsh eq_refl) as (x & state & local & (scalar & message & _ & _ & _ & Hf) & Hca). destruct Hph as (_ & _ & _ & _ & Hs).
    rewrite Hca in Hty, Hs |- *. eapply (known_builds _ Side_Allocator); [by eapply share_known|by left].
  - destruct (Hfin eq_refl) as (x & state & local & peer & message & pending & _ & _ & _ & Hpe & _ & Hca). destruct Hph as (_ & _ & Hs & _).
    rewrite Hca in Hty, Hs |- *. cbn [is_some_and] in Hs. unfold v2_local_finished_frame in *.
    eapply (known_builds _ Side_Allocator); [by apply finished_known|by right].
Qed.
Lemma sound_peers b : boot_sound b -> peers_known b -> frame_builds (bo_peer_cpace b) /\ frame_builds (bo_peer_finished b).
Proof.
  intros [_ Hc _ _ _] Hk. apply consistent_ok in Hc as (_ & Hph & _). unfold phase_fits in Hph.
  assert (is_none_or (is_cpace_of Side_Claimant) (bo_peer_cpace b) = true /\ is_none_or (is_finished_of Side_Claimant) (bo_peer_finished b) = true) as [H1' H2'].
  { destruct (bo_phase b); destruct (bo_peer_cpace b), (bo_peer_finished b); cbn in *; naive_solver. }
  unfold peers_known in Hk. destruct (bo_peer_cpace b), (bo_peer_finished b); cbn in H1', H2'; split; try apply none_builds;
    eapply (known_builds _ Side_Claimant); eauto.
Qed.
Lemma bootstrap_encodes b generation nonce octets : boot_sound b -> peers_known b -> encode_carrier (bo_carrier b) = Ok octets ->
  length nonce = 12%nat -> exists plaintext, encode_bootstrap b generation nonce = Ok plaintext /\ 0 < blen plaintext <= CHECKPOINT_MAX_PLAINTEXT.
Proof.
  intros Hs Hk Ho Hn. destruct (sound_peers b Hs Hk) as [(pc & Hpc & Hpcl) (pf & Hpf & Hpfl)]. destruct (sound_cached b Hs) as (co & Hco & Hcol).
  pose proof Hs as [Ht Hc _ _ _]. pose proof Ht as [Hcar Hsec Htok Hpro Hmem Hsca _ _ _ _].
  destruct (appends octets (carrier_small _ _ Hcar Ho)) as (cw & Hcw & Hcwl). pose proof (carrier_small _ _ Hcar Ho) as Hol.
  unfold encode_bootstrap. rewrite Hc. cbn [negb checkpoint_parts]. rewrite Ho, ok_bind, Hcw, ok_bind, Hpc, ok_bind, Hpf, ok_bind, Hco, ok_bind.
  assert (forall n (o : option bytes), optional_length n o -> blen (append_optional_fixed o) <= 1 + Z.of_nat n) as Hfix.
  { intros n [x|] Hx; cbn [append_optional_fixed]; [rewrite blen_cons; unfold blen; rewrite Hx; lia|unfold blen; cbn; lia]. }
  pose proof (Hfix _ _ Htok) as Htl. pose proof (Hfix _ _ Hsca) as Hsl.
  match goal with |- exists p, (if MAX_INNER_BYTES <? blen ?x then _ else _) = _ /\ _ => set (out := x) end.
  assert (0 < blen out <= 16000) as Hout; [|exists out; unfold MAX_INNER_BYTES, CHECKPOINT_MAX_PLAINTEXT, CHECKPOINT_MAX_CIPHERTEXT; rewrite (proj2 (Z.ltb_ge _ _)) by lia; split; [done|lia]].
  unfold out. rewrite !blen_app. assert (forall z, blen [z] = 1) as H1' by done. rewrite !H1'.
  assert (blen BOOTSTRAP_DOMAIN = 35) as -> by done. unfold blen in *. rewrite !to_be_bytes_length, Hn, Hpro, Hsec, Hmem. lia.
Qed.

(** The relay state, the carrier and the expiry are within their bounds, the
    generation is the next one and the nonce a new one. *)
Lemma bootstrap_seals key generation nonce now b octets : boot_sound b -> peers_known b -> encode_carrier (bo_carrier b) = Ok octets ->
  length nonce = 12%nat -> now < ca_relay_expires_at (bo_carrier b) -> generation = saturating_add u64_max (bo_checkpoint_generation b) 1 ->
  bo_checkpoint_nonce b <> Some nonce -> exists ck, bootstrap_seal_checkpoint key generation nonce now b = (set_bo_checkpoint generation nonce b, Ok ck).
Proof.
  intros Hs Hk Ho Hn Hnow Hg Hne. pose proof (bs_typed _ Hs) as Ht. pose proof (bt_generation _ Ht) as Hgb. pose proof (bt_carrier _ Ht) as Hcar.
  destruct (bootstrap_encodes b generation nonce octets Hs Hk Ho Hn) as (plaintext & Hp & Hpl).
  assert (0 < generation <= u64_max) as Hgen by (subst generation; unfold saturating_add, u64_max in *; lia).
  destruct (plaintext_seals plaintext Side_Allocator (bo_carrier b) key generation (Some (ca_relay_expires_at (bo_carrier b))) nonce Hpl
    (cat_ceremony _ Hcar) ltac:(lia) (cat_expiry _ Hcar) Hn) as [ck Hck].
  exists ck. unfold bootstrap_seal_checkpoint. run_guards. rewrite (proj2 (Z.leb_gt _ _)) by done.
  rewrite (proj2 (Z.eqb_neq generation 0)) by lia. rewrite <- Hg, Z.eqb_refl, bool_decide_eq_false_2 by done. cbn [negb orb]. run_guards.
  rewrite Hp. run_guards. by rewrite Hck.
Qed.

(** ** Reading a checkpoint back *)

Context `{!CborIntLaws}.

Lemma carrier_octets_nonempty c octets : encode_carrier c = Ok octets -> octets <> [].
Proof. unfold encode_carrier. intros (? & _ & (? & _ & Hw%ok_or_ok)%bind_ok)%bind_ok ->. by apply written_nonempty in Hw. Qed.

Lemma boot_frame_reads f out : optional_typed f -> append_optional_frame f append_bytes = Ok out ->
  reads out (decode_optional_frame (cursor_length_prefixed MAX_FRAME_BYTES)) f.
Proof.
  intros Hty Ha. eapply optional_frame_reads; [exact Hty|exact Ha|]. intros fr octets o _ _ Hne [Hl ->]%append_bytes_ok.
  apply length_prefixed_reads; [done|]. unfold MAX_FRAME_BYTES, u32_max in *. lia.
Qed.

Lemma set_pending_same b : bo_pending b = None -> set_bo_pending None b = b.
Proof. intros Hp. destruct b. cbn in *. by subst. Qed.

(** The checks at the end accept what a sound state retained, and make the
    pending channel again. *)
Lemma revived_sound b : boot_sound b -> revived (set_bo_pending None b) = Ok b.
Proof.
  intros [Ht Hc Hr Hsh Hfin]. unfold revived. apply consistent_ok in Hc as Hc'. destruct Hc' as (Hm & Hph & Htok).
  assert (projection_is_consistent (set_bo_pending None b) = true) as ->.
  { apply consistent_ok. split_and!; [done| |done]. unfold phase_fits in *. cbn. destruct (bo_phase b); naive_solver. }
  cbn [negb]. change (bo_phase (set_bo_pending None b)) with (bo_phase b). unfold phase_fits in Hph. destruct (bo_phase b) eqn:Hp.
  - by rewrite set_pending_same by apply Hph.
  - by rewrite set_pending_same by apply Hph.
  - destruct (Hsh eq_refl) as (x & state & local & (scalar & message & Hsc & Hx & Hst & Hf) & Hca).
    cbn [bo_fresh_scalar bo_carrier bo_profile_digest bo_presence bo_cached_outbound set_bo_pending].
    rewrite Hsc. cbn [ok_or]. rewrite ok_bind, Hx, ok_bind, Hst, ok_bind. cbn [snd]. rewrite Hf, ok_bind, Hca, bool_decide_eq_true_2 by done.
    cbn [negb]. by rewrite set_pending_same by apply Hph.
  - destruct (Hfin eq_refl) as (x & state & local & peer & message & pending & (scalar & own & Hsc & Hx & Hst & Hf) & Hpeer & Hme & Hpe & Hpd & Hca).
    unfold rebuild_pending. run_guards. cbn [bo_fresh_scalar bo_carrier bo_profile_digest bo_presence bo_cached_outbound bo_peer_cpace set_bo_pending].
    rewrite Hsc, Hpeer. cbn [ok_or]. run_guards. rewrite Hme. cbn [ok_or]. run_guards. rewrite Hx. run_guards. rewrite Hst. run_guards.
    cbn [fst snd]. rewrite Hf. run_guards. rewrite Hpe. run_guards. rewrite Hca, bool_decide_eq_true_2 by done. cbn [negb].
    unfold modify. f_equal. destruct b. cbn in *. by subst.
Qed.

Definition mode_octet (mode : CredentialV2AllocatorMode) : Z := match mode with AllocatorMode_Full => 0 | AllocatorMode_Manual => 1 end.
Lemma mode_tag mode : tag_mode (BOOTSTRAP_DOMAIN ++ [mode_octet mode]) = Ok mode.
Proof. by destruct mode; vm_compute. Qed.
Lemma boot_number_inv phase : boot_number_phase (boot_phase_number phase) = Ok phase.
Proof. by destruct phase. Qed.
Lemma tag_length mode : blen (BOOTSTRAP_DOMAIN ++ [mode_octet mode]) = blen OLD_BOOTSTRAP_DOMAIN.
Proof. by destruct mode; vm_compute. Qed.

(** What [decode_bootstrap] makes of the octets [encode_bootstrap] wrote. *)
Lemma bootstrap_reads b generation nonce plaintext carrier' mode' :
  boot_sound b -> 0 <= generation <= u64_max -> length nonce = 12%nat -> encode_bootstrap b generation nonce = Ok plaintext ->
  (decode_bootstrap carrier' generation nonce mode' (Cursor_new plaintext)).2 =
    if bool_decide (bo_mode b = mode') && bool_decide (bo_carrier b = carrier') then Ok (set_bo_checkpoint generation nonce b)
    else Err CredentialV2Error_Profile.
Proof.
  intros Hs Hg Hn He. pose proof Hs as [Ht Hc Hro _ _]. pose proof Ht as [Hcar Hsec Htok Hpro Hmem Hsca Hpc Hpf Hco _].
  unfold encode_bootstrap in He. rewrite Hc in He. cbn [negb checkpoint_parts] in He.
  apply bind_ok in He as (cb & Hcb & (cw & Hcw & (pc & Hpcw & (pf & Hpfw & (co & Hcow & He)%bind_ok)%bind_ok)%bind_ok)%bind_ok).
  destruct (MAX_INNER_BYTES <? blen _) eqn:Hlen in He; [done|]. apply Z.ltb_ge in Hlen.
  match type of He with Ok ?o = _ => assert (o = plaintext) as Ho by (by injection He); rewrite Ho in Hlen end. clear He.
  change (match bo_mode b with AllocatorMode_Full => 0 | AllocatorMode_Manual => 1 end) with (mode_octet (bo_mode b)) in Ho.
  rewrite app_assoc in Ho. subst plaintext. cbn [app]. apply reads_rest_run; [|etrans; [exact Hlen|done]]. clear Hlen.
  unfold decode_bootstrap. rewrite <- (tag_length (bo_mode b)). eapply reads_rest_bind; [apply take_reads|cbv beta].
  eapply reads_rest_lift; [apply mode_tag|]. case_bool_decide as Hm; cbn [negb andb]; [|intros pre _; by eexists].
  apply append_bytes_ok in Hcw as [Hcl ->]. eapply reads_rest_bind.
  { apply length_prefixed_reads; unfold MAX_FRAME_BYTES, MAX_INNER_BYTES, u32_max in *; lia. }
  cbv beta. eapply reads_rest_lift; [by apply carrier_inverse|]. case_bool_decide as Hcc; cbn [negb]; [|intros pre _; by eexists].
  eapply reads_rest_bind; [by apply array_reads|cbv beta].
  apply octet_reads_rest with (a := bo_phase b); [apply boot_number_inv|].
  eapply reads_rest_bind; [by apply array_reads|cbv beta]. eapply reads_rest_bind; [by apply optional_array_reads|cbv beta].
  eapply reads_rest_bind; [by apply array_reads|cbv beta]. do 2 apply byte_then_rest.
  eapply (reads_rest_bind [_]); [apply boolean_reads|cbv beta]. eapply reads_rest_bind; [by apply optional_array_reads|cbv beta].
  do 3 (eapply reads_rest_bind; [eapply boot_frame_reads; [|eassumption]; done|cbv beta]).
  eapply reads_rest_bind; [by apply u64_reads|cbv beta]. rewrite <- (app_nil_r nonce) at 1. eapply reads_rest_bind; [by apply array_reads|cbv beta].
  apply reads_rest_finished. intros c ->. exists c. rewrite Z.eqb_refl, bool_decide_eq_true_2 by done. cbn [negb orb]. unfold lift. f_equal.
  rewrite <- (revived_sound (set_bo_checkpoint generation nonce b)) by by apply sound_checkpoint. f_equal.
  destruct b as [? ? [] ? [] ? ? ? ? ? ? ? ?]. cbn in *. by subst.
Qed.

Lemma new_fields carrier presence profile_digest relay mode b :
  CredentialV2AllocatorBootstrap_new carrier presence profile_digest relay mode = Ok b ->
  bo_carrier b = carrier /\ bo_mode b = mode /\ peers_known b /\ exists octets, encode_carrier carrier = Ok octets.
Proof.
  unfold CredentialV2AllocatorBootstrap_new. intros (x & Hx & (u & _ & [= <-])%bind_ok)%bind_ok. split_and!; [done|done|by intros f [[=]|[=]]|].
  unfold v2_derive, carrier_digest in Hx. destruct (encode_carrier carrier) as [octets|e|]; [by eexists|done..].
Qed.
Lemma sealed_restores key generation nonce now b b' ck : boot_sound b -> length nonce = 12%nat ->
  bootstrap_seal_checkpoint key generation nonce now b = (b', Ok ck) ->
  (forall now', now' < ca_relay_expires_at (bo_carrier b) ->
     bootstrap_restore_checkpoint (ec_bytes ck) key (bo_carrier b) generation now' (bo_mode b) = Ok b') /\
  (forall carrier' generation' now' mode' r,
     bootstrap_restore_checkpoint (ec_bytes ck) key carrier' generation' now' mode' = Ok r ->
     carrier' = bo_carrier b /\ generation' = generation /\ mode' = bo_mode b /\ now' < ca_relay_expires_at (bo_carrier b) /\ r = b').
Proof.
  intros Hsound Hn (-> & _ & Hne & Hgen & _ & plaintext & Hpl & Hsp)%boot_seal_ok. pose proof (bs_typed _ Hsound) as Ht.
  assert (0 < generation <= u64_max) as Hg by (pose proof (bt_generation _ Ht); unfold saturating_add in Hgen; lia).
  pose proof (fun c' g' p o => sealed_opens plaintext Side_Allocator (bo_carrier b) key generation (Some (ca_relay_expires_at (bo_carrier b)))
    nonce ck Side_Allocator c' g' p o (cat_ceremony _ (bt_carrier _ Ht)) Hg (cat_expiry _ (bt_carrier _ Ht)) Hn Hsp) as Ho.
  pose proof (fun c' m' => bootstrap_reads b generation nonce plaintext c' m' Hsound ltac:(lia) Hn Hpl) as Hr.
  unfold bootstrap_restore_checkpoint, open_checkpoint_plaintext, bootstrap_of_opened. split.
  - intros now' Hlive.
    rewrite (proj2 (Ho (bo_carrier b) generation (Purpose_ResumeAt now') (mkOpenedCheckpoint plaintext (Some (ca_relay_expires_at (bo_carrier b))) nonce)));
      [|by split_and!].
    rewrite ok_bind. cbn [oc_expiry oc_nonce oc_plaintext]. rewrite bool_decide_eq_true_2 by done. cbn [negb].
    by rewrite Hr, !bool_decide_eq_true_2 by done.
  - intros carrier' generation' now' mode' r (opened & (_ & _ & -> & Hlive & ->)%Ho & Hd)%bind_ok. cbn [oc_expiry oc_nonce oc_plaintext live_for] in *.
    destruct (negb _); [done|]. rewrite Hr in Hd. destruct (_ && _) eqn:E in Hd; [|done]. injection Hd as <-.
    apply andb_true_iff in E as [Em%bool_decide_eq_true Ec%bool_decide_eq_true]. by split_and!.
Qed.
End Bootstrap.

(** ** Properties *)

(** C21. The allocator survives a crash before its channel is confirmed.  After
    any operations on a new allocation, failed ones included, its projection is
    consistent: its carrier, mode, profile, secret and membership are those of
    the allocation, and the claim token is erased exactly when the claimant has
    been admitted.  If the frames it was given came off the wire, it can be
    sealed before the relay's expiry under the next generation with a new nonce,
    and in no other case.  A checkpoint it seals then restores, until the
    expiry, to exactly the sealed state: the pending channel, which no
    checkpoint holds, is derived again.  For another carrier, mode or
    generation, or once expired, it does not restore. *)
Theorem v2_bootstrap_restores `{Cbor, !CborLaws, !CborIntLaws, !CborSizeLaws, UrlParser, Sha256, Sha512, HkdfSha512, HmacSha512, !ScheduleLaws,
    Fiat25519, X25519, !X25519Laws, HkdfSalted, !HkdfSaltedLaws, Aead, !AeadLaws}
    carrier presence profile_digest relay mode b0 ops b :
  CredentialV2AllocatorBootstrap_new carrier presence profile_digest relay mode = Ok b0 ->
  carrier_typed carrier -> length (pr_cpace_secret presence) = 16%nat -> optional_length 16 (pr_claim_token presence) ->
  is_Some (pr_claim_token presence) -> length profile_digest = 32%nat -> length (rs_membership_token relay) = 32%nat ->
  rs_cached_outbound relay = None -> Forall op_typed ops -> boot_run ops b0 = b ->
  (projection_is_consistent b = true /\ boot_keeps b0 b /\
   (pr_claim_token (bo_presence b) = None <-> bo_phase b <> Bootstrap_Allocated)) /\
  (Forall op_known ops -> forall key generation nonce now, length nonce = 12%nat ->
     (exists b' ck, bootstrap_seal_checkpoint key generation nonce now b = (b', Ok ck)) <->
     now < ca_relay_expires_at carrier /\ generation = saturating_add u64_max (bo_checkpoint_generation b) 1 /\
     bo_checkpoint_nonce b <> Some nonce) /\
  (forall key generation nonce now b' ck, length nonce = 12%nat -> bootstrap_seal_checkpoint key generation nonce now b = (b', Ok ck) ->
     (forall now', now' < ca_relay_expires_at carrier ->
        bootstrap_restore_checkpoint (ec_bytes ck) key carrier generation now' mode = Ok b') /\
     (forall carrier' generation' now' mode' r,
        bootstrap_restore_checkpoint (ec_bytes ck) key carrier' generation' now' mode' = Ok r ->
        carrier' = carrier /\ generation' = generation /\ mode' = mode /\ now' < ca_relay_expires_at carrier /\ r = b')).
Proof.
  intros Hnew Hc Hs Ht Hsome Hp Hm Hro Hops <-.
  assert (boot_sound (boot_run ops b0)) as Hsound by (apply sound_run; [done|]; by eapply sound_new).
  pose proof (keeps_run ops b0) as Hk. destruct (new_fields _ _ _ _ _ _ Hnew) as (Hc0 & Hm0 & Hnone & octets & Hoct).
  pose proof (bk_carrier _ _ Hk) as Hck. pose proof (bk_mode _ _ Hk) as Hmk. rewrite Hc0 in Hck. rewrite Hm0 in Hmk.
  pose proof (fun Hkn => peers_run ops b0 Hkn Hnone) as Hpk.
  revert Hsound Hpk Hk Hck Hmk. generalize (boot_run ops b0) as b. intros b Hsound Hpk Hk Hck Hmk. split; [|split].
  - pose proof (bs_consistent _ Hsound) as Hcons. split_and!; [done|done|]. by apply consistent_ok in Hcons as (_ & _ & Htok).
  - intros Hkn key generation nonce now Hn. rewrite <- Hck. split.
    + intros (b' & ck & (_ & ? & _ & ? & ? & _)%boot_seal_ok). by split_and!.
    + intros (Hnow & Hg & Hne). destruct (bootstrap_seals key generation nonce now b octets) as [ck Hsl]; try done; [by apply Hpk|by rewrite Hck|].
      by exists (set_bo_checkpoint generation nonce b), ck.
  - intros key generation nonce now b' ck Hn Hseal. rewrite <- Hck, <- Hmk. by eapply sealed_restores.
Qed.

(** ** A concrete handshake *)

#[local] Existing Instances carrier_origins.

(** The claimant's share under the same carrier, profile and secret. *)
Definition claimant_share : credM CredentialV2Frame :=
  context ← demo_context;
  started ← v2_start_cpace context Side_Claimant (into_presence demo_presence) (chosen_scalar 9);
  frame_cpace started.2.
Definition frame_of (m : credM CredentialV2Frame) : CredentialV2Frame :=
  match m with Ok f => f | _ => V2Frame_Finished Side_Claimant [] end.
Definition demo_peer : CredentialV2Frame := frame_of claimant_share.
Definition allocation : credM CredentialV2AllocatorBootstrap :=
  CredentialV2AllocatorBootstrap_new demo_carrier (into_presence demo_presence) (replicate 32 1)
    (CredentialV2RelayState_new (replicate 32 9)) AllocatorMode_Full.
Definition demo_boot_ops : list boot_op :=
  [Boot_Queue; Boot_Ack 0; Boot_Admit; Boot_Start (chosen_scalar 7); Boot_ReceiveCpace demo_peer].
Lemma demo_sealed : match allocation with
  | Ok b0 => match bootstrap_seal_checkpoint wrapping 1 first_nonce 5 (boot_run demo_boot_ops b0) with
             | (b, Ok _) => bool_decide (bo_phase b = Bootstrap_FinishedSent) | _ => false end
  | _ => false end = true.
Proof. vm_cast_no_check (eq_refl true). Qed.
Lemma demo_finished : exists b0 b ck, allocation = Ok b0 /\
  bootstrap_seal_checkpoint wrapping 1 first_nonce 5 (boot_run demo_boot_ops b0) = (b, Ok ck) /\ bo_phase b = Bootstrap_FinishedSent.
Proof.
  pose proof demo_sealed as Ha. destruct allocation as [b0|err|]; [|discriminate Ha..]. exists b0. revert Ha. generalize demo_boot_ops.
  intros ops Ha. destruct (bootstrap_seal_checkpoint _ _ _ _ _) as [b [ck|err|]]; [|discriminate Ha..].
  exists b, ck. by apply bool_decide_eq_true in Ha.
Qed.
Lemma demo_ops_typed : Forall op_typed demo_boot_ops.
Proof.
  assert (match demo_peer with V2Frame_Cpace m => length (cm_share m) =? 32 | _ => false end%nat = true) as Hp by (vm_cast_no_check (eq_refl true)).
  unfold demo_boot_ops. revert Hp. generalize demo_peer. intros f Hf. repeat (apply Forall_cons; split; [|]); try done.
  destruct f; try discriminate Hf. by apply Nat.eqb_eq in Hf.
Qed.

Lemma v2_bootstrap_restores_witness : exists b0 b ck, allocation = Ok b0 /\ bo_phase b = Bootstrap_FinishedSent /\
  pr_claim_token (bo_presence (boot_run demo_boot_ops b0)) = None /\
  bootstrap_seal_checkpoint wrapping 1 first_nonce 5 (boot_run demo_boot_ops b0) = (b, Ok ck) /\
  bootstrap_restore_checkpoint (ec_bytes ck) wrapping demo_carrier 1 999 AllocatorMode_Full = Ok b.
Proof.
  destruct demo_finished as (b0 & b & ck & Hb & Hs & Hp). exists b0, b, ck. split; [exact Hb|]. split; [exact Hp|].
  destruct (v2_bootstrap_restores demo_carrier (into_presence demo_presence) (replicate 32 1) (CredentialV2RelayState_new (replicate 32 9))
    AllocatorMode_Full b0 demo_boot_ops _ Hb (proj1 demo_stored) eq_refl eq_refl ltac:(eexists; reflexivity)
    eq_refl eq_refl eq_refl demo_ops_typed eq_refl) as ((_ & _ & Ht) & _ & Hr).
  split; [|split; [exact Hs|exact (proj1 (Hr wrapping 1 first_nonce 5 b ck eq_refl Hs) 999 eq_refl)]].
  apply Ht. destruct (boot_seal_ok _ _ _ _ _ _ _ Hs) as [Heq _]. rewrite Heq in Hp. intros Ha.
  change (bo_phase (boot_run demo_boot_ops b0) = Bootstrap_FinishedSent) in Hp. rewrite Ha in Hp. discriminate Hp.
Defined.
