(* ===== verification/CredAllocator.v ===== *)
(** * The allocator's session and the inspection of saved ones ([src/credential_v2/allocator.rs], [inspection.rs])

    The relay-driven allocator around the bootstrap and the endpoint: every
    change is sealed in a checkpoint effect that comes alone, and what depends
    on it is released when the shell confirms storage.  An inspection opens a
    saved checkpoint for its facts and revives nothing. *)

From S2P Require Import Prelude External Wire Cddl WireCodec Context Channel CurveExternal Cpace Profile CredCore CredFrame CredDisplay CredCarrier CredContext CredPresence CredHandoff CredChannel CredEndpoint CredBytes CredCheckpoint CredBootstrap.

(** [match result { Err(_) => self.terminate(), .. }]. *)
Definition ending_on_error {S A} (terminate : S -> S) (m : stM S CredentialV2Error A) : stM S CredentialV2Error A := fun s =>
  match m s with
  | (s', Err e) => (terminate s', Err e)
  | r => r
  end.

(** A fallible projection of a part of the state. *)
Definition asks {S A} (f : S -> credM A) : stM S CredentialV2Error A := fun s => (s, f s).

Record CredentialV2AllocatorSessionInput := mkCredentialV2AllocatorSessionInput {
  ai_mode : CredentialV2AllocatorMode;
  ai_application_context : string;
  ai_relay_origin : string;
  ai_mailbox_id : bytes;
  ai_carrier_ceremony_id : bytes;
  ai_carrier_nonce : bytes;
  ai_cpace_secret : bytes;
  ai_claim_token : bytes;
  ai_cpace_scalar : bytes;
  ai_profile_digest : bytes;
  ai_expected_allocator_key : option bytes;
  ai_checkpoint_wrapping_key : bytes
}.

Inductive CredentialV2AllocatorEffect : Type :=
| AllocatorEffect_Send (octets : bytes)
| AllocatorEffect_Checkpoint (generation : Z) (checkpoint : EndpointCheckpointV2) (carrier : bytes)
| AllocatorEffect_PendingAllocation (carrier : bytes)
| AllocatorEffect_Established (transcript_hash : bytes)
| AllocatorEffect_ReceivedObject (object : CredentialV2Object)
| AllocatorEffect_Terminal.

Section Allocator.
Context {B : Type}.

Inductive AllocatorState : Type :=
| AllocatorState_AwaitWelcome
| AllocatorState_AwaitAllocation
| AllocatorState_Bootstrap (bootstrap : CredentialV2AllocatorBootstrap)
| AllocatorState_Established (endpoint : CredentialV2Endpoint B) (channel : SecureCredentialV2Channel) (relay : CredentialV2RelayState)
| AllocatorState_Terminal.

Record CredentialV2AllocatorSession := mkCredentialV2AllocatorSession {
  al_template : CredentialV2Carrier;
  al_presence : option CredentialV2Presence;
  al_cpace_scalar : option bytes;
  al_mode : CredentialV2AllocatorMode;
  al_profile_digest : bytes;
  al_claim_commitment : bytes;
  al_wrapping_key : bytes;
  al_body_verifier : option B;
  al_state : AllocatorState;
  al_persistence_gate : option Z;
  al_after_persist : list CredentialV2AllocatorEffect;
  al_resume_after_welcome : bool
}.

Abbreviation allocatorM := (stM CredentialV2AllocatorSession CredentialV2Error).
Abbreviation allocatorE := (list CredentialV2AllocatorEffect).

(** One assignment per field that changes. *)
Definition set_al_state (state : AllocatorState) (s : CredentialV2AllocatorSession) :=
  mkCredentialV2AllocatorSession (al_template s) (al_presence s) (al_cpace_scalar s) (al_mode s) (al_profile_digest s)
    (al_claim_commitment s) (al_wrapping_key s) (al_body_verifier s) state (al_persistence_gate s) (al_after_persist s)
    (al_resume_after_welcome s).
Definition set_al_presence (presence : option CredentialV2Presence) (s : CredentialV2AllocatorSession) :=
  mkCredentialV2AllocatorSession (al_template s) presence (al_cpace_scalar s) (al_mode s) (al_profile_digest s)
    (al_claim_commitment s) (al_wrapping_key s) (al_body_verifier s) (al_state s) (al_persistence_gate s) (al_after_persist s)
    (al_resume_after_welcome s).
Definition set_al_cpace_scalar (scalar : option bytes) (s : CredentialV2AllocatorSession) :=
  mkCredentialV2AllocatorSession (al_template s) (al_presence s) scalar (al_mode s) (al_profile_digest s)
    (al_claim_commitment s) (al_wrapping_key s) (al_body_verifier s) (al_state s) (al_persistence_gate s) (al_after_persist s)
    (al_resume_after_welcome s).
Definition set_al_body_verifier (verifier : option B) (s : CredentialV2AllocatorSession) :=
  mkCredentialV2AllocatorSession (al_template s) (al_presence s) (al_cpace_scalar s) (al_mode s) (al_profile_digest s)
    (al_claim_commitment s) (al_wrapping_key s) verifier (al_state s) (al_persistence_gate s) (al_after_persist s)
    (al_resume_after_welcome s).
Definition set_al_gate (gate : option Z) (s : CredentialV2AllocatorSession) :=
  mkCredentialV2AllocatorSession (al_template s) (al_presence s) (al_cpace_scalar s) (al_mode s) (al_profile_digest s)
    (al_claim_commitment s) (al_wrapping_key s) (al_body_verifier s) (al_state s) gate (al_after_persist s)
    (al_resume_after_welcome s).
Definition set_al_after_persist (after : allocatorE) (s : CredentialV2AllocatorSession) :=
  mkCredentialV2AllocatorSession (al_template s) (al_presence s) (al_cpace_scalar s) (al_mode s) (al_profile_digest s)
    (al_claim_commitment s) (al_wrapping_key s) (al_body_verifier s) (al_state s) (al_persistence_gate s) after
    (al_resume_after_welcome s).
Definition set_al_resume (resume : bool) (s : CredentialV2AllocatorSession) :=
  mkCredentialV2AllocatorSession (al_template s) (al_presence s) (al_cpace_scalar s) (al_mode s) (al_profile_digest s)
    (al_claim_commitment s) (al_wrapping_key s) (al_body_verifier s) (al_state s) (al_persistence_gate s) (al_after_persist s) resume.

(** [terminate]: the wrapping key is zeroed, the gate is kept. *)
Definition allocator_terminate (s : CredentialV2AllocatorSession) : CredentialV2AllocatorSession :=
  mkCredentialV2AllocatorSession (al_template s) None None (al_mode s) (al_profile_digest s)
    (al_claim_commitment s) (replicate 32 0) (al_body_verifier s) AllocatorState_Terminal (al_persistence_gate s) []
    (al_resume_after_welcome s).

(** ** Parts *)

(** [bootstrap()?] and [bootstrap_mut()?]. *)
Definition allocator_bootstrap (s : CredentialV2AllocatorSession) : credM CredentialV2AllocatorBootstrap :=
  match al_state s with AllocatorState_Bootstrap value => Ok value | _ => Err CredentialV2Error_Phase end.
Definition on_bootstrap {A} (m : bootM A) : allocatorM A :=
  s ← get;
  match al_state s with
  | AllocatorState_Bootstrap bootstrap => zoom (fun _ => bootstrap) (fun b => set_al_state (AllocatorState_Bootstrap b)) id m
  | _ => throw CredentialV2Error_Phase
  end.
Definition on_established {A} (m : stM (CredentialV2Endpoint B * SecureCredentialV2Channel * CredentialV2RelayState) CredentialV2Error A) :
    allocatorM A :=
  s ← get;
  match al_state s with
  | AllocatorState_Established endpoint channel relay =>
      zoom (fun _ => (endpoint, channel, relay)) (fun x => set_al_state (AllocatorState_Established x.1.1 x.1.2 x.2)) id m
  | _ => throw CredentialV2Error_Phase
  end.
Definition is_established (s : CredentialV2AllocatorSession) : bool :=
  match al_state s with AllocatorState_Established _ _ _ => true | _ => false end.

Definition gate (generation : Z) (checkpoint : EndpointCheckpointV2) (carrier : bytes) (after : allocatorE) : allocatorM allocatorE :=
  s ← get;
  _ ← modify (set_al_gate (Some generation));
  if bool_decide (is_Some (al_persistence_gate s)) || negb (bool_decide (length (al_after_persist s) = 0%nat)) then throw CredentialV2Error_Phase
  else
    _ ← modify (set_al_after_persist after);
    mret [AllocatorEffect_Checkpoint generation checkpoint carrier].

(** The parts of an established state as one. *)
Definition on_endpoint_part {A} (m : stM (CredentialV2Endpoint B) CredentialV2Error A) :=
  zoom (S := CredentialV2Endpoint B * SecureCredentialV2Channel * CredentialV2RelayState) (fun x => x.1.1) (fun e x => (e, x.1.2, x.2)) id m.
Definition on_channel_part {A} (m : v2chanM A) :=
  zoom (S := CredentialV2Endpoint B * SecureCredentialV2Channel * CredentialV2RelayState) (fun x => x.1.2) (fun c x => (x.1.1, c, x.2)) id m.
Definition on_relay_part {A} (m : relayM A) :=
  zoom (S := CredentialV2Endpoint B * SecureCredentialV2Channel * CredentialV2RelayState) snd (fun r x => (x.1, r)) id m.

Section Session.
Context `{CredentialV2BodyVerifier B, Cbor, Cddl, UrlParser, Sha256, Sha512, HkdfSha512, HmacSha512, Fiat25519, X25519, HkdfSalted, Aead}.

Definition relay_message (message : ClientMessage) : credM bytes :=
  map_err (fun _ => CredentialV2Error_Schema) (encode_client_message message).
Definition send_message (message : ClientMessage) : credM CredentialV2AllocatorEffect :=
  octets ← relay_message message;
  Ok (AllocatorEffect_Send octets).
Definition send_put (sequence : Z) (frame : CredentialV2Frame) : credM CredentialV2AllocatorEffect :=
  body ← encode_frame frame;
  send_message (ClientMessage_Put sequence body).

Definition CredentialV2AllocatorSession_new (input : CredentialV2AllocatorSessionInput) (body_verifier : B) :
    credM CredentialV2AllocatorSession :=
  _ ← (if bool_decide (ai_mode input = AllocatorMode_Manual) then
         _ ← map_err (fun _ => CredentialV2Error_Schema) (words_from_secret (ai_cpace_secret input));
         if is_none (ai_expected_allocator_key input) then Err CredentialV2Error_Profile else Ok tt
       else Ok tt);
  let commitment := claim_commitment (ai_mailbox_id input) (ai_claim_token input) in
  template ← CredentialV2Carrier_new
    (mkCredentialV2Carrier (ai_application_context input) (ai_relay_origin input) (ai_mailbox_id input)
       (ai_carrier_ceremony_id input) (ai_carrier_nonce input) commitment u64_max (ai_expected_allocator_key input));
  Ok (mkCredentialV2AllocatorSession template
        (Some (CredentialV2Presence_new (ai_cpace_secret input) (ai_claim_token input))) (Some (ai_cpace_scalar input))
        (ai_mode input) (ai_profile_digest input) commitment (ai_checkpoint_wrapping_key input) (Some body_verifier)
        AllocatorState_AwaitWelcome None [] false).

(** A session around a restored state. *)
Definition allocator_revived (carrier : CredentialV2Carrier) (scalar : option bytes) (mode : CredentialV2AllocatorMode)
    (profile_digest wrapping_key : bytes) (body_verifier : option B) (state : AllocatorState) : CredentialV2AllocatorSession :=
  mkCredentialV2AllocatorSession carrier None scalar mode profile_digest (ca_claim_commitment carrier) wrapping_key body_verifier
    state None [] true.

Definition allocator_restore (checkpoint wrapping_key : bytes) (carrier : CredentialV2Carrier) (expected_generation : Z)
    (expected_profile_digest : bytes) (now : Z) (expected_mode : CredentialV2AllocatorMode) (fresh_cpace_scalar : bytes)
    (body_verifier : B) : credM CredentialV2AllocatorSession :=
  match bootstrap_restore_checkpoint checkpoint wrapping_key carrier expected_generation now expected_mode with
  | Ok bootstrap =>
      if negb (bool_decide (bo_profile_digest bootstrap = expected_profile_digest)) then Err CredentialV2Error_Profile
      else
        Ok (allocator_revived carrier
              (if bool_decide (bo_phase bootstrap = Bootstrap_Allocated) then Some fresh_cpace_scalar else None)
              expected_mode expected_profile_digest wrapping_key (Some body_verifier) (AllocatorState_Bootstrap bootstrap))
  | Err _ =>
      '(endpoint, channel, relay) ←
        endpoint_restore_checkpoint checkpoint wrapping_key Side_Allocator carrier expected_generation now body_verifier;
      Ok (allocator_revived carrier None expected_mode expected_profile_digest wrapping_key None
            (AllocatorState_Established endpoint channel relay))
  | Panic => Panic
  end.

Definition allocator_start (s : CredentialV2AllocatorSession) : credM bytes :=
  if (match al_state s with AllocatorState_AwaitWelcome => false | _ => negb (al_resume_after_welcome s) end) ||
     bool_decide (is_Some (al_persistence_gate s))
  then Err CredentialV2Error_Phase
  else relay_message ClientMessage_Bind.

(** ** What the session shows *)

Definition allocator_recovery_commitment `{HmacSha256} (s : CredentialV2AllocatorSession) : credM bytes :=
  match al_state s with
  | AllocatorState_Established endpoint channel _ => receipt_recovery_commitment channel (ve_carrier endpoint)
  | _ => Err CredentialV2Error_Phase
  end.
Definition allocator_endpoint_phase (s : CredentialV2AllocatorSession) : option CredentialV2Phase :=
  match al_state s with AllocatorState_Established endpoint _ _ => Some (ve_phase endpoint) | _ => None end.
Definition allocator_bootstrap_phase (s : CredentialV2AllocatorSession) : option CredentialV2AllocatorBootstrapPhase :=
  match al_state s with AllocatorState_Bootstrap bootstrap => Some (bo_phase bootstrap) | _ => None end.
Definition allocator_bootstrap_mode (s : CredentialV2AllocatorSession) : option CredentialV2AllocatorMode :=
  match al_state s with AllocatorState_Bootstrap bootstrap => Some (bo_mode bootstrap) | _ => None end.
Definition allocator_presence_code (s : CredentialV2AllocatorSession) : option bytes :=
  match al_state s with AllocatorState_Bootstrap bootstrap => bootstrap_presence_code bootstrap | _ => None end.
Definition allocator_handoff_text `{Base64Url} (s : CredentialV2AllocatorSession) : credM (option bytes) :=
  match al_state s with
  | AllocatorState_Bootstrap bootstrap =>
      handoff ← bootstrap_handoff bootstrap;
      match handoff with
      | Some handoff => text ← map_err (fun _ => CredentialV2Error_Schema) (handoff_encode handoff); Ok (Some text)
      | None => Ok None
      end
  | _ => Ok None
  end.
Definition allocator_manual_transfer_text `{Base64Url, Bip39} (s : CredentialV2AllocatorSession) : credM (option (bytes * bytes)) :=
  match al_state s with AllocatorState_Bootstrap bootstrap => bootstrap_manual_transfer_text bootstrap | _ => Ok None end.
Definition allocator_transcript_hash (s : CredentialV2AllocatorSession) : option bytes :=
  match al_state s with AllocatorState_Established _ channel _ => Some (c2_transcript_hash channel) | _ => None end.

(** The latest object, when the other side sent it and its octets are kept. *)
Definition received_object (endpoint : CredentialV2Endpoint B) : credM (option CredentialV2Object) :=
  match ve_last endpoint with
  | Some last =>
      if bool_decide (lo_sender last = Side_Allocator) then Ok None
      else match lo_bytes last with Some octets => object ← decode_object octets; Ok (Some object) | None => Ok None end
  | None => Ok None
  end.
Definition allocator_last_received_object (s : CredentialV2AllocatorSession) : credM (option CredentialV2Object) :=
  match al_state s with AllocatorState_Established endpoint _ _ => received_object endpoint | _ => Ok None end.

(** ** Checkpoints *)

Definition checkpoint_bootstrap (now : Z) (nonce : bytes) (after : allocatorE) : allocatorM allocatorE :=
  s ← get;
  bootstrap ← lift (allocator_bootstrap s);
  let generation := saturating_add u64_max (bo_checkpoint_generation bootstrap) 1 in
  checkpoint ← on_bootstrap (bootstrap_seal_checkpoint (al_wrapping_key s) generation nonce now);
  carrier ← lift (encode_carrier (bo_carrier bootstrap));
  gate generation checkpoint carrier after.

Definition checkpoint_established (now : Z) (nonce : bytes) (after : allocatorE) : allocatorM allocatorE :=
  s ← get;
  '(generation, checkpoint, carrier) ← on_established (
    x ← get;
    let '(endpoint, channel, relay) := x in
    let generation := saturating_add u64_max (ve_checkpoint_generation endpoint) 1 in
    checkpoint ← on_endpoint_part (endpoint_seal_checkpoint channel relay (al_wrapping_key s) generation
                                     (Some (ca_relay_expires_at (ve_carrier endpoint))) nonce now);
    carrier ← lift (encode_carrier (ve_carrier endpoint));
    mret (generation, checkpoint, carrier));
  gate generation checkpoint carrier after.

(** ** The handlers *)

Definition allocated (mailbox_id membership_token : bytes) (expires_at now : Z) (nonce : bytes) : allocatorM allocatorE :=
  s ← get;
  if negb (bool_decide (mailbox_id = ca_mailbox_id (al_template s))) || (expires_at <=? now) then throw CredentialV2Error_Profile
  else
    carrier ← lift (CredentialV2Carrier_new
      (mkCredentialV2Carrier (ca_application_context (al_template s)) (ca_relay_origin (al_template s)) mailbox_id
         (ca_carrier_ceremony_id (al_template s)) (ca_carrier_nonce (al_template s)) (al_claim_commitment s) expires_at
         (ca_expected_allocator_key (al_template s))));
    _ ← modify (set_al_presence None);
    presence ← lift (ok_or (al_presence s) CredentialV2Error_Phase);
    bootstrap ← lift (CredentialV2AllocatorBootstrap_new carrier presence (al_profile_digest s)
                        (CredentialV2RelayState_new membership_token) (al_mode s));
    _ ← modify (set_al_state (AllocatorState_Bootstrap bootstrap));
    carrier ← lift (encode_carrier (bo_carrier bootstrap));
    checkpoint_bootstrap now nonce [AllocatorEffect_PendingAllocation carrier].

(** The cached frame of a state, with its sequence number. *)
Definition bootstrap_cached (bootstrap : CredentialV2AllocatorBootstrap) : credM (option (CredentialV2Frame * Z)) :=
  match bo_cached_outbound bootstrap with
  | Some frame =>
      sequence ← cached_bootstrap_sequence (bo_relay bootstrap);
      Ok match sequence with Some sequence => Some (frame, sequence) | None => None end
  | None => Ok None
  end.
Definition relay_cached (relay : CredentialV2RelayState) : credM (option (CredentialV2Frame * Z)) :=
  match rs_cached_outbound relay with
  | Some frame => sequence ← cached_application_sequence relay; Ok (Some (frame, sequence))
  | None => Ok None
  end.
Definition open_effects (carrier : CredentialV2Carrier) (relay : CredentialV2RelayState) (cached : option (CredentialV2Frame * Z)) :
    credM allocatorE :=
  open ← send_message (ClientMessage_Open (ca_mailbox_id carrier) (rs_membership_token relay));
  match cached with
  | Some (frame, sequence) => put ← send_put sequence frame; Ok [open; put]
  | None => Ok [open]
  end.
Definition reopen_effects (s : CredentialV2AllocatorSession) : credM allocatorE :=
  match al_state s with
  | AllocatorState_Bootstrap bootstrap =>
      cached ← bootstrap_cached bootstrap;
      open_effects (bo_carrier bootstrap) (bo_relay bootstrap) cached
  | AllocatorState_Established endpoint _ relay =>
      cached ← relay_cached relay;
      open_effects (ve_carrier endpoint) relay cached
  | _ => Err CredentialV2Error_Phase
  end.

Definition establish (now : Z) (nonce : bytes) (ack : option CredentialV2AllocatorEffect) : allocatorM allocatorE :=
  s ← get;
  _ ← modify (set_al_state AllocatorState_Terminal);
  bootstrap ← lift (allocator_bootstrap s);
  peer_finished ← lift (ok_or (bo_peer_finished bootstrap) CredentialV2Error_Finished);
  let carrier := bo_carrier bootstrap in
  let generation := bo_checkpoint_generation bootstrap in
  '(channel, relay) ← lift (bootstrap_confirm bootstrap peer_finished);
  if rs_awaiting_ack relay then throw CredentialV2Error_Phase
  else
    let transcript_hash := c2_transcript_hash channel in
    _ ← modify (set_al_body_verifier None);
    body_verifier ← lift (ok_or (al_body_verifier s) CredentialV2Error_Phase);
    let endpoint := mkCredentialV2Endpoint Side_Allocator carrier Phase_Begin None None body_verifier generation
                      (bo_checkpoint_nonce bootstrap) in
    let '(endpoint, sealed) :=
      endpoint_seal_checkpoint channel relay (al_wrapping_key s) (saturating_add u64_max generation 1)
        (Some (ca_relay_expires_at carrier)) nonce now endpoint in
    checkpoint ← lift sealed;
    let next_generation := saturating_add u64_max generation 1 in
    carrier_bytes ← lift (encode_carrier carrier);
    _ ← modify (set_al_state (AllocatorState_Established endpoint channel relay));
    gate next_generation checkpoint carrier_bytes
      (match ack with Some ack => [ack] | None => [] end ++ [AllocatorEffect_Established transcript_hash]).

Definition peer_application_frame (peer_seq : Z) (frame : CredentialV2Frame) (now : Z) (nonce : bytes) : allocatorM allocatorE :=
  object ← on_established (
    _ ← on_relay_part (accept_peer_sequence peer_seq);
    plaintext ← on_channel_part (v2_open frame);
    object ← lift (decode_object plaintext);
    _ ← on_endpoint_part (v2_receive object);
    mret object);
  ack ← lift (send_message (ClientMessage_Ack peer_seq));
  checkpoint_established now nonce [ack; AllocatorEffect_ReceivedObject object].

(** The first share again, after its acknowledgement was lost. *)
Definition share_again (peer_seq : Z) (frame : CredentialV2Frame) (now : Z) (bootstrap : CredentialV2AllocatorBootstrap) : credM allocatorE :=
  if ca_relay_expires_at (bo_carrier bootstrap) <=? now then Err CredentialV2Error_Expired
  else if negb (bool_decide (bo_peer_cpace bootstrap = Some frame)) then Err CredentialV2Error_Profile
  else
    ack ← send_message (ClientMessage_Ack peer_seq);
    sequence ← cached_bootstrap_sequence (bo_relay bootstrap);
    match sequence with
    | Some sequence =>
        cached ← ok_or (bo_cached_outbound bootstrap) CredentialV2Error_Phase;
        put ← send_put sequence cached;
        Ok [ack; put]
    | None => Ok [ack]
    end.

Definition peer_frame (peer_seq : Z) (body : bytes) (now : Z) (nonce : bytes) : allocatorM allocatorE :=
  frame ← lift (decode_frame body);
  s ← get;
  if is_established s then peer_application_frame peer_seq frame now nonce
  else
    bootstrap ← lift (allocator_bootstrap s);
    if (peer_seq =? 0) && bool_decide (is_Some (bo_peer_cpace bootstrap)) then lift (share_again peer_seq frame now bootstrap)
    else
      match bo_phase bootstrap with
      | Bootstrap_Allocated =>
          _ ← modify (set_al_cpace_scalar None);
          scalar ← lift (ok_or (al_cpace_scalar s) CredentialV2Error_Phase);
          '(sequence, outbound) ← on_bootstrap (
            _ ← on_bootstrap_relay (accept_peer_sequence peer_seq);
            _ ← claimant_admitted;
            outbound ← bootstrap_start_cpace scalar;
            _ ← retain_peer_cpace frame;
            sequence ← on_bootstrap_relay queue_bootstrap_frame;
            mret (sequence, outbound));
          ack ← lift (send_message (ClientMessage_Ack peer_seq));
          put ← lift (send_put sequence outbound);
          checkpoint_bootstrap now nonce [ack; put]
      | Bootstrap_FinishedSent =>
          waiting ← on_bootstrap (
            _ ← on_bootstrap_relay (accept_peer_sequence peer_seq);
            _ ← retain_peer_finished frame;
            b ← get;
            mret (rs_awaiting_ack (bo_relay b)));
          ack ← lift (send_message (ClientMessage_Ack peer_seq));
          if waiting : bool then checkpoint_bootstrap now nonce [ack] else establish now nonce (Some ack)
      | _ => throw CredentialV2Error_Phase
      end.

Definition application_acknowledged (sequence now : Z) (nonce : bytes) : allocatorM allocatorE :=
  _ ← on_established (on_relay_part (acknowledge_application_frame sequence));
  checkpoint_established now nonce [].

Definition local_acknowledged (sequence now : Z) (nonce : bytes) : allocatorM allocatorE :=
  s ← get;
  '(relay, expiry) ← lift
    match al_state s with
    | AllocatorState_Bootstrap bootstrap => Ok (bo_relay bootstrap, ca_relay_expires_at (bo_carrier bootstrap))
    | AllocatorState_Established endpoint _ relay => Ok (relay, ca_relay_expires_at (ve_carrier endpoint))
    | _ => Err CredentialV2Error_Phase
    end;
  if acknowledgement_already_applied relay sequence then
    if expiry <=? now then throw CredentialV2Error_Expired else mret []
  else if is_established s then application_acknowledged sequence now nonce
  else
    bootstrap ← lift (allocator_bootstrap s);
    match bo_phase bootstrap with
    | Bootstrap_ShareSent =>
        '(next_sequence, finished) ← on_bootstrap (
          _ ← on_bootstrap_relay (acknowledge_bootstrap_frame sequence);
          finished ← prepare_finished;
          next_sequence ← on_bootstrap_relay queue_bootstrap_frame;
          mret (next_sequence, finished));
        put ← lift (send_put next_sequence finished);
        checkpoint_bootstrap now nonce [put]
    | Bootstrap_FinishedSent =>
        has_peer ← on_bootstrap (
          _ ← on_bootstrap_relay (acknowledge_bootstrap_frame sequence);
          b ← get;
          mret (bool_decide (is_Some (bo_peer_finished b))));
        if has_peer : bool then establish now nonce None else checkpoint_bootstrap now nonce []
    | _ => throw CredentialV2Error_Phase
    end.

Definition prepare_application_object_inner (object : CredentialV2Object) (now : Z) (nonce : bytes) : allocatorM allocatorE :=
  '(sequence, frame) ← on_established (
    frame ← prepare_outbound object;
    x ← get;
    sequence ← lift (cached_application_sequence x.2);
    mret (sequence, frame));
  put ← lift (send_put sequence frame);
  checkpoint_established now nonce [put].

Definition allocator_apply_server (message : ServerMessage) (now : Z) (nonce : bytes) : allocatorM allocatorE :=
  s ← get;
  match message with
  | ServerMessage_Welcome =>
      if al_resume_after_welcome s then
        _ ← modify (set_al_resume false);
        asks reopen_effects
      else
        match al_state s with
        | AllocatorState_AwaitWelcome =>
            _ ← modify (set_al_state AllocatorState_AwaitAllocation);
            allocate ← lift (send_message (ClientMessage_AllocateV2 (ca_mailbox_id (al_template s)) (al_claim_commitment s) (Some 900)));
            mret [allocate]
        | _ => throw CredentialV2Error_Phase
        end
  | ServerMessage_AllocatedV2 mailbox_id membership_token expires_at =>
      match al_state s with
      | AllocatorState_AwaitAllocation => allocated mailbox_id membership_token expires_at now nonce
      | _ => throw CredentialV2Error_Phase
      end
  | ServerMessage_Frame peer_seq body => peer_frame peer_seq body now nonce
  | ServerMessage_Acknowledged seq => local_acknowledged seq now nonce
  | ServerMessage_Pong => mret []
  | ServerMessage_Closed _ | ServerMessage_Error _ =>
      _ ← modify allocator_terminate;
      mret [AllocatorEffect_Terminal]
  | _ => throw CredentialV2Error_Phase
  end.

(** ** The calls *)

Definition allocator_receive (input : bytes) (now : Z) (nonce : bytes) : allocatorM allocatorE :=
  s ← get;
  if bool_decide (is_Some (al_persistence_gate s)) then throw CredentialV2Error_Phase
  else
    ending_on_error allocator_terminate (
      message ← lift (map_err (fun _ => CredentialV2Error_Schema) (decode_server_message input));
      allocator_apply_server message now nonce).

Definition allocator_checkpoint_persisted (generation : Z) : allocatorM allocatorE :=
  s ← get;
  if negb (bool_decide (al_persistence_gate s = Some generation)) then throw CredentialV2Error_Counter
  else
    _ ← modify (set_al_gate None);
    _ ← modify (set_al_after_persist []);
    mret (al_after_persist s).

Definition allocator_prepare_application_object (object : CredentialV2Object) (now : Z) (nonce : bytes) : allocatorM allocatorE :=
  s ← get;
  if bool_decide (is_Some (al_persistence_gate s)) then throw CredentialV2Error_Phase
  else ending_on_error allocator_terminate (prepare_application_object_inner object now nonce).
End Session.
End Allocator.
Arguments AllocatorState : clear implicits.
Arguments CredentialV2AllocatorSession : clear implicits.

(** ** Inspection *)

Record CredentialV2AllocatorCheckpointInspection := mkCredentialV2AllocatorCheckpointInspection {
  is_bootstrap : option (CredentialV2AllocatorBootstrapPhase * CredentialV2AllocatorMode);
  is_endpoint : option CredentialV2Phase;
  is_transcript_hash : option bytes;
  is_last_received : option CredentialV2Object;
  is_terminal_receipt : option (bytes * bytes);
  is_receipt_commitment : option bytes;
  is_expired : bool
}.

Definition inspect `{CredentialV2BodyVerifier B, Cbor, UrlParser, Sha256, Sha512, HkdfSha512, HmacSha512, HmacSha256, Fiat25519, X25519,
      HkdfSalted, Aead}
    (checkpoint wrapping_key : bytes) (carrier : CredentialV2Carrier) (expected_generation : Z) (expected_profile_digest : bytes)
    (now : Z) (expected_mode : CredentialV2AllocatorMode) (body_verifier : B) : credM CredentialV2AllocatorCheckpointInspection :=
  let expired := ca_relay_expires_at carrier <=? now in
  match bootstrap_inspect_checkpoint checkpoint wrapping_key carrier expected_generation expected_mode with
  | Ok bootstrap =>
      if negb (bool_decide (bo_profile_digest bootstrap = expected_profile_digest)) then Err CredentialV2Error_Profile
      else
        Ok (mkCredentialV2AllocatorCheckpointInspection (Some (bo_phase bootstrap, bo_mode bootstrap)) None None None None None expired)
  | Err _ =>
      '(endpoint, channel, _) ← inspect_allocator_endpoint checkpoint wrapping_key carrier expected_generation body_verifier;
      last_received ← received_object endpoint;
      commitment ← receipt_recovery_commitment channel carrier;
      Ok (mkCredentialV2AllocatorCheckpointInspection None (Some (ve_phase endpoint)) (Some (c2_transcript_hash channel)) last_received
            (if receipt_released endpoint
             then (fun last => (lo_intent_digest last, lo_content_hash last)) <$> ve_last endpoint else None)
            (Some commitment) expired)
  | Panic => Panic
  end.
