(* ===== verification/CredClaimant.v ===== *)
(** * The claimant's session ([src/credential_v2/claimant.rs])

    The relay-driven claimant: memory-only until its final approval, then
    sealed in a checkpoint before each frame is released, and the receipt that
    is authenticated first and acknowledged when the wallet has stored it. *)

From S2P Require Import Prelude External Wire Cddl WireCodec Context Channel CurveExternal Cpace Profile CredCore CredFrame CredDisplay CredCarrier CredContext CredPresence CredChannel CredEndpoint CredBytes CredCheckpoint CredBootstrap CredAllocator.

Record CredentialV2ClaimantSessionInput := mkCredentialV2ClaimantSessionInput {
  ci_carrier : CredentialV2Carrier;
  ci_presence_code : CredentialV2PresenceCode;
  ci_cpace_scalar : bytes;
  ci_profile_digest : bytes
}.

(** The consumer's check of the first offer, over its own state [O], by the
    endpoint's operations. *)
Class CredentialV2ClaimantOfferVerifier (O B : Type) :=
  verify_offer : CredentialV2Object -> Z -> stM (O * CredentialV2Endpoint B) CredentialV2Error CredentialV2Advance.

Inductive CredentialV2ClaimantEffect : Type :=
| ClaimantEffect_Send (octets : bytes)
| ClaimantEffect_Checkpoint (generation : Z) (checkpoint : EndpointCheckpointV2)
| ClaimantEffect_Established (transcript_hash : bytes)
| ClaimantEffect_DisplayIntent (display : CredentialV2Display)
| ClaimantEffect_ReceivedObject (object : CredentialV2Object)
| ClaimantEffect_Terminal.

Record CredentialV2ClaimantRecoveredReceipt := mkCredentialV2ClaimantRecoveredReceipt {
  rr_object : CredentialV2Object;
  rr_authority : CredentialV2RecoveredReceiptAuthority;
  rr_peer_seq : option Z
}.

Inductive ClaimantPhase : Type :=
| Claimant_AwaitWelcome | Claimant_ClaimSent | Claimant_ShareSent | Claimant_FinishedSent
| Claimant_AwaitProfileAuthorisation | Claimant_Established | Claimant_Terminal.
#[export] Instance ClaimantPhase_eq_dec : EqDecision ClaimantPhase.
Proof. solve_decision. Defined.

Section Claimant.
Context {O B : Type}.

Record CredentialV2ClaimantSession := mkCredentialV2ClaimantSession {
  cl_carrier : CredentialV2Carrier;
  cl_presence : option CredentialV2Presence;
  cl_claim_token : option bytes;
  cl_cpace_scalar : bytes;
  cl_profile_digest : bytes;
  cl_phase : ClaimantPhase;
  cl_relay : option CredentialV2RelayState;
  cl_local_share : option CredentialV2Frame;
  cl_peer_share : option CredentialV2Frame;
  cl_pending_channel : option PendingCredentialV2Channel;
  cl_peer_finished : option CredentialV2Frame;
  cl_endpoint : option (CredentialV2Endpoint B);
  cl_channel : option SecureCredentialV2Channel;
  cl_body_verifier : option B;
  cl_offer_verifier : option O;
  cl_authenticated_offer : option CredentialV2Object;
  cl_persistence_gate : option Z;
  cl_after_persist : list CredentialV2ClaimantEffect;
  cl_pending_recovered_receipt : bool
}.

Definition set_cl_presence (value : option CredentialV2Presence) (s : CredentialV2ClaimantSession) :=
  mkCredentialV2ClaimantSession (cl_carrier s) value (cl_claim_token s) (cl_cpace_scalar s) (cl_profile_digest s)
    (cl_phase s) (cl_relay s) (cl_local_share s) (cl_peer_share s) (cl_pending_channel s) (cl_peer_finished s)
    (cl_endpoint s) (cl_channel s) (cl_body_verifier s) (cl_offer_verifier s) (cl_authenticated_offer s)
    (cl_persistence_gate s) (cl_after_persist s) (cl_pending_recovered_receipt s).
Definition set_cl_claim_token (value : option bytes) (s : CredentialV2ClaimantSession) :=
  mkCredentialV2ClaimantSession (cl_carrier s) (cl_presence s) value (cl_cpace_scalar s) (cl_profile_digest s)
    (cl_phase s) (cl_relay s) (cl_local_share s) (cl_peer_share s) (cl_pending_channel s) (cl_peer_finished s)
    (cl_endpoint s) (cl_channel s) (cl_body_verifier s) (cl_offer_verifier s) (cl_authenticated_offer s)
    (cl_persistence_gate s) (cl_after_persist s) (cl_pending_recovered_receipt s).
Definition set_cl_cpace_scalar (value : bytes) (s : CredentialV2ClaimantSession) :=
  mkCredentialV2ClaimantSession (cl_carrier s) (cl_presence s) (cl_claim_token s) value (cl_profile_digest s)
    (cl_phase s) (cl_relay s) (cl_local_share s) (cl_peer_share s) (cl_pending_channel s) (cl_peer_finished s)
    (cl_endpoint s) (cl_channel s) (cl_body_verifier s) (cl_offer_verifier s) (cl_authenticated_offer s)
    (cl_persistence_gate s) (cl_after_persist s) (cl_pending_recovered_receipt s).
Definition set_cl_phase (value : ClaimantPhase) (s : CredentialV2ClaimantSession) :=
  mkCredentialV2ClaimantSession (cl_carrier s) (cl_presence s) (cl_claim_token s) (cl_cpace_scalar s)
    (cl_profile_digest s) value (cl_relay s) (cl_local_share s) (cl_peer_share s) (cl_pending_channel s)
    (cl_peer_finished s) (cl_endpoint s) (cl_channel s) (cl_body_verifier s) (cl_offer_verifier s)
    (cl_authenticated_offer s) (cl_persistence_gate s) (cl_after_persist s) (cl_pending_recovered_receipt s).
Definition set_cl_relay (value : option CredentialV2RelayState) (s : CredentialV2ClaimantSession) :=
  mkCredentialV2ClaimantSession (cl_carrier s) (cl_presence s) (cl_claim_token s) (cl_cpace_scalar s)
    (cl_profile_digest s) (cl_phase s) value (cl_local_share s) (cl_peer_share s) (cl_pending_channel s)
    (cl_peer_finished s) (cl_endpoint s) (cl_channel s) (cl_body_verifier s) (cl_offer_verifier s)
    (cl_authenticated_offer s) (cl_persistence_gate s) (cl_after_persist s) (cl_pending_recovered_receipt s).
Definition set_cl_local_share (value : option CredentialV2Frame) (s : CredentialV2ClaimantSession) :=
  mkCredentialV2ClaimantSession (cl_carrier s) (cl_presence s) (cl_claim_token s) (cl_cpace_scalar s)
    (cl_profile_digest s) (cl_phase s) (cl_relay s) value (cl_peer_share s) (cl_pending_channel s)
    (cl_peer_finished s) (cl_endpoint s) (cl_channel s) (cl_body_verifier s) (cl_offer_verifier s)
    (cl_authenticated_offer s) (cl_persistence_gate s) (cl_after_persist s) (cl_pending_recovered_receipt s).
Definition set_cl_peer_share (value : option CredentialV2Frame) (s : CredentialV2ClaimantSession) :=
  mkCredentialV2ClaimantSession (cl_carrier s) (cl_presence s) (cl_claim_token s) (cl_cpace_scalar s)
    (cl_profile_digest s) (cl_phase s) (cl_relay s) (cl_local_share s) value (cl_pending_channel s)
    (cl_peer_finished s) (cl_endpoint s) (cl_channel s) (cl_body_verifier s) (cl_offer_verifier s)
    (cl_authenticated_offer s) (cl_persistence_gate s) (cl_after_persist s) (cl_pending_recovered_receipt s).
Definition set_cl_pending_channel (value : option PendingCredentialV2Channel) (s : CredentialV2ClaimantSession) :=
  mkCredentialV2ClaimantSession (cl_carrier s) (cl_presence s) (cl_claim_token s) (cl_cpace_scalar s)
    (cl_profile_digest s) (cl_phase s) (cl_relay s) (cl_local_share s) (cl_peer_share s) value (cl_peer_finished s)
    (cl_endpoint s) (cl_channel s) (cl_body_verifier s) (cl_offer_verifier s) (cl_authenticated_offer s)
    (cl_persistence_gate s) (cl_after_persist s) (cl_pending_recovered_receipt s).
Definition set_cl_peer_finished (value : option CredentialV2Frame) (s : CredentialV2ClaimantSession) :=
  mkCredentialV2ClaimantSession (cl_carrier s) (cl_presence s) (cl_claim_token s) (cl_cpace_scalar s)
    (cl_profile_digest s) (cl_phase s) (cl_relay s) (cl_local_share s) (cl_peer_share s) (cl_pending_channel s) value
    (cl_endpoint s) (cl_channel s) (cl_body_verifier s) (cl_offer_verifier s) (cl_authenticated_offer s)
    (cl_persistence_gate s) (cl_after_persist s) (cl_pending_recovered_receipt s).
Definition set_cl_endpoint (value : option (CredentialV2Endpoint B)) (s : CredentialV2ClaimantSession) :=
  mkCredentialV2ClaimantSession (cl_carrier s) (cl_presence s) (cl_claim_token s) (cl_cpace_scalar s)
    (cl_profile_digest s) (cl_phase s) (cl_relay s) (cl_local_share s) (cl_peer_share s) (cl_pending_channel s)
    (cl_peer_finished s) value (cl_channel s) (cl_body_verifier s) (cl_offer_verifier s) (cl_authenticated_offer s)
    (cl_persistence_gate s) (cl_after_persist s) (cl_pending_recovered_receipt s).
Definition set_cl_channel (value : option SecureCredentialV2Channel) (s : CredentialV2ClaimantSession) :=
  mkCredentialV2ClaimantSession (cl_carrier s) (cl_presence s) (cl_claim_token s) (cl_cpace_scalar s)
    (cl_profile_digest s) (cl_phase s) (cl_relay s) (cl_local_share s) (cl_peer_share s) (cl_pending_channel s)
    (cl_peer_finished s) (cl_endpoint s) value (cl_body_verifier s) (cl_offer_verifier s) (cl_authenticated_offer s)
    (cl_persistence_gate s) (cl_after_persist s) (cl_pending_recovered_receipt s).
Definition set_cl_body_verifier (value : option B) (s : CredentialV2ClaimantSession) :=
  mkCredentialV2ClaimantSession (cl_carrier s) (cl_presence s) (cl_claim_token s) (cl_cpace_scalar s)
    (cl_profile_digest s) (cl_phase s) (cl_relay s) (cl_local_share s) (cl_peer_share s) (cl_pending_channel s)
    (cl_peer_finished s) (cl_endpoint s) (cl_channel s) value (cl_offer_verifier s) (cl_authenticated_offer s)
    (cl_persistence_gate s) (cl_after_persist s) (cl_pending_recovered_receipt s).
Definition set_cl_offer_verifier (value : option O) (s : CredentialV2ClaimantSession) :=
  mkCredentialV2ClaimantSession (cl_carrier s) (cl_presence s) (cl_claim_token s) (cl_cpace_scalar s)
    (cl_profile_digest s) (cl_phase s) (cl_relay s) (cl_local_share s) (cl_peer_share s) (cl_pending_channel s)
    (cl_peer_finished s) (cl_endpoint s) (cl_channel s) (cl_body_verifier s) value (cl_authenticated_offer s)
    (cl_persistence_gate s) (cl_after_persist s) (cl_pending_recovered_receipt s).
Definition set_cl_authenticated_offer (value : option CredentialV2Object) (s : CredentialV2ClaimantSession) :=
  mkCredentialV2ClaimantSession (cl_carrier s) (cl_presence s) (cl_claim_token s) (cl_cpace_scalar s)
    (cl_profile_digest s) (cl_phase s) (cl_relay s) (cl_local_share s) (cl_peer_share s) (cl_pending_channel s)
    (cl_peer_finished s) (cl_endpoint s) (cl_channel s) (cl_body_verifier s) (cl_offer_verifier s) value
    (cl_persistence_gate s) (cl_after_persist s) (cl_pending_recovered_receipt s).
Definition set_cl_persistence_gate (value : option Z) (s : CredentialV2ClaimantSession) :=
  mkCredentialV2ClaimantSession (cl_carrier s) (cl_presence s) (cl_claim_token s) (cl_cpace_scalar s)
    (cl_profile_digest s) (cl_phase s) (cl_relay s) (cl_local_share s) (cl_peer_share s) (cl_pending_channel s)
    (cl_peer_finished s) (cl_endpoint s) (cl_channel s) (cl_body_verifier s) (cl_offer_verifier s)
    (cl_authenticated_offer s) value (cl_after_persist s) (cl_pending_recovered_receipt s).
Definition set_cl_after_persist (value : list CredentialV2ClaimantEffect) (s : CredentialV2ClaimantSession) :=
  mkCredentialV2ClaimantSession (cl_carrier s) (cl_presence s) (cl_claim_token s) (cl_cpace_scalar s)
    (cl_profile_digest s) (cl_phase s) (cl_relay s) (cl_local_share s) (cl_peer_share s) (cl_pending_channel s)
    (cl_peer_finished s) (cl_endpoint s) (cl_channel s) (cl_body_verifier s) (cl_offer_verifier s)
    (cl_authenticated_offer s) (cl_persistence_gate s) value (cl_pending_recovered_receipt s).
Definition set_cl_pending_recovered_receipt (value : bool) (s : CredentialV2ClaimantSession) :=
  mkCredentialV2ClaimantSession (cl_carrier s) (cl_presence s) (cl_claim_token s) (cl_cpace_scalar s)
    (cl_profile_digest s) (cl_phase s) (cl_relay s) (cl_local_share s) (cl_peer_share s) (cl_pending_channel s)
    (cl_peer_finished s) (cl_endpoint s) (cl_channel s) (cl_body_verifier s) (cl_offer_verifier s)
    (cl_authenticated_offer s) (cl_persistence_gate s) (cl_after_persist s) value.

Abbreviation claimantM := (stM CredentialV2ClaimantSession CredentialV2Error).
Abbreviation claimantE := (list CredentialV2ClaimantEffect).

Definition claimant_terminate (s : CredentialV2ClaimantSession) : CredentialV2ClaimantSession :=
  mkCredentialV2ClaimantSession (cl_carrier s) None None (replicate 32 0) (cl_profile_digest s) Claimant_Terminal None None None None
    None None None (cl_body_verifier s) (cl_offer_verifier s) None None [] false.

(** ** Parts *)

Definition relay_ref (s : CredentialV2ClaimantSession) : credM CredentialV2RelayState := ok_or (cl_relay s) CredentialV2Error_Phase.
(** [option.as_mut().ok_or(Phase)?], then an operation. *)
Definition on_part {T A} (sel : CredentialV2ClaimantSession -> option T) (upd : option T -> CredentialV2ClaimantSession -> CredentialV2ClaimantSession)
    (m : stM T CredentialV2Error A) : claimantM A :=
  s ← get;
  part ← lift (ok_or (sel s) CredentialV2Error_Phase);
  zoom (fun _ => part) (fun t => upd (Some t)) id m.
Definition on_relay {A} (m : relayM A) : claimantM A := on_part cl_relay set_cl_relay m.
Definition on_channel {A} (m : v2chanM A) : claimantM A := on_part cl_channel set_cl_channel m.
Definition on_claimant_endpoint {A} (m : stM (CredentialV2Endpoint B) CredentialV2Error A) : claimantM A :=
  on_part cl_endpoint set_cl_endpoint m.
(** The endpoint, the channel and the relay membership together. *)
Definition on_parts {A} (m : stM (CredentialV2Endpoint B * SecureCredentialV2Channel * CredentialV2RelayState) CredentialV2Error A) :
    claimantM A :=
  s ← get;
  endpoint ← lift (ok_or (cl_endpoint s) CredentialV2Error_Phase);
  channel ← lift (ok_or (cl_channel s) CredentialV2Error_Phase);
  relay ← lift (ok_or (cl_relay s) CredentialV2Error_Phase);
  zoom (fun _ => (endpoint, channel, relay))
    (fun x s => set_cl_relay (Some x.2) (set_cl_channel (Some x.1.2) (set_cl_endpoint (Some x.1.1) s))) id m.

(** [endpoint_phase()?]. *)
Definition claimant_endpoint_phase (s : CredentialV2ClaimantSession) : credM CredentialV2Phase :=
  match cl_endpoint s with Some endpoint => Ok (ve_phase endpoint) | None => Err CredentialV2Error_Phase end.
Definition has_durable_endpoint_phase (s : CredentialV2ClaimantSession) : bool :=
  match cl_endpoint s with
  | Some endpoint => match ve_phase endpoint with Phase_FinalApproved | Phase_PayloadSent => true | _ => false end
  | None => false
  end.
Definition has_cached_outbound_frame (s : CredentialV2ClaimantSession) : bool :=
  match cl_relay s with Some relay => bool_decide (is_Some (rs_cached_outbound relay)) | None => false end.
Definition is_awaiting_profile_authorisation (s : CredentialV2ClaimantSession) : bool :=
  bool_decide (cl_phase s = Claimant_AwaitProfileAuthorisation).
Definition authenticated_offer_body (s : CredentialV2ClaimantSession) : option bytes := ob_body <$> cl_authenticated_offer s.

(** Before any gate is set or anything waits behind one. *)
Definition claimant_gated (s : CredentialV2ClaimantSession) : bool := bool_decide (is_Some (cl_persistence_gate s)).
Definition claimant_waiting (s : CredentialV2ClaimantSession) : bool := negb (bool_decide (length (cl_after_persist s) = 0%nat)).
Definition not_established (s : CredentialV2ClaimantSession) : bool := negb (bool_decide (cl_phase s = Claimant_Established)).

Section Session.
Context `{CredentialV2BodyVerifier B, CredentialV2ClaimantOfferVerifier O B, Cbor, Cddl, UrlParser, Sha256, Sha512, HkdfSha512, HmacSha512}.
Context `{Fiat25519, X25519, HkdfSalted, Aead}.

Definition claimant_send (message : ClientMessage) : credM CredentialV2ClaimantEffect :=
  octets ← relay_message message;
  Ok (ClaimantEffect_Send octets).
Definition claimant_put (sequence : Z) (frame : CredentialV2Frame) : credM CredentialV2ClaimantEffect :=
  body ← encode_frame frame;
  claimant_send (ClientMessage_Put sequence body).

Definition CredentialV2ClaimantSession_new (input : CredentialV2ClaimantSessionInput) (body_verifier : B) :
    credM CredentialV2ClaimantSession :=
  _ ← v2_derive (ci_carrier input) (ci_profile_digest input);
  Ok (mkCredentialV2ClaimantSession (ci_carrier input) (Some (into_presence (ci_presence_code input))) None (ci_cpace_scalar input)
        (ci_profile_digest input) Claimant_AwaitWelcome None None None None None None None (Some body_verifier) None None None [] false).

Definition claimant_restore (checkpoint wrapping_key : bytes) (carrier : CredentialV2Carrier) (expected_generation now : Z)
    (body_verifier : B) : credM CredentialV2ClaimantSession :=
  '(endpoint, channel, relay) ←
    endpoint_restore_checkpoint checkpoint wrapping_key Side_Claimant carrier expected_generation now body_verifier;
  match ve_phase endpoint with
  | Phase_FinalApproved | Phase_PayloadSent =>
      Ok (mkCredentialV2ClaimantSession carrier None None (replicate 32 0) (replicate 32 0) Claimant_Established (Some relay) None None
            None None (Some endpoint) (Some channel) None None None None [] false)
  | _ => Err CredentialV2Error_Phase
  end.

Definition claimant_start (s : CredentialV2ClaimantSession) : credM bytes :=
  if negb (bool_decide (cl_phase s = Claimant_AwaitWelcome)) then Err CredentialV2Error_Phase else relay_message ClientMessage_Bind.

(** ** Before the channel *)

Definition claimant_prepare_finished : claimantM CredentialV2ClaimantEffect :=
  s ← get;
  context ← lift (v2_derive (cl_carrier s) (cl_profile_digest s));
  presence ← lift (ok_or (cl_presence s) CredentialV2Error_Phase);
  started ← lift (v2_start_cpace context Side_Claimant presence (cl_cpace_scalar s));
  local_share ← lift (frame_cpace started.2);
  if negb (bool_decide (cl_local_share s = Some local_share)) then throw CredentialV2Error_Profile
  else
    peer_share ← lift (ok_or (cl_peer_share s) CredentialV2Error_Phase);
    peer_message ← lift (ok_or (cpace_message peer_share) CredentialV2Error_Schema);
    isk ← lift (map_err (fun _ => CredentialV2Error_Cpace) (finish started.1 peer_message));
    peer_octets ← lift (encode_frame peer_share);
    local_octets ← lift (encode_frame local_share);
    pending ← lift (PendingCredentialV2Channel_new Side_Claimant isk (cx_public_context context) peer_octets local_octets);
    let finished := v2_local_finished_frame pending in
    sequence ← on_relay queue_bootstrap_frame;
    _ ← modify (set_cl_pending_channel (Some pending));
    _ ← modify (set_cl_phase Claimant_FinishedSent);
    lift (claimant_put sequence finished).

Definition claimant_establish (ack : option CredentialV2ClaimantEffect) : claimantM claimantE :=
  s ← get;
  peer_finished ← lift (ok_or (cl_peer_finished s) CredentialV2Error_Finished);
  _ ← modify (set_cl_pending_channel None);
  pending ← lift (ok_or (cl_pending_channel s) CredentialV2Error_Phase);
  channel ← lift (v2_confirm pending peer_finished);
  relay ← lift (relay_ref s);
  if rs_awaiting_ack relay then throw CredentialV2Error_Phase
  else
    let transcript_hash := c2_transcript_hash channel in
    _ ← modify (set_cl_body_verifier None);
    body_verifier ← lift (ok_or (cl_body_verifier s) CredentialV2Error_Phase);
    _ ← modify (set_cl_endpoint (Some (CredentialV2Endpoint_new Side_Claimant (cl_carrier s) body_verifier)));
    _ ← modify (set_cl_channel (Some channel));
    _ ← modify (set_cl_phase Claimant_AwaitProfileAuthorisation);
    _ ← modify (set_cl_presence None);
    _ ← modify (set_cl_cpace_scalar (replicate 32 0));
    _ ← modify (set_cl_local_share None);
    _ ← modify (set_cl_peer_share None);
    _ ← modify (set_cl_peer_finished None);
    mret (match ack with Some ack => [ack] | None => [] end ++ [ClaimantEffect_Established transcript_hash]).

Definition claimed (mailbox_id membership_token : bytes) (expires_at : Z) : claimantM claimantE :=
  s ← get;
  if negb (bool_decide (mailbox_id = ca_mailbox_id (cl_carrier s))) || negb (expires_at =? ca_relay_expires_at (cl_carrier s))
  then throw CredentialV2Error_Profile
  else
    _ ← modify (set_cl_claim_token None);
    context ← lift (v2_derive (cl_carrier s) (cl_profile_digest s));
    presence ← lift (ok_or (cl_presence s) CredentialV2Error_Phase);
    started ← lift (v2_start_cpace context Side_Claimant presence (cl_cpace_scalar s));
    share ← lift (frame_cpace started.2);
    let '(relay, queued) := queue_bootstrap_frame (CredentialV2RelayState_new membership_token) in
    sequence ← lift queued;
    _ ← modify (set_cl_local_share (Some share));
    _ ← modify (set_cl_relay (Some relay));
    _ ← modify (set_cl_phase Claimant_ShareSent);
    put ← lift (claimant_put sequence share);
    mret [put].

(** ** After the channel *)

Definition claimant_application_frame (peer_seq : Z) (frame : CredentialV2Frame) (now : Z) : claimantM claimantE :=
  _ ← on_relay (accept_peer_sequence peer_seq);
  plaintext ← on_channel (v2_open frame);
  object ← lift (decode_object plaintext);
  s ← get;
  endpoint ← lift (ok_or (cl_endpoint s) CredentialV2Error_Phase);
  advance ←
    (if bool_decide (ve_phase endpoint = Phase_Begin) || bool_decide (ve_phase endpoint = Phase_AccountSelected) then
       if negb (bool_decide (ob_kind object = Kind_Offer)) then throw CredentialV2Error_Phase
       else
         verifier ← lift (ok_or (cl_offer_verifier s) CredentialV2Error_Phase);
         zoom (fun _ => (verifier, endpoint)) (fun x s => set_cl_endpoint (Some x.2) (set_cl_offer_verifier (Some x.1) s)) id
           (verify_offer object now)
     else on_claimant_endpoint (v2_receive object));
  ack ← lift (claimant_send (ClientMessage_Ack peer_seq));
  match advance with
  | Advance_DisplayIntent display =>
      _ ← modify (set_cl_authenticated_offer (Some object));
      mret [ack; ClaimantEffect_DisplayIntent display]
  | Advance_Advanced => mret [ack; ClaimantEffect_ReceivedObject object]
  | Advance_ExactRetransmission => mret [ack]
  end.

Definition claimant_peer_frame (peer_seq : Z) (body : bytes) (now : Z) : claimantM claimantE :=
  frame ← lift (decode_frame body);
  s ← get;
  if bool_decide (cl_phase s = Claimant_Established) then claimant_application_frame peer_seq frame now
  else
    _ ← on_relay (accept_peer_sequence peer_seq);
    ack ← lift (claimant_send (ClientMessage_Ack peer_seq));
    match cl_phase s with
    | Claimant_ShareSent =>
        if negb (is_cpace_of Side_Allocator frame) then throw CredentialV2Error_Direction
        else
          _ ← modify (set_cl_peer_share (Some frame));
          relay ← asks relay_ref;
          if rs_awaiting_ack relay then mret [ack]
          else
            put ← claimant_prepare_finished;
            mret [ack; put]
    | Claimant_FinishedSent =>
        if negb (is_finished_of Side_Allocator frame) then throw CredentialV2Error_Direction
        else
          _ ← modify (set_cl_peer_finished (Some frame));
          relay ← asks relay_ref;
          if rs_awaiting_ack relay then mret [ack] else claimant_establish (Some ack)
    | _ => throw CredentialV2Error_Phase
    end.

Definition local_ack (sequence : Z) : claimantM claimantE :=
  s ← get;
  relay ← lift (relay_ref s);
  if acknowledgement_already_applied relay sequence then mret []
  else if bool_decide (cl_phase s = Claimant_Established) then
    _ ← on_relay (acknowledge_application_frame sequence);
    mret []
  else
    _ ← on_relay (acknowledge_bootstrap_frame sequence);
    match cl_phase s with
    | Claimant_ShareSent =>
        if bool_decide (is_Some (cl_peer_share s)) then put ← claimant_prepare_finished; mret [put]
        else if bool_decide (cl_peer_finished s = None) then mret []
        else throw CredentialV2Error_Phase
    | Claimant_FinishedSent => if bool_decide (cl_peer_finished s = None) then mret [] else claimant_establish None
    | _ => throw CredentialV2Error_Phase
    end.

Definition claimant_apply_server (message : ServerMessage) (now : Z) : claimantM claimantE :=
  s ← get;
  match message with
  | ServerMessage_Welcome =>
      if negb (bool_decide (cl_phase s = Claimant_AwaitWelcome)) then throw CredentialV2Error_Phase
      else
        claim_token ← on_part cl_presence set_cl_presence take_claim_token;
        _ ← modify (set_cl_claim_token (Some claim_token));
        _ ← modify (set_cl_phase Claimant_ClaimSent);
        claim ← lift (claimant_send (ClientMessage_ClaimV2 (ca_mailbox_id (cl_carrier s)) claim_token));
        mret [claim]
  | ServerMessage_ClaimedV2 mailbox_id membership_token expires_at =>
      if negb (bool_decide (cl_phase s = Claimant_ClaimSent)) then throw CredentialV2Error_Phase
      else claimed mailbox_id membership_token expires_at
  | ServerMessage_Frame peer_seq body => claimant_peer_frame peer_seq body now
  | ServerMessage_Acknowledged seq => local_ack seq
  | ServerMessage_Pong => mret []
  | ServerMessage_Closed _ | ServerMessage_Error _ =>
      _ ← modify claimant_terminate;
      mret [ClaimantEffect_Terminal]
  | _ => throw CredentialV2Error_Phase
  end.

(** ** The calls *)

Definition claimant_message (input : bytes) : credM ServerMessage := map_err (fun _ => CredentialV2Error_Schema) (decode_server_message input).

Definition claimant_receive (input : bytes) (now : Z) : claimantM claimantE :=
  s ← get;
  if claimant_gated s || has_durable_endpoint_phase s then throw CredentialV2Error_Phase
  else if bool_decide (cl_phase s = Claimant_Terminal) then throw CredentialV2Error_Terminal
  else if ca_relay_expires_at (cl_carrier s) <=? now then
    _ ← modify claimant_terminate;
    throw CredentialV2Error_Expired
  else
    ending_on_error claimant_terminate (
      message ← lift (claimant_message input);
      claimant_apply_server message now).

Definition authorise_authenticated_profile (offer_verifier : O) : claimantM unit :=
  s ← get;
  if negb (bool_decide (cl_phase s = Claimant_AwaitProfileAuthorisation)) then throw CredentialV2Error_Phase
  else
    _ ← modify (set_cl_offer_verifier (Some offer_verifier));
    modify (set_cl_phase Claimant_Established).

Definition claimant_recovery_commitment `{HmacSha256} (s : CredentialV2ClaimantSession) : credM bytes :=
  if not_established s then Err CredentialV2Error_Phase
  else
    endpoint ← ok_or (cl_endpoint s) CredentialV2Error_Phase;
    channel ← ok_or (cl_channel s) CredentialV2Error_Phase;
    receipt_recovery_commitment channel (ve_carrier endpoint).

(** The token that the consumer's closure borrows. *)
Definition claimant_recovery_token `{HmacSha256} (s : CredentialV2ClaimantSession) : credM bytes :=
  if not_established s then Err CredentialV2Error_Phase
  else
    phase ← claimant_endpoint_phase s;
    if negb (bool_decide (phase = Phase_PayloadSent)) then Err CredentialV2Error_Phase
    else
      channel ← ok_or (cl_channel s) CredentialV2Error_Phase;
      receipt_recovery_token channel.

(** An object prepared on the parts, with its sequence number. *)
Definition prepare_on_parts (object : CredentialV2Object) : claimantM (Z * CredentialV2Frame) :=
  on_parts (
    frame ← prepare_outbound object;
    x ← get;
    sequence ← lift (cached_application_sequence x.2);
    mret (sequence, frame)).

Definition preliminary (kind : CredentialV2Kind) : bool :=
  match kind with
  | Kind_AccountSelect | Kind_IntentApprove | Kind_IntentDecline | Kind_Preparation | Kind_Refusal | Kind_FinalDecline => true
  | _ => false
  end.

Definition claimant_prepare_application_object (object : CredentialV2Object) : claimantM claimantE :=
  s ← get;
  if claimant_gated s || not_established s || negb (preliminary (ob_kind object)) then throw CredentialV2Error_Phase
  else
    '(sequence, frame) ← prepare_on_parts object;
    put ← lift (claimant_put sequence frame);
    mret [put].

Definition prepare_final_approval (object : CredentialV2Object) (wrapping_key nonce : bytes) (now : Z) : claimantM claimantE :=
  s ← get;
  if claimant_gated s || claimant_waiting s || not_established s || negb (bool_decide (ob_kind object = Kind_FinalApprove))
  then throw CredentialV2Error_Phase
  else
    ending_on_error claimant_terminate (
      '(sequence, frame) ← prepare_on_parts object;
      '(generation, checkpoint) ← on_parts (
        x ← get;
        let '(endpoint, channel, relay) := x in
        let generation := saturating_add u64_max (ve_checkpoint_generation endpoint) 1 in
        checkpoint ← on_endpoint_part (endpoint_seal_checkpoint channel relay wrapping_key generation
                                         (Some (ca_relay_expires_at (cl_carrier s))) nonce now);
        mret (generation, checkpoint));
      _ ← modify (set_cl_persistence_gate (Some generation));
      put ← lift (claimant_put sequence frame);
      _ ← modify (set_cl_after_persist [put]);
      mret [ClaimantEffect_Checkpoint generation checkpoint]).

Definition claimant_checkpoint_persisted (generation : Z) : claimantM claimantE :=
  s ← get;
  if negb (bool_decide (cl_persistence_gate s = Some generation)) then throw CredentialV2Error_Counter
  else
    _ ← modify (set_cl_persistence_gate None);
    _ ← modify (set_cl_after_persist []);
    mret (cl_after_persist s).

Definition resume_cached_frame (s : CredentialV2ClaimantSession) : credM claimantE :=
  if claimant_gated s || not_established s || negb (has_durable_endpoint_phase s) then Err CredentialV2Error_Phase
  else
    relay ← ok_or (cl_relay s) CredentialV2Error_Phase;
    match rs_cached_outbound relay with
    | None => Ok []
    | Some frame =>
        sequence ← cached_application_sequence relay;
        put ← claimant_put sequence frame;
        Ok [put]
    end.

Definition checkpoint_current (wrapping_key nonce : bytes) (now : Z) (expiry : option Z) (after : claimantE) : claimantM claimantE :=
  s ← get;
  if claimant_gated s || claimant_waiting s then throw CredentialV2Error_Phase
  else
    '(generation, checkpoint) ← on_parts (
      x ← get;
      let '(endpoint, channel, relay) := x in
      let generation := saturating_add u64_max (ve_checkpoint_generation endpoint) 1 in
      checkpoint ← on_endpoint_part (endpoint_seal_checkpoint channel relay wrapping_key generation expiry nonce now);
      mret (generation, checkpoint));
    _ ← modify (set_cl_persistence_gate (Some generation));
    _ ← modify (set_cl_after_persist after);
    mret [ClaimantEffect_Checkpoint generation checkpoint].

Definition receive_durable (input : bytes) (now : Z) (wrapping_key nonce : bytes) : claimantM claimantE :=
  s ← get;
  if claimant_gated s || not_established s || negb (has_durable_endpoint_phase s) then throw CredentialV2Error_Phase
  else
    endpoint_phase ← lift (claimant_endpoint_phase s);
    if bool_decide (endpoint_phase = Phase_FinalApproved) && (ca_relay_expires_at (cl_carrier s) <=? now)
    then throw CredentialV2Error_Expired
    else
      message ← lift (claimant_message input);
      match message with
      | ServerMessage_Acknowledged seq =>
          relay ← lift (relay_ref s);
          if acknowledgement_already_applied relay seq then mret []
          else
            _ ← local_ack seq;
            expiry ← lift match endpoint_phase with
                          | Phase_FinalApproved => Ok (Some (ca_relay_expires_at (cl_carrier s)))
                          | Phase_PayloadSent => Ok None
                          | _ => Err CredentialV2Error_Phase
                          end;
            checkpoint_current wrapping_key nonce now expiry []
      | _ => throw CredentialV2Error_Phase
      end.

Definition receive_recovered_receipt (input : bytes) : claimantM CredentialV2ClaimantRecoveredReceipt :=
  s ← get;
  if claimant_gated s || not_established s then throw CredentialV2Error_Phase
  else
    phase ← lift (claimant_endpoint_phase s);
    if negb (bool_decide (phase = Phase_PayloadSent)) || cl_pending_recovered_receipt s || has_cached_outbound_frame s
    then throw CredentialV2Error_Phase
    else
      receipt ← ending_on_error claimant_terminate (
        message ← lift (claimant_message input);
        match message with
        | ServerMessage_Frame peer_seq body =>
            frame ← lift (decode_frame body);
            _ ← on_relay (accept_peer_sequence peer_seq);
            plaintext ← on_channel (v2_open frame);
            object ← lift (decode_object plaintext);
            authority ← on_claimant_endpoint (authenticate_recovered_receipt object);
            mret (mkCredentialV2ClaimantRecoveredReceipt object authority (Some peer_seq))
        | _ => throw CredentialV2Error_Phase
        end);
      _ ← modify (set_cl_pending_recovered_receipt true);
      mret receipt.

Definition authenticate_recovered_receipt_object (object : CredentialV2Object) : claimantM CredentialV2ClaimantRecoveredReceipt :=
  s ← get;
  if claimant_gated s || not_established s then throw CredentialV2Error_Phase
  else
    phase ← lift (claimant_endpoint_phase s);
    if negb (bool_decide (phase = Phase_PayloadSent)) || cl_pending_recovered_receipt s then throw CredentialV2Error_Phase
    else
      authority ← on_claimant_endpoint (authenticate_recovered_receipt object);
      _ ← modify (set_cl_pending_recovered_receipt true);
      mret (mkCredentialV2ClaimantRecoveredReceipt object authority None).

Definition commit_recovered_receipt (receipt : CredentialV2ClaimantRecoveredReceipt) : claimantM claimantE :=
  s ← get;
  if negb (cl_pending_recovered_receipt s) || claimant_gated s || not_established s then throw CredentialV2Error_Phase
  else
    phase ← lift (claimant_endpoint_phase s);
    if negb (bool_decide (phase = Phase_PayloadSent)) || (bool_decide (is_Some (rr_peer_seq receipt)) && has_cached_outbound_frame s)
    then throw CredentialV2Error_Phase
    else
      acknowledgement ← lift match rr_peer_seq receipt with
                             | Some peer_seq => ack ← claimant_send (ClientMessage_Ack peer_seq); Ok [ack]
                             | None => Ok []
                             end;
      _ ← on_claimant_endpoint (recover_receipt (rr_object receipt) (rr_authority receipt));
      _ ← modify (set_cl_pending_recovered_receipt false);
      _ ← modify claimant_terminate;
      mret acknowledgement.

Definition prepare_payload (object : CredentialV2Object) (wrapping_key nonce : bytes) (now : Z) : claimantM claimantE :=
  s ← get;
  if claimant_gated s || claimant_waiting s || not_established s then throw CredentialV2Error_Phase
  else
    phase ← lift (claimant_endpoint_phase s);
    if negb (bool_decide (phase = Phase_FinalApproved)) || negb (bool_decide (ob_kind object = Kind_Payload))
    then throw CredentialV2Error_Phase
    else if ca_relay_expires_at (cl_carrier s) <=? now then throw CredentialV2Error_Expired
    else
      ending_on_error claimant_terminate (
        '(sequence, frame) ← prepare_on_parts object;
        put ← lift (claimant_put sequence frame);
        checkpoint_current wrapping_key nonce now None [put]).
End Session.
End Claimant.
Arguments CredentialV2ClaimantSession : clear implicits.
