(* ===== verification/CredSessionThms.v ===== *)
(** * Lemmas on the sessions of credential/v2

    What an established party keeps, what its checkpoint restores to, and the
    invariants of both sessions with the persistence barrier between calls. *)

From S2P Require Import Prelude External Wire Cddl WireCodec WireLaws WireThms WireProps Context Channel CurveExternal Cpace Profile ProfileThms CredCore CredFrame CredDisplay CredCarrier CredContext CredPresence CredHandoff CredChannel CredEndpoint CredStory CredCeremony CredBytes CredCheckpoint CredCheckpointThms CredCheckpointProps CredBootstrap CredBootstrapThms CredAllocator CredClaimant.

(** A result that is returned, step by step. *)
Lemma bind_returns {S E A A'} (m : stM S E A) (k : A -> stM S E A') s s' a' : (m ≫= k) s = (s', Ok a') ->
  exists s1 a, m s = (s1, Ok a) /\ k a s1 = (s', Ok a').
Proof. unfold mbind, stM_bind. destruct (m s) as [s1 [a|e|]]; [|done..]. intros. by exists s1, a. Qed.
Lemma lift_returns {S E A} (o : outcome E A) (s s' : S) a : lift o s = (s', Ok a) <-> o = Ok a /\ s' = s.
Proof. unfold lift. naive_solver. Qed.
Lemma zoom_returns {S T E A} (sel : S -> T) upd (m : stM T E A) s s' a : zoom sel upd id m s = (s', Ok a) <->
  exists t, m (sel s) = (t, Ok a) /\ s' = upd t s.
Proof. unfold zoom. destruct (m (sel s)) as [t [x|e|]]; naive_solver. Qed.

(** ** A relay membership *)

Definition relay_typed (r : CredentialV2RelayState) : Prop :=
  length (rs_membership_token r) = 32%nat /\ 0 <= rs_next_local_sequence r.

Lemma accept_peer_ok n r r' u : accept_peer_sequence n r = (r', Ok u) ->
  r' = set_next_peer_sequence (rs_next_peer_sequence r + 1) r /\ n = rs_next_peer_sequence r.
Proof.
  unfold accept_peer_sequence. run_guards. destruct (negb _) eqn:E; [done|]. run_guards.
  destruct (checked_add _ _ _) as [x|] eqn:Hx; [|done]. apply checked_add_some in Hx as [-> _]. bool_to_prop. by intros [= <-].
Qed.
Lemma queue_ok r r' n : queue_bootstrap_frame r = (r', Ok n) ->
  rs_awaiting_ack r = false /\ rs_cached_outbound r = None /\ n = rs_next_local_sequence r /\
  r' = set_awaiting_ack true (set_next_local_sequence (n + 1) r).
Proof.
  unfold queue_bootstrap_frame. run_guards. destruct (_ || _) eqn:E; [done|]. run_guards.
  destruct (checked_add _ _ _) as [x|] eqn:Hx; [|done]. apply checked_add_some in Hx as [-> _].
  apply orb_false_iff in E as [E1 E2%bool_decide_eq_false]. intros [= <- <-]. split_and!; try done.
  destruct (rs_cached_outbound r); [by destruct E2|done].
Qed.
Lemma ack_bootstrap_ok n r r' u : acknowledge_bootstrap_frame n r = (r', Ok u) -> r' = set_awaiting_ack false r /\ rs_awaiting_ack r = true.
Proof.
  unfold acknowledge_bootstrap_frame. run_guards. destruct (ok_or _ _); [|done..]. destruct (_ || _) eqn:E; [done|].
  intros [= <-]. split; [done|]. by apply orb_false_iff in E as [[E%negb_false_iff _]%orb_false_iff _].
Qed.
Lemma ack_application_ok n r r' u : acknowledge_application_frame n r = (r', Ok u) ->
  r' = set_awaiting_ack false (set_relay_cached None r).
Proof.
  unfold acknowledge_application_frame. run_guards. destruct (cached_application_sequence r); [|done..].
  destruct (negb _); [done|]. by intros [= <-].
Qed.

(** ** An established party *)

Section Party.
Context {B : Type} `{CredentialV2BodyVerifier B, Cbor, !CborLaws, !CborIntLaws, UrlParser, Sha256, !Sha256Laws}.
Context `{HkdfSalted, !HkdfSaltedLaws, Aead, !AeadLaws}.
Context (side : Side) (carrier : CredentialV2Carrier).
Abbreviation party := (CredentialV2Endpoint B * SecureCredentialV2Channel * CredentialV2RelayState)%type.

Record party_ok (x : party) : Prop := {
  po_story : exists phase log, story carrier side x.1.1 phase log /\ Forall (fun x => genuine x.2) log;
  po_channel : stored_channel x.1.2;
  po_live : c2_terminal x.1.2 = false;
  po_relay : stored_relay x.2;
  po_sequence : 0 <= rs_next_local_sequence x.2;
  po_generation : 0 <= ve_checkpoint_generation x.1.1 <= u64_max
}.

Lemma counter_next n : counter_ok (Some n) -> counter_ok (checked_add u64_max n 1).
Proof. intros Hn z Hz. apply checked_add_some in Hz as [-> Hle]. specialize (Hn n eq_refl). lia. Qed.

(** Operations on the endpoint keep its checkpoint's numbers. *)
Definition numbered (e : CredentialV2Endpoint B) {A} (_ : A) (e' : CredentialV2Endpoint B) : Prop :=
  ve_checkpoint_generation e' = ve_checkpoint_generation e.
Lemma wp_numbered_fail {A} error e e0 (Q : A -> CredentialV2Endpoint B -> Prop) : numbered e0 tt e ->
  wp True (v2_fail error) Q (numbered e0) e.
Proof. intros Hn. exact Hn. Qed.
Lemma wp_numbered_or_fail {A} (r : credM A) e e0 (Q : A -> CredentialV2Endpoint B -> Prop) : numbered e0 tt e ->
  (forall a, Q a e) -> wp True (or_fail r) Q (numbered e0) e.
Proof. intros Hn HQ. destruct r; [apply HQ|exact Hn|done]. Qed.
Lemma wp_numbered_accept o sender next e e0 : numbered e0 tt e -> wp True (v2_accept o sender next) (fun _ => numbered e0 tt) (numbered e0) e.
Proof. intros Hn. unfold wp. by rewrite accept_run. Qed.
Lemma wp_numbered_accepted o sender next e e0 (P : Prop) : numbered e0 tt e ->
  wp True (_ ← v2_accept o sender next; mret Advance_Advanced)
    (fun a e' => numbered e0 a e' /\ (a = Advance_Advanced \/ P)) (numbered e0) e.
Proof. intros Hn. apply wp_bind. eapply wp_mono; [by apply wp_numbered_accept| |done]. intros [] e' He'. split; [exact He'|by left]. Qed.

Lemma wp_numbered_apply o sender e : wp True (v2_apply o sender)
  (fun a e' => numbered e a e' /\ (a = Advance_Advanced \/ exact_retransmission e o sender = true)) (numbered e) e.
Proof.
  unfold v2_apply. apply wp_bind, wp_get. destruct (exact_retransmission _ _ _) eqn:Hex; [split; [done|by right]|]. case_bool_decide; [done|].
  destruct (_ && _); [done|]. destruct (negb _); [by apply wp_numbered_fail|]. case_bool_decide; [|case_bool_decide].
  - unfold apply_account_select. apply wp_bind, wp_get. destruct (_ || _); [by apply wp_numbered_fail|].
    apply wp_bind, wp_numbered_or_fail; [done|]. intros _. by apply wp_numbered_accepted.
  - unfold apply_offer. apply wp_bind, wp_get. destruct (_ || _); [by apply wp_numbered_fail|].
    apply wp_bind, wp_modify. by apply wp_numbered_accepted.
  - unfold apply_successor. apply wp_bind, wp_get. destruct (ve_intent_digest e) as [i|]; [|by apply wp_numbered_fail].
    destruct (negb _); [by apply wp_numbered_fail|]. destruct (next_phase _ _) as [next|]; [|by apply wp_numbered_fail].
    apply wp_bind, wp_numbered_or_fail; [done|]. intros body. destruct (negb _); [by apply wp_numbered_fail|].
    destruct (ve_last e) as [last|]; [|by apply wp_numbered_fail]. destruct (negb _); [by apply wp_numbered_fail|].
    apply wp_bind. unfold wp at 1, verify_body. destruct (body_verify _ _) as [b r].
    apply wp_bind, wp_numbered_or_fail; [done|]. intros _. by apply wp_numbered_accepted.
Qed.

Lemma sealed_generation ch rl key generation expiry nonce now e e' ck :
  endpoint_seal_checkpoint ch rl key generation expiry nonce now e = (e', Ok ck) -> 0 <= ve_checkpoint_generation e <= u64_max ->
  0 < generation <= u64_max.
Proof. intros (_ & _ & _ & ? & Hg & _)%endpoint_seal_ok ?. unfold saturating_add in Hg. lia. Qed.

(** A party goes on after it has sealed a checkpoint. *)
Lemma party_sealed ch rl key generation expiry nonce now e e' ck :
  endpoint_seal_checkpoint ch rl key generation expiry nonce now e = (e', Ok ck) -> party_ok (e, ch, rl) -> party_ok (e', ch, rl).
Proof.
  intros Hs [(phase & log & Hst & Hg) Hc Hl Hr Hq Hn]. pose proof (sealed_generation _ _ _ _ _ _ _ _ _ _ Hs Hn) as Hge.
  apply endpoint_seal_ok in Hs as (-> & _). split; try done; [|simpl; lia]. exists phase, log. split; [|done]. by destruct Hst.
Qed.

(** What its checkpoint restores to. *)
Lemma party_restores e ch rl key generation expiry nonce now now' e' ck b b' :
  party_ok (e, ch, rl) -> carrier_typed carrier -> length nonce = 12%nat ->
  body_checkpoint_state (ve_body_verifier e) ≫= restored_verifier b = Ok b' ->
  endpoint_seal_checkpoint ch rl key generation expiry nonce now e = (e', Ok ck) -> live_for (Purpose_ResumeAt now') expiry ->
  endpoint_restore_checkpoint (ec_bytes ck) key side carrier generation now' b = Ok (kept_endpoint rl b' generation nonce e, ch, rl).
Proof.
  intros [(phase & log & Hst & Hg) Hc Hl Hr Hq Hn] Hty Hln Hb Hs Hlive. cbn [fst snd] in *.
  pose proof (endpoint_seal_ok _ _ _ _ _ _ _ _ _ _ Hs) as (_ & _ & Hv & _). destruct (phase_valid _ _ _ _ _ _ Hv) as (Hrel & _).
  rewrite <- (sy_side _ _ _ _ _ Hst), <- (sy_carrier _ _ _ _ _ Hst).
  rewrite (restore_sealed _ _ _ _ _ _ _ _ e e' ck b b' ltac:(by eapply story_storable) Hc Hl Hr Hn Hln Hb Hs Hlive).
  assert (stranded e rl = false) as ->; [|done]. unfold stranded. rewrite (sy_last _ _ _ _ _ Hst). by destruct (head log).
Qed.

(** ** What a party does *)

Lemma party_apply o sender e ch rl e' a : genuine o -> party_ok (e, ch, rl) -> v2_apply o sender e = (e', Ok a) -> party_ok (e', ch, rl).
Proof.
  intros Ho [(phase & log & Hst & Hg) Hc Hl Hr Hq Hn] Hs. cbn [fst snd] in *.
  pose proof (wp_run _ _ _ _ _ _ _ (wp_v2_apply carrier side o sender e phase log Hst) Hs) as Ht. cbv beta in Ht.
  pose proof (wp_run _ _ _ _ _ _ _ (wp_numbered_apply o sender e) Hs) as [Hnum _]. unfold numbered in Hnum.
  split; try done; [|cbn; by rewrite Hnum]. destruct a; cbn in Ht; destruct Ht as (ph & Ht).
  1, 2: destruct Ht as [Ht _]; exists ph, ((sender, o) :: log); split; [done|by constructor].
  by exists ph, log.
Qed.
Lemma party_receive o e ch rl e' a : genuine o -> party_ok (e, ch, rl) -> v2_receive o e = (e', Ok a) -> party_ok (e', ch, rl).
Proof. intros Ho Hp. unfold v2_receive. rewrite get_bind. by apply party_apply. Qed.

(** The latest object after one is received. *)
Lemma party_received o e ch rl e' a : party_ok (e, ch, rl) -> v2_receive o e = (e', Ok a) -> exists l,
  ve_last e' = Some l /\ lo_sender l = opposite side /\ lo_bytes l = Some (ob_bytes o).
Proof.
  intros [(phase & log & Hst & _) _ _ _ _ _]. cbn [fst snd] in *. unfold v2_receive. rewrite get_bind, (sy_side _ _ _ _ _ Hst). intros Hr.
  pose proof (wp_run _ _ _ _ _ _ _ (wp_v2_apply carrier side o (opposite side) e phase log Hst) Hr) as Ht. cbv beta in Ht.
  destruct (wp_run _ _ _ _ _ _ _ (wp_numbered_apply o (opposite side) e) Hr) as [_ [-> |Hex]].
  - destruct Ht as (ph & Ht & _). rewrite (sy_last _ _ _ _ _ Ht). by eexists.
  - unfold v2_apply in Hr. rewrite get_bind, Hex in Hr. injection Hr as <- _.
    unfold exact_retransmission in Hex. rewrite (sy_last _ _ _ _ _ Hst) in Hex |- *. destruct (head log) as [x|]; [|done].
    cbn in Hex. rewrite !andb_true_iff, !bool_decide_eq_true in Hex. destruct Hex as [[[[Hse _] _] _] Hby]. exists (last_entry x). cbn. by rewrite Hse, Hby.
Qed.

Lemma party_peer n e ch rl rl' u : accept_peer_sequence n rl = (rl', Ok u) -> party_ok (e, ch, rl) -> party_ok (e, ch, rl').
Proof. intros (-> & _)%accept_peer_ok [? ? ? [] ? ?]. by split. Qed.

Lemma party_open f e ch rl ch' p : v2_open f ch = (ch', Ok p) -> party_ok (e, ch, rl) -> party_ok (e, ch', rl).
Proof.
  intros [(n & p' & _ & Hl & Hn & _ & ->)|[[err [=]] _]]%v2_open_cases [Hst [[] Hx] Hl' Hr Hq Hg]. split; try done. cbn [fst snd] in *.
  split; [|done]. split; try done. cbn. apply counter_next. by rewrite <- Hn.
Qed.

Lemma party_acked n e ch rl rl' u : acknowledge_application_frame n rl = (rl', Ok u) -> party_ok (e, ch, rl) -> party_ok (e, ch, rl').
Proof. intros ->%ack_application_ok [? ? ? [] ? ?]. by split. Qed.

Lemma cached_sequence r n : rs_cached_outbound r <> None -> rs_awaiting_ack r = true -> rs_next_local_sequence r = n + 1 -> 0 <= n ->
  cached_application_sequence r = Ok n.
Proof.
  intros Hc Ha Hn Hz. unfold cached_application_sequence. rewrite Ha. rewrite bool_decide_eq_true_2 by by destruct (rs_cached_outbound r).
  cbn [negb orb]. apply ok_or_ok, checked_sub_some. lia.
Qed.

(** Preparing an object leaves its sealed frame in the cache. *)
Lemma party_prepare o x x' f : genuine o -> party_ok x -> prepare_outbound o x = (x', Ok f) ->
  party_ok x' /\ rs_cached_outbound x'.2 = Some f.
Proof.
  destruct x as [[e ch] rl]. intros Ho Hp. unfold prepare_outbound. rewrite get_bind. destruct (negb _); [done|].
  destruct (rs_cached_outbound rl) as [cached|] eqn:Hca.
  { destruct (exact_retransmission _ _ _); [|done]. by intros [= <- <-]. }
  run_guards. destruct (can_seal ch (ob_bytes o)) as [sealable|err|]; [|done..].
  intros (x1 & adv & (e1 & Hsend & ->)%zoom_returns & Hrest)%bind_returns. cbn [fst snd] in *. destruct adv; [|done..].
  assert (party_ok (e1, ch, rl)) as Hp1 by (unfold v2_send in Hsend; rewrite get_bind in Hsend; by eapply party_apply).
  apply bind_returns in Hrest as (x2 & f2 & (ch2 & Hseal & ->)%zoom_returns & Hrest). cbn [fst snd] in *.
  apply bind_returns in Hrest as (x3 & u & (rl3 & Hcache & ->)%zoom_returns & Hrest). cbn [fst snd] in *. injection Hrest as <- ->.
  apply v2_seal_cases in Hseal as [(n & f' & [= <-] & _ & _ & Hn & (aad & ct & -> & _) & ->)|[_ [err [=]]]].
  unfold cache_application_frame in Hcache. rewrite get_bind in Hcache. destruct (_ || _) in Hcache; [done|].
  rewrite lift_bind in Hcache. destruct (checked_add u8_max _ _) as [next|] eqn:Hnext; [|done]. injection Hcache as <-.
  destruct Hp1 as [Hst [[] Hx] Hl' [] Hq Hg]. cbn [fst snd] in *. split; [|done]. split; try done; cbn [fst snd].
  - split; [|done]. split; try done. cbn. apply counter_next. by rewrite <- Hn.
  - split; try done. intros fr [= <-]. split; [done|]. cbn. rewrite Hn in v2k_send_counter. by apply v2k_send_counter.
  - cbn. apply checked_add_some in Hnext as [-> _]. lia.
Qed.
End Party.

(** ** A channel when it is confirmed *)

Section Confirmed.
Context `{Cbor, !CborLaws, UrlParser, Sha256, Sha512, HkdfSha512, HmacSha512, !ScheduleLaws}.

Lemma expand_length n isk label th k : v2_expand n isk label th = Ok k -> (n <= 64)%nat -> length k = n.
Proof. intros Hk Hn. destruct (v2_expand_total n isk label th Hn) as (k' & He & Hl). congruence. Qed.

Lemma confirmed_channel side isk context fa fb p f c : PendingCredentialV2Channel_new side isk context fa fb = Ok p ->
  v2_confirm p f = Ok c -> stored_channel c /\ c2_terminal c = false /\ c2_local_side c = side.
Proof.
  unfold PendingCredentialV2Channel_new. intros (th & Hth & (k1 & _ & (k2 & _ & (f1 & _ & (f2 & _ & Hp)%bind_ok)%bind_ok)%bind_ok)%bind_ok)%bind_ok Hc.
  apply bind_ok in Hp as (k3 & Hk3 & (k4 & Hk4 & (i1 & Hi1 & (i2 & Hi2 & (ex & Hex & [= <-])%bind_ok)%bind_ok)%bind_ok)%bind_ok).
  apply expand_length in Hk3, Hk4, Hi1, Hi2, Hex; try lia.
  assert (length th = 64%nat) as Hl by (destruct (v2_transcript_total context fa fb) as (th' & He & Hl); congruence).
  unfold v2_confirm in Hc. apply bind_ok in Hc as ([ps pf] & _ & Hc). destruct (_ || _) in Hc; [done|].
  assert (counter_ok (Some 0)) as Hz by (intros z [= <-]; unfold u64_max; lia).
  destruct side; cbn in Hc; injection Hc as <-; (split; [by split; [split|]|done]).
Qed.
End Confirmed.

(** ** The allocator's session *)

Section Allocator.
Context {B : Type} `{CredentialV2BodyVerifier B, Cbor, !CborLaws, !CborIntLaws, Cddl, !CddlLaws, UrlParser, Sha256, !Sha256Laws}.
Context `{Sha512, HkdfSha512, HmacSha512, !ScheduleLaws, Fiat25519, X25519, !X25519Laws, HkdfSalted, !HkdfSaltedLaws, Aead, !AeadLaws}.
Abbreviation session := (CredentialV2AllocatorSession B).
Implicit Types s : session.

(** A bootstrap that belongs to a session. *)
Record boot_of (mode : CredentialV2AllocatorMode) (profile : bytes) (b : CredentialV2AllocatorBootstrap) : Prop := {
  bl_sound : boot_sound b;
  bl_mode : bo_mode b = mode;
  bl_profile : bo_profile_digest b = profile;
  bl_sequence : 0 <= rs_next_local_sequence (bo_relay b)
}.
Definition boot_live s (b : CredentialV2AllocatorBootstrap) : Prop := boot_of (al_mode s) (al_profile_digest s) b.

Record session_ok s : Prop := {
  sk_template : carrier_typed (al_template s);
  sk_commitment : length (al_claim_commitment s) = 32%nat;
  sk_profile : length (al_profile_digest s) = 32%nat;
  sk_presence : match al_presence s with
    | Some p => length (pr_cpace_secret p) = 16%nat /\ exists t, pr_claim_token p = Some t /\ length t = 16%nat
    | None => True end;
  sk_scalar : optional_length 32 (al_cpace_scalar s);
  sk_state : match al_state s with
    | AllocatorState_Bootstrap b => boot_live s b
    | AllocatorState_Established e ch rl => party_ok Side_Allocator (ve_carrier e) (e, ch, rl) /\ carrier_typed (ve_carrier e)
    | _ => True end;
  sk_gate : al_persistence_gate s = None -> al_after_persist s = []
}.

(** What a session shows of its durable state: equal for a session and the one
    its checkpoint restores to. *)
Record same_view s s' : Prop := {
  sv_reopen : reopen_effects s' = reopen_effects s;
  sv_bootstrap : allocator_bootstrap_phase s' = allocator_bootstrap_phase s;
  sv_endpoint : allocator_endpoint_phase s' = allocator_endpoint_phase s;
  sv_transcript : allocator_transcript_hash s' = allocator_transcript_hash s;
  sv_received : allocator_last_received_object s' = allocator_last_received_object s
}.

(** The carrier a session waits with. *)
Definition session_carrier s : option CredentialV2Carrier :=
  match al_state s with
  | AllocatorState_Bootstrap b => Some (bo_carrier b)
  | AllocatorState_Established e _ _ => Some (ve_carrier e)
  | _ => None
  end.

Definition is_put (m : ClientMessage) : bool := match m with ClientMessage_Put _ _ => true | _ => false end.

(** An effect that the durable state accounts for: a frame that reopening sends
    again, a transcript hash or an object that the state holds. *)
Definition covered s (effect : CredentialV2AllocatorEffect) : Prop :=
  match effect with
  | AllocatorEffect_Send octets =>
      (exists m, is_put m = false /\ relay_message m = Ok octets) \/
      (exists es, reopen_effects s = Ok es /\ effect ∈ es)
  | AllocatorEffect_Checkpoint _ _ _ => False
  | AllocatorEffect_PendingAllocation octets => exists c, session_carrier s = Some c /\ encode_carrier c = Ok octets
  | AllocatorEffect_Established th => allocator_transcript_hash s = Some th
  | AllocatorEffect_ReceivedObject o => allocator_last_received_object s = Ok (Some o)
  | AllocatorEffect_Terminal => al_state s = AllocatorState_Terminal
  end.

(** A verifier that takes every state a verifier wrote. *)
Definition takes_states (b : B) : Prop := forall v octets, body_checkpoint_state v = Ok octets -> exists b', restored_verifier b octets = Ok b'.

(** A checkpoint alone, from which a session restores that shows the same. *)
Definition stored s' (effects : list CredentialV2AllocatorEffect) : Prop := exists g ck c carrier,
  effects = [AllocatorEffect_Checkpoint g ck c] /\ al_persistence_gate s' = Some g /\
  session_carrier s' = Some carrier /\ encode_carrier carrier = Ok c /\
  forall now scalar b, now < ca_relay_expires_at carrier -> takes_states b -> exists s'',
    allocator_restore (ec_bytes ck) (al_wrapping_key s') carrier g (al_profile_digest s') now (al_mode s') scalar b = Ok s'' /\
    same_view s' s''.

Lemma gate_ok g ck c after s s' es : al_after_persist s = [] -> al_persistence_gate s = None -> gate g ck c after s = (s', Ok es) ->
  es = [AllocatorEffect_Checkpoint g ck c] /\ s' = set_al_after_persist after (set_al_gate (Some g) s).
Proof.
  intros Hs Hg. unfold gate. run_guards. cbn [al_persistence_gate set_al_gate]. rewrite Hg, Hs. cbn.
  by intros [= <- <-].
Qed.

Lemma on_bootstrap_ok {A} (m : bootM A) s s' a b : al_state s = AllocatorState_Bootstrap b -> on_bootstrap m s = (s', Ok a) ->
  exists b', m b = (b', Ok a) /\ s' = set_al_state (AllocatorState_Bootstrap b') s.
Proof. intros Hb. unfold on_bootstrap. rewrite get_bind, Hb. by intros (b' & ? & ->)%zoom_returns; exists b'. Qed.
Lemma on_established_ok {A} (m : stM (CredentialV2Endpoint B * SecureCredentialV2Channel * CredentialV2RelayState) CredentialV2Error A) s s' a :
  on_established m s = (s', Ok a) -> exists e ch rl x, al_state s = AllocatorState_Established e ch rl /\ m (e, ch, rl) = (x, Ok a) /\
    s' = set_al_state (AllocatorState_Established x.1.1 x.1.2 x.2) s.
Proof.
  unfold on_established. rewrite get_bind. destruct (al_state s) as [| |b|e ch rl|]; try done.
  intros (x & ? & ->)%zoom_returns. by exists e, ch, rl, x.
Qed.

(** The checkpoint of a bootstrap. *)
Lemma boot_restores b key generation nonce now b' ck now' : boot_sound b -> length nonce = 12%nat ->
  bootstrap_seal_checkpoint key generation nonce now b = (b', Ok ck) -> now' < ca_relay_expires_at (bo_carrier b) ->
  bootstrap_restore_checkpoint (ec_bytes ck) key (bo_carrier b) generation now' (bo_mode b) = Ok b' /\ boot_sound b' /\
  b' = set_bo_checkpoint generation nonce b.
Proof.
  intros Hs Hn Hseal Hlive. apply boot_seal_ok in Hseal as (-> & _ & Hne & Hgen & _ & plaintext & Hpl & Hsp).
  assert (0 < generation <= u64_max) as Hg by (pose proof (bt_generation _ (bs_typed _ Hs)); unfold saturating_add in Hgen; lia).
  split_and!; [|apply sound_checkpoint; [lia|done]|done].
  unfold bootstrap_restore_checkpoint, open_checkpoint_plaintext, bootstrap_of_opened.
  rewrite (proj2 (sealed_opens plaintext Side_Allocator (bo_carrier b) key generation (Some (ca_relay_expires_at (bo_carrier b)))
    nonce ck Side_Allocator (bo_carrier b) generation (Purpose_ResumeAt now') (mkOpenedCheckpoint plaintext (Some (ca_relay_expires_at (bo_carrier b))) nonce)
    (cat_ceremony _ (bt_carrier _ (bs_typed _ Hs))) Hg (cat_expiry _ (bt_carrier _ (bs_typed _ Hs))) Hn Hsp)) by done.
  rewrite ok_bind. cbn [oc_expiry oc_nonce oc_plaintext]. rewrite bool_decide_eq_true_2 by done. cbn [negb].
  rewrite (bootstrap_reads b generation nonce plaintext) by (done || lia). by rewrite !bool_decide_eq_true_2.
Qed.

Lemma checkpoint_bootstrap_ok now nonce after s s' es b : al_state s = AllocatorState_Bootstrap b -> session_ok s ->
  al_persistence_gate s = None -> length nonce = 12%nat -> checkpoint_bootstrap now nonce after s = (s', Ok es) ->
  session_ok s' /\ stored s' es /\ al_after_persist s' = after /\
  exists g, al_state s' = AllocatorState_Bootstrap (set_bo_checkpoint g nonce b).
Proof.
  intros Hb Hs Hg Hn. unfold checkpoint_bootstrap. rewrite get_bind. unfold allocator_bootstrap at 1. rewrite Hb, lift_bind. cbv zeta.
  set (g := saturating_add _ _ _). intros (s1 & ck & (b1 & Hseal & ->)%(on_bootstrap_ok _ _ _ _ b Hb) & (s2 & c & [Hc ->]%lift_returns & Hgate)%bind_returns)%bind_returns.
  pose proof (sk_state _ Hs) as Hst. rewrite Hb in Hst. destruct Hst as [Hso Hm Hp Hq].
  pose proof (fun now' => boot_restores b _ g nonce now b1 ck now' Hso Hn Hseal) as Hres.
  apply boot_seal_ok in Hseal as (-> & _ & _ & Hgen & _).
  assert (boot_sound (set_bo_checkpoint g nonce b)) as Hso'.
  { apply sound_checkpoint; [|done]. pose proof (bt_generation _ (bs_typed _ Hso)). unfold g, saturating_add. unfold u64_max in *. lia. }
  assert (session_ok (set_al_state (AllocatorState_Bootstrap (set_bo_checkpoint g nonce b)) s)) as Hs1.
  { destruct Hs. by split. }
  apply gate_ok in Hgate as [-> ->]; [|by apply (sk_gate _ Hs)|done].
  split_and!; [destruct Hs1; by split| |done|by exists g].
  exists g, ck, c, (bo_carrier b). split_and!; [done..|].
  intros now' scalar v Hlive Hv. destruct (Hres now' Hlive) as (Hr & _ & _). cbn [al_wrapping_key al_profile_digest al_mode set_al_after_persist set_al_gate set_al_state].
  rewrite <- Hm, <- Hp. unfold allocator_restore. rewrite Hr. rewrite bool_decide_eq_true_2 by done. cbn [negb].
  eexists. split; [done|]. by split.
Qed.

(** An endpoint's checkpoint is not a bootstrap's. *)
Lemma endpoint_tag rest : tag_mode (take (length OLD_BOOTSTRAP_DOMAIN) (ENDPOINT_INNER_DOMAIN ++ rest)) = Err CredentialV2Error_Schema.
Proof.
  assert (take (length OLD_BOOTSTRAP_DOMAIN) (ENDPOINT_INNER_DOMAIN ++ rest) !! 13%nat = Some 101) as Ht.
  { rewrite lookup_take, decide_True by (vm_compute; lia). rewrite lookup_app_l by (vm_compute; lia). done. }
  revert Ht. generalize (take (length OLD_BOOTSTRAP_DOMAIN) (ENDPOINT_INNER_DOMAIN ++ rest)). intros tag Ht. unfold tag_mode.
  rewrite bool_decide_eq_false_2 by (intros ->; vm_compute in Ht; congruence).
  rewrite bool_decide_eq_false_2; [done|]. intros Heq. apply (f_equal (fun l : list Z => l !! 13%nat)) in Heq.
  rewrite lookup_take, decide_True in Heq by (vm_compute; lia). rewrite Ht in Heq. vm_compute in Heq. congruence.
Qed.
Lemma take_first n p : 0 <= n <= u64_max -> exists c, cursor_take n (Cursor_new p) = (c, Ok (take (Z.to_nat n) p)) \/
  exists err, cursor_take n (Cursor_new p) = (c, Err err).
Proof.
  intros Hn. unfold cursor_take, checked_add, get_range. run_guards. cbn [cu_position cu_input Cursor_new]. rewrite Z.add_0_l.
  rewrite (proj2 (Z.leb_le n u64_max)) by lia. cbn [ok_or]. run_guards. rewrite (proj2 (Z.leb_le 0 n)) by lia. cbn [andb].
  destruct (n <=? blen p); cbn [ok_or]; run_guards; eexists; [left|right; by eexists].
  rewrite Z.sub_0_r. cbn. by rewrite drop_0.
Qed.
Lemma endpoint_no_bootstrap rest carrier generation nonce mode :
  exists err, (decode_bootstrap carrier generation nonce mode (Cursor_new (ENDPOINT_INNER_DOMAIN ++ rest))).2 = Err err.
Proof.
  unfold decode_bootstrap. destruct (take_first (blen OLD_BOOTSTRAP_DOMAIN) (ENDPOINT_INNER_DOMAIN ++ rest)) as [c [Ht|[err Ht]]].
  - vm_compute; split; discriminate.
  - unfold mbind at 1, stM_bind at 1. rewrite Ht. unfold blen. rewrite Nat2Z.id, lift_bind, endpoint_tag. by eexists.
  - unfold mbind at 1, stM_bind at 1. rewrite Ht. by eexists.
Qed.

(** The checkpoint of an established allocator. *)
Lemma established_restores e ch rl key generation nonce now e' ck now' profile mode scalar b :
  party_ok Side_Allocator (ve_carrier e) (e, ch, rl) -> carrier_typed (ve_carrier e) -> length nonce = 12%nat ->
  endpoint_seal_checkpoint ch rl key generation (Some (ca_relay_expires_at (ve_carrier e))) nonce now e = (e', Ok ck) ->
  now' < ca_relay_expires_at (ve_carrier e) -> takes_states b -> exists b',
    allocator_restore (ec_bytes ck) key (ve_carrier e) generation profile now' mode scalar b =
      Ok (allocator_revived (ve_carrier e) None mode profile key None
            (AllocatorState_Established (kept_endpoint rl b' generation nonce e) ch rl)).
Proof.
  intros Hp Hc Hn Hseal Hlive Hb. pose proof (po_story _ _ _ Hp) as (phase & log & Hst & _). cbn [fst snd] in Hst.
  pose proof (endpoint_seal_ok _ _ _ _ _ _ _ _ _ _ Hseal) as (_ & _ & _ & Hne & Hgen & _ & p & Hpl & Hsp).
  pose proof (sealed_generation _ _ _ _ _ _ _ _ _ _ Hseal (po_generation _ _ _ Hp)) as Hg.
  assert (exists v octets, v = ve_body_verifier e /\ body_checkpoint_state v = Ok octets /\ exists rest, p = ENDPOINT_INNER_DOMAIN ++ rest)
    as (v & octets & -> & Hv & rest & Hrest).
  { unfold encode_endpoint in Hpl. apply bind_ok in Hpl as (c1 & _ & (c2 & _ & (l & _ & (st & Hst' & (st' & _ & (r & _ & Hp')%bind_ok)%bind_ok)%bind_ok)%bind_ok)%bind_ok).
    exists (ve_body_verifier e), st. split_and!; [done|done|]. eexists. by injection Hp' as <-. }
  destruct (Hb _ _ Hv) as [b' Hb']. exists b'.
  assert (body_checkpoint_state (ve_body_verifier e) ≫= restored_verifier b = Ok b') as Hver by by rewrite Hv.
  unfold allocator_restore. rewrite (party_restores Side_Allocator (ve_carrier e) e ch rl key generation _ nonce now now' e' ck b b' Hp Hc Hn Hver Hseal Hlive).
  unfold bootstrap_restore_checkpoint, open_checkpoint_plaintext, bootstrap_of_opened.
  rewrite (proj2 (sealed_opens p (ve_side e) (ve_carrier e) key generation (Some (ca_relay_expires_at (ve_carrier e)))
    nonce ck Side_Allocator (ve_carrier e) generation (Purpose_ResumeAt now') (mkOpenedCheckpoint p (Some (ca_relay_expires_at (ve_carrier e))) nonce)
    (cat_ceremony _ Hc) Hg (cat_expiry _ Hc) Hn Hsp)).
  2:{ split_and!; [symmetry; by apply Hst|done..]. }
  rewrite ok_bind. cbn [oc_expiry oc_nonce oc_plaintext]. rewrite bool_decide_eq_true_2 by done. cbn [negb].
  rewrite Hrest. destruct (endpoint_no_bootstrap rest (ve_carrier e) generation nonce mode) as [err ->]. by rewrite ok_bind.
Qed.

(** What it shows: the object it authored itself is not asked for. *)
Lemma kept_received rl b' generation nonce (e : CredentialV2Endpoint B) : ve_side e = Side_Allocator ->
  received_object (kept_endpoint rl b' generation nonce e) = received_object e.
Proof.
  intros Hs. unfold received_object, kept_endpoint. cbn [ve_last]. rewrite Hs. destruct (ve_last e) as [l|]; [|done].
  cbn [fmap option_fmap option_map]. unfold kept_last.
  destruct (bool_decide (lo_sender l = Side_Allocator)) eqn:E; cbn [andb]; [destruct (bool_decide (is_Some _)); cbn [lo_sender]|]; by rewrite E.
Qed.

Lemma stored_established s e ch rl g nonce now e' ck c after :
  party_ok Side_Allocator (ve_carrier e) (e, ch, rl) -> carrier_typed (ve_carrier e) -> length nonce = 12%nat ->
  endpoint_seal_checkpoint ch rl (al_wrapping_key s) g (Some (ca_relay_expires_at (ve_carrier e))) nonce now e = (e', Ok ck) ->
  encode_carrier (ve_carrier e) = Ok c -> session_ok s ->
  let s' := set_al_after_persist after (set_al_gate (Some g) (set_al_state (AllocatorState_Established e' ch rl) s)) in
  session_ok s' /\ stored s' [AllocatorEffect_Checkpoint g ck c] /\ e' = set_v2_checkpoint g nonce e.
Proof.
  intros Hp Hty Hn Hseal Hc Hs s'.
  pose proof (fun now' scalar b => established_restores e ch rl (al_wrapping_key s) g nonce now e' ck now' (al_profile_digest s)
    (al_mode s) scalar b Hp Hty Hn Hseal) as Hres.
  pose proof (party_sealed _ _ _ _ _ _ _ _ _ _ _ _ Hseal Hp) as Hp1. apply endpoint_seal_ok in Hseal as (-> & _).
  split_and!; [by destruct Hs; split| |done]. exists g, ck, c, (ve_carrier e). split_and!; [done..|].
  intros now' scalar v Hlive Hv. destruct (Hres now' scalar v Hlive Hv) as [b' Hr]. eexists. split; [exact Hr|].
  pose proof (po_story _ _ _ Hp) as (phase & log & Hst & _). cbn [fst snd] in Hst.
  split; try done. unfold allocator_last_received_object, s'. cbn [al_state allocator_revived set_al_after_persist set_al_gate set_al_state].
  rewrite kept_received by (by apply Hst). done.
Qed.

Lemma checkpoint_established_ok now nonce after s s' es e ch rl : al_state s = AllocatorState_Established e ch rl -> session_ok s ->
  al_persistence_gate s = None -> length nonce = 12%nat -> checkpoint_established now nonce after s = (s', Ok es) ->
  session_ok s' /\ stored s' es /\ al_after_persist s' = after /\
  exists g, al_state s' = AllocatorState_Established (set_v2_checkpoint g nonce e) ch rl.
Proof.
  intros Hb Hs Hg Hn. unfold checkpoint_established. rewrite get_bind.
  intros (s1 & [[g ck] c] & (e0 & ch0 & rl0 & x & Hb' & Hx & ->)%on_established_ok & Hgate)%bind_returns.
  rewrite Hb in Hb'. injection Hb' as <- <- <-. rewrite get_bind in Hx.
  apply bind_returns in Hx as (x1 & ck1 & (e1 & Hseal & ->)%zoom_returns & (x2 & c1 & [Hc ->]%lift_returns & Hx)%bind_returns).
  injection Hx as <- <- <- <-. cbn [fst snd] in *.
  pose proof (sk_state _ Hs) as Hst. rewrite Hb in Hst. destruct Hst as [Hp Hty].
  destruct (stored_established s _ _ _ _ _ _ _ _ _ after Hp Hty Hn Hseal Hc Hs) as (Hs' & Hstored & ->).
  apply gate_ok in Hgate as [-> ->]; [|by apply (sk_gate _ Hs)|done].
  split_and!; [done..|]. by eexists.
Qed.

(** *** The operations of a bootstrap that succeed *)

Lemma admit_ok b b' u : claimant_admitted b = (b', Ok u) -> bo_relay b' = bo_relay b.
Proof. destruct (admitted_cases b) as [-> |[_ Hb]]; [done|]. intros Ha. rewrite Ha in Hb. cbn in Hb. subst b'. by destruct (pr_claim_token _). Qed.
Lemma bootstrap_start_ok scalar b b' f : bootstrap_start_cpace scalar b = (b', Ok f) -> bo_cached_outbound b' = Some f /\ bo_relay b' = bo_relay b.
Proof.
  unfold bootstrap_start_cpace. run_guards. destruct (negb _); [done|]. run_guards. destruct (v2_derive _ _); [|done..]. run_guards.
  destruct (v2_start_cpace _ _ _ _) as [[? ?]| |]; [|done..]. run_guards. destruct (frame_cpace _); [|done..]. by intros [= <- <-].
Qed.
Lemma retain_cpace_ok f b b' u : retain_peer_cpace f b = (b', Ok u) -> b' = set_bo_peer_cpace (Some f) b.
Proof.
  unfold retain_peer_cpace. run_guards. destruct (negb _); [done|]. run_guards. destruct (ok_or _ _); [|done..].
  destruct (negb _); [done|]. destruct (is_some_and _ _); [done|]. by intros [= <-].
Qed.
Lemma retain_finished_ok f b b' u : retain_peer_finished f b = (b', Ok u) -> b' = set_bo_peer_finished (Some f) b.
Proof.
  unfold retain_peer_finished. run_guards. destruct (negb _); [done|]. run_guards. destruct (ok_or _ _); [|done..].
  destruct (negb _); [done|]. destruct (is_some_and _ _); [done|]. by intros [= <-].
Qed.
Lemma prepare_ok b b' f : prepare_finished b = (b', Ok f) -> bo_cached_outbound b' = Some f /\ bo_relay b' = bo_relay b.
Proof.
  unfold prepare_finished. run_guards. destruct (negb _); [done|]. run_guards. destruct (ok_or (bo_peer_cpace b) _); [|done..]. run_guards.
  destruct (ok_or (cpace_message _) _); [|done..]. run_guards. destruct (ok_or (bo_fresh_scalar b) _); [|done..]. run_guards.
  destruct (v2_derive _ _); [|done..]. run_guards. destruct (v2_start_cpace _ _ _ _) as [[? ?]| |]; [|done..]. run_guards.
  destruct (frame_cpace _); [|done..]. destruct (negb _); [done|]. run_guards. destruct (bootstrap_pending _ _ _ _ _); [|done..].
  by intros [= <- <-].
Qed.
Lemma relay_ok {A} (m : relayM A) b b' a : on_bootstrap_relay m b = (b', Ok a) -> exists r, m (bo_relay b) = (r, Ok a) /\ b' = set_bo_relay r b.
Proof. by intros (r & ? & ->)%zoom_returns; exists r. Qed.

Lemma live_op {A} s (m : bootM A) op b b' a : m b = (b', Ok a) -> (boot_step op b).1 = (m b).1 -> op_typed op ->
  0 <= rs_next_local_sequence (bo_relay b') -> boot_live s b -> boot_live s b'.
Proof.
  intros Hm Hop Ht Hq [Hs Hmo Hp _]. rewrite Hm in Hop. cbn in Hop. subst b'. pose proof (keeps_step op b) as [_ Hkm Hkp _ _ _].
  split; [by apply sound_step|congruence|congruence|done].
Qed.
Lemma live_admit s b b' u : claimant_admitted b = (b', Ok u) -> boot_live s b -> boot_live s b'.
Proof. intros Hm Hl. eapply (live_op _ _ Boot_Admit); try done. rewrite (admit_ok _ _ _ Hm). apply Hl. Qed.
Lemma live_start s scalar b b' f : bootstrap_start_cpace scalar b = (b', Ok f) -> length scalar = 32%nat -> boot_live s b -> boot_live s b'.
Proof.
  intros Hm Hsc Hl. eapply (live_op _ _ (Boot_Start scalar)); [done|apply discard_state|done| |done].
  destruct (bootstrap_start_ok _ _ _ _ Hm) as [_ ->]. apply Hl.
Qed.
Lemma live_retain_cpace s f b b' u : retain_peer_cpace f b = (b', Ok u) -> frame_typed f -> boot_live s b -> boot_live s b'.
Proof. intros Hm Hf Hl. eapply (live_op _ _ (Boot_RetainCpace f)); try done. rewrite (retain_cpace_ok _ _ _ _ Hm). apply Hl. Qed.
Lemma live_retain_finished s f b b' u : retain_peer_finished f b = (b', Ok u) -> frame_typed f -> boot_live s b -> boot_live s b'.
Proof. intros Hm Hf Hl. eapply (live_op _ _ (Boot_RetainFinished f)); try done. rewrite (retain_finished_ok _ _ _ _ Hm). apply Hl. Qed.
Lemma live_prepare s b b' f : prepare_finished b = (b', Ok f) -> boot_live s b -> boot_live s b'.
Proof.
  intros Hm Hl. eapply (live_op _ _ Boot_Prepare); [done|apply discard_state|done| |done]. destruct (prepare_ok _ _ _ Hm) as [_ ->]. apply Hl.
Qed.
Lemma live_peer s n b b' u : on_bootstrap_relay (accept_peer_sequence n) b = (b', Ok u) -> boot_live s b -> boot_live s b'.
Proof.
  intros Hm Hl. eapply (live_op _ _ (Boot_Peer n)); try done. apply relay_ok in Hm as (r & [-> _]%accept_peer_ok & ->). apply Hl.
Qed.
Lemma live_ack s n b b' u : on_bootstrap_relay (acknowledge_bootstrap_frame n) b = (b', Ok u) -> boot_live s b -> boot_live s b'.
Proof.
  intros Hm Hl. eapply (live_op _ _ (Boot_Ack n)); try done. apply relay_ok in Hm as (r & [-> _]%ack_bootstrap_ok & ->). apply Hl.
Qed.
(** A queued frame is the one that waits. *)
Lemma live_queue s b b' n : on_bootstrap_relay queue_bootstrap_frame b = (b', Ok n) -> boot_live s b ->
  boot_live s b' /\ bo_cached_outbound b' = bo_cached_outbound b /\ cached_bootstrap_sequence (bo_relay b') = Ok (Some n).
Proof.
  intros Hm Hl. pose proof Hm as Hm'. apply relay_ok in Hm' as (r & (Ha & Hc & Hn & ->)%queue_ok & ->). split_and!.
  - eapply (live_op _ _ Boot_Queue); [exact Hm|apply discard_state|done| |done]. cbn. pose proof (bl_sequence _ _ _ Hl). lia.
  - done.
  - unfold cached_bootstrap_sequence. cbn [bo_relay set_bo_relay set_awaiting_ack set_next_local_sequence rs_cached_outbound rs_awaiting_ack rs_next_local_sequence].
    rewrite Hc. cbn. pose proof (bl_sequence _ _ _ Hl). rewrite (proj2 (checked_sub_some _ _ n)) by lia. done.
Qed.

(** *** What is sent *)

Lemma sent_open mailbox token : length mailbox = 32%nat -> length token = 32%nat -> exists octets,
  relay_message (ClientMessage_Open mailbox token) = Ok octets.
Proof.
  intros Hm Ht. destruct (proj2 (client_encodable (ClientMessage_Open mailbox token) (conj Hm Ht))) as [octets Ho]; [done|].
  exists octets. unfold relay_message. by rewrite Ho.
Qed.
Lemma send_message_ok m eff : send_message m = Ok eff -> exists octets, relay_message m = Ok octets /\ eff = AllocatorEffect_Send octets.
Proof. unfold send_message. intros (octets & ? & [= <-])%bind_ok. by exists octets. Qed.
Lemma covered_other s m eff : is_put m = false -> send_message m = Ok eff -> covered s eff.
Proof. intros Hm (octets & Ho & ->)%send_message_ok. left. by exists m. Qed.
Lemma covered_ack s n eff : send_message (ClientMessage_Ack n) = Ok eff -> covered s eff.
Proof. by apply covered_other. Qed.
Lemma send_put_sends n f eff : send_put n f = Ok eff -> exists octets, eff = AllocatorEffect_Send octets.
Proof. unfold send_put. intros (body & _ & (octets & _ & ->)%send_message_ok)%bind_ok. by exists octets. Qed.

Lemma open_effects_ok c rl cached es : open_effects c rl cached = Ok es -> exists open,
  send_message (ClientMessage_Open (ca_mailbox_id c) (rs_membership_token rl)) = Ok open /\
  match cached with Some (f, n) => exists put, send_put n f = Ok put /\ es = [open; put] | None => es = [open] end.
Proof.
  unfold open_effects. intros (open & Ho & He)%bind_ok. exists open. split; [done|]. destruct cached as [[f n]|]; [|by injection He].
  apply bind_ok in He as (put & Hp & [= <-]). by exists put.
Qed.
Lemma open_effects_put c rl f n put : carrier_typed c -> length (rs_membership_token rl) = 32%nat -> send_put n f = Ok put ->
  exists es, open_effects c rl (Some (f, n)) = Ok es /\ put ∈ es.
Proof.
  intros Hc Ht Hp. destruct (sent_open _ _ (cat_mailbox _ Hc) Ht) as [octets Ho]. unfold open_effects, send_message. rewrite Ho, ok_bind.
  rewrite ok_bind, Hp, ok_bind. eexists. split; [done|]. right. by left.
Qed.

Lemma covered_boot_put s b n f put : al_state s = AllocatorState_Bootstrap b -> boot_live s b -> bo_cached_outbound b = Some f ->
  cached_bootstrap_sequence (bo_relay b) = Ok (Some n) -> send_put n f = Ok put -> covered s put.
Proof.
  intros Hb Hl Hf Hn Hp. destruct (send_put_sends _ _ _ Hp) as [octets ->]. right. unfold reopen_effects. rewrite Hb.
  unfold bootstrap_cached. rewrite Hf, Hn, !ok_bind. pose proof (bs_typed _ (bl_sound _ _ _ Hl)) as Ht. apply open_effects_put; [apply Ht..|done].
Qed.
Lemma covered_party_put s e ch rl n f put : al_state s = AllocatorState_Established e ch rl -> party_ok Side_Allocator (ve_carrier e) (e, ch, rl) ->
  carrier_typed (ve_carrier e) -> rs_cached_outbound rl = Some f -> cached_application_sequence rl = Ok n -> send_put n f = Ok put -> covered s put.
Proof.
  intros Hb Hl Hc Hf Hn Hp. destruct (send_put_sends _ _ _ Hp) as [octets ->]. right. unfold reopen_effects. rewrite Hb.
  unfold relay_cached. rewrite Hf, Hn, !ok_bind. apply open_effects_put; [done| |done]. apply Hl.
Qed.
(** A session's own effects on reopening. *)
Lemma covered_reopen s es : reopen_effects s = Ok es -> Forall (covered s) es.
Proof.
  intros Hr. assert (forall eff octets, eff = AllocatorEffect_Send octets -> eff ∈ es -> covered s eff) as Hc.
  { intros eff octets -> Hin. right. by exists es. }
  assert (exists c rl cached, open_effects c rl cached = Ok es) as (c & rl & cached & Ho).
  { unfold reopen_effects in Hr. destruct (al_state s); try done; apply bind_ok in Hr as (cached & _ & Ho); by do 3 eexists. }
  apply open_effects_ok in Ho as (open & (o1 & _ & ->)%send_message_ok & Ho). destruct cached as [[f n]|].
  - destruct Ho as (put & (o2 & ->)%send_put_sends & ->). do 2 (apply Forall_cons; split; [eapply Hc; [done|set_solver]|]). by apply Forall_nil.
  - subst es. apply Forall_cons; split; [eapply Hc; [done|set_solver]|by apply Forall_nil].
Qed.

(** *** The handlers *)

(** An answer: the durable state is as it was and accounts for the effects; or
    one checkpoint comes alone, and what it restores to accounts for the
    effects held back. *)
Definition released s s' (effects : list CredentialV2AllocatorEffect) : Prop := al_persistence_gate s' = None /\
  (al_state s' = al_state s \/ session_carrier s' = None) /\ Forall (covered s') effects.
Definition answered s s' (effects : list CredentialV2AllocatorEffect) : Prop := session_ok s' /\
  (released s s' effects \/ stored s' effects /\ Forall (covered s') (al_after_persist s')).

Lemma covered_view s s' eff : same_view s s' -> session_carrier s' = session_carrier s -> session_carrier s <> None -> covered s eff -> covered s' eff.
Proof.
  intros [Hr _ _ Ht Ho] Hc Hn. destruct eff; cbn; rewrite ?Hr, ?Hc, ?Ht, ?Ho; try done.
  intros Hs. unfold session_carrier in Hn. by rewrite Hs in Hn.
Qed.

Lemma answered_boot s0 now nonce after s s' es b : al_state s = AllocatorState_Bootstrap b -> session_ok s ->
  al_persistence_gate s = None -> length nonce = 12%nat -> Forall (covered s) after ->
  checkpoint_bootstrap now nonce after s = (s', Ok es) -> answered s0 s' es.
Proof.
  intros Hb Hs Hg Hn Ha Hc. destruct (checkpoint_bootstrap_ok _ _ _ _ _ _ _ Hb Hs Hg Hn Hc) as (Hs' & Hst & Haf & g & Hb').
  split; [done|right]. split; [done|]. rewrite Haf. eapply Forall_impl; [exact Ha|]. intros eff. apply covered_view.
  - split; unfold reopen_effects, allocator_bootstrap_phase, allocator_endpoint_phase, allocator_transcript_hash,
      allocator_last_received_object; by rewrite Hb, Hb'.
  - unfold session_carrier. by rewrite Hb, Hb'.
  - unfold session_carrier. by rewrite Hb.
Qed.
Lemma answered_party s0 now nonce after s s' es e ch rl : al_state s = AllocatorState_Established e ch rl -> session_ok s ->
  al_persistence_gate s = None -> length nonce = 12%nat -> Forall (covered s) after ->
  checkpoint_established now nonce after s = (s', Ok es) -> answered s0 s' es.
Proof.
  intros Hb Hs Hg Hn Ha Hc. destruct (checkpoint_established_ok _ _ _ _ _ _ _ _ _ Hb Hs Hg Hn Hc) as (Hs' & Hst & Haf & g & Hb').
  split; [done|right]. split; [done|]. rewrite Haf. eapply Forall_impl; [exact Ha|]. intros eff. apply covered_view.
  - split; unfold reopen_effects, allocator_bootstrap_phase, allocator_endpoint_phase, allocator_transcript_hash,
      allocator_last_received_object; by rewrite Hb, Hb'.
  - unfold session_carrier. by rewrite Hb, Hb'.
  - unfold session_carrier. by rewrite Hb.
Qed.

Lemma ok_boot s b : session_ok s -> boot_live s b -> session_ok (set_al_state (AllocatorState_Bootstrap b) s).
Proof. intros [] [? ? ? ?]. by split. Qed.
Lemma ok_party s e ch rl carrier : session_ok s -> party_ok Side_Allocator carrier (e, ch, rl) -> carrier_typed carrier ->
  session_ok (set_al_state (AllocatorState_Established e ch rl) s).
Proof.
  intros [] Hp Hc. pose proof (po_story _ _ _ Hp) as (phase & log & Hst & _). assert (ve_carrier e = carrier) as <- by apply Hst. by split.
Qed.

Lemma establish_ok s0 now nonce ack s s' es b : al_state s = AllocatorState_Bootstrap b -> session_ok s ->
  al_persistence_gate s = None -> length nonce = 12%nat -> (forall a s, ack = Some a -> covered s a) ->
  establish now nonce ack s = (s', Ok es) -> answered s0 s' es.
Proof.
  intros Hb Hs Hg Hn Ha. unfold establish. run_guards. unfold allocator_bootstrap. rewrite Hb, lift_bind.
  destruct (bo_peer_finished b) as [pf|]; [|done]. cbn [ok_or]. rewrite lift_bind. cbv zeta.
  destruct (bootstrap_confirm b pf) as [[ch rl]|err|] eqn:Hconf; [|done..].
  destruct (rs_awaiting_ack rl) eqn:Haw; [done|]. run_guards. destruct (al_body_verifier s) as [v|]; [|done]. cbn [ok_or].
  pose proof (sk_state _ Hs) as Hst. rewrite Hb in Hst. destruct Hst as [Hso Hm Hp Hq]. pose proof (bs_typed _ Hso) as Hty.
  set (e := mkCredentialV2Endpoint _ _ _ _ _ _ _ _). set (g := saturating_add _ _ _).
  destruct (endpoint_seal_checkpoint ch rl _ _ _ _ _ e) as [e' [ck|err|]] eqn:Hseal; [|done..]. rewrite lift_bind.
  destruct (encode_carrier (bo_carrier b)) as [c|err|] eqn:Hc; [|done..]. run_guards. intros Hgate.
  assert (rl = bo_relay b /\ stored_channel ch /\ c2_terminal ch = false) as (-> & Hch & Hterm).
  { unfold bootstrap_confirm in Hconf. case_bool_decide as Hph; [|done]. cbn [negb] in Hconf.
    destruct (bs_finished _ Hso Hph) as (x & st & lo & pe & me & pending & _ & _ & _ & Hpe & Hpd & _). rewrite Hpd in Hconf. cbn [ok_or] in Hconf.
    rewrite ok_bind in Hconf. apply bind_ok in Hconf as (ch' & Hcf & [= -> <-]). split; [done|].
    unfold bootstrap_pending in Hpe. apply bind_ok in Hpe as (isk & _ & (lo' & _ & (po & _ & Hpe)%bind_ok)%bind_ok).
    by destruct (confirmed_channel _ _ _ _ _ _ _ _ Hpe Hcf) as (? & ? & _). }
  assert (party_ok Side_Allocator (ve_carrier e) (e, ch, bo_relay b)) as Hparty.
  { split; try done; [|split|apply Hty].
    - exists Phase_Begin, []. split; [|done]. split; [done|done|constructor|by left|done].
    - apply Hty.
    - cbn [snd]. by rewrite Haw, (bs_relay _ Hso).
    - cbn [snd]. intros f. by rewrite (bs_relay _ Hso). }
  destruct (stored_established (set_al_body_verifier None (set_al_state AllocatorState_Terminal s)) e ch (bo_relay b) g nonce now e' ck c
    (match ack with Some ack => [ack] | None => [] end ++ [AllocatorEffect_Established (c2_transcript_hash ch)]) Hparty (bt_carrier _ Hty) Hn Hseal Hc)
    as (Hs' & Hstored & ->); [by destruct Hs; split|].
  apply gate_ok in Hgate as [-> ->]; [|by apply (sk_gate _ Hs)|done].
  split; [done|right]. split; [done|]. cbn [al_after_persist set_al_after_persist]. apply Forall_app. split; [|by apply Forall_singleton].
  destruct ack as [a|]; [|done]. apply Forall_singleton. by apply Ha.
Qed.

Lemma allocated_ok s0 mailbox token expires now nonce s s' es : session_ok s -> al_persistence_gate s = None -> length nonce = 12%nat ->
  length token = 32%nat -> 0 <= expires <= u64_max -> allocated mailbox token expires now nonce s = (s', Ok es) -> answered s0 s' es.
Proof.
  intros Hs Hg Hn Ht He. unfold allocated. run_guards. destruct (_ || _) eqn:E; [done|]. apply orb_false_iff in E as [Em%negb_false_iff%bool_decide_eq_true _].
  run_guards. destruct (CredentialV2Carrier_new _) as [c|err|] eqn:Hc; [|done..]. run_guards.
  apply carrier_new_ok in Hc as [-> _]. pose proof (sk_presence _ Hs) as Hpr. destruct (al_presence s) as [p|]; [|done]. cbn [ok_or]. run_guards.
  destruct Hpr as (Hsec & t & Htok & Hlt).
  destruct (CredentialV2AllocatorBootstrap_new _ _ _ _ _) as [b|err|] eqn:Hb; [|done..]. run_guards.
  assert (boot_live s b) as Hl.
  { pose proof (sk_template _ Hs) as [Hma Hce Hno Hco Hex Hke]. split.
    - eapply sound_new; [exact Hb| |done| |by eexists|apply Hs|done|done].
      + split; cbn; try done; [by rewrite Em|apply Hs].
      + by rewrite Htok.
    - unfold CredentialV2AllocatorBootstrap_new in Hb. by apply bind_ok in Hb as (x & _ & (u & _ & [= <-])%bind_ok).
    - unfold CredentialV2AllocatorBootstrap_new in Hb. by apply bind_ok in Hb as (x & _ & (u & _ & [= <-])%bind_ok).
    - unfold CredentialV2AllocatorBootstrap_new in Hb. by apply bind_ok in Hb as (x & _ & (u & _ & [= <-])%bind_ok). }
  destruct (encode_carrier (bo_carrier b)) as [octets|err|] eqn:Ho; [|done..]. intros Hck.
  eapply answered_boot; cycle -1; [exact Hck|reflexivity| |done|exact Hn|].
  - apply ok_boot; [by destruct Hs; split|done].
  - apply Forall_singleton. exists (bo_carrier b). by split.
Qed.

Lemma prepare_inner_ok s0 o now nonce s s' es : session_ok s -> al_persistence_gate s = None -> length nonce = 12%nat -> genuine o ->
  prepare_application_object_inner o now nonce s = (s', Ok es) -> answered s0 s' es.
Proof.
  intros Hs Hg Hn Ho. unfold prepare_application_object_inner.
  intros (s1 & [n f] & (e & ch & rl & x & Hb & Hx & ->)%on_established_ok & (s2 & put & [Hput ->]%lift_returns & Hck)%bind_returns)%bind_returns.
  pose proof (sk_state _ Hs) as Hst. rewrite Hb in Hst. destruct Hst as [Hp Hc].
  apply bind_returns in Hx as (x1 & f1 & Hprep & Hx). rewrite get_bind in Hx.
  apply bind_returns in Hx as (x2 & n1 & [Hseq ->]%lift_returns & [= -> -> ->]).
  destruct (party_prepare _ _ _ _ _ _ Ho Hp Hprep) as [Hp' Hca]. destruct x as [[e' ch'] rl']. cbn [fst snd] in *.
  assert (ve_carrier e' = ve_carrier e) as Hce by (destruct (po_story _ _ _ Hp') as (ph & log & Hst & _); apply Hst).
  rewrite <- Hce in Hp', Hc.
  eapply answered_party; cycle -1; [exact Hck|reflexivity| |done|exact Hn|].
  - by eapply ok_party.
  - apply Forall_singleton. by eapply (covered_party_put _ e' ch' rl').
Qed.

Lemma peer_application_ok s0 n f now nonce s s' es : session_ok s -> al_persistence_gate s = None -> length nonce = 12%nat ->
  peer_application_frame n f now nonce s = (s', Ok es) -> answered s0 s' es.
Proof.
  intros Hs Hg Hn. unfold peer_application_frame.
  intros (s1 & o & (e & ch & rl & x & Hb & Hx & ->)%on_established_ok & (s2 & ack & [Hack ->]%lift_returns & Hck)%bind_returns)%bind_returns.
  pose proof (sk_state _ Hs) as Hst. rewrite Hb in Hst. destruct Hst as [Hp Hc].
  apply bind_returns in Hx as (x1 & u & (rl1 & Hacc & ->)%zoom_returns & Hx). cbn [fst snd] in *.
  apply bind_returns in Hx as (x2 & p & (ch1 & Hopen & ->)%zoom_returns & Hx). cbn [fst snd] in *.
  apply bind_returns in Hx as (x3 & o1 & [Ho ->]%lift_returns & Hx).
  apply bind_returns in Hx as (x4 & adv & (e1 & Hrec & ->)%zoom_returns & Hx). cbn [fst snd] in *. injection Hx as <- ->.
  assert (genuine o) as Hgen by (unfold genuine; by apply object_inverse in Ho as Ho'; destruct Ho' as (_ & _ & ->)).
  pose proof (party_receive _ _ _ _ _ _ _ _ Hgen (party_open _ _ _ _ _ _ _ _ Hopen (party_peer _ _ _ _ _ _ _ _ Hacc Hp)) Hrec) as Hp'.
  assert (ve_carrier e1 = ve_carrier e) as Hce by (destruct (po_story _ _ _ Hp') as (ph & log & Hst & _); apply Hst).
  rewrite <- Hce in Hp', Hc. cbn [fst snd] in *.
  eapply answered_party; cycle -1; [exact Hck|reflexivity| |done|exact Hn|].
  - by eapply ok_party.
  - apply Forall_cons. split; [by eapply covered_ack|]. apply Forall_singleton.
    destruct (party_received _ _ _ _ _ _ _ _ (party_open _ _ _ _ _ _ _ _ Hopen (party_peer _ _ _ _ _ _ _ _ Hacc Hp)) Hrec) as (l & Hl & Hse & Hby).
    cbn. unfold allocator_last_received_object, received_object. cbn [al_state set_al_state]. rewrite Hl, Hse, Hby. cbn. unfold genuine in Hgen. by rewrite Hgen.
Qed.

(** Effects that wait for nothing: the durable state accounts for them already. *)
Lemma answered_now s s' es : session_ok s' -> al_persistence_gate s' = None -> al_state s' = al_state s \/ session_carrier s' = None ->
  Forall (covered s') es -> answered s s' es.
Proof. intros Hs Hg Hst He. split; [done|by left]. Qed.

Lemma share_again_ok n f now s es b : al_state s = AllocatorState_Bootstrap b -> session_ok s -> share_again n f now b = Ok es -> Forall (covered s) es.
Proof.
  intros Hb Hs. unfold share_again. destruct (_ <=? _); [done|]. destruct (negb _); [done|].
  intros (ack & Hack & (q & Hq & He)%bind_ok)%bind_ok. destruct q as [q|].
  - apply bind_ok in He as (f' & Hf%ok_or_ok & (put & Hput & [= <-])%bind_ok). apply Forall_cons. split; [by eapply covered_ack|].
    apply Forall_singleton. pose proof (sk_state _ Hs) as Hl. rewrite Hb in Hl. by eapply covered_boot_put.
  - injection He as <-. apply Forall_singleton. by eapply covered_ack.
Qed.

Lemma peer_frame_ok n body now nonce s s' es : session_ok s -> al_persistence_gate s = None -> length nonce = 12%nat ->
  peer_frame n body now nonce s = (s', Ok es) -> answered s s' es.
Proof.
  intros Hs Hg Hn. unfold peer_frame. rewrite lift_bind. destruct (decode_frame body) as [f|err|] eqn:Hf; [|done..].
  apply frame_inverse in Hf as [Hft _]. run_guards. destruct (is_established s); [by apply peer_application_ok|].
  unfold allocator_bootstrap. destruct (al_state s) as [| |b|e ch rl|] eqn:Hb; try done. run_guards.
  pose proof (sk_state _ Hs) as Hl. rewrite Hb in Hl.
  destruct (_ && _). { intros [Hsh ->]%lift_returns. apply answered_now; [done|done|by left|]. by eapply share_again_ok. }
  destruct (bo_phase b); try done.
  - run_guards. pose proof (sk_scalar _ Hs) as Hsc. destruct (al_cpace_scalar s) as [scalar|]; [|done]. cbn [ok_or]. run_guards.
    intros (s1 & [q out] & (b' & Hops & ->)%(on_bootstrap_ok _ (set_al_cpace_scalar None s) _ _ b Hb) & (s2 & ack & [Hack ->]%lift_returns & (s3 & put & [Hput ->]%lift_returns & Hck)%bind_returns)%bind_returns)%bind_returns.
    apply bind_returns in Hops as (b1 & u1 & H1' & (b2 & u2 & H2' & (b3 & out' & H3' & (b4 & u4 & H4' & (b5 & q' & H5' & Hret)%bind_returns)%bind_returns)%bind_returns)%bind_returns).
    injection Hret as -> -> ->.
    pose proof (live_start _ _ _ _ _ H3' Hsc (live_admit _ _ _ _ H2' (live_peer _ _ _ _ _ H1' Hl))) as L3.
    destruct (live_queue _ _ _ _ H5' (live_retain_cpace _ _ _ _ _ H4' Hft L3)) as (L5 & Hca & Hseq).
    rewrite (retain_cpace_ok _ _ _ _ H4') in Hca. destruct (bootstrap_start_ok _ _ _ _ H3') as [Hout _]. cbn in Hca. rewrite Hout in Hca.
    eapply answered_boot; cycle -1; [exact Hck|reflexivity| |done|exact Hn|].
    + apply ok_boot; [by destruct Hs; split|done].
    + apply Forall_cons. split; [by eapply covered_ack|]. apply Forall_singleton. by eapply covered_boot_put.
  - intros (s1 & waiting & (b' & Hops & ->)%(on_bootstrap_ok _ _ _ _ b Hb) & (s2 & ack & [Hack ->]%lift_returns & Hck)%bind_returns)%bind_returns.
    apply bind_returns in Hops as (b1 & u1 & H1' & (b2 & u2 & H2' & Hret)%bind_returns). rewrite get_bind in Hret. injection Hret as -> <-.
    pose proof (live_retain_finished _ _ _ _ _ H2' Hft (live_peer _ _ _ _ _ H1' Hl)) as L2.
    assert (session_ok (set_al_state (AllocatorState_Bootstrap b') s)) as Hs' by by apply ok_boot.
    destruct (rs_awaiting_ack (bo_relay b')).
    + eapply answered_boot; cycle -1; [exact Hck|reflexivity|done|done|exact Hn|]. apply Forall_singleton. by eapply covered_ack.
    + eapply establish_ok; cycle -1; [exact Hck|reflexivity|done|done|exact Hn|]. intros a s0 [= <-]. by eapply covered_ack.
Qed.

Lemma local_acknowledged_ok n now nonce s s' es : session_ok s -> al_persistence_gate s = None -> length nonce = 12%nat ->
  local_acknowledged n now nonce s = (s', Ok es) -> answered s s' es.
Proof.
  intros Hs Hg Hn. unfold local_acknowledged. rewrite get_bind. intros (s1 & [rl0 ex] & [_ ->]%lift_returns & Hrest)%bind_returns. revert Hrest.
  destruct (acknowledgement_already_applied rl0 n). { destruct (_ <=? _); [done|]. intros [= <- <-]. apply answered_now; [done|done|by left|done]. }
  destruct (is_established s).
  { unfold application_acknowledged. intros (s1 & u & (e & ch & rl & x & Hb & Hx & ->)%on_established_ok & Hck)%bind_returns.
    pose proof (sk_state _ Hs) as Hst. rewrite Hb in Hst. destruct Hst as [Hp Hc].
    apply zoom_returns in Hx as (rl' & Hack & ->). cbn [fst snd] in *. pose proof (party_acked _ _ _ _ _ _ _ _ Hack Hp) as Hp'.
    eapply answered_party; cycle -1; [exact Hck|reflexivity|by eapply ok_party|done|exact Hn|done]. }
  run_guards. unfold allocator_bootstrap. destruct (al_state s) as [| |b|e ch rl|] eqn:Hb; try done. run_guards.
  pose proof (sk_state _ Hs) as Hl. rewrite Hb in Hl. destruct (bo_phase b); try done.
  - intros (s1 & [q out] & (b' & Hops & ->)%(on_bootstrap_ok _ _ _ _ b Hb) & (s2 & put & [Hput ->]%lift_returns & Hck)%bind_returns)%bind_returns.
    apply bind_returns in Hops as (b1 & u1 & H1' & (b2 & out' & H2' & (b3 & q' & H3' & Hret)%bind_returns)%bind_returns). injection Hret as -> -> ->.
    destruct (live_queue _ _ _ _ H3' (live_prepare _ _ _ _ H2' (live_ack _ _ _ _ _ H1' Hl))) as (L3 & Hca & Hseq).
    destruct (prepare_ok _ _ _ H2') as [Hout _]. rewrite Hout in Hca.
    eapply answered_boot; cycle -1; [exact Hck|reflexivity|by apply ok_boot|done|exact Hn|].
    apply Forall_singleton. by eapply covered_boot_put.
  - intros (s1 & has & (b' & Hops & ->)%(on_bootstrap_ok _ _ _ _ b Hb) & Hck)%bind_returns.
    apply bind_returns in Hops as (b1 & u1 & H1' & Hret). rewrite get_bind in Hret. injection Hret as -> <-.
    pose proof (live_ack _ _ _ _ _ H1' Hl) as L1.
    assert (session_ok (set_al_state (AllocatorState_Bootstrap b') s)) as Hs' by by apply ok_boot.
    destruct (bool_decide _).
    + by eapply establish_ok; cycle -1; [exact Hck|reflexivity|done|done|exact Hn|].
    + by eapply answered_boot; cycle -1; [exact Hck|reflexivity|done|done|exact Hn|].
Qed.

Lemma apply_server_ok m now nonce s s' es : session_ok s -> al_persistence_gate s = None -> length nonce = 12%nat -> server_message_typed m ->
  allocator_apply_server m now nonce s = (s', Ok es) -> answered s s' es.
Proof.
  intros Hs Hg Hn Ht. unfold allocator_apply_server. rewrite get_bind. destruct m; try done.
  - destruct (al_resume_after_welcome s).
    + run_guards. unfold asks. intros [= <- Hr]. apply answered_now; [by destruct Hs; split|done|by left|]. by apply covered_reopen.
    + destruct (al_state s) eqn:Hb; try done. run_guards. destruct (send_message _) as [eff|err|] eqn:Hsend; [|done..]. intros [= <- <-].
      apply answered_now; [by destruct Hs; split|done|by right|]. apply Forall_singleton. by eapply covered_other; [|exact Hsend].
  - destruct (al_state s); try done. destruct Ht as (_ & Ht & He). intros Ha. by eapply allocated_ok; cycle -1; [exact Ha|..].
  - by apply peer_frame_ok.
  - by apply local_acknowledged_ok.
  - run_guards. intros [= <- <-]. apply answered_now; [by destruct Hs; split|done|by right|]. by apply Forall_singleton.
  - run_guards. intros [= <- <-]. apply answered_now; [by destruct Hs; split|done|by right|]. by apply Forall_singleton.
  - intros [= <- <-]. apply answered_now; [done|done|by left|done].
Qed.

(** *** Calls, and what holds between them *)

Inductive alloc_call : Type :=
| Call_Receive (input : bytes) (now : Z) (nonce : bytes)
| Call_Prepare (object : CredentialV2Object) (now : Z) (nonce : bytes)
| Call_Persisted (generation : Z).
Definition alloc_step (call : alloc_call) : stM session CredentialV2Error (list CredentialV2AllocatorEffect) :=
  match call with
  | Call_Receive input now nonce => allocator_receive input now nonce
  | Call_Prepare object now nonce => allocator_prepare_application_object object now nonce
  | Call_Persisted generation => allocator_checkpoint_persisted generation
  end.
(** Nonces have their size, and an object is one that was constructed. *)
Definition call_typed (call : alloc_call) : Prop :=
  match call with
  | Call_Receive _ _ nonce => length nonce = 12%nat
  | Call_Prepare object _ nonce => length nonce = 12%nat /\ genuine object
  | Call_Persisted _ => True
  end.
(** The sessions that calls lead to, errors included. *)
Inductive alloc_reach s0 : session -> Prop :=
| reach_start : alloc_reach s0 s0
| reach_call s call s' r : alloc_reach s0 s -> call_typed call -> alloc_step call s = (s', r) -> r <> Panic -> alloc_reach s0 s'.

(** An ended session. *)
Definition ended s : Prop := al_state s = AllocatorState_Terminal /\ al_after_persist s = [].
(** Between calls: ended, or in order with what a gate holds back accounted for. *)
Definition settled s : Prop := ended s \/ session_ok s /\ Forall (covered s) (al_after_persist s).

Lemma answered_settled s s' es : answered s s' es -> settled s'.
Proof. intros [Hs [(Hg & _ & _)|[_ Hc]]]; right; split; try done. by rewrite (sk_gate _ Hs Hg). Qed.

(** What a call answers while no gate is set. *)
Definition responds s s' (r : credM (list CredentialV2AllocatorEffect)) : Prop :=
  match r with
  | Ok es => released s s' es \/ stored s' es /\ Forall (covered s') (al_after_persist s')
  | Err _ => session_carrier s' = None
  | Panic => True
  end.

Lemma settled_error s : settled (allocator_terminate s).
Proof. by left. Qed.
Lemma ended_carrier s : ended s -> session_carrier s = None.
Proof. intros [Hs _]. unfold session_carrier. by rewrite Hs. Qed.

(** [ending_on_error] around a handler that answers. *)
Lemma ending_settled m s s' r : (forall s1 es, m s = (s1, Ok es) -> answered s s1 es \/ ended s1 /\ released s s1 es) ->
  ending_on_error allocator_terminate m s = (s', r) -> r <> Panic -> settled s' /\ responds s s' r.
Proof.
  intros Hm. unfold ending_on_error. destruct (m s) as [s1 [es|err|]]; intros [= <- <-] Hp; [|by split; [apply settled_error|]|done].
  destruct (Hm _ _ eq_refl) as [Ha|[He Hr]]; [|by split; [left|left]]. split; [by eapply answered_settled|apply Ha].
Qed.

(** An ended session sends nothing. *)
Lemma ended_server m now nonce s s' es : ended s -> al_persistence_gate s = None -> allocator_apply_server m now nonce s = (s', Ok es) ->
  ended s' /\ released s s' es.
Proof.
  intros [Hs Ha] Hg. unfold allocator_apply_server. rewrite get_bind, Hs. destruct m; try done.
  - destruct (al_resume_after_welcome s); [|done]. run_guards. unfold asks, reopen_effects. cbn [al_state set_al_resume]. by rewrite Hs.
  - unfold peer_frame. rewrite lift_bind. destruct (decode_frame body); [|done..]. run_guards. unfold is_established, allocator_bootstrap.
    rewrite Hs. by run_guards.
  - unfold local_acknowledged. run_guards. by rewrite Hs.
  - run_guards. intros [= <- <-]. split; [done|]. split_and!; [done|by left|by apply Forall_singleton].
  - run_guards. intros [= <- <-]. split; [done|]. split_and!; [done|by left|by apply Forall_singleton].
  - intros [= <- <-]. split; [done|]. split_and!; [done|by left|done].
Qed.

Lemma receive_settled input now nonce s s' r : settled s -> al_persistence_gate s = None -> length nonce = 12%nat ->
  allocator_receive input now nonce s = (s', r) -> r <> Panic -> settled s' /\ responds s s' r.
Proof.
  intros Hs Hg Hn. unfold allocator_receive. rewrite get_bind, Hg, bool_decide_eq_false_2 by by intros [].
  apply ending_settled. intros s1 es. rewrite lift_bind.
  destruct (decode_server_message input) as [m|err|] eqn:Hm; [|done..]. cbn [map_err].
  apply (codec_inverse _ server_message_rule _ _ server_message_typed) in Hm as [Ht _]; [|rule_known|apply server_text_keys].
  destruct Hs as [He|[Hs _]]; [right; by eapply ended_server|left; by eapply apply_server_ok].
Qed.
Lemma prepare_settled o now nonce s s' r : settled s -> al_persistence_gate s = None -> length nonce = 12%nat -> genuine o ->
  allocator_prepare_application_object o now nonce s = (s', r) -> r <> Panic -> settled s' /\ responds s s' r.
Proof.
  intros Hs Hg Hn Ho. unfold allocator_prepare_application_object. rewrite get_bind, Hg, bool_decide_eq_false_2 by by intros [].
  apply ending_settled. intros s1 es Hp. destruct Hs as [[He _]|[Hs _]]; [|left; by eapply prepare_inner_ok].
  unfold prepare_application_object_inner in Hp. apply bind_returns in Hp as (s2 & x & (e & ch & rl & y & Hb & _)%on_established_ok & _). congruence.
Qed.

(** A gate lets nothing else through. *)
Lemma gated_call g call s : al_persistence_gate s = Some g ->
  alloc_step call s = match call with
    | Call_Persisted g' => if bool_decide (g' = g) then (set_al_after_persist [] (set_al_gate None s), Ok (al_after_persist s))
                           else (s, Err CredentialV2Error_Counter)
    | _ => (s, Err CredentialV2Error_Phase)
    end.
Proof.
  intros Hg. destruct call as [input now nonce|o now nonce|g']; cbn [alloc_step].
  - unfold allocator_receive. by rewrite get_bind, Hg.
  - unfold allocator_prepare_application_object. by rewrite get_bind, Hg.
  - unfold allocator_checkpoint_persisted. rewrite get_bind, Hg. repeat case_bool_decide; naive_solver.
Qed.
Lemma ungated_persisted g s : al_persistence_gate s = None -> alloc_step (Call_Persisted g) s = (s, Err CredentialV2Error_Counter).
Proof. intros Hg. cbn. unfold allocator_checkpoint_persisted. by rewrite get_bind, Hg. Qed.

Lemma step_settled call s s' r : settled s -> call_typed call -> alloc_step call s = (s', r) -> r <> Panic -> settled s'.
Proof.
  intros Hs Ht Hc Hr. destruct (al_persistence_gate s) as [g|] eqn:Hg.
  - rewrite (gated_call _ _ _ Hg) in Hc. destruct call; try (by injection Hc as <- <-). case_bool_decide; [|by injection Hc as <- <-].
    injection Hc as <- <-. destruct Hs as [[He Ha]|[[] Hc]]; [by left|]. right. by split; [split|].
  - destruct call as [input now nonce|o now nonce|g]; [by eapply receive_settled|destruct Ht; by eapply prepare_settled|].
    rewrite (ungated_persisted _ _ Hg) in Hc. by injection Hc as <- <-.
Qed.
Lemma reach_settled s0 s : settled s0 -> alloc_reach s0 s -> settled s.
Proof. intros H0'. induction 1 as [|s call s' r _ IH Ht Hc Hr]; [done|]. by eapply step_settled. Qed.

(** The widths of what a session is made from. *)
Record input_typed (i : CredentialV2AllocatorSessionInput) : Prop := {
  it_mailbox : length (ai_mailbox_id i) = 32%nat;
  it_ceremony : length (ai_carrier_ceremony_id i) = 32%nat;
  it_nonce : length (ai_carrier_nonce i) = 32%nat;
  it_secret : length (ai_cpace_secret i) = 16%nat;
  it_token : length (ai_claim_token i) = 16%nat;
  it_scalar : length (ai_cpace_scalar i) = 32%nat;
  it_profile : length (ai_profile_digest i) = 32%nat;
  it_key : match ai_expected_allocator_key i with Some k => length k = 32%nat | None => True end
}.
Lemma new_settled i v s : CredentialV2AllocatorSession_new i v = Ok s -> input_typed i -> settled s.
Proof.
  unfold CredentialV2AllocatorSession_new. intros (u & _ & (template & Ht & [= <-])%bind_ok)%bind_ok [Hma Hce Hno Hse Hto Hsc Hpr Hke].
  apply carrier_new_ok in Ht as [-> _]. right. split; [|done].
  assert (length (claim_commitment (ai_mailbox_id i) (ai_claim_token i)) = 32%nat) as Hco by apply sha256_len.
  split; try done. cbn. split; [done|by eexists].
Qed.
End Allocator.

(** ** The claimant's session *)

(** The documented use of an offer verifier: it invokes the endpoint's
    authenticated-display transition, with the consumer's parser and verifier. *)
Class OfferVerifierLaws (O B : Type) `{CredentialV2ClaimantOfferVerifier O B, CredentialV2BodyVerifier B, Cbor, Sha256} : Prop :=
  verifies_by_offer : forall o now (v : O) (e : CredentialV2Endpoint B) v' e' r, verify_offer o now (v, e) = ((v', e'), r) ->
    exists (P V : Type) (parser : CredentialV2OfferParser P) (intents : CredentialV2IntentVerifier V) authority (pv pv' : P * V),
      receive_offer o authority (e, pv) = ((e', pv'), r).

Definition durable_phase (phase : CredentialV2Phase) : bool :=
  match phase with Phase_FinalApproved | Phase_PayloadSent => true | _ => false end.

Section Offers.
Context {B P V : Type} `{CredentialV2BodyVerifier B, CredentialV2OfferParser P, CredentialV2IntentVerifier V, Cbor, Sha256}.

Lemma offer_again o authority (s s' : CredentialV2Endpoint B * (P * V)) a : receive_offer o authority s = (s', Ok a) ->
  s' = s \/ exists display, a = Advance_DisplayIntent display.
Proof.
  unfold receive_offer. rewrite get_bind. destruct (exact_retransmission _ _ _); [intros [= <- _]; by left|].
  assert (forall err, on_endpoint (v2_fail err) s = (s', Ok a) -> s' = s \/ exists display, a = Advance_DisplayIntent display) as Hf.
  { intros err (t & Ht & _)%zoom_returns. done. }
  destruct (_ || _); [apply Hf|]. destruct (_ || _); [apply Hf|].
  intros (s1 & a1 & _ & (s2 & d & _ & (s3 & u & _ & [= _ <-])%bind_returns)%bind_returns)%bind_returns. right. by exists d.
Qed.

Lemma offer_numbered o authority (s s' : CredentialV2Endpoint B * (P * V)) a : receive_offer o authority s = (s', Ok a) ->
  ve_checkpoint_generation s'.1 = ve_checkpoint_generation s.1.
Proof.
  unfold receive_offer. rewrite get_bind. destruct (exact_retransmission _ _ _); [by intros [= <- _]|].
  assert (forall err, on_endpoint (v2_fail (A := CredentialV2Advance) err) s = (s', Ok a) -> False) as Hf by (intros err (t & Ht & _)%zoom_returns; done).
  destruct (_ || _); [by intros ?%Hf|]. destruct (_ || _); [by intros ?%Hf|].
  intros (s1 & a1 & Hr & (s2 & d & Hd & (s3 & u & Hac & [= <- _])%bind_returns)%bind_returns)%bind_returns.
  unfold recognise_offer in Hr. destruct (recognise_credential_v2_intent _ _ _) as [pv answer]. injection Hr as <- <-.
  apply zoom_returns in Hd as (e2 & Hd & ->). cbn in *. apply zoom_returns in Hac as (e3 & Hac & ->). cbn in *.
  rewrite accept_run in Hac. injection Hac as <- _. cbn. destruct answer; cbn in Hd; [by injection Hd as <- _|by destruct s|done].
Qed.
End Offers.

Section Claimant.
Context {O B : Type} `{CredentialV2BodyVerifier B, CredentialV2ClaimantOfferVerifier O B, Cbor, !CborLaws, !CborIntLaws, Cddl, !CddlLaws}.
Context `{UrlParser, Sha256, !Sha256Laws, Sha512, HkdfSha512, HmacSha512, !ScheduleLaws, Fiat25519, X25519, !X25519Laws}.
Context `{HkdfSalted, !HkdfSaltedLaws, Aead, !AeadLaws, !OfferVerifierLaws O B}.
Abbreviation session := (CredentialV2ClaimantSession O B).
Implicit Types s : session.

(** Where a durable phase comes from. *)
Lemma transcript_durable carrier phase i sender o log : transcript carrier phase i ((sender, o) :: log) -> durable_phase phase = true ->
  sender = Side_Claimant /\ (ob_kind o = Kind_FinalApprove \/ ob_kind o = Kind_Payload).
Proof.
  inversion 1 as [|o' s' Hr|ph log' o' Ht Hk|ph i' s' prev log' sender' o' next l Ht Hs]; subst; try done. intros Hd.
  pose proof (next_phase_inv _ _ _ (su_next _ _ _ _ _ _ _ _ Hs)) as Hinv. pose proof (su_sender _ _ _ _ _ _ _ _ Hs) as Hv.
  destruct phase; try done; destruct Hinv as [_ Hk]; rewrite Hk in Hv; cbn in Hv; apply bool_decide_eq_true in Hv; auto.
Qed.

Definition parts_ok s : Prop := exists e ch rl, cl_endpoint s = Some e /\ cl_channel s = Some ch /\ cl_relay s = Some rl /\
  party_ok Side_Claimant (cl_carrier s) (e, ch, rl).
(** The membership before the channel is confirmed. *)
Definition fresh_relay (rl : CredentialV2RelayState) : Prop :=
  length (rs_membership_token rl) = 32%nat /\ rs_cached_outbound rl = None /\ 0 <= rs_next_local_sequence rl.
Definition pending_made (p : PendingCredentialV2Channel) : Prop := exists isk context fa fb,
  PendingCredentialV2Channel_new Side_Claimant isk context fa fb = Ok p.

Record claim_ok s : Prop := {
  ck_carrier : carrier_typed (cl_carrier s);
  ck_phase : match cl_phase s with
    | Claimant_AwaitWelcome | Claimant_ClaimSent => cl_endpoint s = None /\ cl_pending_channel s = None
    | Claimant_ShareSent | Claimant_FinishedSent => cl_endpoint s = None /\ (exists rl, cl_relay s = Some rl /\ fresh_relay rl) /\
        match cl_pending_channel s with Some p => pending_made p | None => True end
    | Claimant_AwaitProfileAuthorisation | Claimant_Established => parts_ok s
    | Claimant_Terminal => False
    end;
  ck_gate : match cl_persistence_gate s with
    | None => cl_after_persist s = []
    | Some _ => cl_phase s = Claimant_Established /\ resume_cached_frame (set_cl_persistence_gate None s) = Ok (cl_after_persist s)
    end
}.
Definition claim_ended s : Prop :=
  cl_phase s = Claimant_Terminal /\ cl_persistence_gate s = None /\ cl_after_persist s = [] /\ cl_endpoint s = None.
Definition claim_settled s : Prop := claim_ended s \/ claim_ok s.

Definition no_checkpoint (eff : CredentialV2ClaimantEffect) : Prop := match eff with ClaimantEffect_Checkpoint _ _ => False | _ => True end.
(** A call that stores nothing and enters no durable phase. *)
Definition volatile s' (es : list CredentialV2ClaimantEffect) : Prop :=
  cl_persistence_gate s' = None /\ has_durable_endpoint_phase s' = false /\ Forall no_checkpoint es.
Definition claim_answered s' es : Prop := claim_settled s' /\ volatile s' es.

Lemma on_part_ok {T A} (sel : session -> option T) upd (m : stM T CredentialV2Error A) s s' a : on_part sel upd m s = (s', Ok a) ->
  exists t t', sel s = Some t /\ m t = (t', Ok a) /\ s' = upd (Some t') s.
Proof.
  unfold on_part. rewrite get_bind, lift_bind. destruct (sel s) as [t|]; [|done]. cbn [ok_or]. intros (t' & ? & ->)%zoom_returns. by exists t, t'.
Qed.
Lemma on_parts_ok {A} (m : stM (CredentialV2Endpoint B * SecureCredentialV2Channel * CredentialV2RelayState) CredentialV2Error A) s s' a :
  on_parts m s = (s', Ok a) -> exists e ch rl x, cl_endpoint s = Some e /\ cl_channel s = Some ch /\ cl_relay s = Some rl /\ m (e, ch, rl) = (x, Ok a) /\
    s' = set_cl_relay (Some x.2) (set_cl_channel (Some x.1.2) (set_cl_endpoint (Some x.1.1) s)).
Proof.
  unfold on_parts. rewrite get_bind. destruct (cl_endpoint s) as [e|]; [|done]. cbn [ok_or]. rewrite lift_bind.
  destruct (cl_channel s) as [ch|]; [|done]. cbn [ok_or]. rewrite lift_bind. destruct (cl_relay s) as [rl|]; [|done]. cbn [ok_or]. rewrite lift_bind.
  intros (x & ? & ->)%zoom_returns. by exists e, ch, rl, x.
Qed.

Lemma claimant_put_sends n f eff : claimant_put n f = Ok eff -> no_checkpoint eff.
Proof. unfold claimant_put, claimant_send. by intros (body & _ & (octets & _ & [= <-])%bind_ok)%bind_ok. Qed.
Lemma claimant_sends m eff : claimant_send m = Ok eff -> no_checkpoint eff.
Proof. unfold claimant_send. by intros (octets & _ & [= <-])%bind_ok. Qed.

Lemma fresh_queue rl rl' n : queue_bootstrap_frame rl = (rl', Ok n) -> fresh_relay rl -> fresh_relay rl'.
Proof. intros (_ & Hc & -> & ->)%queue_ok (Ht & _ & Hn). split_and!; [done|done|cbn; lia]. Qed.
Lemma fresh_peer n rl rl' u : accept_peer_sequence n rl = (rl', Ok u) -> fresh_relay rl -> fresh_relay rl'.
Proof. by intros [-> _]%accept_peer_ok. Qed.
Lemma fresh_ack n rl rl' u : acknowledge_bootstrap_frame n rl = (rl', Ok u) -> fresh_relay rl -> fresh_relay rl'.
Proof. by intros [-> _]%ack_bootstrap_ok. Qed.

(** Before the channel. *)
Record waiting_ok s : Prop := {
  wo_carrier : carrier_typed (cl_carrier s);
  wo_endpoint : cl_endpoint s = None;
  wo_relay : exists rl, cl_relay s = Some rl /\ fresh_relay rl;
  wo_pending : match cl_pending_channel s with Some p => pending_made p | None => True end;
  wo_gate : cl_persistence_gate s = None /\ cl_after_persist s = []
}.
Lemma waiting_answered s es : waiting_ok s -> cl_phase s = Claimant_ShareSent \/ cl_phase s = Claimant_FinishedSent -> Forall no_checkpoint es ->
  claim_answered s es.
Proof.
  intros [Hc He Hr Hp [Hg Ha]] Hph Hes. split; [right; split; [done| |by rewrite Hg]|].
  - by destruct Hph as [-> | ->].
  - split_and!; [done| |done]. unfold has_durable_endpoint_phase. by rewrite He.
Qed.

Lemma prepare_finished_ok s s' eff : waiting_ok s -> claimant_prepare_finished s = (s', Ok eff) ->
  waiting_ok s' /\ cl_phase s' = Claimant_FinishedSent /\ no_checkpoint eff.
Proof.
  intros [Hc He Hr Hp [Hg Ha]]. unfold claimant_prepare_finished. rewrite get_bind. intros Hf.
  apply bind_returns in Hf as (s1 & x & [_ ->]%lift_returns & (s2 & pr & [_ ->]%lift_returns & (s3 & st & [_ ->]%lift_returns & (s4 & lo & [_ ->]%lift_returns & Hf)%bind_returns)%bind_returns)%bind_returns).
  destruct (negb _) in Hf; [done|].
  apply bind_returns in Hf as (s1 & ps & [_ ->]%lift_returns & (s2 & pm & [_ ->]%lift_returns & (s3 & isk & [_ ->]%lift_returns & Hf)%bind_returns)%bind_returns).
  apply bind_returns in Hf as (s1 & po & [_ ->]%lift_returns & (s2 & loc & [_ ->]%lift_returns & (s3 & pending & [Hpe ->]%lift_returns & Hf)%bind_returns)%bind_returns).
  apply bind_returns in Hf as (s1 & n & (rl & rl' & Hrl & Hq & ->)%on_part_ok & Hf). revert Hf. run_guards. intros [Hput ->]%lift_returns.
  split_and!; [|done|by eapply claimant_put_sends]. destruct Hr as (rl0 & Hrl0 & Hfr). split; try done.
  - exists rl'. split; [done|]. eapply fresh_queue; [exact Hq|congruence].
  - cbn. by do 4 eexists.
Qed.

Lemma claimed_ok mailbox token expires s s' es : carrier_typed (cl_carrier s) -> cl_endpoint s = None -> cl_pending_channel s = None ->
  cl_persistence_gate s = None /\ cl_after_persist s = [] -> length token = 32%nat ->
  claimed mailbox token expires s = (s', Ok es) -> claim_answered s' es.
Proof.
  intros Hc He Hp Hg Ht. unfold claimed. rewrite get_bind. destruct (_ || _); [done|]. rewrite modify_bind. intros Hf.
  apply bind_returns in Hf as (s1 & x & [_ ->]%lift_returns & (s2 & pr & [_ ->]%lift_returns & (s3 & st & [_ ->]%lift_returns & (s4 & sh & [_ ->]%lift_returns & Hf)%bind_returns)%bind_returns)%bind_returns).
  destruct (queue_bootstrap_frame _) as [rl q] eqn:Hq. revert Hf. run_guards. destruct q as [n|err|]; [|done..]. run_guards.
  destruct (claimant_put _ _) as [put|err|] eqn:Hput; [|done..]. intros [= <- <-].
  apply waiting_answered; [|by left|apply Forall_singleton; by eapply claimant_put_sends].
  split; try done; cbn; [|by rewrite Hp]. exists rl. split; [done|]. eapply fresh_queue; [exact Hq|]. done.
Qed.

Lemma claimant_establish_ok ack s s' es : waiting_ok s -> match ack with Some a => no_checkpoint a | None => True end ->
  claimant_establish ack s = (s', Ok es) -> claim_answered s' es.
Proof.
  intros [Hc He (rl & Hrl & Hfr) Hp [Hg Ha]] Hack. unfold claimant_establish. rewrite get_bind. intros Hf.
  apply bind_returns in Hf as (s1 & pf & [_ ->]%lift_returns & Hf). rewrite modify_bind in Hf.
  apply bind_returns in Hf as (s1 & p & [Hpend%ok_or_ok ->]%lift_returns & (s2 & ch & [Hconf ->]%lift_returns & (s3 & rl0 & [Hr0 ->]%lift_returns & Hf)%bind_returns)%bind_returns).
  unfold relay_ref in Hr0. rewrite Hrl in Hr0. injection Hr0 as <-. destruct (rs_awaiting_ack rl) eqn:Haw; [done|]. revert Hf. cbv zeta. run_guards.
  destruct (cl_body_verifier s) as [v|]; [|done]. cbn [ok_or]. run_guards. intros [= <- <-].
  rewrite Hpend in Hp. destruct Hp as (isk & cx & fa & fb & Hp).
  destruct (confirmed_channel _ _ _ _ _ _ _ _ Hp Hconf) as (Hch & Hterm & _).
  split.
  - right. split; [done| |cbn; by rewrite Hg]. cbn. exists (CredentialV2Endpoint_new Side_Claimant (cl_carrier s) v), ch, rl. split_and!; [done..|].
    destruct Hfr as (Ht & Hca & Hq). split; try done.
    + exists Phase_Begin, []. split; [apply story_new|done].
    + split; cbn [snd]; [done|by rewrite Haw, Hca|intros f; by rewrite Hca].
  - split_and!; [done|done|]. apply Forall_app. split; [destruct ack; [by apply Forall_singleton|done]|by apply Forall_singleton].
Qed.

(** After the channel. *)
Record open_ok s : Prop := {
  oo_carrier : carrier_typed (cl_carrier s);
  oo_parts : parts_ok s;
  oo_phase : cl_phase s = Claimant_Established;
  oo_gate : cl_persistence_gate s = None /\ cl_after_persist s = []
}.
Lemma open_claim_ok s : open_ok s -> claim_ok s.
Proof. intros [Hc Hp Hph [Hg Ha]]. split; [done|by rewrite Hph|by rewrite Hg]. Qed.
Lemma claim_ok_open s : claim_ok s -> cl_phase s = Claimant_Established -> cl_persistence_gate s = None -> open_ok s.
Proof. intros [Hc Hp Ha] Hph Hg. rewrite Hph in Hp. rewrite Hg in Ha. by split. Qed.

Lemma party_verifier carrier b (e : CredentialV2Endpoint B) ch rl : party_ok Side_Claimant carrier (e, ch, rl) ->
  party_ok Side_Claimant carrier (set_v2_verifier b e, ch, rl).
Proof. intros [(phase & log & Hst & Hg) ? ? ? ? ?]. split; try done. exists phase, log. split; [by apply story_verifier|done]. Qed.

(** The verifier's transition accepts an object of the allocator, or nothing. *)
Lemma party_offer carrier o now (v v' : O) (e : CredentialV2Endpoint B) ch rl e' a : genuine o -> party_ok Side_Claimant carrier (e, ch, rl) ->
  verify_offer o now (v, e) = ((v', e'), Ok a) ->
  party_ok Side_Claimant carrier (e', ch, rl) /\ (durable_phase (ve_phase e) = false -> durable_phase (ve_phase e') = false).
Proof.
  intros Ho [(phase & log & Hst & Hg) Hc Hl Hr Hq Hn] Hv. cbn [fst snd] in *.
  destruct (verifies_by_offer _ _ _ _ _ _ _ Hv) as (P & V & parser & intents & authority & pv & pv' & Hoff).
  pose proof (wp_run _ _ _ _ _ _ _ (wp_receive_offer carrier Side_Claimant o authority (e, pv) log (ex_intro _ phase Hst)) Hoff) as Ht.
  pose proof (offer_numbered _ _ _ _ _ Hoff) as Hnum. cbn in Hnum.
  destruct (offer_again _ _ _ _ _ Hoff) as [Heq|[d ->]].
  - injection Heq as -> ->. split; [|done]. split; try done. by exists phase, log.
  - cbn in Ht. destruct Ht as (ph & Ht & Hph). split.
    + split; try done; [|cbn; by rewrite Hnum]. exists ph, ((Side_Allocator, o) :: log). split; [done|by constructor].
    + intros _. destruct (durable_phase (ve_phase e')) eqn:Hd; [|done]. rewrite Hph in Hd.
      by destruct (transcript_durable _ _ _ _ _ _ (sy_transcript _ _ _ _ _ Ht) Hd) as [[=] _].
Qed.

(** Receiving enters no durable phase, and neither does a preliminary object. *)
Lemma party_apply_durable carrier o sender (e : CredentialV2Endpoint B) ch rl e' a : party_ok Side_Claimant carrier (e, ch, rl) -> v2_apply o sender e = (e', Ok a) ->
  durable_phase (ve_phase e') = true -> durable_phase (ve_phase e) = true \/
    sender = Side_Claimant /\ (ob_kind o = Kind_FinalApprove \/ ob_kind o = Kind_Payload).
Proof.
  intros [(phase & log & Hst & Hg) _ _ _ _ _] Ha Hd. cbn [fst snd] in *.
  pose proof (wp_run _ _ _ _ _ _ _ (wp_v2_apply carrier Side_Claimant o sender e phase log Hst) Ha) as Ht. cbv beta in Ht.
  destruct (wp_run _ _ _ _ _ _ _ (wp_numbered_apply o sender e) Ha) as [_ [-> |Hex]].
  - destruct Ht as (ph & Ht & Hph). right. rewrite Hph in Hd. by eapply transcript_durable; [apply Ht|].
  - left. unfold v2_apply in Ha. rewrite get_bind, Hex in Ha. by injection Ha as <- _.
Qed.

(** Only a decision is sent, or sent again, in a durable phase. *)
Lemma party_sent_durable carrier o sender (e : CredentialV2Endpoint B) ch rl e' : party_ok Side_Claimant carrier (e, ch, rl) ->
  v2_apply o sender e = (e', Ok Advance_Advanced) -> durable_phase (ve_phase e') = true -> ob_kind o = Kind_FinalApprove \/ ob_kind o = Kind_Payload.
Proof.
  intros [(phase & log & Hst & Hg) _ _ _ _ _] Ha Hd. cbn [fst snd] in *.
  pose proof (wp_run _ _ _ _ _ _ _ (wp_v2_apply carrier Side_Claimant o sender e phase log Hst) Ha) as (ph & Ht & Hph). rewrite Hph in Hd.
  by apply (transcript_durable _ _ _ _ _ _ (sy_transcript _ _ _ _ _ Ht)).
Qed.
Lemma party_repeated_durable carrier o sender (e : CredentialV2Endpoint B) ch rl : party_ok Side_Claimant carrier (e, ch, rl) ->
  exact_retransmission e o sender = true -> durable_phase (ve_phase e) = true -> ob_kind o = Kind_FinalApprove \/ ob_kind o = Kind_Payload.
Proof.
  intros [(phase & log & Hst & Hg) _ _ _ _ _] Hx Hd. cbn [fst snd] in *. unfold exact_retransmission in Hx. rewrite (sy_last _ _ _ _ _ Hst) in Hx.
  destruct log as [|[w o'] log]; [done|]. cbn in Hx. rewrite !andb_true_iff in Hx. destruct Hx as [[[[_ Hk] _] _] _]. bool_to_prop.
  destruct (sy_phase _ _ _ _ _ Hst) as [Hp|Hp]; rewrite Hp in Hd; [|done]. rewrite <- Hk.
  by apply (transcript_durable _ _ _ _ _ _ (sy_transcript _ _ _ _ _ Hst)).
Qed.

Lemma open_volatile s e es : open_ok s -> cl_endpoint s = Some e -> durable_phase (ve_phase e) = false -> Forall no_checkpoint es -> claim_answered s es.
Proof.
  intros Hs He Hd Hes. split; [right; by apply open_claim_ok|]. split_and!; [apply Hs| |done].
  unfold has_durable_endpoint_phase. rewrite He. by destruct (ve_phase e).
Qed.

Lemma claimant_application_ok n f now s s' es : open_ok s -> has_durable_endpoint_phase s = false ->
  claimant_application_frame n f now s = (s', Ok es) -> claim_answered s' es.
Proof.
  intros [Hc (e & ch & rl & He & Hch & Hrl & Hp) Hph Hg] Hd. unfold claimant_application_frame. intros Hf.
  assert (durable_phase (ve_phase e) = false) as Hde by (unfold has_durable_endpoint_phase in Hd; rewrite He in Hd; by destruct (ve_phase e)).
  apply bind_returns in Hf as (s1 & u & (rl0 & rl1 & Hrl0 & Hacc & ->)%on_part_ok & Hf).
  apply bind_returns in Hf as (s2 & pt & (ch0 & ch1 & Hch0 & Hopen & ->)%on_part_ok & Hf). cbn in Hch0.
  apply bind_returns in Hf as (s3 & o & [Ho ->]%lift_returns & Hf). rewrite get_bind in Hf.
  apply bind_returns in Hf as (s4 & e0 & [He0%ok_or_ok ->]%lift_returns & Hf). cbn in He0.
  assert (rl0 = rl) as -> by congruence. assert (ch0 = ch) as -> by congruence. assert (e0 = e) as -> by congruence.
  assert (genuine o) as Hgen by (unfold genuine; by apply object_inverse in Ho as Ho'; destruct Ho' as (_ & _ & ->)).
  pose proof (party_open _ _ _ _ _ _ _ _ Hopen (party_peer _ _ _ _ _ _ _ _ Hacc Hp)) as Hp1.
  apply bind_returns in Hf as (s5 & adv & Hadv & Hf).
  assert (exists s0 e1, s5 = set_cl_endpoint (Some e1) s0 /\ open_ok (set_cl_endpoint (Some e1) s0) /\ durable_phase (ve_phase e1) = false) as (s0 & e1 & -> & Hok & Hd1).
  { destruct (_ || _) in Hadv.
    - destruct (negb _) in Hadv; [done|]. apply bind_returns in Hadv as (s6 & v & [_ ->]%lift_returns & Hadv).
      apply zoom_returns in Hadv as ([v' e1] & Hv & ->). destruct (party_offer _ _ _ _ _ _ _ _ _ _ Hgen Hp1 Hv) as [Hp2 Hd2].
      eexists _, e1. split; [done|]. split; [|by apply Hd2]. split; try done. by exists e1, ch1, rl1.
    - apply on_part_ok in Hadv as (e0' & e1 & He0' & Hrec & ->). cbn in He0'. assert (e0' = e) as -> by congruence.
      pose proof (party_receive _ _ _ _ _ _ _ _ Hgen Hp1 Hrec) as Hp2. eexists _, e1. split; [done|]. split; [split; try done; by exists e1, ch1, rl1|].
      destruct (durable_phase (ve_phase e1)) eqn:Hd1; [|done]. unfold v2_receive in Hrec. rewrite get_bind in Hrec.
      assert (ve_side e = Side_Claimant) as Hside by (destruct (po_story _ _ _ Hp1) as (ph & log & Hst & _); apply Hst). rewrite Hside in Hrec.
      destruct (party_apply_durable _ _ _ _ _ _ _ _ Hp1 Hrec Hd1) as [?|[[=] _]]. congruence. }
  apply bind_returns in Hf as (s6 & ack & [Hack%claimant_sends ->]%lift_returns & Hf).
  destruct adv; [| |]; revert Hf; run_guards; intros [= <- <-].
  - eapply open_volatile; [exact Hok|done|done|]. by repeat constructor.
  - eapply open_volatile; [destruct Hok; by split|done|done|]. by repeat constructor.
  - eapply open_volatile; [exact Hok|done|done|]. by repeat constructor.
Qed.

Lemma claimant_peer_ok n body now s s' es : claim_ok s -> cl_persistence_gate s = None -> has_durable_endpoint_phase s = false ->
  claimant_peer_frame n body now s = (s', Ok es) -> claim_answered s' es.
Proof.
  intros Hs Hg Hd. unfold claimant_peer_frame. intros Hf. apply bind_returns in Hf as (s1 & f & [_ ->]%lift_returns & Hf).
  rewrite get_bind in Hf. case_bool_decide as Hph. { eapply claimant_application_ok; [by apply claim_ok_open|done|exact Hf]. }
  apply bind_returns in Hf as (s1 & u & (rl0 & rl1 & Hrl0 & Hacc & ->)%on_part_ok & Hf).
  apply bind_returns in Hf as (s2 & ack & [Hack%claimant_sends ->]%lift_returns & Hf).
  destruct Hs as [Hc Hps Hga]. rewrite Hg in Hga. destruct (cl_phase s) eqn:Hp; try done; destruct (negb _) in Hf; try done.
  - rewrite modify_bind in Hf. apply bind_returns in Hf as (s2 & rl & Hrl & Hf). unfold asks, relay_ref in Hrl. cbn in Hrl. injection Hrl as <- <-.
    destruct Hps as (He & (rl & Hrl & Hfr) & Hpend). assert (rl0 = rl) as -> by congruence.
    assert (waiting_ok (set_cl_peer_share (Some f) (set_cl_relay (Some rl1) s))) as Hw by (split; try done; exists rl1; split; [done|by eapply fresh_peer]).
    destruct (rs_awaiting_ack rl1).
    + injection Hf as <- <-. apply waiting_answered; [done|by left|by apply Forall_singleton].
    + apply bind_returns in Hf as (s3 & put & Hput & [= <- <-]). destruct (prepare_finished_ok _ _ _ Hw Hput) as (Hw' & Hph' & Hnc).
      apply waiting_answered; [done|by right|by repeat constructor].
  - rewrite modify_bind in Hf. apply bind_returns in Hf as (s2 & rl & Hrl & Hf). unfold asks, relay_ref in Hrl. cbn in Hrl. injection Hrl as <- <-.
    destruct Hps as (He & (rl & Hrl & Hfr) & Hpend). assert (rl0 = rl) as -> by congruence.
    assert (waiting_ok (set_cl_peer_finished (Some f) (set_cl_relay (Some rl1) s))) as Hw by (split; try done; exists rl1; split; [done|by eapply fresh_peer]).
    destruct (rs_awaiting_ack rl1).
    + injection Hf as <- <-. apply waiting_answered; [done|by right|by apply Forall_singleton].
    + eapply claimant_establish_ok; [exact Hw| |exact Hf]. done.
Qed.

(** An acknowledgement: the latest object's frame is no longer kept. *)
Lemma local_ack_open n s s' es : open_ok s -> local_ack n s = (s', Ok es) -> es = [] /\
  (s' = s \/ exists rl rl', cl_relay s = Some rl /\ acknowledge_application_frame n rl = (rl', Ok tt) /\ s' = set_cl_relay (Some rl') s) /\ open_ok s'.
Proof.
  intros [Hc (e & ch & rl & He & Hch & Hrl & Hp) Hph Hg]. unfold local_ack. rewrite get_bind. unfold relay_ref. rewrite Hrl. cbn [ok_or]. rewrite lift_bind.
  destruct (acknowledgement_already_applied rl n).
  { intros [= <- <-]. split_and!; [done|by left|]. split; try done. by exists e, ch, rl. }
  rewrite bool_decide_eq_true_2 by done. intros (s1 & [] & (rl0 & rl' & Hrl0 & Hack & ->)%on_part_ok & [= <- <-])%bind_returns.
  assert (rl0 = rl) as -> by congruence. split_and!; [done|right; by exists rl, rl'|]. split; try done.
  exists e, ch, rl'. split_and!; try done. by eapply party_acked.
Qed.
Lemma local_ack_ok n s s' es : claim_ok s -> cl_persistence_gate s = None -> has_durable_endpoint_phase s = false ->
  local_ack n s = (s', Ok es) -> claim_answered s' es.
Proof.
  intros Hs Hg Hd Hf. destruct (decide (cl_phase s = Claimant_Established)) as [Hph|Hph].
  { pose proof (claim_ok_open _ Hs Hph Hg) as Ho. pose proof (oo_parts _ Ho) as (e & ch & rl & He & _).
    destruct (local_ack_open _ _ _ _ Ho Hf) as (-> & Hcase & Ho').
    assert (durable_phase (ve_phase e) = false) as Hde by (unfold has_durable_endpoint_phase in Hd; rewrite He in Hd; by destruct (ve_phase e)).
    eapply open_volatile; [done| |done|done]. destruct Hcase as [-> |(? & ? & _ & _ & ->)]; done. }
  unfold local_ack in Hf. rewrite get_bind in Hf. apply bind_returns in Hf as (s1 & rl & [Hrl%ok_or_ok ->]%lift_returns & Hf).
  destruct Hs as [Hc Hps Hga]. rewrite Hg in Hga. destruct (acknowledgement_already_applied rl n).
  { injection Hf as <- <-. split; [right; split; [done|done|by rewrite Hg]|by split_and!]. }
  rewrite bool_decide_eq_false_2 in Hf by done.
  apply bind_returns in Hf as (s1 & u & (rl0 & rl1 & Hrl0 & Hack & ->)%on_part_ok & Hf). assert (rl0 = rl) as -> by congruence.
  assert (cl_phase s = Claimant_ShareSent \/ cl_phase s = Claimant_FinishedSent -> waiting_ok (set_cl_relay (Some rl1) s)) as Hw.
  { intros Hph'. assert (cl_endpoint s = None /\ (exists rl, cl_relay s = Some rl /\ fresh_relay rl) /\
      match cl_pending_channel s with Some p => pending_made p | None => True end) as (He & (rl0 & Hrl0' & Hfr) & Hpend) by (by destruct Hph' as [Hp|Hp]; rewrite Hp in Hps).
    split; try done. exists rl1. split; [done|]. eapply fresh_ack; [exact Hack|congruence]. }
  destruct (cl_phase s) eqn:Hp; try done.
  - specialize (Hw (or_introl eq_refl)). destruct (bool_decide (is_Some _)) in Hf.
    + apply bind_returns in Hf as (s3 & put & Hput & [= <- <-]). destruct (prepare_finished_ok _ _ _ Hw Hput) as (Hw' & Hph' & Hnc).
      apply waiting_answered; [done|by right|by repeat constructor].
    + destruct (bool_decide _) in Hf; [|done]. injection Hf as <- <-. apply waiting_answered; [done|by left|done].
  - specialize (Hw (or_intror eq_refl)). destruct (bool_decide _) in Hf.
    + injection Hf as <- <-. apply waiting_answered; [done|by right|done].
    + by eapply claimant_establish_ok; [exact Hw| |exact Hf].
Qed.

(** *** Behind the gate *)

(** A checkpoint alone, from which a session restores that sends again exactly
    what is held back. *)
Definition claim_stored (key : bytes) s' (es : list CredentialV2ClaimantEffect) : Prop := exists g ck,
  es = [ClaimantEffect_Checkpoint g ck] /\ cl_persistence_gate s' = Some g /\ has_durable_endpoint_phase s' = true /\
  forall now b, (claimant_endpoint_phase s' = Ok Phase_FinalApproved -> now < ca_relay_expires_at (cl_carrier s')) -> takes_states b ->
    exists s'' : session, claimant_restore (ec_bytes ck) key (cl_carrier s') g now b = Ok s'' /\
      resume_cached_frame s'' = Ok (cl_after_persist s') /\ claimant_endpoint_phase s'' = claimant_endpoint_phase s' /\
      cl_channel s'' = cl_channel s' /\ cl_relay s'' = cl_relay s'.

Lemma seal_verifier ch rl key g expiry nonce now (e e' : CredentialV2Endpoint B) ck b :
  endpoint_seal_checkpoint ch rl key g expiry nonce now e = (e', Ok ck) -> takes_states b ->
  exists b', body_checkpoint_state (ve_body_verifier e) ≫= restored_verifier b = Ok b'.
Proof.
  intros (_ & _ & _ & _ & _ & _ & p & Hpl & _)%endpoint_seal_ok Hb. unfold encode_endpoint in Hpl.
  apply bind_ok in Hpl as (c1 & _ & (c2 & _ & (l & _ & (st & Hst & _)%bind_ok)%bind_ok)%bind_ok).
  rewrite Hst. destruct (Hb _ _ Hst) as [b' Hb']. by exists b'.
Qed.

(** What the latest frame and its number make a session send. *)
Definition cached_effects (rl : CredentialV2RelayState) : credM (list CredentialV2ClaimantEffect) :=
  match rs_cached_outbound rl with
  | None => Ok []
  | Some frame => sequence ← cached_application_sequence rl; put ← claimant_put sequence frame; Ok [put]
  end.
Lemma resume_ok s e rl : cl_endpoint s = Some e -> cl_relay s = Some rl -> cl_phase s = Claimant_Established -> cl_persistence_gate s = None ->
  durable_phase (ve_phase e) = true -> resume_cached_frame s = cached_effects rl.
Proof.
  intros He Hrl Hph Hg Hd. unfold resume_cached_frame, claimant_gated, not_established, has_durable_endpoint_phase.
  rewrite Hg, Hph, He, Hrl, bool_decide_eq_false_2 by by intros []. rewrite bool_decide_eq_true_2 by done.
  destruct (ve_phase e); try done.
Qed.

Lemma claimant_phase_valid phase released expiry limit now : validate_checkpoint_phase Side_Claimant phase released expiry limit now = Ok tt ->
  durable_phase phase = true /\ forall now', (phase = Phase_FinalApproved -> now' < limit) -> live_for (Purpose_ResumeAt now') expiry.
Proof.
  unfold validate_checkpoint_phase. destruct (_ && _); [done|]. destruct phase; try done.
  - intros Hv. split; [done|]. intros now' Hl. specialize (Hl eq_refl). destruct expiry as [t|]; [|done].
    destruct (_ && _) eqn:E in Hv; [|by destruct (_ <=? _)]. apply andb_true_iff in E as [->%Z.eqb_eq _]. done.
  - case_bool_decide as Hx; [|done]. intros _. split; [done|]. intros now' _. by subst.
Qed.

(** The phase of a claimant's checkpoint is the one its expiry says. *)
Definition expiry_phase (expiry : option Z) : CredentialV2Phase := match expiry with Some _ => Phase_FinalApproved | None => Phase_PayloadSent end.
Lemma sealed_phase carrier ch rl key g expiry nonce now (e e' : CredentialV2Endpoint B) ck :
  party_ok Side_Claimant carrier (e, ch, rl) -> endpoint_seal_checkpoint ch rl key g expiry nonce now e = (e', Ok ck) ->
  ve_phase e' = expiry_phase expiry.
Proof.
  intros Hp (-> & _ & Hv & _)%endpoint_seal_ok. pose proof (po_story _ _ _ Hp) as (phase & log & Hst & _). cbn [fst snd] in Hst.
  rewrite (sy_side _ _ _ _ _ Hst) in Hv. unfold validate_checkpoint_phase in Hv. destruct (_ && _) in Hv; [done|].
  cbn. destruct (ve_phase e) eqn:Hph; try done; destruct expiry; try done.
Qed.

Lemma sealed_parts key g expiry nonce now s e ch rl e' ck after : open_ok s -> length nonce = 12%nat ->
  cl_endpoint s = Some e -> cl_channel s = Some ch -> cl_relay s = Some rl ->
  endpoint_seal_checkpoint ch rl key g expiry nonce now e = (e', Ok ck) -> cached_effects rl = Ok after ->
  let s' := set_cl_after_persist after (set_cl_persistence_gate (Some g)
              (set_cl_relay (Some rl) (set_cl_channel (Some ch) (set_cl_endpoint (Some e') s)))) in
  claim_ok s' /\ claim_stored key s' [ClaimantEffect_Checkpoint g ck] /\ claimant_endpoint_phase s' = Ok (expiry_phase expiry).
Proof.
  intros [Hc (e0 & ch0 & rl0 & He0 & Hch0 & Hrl0 & Hp) Hph Hg] Hn He Hch Hrl Hseal Hafter s'.
  assert (e0 = e) as -> by congruence. assert (ch0 = ch) as -> by congruence. assert (rl0 = rl) as -> by congruence.
  pose proof (party_sealed _ _ _ _ _ _ _ _ _ _ _ _ Hseal Hp) as Hp'. pose proof (sealed_phase _ _ _ _ _ _ _ _ _ _ _ Hp Hseal) as Hep.
  pose proof (po_story _ _ _ Hp) as (phase & log & Hst & _). cbn [fst snd] in Hst.
  pose proof Hseal as Hseal'. apply endpoint_seal_ok in Hseal' as (-> & _ & Hv & _). rewrite (sy_side _ _ _ _ _ Hst) in Hv.
  destruct (claimant_phase_valid _ _ _ _ _ Hv) as [Hd Hlive]. rewrite (sy_carrier _ _ _ _ _ Hst) in Hlive.
  split; [|split; [|unfold claimant_endpoint_phase; cbn; by f_equal]].
  - split; [done| |].
    + change (cl_phase s') with (cl_phase s). rewrite Hph. by exists (set_v2_checkpoint g nonce e), ch, rl.
    + cbn [cl_persistence_gate s' set_cl_after_persist set_cl_persistence_gate]. split; [done|].
      rewrite (resume_ok _ (set_v2_checkpoint g nonce e) rl); done.
  - exists g, ck. split_and!; [done|done| |].
    + unfold has_durable_endpoint_phase. cbn. by destruct (ve_phase e).
    + intros now' b Hl Hb. destruct (seal_verifier _ _ _ _ _ _ _ _ _ _ b Hseal Hb) as [b' Hver].
      assert (live_for (Purpose_ResumeAt now') expiry) as Hlv.
      { apply Hlive. intros Hfin. apply Hl. unfold claimant_endpoint_phase. cbn. by rewrite Hfin. }
      pose proof (party_restores Side_Claimant (cl_carrier s) e ch rl key g expiry nonce now now' _ ck b b' Hp Hc Hn Hver Hseal Hlv) as Hres.
      unfold claimant_restore. cbn [cl_carrier s' set_cl_after_persist set_cl_persistence_gate set_cl_relay set_cl_channel set_cl_endpoint].
      rewrite Hres, ok_bind. cbn [ve_phase kept_endpoint].
      assert (forall x, match ve_phase e with Phase_FinalApproved | Phase_PayloadSent => Ok x | _ => Err CredentialV2Error_Phase end = Ok x :> credM session) as Hx
        by (intros x; by destruct (ve_phase e)).
      rewrite Hx. eexists. split; [done|]. split_and!; [|done..].
      by rewrite (resume_ok _ (kept_endpoint rl b' g nonce e) rl).
Qed.

(** A prepared frame is the cached one of an object sent before, or the object
    accepted and sealed. *)
Lemma prepare_source o (x x' : CredentialV2Endpoint B * SecureCredentialV2Channel * CredentialV2RelayState) f : prepare_outbound o x = (x', Ok f) ->
  x' = x /\ rs_cached_outbound x.2 = Some f /\ exact_retransmission x.1.1 o (ve_side x.1.1) = true \/
  v2_send o x.1.1 = (x'.1.1, Ok Advance_Advanced) /\ v2_seal (ob_bytes o) x.1.2 = (x'.1.2, Ok f).
Proof.
  destruct x as [[e ch] rl]. unfold prepare_outbound. rewrite get_bind. destruct (negb _); [done|]. cbn [fst snd].
  destruct (rs_cached_outbound rl) as [cached|] eqn:Hca. { destruct (exact_retransmission _ _ _) eqn:Hx; [|done]. intros [= <- <-]. by left. }
  rewrite lift_bind. destruct (can_seal ch (ob_bytes o)); [|done..].
  intros (x1 & adv & (e1 & Hsend & ->)%zoom_returns & Hrest)%bind_returns. right. destruct adv; try done.
  apply bind_returns in Hrest as (x2 & f2 & (ch2 & Hseal & ->)%zoom_returns & Hrest).
  apply bind_returns in Hrest as (x3 & u & (rl3 & _ & ->)%zoom_returns & [= <- <-]). by split.
Qed.

(** The frame [f] with the number [n], as a session prepared it for [o]. *)
Definition prepared_for o s s' (n : Z) (f : CredentialV2Frame) : Prop := exists e ch rl ch' rl',
  cl_endpoint s = Some e /\ cl_channel s = Some ch /\ cl_relay s = Some rl /\ cl_channel s' = Some ch' /\ cl_relay s' = Some rl' /\
  rs_cached_outbound rl' = Some f /\ cached_application_sequence rl' = Ok n /\
  (rs_cached_outbound rl = Some f /\ exact_retransmission e o (ve_side e) = true \/ v2_seal (ob_bytes o) ch = (ch', Ok f)).

Lemma prepare_on_parts_ok o s s' n f : open_ok s -> genuine o -> prepare_on_parts o s = (s', Ok (n, f)) ->
  open_ok s' /\ cl_carrier s' = cl_carrier s /\ prepared_for o s s' n f /\
  (has_durable_endpoint_phase s' = true -> ob_kind o = Kind_FinalApprove \/ ob_kind o = Kind_Payload).
Proof.
  intros [Hc (e0 & ch0 & rl0 & He0 & Hch0 & Hrl0 & Hp) Hph Hg] Ho. unfold prepare_on_parts.
  intros (e & ch & rl & x & He & Hch & Hrl & Hx & ->)%on_parts_ok.
  assert (e0 = e) as -> by congruence. assert (ch0 = ch) as -> by congruence. assert (rl0 = rl) as -> by congruence.
  apply bind_returns in Hx as (x1 & f1 & Hprep & Hx). rewrite get_bind in Hx.
  apply bind_returns in Hx as (x2 & n1 & [Hseq ->]%lift_returns & [= -> -> ->]).
  destruct (party_prepare _ _ _ _ _ _ Ho Hp Hprep) as [Hp' Hca]. pose proof (prepare_source _ _ _ _ Hprep) as Hps. cbn [fst snd] in Hps.
  destruct x as [[e' ch'] rl']. cbn [fst snd] in *. split_and!; try done.
  - split; try done. by exists e', ch', rl'.
  - exists e, ch, rl, ch', rl'. split_and!; try done. destruct Hps as [(_ & ? & ?)|[_ ?]]; auto.
  - unfold has_durable_endpoint_phase. cbn. intros Hd. assert (durable_phase (ve_phase e') = true) as Hd' by (by destruct (ve_phase e')).
    destruct Hps as [(Hx & _ & Hrep)|[Hsend _]].
    + injection Hx as -> -> ->. by eapply party_repeated_durable.
    + unfold v2_send in Hsend. rewrite get_bind in Hsend. exact (party_sent_durable _ _ _ _ _ _ _ Hp Hsend Hd').
Qed.

(** The common part of the calls that seal. *)
Lemma seal_on_parts key expiry nonce now s s' g ck : open_ok s ->
  on_parts (x ← get;
    let '(endpoint, channel, relay) := x in
    let generation := saturating_add u64_max (ve_checkpoint_generation endpoint) 1 in
    checkpoint ← on_endpoint_part (endpoint_seal_checkpoint channel relay key generation expiry nonce now);
    mret (generation, checkpoint)) s = (s', Ok (g, ck)) -> exists e ch rl e', cl_endpoint s = Some e /\ cl_channel s = Some ch /\ cl_relay s = Some rl /\
  endpoint_seal_checkpoint ch rl key g expiry nonce now e = (e', Ok ck) /\
  s' = set_cl_relay (Some rl) (set_cl_channel (Some ch) (set_cl_endpoint (Some e') s)).
Proof.
  intros Hs (e & ch & rl & x & He & Hch & Hrl & Hx & ->)%on_parts_ok. rewrite get_bind in Hx.
  apply bind_returns in Hx as (x1 & ck1 & (e' & Hseal & ->)%zoom_returns & Hx). cbn [fst snd] in *. injection Hx as <- <- <-.
  by exists e, ch, rl, e'.
Qed.
Lemma checkpoint_current_ok key nonce now expiry after s s' es : open_ok s -> length nonce = 12%nat ->
  (exists rl, cl_relay s = Some rl /\ cached_effects rl = Ok after) ->
  checkpoint_current key nonce now expiry after s = (s', Ok es) -> claim_ok s' /\ claim_stored key s' es /\
  claimant_endpoint_phase s' = Ok (expiry_phase expiry) /\ cl_after_persist s' = after /\ cl_channel s' = cl_channel s /\ cl_relay s' = cl_relay s.
Proof.
  intros Hs Hn (rl0 & Hrl0 & Hafter). unfold checkpoint_current. rewrite get_bind. destruct (_ || _); [done|].
  intros (s1 & [g ck] & (e & ch & rl & e' & He & Hch & Hrl & Hseal & ->)%seal_on_parts & Hf)%bind_returns; [|done].
  revert Hf. run_guards. intros [= <- <-]. assert (rl0 = rl) as -> by congruence.
  destruct (sealed_parts _ _ _ _ _ _ _ _ _ _ _ after Hs Hn He Hch Hrl Hseal Hafter) as (? & ? & ?). split_and!; try done; by symmetry.
Qed.

(** What a call that seals holds back: the frame prepared for its object. *)
Definition held o s s' : Prop := exists n f put,
  prepared_for o s s' n f /\ claimant_put n f = Ok put /\ cl_after_persist s' = [put].
Lemma prepared_effects o s s' n f put : prepared_for o s s' n f -> claimant_put n f = Ok put -> exists rl, cl_relay s' = Some rl /\ cached_effects rl = Ok [put].
Proof.
  intros (e & ch & rl & ch' & rl' & _ & _ & _ & _ & Hrl & Hca & Hseq & _) Hput. exists rl'. split; [done|].
  unfold cached_effects. by rewrite Hca, Hseq, ok_bind, Hput.
Qed.
Lemma prepared_kept o s s1 s' n f : prepared_for o s s1 n f -> cl_channel s' = cl_channel s1 -> cl_relay s' = cl_relay s1 -> prepared_for o s s' n f.
Proof. intros (e & ch & rl & ch' & rl' & H0') Hc Hr. exists e, ch, rl, ch', rl'. by rewrite Hc, Hr. Qed.

Lemma approve_ok o key nonce now s s' es : claim_ok s -> cl_persistence_gate s = None -> genuine o -> length nonce = 12%nat ->
  prepare_final_approval o key nonce now s = (s', Ok es) ->
  claim_ok s' /\ claim_stored key s' es /\ claimant_endpoint_phase s' = Ok Phase_FinalApproved /\ held o s s'.
Proof.
  intros Hs Hg Ho Hn. unfold prepare_final_approval. rewrite get_bind. destruct (_ || _) eqn:E; [done|]. unfold ending_on_error.
  match goal with |- match ?m s with _ => _ end = _ -> _ => destruct (m s) as [s1 [es'|err|]] eqn:Hf; [|done..] end. intros [= -> ->].
  assert (open_ok s) as Hop.
  { apply claim_ok_open; [done| |done]. apply orb_false_iff in E as [[_ E]%orb_false_iff _]. unfold not_established in E.
    by apply negb_false_iff, bool_decide_eq_true in E. }
  apply bind_returns in Hf as (s1 & [n f] & Hprep & Hf).
  destruct (prepare_on_parts_ok _ _ _ _ _ Hop Ho Hprep) as (Hop1 & Hcr & Hpr & _).
  apply bind_returns in Hf as (s2 & [g ck] & (e0 & ch0 & rl0 & e' & He0 & Hch0 & Hrl0 & Hseal & ->)%seal_on_parts & Hf); [|done].
  rewrite modify_bind in Hf. apply bind_returns in Hf as (s3 & put & [Hput ->]%lift_returns & Hf). revert Hf. run_guards. intros [= <- <-].
  destruct (prepared_effects _ _ _ _ _ _ Hpr Hput) as (rl & Hrl & Hef). assert (rl0 = rl) as -> by congruence.
  destruct (sealed_parts key g (Some (ca_relay_expires_at (cl_carrier s))) nonce now s1 e0 ch0 rl e' ck [put]) as (? & ? & ?); try done.
  split_and!; try done. exists n, f, put. split_and!; [|done|done]. by eapply prepared_kept.
Qed.
Lemma payload_ok o key nonce now s s' es : claim_ok s -> cl_persistence_gate s = None -> genuine o -> length nonce = 12%nat ->
  prepare_payload o key nonce now s = (s', Ok es) ->
  claim_ok s' /\ claim_stored key s' es /\ claimant_endpoint_phase s' = Ok Phase_PayloadSent /\ held o s s'.
Proof.
  intros Hs Hg Ho Hn. unfold prepare_payload. rewrite get_bind. destruct (_ || _) eqn:E; [done|].
  intros (s0 & ph & [_ ->]%lift_returns & Hf)%bind_returns. destruct (_ || _) in Hf; [done|]. destruct (_ <=? _) in Hf; [done|]. revert Hf.
  unfold ending_on_error. match goal with |- match ?m s with _ => _ end = _ -> _ => destruct (m s) as [s1 [es'|err|]] eqn:Hf; [|done..] end. intros [= -> ->].
  assert (open_ok s) as Hop.
  { apply claim_ok_open; [done| |done]. apply orb_false_iff in E as [_ E]. unfold not_established in E.
    by apply negb_false_iff, bool_decide_eq_true in E. }
  apply bind_returns in Hf as (s1 & [n f] & Hprep & Hf).
  destruct (prepare_on_parts_ok _ _ _ _ _ Hop Ho Hprep) as (Hop1 & Hcr & Hpr & _).
  apply bind_returns in Hf as (s3 & put & [Hput ->]%lift_returns & Hf).
  destruct (checkpoint_current_ok _ _ _ _ _ _ _ _ Hop1 Hn (prepared_effects _ _ _ _ _ _ Hpr Hput) Hf) as (? & ? & ? & Haf & Hch & Hrl).
  split_and!; try done. exists n, f, put. split_and!; [by eapply prepared_kept|done|done].
Qed.

(** The acknowledgement of a decision's frame: stored, unless it was seen. *)
Definition acknowledged input key s s' (es : list CredentialV2ClaimantEffect) : Prop := exists q rl,
  decode_server_message input = Ok (ServerMessage_Acknowledged q) /\ cl_relay s = Some rl /\
  if acknowledgement_already_applied rl q then s' = s /\ es = []
  else claim_stored key s' es /\ claimant_endpoint_phase s' = claimant_endpoint_phase s /\ cl_after_persist s' = [] /\
       exists rl', acknowledge_application_frame q rl = (rl', Ok tt) /\ cl_relay s' = Some rl'.
Lemma local_ack_applies q rl s s' es : cl_phase s = Claimant_Established -> cl_relay s = Some rl -> acknowledgement_already_applied rl q = false ->
  local_ack q s = (s', Ok es) -> exists rl', acknowledge_application_frame q rl = (rl', Ok tt) /\ s' = set_cl_relay (Some rl') s.
Proof.
  intros Hph Hrl Hap. unfold local_ack. rewrite get_bind. unfold relay_ref. rewrite Hrl. cbn [ok_or]. rewrite lift_bind, Hap, bool_decide_eq_true_2 by done.
  intros (s1 & [] & (rl0 & rl' & Hrl0 & Ha & ->)%on_part_ok & [= <- <-])%bind_returns. assert (rl0 = rl) as -> by congruence. by exists rl'.
Qed.
Lemma durable_ok input now key nonce s s' es : claim_ok s -> cl_persistence_gate s = None -> length nonce = 12%nat ->
  receive_durable input now key nonce s = (s', Ok es) -> (s' = s \/ claim_ok s') /\ acknowledged input key s s' es.
Proof.
  intros Hs Hg Hn. unfold receive_durable. rewrite get_bind. destruct (_ || _) eqn:E; [done|].
  intros (s0 & ph & [Hph ->]%lift_returns & Hf)%bind_returns. destruct (_ && _) in Hf; [done|].
  apply bind_returns in Hf as (s1 & m & [Hm ->]%lift_returns & Hf). destruct m; try done.
  unfold claimant_message in Hm. destruct (decode_server_message input) as [m'|e|] eqn:Hdec; [|done..]. injection Hm as ->.
  assert (open_ok s) as Hop.
  { apply claim_ok_open; [done| |done]. apply orb_false_iff in E as [[_ E]%orb_false_iff _]. unfold not_established in E.
    by apply negb_false_iff, bool_decide_eq_true in E. }
  apply bind_returns in Hf as (s1 & rl & [Hrl ->]%lift_returns & Hf). unfold relay_ref in Hrl. apply ok_or_ok in Hrl.
  destruct (acknowledgement_already_applied rl seq) eqn:Hap.
  { injection Hf as <- <-. split; [by left|]. exists seq, rl. by rewrite Hap. }
  apply bind_returns in Hf as (s1 & es' & Hack & (s2 & ex & [Hex ->]%lift_returns & Hf)%bind_returns).
  destruct (local_ack_open _ _ _ _ Hop Hack) as (_ & _ & Hop').
  destruct (local_ack_applies _ _ _ _ _ (oo_phase _ Hop) Hrl Hap Hack) as (rl' & Ha & ->).
  assert (exists rl, cl_relay (set_cl_relay (Some rl') s) = Some rl /\ cached_effects rl = Ok []) as Hef.
  { exists rl'. split; [done|]. by apply ack_application_ok in Ha as ->. }
  destruct (checkpoint_current_ok _ _ _ _ _ _ _ _ Hop' Hn Hef Hf) as (? & ? & Hph' & ? & _ & Hrl'). split; [by right|].
  exists seq, rl. rewrite Hap. split_and!; try done; [|by exists rl']. rewrite Hph', Hph. by destruct ph; try done; injection Hex as <-.
Qed.

(** *** The other calls *)

(** Nothing is stored; and where a session must remember afterwards, it had to
    before, in the same phase, and sends nothing. *)
Definition claim_released s s' (es : list CredentialV2ClaimantEffect) : Prop :=
  cl_persistence_gate s' = None /\ Forall no_checkpoint es /\
  (has_durable_endpoint_phase s' = true -> claimant_endpoint_phase s' = claimant_endpoint_phase s /\ es = []).
Lemma answered_released s s' es : claim_answered s' es -> claim_settled s' /\ claim_released s s' es.
Proof. intros [Hs (Hg & Hd & Hf)]. split; [done|]. split_and!; [done|done|congruence]. Qed.
Lemma ended_answered s es : claim_ended s -> Forall no_checkpoint es -> claim_answered s es.
Proof.
  intros He Hf. split; [by left|]. destruct He as (_ & Hg & _ & Hn). split_and!; [done| |done]. unfold has_durable_endpoint_phase. by rewrite Hn.
Qed.
Lemma claimant_terminated s : claim_ended (claimant_terminate s).
Proof. done. Qed.

Lemma claimant_server_ok m now s s' es : claim_ok s -> cl_persistence_gate s = None -> has_durable_endpoint_phase s = false ->
  server_message_typed m -> claimant_apply_server m now s = (s', Ok es) -> claim_answered s' es.
Proof.
  intros Hs Hg Hd Ht. unfold claimant_apply_server. rewrite get_bind. destruct m; try done.
  - destruct (negb _) eqn:E; [done|]. apply negb_false_iff, bool_decide_eq_true in E. destruct Hs as [Hc Hps Hga]. rewrite E in Hps. rewrite Hg in Hga.
    intros (s1 & tok & (p & p' & _ & _ & ->)%on_part_ok & Hf)%bind_returns. rewrite !modify_bind in Hf.
    apply bind_returns in Hf as (s2 & eff & [He%claimant_sends ->]%lift_returns & [= <- <-]).
    split; [right; split; [done|done|by cbn; rewrite Hg]|]. split_and!; [done| |by apply Forall_singleton].
    unfold has_durable_endpoint_phase. cbn. by destruct Hps as [-> _].
  - destruct (negb _) eqn:E; [done|]. apply negb_false_iff, bool_decide_eq_true in E. destruct Hs as [Hc Hps Hga]. rewrite E in Hps. rewrite Hg in Hga.
    destruct Hps, Ht as (_ & Ht & _). by apply claimed_ok.
  - by apply claimant_peer_ok.
  - by apply local_ack_ok.
  - rewrite modify_bind. intros [= <- <-]. apply ended_answered; [done|by apply Forall_singleton].
  - rewrite modify_bind. intros [= <- <-]. apply ended_answered; [done|by apply Forall_singleton].
  - intros [= <- <-]. split; [by right|by split_and!].
Qed.

(** A call that ends the session when it fails. *)
Lemma claimant_ending {A} (m : stM session CredentialV2Error A) s s' err : ending_on_error claimant_terminate m s = (s', Err err) -> claim_ended s'.
Proof. unfold ending_on_error. destruct (m s) as [s1 [|err'|]]; [done| |done]. by intros [= <- _]. Qed.
Lemma claimant_ending_ok {A} (m : stM session CredentialV2Error A) s s' a : ending_on_error claimant_terminate m s = (s', Ok a) -> m s = (s', Ok a).
Proof. unfold ending_on_error. by destruct (m s) as [s1 [|err'|]]. Qed.

Lemma claimant_receive_ok input now s s' es : claim_settled s -> claimant_receive input now s = (s', Ok es) -> claim_answered s' es.
Proof.
  unfold claimant_receive. rewrite get_bind. intros Hs. destruct (_ || _) eqn:E; [done|]. case_bool_decide as Hph; [done|].
  destruct (_ <=? _); [done|]. intros (s1 & m & [Hm ->]%lift_returns & Hf)%claimant_ending_ok%bind_returns.
  apply orb_false_iff in E as [Hg%bool_decide_eq_false Hd]. unfold claimant_message in Hm.
  destruct (decode_server_message input) as [m'|err|] eqn:Hdec; [|done..]. injection Hm as ->.
  apply (codec_inverse _ server_message_rule _ _ server_message_typed) in Hdec as [Ht _]; [|rule_known|apply server_text_keys].
  destruct Hs as [(Ht' & _)|Hs]; [done|]. eapply claimant_server_ok; [done| |done|done|done]. destruct (cl_persistence_gate s); [by destruct Hg|done].
Qed.
Lemma claimant_receive_err input now s s' err : claimant_receive input now s = (s', Err err) -> s' = s \/ claim_ended s'.
Proof.
  unfold claimant_receive. rewrite get_bind. destruct (_ || _); [intros [= <- _]; by left|]. case_bool_decide; [intros [= <- _]; by left|].
  destruct (_ <=? _); [run_guards; intros [= <- _]; by right|]. intros ?%claimant_ending. by right.
Qed.

Lemma authorise_ok v s s' : claim_settled s -> authorise_authenticated_profile v s = (s', Ok tt) -> claim_settled s' /\ claim_released s s' [].
Proof.
  unfold authorise_authenticated_profile. rewrite get_bind. destruct (negb _) eqn:E; [done|]. apply negb_false_iff, bool_decide_eq_true in E.
  intros [(Ht & _)|[Hc Hps Hga]]; [congruence|]. rewrite modify_bind. intros [= <-]. rewrite E in Hps.
  destruct (cl_persistence_gate s) eqn:Hg; [by destruct Hga; congruence|].
  split; [|by split_and!]. right. split; [done|done|]. cbn. by rewrite Hg.
Qed.

Lemma claimant_prepare_ok o s s' es : claim_settled s -> genuine o -> claimant_prepare_application_object o s = (s', Ok es) ->
  claim_settled s' /\ claim_released s s' es.
Proof.
  intros Hs Ho. unfold claimant_prepare_application_object. rewrite get_bind. destruct (_ || _) eqn:E; [done|].
  apply orb_false_iff in E as [[Hg%bool_decide_eq_false Hph%negb_false_iff%bool_decide_eq_true]%orb_false_iff Hk%negb_false_iff].
  assert (cl_persistence_gate s = None) as Hg' by (destruct (cl_persistence_gate s); [by destruct Hg|done]).
  destruct Hs as [(Ht & _)|Hs]; [congruence|]. intros (s1 & [n f] & Hprep & (s2 & put & [Hput ->]%lift_returns & [= <- <-])%bind_returns)%bind_returns.
  destruct (prepare_on_parts_ok _ _ _ _ _ (claim_ok_open _ Hs Hph Hg') Ho Hprep) as (Hop & _ & _ & Hd).
  split; [right; by apply open_claim_ok|]. split_and!; [apply Hop|by apply Forall_singleton; eapply claimant_put_sends|].
  intros [Hx|Hx]%Hd; by rewrite Hx in Hk.
Qed.

(** A recovered receipt is authenticated, then committed. *)
Lemma authenticate_verifies o (e e' : CredentialV2Endpoint B) a : authenticate_recovered_receipt o e = (e', Ok a) -> exists b, e' = set_v2_verifier b e.
Proof.
  unfold authenticate_recovered_receipt. rewrite get_bind. destruct (_ || _); [done|]. rewrite lift_bind. destruct (ok_or _ _); [|done..].
  destruct (negb _); [done|]. rewrite lift_bind. destruct (recognise_logical_body o); [|done..]. destruct (negb _); [done|]. rewrite lift_bind.
  destruct (ok_or _ _); [|done..]. destruct (negb _); [done|].
  intros (e1 & r & Hv & (e2 & u & [_ ->]%lift_returns & (e3 & d & [_ ->]%lift_returns & [= <- _])%bind_returns)%bind_returns)%bind_returns.
  unfold verify_body in Hv. destruct (body_verify _ _) as [b x]. injection Hv as <- _. by exists b.
Qed.
Lemma open_released s s' e : open_ok s' -> cl_endpoint s = Some e -> (exists e', cl_endpoint s' = Some e' /\ ve_phase e' = ve_phase e) ->
  claim_settled s' /\ claim_released s s' [].
Proof.
  intros Ho He (e' & He' & Hph). split; [right; by apply open_claim_ok|]. split_and!; [apply Ho|done|].
  intros _. split; [|done]. unfold claimant_endpoint_phase. by rewrite He, He', Hph.
Qed.

Lemma recovered_ok input s s' a : claim_settled s -> receive_recovered_receipt input s = (s', Ok a) -> claim_settled s' /\ claim_released s s' [].
Proof.
  intros Hs. unfold receive_recovered_receipt. rewrite get_bind. destruct (_ || _) eqn:E; [done|].
  apply orb_false_iff in E as [Hg%bool_decide_eq_false Hph%negb_false_iff%bool_decide_eq_true].
  assert (cl_persistence_gate s = None) as Hg' by (destruct (cl_persistence_gate s); [by destruct Hg|done]).
  destruct Hs as [(Ht & _)|Hs]; [congruence|]. destruct (claim_ok_open _ Hs Hph Hg') as [Hc (e & ch & rl & He & Hch & Hrl & Hp) _ Hga].
  intros (s0 & ph & [_ ->]%lift_returns & Hf)%bind_returns. destruct (_ || _) in Hf; [done|].
  apply bind_returns in Hf as (s1 & rc & Hf%claimant_ending_ok & Hr). rewrite modify_bind in Hr. injection Hr as <- _.
  apply bind_returns in Hf as (s2 & m & [_ ->]%lift_returns & Hf). destruct m; try done.
  apply bind_returns in Hf as (s2 & f & [_ ->]%lift_returns & (s3 & u & (rl0 & rl' & Hrl0 & Hacc & ->)%on_part_ok & Hf)%bind_returns).
  apply bind_returns in Hf as (s4 & pt & (ch0 & ch' & Hch0 & Hopen & ->)%on_part_ok & (s5 & o & [_ ->]%lift_returns & Hf)%bind_returns).
  apply bind_returns in Hf as (s6 & au & (e0 & e' & He0 & Hau & ->)%on_part_ok & [= <- _]). cbn in Hch0, He0.
  assert (rl0 = rl) as -> by congruence. assert (ch0 = ch) as -> by congruence. assert (e0 = e) as -> by congruence.
  destruct (authenticate_verifies _ _ _ _ Hau) as [b ->].
  pose proof (party_verifier _ b _ _ _ (party_open _ _ _ _ _ _ _ _ Hopen (party_peer _ _ _ _ _ _ _ _ Hacc Hp))) as Hp'.
  eapply open_released; [|exact He|by eexists]. split; try done. by eexists _, _, _.
Qed.
Lemma authenticate_ok o s s' a : claim_settled s -> authenticate_recovered_receipt_object o s = (s', Ok a) -> claim_settled s' /\ claim_released s s' [].
Proof.
  intros Hs. unfold authenticate_recovered_receipt_object. rewrite get_bind. destruct (_ || _) eqn:E; [done|].
  apply orb_false_iff in E as [Hg%bool_decide_eq_false Hph%negb_false_iff%bool_decide_eq_true].
  assert (cl_persistence_gate s = None) as Hg' by (destruct (cl_persistence_gate s); [by destruct Hg|done]).
  destruct Hs as [(Ht & _)|Hs]; [congruence|]. destruct (claim_ok_open _ Hs Hph Hg') as [Hc (e & ch & rl & He & Hch & Hrl & Hp) _ Hga].
  intros (s0 & ph & [_ ->]%lift_returns & Hf)%bind_returns. destruct (_ || _) in Hf; [done|].
  apply bind_returns in Hf as (s6 & au & (e0 & e' & He0 & Hau & ->)%on_part_ok & Hr). rewrite modify_bind in Hr. injection Hr as <- _.
  assert (e0 = e) as -> by congruence. destruct (authenticate_verifies _ _ _ _ Hau) as [b ->].
  eapply open_released; [|exact He|by eexists]. split; try done. eexists _, _, _. split_and!; [done..|]. by apply party_verifier.
Qed.
Lemma commit_ok r s s' es : commit_recovered_receipt r s = (s', Ok es) -> claim_answered s' es.
Proof.
  unfold commit_recovered_receipt. rewrite get_bind. destruct (_ || _); [done|]. intros (s0 & ph & [_ ->]%lift_returns & Hf)%bind_returns.
  destruct (_ || _) in Hf; [done|]. apply bind_returns in Hf as (s1 & ack & [Hack ->]%lift_returns & (s2 & u & _ & Hf)%bind_returns).
  rewrite !modify_bind in Hf. injection Hf as <- <-. apply ended_answered; [done|]. destruct (rr_peer_seq r); [|by injection Hack as <-].
  apply bind_ok in Hack as (eff & He%claimant_sends & [= <-]). by apply Forall_singleton.
Qed.

(** *** Calls, and what holds between them *)

Inductive claim_call : Type :=
| Claim_Receive (input : bytes) (now : Z)
| Claim_Authorise (verifier : O)
| Claim_Prepare (object : CredentialV2Object)
| Claim_Approve (object : CredentialV2Object) (key nonce : bytes) (now : Z)
| Claim_Payload (object : CredentialV2Object) (key nonce : bytes) (now : Z)
| Claim_Durable (input : bytes) (now : Z) (key nonce : bytes)
| Claim_Persisted (generation : Z)
| Claim_Recovered (input : bytes)
| Claim_Authenticate (object : CredentialV2Object)
| Claim_Commit (receipt : CredentialV2ClaimantRecoveredReceipt).
Definition claim_step (call : claim_call) : stM session CredentialV2Error (list CredentialV2ClaimantEffect) :=
  match call with
  | Claim_Receive input now => claimant_receive input now
  | Claim_Authorise verifier => _ ← authorise_authenticated_profile verifier; mret []
  | Claim_Prepare object => claimant_prepare_application_object object
  | Claim_Approve object key nonce now => prepare_final_approval object key nonce now
  | Claim_Payload object key nonce now => prepare_payload object key nonce now
  | Claim_Durable input now key nonce => receive_durable input now key nonce
  | Claim_Persisted generation => claimant_checkpoint_persisted generation
  | Claim_Recovered input => _ ← receive_recovered_receipt input; mret []
  | Claim_Authenticate object => _ ← authenticate_recovered_receipt_object object; mret []
  | Claim_Commit receipt => commit_recovered_receipt receipt
  end.
Definition claim_typed (call : claim_call) : Prop :=
  match call with
  | Claim_Prepare object => genuine object
  | Claim_Approve object _ nonce _ | Claim_Payload object _ nonce _ => genuine object /\ length nonce = 12%nat
  | Claim_Durable _ _ _ nonce => length nonce = 12%nat
  | _ => True
  end.
(** The sessions that calls lead to: calls that answer, and calls that refuse
    and leave the session as it was, or end it. *)
Inductive claim_reach s0 : session -> Prop :=
| claim_start : claim_reach s0 s0
| claim_next s call s' es : claim_reach s0 s -> claim_typed call -> claim_step call s = (s', Ok es) -> claim_reach s0 s'
| claim_refused s call s' err : claim_reach s0 s -> claim_typed call -> claim_step call s = (s', Err err) ->
    s' = s \/ claim_ended s' -> claim_reach s0 s'.

(** What a call answers while no gate is set. *)
Definition claim_answers call s s' (es : list CredentialV2ClaimantEffect) : Prop :=
  match call with
  | Claim_Approve o key _ _ => claim_stored key s' es /\ claimant_endpoint_phase s' = Ok Phase_FinalApproved /\ held o s s'
  | Claim_Payload o key _ _ => claim_stored key s' es /\ claimant_endpoint_phase s' = Ok Phase_PayloadSent /\ held o s s'
  | Claim_Durable input _ key _ => acknowledged input key s s' es
  | _ => claim_released s s' es
  end.
Definition claim_responds call s s' (r : credM (list CredentialV2ClaimantEffect)) : Prop :=
  match r with
  | Ok es => claim_answers call s s' es
  | Err _ => match call with Claim_Receive _ _ | Claim_Approve _ _ _ _ | Claim_Payload _ _ _ _ => s' = s \/ claim_ended s' | _ => True end
  | Panic => True
  end.

Lemma settled_established s : claim_settled s -> cl_phase s <> Claimant_Terminal -> claim_ok s.
Proof. by intros [(? & _)|]. Qed.

Lemma claim_gated_call g call s : claim_settled s -> cl_persistence_gate s = Some g ->
  claim_step call s = match call with
    | Claim_Persisted g' => if bool_decide (g' = g) then (set_cl_after_persist [] (set_cl_persistence_gate None s), Ok (cl_after_persist s))
                            else (s, Err CredentialV2Error_Counter)
    | _ => (s, Err CredentialV2Error_Phase)
    end.
Proof.
  intros Hs Hg. assert (claimant_gated s = true) as Hgd by (unfold claimant_gated; rewrite Hg; by apply bool_decide_eq_true).
  assert (cl_phase s = Claimant_Established) as Hph.
  { destruct Hs as [(_ & Hn & _)|[_ _ Hga]]; [congruence|]. rewrite Hg in Hga. apply Hga. }
  destruct call; cbn [claim_step].
  - unfold claimant_receive. by rewrite get_bind, Hgd.
  - unfold authorise_authenticated_profile, mbind, stM_bind, get. by rewrite Hph.
  - unfold claimant_prepare_application_object. by rewrite get_bind, Hgd.
  - unfold prepare_final_approval. by rewrite get_bind, Hgd.
  - unfold prepare_payload. by rewrite get_bind, Hgd.
  - unfold receive_durable. by rewrite get_bind, Hgd.
  - unfold claimant_checkpoint_persisted. rewrite get_bind, Hg. repeat case_bool_decide; naive_solver.
  - unfold receive_recovered_receipt, mbind, stM_bind, get. by rewrite Hgd.
  - unfold authenticate_recovered_receipt_object, mbind, stM_bind, get. by rewrite Hgd.
  - unfold commit_recovered_receipt. by rewrite get_bind, Hgd, orb_true_r.
Qed.
Lemma claim_ungated_persisted g s : cl_persistence_gate s = None -> claim_step (Claim_Persisted g) s = (s, Err CredentialV2Error_Counter).
Proof. intros Hg. cbn. unfold claimant_checkpoint_persisted. by rewrite get_bind, Hg. Qed.

Lemma established_only s : claim_settled s -> not_established s = false -> claim_ok s.
Proof.
  intros Hs Hn. apply settled_established; [done|]. unfold not_established in Hn. apply negb_false_iff, bool_decide_eq_true in Hn. congruence.
Qed.

(** The answer of a call without a gate. *)
Lemma claim_answer call s s' es : claim_settled s -> cl_persistence_gate s = None -> claim_typed call -> claim_step call s = (s', Ok es) ->
  claim_settled s' /\ claim_answers call s s' es.
Proof.
  intros Hs Hg Ht. destruct call as [input now|v|o|o key nonce now|o key nonce now|input now key nonce|g|input|o|rc]; cbn [claim_step claim_answers].
  - intros Hc%claimant_receive_ok; [|done]. by apply answered_released.
  - intros (s1 & [] & Ha & [= <- <-])%bind_returns. by apply (authorise_ok v).
  - intros Hc. by apply (claimant_prepare_ok o).
  - intros Hc. destruct Ht as [Ho Hn]. assert (claim_ok s) as Hk.
    { apply established_only; [done|]. unfold prepare_final_approval in Hc. rewrite get_bind in Hc. destruct (_ || _) eqn:E; [done|].
      by apply orb_false_iff in E as [[_ E]%orb_false_iff _]. }
    destruct (approve_ok _ _ _ _ _ _ _ Hk Hg Ho Hn Hc) as [Hk' Hst]. split; [by right|done].
  - intros Hc. destruct Ht as [Ho Hn]. assert (claim_ok s) as Hk.
    { apply established_only; [done|]. unfold prepare_payload in Hc. rewrite get_bind in Hc. destruct (_ || _) eqn:E; [done|].
      by apply orb_false_iff in E as [_ E]. }
    destruct (payload_ok _ _ _ _ _ _ _ Hk Hg Ho Hn Hc) as [Hk' Hst]. split; [by right|done].
  - intros Hc. assert (claim_ok s) as Hk.
    { apply established_only; [done|]. unfold receive_durable in Hc. rewrite get_bind in Hc. destruct (_ || _) eqn:E; [done|].
      by apply orb_false_iff in E as [[_ E]%orb_false_iff _]. }
    destruct (durable_ok _ _ _ _ _ _ _ Hk Hg Ht Hc) as [Hk' Hst]. split; [|done]. destruct Hk' as [->|?]; [done|by right].
  - fold (claim_step (Claim_Persisted g) s). rewrite (claim_ungated_persisted _ _ Hg). done.
  - intros (s1 & r & Ha & [= <- <-])%bind_returns. by eapply recovered_ok.
  - intros (s1 & r & Ha & [= <- <-])%bind_returns. by eapply authenticate_ok.
  - intros Hc%commit_ok. by apply answered_released.
Qed.

(** An error of a call that ends the session. *)
Lemma approve_err o key nonce now s s' err : prepare_final_approval o key nonce now s = (s', Err err) -> s' = s \/ claim_ended s'.
Proof.
  unfold prepare_final_approval. rewrite get_bind. destruct (_ || _); [intros [= <- _]; by left|]. intros ?%claimant_ending. by right.
Qed.
Lemma payload_err o key nonce now s s' err : prepare_payload o key nonce now s = (s', Err err) -> s' = s \/ claim_ended s'.
Proof.
  unfold prepare_payload. rewrite get_bind. destruct (_ || _); [intros [= <- _]; by left|]. rewrite lift_bind.
  destruct (claimant_endpoint_phase s); [|intros [= <- _]; by left|done]. destruct (_ || _); [intros [= <- _]; by left|].
  destruct (_ <=? _); [intros [= <- _]; by left|]. intros ?%claimant_ending. by right.
Qed.
Lemma claim_response call s s' r : claim_settled s -> cl_persistence_gate s = None -> claim_typed call -> claim_step call s = (s', r) ->
  claim_responds call s s' r.
Proof.
  intros Hs Hg Ht Hc. destruct r as [es|err|]; [by eapply claim_answer| |done]. destruct call; try done; cbn in Hc |- *.
  - by eapply claimant_receive_err.
  - by eapply approve_err.
  - by eapply payload_err.
Qed.

Lemma claim_opened s g : claim_settled s -> cl_persistence_gate s = Some g ->
  claim_ok (set_cl_after_persist [] (set_cl_persistence_gate None s)).
Proof. intros [(_ & Hn & _)|[Hc Hp _]] Hg; [congruence|]. by split. Qed.
Lemma claim_reopens s g : claim_settled s -> cl_persistence_gate s = Some g ->
  resume_cached_frame (set_cl_after_persist [] (set_cl_persistence_gate None s)) = Ok (cl_after_persist s).
Proof. intros [(_ & Hn & _)|[_ _ Hga]] Hg; [congruence|]. rewrite Hg in Hga. by destruct Hga. Qed.

Lemma claim_reach_settled s0 s : claim_settled s0 -> claim_reach s0 s -> claim_settled s.
Proof.
  intros H0'. induction 1 as [|s call s' es _ IH Ht Hc|s call s' err _ IH Ht Hc He]; [done| |].
  - destruct (cl_persistence_gate s) as [g|] eqn:Hg; [|by eapply claim_answer].
    rewrite (claim_gated_call _ _ _ IH Hg) in Hc. destruct call; try done. case_bool_decide; [|done]. injection Hc as <- _.
    right. by eapply claim_opened.
  - destruct He as [->|?]; [done|by left].
Qed.

Lemma claim_new_settled i v s : CredentialV2ClaimantSession_new i v = Ok s -> carrier_typed (ci_carrier i) -> claim_settled s.
Proof. unfold CredentialV2ClaimantSession_new. intros (u & _ & [= <-])%bind_ok Hc. right. by split. Qed.
End Claimant.
