(* ===== verification/CredSessionProps.v ===== *)
(** * Properties of the sessions of credential/v2 *)

From S2P Require Import Prelude External Instances Wire Cddl WireCodec Context Channel CurveExternal Cpace CpaceProps Profile CbclDemo CredCore CredFrame CredDisplay CredCarrier CredContext CredPresence CredHandoff CredProps CredChannel CredEndpoint CredStory CredCeremony CredEndpointProps CredBytes CredCheckpoint CredCheckpointThms CredCheckpointProps CredBootstrap CredBootstrapThms CredAllocator CredClaimant CredSessionThms.

(** C7. The allocator writes ahead.  In every run of a new session, whatever its
    relay and its shell do, a call that would change what the allocator must
    remember answers with one checkpoint alone; what it would send or report
    waits behind a gate that only the confirmation of that generation opens, and
    every other call is refused meanwhile without effect.  The checkpoint
    restores, under the carrier it comes with and until that expires, to a
    session that shows the same: every frame that waited is sent again on
    reopening, and the transcript hash and the object that were to be reported
    are there.  A call that answers without a checkpoint leaves the durable
    state as it was, and an error ends the session.  Runs that go on from a
    restored session are not among these: a second restart can lose what waited
    (C22). *)
Theorem v2_allocator_write_ahead `{CredentialV2BodyVerifier B, Cbor, !CborLaws, !CborIntLaws, Cddl, !CddlLaws, UrlParser, Sha256, !Sha256Laws}
    `{Sha512, HkdfSha512, HmacSha512, !ScheduleLaws, Fiat25519, X25519, !X25519Laws, HkdfSalted, !HkdfSaltedLaws, Aead, !AeadLaws}
    input (verifier : B) s0 s call s' r :
  CredentialV2AllocatorSession_new input verifier = Ok s0 -> input_typed input -> alloc_reach s0 s -> call_typed call ->
  alloc_step call s = (s', r) -> r <> Panic ->
  match al_persistence_gate s, call with
  | None, Call_Persisted _ => r = Err CredentialV2Error_Counter /\ s' = s
  | None, _ => responds s s' r
  | Some g, Call_Persisted g' =>
      if bool_decide (g' = g)
      then r = Ok (al_after_persist s) /\ Forall (covered s') (al_after_persist s) /\ al_state s' = al_state s /\
           al_persistence_gate s' = None /\ al_after_persist s' = []
      else r = Err CredentialV2Error_Counter /\ s' = s
  | Some g, _ => r = Err CredentialV2Error_Phase /\ s' = s
  end.
Proof.
  intros Hnew Hi Hreach Ht Hstep Hr. pose proof (reach_settled _ _ (new_settled _ _ _ Hnew Hi) Hreach) as Hs.
  destruct (al_persistence_gate s) as [g|] eqn:Hg.
  - rewrite (gated_call _ _ _ Hg) in Hstep. destruct call as [? ? ?|? ? ?|g']; try (injection Hstep as <- <-; by split).
    case_bool_decide; injection Hstep as <- <-; [|by split]. split_and!; try done. destruct Hs as [[_ ->]|[_ Hc]]; [done|].
    eapply Forall_impl; [exact Hc|]. intros eff. by destruct eff.
  - destruct call as [input' now nonce|o now nonce|g'].
    + by eapply receive_settled.
    + destruct Ht. by eapply prepare_settled.
    + rewrite (ungated_persisted _ _ Hg) in Hstep. by injection Hstep as <- <-.
Qed.

(** C8. The claimant writes ahead of its decisions.  Whatever its relay and its
    shell do: a final approval or a payload that succeeds answers with one
    checkpoint alone, in the phase of that decision, and holds back exactly one
    message, the frame sealed for the object given; an acknowledgement received
    after them that was not applied before answers with one checkpoint alone, in
    the same phase, and holds back nothing.  What is held back waits behind a
    gate that only the confirmation of that generation opens, and every other
    call is refused meanwhile without effect.  The checkpoint restores, under
    the carrier and, before the payload, until that expires, to a session of the
    same phase, channel and membership that sends exactly the held frame again;
    the confirmation releases the same frame.  No other call stores anything, or
    enters one of the phases in which a session must remember, and one that
    stays in such a phase sends nothing; a failed receipt, approval or payload
    leaves the session as it was or ends it.  The runs start from a new session
    and are those in which a call that fails is the last, or has such an effect. *)
Theorem v2_claimant_write_ahead `{CredentialV2BodyVerifier B, CredentialV2ClaimantOfferVerifier V B, Cbor, !CborLaws, !CborIntLaws, Cddl, !CddlLaws}
    `{UrlParser, Sha256, !Sha256Laws, Sha512, HkdfSha512, HmacSha512, !ScheduleLaws, Fiat25519, X25519, !X25519Laws, HkdfSalted, !HkdfSaltedLaws}
    `{Aead, !AeadLaws, !OfferVerifierLaws V B} input (verifier : B) (s0 : CredentialV2ClaimantSession V B) s call s' r :
  CredentialV2ClaimantSession_new input verifier = Ok s0 -> carrier_typed (ci_carrier input) -> claim_reach s0 s -> claim_typed call ->
  claim_step call s = (s', r) ->
  match cl_persistence_gate s, call with
  | None, Claim_Persisted _ => r = Err CredentialV2Error_Counter /\ s' = s
  | None, _ => claim_responds call s s' r
  | Some g, Claim_Persisted g' =>
      if bool_decide (g' = g)
      then r = Ok (cl_after_persist s) /\ resume_cached_frame s' = r /\ cl_persistence_gate s' = None /\ cl_after_persist s' = []
      else r = Err CredentialV2Error_Counter /\ s' = s
  | Some g, _ => r = Err CredentialV2Error_Phase /\ s' = s
  end.
Proof.
  intros Hnew Hi Hreach Ht Hstep. pose proof (claim_reach_settled _ _ (claim_new_settled _ _ _ Hnew Hi) Hreach) as Hs.
  destruct (cl_persistence_gate s) as [g|] eqn:Hg.
  - rewrite (claim_gated_call _ _ _ Hs Hg) in Hstep. destruct call as [| | | | | |g'| | |]; try (injection Hstep as <- <-; by split).
    case_bool_decide; injection Hstep as <- <-; [|by split]. split_and!; try done. by apply (claim_reopens _ g).
  - destruct call as [| | | | | |g'| | |]; try by eapply claim_response.
    rewrite (claim_ungated_persisted _ _ Hg) in Hstep. by injection Hstep as <- <-.
Qed.

(** ** A concrete allocation *)

#[local] Existing Instances schema_validator schema_validator_laws carrier_origins demo_bodies demo_parser demo_verifier.

Definition alloc_input : CredentialV2AllocatorSessionInput :=
  mkCredentialV2AllocatorSessionInput AllocatorMode_Full (ca_application_context demo_carrier) (ca_relay_origin demo_carrier)
    (replicate 32 7) (replicate 32 8) (replicate 32 9) demo_secret demo_token (chosen_scalar 7) (replicate 32 1)
    (Some (replicate 32 5)) wrapping.
Definition said (m : ServerMessage) (now : Z) (nonce : bytes) : alloc_call := Call_Receive (octets_of (encode_server_message m)) now nonce.
Definition alloc_calls : list alloc_call :=
  [said ServerMessage_Welcome 5 first_nonce; said (ServerMessage_AllocatedV2 (replicate 32 7) (replicate 32 3) 1000) 5 first_nonce;
   Call_Persisted 1].
(** The claimant's share arrives. *)
Definition share_call : alloc_call := said (ServerMessage_Frame 0 (octets_of (encode_frame demo_peer))) 6 second_nonce.

(** A run without panics. *)
Definition alloc_run (calls : list alloc_call) (s : credM (CredentialV2AllocatorSession nat)) : credM (CredentialV2AllocatorSession nat) :=
  fold_left (fun s call => s ≫= fun s => match alloc_step call s with (_, Panic) => Panic | (s', _) => Ok s' end) calls s.
Lemma run_reach calls s0 s1 s : alloc_reach s0 s1 -> alloc_run calls (Ok s1) = Ok s -> Forall call_typed calls -> alloc_reach s0 s.
Proof.
  intros Hr Hrun Hty. revert s1 Hr Hrun. induction Hty as [|call calls Hc _ IH]; intros s1 Hr Hrun; [by injection Hrun as <-|].
  unfold alloc_run in Hrun. cbn [fold_left] in Hrun. rewrite ok_bind in Hrun.
  assert (forall e : credM (CredentialV2AllocatorSession nat), e <> Panic \/ alloc_run calls e = Panic) as Hp.
  { intros [|e|]; [by left..|right]. clear. by induction calls. }
  destruct (alloc_step call s1) as [s2 r] eqn:Hs.
  destruct r; [eapply IH; [by eapply reach_call|exact Hrun]..|]. destruct (Hp Panic) as [Hq|Hq]; [done|]. unfold alloc_run in Hq. congruence.
Qed.

Lemma share_checkpointed : match CredentialV2AllocatorSession_new alloc_input 0%nat with
  | Ok s0 => match alloc_run alloc_calls (Ok s0) with
             | Ok s => bool_decide (al_persistence_gate s = None) &&
                       match alloc_step share_call s with (s', Ok es) => bool_decide (al_persistence_gate s' = Some 2) | _ => false end
             | _ => false end
  | _ => false end = true.
Proof. vm_cast_no_check (eq_refl true). Qed.
Lemma share_run : exists s0 s s' es, CredentialV2AllocatorSession_new alloc_input 0%nat = Ok s0 /\ alloc_reach s0 s /\
  al_persistence_gate s = None /\ alloc_step share_call s = (s', Ok es) /\ al_persistence_gate s' = Some 2.
Proof.
  pose proof share_checkpointed as Ha. destruct (CredentialV2AllocatorSession_new alloc_input 0%nat) as [s0| |]; [|discriminate Ha..].
  revert Ha. assert (Forall call_typed alloc_calls) as Hty by by repeat constructor. revert Hty. generalize alloc_calls share_call.
  intros calls call Hty Ha. destruct (alloc_run calls (Ok s0)) as [s| |] eqn:Hr; [|discriminate Ha..].
  destruct (alloc_step call s) as [s' [es| |]] eqn:Hs; [|by rewrite andb_false_r in Ha..].
  apply andb_true_iff in Ha as [Hg%bool_decide_eq_true Hg'%bool_decide_eq_true]. exists s0, s, s', es.
  split_and!; [done| |done|done|done]. eapply run_reach; [apply reach_start|exact Hr|exact Hty].
Qed.

Lemma v2_allocator_write_ahead_witness : exists s0 s s' es, CredentialV2AllocatorSession_new alloc_input 0%nat = Ok s0 /\ alloc_reach s0 s /\
  alloc_step share_call s = (s', Ok es) /\ stored s' es /\ Forall (covered s') (al_after_persist s').
Proof.
  destruct share_run as (s0 & s & s' & es & Hnew & Hr & Hg & Hs & Hg'). exists s0, s, s', es.
  split; [exact Hnew|]. split; [exact Hr|]. split; [exact Hs|].
  pose proof (v2_allocator_write_ahead alloc_input 0%nat s0 s share_call s' (Ok es) Hnew ltac:(split; reflexivity) Hr eq_refl Hs ltac:(discriminate)) as Hw.
  rewrite Hg in Hw. destruct Hw as [[Hn _]|Hw]; [congruence|exact Hw].
Defined.

(** ** A concrete meeting

    The allocator of the allocation above and a claimant of its carrier, with a
    relay that answers, forwards and acknowledges in order, up to the claimant's
    final approval. *)

#[local] Instance demo_offers : CredentialV2ClaimantOfferVerifier (nat * nat) nat := fun o now x =>
  let '((e, pv), r) := receive_offer (P := nat) (V := nat) o demo_authority (x.2, x.1) in ((pv, e), r).
#[local] Instance demo_offers_laws : OfferVerifierLaws (nat * nat) nat.
Proof.
  intros o now v e v' e' r Hv. exists nat, nat, _, _, demo_authority, v, v'. unfold verify_offer, demo_offers in Hv. cbn [fst snd] in Hv.
  destruct (receive_offer o demo_authority (e, v)) as [[e1 pv1] r1]. by injection Hv as <- <- <-.
Qed.

Record meeting := mkMeeting {
  mt_allocator : CredentialV2AllocatorSession nat;
  mt_claimant : CredentialV2ClaimantSession (nat * nat) nat;
  mt_waiting : list (Side * ServerMessage);
  mt_turns : Z
}.
(** A nonce for each turn. *)
Definition turn_nonce (m : meeting) : bytes := replicate 12 (mt_turns m).
(** What the relay answers a message of one side. *)
Definition relayed (side : Side) (octets : bytes) : list (Side * ServerMessage) :=
  match decode_client_message octets with
  | Ok (ClientMessage_AllocateV2 _ _ _) => [(side, ServerMessage_AllocatedV2 (replicate 32 7) (replicate 32 3) 1000)]
  | Ok (ClientMessage_ClaimV2 _ _) => [(side, ServerMessage_ClaimedV2 (replicate 32 7) (replicate 32 4) 1000)]
  | Ok (ClientMessage_Put n body) => [(opposite side, ServerMessage_Frame n body)]
  | Ok (ClientMessage_Ack n) => [(opposite side, ServerMessage_Acknowledged n)]
  | _ => []
  end.
Definition allocator_sent (es : list CredentialV2AllocatorEffect) : list (Side * ServerMessage) :=
  es ≫= fun eff => match eff with AllocatorEffect_Send octets => relayed Side_Allocator octets | _ => [] end.
Definition claimant_sent (es : list CredentialV2ClaimantEffect) : list (Side * ServerMessage) :=
  es ≫= fun eff => match eff with ClaimantEffect_Send octets => relayed Side_Claimant octets | _ => [] end.
(** A call of the allocator, whose checkpoint is confirmed at once. *)
Definition allocator_turn (call : alloc_call) (m : meeting) : meeting :=
  let again es s := mkMeeting s (mt_claimant m) (mt_waiting m ++ allocator_sent es) (mt_turns m + 1) in
  match alloc_step call (mt_allocator m) with
  | (s, Ok [AllocatorEffect_Checkpoint g _ _]) => match alloc_step (Call_Persisted g) s with (s, Ok es) => again es s | _ => m end
  | (s, Ok es) => again es s
  | _ => m
  end.
Definition claimant_turn (call : claim_call) (m : meeting) : meeting :=
  match claim_step call (mt_claimant m) with
  | (s, Ok es) => mkMeeting (mt_allocator m) s (mt_waiting m ++ claimant_sent es) (mt_turns m + 1)
  | _ => m
  end.
Definition deliver (m : meeting) : meeting :=
  match mt_waiting m with
  | [] => m
  | (side, msg) :: rest =>
      let m := mkMeeting (mt_allocator m) (mt_claimant m) rest (mt_turns m) in
      match side with
      | Side_Allocator => allocator_turn (said msg 5 (turn_nonce m)) m
      | Side_Claimant => claimant_turn (Claim_Receive (octets_of (encode_server_message msg)) 5) m
      end
  end.
Definition settle (m : meeting) : meeting := Nat.iter 16 deliver m.
Definition connects (side : Side) (m : meeting) : meeting :=
  mkMeeting (mt_allocator m) (mt_claimant m) (mt_waiting m ++ [(side, ServerMessage_Welcome)]) (mt_turns m).

Definition to_approval (o1 o2 o3 o4 : CredentialV2Object) (m : meeting) : meeting :=
  let m := settle (connects Side_Claimant (settle (connects Side_Allocator m))) in
  let m := settle (allocator_turn (Call_Prepare o1 6 (turn_nonce m)) (claimant_turn (Claim_Authorise (0%nat, 0%nat)) m)) in
  let m := settle (claimant_turn (Claim_Prepare o3) (settle (claimant_turn (Claim_Prepare o2) m))) in
  settle (allocator_turn (Call_Prepare o4 6 (turn_nonce m)) m).
Definition claim_input : CredentialV2ClaimantSessionInput :=
  mkCredentialV2ClaimantSessionInput demo_carrier demo_presence (chosen_scalar 9) (replicate 32 1).
Definition approve_call : claim_call (O := nat * nat) := Claim_Approve object_5 wrapping second_nonce 6.

Lemma allocator_turn_claimant call m : mt_claimant (allocator_turn call m) = mt_claimant m.
Proof.
  unfold allocator_turn. cbv zeta. destruct (alloc_step call _) as [s [es|err|]]; [|reflexivity..].
  destruct es as [|eff [|]]; [reflexivity| |by destruct eff]. destruct eff; try reflexivity. by destruct (alloc_step _ s) as [s' [es|err|]].
Qed.
Lemma claimant_turn_reach s0 call m : claim_reach s0 (mt_claimant m) -> claim_typed call -> claim_reach s0 (mt_claimant (claimant_turn call m)).
Proof.
  intros Hr Ht. unfold claimant_turn. destruct (claim_step call (mt_claimant m)) as [s [es|err|]] eqn:Hs; [|exact Hr..]. eapply claim_next; [exact Hr|exact Ht|exact Hs].
Qed.
Lemma settle_reach s0 m : claim_reach s0 (mt_claimant m) -> claim_reach s0 (mt_claimant (settle m)).
Proof.
  unfold settle. generalize 16%nat. intros n. induction n as [|n IH]; intros Hr; [done|].
  change (Nat.iter (S n) deliver m) with (deliver (Nat.iter n deliver m)). specialize (IH Hr). revert IH. generalize (Nat.iter n deliver m).
  intros m' Hr'. unfold deliver. destruct (mt_waiting m') as [|[side msg] rest]; [done|]. destruct side; [by rewrite allocator_turn_claimant|].
  by apply claimant_turn_reach.
Qed.
Lemma connects_claimant side m : mt_claimant (connects side m) = mt_claimant m.
Proof. done. Qed.
Lemma to_approval_reach s0 o1 o2 o3 o4 m : claim_reach s0 (mt_claimant m) -> genuine o2 -> genuine o3 ->
  claim_reach s0 (mt_claimant (to_approval o1 o2 o3 o4 m)).
Proof.
  intros Hr G2 G3. unfold to_approval. cbv zeta. apply settle_reach. rewrite allocator_turn_claimant.
  apply settle_reach, claimant_turn_reach; [|exact G3]. apply settle_reach, claimant_turn_reach; [|exact G2]. apply settle_reach.
  rewrite allocator_turn_claimant. apply claimant_turn_reach; [|exact I]. apply settle_reach. rewrite connects_claimant. apply settle_reach.
  rewrite connects_claimant. exact Hr.
Qed.

(** A meeting after which a claimant's call seals its first checkpoint. *)
Definition seals_first (allocator : credM (CredentialV2AllocatorSession nat)) (claimant : credM (CredentialV2ClaimantSession (nat * nat) nat))
    (plan : meeting -> meeting) (call : claim_call) : bool :=
  match allocator, claimant with
  | Ok a, Ok c =>
      let s := mt_claimant (plan (mkMeeting a c [] 10)) in
      bool_decide (cl_persistence_gate s = None) &&
      match claim_step call s with
      | (s', Ok _) => bool_decide (cl_persistence_gate s' = Some 1) && bool_decide (length (cl_after_persist s') = 1%nat)
      | _ => false
      end
  | _, _ => false
  end.
Lemma seals_first_run allocator claimant plan call : seals_first allocator claimant plan call = true ->
  (forall s0 m, claim_reach s0 (mt_claimant m) -> claim_reach s0 (mt_claimant (plan m))) ->
  exists s0 s s' es, claimant = Ok s0 /\ claim_reach s0 s /\ cl_persistence_gate s = None /\ claim_step call s = (s', Ok es) /\
    cl_persistence_gate s' = Some 1 /\ length (cl_after_persist s') = 1%nat.
Proof.
  unfold seals_first. intros Ha Hr. destruct allocator as [a0| |]; [|discriminate Ha..]. destruct claimant as [s0| |]; [|discriminate Ha..].
  cbv zeta in Ha. specialize (Hr s0 (mkMeeting a0 s0 [] 10) (claim_start s0)). revert Ha Hr. generalize (plan (mkMeeting a0 s0 [] 10)). intros m Ha Hr.
  apply andb_true_iff in Ha as [Hgt%bool_decide_eq_true Ha]. destruct (claim_step call (mt_claimant m)) as [s' [es| |]] eqn:Hs; [|discriminate Ha..].
  apply andb_true_iff in Ha as [Hg'%bool_decide_eq_true Hl%bool_decide_eq_true]. exists s0, (mt_claimant m), s', es.
  split_and!; [reflexivity|exact Hr|exact Hgt|exact Hs|exact Hg'|exact Hl].
Qed.
Lemma approval_checkpointed : seals_first (CredentialV2AllocatorSession_new alloc_input 0%nat) (CredentialV2ClaimantSession_new claim_input 0%nat)
  (to_approval object_1 object_2 object_3 object_4) approve_call = true.
Proof. vm_cast_no_check (eq_refl true). Qed.
Lemma approve_typed o : genuine o -> claim_typed (O := nat * nat) (Claim_Approve o wrapping second_nonce 6).
Proof. intros Ho. split; [exact Ho|reflexivity]. Qed.
Lemma script_genuine : genuine object_2 /\ genuine object_3 /\ genuine object_5.
Proof.
  pose proof demo_genuine_all as Hg. unfold demo_script in Hg. revert Hg. generalize object_1 object_2 object_3 object_4 object_5 object_6 object_7.
  intros o1 o2 o3 o4 o5 o6 o7 Hg. rewrite !Forall_cons in Hg. naive_solver.
Qed.
Lemma approval_run : exists s0 s s' es, CredentialV2ClaimantSession_new claim_input 0%nat = Ok s0 /\ claim_reach s0 s /\
  cl_persistence_gate s = None /\ claim_step approve_call s = (s', Ok es) /\ cl_persistence_gate s' = Some 1 /\
  length (cl_after_persist s') = 1%nat.
Proof.
  destruct script_genuine as (G2 & G3 & _). apply (seals_first_run _ _ _ _ approval_checkpointed). intros s0 m Hr.
  exact (to_approval_reach _ _ _ _ _ _ Hr G2 G3).
Qed.

Lemma v2_claimant_write_ahead_witness : exists s0 s s' es key, CredentialV2ClaimantSession_new claim_input 0%nat = Ok s0 /\ claim_reach s0 s /\
  claim_step approve_call s = (s', Ok es) /\ claim_stored key s' es /\ held object_5 s s'.
Proof.
  destruct approval_run as (s0 & s & s' & es & Hnew & Hr & Hg & Hs & _). exists s0, s, s', es, wrapping.
  split; [exact Hnew|]. split; [exact Hr|]. split; [exact Hs|].
  pose proof (v2_claimant_write_ahead claim_input 0%nat s0 s approve_call s' (Ok es) Hnew (proj1 demo_stored) Hr (approve_typed _ (proj2 (proj2 script_genuine))) Hs) as Hw.
  rewrite Hg in Hw. destruct Hw as (Hst & _ & Hh). split; [exact Hst|exact Hh].
Defined.
