(* ===== verification/RelayShell.v ===== *)
(** * The relay's executables ([src/bin/cbcl-pairing-relay.rs], [cbcl-pairing-relay-ws.rs])

    Both programs around the relay: command line, operator key, start-up, and
    the threads that serve connections, over length-delimited TCP or over
    binary WebSocket messages.  A connection is what its peer will send; a
    thread takes the service's lock for one turn and hands the messages of that
    turn out one by one, so turns and writes of different threads interleave as
    the locks allow. *)

From S2P Require Import Prelude External Wire Cddl WireCodec Channel Limiter Observability Storage Relay CredBytes.

Definition MAX_WIRE_MESSAGE : Z := 70000.
Definition DEFAULT_LIMIT : Z := 240.
Definition DEFAULT_WINDOW_SECONDS : Z := 60.
Definition DEFAULT_LIMITER_CAP : Z := 100000.
Definition DEFAULT_MAILBOX_CAP : Z := 10000.
Definition DEFAULT_QUEUE_CAP : Z := 512 * 1024 * 1024.

(** ** The command line *)

(** [SocketAddr::from_str]. *)
Class AddressParser (Addr : Type) := parse_address : string -> option Addr.

Section CommandLine.
Context {Addr : Type} `{AddressParser Addr}.

Record Args := mkArgs {
  ar_listen : Addr;
  ar_operator_key_file : string;
  ar_conformance_allocation : bool;
  ar_check_config : bool;
  ar_store_dir : option string;
  ar_emergency_close : bool
}.

(** The locals of [parse_args]. *)
Record ParsedArgs := mkParsedArgs {
  pa_listen : option Addr;
  pa_operator_key_file : option string;
  pa_conformance_allocation : bool;
  pa_check_config : bool;
  pa_store_dir : option string;
  pa_emergency_close : bool
}.
Definition no_args : ParsedArgs := mkParsedArgs None None false false None false.
Definition set_pa_listen a p :=
  mkParsedArgs (Some a) (pa_operator_key_file p) (pa_conformance_allocation p) (pa_check_config p) (pa_store_dir p) (pa_emergency_close p).
Definition set_pa_operator_key_file f p :=
  mkParsedArgs (pa_listen p) (Some f) (pa_conformance_allocation p) (pa_check_config p) (pa_store_dir p) (pa_emergency_close p).
Definition set_pa_conformance p :=
  mkParsedArgs (pa_listen p) (pa_operator_key_file p) true (pa_check_config p) (pa_store_dir p) (pa_emergency_close p).
Definition set_pa_check_config p :=
  mkParsedArgs (pa_listen p) (pa_operator_key_file p) (pa_conformance_allocation p) true (pa_store_dir p) (pa_emergency_close p).
Definition set_pa_store_dir d p :=
  mkParsedArgs (pa_listen p) (pa_operator_key_file p) (pa_conformance_allocation p) (pa_check_config p) (Some d) (pa_emergency_close p).
Definition set_pa_emergency_close p :=
  mkParsedArgs (pa_listen p) (pa_operator_key_file p) (pa_conformance_allocation p) (pa_check_config p) (pa_store_dir p) true.

(** [while let Some(argument) = args.next()]. *)
Fixpoint parse_loop (usage : string) (args : list string) (p : ParsedArgs) : outcome string ParsedArgs :=
  match args with
  | [] => Ok p
  | argument :: args =>
      if bool_decide (argument = "--listen") then
        match args with
        | [] => Err "--listen requires an address"
        | value :: args =>
            match parse_address value with
            | None => Err "invalid --listen address"
            | Some address => parse_loop usage args (set_pa_listen address p)
            end
        end
      else if bool_decide (argument = "--operator-key-file") then
        match args with
        | [] => Err "--operator-key-file requires a path"
        | value :: args => parse_loop usage args (set_pa_operator_key_file value p)
        end
      else if bool_decide (argument = "--enable-conformance-allocation") then parse_loop usage args (set_pa_conformance p)
      else if bool_decide (argument = "--check-config") then parse_loop usage args (set_pa_check_config p)
      else if bool_decide (argument = "--store-dir") then
        match args with
        | [] => Err "--store-dir requires a path"
        | value :: args => parse_loop usage args (set_pa_store_dir value p)
        end
      else if bool_decide (argument = "--emergency-close") then parse_loop usage args (set_pa_emergency_close p)
      else if bool_decide (argument = "--help") || bool_decide (argument = "-h") then Err usage
      else Err ("unknown argument: " ++ argument)%string
  end.

Definition parse_args_with (usage : string) (args : list string) : outcome string Args :=
  p ← parse_loop usage args no_args;
  listen ← ok_or (pa_listen p) "missing --listen";
  operator_key_file ← ok_or (pa_operator_key_file p) "missing --operator-key-file";
  Ok (mkArgs listen operator_key_file (pa_conformance_allocation p) (pa_check_config p) (pa_store_dir p) (pa_emergency_close p)).

Definition parse_args : list string -> outcome string Args :=
  parse_args_with "usage: cbcl-pairing-relay --listen ADDR --operator-key-file PATH [--store-dir DIR] [--enable-conformance-allocation] [--check-config] [--emergency-close]".
Definition ws_parse_args : list string -> outcome string Args :=
  parse_args_with "usage: cbcl-pairing-relay-ws --listen ADDR --operator-key-file PATH [--store-dir DIR] [--enable-conformance-allocation] [--check-config] [--emergency-close]".
End CommandLine.

(** ** The operator's key *)

(** [str::from_utf8]. *)
Definition continuation (x : Z) : bool := (128 <=? x) && (x <=? 191).
Fixpoint utf8_valid (b : bytes) : bool :=
  match b with
  | [] => true
  | x :: b =>
      if x <? 128 then utf8_valid b
      else if (194 <=? x) && (x <=? 223) then
        match b with y :: b => continuation y && utf8_valid b | _ => false end
      else if (224 <=? x) && (x <=? 239) then
        match b with
        | y :: z :: b =>
            (if x =? 224 then (160 <=? y) && (y <=? 191) else if x =? 237 then (128 <=? y) && (y <=? 159) else continuation y) &&
            continuation z && utf8_valid b
        | _ => false
        end
      else if (240 <=? x) && (x <=? 244) then
        match b with
        | y :: z :: w :: b =>
            (if x =? 240 then (144 <=? y) && (y <=? 191) else if x =? 244 then (128 <=? y) && (y <=? 143) else continuation y) &&
            continuation z && continuation w && utf8_valid b
        | _ => false
        end
      else false
  end.

(** [trim_end_matches(['\r', '\n'])]. *)
Definition line_end (x : Z) : bool := (x =? 13) || (x =? 10).
Fixpoint drop_while (f : Z -> bool) (b : bytes) : bytes :=
  match b with x :: rest => if f x then drop_while f rest else b | [] => [] end.
Definition trim_line_ends (b : bytes) : bytes := reverse (drop_while line_end (reverse b)).

Definition is_ascii_hexdigit (x : Z) : bool :=
  ((48 <=? x) && (x <=? 57)) || ((97 <=? x) && (x <=? 102)) || ((65 <=? x) && (x <=? 70)).

Definition hex_nibble (value : Z) : outcome string Z :=
  if (48 <=? value) && (value <=? 57) then Ok (value - 48)
  else if (97 <=? value) && (value <=? 102) then Ok (value - 97 + 10)
  else Err "operator key hex must be lowercase".

(** The loop over [chunks_exact(2)]. *)
Fixpoint key_octets (text : bytes) : outcome string bytes :=
  match text with
  | high :: low :: text =>
      h ← hex_nibble high;
      l ← hex_nibble low;
      rest ← key_octets text;
      Ok (Z.lor (Z.shiftl h 4 mod 256) l :: rest)
  | _ => Ok []
  end.

(** The file's permission bits and contents, each with the error of its call. *)
Definition read_operator_key (mode : outcome string Z) (contents : outcome string bytes) : outcome string bytes :=
  mode ← map_err (fun error => ("operator key: " ++ error)%string) mode;
  if negb (Z.land mode 63 =? 0) then Err "operator key file must not be accessible by group or others"
  else
    octets ← map_err (fun error => ("operator key: " ++ error)%string) contents;
    if blen octets =? 32 then Ok octets
    else if negb (utf8_valid octets) then Err "operator key must be raw 32 octets or lowercase hex"
    else
      let text := trim_line_ends octets in
      if negb (blen text =? 64) || negb (forallb is_ascii_hexdigit text)
      then Err "operator key must be raw 32 octets or 64 hex digits"
      else key_octets text.
(** The WebSocket program leaves the digits to [hex_nibble]. *)
Definition ws_read_operator_key (mode : outcome string Z) (contents : outcome string bytes) : outcome string bytes :=
  mode ← map_err (fun error => ("operator key: " ++ error)%string) mode;
  if negb (Z.land mode 63 =? 0) then Err "operator key file must not be accessible by group or others"
  else
    octets ← map_err (fun error => ("operator key: " ++ error)%string) contents;
    if blen octets =? 32 then Ok octets
    else if negb (utf8_valid octets) then Err "operator key must be raw 32 octets or lowercase hex"
    else
      let text := trim_line_ends octets in
      if negb (blen text =? 64) then Err "operator key must be raw 32 octets or 64 hex digits"
      else key_octets text.

(** ** Start-up *)

Definition relay_error_text (e : RelayError) : string :=
  match e with
  | RelayError_InvalidConfiguration => "InvalidConfiguration"
  | RelayError_Limiter => "Limiter"
  | RelayError_Storage => "Storage"
  end.
Definition store_error_text (e : StoreError) : string :=
  match e with StoreError_Io => "Io" | StoreError_Malformed => "Malformed" | StoreError_Conflict => "Conflict" end.

(** [Box<dyn MailboxStore>]. *)
Inductive BoxedStore : Type := Boxed_File (store : FileMailboxStore) | Boxed_Memory (store : MemoryMailboxStore).

Section Startup.
Context `{Sha256, Cbor, HmacSha256} {Addr : Type}.

Definition boxed {A} (file : stM FileMailboxStore StoreError A) (memory : stM MemoryMailboxStore StoreError A) : stM BoxedStore StoreError A :=
  fun store =>
    match store with
    | Boxed_File store => let '(store, r) := file store in (Boxed_File store, r)
    | Boxed_Memory store => let '(store, r) := memory store in (Boxed_Memory store, r)
    end.
#[export] Instance boxed_store : MailboxStore BoxedStore := {|
  store_load := boxed store_load store_load;
  store_put mailbox := boxed (store_put mailbox) (store_put mailbox);
  store_remove mailbox_id := boxed (store_remove mailbox_id) (store_remove mailbox_id)
|}.

Definition relay_config (operator_key : bytes) (args : Args (Addr := Addr)) : RelayConfig :=
  mkRelayConfig operator_key
    (LimiterConfig_new (mkOperationPolicy DEFAULT_LIMIT DEFAULT_WINDOW_SECONDS) DEFAULT_LIMITER_CAP 30)
    (mkCapacityCaps DEFAULT_MAILBOX_CAP DEFAULT_QUEUE_CAP DEFAULT_LIMITER_CAP)
    (ar_conformance_allocation args).

(** The service over the store that the arguments name; [files] is what the
    file system has at a path. *)
Definition started (config : RelayConfig) (store_dir : option string) (files : string -> FileMailboxStore) :
    outcome string (RelayService BoxedStore) :=
  match store_dir with
  | Some directory =>
      match file_open (files directory) with
      | (store, Ok tt) => map_err relay_error_text (with_store config (Boxed_File store))
      | (_, Err error) => Err (store_error_text error)
      | (_, Panic) => Panic
      end
  | None => map_err relay_error_text (with_store config (Boxed_Memory (mkMemoryMailboxStore ∅)))
  end.

Inductive Startup : Type :=
| Startup_EmergencyClosed (service : RelayService BoxedStore)
| Startup_ConfigOk
| Startup_Serving (listen : Addr) (service : RelayService BoxedStore).

(** [run] up to the listener. *)
Definition run_with (parsed : outcome string Args) (operator_key : string -> outcome string bytes)
    (files : string -> FileMailboxStore) (now : Z) : outcome string Startup :=
  args ← parsed;
  key ← operator_key (ar_operator_key_file args);
  service ← started (relay_config key args) (ar_store_dir args) files;
  if ar_emergency_close args then
    if bool_decide (ar_store_dir args = None) then Err "--emergency-close requires --store-dir"
    else
      match emergency_close now service with
      | (service, Ok _) => Ok (Startup_EmergencyClosed service)
      | (_, Err error) => Err (relay_error_text error)
      | (_, Panic) => Panic
      end
  else if ar_check_config args then Ok Startup_ConfigOk
  else Ok (Startup_Serving (ar_listen args) service).

Context `{AddressParser Addr}.
(** The files' permissions and contents, as the operating system gives them. *)
Definition relay_run (args : list string) (mode : string -> outcome string Z) (contents : string -> outcome string bytes)
    (files : string -> FileMailboxStore) (now : Z) : outcome string Startup :=
  run_with (parse_args args) (fun path => read_operator_key (mode path) (contents path)) files now.
Definition ws_run (args : list string) (mode : string -> outcome string Z) (contents : string -> outcome string bytes)
    (files : string -> FileMailboxStore) (now : Z) : outcome string Startup :=
  run_with (ws_parse_args args) (fun path => ws_read_operator_key (mode path) (contents path)) files now.
End Startup.

(** ** Reading and writing *)

(** What a peer's end of the connection will send: octets, then the end of the
    stream or an error. *)
Record TcpStream := mkTcpStream { ts_octets : bytes; ts_broken : bool }.
Inductive IoError : Type := Io_UnexpectedEof | Io_InvalidData | Io_Other.

Definition read_exact (n : nat) : stM TcpStream IoError bytes := fun s =>
  if (n <=? length (ts_octets s))%nat then (mkTcpStream (drop n (ts_octets s)) (ts_broken s), Ok (take n (ts_octets s)))
  else (mkTcpStream [] (ts_broken s), Err (if ts_broken s then Io_Other else Io_UnexpectedEof)).

(** [None] is a stream that has ended, inside the length included. *)
Definition read_message : stM TcpStream IoError (option bytes) := fun s =>
  match read_exact 4 s with
  | (s, Err Io_UnexpectedEof) => (s, Ok None)
  | (s, Err error) => (s, Err error)
  | (s, Panic) => (s, Panic)
  | (s, Ok length) =>
      let length := from_be_bytes length in
      if (length =? 0) || (MAX_WIRE_MESSAGE <? length) then (s, Err Io_InvalidData)
      else (octets ← read_exact (Z.to_nat length); mret (Some octets)) s
  end.

(** [random_values]: the answer of [getrandom] to the request for 64 octets,
    and its answers to the requests of [sample_nameplate]; [None] while these
    bring no accepted candidate. *)
Definition random_values (octets : outcome unit bytes) (candidates : list (outcome unit bytes)) :
    option (outcome unit RelayRandomness) :=
  match octets with
  | Ok octets =>
      match sample_nameplate (map (fun c => candidate ← c; Ok (from_be_bytes candidate)) candidates) with
      | Some (Ok nameplate) => Some (Ok (mkRelayRandomness (take 32 octets) (take 32 (drop 32 octets)) nameplate))
      | Some (Err e) => Some (Err e)
      | Some Panic => Some Panic
      | None => None
      end
  | Err e => Some (Err e)
  | Panic => Some Panic
  end.

(** ** The threads over TCP *)

Section Serving.
Context {S : Type} `{MailboxStore S, Sha256, HmacSha256, Cbor, Cddl}.

(** A connection's socket: the octets it has taken, and whether it has refused
    some; the program does not look at the latter. *)
Record Writer := mkWriter { wr_octets : bytes; wr_failed : bool }.
Definition new_writer : Writer := mkWriter [] false.
Abbreviation Writers := (gmap Z Writer).

(** [write_all]; [Some n] is a call that fails after the socket has taken [n]
    octets. *)
Definition write_octets (octets : bytes) (failure : option nat) (writer : Writer) : Writer :=
  match failure with
  | None => mkWriter (wr_octets writer ++ octets) (wr_failed writer)
  | Some n => mkWriter (wr_octets writer ++ take n octets) true
  end.
(** The length and the message are written by two calls, whose errors, as that
    of the flush, are ignored. *)
Definition send_one (routed : RoutedMessage) (failures : option nat * option nat) (writers : Writers) : Writers :=
  match writers !! to_connection routed with
  | None => writers
  | Some writer =>
      match encode_server_message (message routed) with
      | Ok octets =>
          let writer := write_octets (to_be_bytes 4 (blen octets mod 2 ^ 32)) failures.1 writer in
          let writer := write_octets octets failures.2 writer in
          <[to_connection routed := writer]> writers
      | _ => writers
      end
  end.

(** The service's part of a turn, under its lock: the messages of the sweep
    and the replies. *)
Definition serve_command (connection : Z) (peer : bytes) (now : Z) (randomness : RelayRandomness) (m : ClientMessage) :
    stM (RelayService S) unit (list RoutedMessage) := fun s =>
  match relay_sweep now s with
  | (s, Panic) => (s, Panic)
  | (s, swept) =>
      let expired := match swept with Ok (Some messages) => messages | _ => [] end in
      match handle connection peer now randomness m s with
      | (s, Ok replies) => (s, Ok (expired ++ replies))
      | (s, Err _) => (s, Ok (expired ++ [route connection (ServerMessage_Error 503)]))
      | (s, Panic) => (s, Panic)
      end
  end.

(** One turn of [serve_connection]: the messages to send and whether the loop
    goes on. *)
Definition serve_turn (connection : Z) (peer : bytes) (now : Z) (randomness : outcome unit RelayRandomness) :
    stM (TcpStream * RelayService S) unit (list RoutedMessage * bool) := fun '(stream, service) =>
  match read_message stream with
  | (stream, Panic) => ((stream, service), Panic)
  | (stream, Ok None) => ((stream, service), Ok ([], false))
  | (stream, Err _) => ((stream, service), Ok ([route connection (ServerMessage_Error 400)], false))
  | (stream, Ok (Some octets)) =>
      match decode_client_message octets with
      | Panic => ((stream, service), Panic)
      | Err _ => ((stream, service), Ok ([route connection (ServerMessage_Error 400)], true))
      | Ok m =>
          match randomness with
          | Ok randomness =>
              match serve_command connection peer now randomness m service with
              | (service, Ok messages) => ((stream, service), Ok (messages, true))
              | (service, Err e) => ((stream, service), Err e)
              | (service, Panic) => ((stream, service), Panic)
              end
          | _ => ((stream, service), Ok ([route connection (ServerMessage_Error 503)], true))
          end
      end
  end.

(** A turn of the sweeper. *)
Definition sweeper_turn (now : Z) : stM (RelayService S) unit (list RoutedMessage) := fun s =>
  match relay_sweep now s with
  | (s, Ok (Some messages)) => (s, Ok messages)
  | (s, Panic) => (s, Panic)
  | (s, _) => (s, Ok [])
  end.

(** In its loop, past it, and after [disconnect]. *)
Inductive ThreadPhase : Type := Thread_Serving | Thread_Leaving | Thread_Disconnected.
(** A thread: its connection's peer and stream, the messages of its last turn
    that it has not sent yet, and where it is. *)
Record Thread := mkThread {
  th_peer : bytes;
  th_stream : TcpStream;
  th_outbox : list RoutedMessage;
  th_phase : ThreadPhase
}.
Record Shell := mkShell {
  sh_service : RelayService S;
  sh_writers : Writers;
  sh_threads : gmap Z Thread;
  sh_sweeper : list RoutedMessage;
  sh_next_connection : Z
}.

Definition shell_start (service : RelayService S) : Shell := mkShell service ∅ ∅ [] 1.

(** What the threads do, one lock at a time. *)
Inductive shell_event : Type :=
| Shell_Accept (peer : bytes) (stream : TcpStream)
| Shell_Turn (connection : Z) (now : Z) (randomness : outcome unit RelayRandomness)
| Shell_Send (connection : Z) (failures : option nat * option nat)
| Shell_Disconnect (connection : Z)
| Shell_Remove (connection : Z)
| Shell_SweeperTurn (now : Z)
| Shell_SweeperSend (failures : option nat * option nat).

Definition shell_step (event : shell_event) (sh : Shell) : outcome unit Shell :=
  let '(mkShell service writers threads sweeper next) := sh in
  match event with
  | Shell_Accept peer stream =>
      Ok (mkShell service (<[next := new_writer]> writers) (<[next := mkThread peer stream [] Thread_Serving]> threads) sweeper
            ((next + 1) mod 2 ^ 64))
  | Shell_Turn connection now randomness =>
      match threads !! connection with
      | Some (mkThread peer stream [] Thread_Serving) =>
          match serve_turn connection peer now randomness (stream, service) with
          | ((stream, service), Ok (messages, open)) =>
              let phase := if (open : bool) then Thread_Serving else Thread_Leaving in
              Ok (mkShell service writers (<[connection := mkThread peer stream messages phase]> threads) sweeper next)
          | (_, Err e) => Err e
          | (_, Panic) => Panic
          end
      | _ => Err tt
      end
  | Shell_Send connection failures =>
      match threads !! connection with
      | Some (mkThread peer stream (routed :: outbox) phase) =>
          Ok (mkShell service (send_one routed failures writers) (<[connection := mkThread peer stream outbox phase]> threads) sweeper next)
      | _ => Err tt
      end
  | Shell_Disconnect connection =>
      match threads !! connection with
      | Some (mkThread peer stream [] Thread_Leaving) =>
          Ok (mkShell (disconnect connection service) writers (<[connection := mkThread peer stream [] Thread_Disconnected]> threads)
                sweeper next)
      | _ => Err tt
      end
  | Shell_Remove connection =>
      match threads !! connection with
      | Some (mkThread _ _ _ Thread_Disconnected) =>
          Ok (mkShell service (delete connection writers) (delete connection threads) sweeper next)
      | _ => Err tt
      end
  | Shell_SweeperTurn now =>
      match sweeper with
      | [] =>
          match sweeper_turn now service with
          | (service, Ok messages) => Ok (mkShell service writers threads messages next)
          | (_, Err e) => Err e
          | (_, Panic) => Panic
          end
      | _ => Err tt
      end
  | Shell_SweeperSend failures =>
      match sweeper with
      | routed :: sweeper => Ok (mkShell service (send_one routed failures writers) threads sweeper next)
      | [] => Err tt
      end
  end.

(** ** The threads over WebSocket *)

(** What [websocket.read()] returns. *)
Inductive WsRead : Type :=
| Ws_Binary (octets : bytes)
| Ws_Text
| Ws_Close
| Ws_Control
| Ws_TimedOut
| Ws_TooLong
| Ws_Failed.

(** One turn after the outbound messages are flushed: the batches to dispatch,
    the octets sent at once, and whether the loop goes on. *)
Definition ws_turn (connection : Z) (peer : bytes) (now : Z) (randomness : outcome unit RelayRandomness) (read : WsRead) :
    stM (RelayService S) unit (list (list RoutedMessage) * option bytes * bool) := fun service =>
  match read with
  | Ws_Binary octets =>
      match decode_client_message octets with
      | Panic => (service, Panic)
      | Err _ => (service, Ok ([[route connection (ServerMessage_Error 400)]], None, true))
      | Ok m =>
          match randomness with
          | Ok randomness =>
              match relay_sweep now service with
              | (service, Panic) => (service, Panic)
              | (service, swept) =>
                  let expired := match swept with Ok (Some messages) => messages | _ => [] end in
                  match handle connection peer now randomness m service with
                  | (service, Ok replies) => (service, Ok ([expired; replies], None, true))
                  | (service, Err _) => (service, Ok ([expired; [route connection (ServerMessage_Error 503)]], None, true))
                  | (service, Panic) => (service, Panic)
                  end
              end
          | _ => (service, Ok ([[route connection (ServerMessage_Error 503)]], None, true))
          end
      end
  | Ws_Text => (service, Ok ([[route connection (ServerMessage_Error 400)]], None, true))
  | Ws_Close => (service, Ok ([], None, false))
  | Ws_Control | Ws_TimedOut => (service, Ok ([], None, true))
  | Ws_TooLong =>
      (service, Ok ([], match encode_server_message (ServerMessage_Error 413) with Ok octets => Some octets | _ => None end, false))
  | Ws_Failed => (service, Ok ([], None, false))
  end.

(** [dispatch]: one lock of the table for a whole batch. *)
Definition ws_dispatch (messages : list RoutedMessage) (senders : gmap Z (list ServerMessage)) : gmap Z (list ServerMessage) :=
  fold_left (fun senders routed =>
    match senders !! to_connection routed with
    | Some queue => <[to_connection routed := queue ++ [message routed]]> senders
    | None => senders
    end) messages senders.

(** In [flush_outbound] at the head of the loop, at [read], past the loop, and
    after [disconnect]. *)
Inductive WsPhase : Type := Ws_Flushing | Ws_Reading | Ws_Leaving | Ws_Disconnected.

(** A turn of the loop in [flush_outbound] that finds a message; [accepted] is
    the answer of [send]. *)
Definition flush_one (m : ServerMessage) (accepted : bool) (sent : list bytes) : list bytes * WsPhase :=
  match encode_server_message m with
  | Ok octets => (sent ++ [octets], if accepted then Ws_Flushing else Ws_Leaving)
  | _ => (sent, Ws_Leaving)
  end.

(** A thread: the peer, the binary messages given to its socket so far, the
    batches it has to dispatch, and where it is. *)
Record WsThread := mkWsThread {
  wt_peer : bytes;
  wt_sent : list bytes;
  wt_batches : list (list RoutedMessage);
  wt_phase : WsPhase
}.
(** The shell, with the connections whose handshake is going on. *)
Record WsShell := mkWsShell {
  ws_service : RelayService S;
  ws_handshakes : gmap Z bytes;
  ws_senders : gmap Z (list ServerMessage);
  ws_threads : gmap Z WsThread;
  ws_sweeper : list (list RoutedMessage);
  ws_next_connection : Z
}.
Definition ws_start (service : RelayService S) : WsShell := mkWsShell service ∅ ∅ ∅ [] 1.

(** A failed handshake serves nothing; [Ws_Drained] is [flush_outbound] finding
    the queue empty. *)
Inductive ws_event : Type :=
| Ws_Accept (peer : bytes)
| Ws_Handshake (connection : Z) (accepted : bool)
| Ws_Flush (connection : Z) (accepted : bool)
| Ws_Drained (connection : Z)
| Ws_Turn (connection : Z) (now : Z) (randomness : outcome unit RelayRandomness) (read : WsRead)
| Ws_Dispatch (connection : Z)
| Ws_Disconnect (connection : Z)
| Ws_Remove (connection : Z)
| Ws_SweeperTurn (now : Z)
| Ws_SweeperDispatch.

Definition ws_step (event : ws_event) (sh : WsShell) : outcome unit WsShell :=
  let '(mkWsShell service handshakes senders threads sweeper next) := sh in
  match event with
  | Ws_Accept peer =>
      Ok (mkWsShell service (<[next := peer]> handshakes) senders threads sweeper ((next + 1) mod 2 ^ 64))
  | Ws_Handshake connection accepted =>
      match handshakes !! connection with
      | Some peer =>
          if accepted
          then Ok (mkWsShell service (delete connection handshakes) (<[connection := []]> senders)
                     (<[connection := mkWsThread peer [] [] Ws_Flushing]> threads) sweeper next)
          else Ok (mkWsShell service (delete connection handshakes) senders threads sweeper next)
      | None => Err tt
      end
  | Ws_Flush connection accepted =>
      match threads !! connection, senders !! connection with
      | Some (mkWsThread peer sent [] Ws_Flushing), Some (m :: queue) =>
          let '(sent, phase) := flush_one m accepted sent in
          Ok (mkWsShell service handshakes (<[connection := queue]> senders) (<[connection := mkWsThread peer sent [] phase]> threads) sweeper next)
      | _, _ => Err tt
      end
  | Ws_Drained connection =>
      match threads !! connection, senders !! connection with
      | Some (mkWsThread peer sent [] Ws_Flushing), Some [] =>
          Ok (mkWsShell service handshakes senders (<[connection := mkWsThread peer sent [] Ws_Reading]> threads) sweeper next)
      | _, _ => Err tt
      end
  | Ws_Turn connection now randomness read =>
      match threads !! connection with
      | Some (mkWsThread peer sent [] Ws_Reading) =>
          match ws_turn connection peer now randomness read service with
          | (service, Ok (batches, direct, open)) =>
              let phase := if (open : bool) then Ws_Flushing else Ws_Leaving in
              let sent := match direct with Some octets => sent ++ [octets] | None => sent end in
              Ok (mkWsShell service handshakes senders (<[connection := mkWsThread peer sent batches phase]> threads) sweeper next)
          | (_, Err e) => Err e
          | (_, Panic) => Panic
          end
      | _ => Err tt
      end
  | Ws_Dispatch connection =>
      match threads !! connection with
      | Some (mkWsThread peer sent (batch :: batches) phase) =>
          Ok (mkWsShell service handshakes (ws_dispatch batch senders) (<[connection := mkWsThread peer sent batches phase]> threads) sweeper next)
      | _ => Err tt
      end
  | Ws_Disconnect connection =>
      match threads !! connection with
      | Some (mkWsThread peer sent [] Ws_Leaving) =>
          Ok (mkWsShell (disconnect connection service) handshakes senders
                (<[connection := mkWsThread peer sent [] Ws_Disconnected]> threads) sweeper next)
      | _ => Err tt
      end
  | Ws_Remove connection =>
      match threads !! connection with
      | Some (mkWsThread _ _ _ Ws_Disconnected) =>
          Ok (mkWsShell service handshakes (delete connection senders) (delete connection threads) sweeper next)
      | _ => Err tt
      end
  | Ws_SweeperTurn now =>
      match sweeper with
      | [] =>
          match sweeper_turn now service with
          | (service, Ok messages) => Ok (mkWsShell service handshakes senders threads [messages] next)
          | (_, Err e) => Err e
          | (_, Panic) => Panic
          end
      | _ => Err tt
      end
  | Ws_SweeperDispatch =>
      match sweeper with
      | batch :: sweeper => Ok (mkWsShell service handshakes (ws_dispatch batch senders) threads sweeper next)
      | [] => Err tt
      end
  end.
End Serving.
