(* ===== verification/RelayShellProps.v ===== *)
(** * What the relay's executables promise

    The operator's key, the framing, and that whatever the peers and the
    scheduler do, the threads keep the relay's invariant, write whole messages
    that the wire decoder accepts, and leave nothing behind. *)

From S2P Require Import Prelude External Instances Wire Cddl WireCodec WireLaws WireThms WireProps Channel Mailbox MailboxInv MailboxStep MailboxThms Limiter LimiterInv LimiterThms Observability Storage StorageLaws StorageProps Relay RelayInv RelaySafe RelayLoops RelayMessages RelayProps RelayRuns RelayWire ProfileThms CredBytes RelayShell.

(** ** The connections that the service knows *)

Section Known.
Context {S : Type} `{MailboxStore S, Sha256, HmacSha256}.
Implicit Types s : RelayService S.
Context (turn : option Z).

(** No connection is new, but perhaps the one whose turn it is. *)
Definition knows s s' : Prop := forall c, is_Some (rs_connections s' !! c) -> turn = Some c \/ is_Some (rs_connections s !! c).
Definition introduces {A} s0 (m : stM (RelayService S) RelayError A) : Prop :=
  forall s, knows s0 s -> wp True m (fun _ => knows s0) (fun _ => knows s0) s.

Lemma introduces_bind {A A'} s0 (m : stM (RelayService S) RelayError A) (k : A -> stM (RelayService S) RelayError A') :
  introduces s0 m -> (forall a, introduces s0 (k a)) -> introduces s0 (m ≫= k).
Proof. intros Hm Hk s Hs. apply wp_bind. eapply wp_mono; [by apply Hm| |done]. intros a s1 Hs1. by apply Hk. Qed.
Lemma introduces_ret {A} s0 (a : A) : introduces s0 (mret a).
Proof. intros s Hs. by apply wp_ret. Qed.
Lemma introduces_get s0 : introduces s0 get.
Proof. intros s Hs. by apply wp_get. Qed.
Lemma introduces_lift {A} s0 (r : outcome RelayError A) : introduces s0 (lift r).
Proof. intros s Hs. apply wp_lift. by destruct r. Qed.
Lemma introduces_modify s0 f : (forall s, knows s0 s -> knows s0 (f s)) -> introduces s0 (modify f).
Proof. intros Hf s Hs. apply wp_modify. by apply Hf. Qed.
Lemma introduces_store {A} s0 (m : stM S StoreError A) : introduces s0 (in_store m).
Proof. intros s Hs. unfold in_store, wp, zoom. by destruct (m _) as [st [a|e|]]. Qed.
Lemma introduces_limiter {A} s0 (m : limM A) : introduces s0 (in_limiter m).
Proof. intros s Hs. unfold in_limiter, wp, zoom. by destruct (m _) as [l [a|e|]]. Qed.
Lemma introduces_finish s0 op out msgs : introduces s0 (finish op out msgs).
Proof. intros s Hs. unfold wp, finish. by destruct (record op out (rs_observability s)). Qed.

Lemma knows_alter s0 f i r s : knows s0 s -> knows s0 (set_routing (alter f i (rs_connections s)) r s).
Proof. intros Hs c Hc. apply Hs. cbn in Hc. by rewrite lookup_alter_is_Some in Hc. Qed.
Lemma knows_detach s0 id m s : knows s0 s -> knows s0 (detach_route id m s).
Proof. intros Hs. unfold detach_route. case_match; [by apply knows_alter|done]. Qed.
Lemma knows_upsert s0 c f r s : turn = Some c -> knows s0 s -> knows s0 (set_routing (upsert_connection c f (rs_connections s)) r s).
Proof.
  intros Ht Hs c' Hc'. cbn in Hc'. unfold upsert_connection in Hc'. destruct (decide (c = c')) as [->|]; [by left|].
  rewrite lookup_insert_ne in Hc' by done. by apply Hs.
Qed.
Lemma knows_attach s0 c sm s : turn = Some c -> knows s0 s -> knows s0 (attach c sm s).
Proof.
  intros Ht Hs c' Hc'. unfold attach in Hc'. cbn in Hc'. unfold upsert_connection in Hc'. destruct (decide (c = c')) as [->|]; [by left|].
  rewrite lookup_insert_ne in Hc' by done. apply Hs. destruct (match session c s with Some _ => _ | None => _ end !! _) as [old|]; [|done].
  destruct (negb _); [|done]. by rewrite lookup_alter_is_Some in Hc'.
Qed.
Lemma introduces_reply s0 c m : introduces s0 (reply c m).
Proof. apply introduces_ret. Qed.
Hint Resolve introduces_bind introduces_ret introduces_get introduces_lift introduces_store introduces_limiter introduces_finish
  introduces_reply knows_detach knows_upsert knows_attach : core.
Hint Resolve introduces_modify : core.

Lemma introduces_remove s0 id : introduces s0 (remove_mailbox id).
Proof.
  unfold remove_mailbox, remove_mailbox_indexes. apply introduces_bind; [auto|]. intros _. apply introduces_bind; [auto|]. intros s.
  destruct (rs_mailboxes s !! id) as [mb|]; [|auto]. apply introduces_bind; [by apply introduces_modify|]. intros _.
  apply introduces_bind; [auto|]. intros s1. apply introduces_bind; [auto|]. intros q. apply introduces_bind; [by apply introduces_modify|].
  intros _. apply introduces_bind; auto.
Qed.
Lemma introduces_commit s0 id t : introduces s0 (commit id t).
Proof.
  unfold commit. destruct (mt_state t).
  - apply introduces_bind; [auto|]. intros _. apply introduces_bind; [auto|]. intros s. apply introduces_bind; [auto|]. intros q.
    by apply introduces_modify.
  - apply introduces_bind; [auto|]. intros s. case_match; [apply introduces_remove|auto].
Qed.
Hint Resolve introduces_remove introduces_commit : core.

(** The commands of the connection whose turn it is. *)
Ltac introduce := repeat first [solve [auto] | apply introduces_bind; [solve [auto]|intros ?] | case_match].

Lemma introduces_dispatch s0 c now r m : turn = Some c -> introduces s0 (dispatch c now r m).
Proof.
  intros Ht. assert (forall mb, introduces s0 (install_mailbox c mb)) as Hi.
  { intros mb. unfold install_mailbox. apply introduces_bind; [auto|]. intros _. apply introduces_bind; [by apply introduces_modify|]. auto. }
  assert (forall id reason, introduces s0 (closed_messages c id reason)) as Hc.
  { intros id reason. unfold closed_messages. introduce. }
  unfold dispatch. apply introduces_bind; [auto|]. intros s.
  destruct m; [apply introduces_bind; auto|..]; destruct (negb _); auto.
  all: unfold relay_allocate, relay_claim, relay_allocate_v2, relay_claim_v2, relay_open, member_command; introduce.
Qed.
Lemma introduces_handle s0 c a now r m : turn = Some c -> introduces s0 (handle c a now r m).
Proof.
  intros Ht. unfold handle. apply introduces_bind; [auto|]. intros [w|w]; [|auto]. apply introduces_bind; [by apply introduces_dispatch|auto].
Qed.
Lemma introduces_sweep s0 now : introduces s0 (relay_sweep now).
Proof.
  assert (forall fuel, introduces s0 (sweep_loop fuel now)) as Hl.
  { induction fuel as [|fuel IH]; cbn [sweep_loop]; [auto|]. introduce. }
  unfold relay_sweep. apply introduces_bind; [auto|]. intros _. apply introduces_bind; [auto|]. intros s. apply introduces_bind; [auto|].
  intros msgs. apply introduces_bind; [|auto]. by apply introduces_modify.
Qed.
End Known.

(** ** A turn of the service *)

Section Turns.
Context {S : Type} `{MailboxStore S, Sha256, !Sha256Laws, HmacSha256, Cbor, Cddl, !CborLaws, !CddlLaws}.
Implicit Types s : RelayService S.

Lemma safe_registry (Alloc : Mailbox -> Prop) (now : Z) s s' : (forall mb, Alloc mb -> storable mb) -> registry (rs_mailboxes s) -> safe Alloc now s s' ->
  registry (rs_mailboxes s').
Proof. intros HA Hr (_ & Hd & _). exact (data_steps_registry Alloc now (data s) (data s') HA Hr Hd). Qed.

(** What a turn keeps of the service. *)
Record served s : Prop := { sv_ok : relay_ok s; sv_registry : registry (rs_mailboxes s) }.

Lemma sweep_served now s s' r : served s -> relay_sweep now s = (s', r) -> r <> Panic ->
  served s' /\ knows None s s' /\ forall msgs, r = Ok (Some msgs) -> all_sendable msgs.
Proof.
  intros [Hok Hreg] Hrun Hp. split; [|split].
  - pose proof (relay_sweep_wp True ltac:(done) ltac:(done) now s Hok) as Hw. apply (wp_run _ _ _ _ _ _ _ Hw) in Hrun.
    destruct r as [msgs|e|]; [|destruct Hrun as (s1 & Hs1 & Hf)|done].
    + destruct Hrun as [Hs _]. split; [apply Hs|]. eapply safe_registry; [|exact Hreg|exact Hs]. by intros mb [].
    + split; [eapply loop_failure_ok; by exists s1|]. apply failed_safe in Hf as (_ & Hm & _); [|apply Hs1]. rewrite Hm.
      eapply safe_registry; [|exact Hreg|exact Hs1]. by intros mb [].
  - pose proof (introduces_sweep None s now s ltac:(by right)) as Hw. apply (wp_run _ _ _ _ _ _ _ Hw) in Hrun. by destruct r.
  - intros msgs -> rm Hrm. pose proof (relay_sweep_wp True ltac:(done) ltac:(done) now s Hok) as Hw.
    apply (wp_run _ _ _ _ _ _ _ Hw) in Hrun as (_ & ms & [= <-] & _ & Ht). by apply Ht in Hrm as (sm & mb & c & _ & _ & _ & ->).
Qed.
Lemma handle_served c a now r m s s' x : served s -> inputs_typed now r m -> length (rr_membership_token r) = 32%nat ->
  handle c a now r m s = (s', x) -> x <> Panic -> served s' /\ knows (Some c) s s' /\ forall msgs, x = Ok msgs -> all_sendable msgs.
Proof.
  intros [Hok Hreg] Hin Htok Hrun Hp. split; [|split].
  - pose proof (handle_safe True (allocated_by now r m) ltac:(done) ltac:(done) c a now r m s Hok (in_message _ _ _ Hin)
      ltac:(by intros mb [_ ?])) as Hw. apply (wp_run _ _ _ _ _ _ _ Hw) in Hrun. destruct x as [msgs|e|]; [| |done].
    + split; [apply Hrun|]. eapply safe_registry; [|exact Hreg|exact Hrun]. intros mb. by apply allocated_storable.
    + destruct Hrun as (Hok' & Hm & _). split; [done|]. by rewrite Hm.
  - pose proof (introduces_handle (Some c) s c a now r m eq_refl s ltac:(by right)) as Hw. apply (wp_run _ _ _ _ _ _ _ Hw) in Hrun.
    by destruct x.
  - intros msgs ->. by eapply handle_sendable.
Qed.
Lemma knows_trans c s1 s2 s3 : knows None s1 s2 -> knows c s2 s3 -> knows c s1 s3.
Proof. intros H12 H23 c' [?|[?|?]%H12]%H23; auto. done. Qed.
End Turns.

(** ** Framing *)

Definition frame_octets (octets : bytes) : bytes := to_be_bytes 4 (blen octets) ++ octets.
(** What is left of a frame whose writes may have failed. *)
Definition cut (failure : option nat) (octets : bytes) : bytes :=
  match failure with Some n => take n octets | None => octets end.
Definition torn_frame (failures : option nat * option nat) (octets : bytes) : bytes :=
  cut failures.1 (to_be_bytes 4 (blen octets)) ++ cut failures.2 octets.
Definition whole (failures : option nat * option nat) : bool := bool_decide (failures = (None, None)).

(** [n] messages, as [read_message] takes them. *)
Fixpoint read_each (n : nat) : stM TcpStream IoError (list bytes) :=
  match n with
  | O => mret []
  | Datatypes.S n =>
      m ← read_message;
      rest ← read_each n;
      mret (match m with Some b => b :: rest | None => rest end)
  end.
Definition fits (b : bytes) : Prop := 1 <= blen b <= MAX_WIRE_MESSAGE.

Lemma read_exact_app a b broken : read_exact (length a) (mkTcpStream (a ++ b) broken) = (mkTcpStream b broken, Ok a).
Proof.
  unfold read_exact. cbn [ts_octets ts_broken]. rewrite (proj2 (Nat.leb_le _ _)) by (rewrite length_app; lia).
  by rewrite drop_app_length, take_app_length.
Qed.
Lemma read_frame b rest broken : fits b -> read_message (mkTcpStream (frame_octets b ++ rest) broken) = (mkTcpStream rest broken, Ok (Some b)).
Proof.
  intros [Hl Hu]. unfold MAX_WIRE_MESSAGE in *. unfold read_message, frame_octets. rewrite <- app_assoc.
  pose proof (read_exact_app (to_be_bytes 4 (blen b)) (b ++ rest) broken) as Hh. rewrite to_be_bytes_length in Hh. rewrite Hh.
  rewrite from_to_be_bytes by (simpl; lia). cbv zeta. rewrite (proj2 (Z.eqb_neq _ _)), (proj2 (Z.ltb_ge _ _)) by (unfold MAX_WIRE_MESSAGE; lia).
  cbn [orb]. unfold mbind, stM_bind. replace (Z.to_nat (blen b)) with (length b) by (unfold blen; lia). by rewrite read_exact_app.
Qed.
Lemma read_frames bs rest broken : Forall fits bs ->
  read_each (length bs) (mkTcpStream (mjoin (frame_octets <$> bs) ++ rest) broken) = (mkTcpStream rest broken, Ok bs).
Proof.
  induction 1 as [|b bs Hb _ IH]; [done|]. change (mjoin (frame_octets <$> b :: bs)) with (frame_octets b ++ mjoin (frame_octets <$> bs)).
  cbn [length read_each]. rewrite <- app_assoc. unfold mbind, stM_bind. by rewrite read_frame, IH.
Qed.

(** No message that the relay sends is longer than its reader allows. *)
Lemma sendable_fits `{Cbor, Cddl, !CborSizeLaws, !CborLaws, !CddlLaws} m b : sendable m -> encode_server_message m = Ok b -> fits b.
Proof.
  intros [Hty Hval]. unfold encode_server_message, encode_with. intros (e & He & (x & _ & [= <-])%bind_ok)%bind_ok.
  unfold deterministic_bytes in He. destruct (to_canonical_vec _) as [e'|] eqn:Hc; [|done]. injection He as ->.
  apply map_size in Hc; [|by apply (mc_plain (t := server_message_rule) (of_entries := server_message_of))]. unfold fits, MAX_WIRE_MESSAGE. unfold server_message_typed, server_message_valid, optionally in *.
  assert (value_size (text_map (server_message_entries m)) <= 69716) as Hs; [|lia].
  clear Hc. destruct m as [|id tok [n|] e1| | | | | |[]| |]; cbn; unfold blen in *; destruct_and?; cbn; lia.
Qed.

(** ** The threads' invariant *)

Section Shells.
Context {S : Type} `{MailboxStore S, Sha256, !Sha256Laws, HmacSha256, Cbor, Cddl, !CborLaws, !CborSizeLaws, !CddlLaws}.
Abbreviation shell := (Shell (S := S)).

(** Octets that carry these messages, in order. *)
Definition written_as (ms : list ServerMessage) (bs : list bytes) : Prop :=
  Forall2 (fun m b => encode_server_message m = Ok b /\ decode_server_message b = Ok m /\ fits b) ms bs.
(** A socket that has been given these messages, each frame cut where a write
    failed; one that refused nothing has all of them. *)
Definition carries (w : Writer) (ms : list ServerMessage) (bs : list bytes) : Prop :=
  written_as ms bs /\ exists failures, length failures = length bs /\
    wr_octets w = mjoin (zip_with torn_frame failures bs) /\ (wr_failed w = false -> Forall (fun f => f = (None, None)) failures).

(** What the environment gives a turn: a clock and random values of their
    sizes, and identifiers made of octets. *)
Definition turn_typed (now : Z) (randomness : outcome unit RelayRandomness) : Prop :=
  0 <= now /\ match randomness with
              | Ok r => id_typed (rr_mailbox_id r) /\ 0 <= rr_nameplate r /\ length (rr_membership_token r) = 32%nat
              | _ => True
              end.
Definition octet_identifiers (input : bytes) : Prop := forall id commitment ttl,
  decode_client_message input = Ok (ClientMessage_AllocateV2 id commitment ttl) -> Forall (fun x => 0 <= x <= u8_max) id.

Lemma decoded_inputs input m now r : decode_client_message input = Ok m -> octet_identifiers input -> turn_typed now (Ok r) ->
  inputs_typed now r m.
Proof.
  intros Hm Ho (Hnow & Hid & Hn & _). pose proof Hm as Hd.
  apply (codec_inverse _ client_message_rule _ _ client_message_typed) in Hd as [Ht _]; [|rule_known|apply client_text_keys].
  split; try done.
  - by destruct m.
  - intros id commitment ttl ->. destruct Ht as (Hi & Hc & _). split; [split; [done|by eapply Ho]|done].
Qed.

Lemma serve_command_served c peer input now r m s s' msgs : served s -> decode_client_message input = Ok m -> octet_identifiers input ->
  turn_typed now (Ok r) -> serve_command c peer now r m s = (s', Ok msgs) -> served s' /\ knows (Some c) s s' /\ all_sendable msgs.
Proof.
  intros Hs Hm Ho Ht. pose proof (decoded_inputs _ _ _ _ Hm Ho Ht) as Hin. pose proof (proj2 (proj2 (proj2 Ht))) as Htok.
  unfold serve_command. destruct (relay_sweep now s) as [s1 swept] eqn:Hsw. intros Hrun.
  assert (swept <> Panic) as Hp by (by intros ->). destruct (sweep_served _ _ _ _ Hs Hsw Hp) as (Hs1 & Hk1 & Ha1).
  assert (all_sendable (match swept with Ok (Some messages) => messages | _ => [] end)) as Hexp.
  { destruct swept as [[ms|]|e|]; try (by intros rm ?%elem_of_nil). by apply Ha1. }
  assert (match handle c peer now r m s1 with
          | (s2, Ok replies) => (s2, Ok (match swept with Ok (Some messages) => messages | _ => [] end ++ replies))
          | (s2, Err _) => (s2, Ok (match swept with Ok (Some messages) => messages | _ => [] end ++ [route c (ServerMessage_Error 503)]))
          | (s2, Panic) => (s2, Panic) end = (s', Ok msgs) :> _ * outcome unit (list RoutedMessage)) as Hh by by destruct swept.
  clear Hrun. destruct (handle c peer now r m s1) as [s2 x] eqn:Hx. assert (x <> Panic) as Hpx by (by intros ->).
  destruct (handle_served _ _ _ _ _ _ _ _ Hs1 Hin Htok Hx Hpx) as (Hs2 & Hk2 & Ha2).
  destruct x as [replies|e|]; [| |done]; injection Hh as <- <-; (split; [done|split; [by eapply knows_trans|]]).
  - intros rm [?|?]%elem_of_app; [auto|by eapply Ha2].
  - intros rm [?| ->%list_elem_of_singleton]%elem_of_app; [auto|]. apply error_sendable. set_solver.
Qed.

(** *** Over TCP *)

Record shell_ok (sh : shell) : Prop := {
  sk_served : served (sh_service sh);
  sk_outboxes : forall c th, sh_threads sh !! c = Some th -> all_sendable (th_outbox th);
  sk_sweeper : all_sendable (sh_sweeper sh);
  sk_writers : forall c w, sh_writers sh !! c = Some w -> exists ms bs, carries w ms bs;
  sk_registered : forall c, is_Some (sh_writers sh !! c) <-> is_Some (sh_threads sh !! c);
  sk_known : forall c, is_Some (rs_connections (sh_service sh) !! c) -> exists th, sh_threads sh !! c = Some th /\ th_phase th <> Thread_Disconnected
}.
(** What an event may bring.  Fewer than [2^64] connections are accepted, so
    the number of a new one is not in use. *)
Definition event_typed (event : shell_event) (sh : shell) : Prop :=
  match event with
  | Shell_Accept _ _ => sh_threads sh !! sh_next_connection sh = None
  | Shell_Turn c now randomness =>
      turn_typed now randomness /\
      forall th stream input, sh_threads sh !! c = Some th -> read_message (th_stream th) = (stream, Ok (Some input)) -> octet_identifiers input
  | Shell_SweeperTurn now => 0 <= now
  | _ => True
  end.

Lemma sendable_frame m : sendable m ->
  exists b, encode_server_message m = Ok b /\ decode_server_message b = Ok m /\ fits b.
Proof. intros Hm. destruct (sendable_written m Hm) as (b & Hb & Hd). exists b. split_and!; [done..|by eapply sendable_fits]. Qed.
Lemma write_frame b failures w : fits b ->
  write_octets b failures.2 (write_octets (to_be_bytes 4 (blen b mod 2 ^ 32)) failures.1 w) =
  mkWriter (wr_octets w ++ torn_frame failures b) (wr_failed w || negb (whole failures)).
Proof.
  unfold fits, MAX_WIRE_MESSAGE. intros Hb. rewrite Z.mod_small by lia. unfold torn_frame, whole. destruct failures as [[n|] [n'|]]; cbn -[to_be_bytes];
    rewrite app_assoc, ?orb_true_r, ?orb_false_r; done.
Qed.
(** One frame, cut where a write fails, for a registered connection; nothing
    elsewhere. *)
Lemma send_one_exact routed failures writers w : sendable (message routed) -> writers !! to_connection routed = Some w ->
  exists b, encode_server_message (message routed) = Ok b /\ decode_server_message b = Ok (message routed) /\ fits b /\
    send_one routed failures writers =
      <[to_connection routed := mkWriter (wr_octets w ++ torn_frame failures b) (wr_failed w || negb (whole failures))]> writers.
Proof.
  intros Hs Hw. destruct (sendable_frame _ Hs) as (b & Hb & Hd & Hf). exists b. split_and!; [done..|].
  unfold send_one. rewrite Hw, Hb. cbv zeta. by rewrite write_frame.
Qed.
Lemma carries_more w ms bs m b failures : carries w ms bs -> encode_server_message m = Ok b -> decode_server_message b = Ok m -> fits b ->
  carries (mkWriter (wr_octets w ++ torn_frame failures b) (wr_failed w || negb (whole failures))) (ms ++ [m]) (bs ++ [b]).
Proof.
  intros (Hms & fs & Hl & Ho & Hw) Hb Hd Hf. split; [apply Forall2_app; [done|]; by apply Forall2_cons; split; [|by apply Forall2_nil]|].
  exists (fs ++ [failures]). split_and!; [rewrite !length_app; cbn; lia| |].
  - rewrite zip_with_app by done. rewrite join_app, <- Ho. cbn. by rewrite app_nil_r.
  - cbn [wr_failed]. intros [Hn Hwh]%orb_false_iff. apply Forall_app. split; [by apply Hw|]. apply Forall_singleton.
    apply negb_false_iff in Hwh. unfold whole in Hwh. by bool_to_prop.
Qed.
Lemma send_one_carries routed failures writers c w : sendable (message routed) -> send_one routed failures writers !! c = Some w ->
  (forall c w, writers !! c = Some w -> exists ms bs, carries w ms bs) -> exists ms bs, carries w ms bs.
Proof.
  intros Hs Hw Hall. destruct (writers !! to_connection routed) as [w0|] eqn:Hw0.
  2: { unfold send_one in Hw. rewrite Hw0 in Hw. by eapply Hall. }
  destruct (send_one_exact routed failures writers w0 Hs Hw0) as (b & Hb & Hd & Hf & Heq). rewrite Heq in Hw.
  apply lookup_insert_Some in Hw as [[_ <-]|[_ Hw]]; [|by eapply Hall]. destruct (Hall _ _ Hw0) as (ms & bs & Hc).
  exists (ms ++ [message routed]), (bs ++ [b]). by apply carries_more.
Qed.
(** A reader of the framing takes apart what a socket that refused nothing has
    taken. *)
Lemma carries_read w ms bs : carries w ms bs -> wr_failed w = false ->
  wr_octets w = mjoin (frame_octets <$> bs) /\ read_each (length bs) (mkTcpStream (wr_octets w) false) = (mkTcpStream [] false, Ok bs).
Proof.
  intros (Hms & fs & Hl & Ho & Hw) Hn. specialize (Hw Hn).
  assert (wr_octets w = mjoin (frame_octets <$> bs)) as Heq.
  { rewrite Ho. clear Ho Hms. f_equal. revert bs Hl. induction Hw as [|f fs -> _ IH]; intros [|b bs] Hl; try done. cbn [zip_with fmap list_fmap].
    f_equal. apply IH. cbn in Hl. lia. }
  split; [done|]. rewrite Heq, <- (app_nil_r (mjoin _)). apply read_frames. clear -Hms.
  induction Hms as [|m b ms bs (_ & _ & Hf) _ IH]; by constructor.
Qed.
Lemma send_one_registered routed failures writers c : is_Some (send_one routed failures writers !! c) <-> is_Some (writers !! c).
Proof.
  unfold send_one. destruct (writers !! to_connection routed) eqn:Hw; [|done]. destruct (encode_server_message _); [|done..]. cbv zeta.
  destruct (decide (to_connection routed = c)) as [<-|]; [by rewrite lookup_insert_eq, Hw|by rewrite lookup_insert_ne].
Qed.

Lemma serve_turn_served c peer now r stream stream' s s' msgs open : served s -> turn_typed now r ->
  (forall st input, read_message stream = (st, Ok (Some input)) -> octet_identifiers input) ->
  serve_turn c peer now r (stream, s) = ((stream', s'), Ok (msgs, open)) -> served s' /\ knows (Some c) s s' /\ all_sendable msgs.
Proof.
  intros Hs Ht Ho. unfold serve_turn. assert (forall code, code ∈ [400; 404; 409; 410; 413; 429; 503] -> all_sendable [route c (ServerMessage_Error code)]) as He.
  { intros code Hc rm ->%list_elem_of_singleton. by apply error_sendable. }
  assert (knows (Some c) s s) as Hk by by right.
  destruct (read_message stream) as [st [[input|]|e|]]; [|intros [= <- <- <- <-]|intros [= <- <- <- <-]|done].
  2: { split_and!; [done|done|]. by intros rm ?%elem_of_nil. }
  2: { split_and!; [done|done|]. apply He. set_solver. }
  specialize (Ho _ _ eq_refl). destruct (decode_client_message input) as [m|e|] eqn:Hm; [|intros [= <- <- <- <-]|done].
  2: { split_and!; [done|done|]. apply He. set_solver. }
  destruct r as [r|e|]; [|intros [= <- <- <- <-]; split_and!; [done|done|]; apply He; set_solver..].
  destruct (serve_command c peer now r m s) as [s1 [ms|e|]] eqn:Hc; [|done..]. intros [= <- <- <- <-]. by eapply serve_command_served.
Qed.

Lemma sweeper_served now (s s' : RelayService S) msgs : served s -> sweeper_turn now s = (s', Ok msgs) -> served s' /\ knows None s s' /\ all_sendable msgs.
Proof.
  intros Hs. unfold sweeper_turn. destruct (relay_sweep now s) as [s1 r] eqn:Hr. intros Hrun. assert (r <> Panic) as Hp by (by intros ->).
  destruct (sweep_served _ _ _ _ Hs Hr Hp) as (Hs1 & Hk & Ha). destruct r as [[ms|]|e|]; [| | |done]; injection Hrun as <- <-.
  - split_and!; [done|done|by apply Ha].
  - split_and!; [done|done|by intros rm ?%elem_of_nil].
  - split_and!; [done|done|by intros rm ?%elem_of_nil].
Qed.
Lemma disconnected_unknown c (s : RelayService S) c' : is_Some (rs_connections (disconnect c s) !! c') -> c' <> c /\ is_Some (rs_connections s !! c').
Proof.
  unfold disconnect. destruct (rs_connections s !! c) as [st|] eqn:Hc.
  - intros Hs. cbn in Hs. destruct (decide (c = c')) as [->|]; [by rewrite lookup_delete_eq in Hs; destruct Hs|]. by rewrite lookup_delete_ne in Hs.
  - intros Hs. split; [|done]. intros ->. rewrite Hc in Hs. by destruct Hs.
Qed.
Lemma disconnect_served c (s : RelayService S) : served s -> served (disconnect c s).
Proof. intros [Hok Hr]. split; [by apply relay_ok_disconnect|]. unfold disconnect. by case_match. Qed.

(** The tables of writers and threads have the same connections. *)
Lemma new_registered {T W} (threads : gmap Z T) (writers : gmap Z W) c th w :
  (forall c, is_Some (writers !! c) <-> is_Some (threads !! c)) -> forall c', is_Some (<[c := w]> writers !! c') <-> is_Some (<[c := th]> threads !! c').
Proof. intros Hr c'. destruct (decide (c = c')) as [<-|]; [by rewrite !lookup_insert_eq|by rewrite !lookup_insert_ne]. Qed.
Lemma removed_registered {T W} (threads : gmap Z T) (writers : gmap Z W) c :
  (forall c, is_Some (writers !! c) <-> is_Some (threads !! c)) -> forall c', is_Some (delete c writers !! c') <-> is_Some (delete c threads !! c').
Proof. intros Hr c'. destruct (decide (c = c')) as [<-|]; [by rewrite !lookup_delete_eq|by rewrite !lookup_delete_ne]. Qed.
Lemma removed_known (P : Z -> Prop) {T} (threads : gmap Z T) (gone : T -> Prop) c th0 : threads !! c = Some th0 -> gone th0 ->
  (forall c', P c' -> exists th, threads !! c' = Some th /\ ~ gone th) -> forall c', P c' -> exists th, delete c threads !! c' = Some th /\ ~ gone th.
Proof.
  intros Hc Hg Hk c' (th & Hth & Hd)%Hk. exists th. split; [|done]. apply lookup_delete_Some. split; [|done]. intros ->. congruence.
Qed.
(** A thread moves on while its connection stays. *)
Lemma moved_registered {T W} (threads : gmap Z T) (writers : gmap Z W) c th th' :
  (forall c, is_Some (writers !! c) <-> is_Some (threads !! c)) -> threads !! c = Some th ->
  forall c', is_Some (writers !! c') <-> is_Some (<[c := th']> threads !! c').
Proof. intros Hr Hc c'. rewrite Hr. destruct (decide (c = c')) as [<-|]; [by rewrite lookup_insert_eq, Hc|by rewrite lookup_insert_ne]. Qed.
Lemma moved_known (P : Z -> Prop) {T} (threads : gmap Z T) (gone : T -> Prop) c th' :
  (forall c', P c' -> c' = c \/ exists th, threads !! c' = Some th /\ ~ gone th) -> (P c -> ~ gone th') ->
  forall c', P c' -> exists th, <[c := th']> threads !! c' = Some th /\ ~ gone th.
Proof.
  intros Hk Hg c' Hc'. destruct (decide (c = c')) as [<-|]; [exists th'; rewrite lookup_insert_eq; auto|]. rewrite lookup_insert_ne by done.
  by destruct (Hk c' Hc').
Qed.

Lemma shell_step_ok event sh sh' : shell_ok sh -> event_typed event sh -> shell_step event sh = Ok sh' -> shell_ok sh'.
Proof.
  destruct sh as [service writers threads sweeper next]. intros [Hs Ho Hsw Hw Hr Hk] Ht.
  cbn [sh_service sh_writers sh_threads sh_sweeper sh_next_connection] in *. unfold shell_step.
  assert (forall c th' , all_sendable (th_outbox th') -> forall c' th, <[c := th']> threads !! c' = Some th -> all_sendable (th_outbox th)) as Hins.
  { intros c th' Ha c' th [[_ <-]|[_ Hth]]%lookup_insert_Some; [done|by eapply Ho]. }
  destruct event as [peer stream|c now r|c failures|c|c|now|failures].
  - intros [= <-]. split; cbn; [done| |done| | |].
    + apply Hins. by intros rm ?%elem_of_nil.
    + intros c w [[_ <-]|[_ Hw']]%lookup_insert_Some; [|by eapply Hw]. exists [], []. split; [constructor|]. by exists [].
    + by apply new_registered.
    + apply (moved_known _ threads (fun th => th_phase th = Thread_Disconnected)); [|done]. intros c Hc. right. by apply Hk.
  - destruct (threads !! c) as [[peer stream [|] phase]|] eqn:Hc; [destruct phase; try done|done..].
    destruct (serve_turn c peer now r (stream, service)) as [[stream' s'] [[msgs open]|e|]] eqn:Hrun; [|done..]. intros [= <-]. destruct Ht as [Ht Hin].
    destruct (serve_turn_served c peer now r stream stream' service s' msgs open Hs Ht) as (Hs' & Hk' & Ha).
    { intros st input. exact (Hin _ st input Hc). }
    { exact Hrun. }
    split; cbn; [done|by apply Hins|done|done|by eapply moved_registered|].
    apply (moved_known _ threads (fun th => th_phase th = Thread_Disconnected)); [|cbn; by destruct open].
    intros c' [[= ->]|Hc']%Hk'; [by left|right; by apply Hk].
  - destruct (threads !! c) as [[peer stream [|routed outbox] phase]|] eqn:Hc; [done| |done]. intros [= <-].
    pose proof (Ho _ _ Hc) as Ha. cbn in Ha. split; cbn; [done| |done| | |].
    + apply Hins. intros rm Hrm. apply Ha. by right.
    + intros c' w Hw'. eapply send_one_carries; [|exact Hw'|exact Hw]. apply Ha. by left.
    + intros c'. rewrite send_one_registered. by eapply moved_registered.
    + apply (moved_known _ threads (fun th => th_phase th = Thread_Disconnected)).
      * intros c' Hc'. right. by apply Hk.
      * intros (th & Hth & Hd)%Hk. rewrite Hc in Hth. by injection Hth as <-.
  - destruct (threads !! c) as [[peer stream [|] phase]|] eqn:Hc; [destruct phase; try done|done..]. intros [= <-].
    split; cbn; [by apply disconnect_served|by apply Hins; intros rm ?%elem_of_nil|done|done|by eapply moved_registered|].
    intros c' [Hne Hc']%disconnected_unknown. rewrite lookup_insert_ne by done. by apply Hk.
  - destruct (threads !! c) as [[peer stream outbox phase]|] eqn:Hc; [|done]. destruct phase; try done. intros [= <-]. split; cbn; try done.
    + intros c' th [_ Hth]%lookup_delete_Some. by eapply Ho.
    + intros c' w [_ Hw']%lookup_delete_Some. by eapply Hw.
    + by apply removed_registered.
    + by apply (removed_known _ threads (fun th => th_phase th = Thread_Disconnected) c _ Hc).
  - destruct sweeper as [|]; [|done]. destruct (sweeper_turn now service) as [s' [msgs|e|]] eqn:Hrun; [|done..]. intros [= <-].
    destruct (sweeper_served _ _ _ _ Hs Hrun) as (Hs' & Hk' & Ha). split; cbn; try done. intros c' [?|Hc']%Hk'; [done|by apply Hk].
  - destruct sweeper as [|routed sweeper]; [done|]. intros [= <-]. split; cbn; try done.
    + intros rm Hrm. apply Hsw. by right.
    + intros c' w Hw'. eapply send_one_carries; [|exact Hw'|exact Hw]. apply Hsw. by left.
    + intros c'. by rewrite send_one_registered.
Qed.

(** *** Over WebSocket *)

Definition readable (b : bytes) : Prop := exists m, decode_server_message b = Ok m.
Abbreviation wshell := (WsShell (S := S)).
Record ws_ok (sh : wshell) : Prop := {
  wk_served : served (ws_service sh);
  wk_batches : forall c th, ws_threads sh !! c = Some th -> Forall all_sendable (wt_batches th) /\ Forall readable (wt_sent th);
  wk_sweeper : Forall all_sendable (ws_sweeper sh);
  wk_senders : forall c q, ws_senders sh !! c = Some q -> Forall sendable q;
  wk_registered : forall c, is_Some (ws_senders sh !! c) <-> is_Some (ws_threads sh !! c);
  wk_fresh : forall c, is_Some (ws_handshakes sh !! c) -> ws_threads sh !! c = None;
  wk_known : forall c, is_Some (rs_connections (ws_service sh) !! c) -> exists th, ws_threads sh !! c = Some th /\ wt_phase th <> Ws_Disconnected
}.
Definition ws_event_typed (event : ws_event) (sh : wshell) : Prop :=
  match event with
  | Ws_Accept _ => ws_threads sh !! ws_next_connection sh = None
  | Ws_Turn _ now randomness read => turn_typed now randomness /\ match read with Ws_Binary input => octet_identifiers input | _ => True end
  | Ws_SweeperTurn now => 0 <= now
  | _ => True
  end.

Lemma ws_dispatch_ok batch senders : all_sendable batch -> (forall c q, senders !! c = Some q -> Forall sendable q) ->
  (forall c q, ws_dispatch batch senders !! c = Some q -> Forall sendable q) /\
  forall c, is_Some (ws_dispatch batch senders !! c) <-> is_Some (senders !! c).
Proof.
  unfold ws_dispatch. revert senders. induction batch as [|routed batch IH]; intros senders Hb Hs; [by split|]. cbn [fold_left].
  assert (all_sendable batch) as Hb' by (intros rm Hrm; apply Hb; by right).
  destruct (senders !! to_connection routed) as [q|] eqn:Hq; [|by apply IH].
  destruct (IH (<[to_connection routed := q ++ [message routed]]> senders) Hb') as [I1 I2].
  { intros c q' [[_ <-]|[_ Hq']]%lookup_insert_Some; [|by eapply Hs]. apply Forall_app. split; [by eapply Hs|].
    apply Forall_singleton, Hb. by left. }
  split; [done|]. intros c. rewrite I2. destruct (decide (to_connection routed = c)) as [<-|]; [by rewrite lookup_insert_eq, Hq|by rewrite lookup_insert_ne].
Qed.

Lemma ws_turn_served c peer now r read s s' batches direct open : served s -> turn_typed now r ->
  match read with Ws_Binary input => octet_identifiers input | _ => True end ->
  ws_turn c peer now r read s = (s', Ok (batches, direct, open)) ->
  served s' /\ knows (Some c) s s' /\ Forall all_sendable batches /\ match direct with Some b => readable b | None => True end.
Proof.
  intros Hs Ht Ho. assert (forall code, code ∈ [400; 404; 409; 410; 413; 429; 503] -> Forall all_sendable [[route c (ServerMessage_Error code)]]) as He.
  { intros code Hc. apply Forall_singleton. intros rm ->%list_elem_of_singleton. by apply error_sendable. }
  assert (knows (Some c) s s) as Hk by by right.
  unfold ws_turn. destruct read as [input| | | | | |].
  - destruct (decode_client_message input) as [m|e|] eqn:Hm; [|intros [= <- <- <- <-]; split_and!; [done|done|apply He; set_solver|done]|done].
    destruct r as [r|e|]; [|intros [= <- <- <- <-]; split_and!; [done|done|apply He; set_solver|done]..].
    intros Hrun. assert (exists msgs, serve_command c peer now r m s = (s', Ok msgs) /\ forall rm batch, rm ∈ batch -> batch ∈ batches -> rm ∈ msgs) as (msgs & Hc & Hin).
    { unfold serve_command. destruct (relay_sweep now s) as [s1 swept]. destruct swept as [x|e|]; [| |done].
      all: destruct (handle c peer now r m s1) as [s2 [replies|e'|]]; [| |done]; injection Hrun as <- <- _ _; eexists; (split; [reflexivity|]);
        intros rm batch Hrm [->|[->|[]%elem_of_nil]%elem_of_cons]%elem_of_cons; apply elem_of_app; auto. }
    destruct (serve_command_served _ _ _ _ _ _ _ _ _ Hs Hm Ho Ht Hc) as (Hs' & Hk' & Ha). split_and!; [done|done| |].
    + apply Forall_forall. intros batch Hb rm Hrm. apply Ha. by eapply Hin.
    + destruct (relay_sweep now s) as [s1 [x|e|]]; [| |done];
        (destruct (handle c peer now r m s1) as [s2 [replies|e'|]]; [| |done]); by injection Hrun as _ _ <- _.
  - intros [= <- <- <- <-]. split_and!; [done|done|apply He; set_solver|done].
  - intros [= <- <- <- <-]. by split_and!.
  - intros [= <- <- <- <-]. by split_and!.
  - intros [= <- <- <- <-]. by split_and!.
  - intros [= <- <- <- <-]. split_and!; [done|done|done|]. destruct (sendable_written (ServerMessage_Error 413)) as (b & -> & Hb).
    { apply error_sendable. set_solver. } by eexists.
  - intros [= <- <- <- <-]. by split_and!.
Qed.

Lemma ws_moved (service : RelayService S) (P : Z -> Prop) (threads : gmap Z WsThread) c th' :
  (forall c, is_Some (rs_connections service !! c) -> exists th, threads !! c = Some th /\ wt_phase th <> Ws_Disconnected) ->
  wt_phase th' <> Ws_Disconnected -> (forall c', P c' -> is_Some (rs_connections service !! c') \/ c' = c) ->
  forall c', P c' -> exists th, <[c := th']> threads !! c' = Some th /\ wt_phase th <> Ws_Disconnected.
Proof.
  intros Hk Hd HP. apply (moved_known P threads (fun th => wt_phase th = Ws_Disconnected)); [|done].
  intros c' [Hc'|Hc']%HP; [right; by apply Hk|by left].
Qed.
Lemma ws_inserted (threads : gmap Z WsThread) c th' :
  (forall c th, threads !! c = Some th -> Forall all_sendable (wt_batches th) /\ Forall readable (wt_sent th)) ->
  Forall all_sendable (wt_batches th') -> Forall readable (wt_sent th') ->
  forall c' th, <[c := th']> threads !! c' = Some th -> Forall all_sendable (wt_batches th) /\ Forall readable (wt_sent th).
Proof. intros Ho Ha Hb c' th [[_ <-]|[_ Hth]]%lookup_insert_Some; [done|by eapply Ho]. Qed.

(** A thread that moves on is none that waits for its handshake. *)
Lemma ws_moved_fresh (handshakes : gmap Z bytes) (threads : gmap Z WsThread) c th th' :
  (forall c, is_Some (handshakes !! c) -> threads !! c = None) -> threads !! c = Some th ->
  forall c', is_Some (handshakes !! c') -> <[c := th']> threads !! c' = None.
Proof. intros Hf Hc c' Hc'%Hf. rewrite lookup_insert_ne; [done|]. intros ->. congruence. Qed.

Lemma ws_handshake_ok c accepted sh sh' : ws_ok sh -> ws_step (Ws_Handshake c accepted) sh = Ok sh' -> ws_ok sh'.
Proof.
  destruct sh as [service handshakes senders threads sweeper next]. intros [Hs Ho Hsw Hq Hr Hf Hk]. cbn in *.
  destruct (handshakes !! c) as [peer|] eqn:Hc; [|done]. assert (forall c', is_Some (delete c handshakes !! c') -> c' <> c /\ threads !! c' = None) as Hd.
  { intros c' [p [Hne Hp]%lookup_delete_Some]. split; [done|by apply Hf]. }
  destruct accepted; intros [= <-]; split; cbn; try done.
  - by apply ws_inserted.
  - by intros c' q [[_ <-]|[_ Hq']]%lookup_insert_Some; [|eapply Hq].
  - by apply new_registered.
  - intros c' [Hne Hc']%Hd. by rewrite lookup_insert_ne.
  - eapply ws_moved; [exact Hk|done|by left].
  - intros c' Hc'. by apply Hd.
Qed.
Lemma ws_flush_ok c accepted sh sh' : ws_ok sh -> ws_step (Ws_Flush c accepted) sh = Ok sh' -> ws_ok sh'.
Proof.
  destruct sh as [service handshakes senders threads sweeper next]. intros [Hs Ho Hsw Hq Hr Hf Hk]. cbn in *.
  destruct (threads !! c) as [[peer sent [|] phase]|] eqn:Hc; [destruct phase; try done|done..].
  destruct (senders !! c) as [[|m queue]|] eqn:Hse; [done| |done]. pose proof (Hq _ _ Hse) as [Hm Hqu]%Forall_cons.
  destruct (sendable_written m Hm) as (b & Henc & Hb). unfold flush_one. rewrite Henc. intros [= <-]. destruct (Ho _ _ Hc) as [_ Hsent].
  split; cbn; [done| |done| | |by eapply ws_moved_fresh|].
  - apply ws_inserted; [done..|]. cbn. apply Forall_app. split; [done|]. apply Forall_singleton. by eexists.
  - intros c' q [[_ <-]|[_ Hq']]%lookup_insert_Some; [done|by eapply Hq].
  - by apply new_registered.
  - eapply ws_moved; [exact Hk|by destruct accepted|by left].
Qed.
Lemma ws_reader_ok c now r read sh sh' : ws_ok sh -> ws_event_typed (Ws_Turn c now r read) sh -> ws_step (Ws_Turn c now r read) sh = Ok sh' -> ws_ok sh'.
Proof.
  destruct sh as [service handshakes senders threads sweeper next]. intros [Hs Ho Hsw Hq Hr Hf Hk] [Ht Hin].
  cbn [ws_service ws_handshakes ws_senders ws_threads ws_sweeper ws_next_connection] in *. unfold ws_step.
  destruct (threads !! c) as [[peer sent [|] phase]|] eqn:Hc; [destruct phase; try done|done..].
  destruct (ws_turn c peer now r read service) as [s' [[[batches direct] open]|e|]] eqn:Hrun; [|done..]. intros [= <-].
  destruct (ws_turn_served c peer now r read service s' batches direct open Hs Ht Hin Hrun) as (Hs' & Hk' & Ha & Hd).
  destruct (Ho _ _ Hc) as [_ Hsent]. split; cbn; [done| |done|done|by eapply moved_registered|by eapply ws_moved_fresh|].
  - apply ws_inserted; [done..|]. cbn. destruct direct; [|done]. apply Forall_app. split; [done|by apply Forall_singleton].
  - eapply ws_moved; [exact Hk|by destruct open|]. intros c' [[= ->]|?]%Hk'; auto.
Qed.

Lemma ws_step_ok event sh sh' : ws_ok sh -> ws_event_typed event sh -> ws_step event sh = Ok sh' -> ws_ok sh'.
Proof.
  intros Hok Ht. destruct event as [peer|c accepted|c accepted|c|c now r read|c|c|c|now|]; [|by apply ws_handshake_ok|by apply ws_flush_ok| |by apply ws_reader_ok|..].
  all: destruct sh as [service handshakes senders threads sweeper next], Hok as [Hs Ho Hsw Hq Hr Hf Hk].
  all: cbn [ws_service ws_handshakes ws_senders ws_threads ws_sweeper ws_next_connection] in *; unfold ws_step.
  - intros [= <-]. split; cbn; try done. by intros c' [p [[<- _]|[_ Hp]]%lookup_insert_Some]; [|apply Hf].
  - destruct (threads !! c) as [[peer sent [|] phase]|] eqn:Hc; [destruct phase; try done|done..]. destruct (senders !! c) as [[|]|]; [|done..].
    intros [= <-]. destruct (Ho _ _ Hc) as [_ Hsent].
    split; cbn; [done|by apply ws_inserted|done|done|by eapply moved_registered|by eapply ws_moved_fresh|].
    eapply ws_moved; [exact Hk|done|by left].
  - destruct (threads !! c) as [[peer sent [|batch batches] phase]|] eqn:Hc; [done| |done]. intros [= <-].
    destruct (Ho _ _ Hc) as [[Hb Hbs]%Forall_cons Hsent]. destruct (ws_dispatch_ok batch senders Hb Hq) as [D1 D2].
    split; cbn; [done|by apply ws_inserted|done|done| |by eapply ws_moved_fresh|].
    + intros c'. rewrite D2. by eapply moved_registered.
    + apply (moved_known _ threads (fun th => wt_phase th = Ws_Disconnected)); [intros c' Hc'; right; by apply Hk|].
      intros (th & Hth & Hd)%Hk. rewrite Hc in Hth. by injection Hth as <-.
  - destruct (threads !! c) as [[peer sent [|] phase]|] eqn:Hc; [destruct phase; try done|done..]. intros [= <-]. destruct (Ho _ _ Hc) as [_ Hsent].
    split; cbn; [by apply disconnect_served|by apply ws_inserted|done|done|by eapply moved_registered|by eapply ws_moved_fresh|].
    intros c' [Hne Hc']%disconnected_unknown. rewrite lookup_insert_ne by done. by apply Hk.
  - destruct (threads !! c) as [[peer sent batches phase]|] eqn:Hc; [|done]. destruct phase; try done. intros [= <-]. split; cbn; try done.
    + intros c' th [_ Hth]%lookup_delete_Some. by eapply Ho.
    + intros c' w [_ Hw']%lookup_delete_Some. by eapply Hq.
    + by apply removed_registered.
    + intros c' Hc'%Hf. apply lookup_delete_None. by right.
    + by apply (removed_known _ threads (fun th => wt_phase th = Ws_Disconnected) c _ Hc).
  - destruct sweeper as [|]; [|done]. destruct (sweeper_turn now service) as [s' [msgs|e|]] eqn:Hrun; [|done..]. intros [= <-].
    destruct (sweeper_served _ _ _ _ Hs Hrun) as (Hs' & Hk' & Ha). split; cbn; try done; [by apply Forall_singleton|].
    intros c' [?|Hc']%Hk'; [done|by apply Hk].
  - destruct sweeper as [|batch sweeper]; [done|]. intros [= <-]. apply Forall_cons in Hsw as [Hb Hbs].
    destruct (ws_dispatch_ok batch senders Hb Hq) as [D1 D2]. split; cbn; try done. intros c'. by rewrite D2.
Qed.
End Shells.

(** ** The operator's key, exactly *)

Lemma drop_while_split f b : exists dropped, b = dropped ++ drop_while f b /\ Forall (fun x => f x = true) dropped.
Proof.
  induction b as [|x b (d & Hb & Hd)]; [by exists []|]. cbn. destruct (f x) eqn:Hx; [|by exists []].
  exists (x :: d). split; [cbn; by f_equal|by constructor].
Qed.
Lemma trim_split b : exists ends, b = trim_line_ends b ++ ends /\ Forall (fun x => line_end x = true) ends.
Proof.
  destruct (drop_while_split line_end (reverse b)) as (d & Hb & Hd). exists (reverse d). unfold trim_line_ends. split.
  - rewrite <- reverse_app, <- Hb. by rewrite reverse_involutive.
  - by apply Forall_reverse.
Qed.
Lemma drop_while_app f d b : Forall (fun x => f x = true) d -> (forall x, head b = Some x -> f x = false) -> drop_while f (d ++ b) = b.
Proof.
  intros Hd Hb. induction Hd as [|x d Hx _ IH]; cbn; [|by rewrite Hx]. destruct b as [|y b]; [done|]. cbn. by rewrite (Hb y).
Qed.
Lemma trim_app text ends : Forall (fun x => line_end x = true) ends -> Forall (fun x => line_end x = false) text -> trim_line_ends (text ++ ends) = text.
Proof.
  intros He Ht. unfold trim_line_ends. rewrite reverse_app, drop_while_app; [apply reverse_involutive|by apply Forall_reverse|].
  intros x Hx. apply Forall_reverse in Ht. destruct (reverse text) as [|y l]; [done|]. injection Hx as <-. by apply Forall_cons in Ht as [? _].
Qed.
Lemma ascii_utf8 b : Forall (fun x => 0 <= x < 128) b -> utf8_valid b = true.
Proof. induction 1 as [|x b Hx _ IH]; [done|]. cbn. by rewrite (proj2 (Z.ltb_lt x 128)) by lia. Qed.

Lemma nibble_digit d : 0 <= d < 16 -> hex_nibble (hex_digit d) = Ok d /\ is_ascii_hexdigit (hex_digit d) = true /\ 48 <= hex_digit d <= 102.
Proof.
  intros Hd. unfold hex_nibble, hex_digit, is_ascii_hexdigit. destruct (d <? 10) eqn:E; bool_to_prop.
  - rewrite (proj2 (Z.leb_le 48 (48 + d))), (proj2 (Z.leb_le (48 + d) 57)) by lia. cbn. split_and!; [f_equal; lia|done|lia..].
  - rewrite (proj2 (Z.leb_le 48 (87 + d))), (proj2 (Z.leb_gt (87 + d) 57)), (proj2 (Z.leb_le 97 (87 + d))), (proj2 (Z.leb_le (87 + d) 102)) by lia.
    cbn. split_and!; [f_equal; lia|done|lia..].
Qed.
Lemma nibble_inverse x d : hex_nibble x = Ok d -> 0 <= d < 16 /\ x = hex_digit d.
Proof.
  unfold hex_nibble, hex_digit. destruct ((48 <=? x) && (x <=? 57)) eqn:E1; [|destruct ((97 <=? x) && (x <=? 102)) eqn:E2; [|done]]; intros [= <-].
  - apply andb_true_iff in E1 as [? ?]. bool_to_prop. rewrite (proj2 (Z.ltb_lt (x - 48) 10)) by lia. lia.
  - apply andb_true_iff in E2 as [? ?]. bool_to_prop. rewrite (proj2 (Z.ltb_ge (x - 97 + 10) 10)) by lia. lia.
Qed.
Lemma nibbles_octet h l : 0 <= h < 16 -> 0 <= l < 16 ->
  let x := Z.lor (Z.shiftl h 4 mod 256) l in 0 <= x <= u8_max /\ Z.shiftr x 4 = h /\ Z.land x 15 = l.
Proof.
  intros Hh Hl. cbv zeta.
  assert (forallb (fun h => forallb (fun l => let x := Z.lor (Z.shiftl h 4 mod 256) l in
    (0 <=? x) && (x <=? u8_max) && (Z.shiftr x 4 =? h) && (Z.land x 15 =? l)) (seqZ 0 16)) (seqZ 0 16) = true) as Hall by by vm_compute.
  rewrite forallb_forall in Hall. specialize (Hall h ltac:(apply list_elem_of_In, elem_of_seqZ; lia)). rewrite forallb_forall in Hall.
  specialize (Hall l ltac:(apply list_elem_of_In, elem_of_seqZ; lia)). cbv zeta in Hall. rewrite !andb_true_iff in Hall. destruct Hall as [[[? ?] ?] ?].
  bool_to_prop. lia.
Qed.
Lemma octet_split x : 0 <= x <= u8_max -> 0 <= Z.shiftr x 4 < 16 /\ 0 <= Z.land x 15 < 16 /\ Z.lor (Z.shiftl (Z.shiftr x 4) 4 mod 256) (Z.land x 15) = x.
Proof.
  intros Hx. assert (forallb (fun x => (0 <=? Z.shiftr x 4) && (Z.shiftr x 4 <? 16) && (0 <=? Z.land x 15) && (Z.land x 15 <? 16) &&
    (Z.lor (Z.shiftl (Z.shiftr x 4) 4 mod 256) (Z.land x 15) =? x)) (seqZ 0 256) = true) as Hall by by vm_compute.
  rewrite forallb_forall in Hall. specialize (Hall x ltac:(apply list_elem_of_In, elem_of_seqZ; unfold u8_max in *; lia)).
  rewrite !andb_true_iff in Hall. destruct Hall as [[[[? ?] ?] ?] ?]. bool_to_prop. lia.
Qed.

Lemma key_octets_inverse n text k : length text = (2 * n)%nat -> key_octets text = Ok k ->
  text = lower_hex k /\ length k = n /\ Forall (fun x => 0 <= x <= u8_max) k.
Proof.
  revert text k. induction n as [|n IH]; intros text k Hl.
  { destruct text; [|done]. intros [= <-]. by split_and!. }
  destruct text as [|h [|l text]]; [cbn in Hl; lia..|]. cbn [key_octets].
  intros (a & [Ha ->]%nibble_inverse & (b & [Hb ->]%nibble_inverse & (rest & Hr & [= <-])%bind_ok)%bind_ok)%bind_ok.
  destruct (IH text rest ltac:(cbn in Hl; lia) Hr) as (-> & Hlen & Hf). destruct (nibbles_octet a b Ha Hb) as (Hx & H1 & H2).
  cbn [lower_hex]. rewrite H1, H2. split_and!; [done|cbn; by rewrite Hlen|by constructor].
Qed.
Lemma key_octets_lower k : Forall (fun x => 0 <= x <= u8_max) k -> key_octets (lower_hex k) = Ok k.
Proof.
  induction 1 as [|x k Hx _ IH]; [done|]. cbn [lower_hex key_octets]. destruct (octet_split x Hx) as (Ha & Hb & Heq).
  destruct (nibble_digit _ Ha) as [-> _]. destruct (nibble_digit _ Hb) as [-> _]. rewrite !ok_bind, IH, ok_bind. by rewrite Heq.
Qed.
Lemma lower_hex_digits k : Forall (fun x => 0 <= x <= u8_max) k ->
  Forall (fun x => is_ascii_hexdigit x = true /\ 48 <= x <= 102) (lower_hex k) /\ length (lower_hex k) = (2 * length k)%nat.
Proof.
  induction 1 as [|x k Hx _ [IH Hl]]; [done|]. destruct (octet_split x Hx) as (Ha & Hb & _).
  destruct (nibble_digit _ Ha) as (_ & ? & ?). destruct (nibble_digit _ Hb) as (_ & ? & ?). cbn [lower_hex]. split; [by rewrite !Forall_cons|cbn; lia].
Qed.

(** The conditions on the file, then the digits. *)
Definition readable_key (mode : outcome string Z) (contents : outcome string bytes) (octets : bytes) : Prop :=
  exists bits, mode = Ok bits /\ Z.land bits 63 = 0 /\ contents = Ok octets.
Lemma lower_hex_file k ends : length k = 32%nat -> Forall (fun x => 0 <= x <= u8_max) k -> Forall (fun x => line_end x = true) ends ->
  let octets := lower_hex k ++ ends in
  blen octets <> 32 /\ utf8_valid octets = true /\ trim_line_ends octets = lower_hex k /\ blen (lower_hex k) = 64 /\
  forallb is_ascii_hexdigit (lower_hex k) = true /\ key_octets (lower_hex k) = Ok k.
Proof.
  intros Hl Hk He. destruct (lower_hex_digits k Hk) as [Hd Hlen]. cbv zeta. rewrite Forall_forall in Hd. split_and!.
  - unfold blen. rewrite length_app. lia.
  - apply ascii_utf8, Forall_app. split; apply Forall_forall; intros x Hx; [by apply Hd in Hx as [_ ?]; lia|].
    rewrite Forall_forall in He. apply He, orb_true_iff in Hx. unfold line_end in Hx. destruct Hx; bool_to_prop; lia.
  - apply trim_app; [done|]. apply Forall_forall. intros x [_ Hx]%Hd. unfold line_end. apply orb_false_iff. split; apply Z.eqb_neq; lia.
  - unfold blen. lia.
  - apply forallb_forall. intros x Hx%list_elem_of_In. by apply Hd in Hx as [? _].
  - by apply key_octets_lower.
Qed.
Lemma hex_text_ok octets k : blen (trim_line_ends octets) = 64 -> key_octets (trim_line_ends octets) = Ok k ->
  exists ends, octets = lower_hex k ++ ends /\ Forall (fun x => line_end x = true) ends /\ length k = 32%nat /\ Forall (fun x => 0 <= x <= u8_max) k.
Proof.
  intros Hb Hk. destruct (trim_split octets) as (ends & Ho & He). unfold blen in Hb.
  destruct (key_octets_inverse 32 (trim_line_ends octets) k ltac:(lia) Hk) as (Ht & Hl & Hf). exists ends. by rewrite <- Ht.
Qed.

(** C32. Both programs read the same operator keys: a file that group and
    others cannot touch and that holds either 32 octets, which are the key, or
    the 64 lower-case hexadecimal digits of the key, perhaps followed by line
    ends; every other file is refused. *)
Theorem operator_key_exact mode contents k :
  (read_operator_key mode contents = Ok k <->
   exists octets, readable_key mode contents octets /\
     (blen octets = 32 /\ k = octets \/
      exists ends, octets = lower_hex k ++ ends /\ Forall (fun x => line_end x = true) ends /\
        length k = 32%nat /\ Forall (fun x => 0 <= x <= u8_max) k)) /\
  (ws_read_operator_key mode contents = Ok k <-> read_operator_key mode contents = Ok k).
Proof.
  unfold read_operator_key, ws_read_operator_key, readable_key.
  destruct mode as [bits|e|]; [|split; [split; [done|by intros (o & (b & [=] & _) & _)]|done]..]. cbn [map_err]. rewrite !ok_bind.
  destruct (Z.land bits 63 =? 0) eqn:Hb; cbn [negb].
  2: { split; [split; [done|]|done]. intros (o & (b & [= <-] & Hz & _) & _). by apply Z.eqb_neq in Hb. }
  destruct contents as [octets|e|]; [|split; [split; [done|by intros (o & (b & _ & _ & [=]) & _)]|done]..]. cbn [map_err]. rewrite !ok_bind.
  apply Z.eqb_eq in Hb. cbv zeta. destruct (blen octets =? 32) eqn:H32.
  - split; [|done]. split; [intros [= <-]; exists octets; split; [by exists bits|left; split; [lia|done]]|].
    intros (o & (b & _ & _ & [= <-]) & [[_ ->]|(ends & -> & He & Hl & Hk)]); [done|]. destruct (lower_hex_file k ends Hl Hk He) as [Hne _]. lia.
  - assert (key_octets (trim_line_ends octets) = Ok k -> blen (trim_line_ends octets) = 64 -> exists ends, octets = lower_hex k ++ ends /\
      Forall (fun x => line_end x = true) ends /\ length k = 32%nat /\ Forall (fun x => 0 <= x <= u8_max) k) as Hhex by (intros; by apply hex_text_ok).
    split; [split|].
    + destruct (utf8_valid octets); [cbn [negb]|done]. destruct (blen (trim_line_ends octets) =? 64) eqn:H64; [cbn [negb orb]|done].
      destruct (forallb _ _); [cbn [negb]|done]. intros Hx. exists octets. split; [by exists bits|right; apply Hhex; [done|lia]].
    + intros (o & (b & _ & _ & [= <-]) & [[? ->]|(ends & -> & He & Hl & Hk)]); [lia|].
      destruct (lower_hex_file k ends Hl Hk He) as (_ & -> & -> & -> & -> & ->). done.
    + destruct (utf8_valid octets); [cbn [negb]|done]. destruct (blen (trim_line_ends octets) =? 64) eqn:H64; [cbn [negb orb]|done].
      destruct (forallb _ _) eqn:Hf; [done|]. split; [|done]. intros Hx. destruct (Hhex Hx ltac:(lia)) as (ends & Ho & He & Hl & Hk).
      destruct (lower_hex_file k ends Hl Hk He) as (_ & _ & Ht & _ & Hd & _). rewrite Ho, Ht, Hd in Hf. done.
Qed.

(** ** From the command line to the threads *)

Section Programs.
Context `{Sha256, !Sha256Laws, HmacSha256, Cbor, !CborLaws, Cddl, !CddlLaws} {Addr : Type} `{AddressParser Addr}.

#[export] Instance boxed_laws : StoreLaws BoxedStore.
Proof.
  assert (forall {A} (file : stM FileMailboxStore StoreError A) memory b s' r, boxed file memory b = (s', r) ->
    match b with
    | Boxed_File st => exists st', file st = (st', r) /\ s' = Boxed_File st'
    | Boxed_Memory st => exists st', memory st = (st', r) /\ s' = Boxed_Memory st'
    end) as Hb.
  { intros A file memory [st|st] s' r; cbn; [destruct (file st) as [st' r']|destruct (memory st) as [st' r']]; intros [= <- <-]; by exists st'. }
  refine {| holds b m := match b with Boxed_File st => holds st m | Boxed_Memory st => holds st m end |}.
  - intros b m mb s' r Hh Hmb Hp%(Hb _ (store_put mb) (store_put mb)). destruct b; destruct Hp as (st' & Hp & ->); by eapply holds_put.
  - intros b m id s' r Hh Hid Hp%(Hb _ (store_remove id) (store_remove id)). destruct b; destruct Hp as (st' & Hp & ->); by eapply holds_remove.
  - intros b m s' r Hh Hp%(Hb _ store_load store_load). destruct b; destruct Hp as (st' & Hp & ->); by eapply holds_load.
Defined.

Lemma relay_config_ok key (args : Args (Addr := Addr)) : relay_config_typed (relay_config key args).
Proof.
  split; cbn; [|unfold DEFAULT_MAILBOX_CAP, u64_max; lia|unfold DEFAULT_QUEUE_CAP, u64_max; lia].
  split_and!; [done|done|]. by repeat constructor.
Qed.
Lemma started_fresh {S} `{MailboxStore S} c store (s : RelayService S) : with_store c store = Ok s -> rs_connections s = ∅.
Proof.
  unfold with_store. destruct (_ || _); [done|]. intros (lim & _ & Hs)%bind_ok. destruct (store_load store) as [st r].
  apply bind_ok in Hs as (mbs & _ & (l & _ & Hs)%bind_ok). destruct (_ || _); [done|]. by injection Hs as <-.
Qed.

(** A path holds what an earlier run of the program left there, or nothing. *)
Definition kept_files (files : string -> FileMailboxStore) : Prop := forall path, exists m, holds (files path) m /\ registry m.

Lemma started_durable config store_dir files s : relay_config_typed config -> kept_files files -> started config store_dir files = Ok s ->
  durable s /\ rs_connections s = ∅.
Proof.
  intros Hc Hf Hs. unfold started in Hs.
  assert (exists store m, holds (store : BoxedStore) m /\ registry m /\ with_store config store = Ok s) as (store & m & Hh & Hr & Hw).
  { destruct store_dir as [path|].
    - destruct (Hf path) as (m & Hh & Hr). destruct (file_open (files path)) as [st [[]|e|]] eqn:Ho; [|done..].
      exists (Boxed_File st), m. split_and!; [|done|by apply map_err_ok in Hs].
      assert (forall fs fs', holds fs m -> no_effect fs = (fs', Ok tt) -> holds fs' m) as Hn by (intros fs fs' Hfs Hn; by pose proof (no_effect_triple m _ _ _ Hfs Hn)).
      unfold file_open, mbind, stM_bind in Ho. destruct (no_effect (files path)) as [s1 [[]|e|]] eqn:Hn1; [|done..].
      by eapply Hn, Ho; eapply Hn.
    - exists (Boxed_Memory (mkMemoryMailboxStore ∅)), ∅. split_and!; [|by intros id mb ?%lookup_empty_Some|by apply map_err_ok in Hs].
      split; [by intros id mb ?%lookup_empty_Some..|]. intros id b Hb. simpl in Hb. by apply lookup_empty_Some in Hb. }
  split; [by eapply start_durable|by eapply started_fresh].
Qed.

Lemma run_durable parsed key files now listen s : kept_files files -> run_with (Addr := Addr) parsed key files now = Ok (Startup_Serving listen s) ->
  durable s /\ rs_connections s = ∅.
Proof.
  intros Hf. unfold run_with. intros (args & _ & (k & _ & (service & Hst & Hrun)%bind_ok)%bind_ok)%bind_ok.
  destruct (ar_emergency_close args).
  { destruct (bool_decide _) in Hrun; [done|]. by destruct (emergency_close now service) as [s' [x|e|]]. }
  destruct (ar_check_config args); [done|]. injection Hrun as _ <-. by eapply started_durable; [apply relay_config_ok|..].
Qed.
End Programs.

(** ** Runs of the programs *)

Section Reach.
Context {S : Type} `{MailboxStore S, Sha256, HmacSha256, Cbor, Cddl}.
Inductive shell_reach (s0 : RelayService S) : Shell (S := S) -> Prop :=
| shell_begin : shell_reach s0 (shell_start s0)
| shell_next sh event sh' : shell_reach s0 sh -> event_typed event sh -> shell_step event sh = Ok sh' -> shell_reach s0 sh'.
Inductive ws_reach (s0 : RelayService S) : WsShell (S := S) -> Prop :=
| ws_begin : ws_reach s0 (ws_start s0)
| ws_next sh event sh' : ws_reach s0 sh -> ws_event_typed event sh -> ws_step event sh = Ok sh' -> ws_reach s0 sh'.

Lemma shell_reach_ok `{!Sha256Laws, !CborLaws, !CborSizeLaws, !CddlLaws} s0 sh : served s0 -> rs_connections s0 = ∅ -> shell_reach s0 sh -> shell_ok sh.
Proof.
  intros Hs Hc. induction 1 as [|sh event sh' _ IH Ht Hstep]; [|by eapply shell_step_ok]. split; cbn.
  - done.
  - by intros c th ?%lookup_empty_Some.
  - by intros rm ?%elem_of_nil.
  - by intros c w ?%lookup_empty_Some.
  - intros c. by rewrite !lookup_empty.
  - intros c. rewrite Hc, lookup_empty. by intros [].
Qed.
Lemma ws_reach_ok `{!Sha256Laws, !CborLaws, !CborSizeLaws, !CddlLaws} s0 sh : served s0 -> rs_connections s0 = ∅ -> ws_reach s0 sh -> ws_ok sh.
Proof.
  intros Hs Hc. induction 1 as [|sh event sh' _ IH Ht Hstep]; [|by eapply ws_step_ok]. split; cbn.
  - done.
  - by intros c th ?%lookup_empty_Some.
  - done.
  - by intros c q ?%lookup_empty_Some.
  - intros c. by rewrite !lookup_empty.
  - intros c. by rewrite !lookup_empty.
  - intros c. rewrite Hc, lookup_empty. by intros [].
Qed.
End Reach.

(** C9. The relay's programs serve well-formed messages to whoever connects.
    Started from any command line and key file, with the files of an earlier run
    or none, and whatever octets the peers send, whichever writes fail and
    however the threads take their turns: the service keeps its invariant; over
    TCP, a connection's socket has been given a sequence of messages that the
    wire decoder accepts, each frame cut where a write failed, and while none
    has failed a reader of the same framing takes apart exactly these messages;
    what a thread or the sweeper sends next adds exactly its frame, cut where a
    write fails, to the socket of its connection while that is registered, and
    nothing elsewhere; over WebSocket every binary message given to a socket is
    one that the decoder accepts, and none in a queue fails to be encoded; and the service knows no
    connection that no thread serves. *)
Theorem programs_serve `{Sha256, !Sha256Laws, HmacSha256, Cbor, !CborLaws, !CborSizeLaws, Cddl, !CddlLaws} {Addr : Type} `{AddressParser Addr}
    args mode contents files now (listen : Addr) s0 : kept_files files ->
  (relay_run args mode contents files now = Ok (Startup_Serving listen s0) -> forall sh, shell_reach s0 sh ->
     relay_ok (sh_service sh) /\
     (forall c w, sh_writers sh !! c = Some w -> exists ms bs, carries w ms bs /\
        (wr_failed w = false -> wr_octets w = mjoin (frame_octets <$> bs) /\
           read_each (length bs) (mkTcpStream (wr_octets w) false) = (mkTcpStream [] false, Ok bs))) /\
     (forall c th routed w failures, sh_threads sh !! c = Some th -> routed ∈ th_outbox th ++ sh_sweeper sh ->
        sh_writers sh !! to_connection routed = Some w ->
        exists b, decode_server_message b = Ok (message routed) /\ fits b /\
          send_one routed failures (sh_writers sh) =
            <[to_connection routed := mkWriter (wr_octets w ++ torn_frame failures b) (wr_failed w || negb (whole failures))]> (sh_writers sh)) /\
     (forall c, is_Some (rs_connections (sh_service sh) !! c) -> is_Some (sh_threads sh !! c) /\ is_Some (sh_writers sh !! c))) /\
  (ws_run args mode contents files now = Ok (Startup_Serving listen s0) -> forall sh, ws_reach s0 sh ->
     relay_ok (ws_service sh) /\
     (forall c th, ws_threads sh !! c = Some th -> Forall readable (wt_sent th)) /\
     (forall c q, ws_senders sh !! c = Some q -> Forall (fun m => exists b, encode_server_message m = Ok b) q) /\
     (forall c, is_Some (rs_connections (ws_service sh) !! c) -> is_Some (ws_threads sh !! c) /\ is_Some (ws_senders sh !! c))).
Proof.
  intros Hf. split; intros Hrun sh Hreach; destruct (run_durable _ _ _ _ _ _ Hf Hrun) as [[Hok Hreg _] Hc].
  - destruct (shell_reach_ok _ _ (Build_served _ Hok Hreg) Hc Hreach) as [[Hok' _] Ho Hsw Hw Hr Hk]. split_and!; [done| | |].
    + intros c w Hcw. destruct (Hw c w Hcw) as (ms & bs & Hms). exists ms, bs. split; [done|]. intros Hn. by apply (carries_read w ms bs).
    + intros c th routed w failures Hth Hin Hw'. assert (sendable (message routed)) as Hs.
      { apply elem_of_app in Hin as [Hin|Hin]; [by eapply Ho|by apply Hsw]. }
      destruct (send_one_exact routed failures _ _ Hs Hw') as (b & _ & Hd & Hfit & Heq). by exists b.
    + intros c (th & Hth & _)%Hk. rewrite Hr. by rewrite Hth.
  - destruct (ws_reach_ok _ _ (Build_served _ Hok Hreg) Hc Hreach) as [[Hok' _] Ho _ Hq Hr _ Hk]. split_and!; [done| | |].
    + intros c th Hth. by apply (Ho c th).
    + intros c q Hcq. eapply Forall_impl; [by eapply Hq|]. intros m Hm. destruct (sendable_written m Hm) as (b & Hb & _). by exists b.
    + intros c (th & Hth & _)%Hk. rewrite Hr. by rewrite Hth.
Qed.

(** ** A concrete run *)

#[local] Existing Instances schema_validator schema_validator_laws.
#[local] Instance plain_addresses : AddressParser string := Some.

Definition demo_args : list string :=
  ["--listen"; "127.0.0.1:7"; "--operator-key-file"; "key"; "--enable-conformance-allocation"].
(** The key in hexadecimal, with a line end; no other file matters. *)
Definition demo_key_file (path : string) : outcome string bytes := Ok (lower_hex (replicate 32 171) ++ [13; 10]).
Definition demo_files (path : string) : FileMailboxStore := mkFileMailboxStore ∅ [49] [].
Definition demo_program : outcome string (Startup (Addr := string)) := relay_run demo_args (fun _ => Ok 384) demo_key_file demo_files 5.
Definition bind_octets : bytes := match encode_client_message ClientMessage_Bind with Ok b => b | _ => [] end.
(** A peer that binds, then ends its stream inside a length. *)
Definition demo_stream : TcpStream := mkTcpStream (frame_octets bind_octets ++ [0; 0]) false.
Definition demo_random : RelayRandomness := mkRelayRandomness (replicate 32 1) (replicate 32 2) 7.

Definition shell_do {S} `{MailboxStore S, Sha256, HmacSha256, Cbor, Cddl} (event : shell_event) (sh : Shell (S := S)) : Shell :=
  match shell_step event sh with Ok sh => sh | _ => sh end.
Lemma do_reach {S} `{MailboxStore S, Sha256, HmacSha256, Cbor, Cddl} (s0 : RelayService S) event sh :
  shell_reach s0 sh -> event_typed event sh -> shell_reach s0 (shell_do event sh).
Proof. intros Hr Ht. unfold shell_do. destruct (shell_step event sh) as [sh'|e|] eqn:Hs; [|exact Hr..]. by eapply shell_next. Qed.

(** The connection is accepted and its first message served and answered. *)
Definition greeted {S} `{MailboxStore S, Sha256, HmacSha256, Cbor, Cddl} (stream : TcpStream) (s0 : RelayService S) : Shell :=
  shell_do (Shell_Send 1 (None, None)) (shell_do (Shell_Turn 1 6 (Ok demo_random)) (shell_do (Shell_Accept [49] stream) (shell_start s0))).
Lemma greeted_reach {S} `{MailboxStore S, Sha256, HmacSha256, Cbor, Cddl} (s0 : RelayService S) stream :
  (forall st input, read_message stream = (st, Ok (Some input)) -> octet_identifiers input) -> shell_reach s0 (greeted stream s0).
Proof.
  intros Ho. apply do_reach; [|done]. apply do_reach; [apply do_reach; [apply shell_begin|done]|].
  split; [split; [done|]; split_and!; [by split; [|repeat constructor]|done|done]|].
  intros th st input Hth. cbn in Hth. apply lookup_insert_Some in Hth as [[_ <-]|[? _]]; [|done]. apply Ho.
Qed.

Lemma greeting_read : match read_message demo_stream with (_, Ok (Some b)) => bool_decide (b = bind_octets) | _ => false end = true.
Proof. vm_cast_no_check (eq_refl true). Qed.
Lemma demo_bind : match decode_client_message bind_octets with Ok ClientMessage_Bind => true | _ => false end = true.
Proof. vm_cast_no_check (eq_refl true). Qed.
Lemma demo_identifiers st input : read_message demo_stream = (st, Ok (Some input)) -> octet_identifiers input.
Proof.
  pose proof greeting_read as Hr. pose proof demo_bind as Hb. revert Hr Hb. generalize demo_stream bind_octets. intros stream octets Hr Hb Heq.
  rewrite Heq in Hr. apply bool_decide_eq_true in Hr as ->. intros id cm ttl Hd. by rewrite Hd in Hb.
Qed.
Lemma demo_greeted : match demo_program with
  | Ok (Startup_Serving _ s0) => match sh_writers (greeted demo_stream s0) !! 1 with Some (mkWriter (_ :: _) false) => true | _ => false end
  | _ => false end = true.
Proof. vm_cast_no_check (eq_refl true). Qed.
Lemma demo_serving : exists listen s0 octet w, demo_program = Ok (Startup_Serving listen s0) /\
  sh_writers (greeted demo_stream s0) !! 1 = Some (mkWriter (octet :: w) false).
Proof.
  pose proof demo_greeted as Hg. destruct demo_program as [[?| |listen s0]|e|]; [discriminate Hg..| |discriminate Hg|discriminate Hg].
  revert Hg. generalize demo_stream. intros stream Hg. destruct (_ !! 1) as [[[|octet w] []]|] eqn:Hw; [discriminate Hg..| |discriminate Hg].
  exists listen, s0, octet, w. by split.
Qed.
Lemma demo_files_kept : kept_files demo_files.
Proof.
  intros path. exists ∅. split; [|by intros id mb ?%lookup_empty_Some]. split; [done|by intros id mb ?%lookup_empty_Some|by intros id mb ?%lookup_empty_Some|].
  intros name b Hb. simpl in Hb. by apply lookup_empty_Some in Hb.
Qed.

Lemma programs_serve_witness : exists listen s0 octet w ms bs, demo_program = Ok (Startup_Serving listen s0) /\
  sh_writers (greeted demo_stream s0) !! 1 = Some (mkWriter (octet :: w) false) /\ carries (mkWriter (octet :: w) false) ms bs /\
  read_each (length bs) (mkTcpStream (octet :: w) false) = (mkTcpStream [] false, Ok bs).
Proof.
  destruct demo_serving as (listen & s0 & octet & w & Hrun & Hw).
  destruct (proj1 (programs_serve demo_args (fun _ => Ok 384) demo_key_file demo_files 5 listen s0 demo_files_kept) Hrun _
    (greeted_reach s0 demo_stream demo_identifiers)) as (_ & Hwr & _).
  destruct (Hwr 1 _ Hw) as (ms & bs & Hms & Hread). exists listen, s0, octet, w, ms, bs.
  split; [exact Hrun|]. split; [exact Hw|]. split; [exact Hms|exact (proj2 (Hread eq_refl))].
Defined.
